(* ===== verification/_CoqProject ===== *)
-Q . S2P
Prelude.v
GoStd.v
Errors.v
Jid.v
Policy.v
Limiter.v
Message.v
Values.v
Json.v
Idem.v
Ports.v
Dispatch.v
Admin.v
Gate.v
Draft.v
DraftQueue.v
Schedule.v
ScheduleRunner.v
ScheduleFire.v
Chain.v
Rest.v
EventRing.v
EventStream.v
Transport.v
Envelope.v
Projection.v
Bridge.v
Sse.v
Webhook.v
Watchdog.v
Profile.v
FileSys.v
MediaCas.v
AllowFile.v
Migrate.v
Marker.v
MigrateSafe.v
MediaApi.v
History.v
RestMedia.v
Client.v
HistoryApi.v
Contacts.v
Mcp.v
Labels.v
