(* ===== verification/Prelude.v ===== *)
(** * A verification library for the wa / wad WhatsApp daemon

    [wad] is a daemon that holds one WhatsApp session and lets local programs
    use it: the [wa] command line over a Unix socket, and HTTP clients over a
    REST endpoint.  Because those clients are often automated agents, what the
    program is about is restraint: an allowlist of recipients and actions, rate
    limits, idempotent retries, a queue of drafts a human decides, delayed
    sends, an audit trail, and an event stream that says when it lost
    something.  This library models that logic, from the sources under [src/],
    and proves it.

    ** How the program is put together

    A request reaches [internal/app/dispatcher.go] ([Handle]) from the socket
    adapter ([internal/adapters/primary/socket]) or, after the token gate, from
    the REST adapter ([internal/adapters/primary/rest]).  A handler
    ([internal/app/method_*.go]) decodes its parameters into values of package
    [internal/domain], asks the safety pipeline, calls a port, writes an audit
    record and answers.  Ports are implemented by [internal/adapters/secondary]
    (the whatsmeow client, SQLite stores, in-memory stores, the audit file).
    Inbound events go the other way, through the durable ring to the
    subscribers.  Timers fire scheduled sends through the same pipeline.

    ** The files

    - [Prelude]: results and their notation, tactics, list lemmas; [MapRange],
      an arbitrary iteration order of a Go map.  [GoStd]: bytes, UTF-8, wrapped
      integers, times.  [Errors]: error values, wrapping ([errors.Is] and
      [errors.As]) and the JSON-RPC wire table of [rpcwire.go].  [Json]: JSON
      values and the decoding of parameters into structs.
    - [Jid], [Policy], [Message], [Values]: package [domain], one section per
      source file; the allowlist is a map from JIDs to 32-bit permission sets.
    - [Limiter]: [ratelimiter.go] and [safety.go].  The token bucket of
      golang.org/x/time/rate is the class [RateBucket], whose law is the
      documented bound; an instance meets it.
    - [Idem]: the request fingerprint and the two idempotency stores, instances
      of [IdempotencyPort]: a lookup and a store with the callback in between,
      outside the lock, and the step relation [da_step] in which calls overlap.
    - [Ports]: the ports as the class [Ports] over an abstract world, the state
      monad of a handler, whose state holds the pipeline, the world and the
      trace of every outbound call, upstream query and audit record, and the
      Hoare triples the handlers are proved with.
    - [Dispatch], [Admin]: every mutating handler, statement by statement.
      [Gate]: [Handle] with its method table, all 84 rows of it by name, and the
      theorems about all of them together; the rows of the other components run
      their own files.
    - [Draft], [DraftQueue]: [domain/draft.go], the two stores as instances of
      [DraftPort] and [DraftLaw], the sweeper, the draft methods, histories.
    - [Schedule], [ScheduleRunner], [ScheduleFire]: the scheduled-send entity
      and its table; the runner's timers as the step relation [runner_step];
      [Fire] and the schedule methods, whole and as interleaved sections.
    - [Chain]: the HMAC-chained audit file as bytes ([slogaudit]).
    - [Rest]: scopes, both token verifiers, [handleRPC], the token store.
    - [EventRing], [EventStream]: the event ring and its two stores; the
      subscriptions, mailbox, resume, live fan-out and heartbeat of the socket.
    - [Transport]: the socket below the subscriptions: greeting, frame cap,
      accept and dispatch, listening, and the single-instance lock.
    - [Envelope], [Projection]: [channelwrap.go] with a reference reader of the
      envelope; [domain/event.go] and what each event becomes for subscribers
      ([subscriber_events.go], [translateDomainEvent]).
    - [Bridge]: [eventbridge.go]: numbering, fan-out and waiters, as functions
      and as the step relation [sys_step] whose calls interleave at every
      channel operation; the method [wait].
    - [Sse]: [rest/sse.go] over the ring, which moves while it is drained
      ([evolving]), with writes that fail part of the way, any prefix of the
      reply arriving, and a reference reader of server-sent events; the pump
      that fills the ring.
    - [Webhook]: the store, fan-out, retries and methods of webhooks.
      [Watchdog]: the soft-stale watchdog of the daemon, over the bridge.
    - [Profile]: names, paths and choice of profiles ([cmd/wad/profile.go],
      [cmd/wa/profile.go]), over the directories of the class [Xdg].
    - [FileSys]: a file system, programs whose calls fail and whose process is
      killed ([Os]; a write that fails or is killed leaves some of its bytes),
      and their triples.  [Migrate]: [cmd/wad/migrate.go] and
      [dirs.go] statement by statement.  [Marker]: the text of its marker.
      [MigrateSafe]: what it never loses.
    - [MediaCas]: the content-addressed cache ([mediafs/write.go],
      [whatsmeow/adapter_media.go]) over [FileSys].  [MediaApi]: its port
      [MediaStore], the transcript table, the media methods.
    - [History]: the message history ([sqlitehistory]: [store.go], [query.go],
      [query_list.go], [thread.go], [moderator.go], [anchor.go], [fold.go]):
      the table, every statement over it, and SQL's LIKE.  [SqlOrder] is the
      order SQLite leaves open, [TextFold] the fold of golang.org/x/text.
    - [AllowFile]: the allowlist in its file ([cmd/wad/allowlist.go]): loading,
      saving, the reload and the watcher's debouncing, and the methods allow,
      panic and admin.reload ([methods.go], [reload_handler.go]), over
      [FileSys].  [Toml] is the parser and the encoder of the file.
    - [RestMedia]: the media routes of the REST server over [Rest] and
      [MediaCas], its problem documents, and when it starts ([rest_http.go]).
    - [Client]: the [wa] command's exit codes, calls, remote transport, media
      listing and chunked copy ([cmd/wa]), over the handlers of [MediaApi].
    - [HistoryApi]: the methods over the history ([cmd/wad/history_methods.go],
      [media_list_method.go], [method_thread.go]) and what they answer of a
      stored message; the client's [media list] over its handler, through the
      socket's line scanner.
    - [Contacts]: the contact mirror ([sqlitecontacts], [contactmirror]), the
      directory of the adapter ([whatsmeow/directory.go]) and their methods
      ([method_contacts.go], [contact_profile.go], [method_identity.go]).
    - [Labels]: labels of a business account: the port [LabelManager], its
      stores ([memory/labels.go], [whatsmeow/adapter_labels.go]), the methods
      [labels.*], requests that overlap around the lock ([office_do]) and the
      commands of [cmd_labels.go].
    - [Mcp]: the bridge for agents ([internal/mcpbridge]): what a server
      registers, what each tool asks of the daemon, resources, prompts and the
      texts of refusals; its endpoint over HTTP and its caller over the socket.

    State that the code guards with a mutex or a transaction changes in one
    step of the model, and what it does between two locks is two steps.  Stores that keep the same contract are proved against
    one class (drafts, idempotency) or one abstract machine (the ring), and
    clients against the class.  Every source of failure the code handles is an
    argument: a cancelled context or a failing statement is a [fault], an
    upstream answer is a function of the world.

    ** What the theorems show

    - Policy: the methods behind the gate emit only what the allowlist allows
      (the mutations that run no gate are named), a refusal leaves only its audit
      record, a followed recipient is checked again, the two buckets bound every
      window, the allowlist refines a permission relation ([Gate], [Policy],
      [Limiter]).
    - Retries: once a result is recorded, later requests of its key run
      nothing and are answered from it for a day; requests that overlap the
      first may run too ([Idem]).
    - Review and schedules: drafts are decided once, by both stores alike; a
      schedule fires at most one message, within policy, unless an update
      overlaps its fire; nothing fires after the runner stopped ([DraftQueue],
      [ScheduleFire], [ScheduleRunner]).
    - Audit: equal last stamps mean equal histories, or a collision of the MAC;
      an untampered history of records of bounded length verifies across
      restarts and rotations ([Chain]).
    - REST: in both authentication modes the dispatcher runs only for an
      authenticated caller, a stored token's scope covering the method ([Rest]).
    - Events: the stores are one bounded ring of what they acknowledged, as
      long as numbers rise ([EventRing]); a resume over the socket hands back what
      was missed, or names it, on a ring that does not change meanwhile; the
      live path accounts for every sequence number ([EventStream]).
    - Socket: nothing reaches the dispatcher but from the own user through the
      greeting; frames are the lines, under the cap; one daemon per socket
      ([Transport]).
    - Subscribers: text a stranger wrote reaches them only inside one envelope
      that reads back to the fields of the event, everything else is vetted;
      events are numbered once under any interleaving; [wait] answers the first
      match; an SSE client that reconnects, wherever its connection broke and
      however the ring moved, reads every row once or the report that it is
      gone, but for rows evicted between the two reads of a poll ([Projection],
      [Envelope], [Bridge], [Sse]).
    - Webhooks and the watchdog: a delivery settles within eight recorded
      attempts, is not posted after, and does not starve; reconnects are spaced and do not stop ([Webhook], [Watchdog]).
    - Profiles and their migration: different profiles share no file; however
      often the migration is killed or fails, every file is at exactly one of
      its two paths, and an undisturbed start finishes what the marker names
      ([Profile], [MigrateSafe]).  A stat that fails is the exception
      ([recovery_deletes_unmoved]).
    - Media: every file of the cache hashes to its name through failures and
      kills; the sweep takes what is old and only that; a voice note is
      recognised once ([MediaCas], [MediaApi]).
      Over HTTP an upload can be fetched again, by an authenticated caller only
      ([RestMedia]).
    - The history: its table refines a map of messages, a failing insertion
      rolled back at whatever statement; paging gives every message once; the
      caption filter is a search for plain text; what strangers wrote leaves
      the five listing methods only inside an envelope, but for the name on a
      revoked message; a listing of media is exactly as narrow as it was asked
      for, when it fits the client's scanner ([History], [HistoryApi]).
    - The contact book: a synchronisation loses no contact and no note, and
      writes what its sources said ([Contacts]).
    - Labels: both stores are one ledger in order of creation, whatever
      requests overlap, and the patches sent are those of its writes, one each,
      though overlapping requests may leave the ledger and WhatsApp in
      different order; a write under one profile is not seen under another
      ([Labels]).
    - The allowlist file: a change is all or nothing and has its audit row; a
      reload that fails keeps the policy, and one under way allows nothing
      that neither side allows ([AllowFile]).
    - Agents: whatever one asks, the daemon makes at most one call, which its
      token and the operator's send mode open; the daemon reads what the tool
      meant; a contact's URI names that contact; prompts name tools that are
      offered ([Mcp]).
    - The client: every code of the daemon has a decided exit code; a copy
      rebuilds the object from its chunks and ends against any daemon; rows come
      out only as narrow as asked; a remote answer comes only from the checked
      endpoint ([Client]).
    - Lemmas of the same kind that are not among the main properties: JIDs
      round-trip, media paths do not collide, mentions appear, the fingerprint ignores member order, errors keep their wire code
      under wrapping and never leak untyped text ([Jid], [Values], [Message],
      [Idem], [Errors]).
    - Where the code falls short of its own comments the behaviour is proved as
      it is: [poll_create_bypasses_policy], [forward_audit_keeps_error_text],
      [roster_without_group_admin_panics], [draft_approve_only_records],
      [update_race_resurrects], [long_record_breaks_restart],
      [filtered_event_reported_dropped], [receipt_payload_unvetted],
      [stream_keeps_oldest], [wait_timeout_overflow], [overtaken_event_lost],
      [retry_span], [replay_of_disabled_is_idle], [cap_undercuts_cooldown],
      [active_profile_collides], [recovery_deletes_unmoved],
      [early_kill_strands], [checkpointed_log_aborts],
      [interrupted_rollback_stuck], [active_profile_is_default],
      [connections_uncapped], [linux_symlink_refused],
      [long_window_deletes_all], [killed_write_leaks],
      [long_answer_unreadable], [unaudited_grant_returns],
      [reload_denies_meanwhile], [scheduled_sends_unreviewed],
      [mcp_passes_scope_table], [refusals_misreported],
      [draft_reply_sends_in_direct_mode], [search_always_fails],
      [page_skips_ties], [thread_reads_revoked], [empty_fold_matches_all],
      [revoked_name_unfenced], [self_revoked_still_served],
      [media_list_shows_revoked], [sync_forgets_business],
      [refresh_forgets_business], [refresh_compares_elsewhere],
      [annotate_unknown_succeeds], [crossing_leaves_stale],
      [overlapping_calls_run_twice], [eviction_slips_by],
      [assign_unknown_label], [bad_colour_is_internal].

    ** Fuel

    The drain loop of a resume takes fuel: each full batch moves its cursor, so
    one turn more than the ring has rows is enough, and the theorem about it
    asks for no less and concludes that the drain is complete.  The rune
    decoder of [GoStd] consumes at least one byte a turn and is given the
    string's length; [emit] of [Sse] drains the ring like a resume, and its
    theorem asks for one turn more than rows ever come above its cursor; the field reader of
    [Envelope] is given the length of the text; the mention search of [Message] moves forward by at least
    one byte a turn and is given one turn more than the length; a symbolic
    link is followed forty times, and [MkdirAll] climbs at most the path's
    length; the sweep of the cache goes as deep as the longest path has bytes;
    the client's copy takes one call more than bytes are missing from the cap,
    which is enough because a call that does not end the copy brings at least
    one byte.  The other
    recursions are structural.

    ** What is not modelled

    Outside the repository, and so parameters: whatsmeow, SQLite, slog's JSON
    handler, golang.org/x/time/rate, the HTTP client and the signer of webhooks,
    and of Go's library HMAC, SHA-256, number formatting of floats, the text of
    a time, the tables of printable runes, URL parsing, regular expressions and
    the parser of JSON text; the TOML library; the MCP SDK, which decodes a
    request and serves what was registered.
    Left out as input and output or wiring: system calls of sockets, file
    creation and locking, the parsing and printing of the command line, tracing.  In the migration, SQLite's
    checkpoint, the clock's text and the hash are parameters ([Sqlite],
    [MarkerText]); losing power, as against losing the process, is not modelled.  Not yet
    modelled: searching by meaning.  Opening the history,
    its schema migrations, backups and full-text index are left out.  Of media, the download from WhatsApp, the tables
    of MIME types and the recogniser of speech are parameters.
    A scan of the webhook queue and a waiter's registration are one step
    (requests come between scans); two fires of one schedule that overlap, an
    update that overlaps a fire, and sequence numbers that reach the ring late
    are outside the theorems and are shown as what they do instead; the
    interleaving of two requests on one connection is covered only where a file
    says so.  A failing write of the audit file puts out no byte, where that
    of other files may leave some. *)

From Stdlib Require Export Ascii.
From stdpp Require Export prelude strings pretty gmap list sorting.
From Stdlib Require Export ZArith Lia.


(** stdpp blocks the simplification of string concatenation. *)
#[global] Arguments String.append !_ _ / : simpl nomatch.

(** ** Results: the (value, error) pairs of the Go code whose value is the
    zero value when the error is not nil. *)
Inductive res (E A : Type) : Type :=
| Ok (a : A)
| Err (e : E).
Arguments Ok {E A} a.
Arguments Err {E A} e.

#[global] Instance res_eq_dec {E A} `{EqDecision E, EqDecision A} : EqDecision (res E A).
Proof. solve_decision. Defined.

Definition res_bind {E A B} (r : res E A) (f : A -> res E B) : res E B :=
  match r with Ok a => f a | Err e => Err e end.

Definition res_map {E A B} (f : A -> B) (r : res E A) : res E B :=
  match r with Ok a => Ok (f a) | Err e => Err e end.

Definition is_ok {E A} (r : res E A) : bool :=
  match r with Ok _ => true | Err _ => false end.

Declare Scope wa_scope.
Delimit Scope wa_scope with wa.
Open Scope wa_scope.

Notation "'let*' x ':=' r 'in' k" := (res_bind r (fun x => k))
  (at level 10, x pattern, r at level 100, k at level 200) : wa_scope.

(** [guard b e k]: the early return [if b { return e }] of a validator. *)
Definition guard {E A} (b : bool) (e : E) (k : res E A) : res E A :=
  if b then Err e else k.

Notation "'fail_if' b 'with' e ';;' k" := (guard b e k)
  (at level 10, b at level 99, e at level 99, k at level 200) : wa_scope.

(** Validators that return only an [error]. *)
Abbreviation check E := (res E unit).

(** ** Tactics *)

(** Turn the boolean tests of the code into propositions. *)
Ltac bprop :=
  repeat match goal with
  | H : _ && _ = true |- _ => apply andb_true_iff in H; destruct H
  | H : _ || _ = false |- _ => apply orb_false_iff in H; destruct H
  | H : negb _ = true |- _ => apply negb_true_iff in H
  | H : negb _ = false |- _ => apply negb_false_iff in H
  | H : (_ <=? _)%Z = true |- _ => apply Z.leb_le in H
  | H : (_ <=? _)%Z = false |- _ => apply Z.leb_gt in H
  | H : (_ <? _)%Z = true |- _ => apply Z.ltb_lt in H
  | H : (_ <? _)%Z = false |- _ => apply Z.ltb_ge in H
  | H : (_ =? _)%Z = true |- _ => apply Z.eqb_eq in H
  | H : (_ =? _)%Z = false |- _ => apply Z.eqb_neq in H
  | H : bool_decide _ = true |- _ => apply bool_decide_eq_true in H
  | H : bool_decide _ = false |- _ => apply bool_decide_eq_false in H
  end.

(** Split on the innermost test or match of the goal or of a hypothesis. *)
Ltac split_match :=
  match goal with
  | |- context [match ?x with _ => _ end] =>
      lazymatch x with context [match _ with _ => _ end] => fail | _ => destruct x eqn:? end
  end.
Ltac split_match_in H :=
  match type of H with
  | context [match ?x with _ => _ end] =>
      lazymatch x with context [match _ with _ => _ end] => fail | _ => destruct x eqn:? end
  end.

Create HintDb wa discriminated.

(** ** Results *)

Lemma res_bind_ok {E A B} (r : res E A) (f : A -> res E B) b :
  res_bind r f = Ok b <-> exists a, r = Ok a /\ f a = Ok b.
Proof. destruct r; cbn; naive_solver. Qed.

Lemma guard_ok {E A} b (e : E) (k : res E A) a :
  guard b e k = Ok a <-> b = false /\ k = Ok a.
Proof. destruct b; cbn; naive_solver. Qed.

Lemma guard_err {E A} b (e e' : E) (k : res E A) :
  guard b e k = Err e' <-> (b = true /\ e = e') \/ (b = false /\ k = Err e').
Proof. destruct b; cbn; naive_solver. Qed.

Lemma res_map_ok {E A B} (f : A -> B) (r : res E A) b :
  res_map f r = Ok b <-> exists a, r = Ok a /\ f a = b.
Proof. destruct r; cbn; naive_solver. Qed.

(** Peel the guards off a hypothesis [... = Ok _] or [... = Err _]. *)
Ltac peel H :=
  repeat first
    [ apply guard_ok in H as [? H]
    | apply res_bind_ok in H as (? & ? & H) ].

(** ** Lists *)

Lemma forallb_Forall_iff {A} (p : A -> bool) (l : list A) :
  forallb p l = true <-> Forall (fun x => p x = true) l.
Proof.
  induction l as [|x l IH]; cbn.
  - split; [constructor | done].
  - rewrite andb_true_iff, IH. split; [intros []; by constructor | inversion 1; auto].
Qed.

Lemma existsb_Exists_iff {A} (p : A -> bool) (l : list A) :
  existsb p l = true <-> Exists (fun x => p x = true) l.
Proof.
  induction l as [|x l IH]; cbn.
  - split; [done | inversion 1].
  - rewrite orb_true_iff, IH. split.
    + intros [?|?]; [by left | by right].
    + inversion 1; auto.
Qed.

Lemma take_app_prefix {A} n (l : list A) : exists r, l = take n l ++ r.
Proof. exists (drop n l). by rewrite take_drop. Qed.

#[global] Unset Default Proof Using.

Lemma filter_perm {A} (p : A -> bool) (l k : list A) :
  l ≡ₚ k -> List.filter p l ≡ₚ List.filter p k.
Proof.
  induction 1 as [|x l k _ IH|x y l|l1 l2 l3 _ IH1 _ IH2]; cbn; [done| | |by etrans].
  - by destruct (p x); rewrite IH.
  - destruct (p x), (p y); [apply perm_swap|done..].
Qed.

Lemma filter_keys_NoDup {A B} (p : A * B -> bool) (l : list (A * B)) :
  NoDup l.*1 -> NoDup (List.filter p l).*1.
Proof.
  induction l as [|[a b] l IH]; cbn; [done|]. rewrite NoDup_cons. intros [Ha Hnd].
  destruct (p (a, b)); [|auto]. cbn. rewrite NoDup_cons. split; [|auto].
  intros Hin. apply Ha. apply list_elem_of_fmap in Hin as ([a' b'] & -> & Hin).
  apply list_elem_of_In, filter_In in Hin as [Hin _].
  apply list_elem_of_fmap. exists (a', b'). split; [done|]. by apply list_elem_of_In.
Qed.

(** Go leaves the iteration order of [range m] over a map unspecified: an
    instance is one order, and what is proved holds of every one. *)
Class MapRange (K V : Type) `{Countable K} := {
  range : gmap K V -> list (K * V);
  range_perm : forall m, range m ≡ₚ map_to_list m }.
