(* ===== verification/GoStd.v ===== *)
(** * The parts of Go and of its standard library the program uses

    Strings are byte sequences ([string], one [ascii] per byte); runes are
    [Z] code points obtained by the UTF-8 decoder of [unicode/utf8].  A
    [time.Time] is the [Z] of nanoseconds since the Unix epoch ([UTC()] only
    changes the location, so it is the identity on the instant); [int64] and
    [uint64] are [Z] with an explicit wrap-around. *)
From S2P Require Import Prelude.

(** ** Bytes *)

Definition bz (c : ascii) : Z := Z.of_N (N_of_ascii c).
Definition chr (z : Z) : ascii := ascii_of_N (Z.to_N z).

Definition in_range (lo hi z : Z) : bool := (lo <=? z)%Z && (z <=? hi)%Z.

(** [c >= '0' && c <= '9'] and its relatives. *)
Definition is_digit (c : ascii) : bool := in_range 48 57 (bz c).
Definition is_upper (c : ascii) : bool := in_range 65 90 (bz c).
Definition is_lower (c : ascii) : bool := in_range 97 122 (bz c).
Definition is_alnum (c : ascii) : bool := is_digit c || is_lower c || is_upper c.

Fixpoint str_forallb (p : ascii -> bool) (s : string) : bool :=
  match s with
  | EmptyString => true
  | String c s' => p c && str_forallb p s'
  end.

Fixpoint str_existsb (p : ascii -> bool) (s : string) : bool :=
  match s with
  | EmptyString => false
  | String c s' => p c || str_existsb p s'
  end.

Fixpoint str_filter (p : ascii -> bool) (s : string) : string :=
  match s with
  | EmptyString => EmptyString
  | String c s' => if p c then String c (str_filter p s') else str_filter p s'
  end.

Fixpoint str_flat_map (f : ascii -> string) (s : string) : string :=
  match s with
  | EmptyString => EmptyString
  | String c s' => (f c +:+ str_flat_map f s')%string
  end.

(** [len(s)] of a Go string. *)
Definition len (s : string) : Z := Z.of_nat (String.length s).

Definition str_empty (s : string) : bool :=
  match s with EmptyString => true | _ => false end.

(** [s[n:]] and [s[:n]] for [n <= len(s)]. *)
Fixpoint str_drop (n : nat) (s : string) : string :=
  match n, s with
  | O, _ => s
  | S n, EmptyString => EmptyString
  | S n, String _ s' => str_drop n s'
  end.
Fixpoint str_take (n : nat) (s : string) : string :=
  match n, s with
  | O, _ => EmptyString
  | S n, EmptyString => EmptyString
  | S n, String c s' => String c (str_take n s')
  end.

(** [strings.HasPrefix], [strings.Index], [strings.Contains]. *)
Fixpoint has_prefix (pre s : string) : bool :=
  match pre, s with
  | EmptyString, _ => true
  | String _ _, EmptyString => false
  | String a pre', String b s' => Ascii.eqb a b && has_prefix pre' s'
  end.

Fixpoint str_index (sub s : string) : option nat :=
  if has_prefix sub s then Some O
  else match s with
       | EmptyString => None
       | String _ s' => option_map S (str_index sub s')
       end.

Definition str_contains (s sub : string) : bool :=
  match str_index sub s with Some _ => true | None => false end.

(** [strings.LastIndex]/[bytes.LastIndex]. *)
Fixpoint str_last_index (sub s : string) : option nat :=
  match s with
  | EmptyString => if has_prefix sub s then Some O else None
  | String _ s' =>
      match str_last_index sub s' with
      | Some n => Some (S n)
      | None => if has_prefix sub s then Some O else None
      end
  end.

Definition has_suffix (s suf : string) : bool :=
  (String.length suf <=? String.length s)%nat
  && (str_drop (String.length s - String.length suf) s =? suf)%string.

(** [strings.Split(s, sep)] for a one-byte separator. *)
Fixpoint split_byte (sep : ascii) (s : string) : list string :=
  match s with
  | EmptyString => [EmptyString]
  | String c s' =>
      if Ascii.eqb c sep then EmptyString :: split_byte sep s'
      else match split_byte sep s' with
           | w :: ws => String c w :: ws
           | [] => [String c EmptyString]
           end
  end.

(** [strings.Cut(s, sep)] for a one-byte separator. *)
Fixpoint cut_byte (sep : ascii) (s : string) : option (string * string) :=
  match s with
  | EmptyString => None
  | String c s' =>
      if Ascii.eqb c sep then Some (EmptyString, s')
      else match cut_byte sep s' with
           | Some (a, b) => Some (String c a, b)
           | None => None
           end
  end.

(** [strings.ReplaceAll(s, old, new)] for a one-byte [old]. *)
Definition replace_byte (old : ascii) (new : string) (s : string) : string :=
  str_flat_map (fun c => if Ascii.eqb c old then new else String c EmptyString) s.

(** ** UTF-8 ([unicode/utf8.DecodeRuneInString], [AppendRune]) *)

Definition rune_error : Z := 65533. (* U+FFFD *)
Definition is_cont (z : Z) : bool := in_range 128 191 z.

(** The code point of the first rune and its width; an invalid byte decodes to
    [rune_error] with width 1. *)
Definition decode_rune (s : string) : Z * nat :=
  match s with
  | EmptyString => (rune_error, O)
  | String a r1 =>
      let b0 := bz a in
      let bad := (rune_error, 1%nat) in
      if (b0 <? 128)%Z then (b0, 1%nat)
      else if negb (in_range 194 244 b0) then bad
      else match r1 with
      | EmptyString => bad
      | String b r2 =>
          let b1 := bz b in
          let lo : Z := (if b0 =? 224 then 160 else if b0 =? 240 then 144 else 128)%Z in
          let hi : Z := (if b0 =? 237 then 159 else if b0 =? 244 then 143 else 191)%Z in
          if negb (in_range lo hi b1) then bad
          else if (b0 <? 224)%Z then ((b0 - 192) * 64 + (b1 - 128), 2%nat)%Z
          else match r2 with
          | EmptyString => bad
          | String c r3 =>
              let b2 := bz c in
              if negb (is_cont b2) then bad
              else if (b0 <? 240)%Z
              then ((b0 - 224) * 4096 + (b1 - 128) * 64 + (b2 - 128), 3%nat)%Z
              else match r3 with
              | EmptyString => bad
              | String d _ =>
                  let b3 := bz d in
                  if negb (is_cont b3) then bad
                  else ((b0 - 240) * 262144 + (b1 - 128) * 4096
                        + (b2 - 128) * 64 + (b3 - 128), 4%nat)%Z
              end
          end
      end
  end.

(** [for _, r := range s]: the runes with the bytes each one spans. *)
Fixpoint segments_fuel (n : nat) (s : string) : list (Z * string) :=
  match n, s with
  | O, _ => []
  | _, EmptyString => []
  | S n, _ =>
      let '(r, w) := decode_rune s in
      (r, str_take w s) :: segments_fuel n (str_drop w s)
  end.
Definition segments (s : string) : list (Z * string) := segments_fuel (String.length s) s.
Definition runes (s : string) : list Z := (segments s).*1.

#[local] Open Scope Z_scope.

(** [utf8.AppendRune]; an invalid rune is written as [rune_error]. *)
Definition encode_rune (r : Z) : string :=
  let b z := chr z in
  if (r <? 0)%Z then "" else
  if (r <=? 127)%Z then String (b r) ""
  else if (r <=? 2047)%Z then String (b (192 + r / 64)) (String (b (128 + r mod 64)) "")
  else
    let r := if in_range 55296 57343 r || (1114111 <? r)%Z then rune_error else r in
    if (r <=? 65535)%Z
    then String (b (224 + r / 4096)) (String (b (128 + (r / 64) mod 64))
           (String (b (128 + r mod 64)) ""))
    else String (b (240 + r / 262144)) (String (b (128 + (r / 4096) mod 64))
           (String (b (128 + (r / 64) mod 64)) (String (b (128 + r mod 64)) ""))).

Definition str_concat (l : list string) : string :=
  foldr String.append EmptyString l.

(** [strings.Map(f, s)] for an [f] that never drops a rune. *)
Definition map_runes (f : Z -> Z) (s : string) : string :=
  str_concat (map (fun rs => encode_rune (f rs.1)) (segments s)).

(** [unicode.IsSpace]. *)
Definition is_space (r : Z) : bool :=
  in_range 9 13 r || (r =? 32)%Z || (r =? 133)%Z || (r =? 160)%Z || (r =? 5760)%Z
  || in_range 8192 8202 r || in_range 8232 8233 r || (r =? 8239)%Z || (r =? 8287)%Z
  || (r =? 12288)%Z.

(** [unicode.IsControl]: category Cc. *)
Definition is_control (r : Z) : bool := in_range 0 31 r || in_range 127 159 r.

Fixpoint drop_while {A} (p : A -> bool) (l : list A) : list A :=
  match l with
  | [] => []
  | x :: l' => if p x then drop_while p l' else l
  end.

(** [strings.TrimSpace]. *)
Definition trim_space (s : string) : string :=
  let sp (rs : Z * string) := is_space rs.1 in
  str_concat (reverse (drop_while sp (reverse (drop_while sp (segments s))))).*2.

(** [strings.TrimPrefix]. *)
Definition trim_prefix (pre s : string) : string :=
  if has_prefix pre s then str_drop (String.length pre) s else s.

(** [bytes.TrimRight(p, cutset)] for a one-byte cutset. *)
Fixpoint trim_right_byte (c : ascii) (s : string) : string :=
  match s with
  | EmptyString => EmptyString
  | String a s' =>
      match trim_right_byte c s' with
      | EmptyString => if Ascii.eqb a c then EmptyString else String a EmptyString
      | t => String a t
      end
  end.

(** [strings.ToLower] on ASCII (the strings it is applied to are ASCII). *)
Definition to_lower_ascii (s : string) : string :=
  str_flat_map (fun c => String (if is_upper c then chr (bz c + 32) else c) "") s.

(** [strconv.Itoa]/[%d]. *)
Definition itoa (z : Z) : string := pretty z.

(** The value of a string of decimal digits, after those of [acc]. *)
Fixpoint digits_val (acc : Z) (s : string) : option Z :=
  match s with
  | EmptyString => Some acc
  | String c s' => if is_digit c then digits_val (acc * 10 + (bz c - 48))%Z s' else None
  end.

(** [strconv.ParseInt(s, 10, 64)]. *)
Definition ParseInt (s : string) : option Z :=
  match s with
  | EmptyString => None
  | String c rest =>
    if Ascii.eqb c "+" || Ascii.eqb c "-" then
      if str_empty rest then None
      else v ← digits_val 0 rest;
           let v := if Ascii.eqb c "-" then - v else v in
           if (- 2 ^ 63 <=? v) && (v <? 2 ^ 63) then Some v else None
    else v ← digits_val 0 s; if v <? 2 ^ 63 then Some v else None
  end.

(** ** Machine integers *)

Definition wrap64 (z : Z) : Z := (z + 2 ^ 63) mod 2 ^ 64 - 2 ^ 63.
Definition int64 (z : Z) : Prop := (- 2 ^ 63 <= z < 2 ^ 63)%Z.
Definition uint8 (z : Z) : Prop := (0 <= z < 256)%Z.

(** ** time.Time *)

Abbreviation time := Z (only parsing).
Definition second : Z := 1000000000.
(** [time.Time{}]: January 1, year 1, 00:00:00 UTC. *)
Definition zero_time : time := (-62135596800 * second)%Z.
Definition is_zero_time (t : time) : bool := (t =? zero_time)%Z.
Definition unix (t : time) : Z := (t / second)%Z.
Definition of_unix (s : Z) : time := (s * second)%Z.
Definition after (t u : time) : bool := (u <? t)%Z.
(** [t.UTC()]: same instant. *)
Definition utc (t : time) : time := t.

(** [t.Format(time.RFC3339Nano)] of a UTC time: proleptic Gregorian date, and
    the fraction without its trailing zeros. *)
Fixpoint pad_digits (n : nat) (z : Z) : string :=
  match n with
  | O => ""
  | S n => pad_digits n (z / 10) +:+ String (chr (48 + z mod 10)) ""
  end.

Definition civil_of_days (d : Z) : Z * Z * Z :=
  let z := d + 719468 in
  let era := z / 146097 in
  let doe := z mod 146097 in
  let yoe := (doe - doe / 1460 + doe / 36524 - doe / 146096) / 365 in
  let doy := doe - (365 * yoe + yoe / 4 - yoe / 100) in
  let mp := (5 * doy + 2) / 153 in
  let m := if (mp <? 10)%Z then mp + 3 else mp - 9 in
  (yoe + era * 400 + (if (m <=? 2)%Z then 1 else 0), m, doy - (153 * mp + 2) / 5 + 1).

Definition format_rfc3339nano (t : time) : string :=
  let s := unix t in
  let ns := t mod second in
  let '(y, m, d) := civil_of_days (s / 86400) in
  let tod := s mod 86400 in
  let frac := trim_right_byte "0" (pad_digits 9 ns) in
  (pad_digits 4 y +:+ "-" +:+ pad_digits 2 m +:+ "-" +:+ pad_digits 2 d +:+ "T"
   +:+ pad_digits 2 (tod / 3600) +:+ ":" +:+ pad_digits 2 (tod / 60 mod 60) +:+ ":"
   +:+ pad_digits 2 (tod mod 60)
   +:+ (if str_empty frac then "" else "." +:+ frac) +:+ "Z")%string.

(** ** float64

    The values the program tests are finite (as the rational [num / den]),
    infinite or not a number; every comparison with [NaN] is false. *)
Inductive float64 :=
| FNaN
| FInf (negative : bool)
| FFin (num : Z) (den : positive).

#[global] Instance float64_eq_dec : EqDecision float64.
Proof. solve_decision. Defined.

(** [f < n] and [f > n] for an integer constant [n]. *)
Definition f64_ltz (f : float64) (n : Z) : bool :=
  match f with FNaN => false | FInf neg => neg | FFin a d => (a <? n * Zpos d)%Z end.
Definition f64_gtz (f : float64) (n : Z) : bool :=
  match f with FNaN => false | FInf neg => negb neg | FFin a d => (n * Zpos d <? a)%Z end.

(** ** Lemmas on strings *)

#[local] Open Scope string_scope.

Lemma str_app_assoc (s1 s2 s3 : string) : s1 +:+ (s2 +:+ s3) = (s1 +:+ s2) +:+ s3.
Proof. induction s1; cbn; congruence. Qed.

Lemma str_app_nil_r (s : string) : s +:+ "" = s.
Proof. induction s; cbn; congruence. Qed.

Lemma str_app_length (s t : string) :
  String.length (s +:+ t) = (String.length s + String.length t)%nat.
Proof. induction s; cbn; congruence. Qed.

Lemma len_app s t : len (s +:+ t) = len s + len t.
Proof. unfold len. rewrite str_app_length. lia. Qed.

Lemma len_nonneg s : 0 <= len s.
Proof. unfold len; lia. Qed.

Lemma str_empty_true s : str_empty s = true <-> s = "".
Proof. destruct s; cbn; split; congruence. Qed.
Lemma str_empty_false s : str_empty s = false <-> s <> "".
Proof. destruct s; cbn; split; congruence. Qed.

Lemma len_zero s : len s = 0 <-> s = "".
Proof. destruct s; cbn; [done|]. unfold len; cbn. split; [lia|done]. Qed.

Lemma len_pos s : (0 <? len s)%Z = negb (str_empty s).
Proof. destruct s; [done|]. unfold len. cbn. apply Z.ltb_lt. lia. Qed.

Lemma str_forallb_app p s t :
  str_forallb p (s +:+ t) = str_forallb p s && str_forallb p t.
Proof. induction s as [|c s IH]; cbn; [done|]. by rewrite IH, andb_assoc. Qed.

Lemma str_existsb_app p s t :
  str_existsb p (s +:+ t) = str_existsb p s || str_existsb p t.
Proof. induction s as [|c s IH]; cbn; [done|]. by rewrite IH, orb_assoc. Qed.

Lemma str_forallb_impl (p q : ascii -> bool) s :
  (forall c, p c = true -> q c = true) -> str_forallb p s = true -> str_forallb q s = true.
Proof.
  intros Hpq. induction s as [|c s IH]; cbn; [done|].
  rewrite !andb_true_iff. naive_solver.
Qed.

Lemma str_existsb_negb p s : str_existsb p s = negb (str_forallb (fun c => negb (p c)) s).
Proof. induction s as [|c s IH]; cbn; [done|]. rewrite IH. by destruct (p c). Qed.

Lemma str_forallb_filter p s : str_forallb p (str_filter p s) = true.
Proof. induction s as [|c s IH]; cbn; [done|]. destruct (p c) eqn:E; cbn; by rewrite ?E. Qed.

Lemma str_filter_id p s : str_forallb p s = true -> str_filter p s = s.
Proof.
  induction s as [|c s IH]; cbn; [done|]. rewrite andb_true_iff. intros [-> Hs].
  by rewrite IH.
Qed.

Definition no_byte (b : ascii) (s : string) : bool :=
  str_forallb (fun c => negb (Ascii.eqb c b)) s.

Lemma split_byte_none b s : no_byte b s = true -> split_byte b s = [s].
Proof.
  induction s as [|c s IH]; cbn; [done|]. rewrite andb_true_iff, negb_true_iff.
  intros [-> Hs]. by rewrite IH.
Qed.

Lemma split_byte_one b u v :
  no_byte b u = true -> split_byte b (u +:+ String b v) = u :: split_byte b v.
Proof.
  induction u as [|c u IH]; cbn; [by rewrite Ascii.eqb_refl|].
  rewrite andb_true_iff, negb_true_iff. intros [-> Hu]. by rewrite IH.
Qed.

(** [split_byte] loses nothing: the pieces joined with the separator. *)
Fixpoint join_byte (b : ascii) (l : list string) : string :=
  match l with
  | [] => ""
  | [w] => w
  | w :: ws => w +:+ String b (join_byte b ws)
  end.

Lemma split_byte_nonempty b s : split_byte b s <> [].
Proof.
  destruct s; cbn; [done|]. destruct (Ascii.eqb _ _); [done|].
  destruct (split_byte b s); done.
Qed.

Lemma join_split b s : join_byte b (split_byte b s) = s.
Proof.
  induction s as [|c s IH]; cbn; [done|].
  pose proof (split_byte_nonempty b s) as Hne.
  destruct (Ascii.eqb_spec c b) as [->|Hcb].
  - destruct (split_byte b s) eqn:E; [done|]. cbn in *. by rewrite IH.
  - destruct (split_byte b s) as [|w ws] eqn:E; [done|].
    destruct ws; cbn in *; by rewrite <- IH.
Qed.

Lemma split_byte_no b s : Forall (fun w => no_byte b w = true) (split_byte b s).
Proof.
  induction s as [|c s IH]; cbn; [by repeat constructor|].
  destruct (Ascii.eqb c b) eqn:E; [by constructor|].
  destruct (split_byte b s) as [|w ws]; inversion IH; subst.
  - repeat constructor. cbn. by rewrite E.
  - constructor; [|done]. unfold no_byte in *. cbn. by rewrite E.
Qed.

Lemma cut_byte_spec b s u v :
  cut_byte b s = Some (u, v) <-> s = u +:+ String b v /\ no_byte b u = true.
Proof.
  unfold no_byte. revert u v. induction s as [|c s IH]; intros u v; cbn.
  - split; [done|]. intros [H _]. by destruct u.
  - destruct (Ascii.eqb_spec c b) as [->|Hcb].
    + split; [by intros [= <- <-]|]. intros [H Hu].
      destruct u as [|a u]; cbn in *; [by inversion H|].
      inversion H; subst. by rewrite Ascii.eqb_refl in Hu.
    + destruct (cut_byte b s) as [[u' v']|] eqn:E.
      * split.
        -- intros [= <- <-]. destruct (proj1 (IH u' v') eq_refl) as [-> Hu].
           split; [done|]. cbn. rewrite Hu, andb_true_r. by destruct (Ascii.eqb_spec c b).
        -- intros [H Hu]. destruct u as [|a u]; cbn in *; [congruence|].
           inversion H; subst. apply andb_true_iff in Hu as [_ Hu].
           pose proof (proj2 (IH u v) (conj eq_refl Hu)) as [= -> ->]. done.
      * split; [done|]. intros [H Hu]. destruct u as [|a u]; cbn in *; [congruence|].
        inversion H; subst. apply andb_true_iff in Hu as [_ Hu].
        by pose proof (proj2 (IH u v) (conj eq_refl Hu)).
Qed.

Lemma has_prefix_app p v : has_prefix p (p +:+ v) = true.
Proof. induction p; cbn; [done|]. by rewrite Ascii.eqb_refl. Qed.

Lemma str_index_0 sub s : has_prefix sub s = true -> str_index sub s = Some O.
Proof. destruct s; cbn; by intros ->. Qed.

Lemma str_index_app sub u v : is_Some (str_index sub (u +:+ sub +:+ v)).
Proof.
  induction u as [|c u IH]; cbn.
  - rewrite str_index_0; [eauto|apply has_prefix_app].
  - destruct (has_prefix sub _); [eauto|]. destruct IH as [n ->]. eauto.
Qed.

Lemma str_drop_app u v : str_drop (String.length u) (u +:+ v) = v.
Proof. by induction u; cbn. Qed.
Lemma str_take_length n s : (n <= String.length s)%nat -> String.length (str_take n s) = n.
Proof. revert s; induction n as [|n IH]; intros [|c s]; cbn; intros; try lia. rewrite IH; lia. Qed.

Lemma str_take_app u v : str_take (String.length u) (u +:+ v) = u.
Proof. induction u; cbn; congruence. Qed.

Lemma drop_length n s : String.length (str_drop n s) = (String.length s - n)%nat.
Proof. revert s. induction n as [|n IH]; intros [|c s]; cbn; auto. Qed.

Lemma has_prefix_spec p s : has_prefix p s = true <-> exists v, s = p +:+ v.
Proof.
  split; [|intros [v ->]; apply has_prefix_app].
  revert s; induction p as [|c p IH]; intros [|d s]; cbn; try done; eauto.
  rewrite andb_true_iff. intros [->%Ascii.eqb_eq [v ->]%IH]. by exists v.
Qed.

Lemma str_index_some sub s n :
  str_index sub s = Some n ->
  exists u v, s = u +:+ sub +:+ v /\ String.length u = n.
Proof.
  revert n; induction s as [|c s IH]; intros n; cbn.
  - destruct (has_prefix sub "") eqn:E; [|done]. intros [= <-].
    apply has_prefix_spec in E as [v Hv]. exists "", v. split; [exact Hv|done].
  - destruct (has_prefix sub (String c s)) eqn:E.
    + intros [= <-]. apply has_prefix_spec in E as [v Hv]. exists "", v. split; [exact Hv|done].
    + destruct (str_index sub s) as [m|] eqn:Em; cbn; [|done]. intros [= <-].
      destruct (IH m eq_refl) as (u & v & -> & <-). by exists (String c u), v.
Qed.

(** [strings.Contains] finds exactly the substrings. *)
Lemma str_contains_spec s sub :
  str_contains s sub = true <-> exists u v, s = u +:+ sub +:+ v.
Proof.
  unfold str_contains. split.
  - destruct (str_index sub s) eqn:E; [|done]. intros _.
    apply str_index_some in E as (u & v & -> & _). eauto.
  - intros (u & v & ->). by destruct (str_index_app sub u v) as [n ->].
Qed.

Lemma no_byte_existsb b s :
  no_byte b s = negb (str_existsb (fun c => Ascii.eqb c b) s).
Proof.
  unfold no_byte. induction s as [|c s IH]; cbn; [done|].
  by rewrite IH, negb_orb.
Qed.

Lemma no_byte_app b s t : no_byte b (s +:+ t) = no_byte b s && no_byte b t.
Proof. apply str_forallb_app. Qed.

(** A class of bytes that excludes [b]. *)
Lemma no_byte_class (p : ascii -> bool) b s :
  p b = false -> str_forallb p s = true -> no_byte b s = true.
Proof.
  intros Hb. apply str_forallb_impl. intros c Hc.
  destruct (Ascii.eqb_spec c b) as [->|]; [congruence|done].
Qed.

Lemma cut_byte_app b u v :
  no_byte b u = true -> cut_byte b (u +:+ String b v) = Some (u, v).
Proof. intros Hu. by apply cut_byte_spec. Qed.

Lemma cut_byte_none b s : cut_byte b s = None <-> no_byte b s = true.
Proof.
  unfold no_byte. induction s as [|c s IH]; cbn; [done|].
  destruct (Ascii.eqb c b); cbn; [done|].
  destruct (cut_byte b s) as [[]|]; [|tauto].
  split; [done|]. intros H. by apply IH in H.
Qed.

Lemma str_contains_byte b s :
  str_contains s (String b "") = negb (no_byte b s).
Proof.
  apply eq_true_iff_eq. rewrite str_contains_spec, negb_true_iff. split.
  - intros (u & v & ->). rewrite no_byte_app. unfold no_byte at 2. cbn.
    by rewrite Ascii.eqb_refl, andb_false_r.
  - intros H. destruct (cut_byte b s) as [[u v]|] eqn:E.
    + apply cut_byte_spec in E as [-> _]. by exists u, v.
    + apply cut_byte_none in E. congruence.
Qed.

(** At most one separator splits in exactly two pieces. *)
Lemma split_byte_two b s u v :
  split_byte b s = [u; v] <->
  s = u +:+ String b v /\ no_byte b u = true /\ no_byte b v = true.
Proof.
  split.
  - intros E. pose proof (join_split b s) as J. pose proof (split_byte_no b s) as N.
    rewrite E in J, N. cbn in J. inversion N as [|?? Hu N']; subst.
    inversion N'; subst. done.
  - intros (-> & Hu & Hv). by rewrite split_byte_one, split_byte_none.
Qed.

Lemma append_inj_l (u v w : string) : u +:+ v = u +:+ w -> v = w.
Proof. induction u; cbn; [done|]. intros [= H]. auto. Qed.

Lemma wrap64_id z : - 2 ^ 63 <= z < 2 ^ 63 -> wrap64 z = z.
Proof. intros H. unfold wrap64. rewrite Z.mod_small; lia. Qed.

Lemma str_app_inj_r u u' v : u +:+ v = u' +:+ v -> u = u'.
Proof.
  intros E. assert (Hl : String.length u = String.length u').
  { apply (f_equal String.length) in E. rewrite !str_app_length in E. lia. }
  rewrite <- (str_take_app u v), <- (str_take_app u' v). by rewrite E, Hl.
Qed.

(** ** Decimal numbers *)

#[local] Open Scope Z_scope.

Lemma pretty_N_char_digit n : is_digit (pretty_N_char n) = true.
Proof. unfold pretty_N_char. by repeat case_match. Qed.

Lemma pretty_N_go_digits n s : str_forallb is_digit s = true ->
  str_forallb is_digit (pretty_N_go n s) = true.
Proof.
  revert s. induction n as [n IH] using (well_founded_induction N.lt_wf_0). intros s Hs.
  destruct (decide (n = 0)%N) as [->|Hn]; [done|].
  rewrite pretty_N_go_step by lia. apply IH; [apply N.div_lt; lia|]. cbn.
  by rewrite Hs, pretty_N_char_digit.
Qed.

Lemma pretty_N_digits (n : N) : str_forallb is_digit (pretty n) = true.
Proof. unfold pretty, pretty_N. case_decide; [done|]. by apply pretty_N_go_digits. Qed.

Lemma pretty_N_char_val n : (n < 10)%N -> bz (pretty_N_char n) - 48 = Z.of_N n.
Proof.
  intros Hn. assert (H : Z.of_N n ∈ seqZ 0 10) by (apply elem_of_seqZ; lia).
  revert H. rewrite <- (N2Z.id n) at 2. generalize (Z.of_N n). apply Forall_forall.
  vm_compute. repeat constructor.
Qed.

Lemma digits_val_pretty n s : digits_val 0 (pretty_N_go n s) = digits_val (Z.of_N n) s.
Proof.
  revert s. induction n as [n IH] using (well_founded_induction N.lt_wf_0). intros s.
  destruct (decide (n = 0)%N) as [->|Hn]; [done|].
  rewrite pretty_N_go_step by lia. rewrite IH by (apply N.div_lt; lia).
  cbn [digits_val]. rewrite pretty_N_char_digit, pretty_N_char_val by (apply N.mod_lt; lia).
  f_equal. rewrite N2Z.inj_div, N2Z.inj_mod. pose proof (Z.div_mod (Z.of_N n) 10). lia.
Qed.

Lemma ParseInt_digits s : str_forallb is_digit s = true -> str_empty s = false ->
  ParseInt s = (v ← digits_val 0 s; if v <? 2 ^ 63 then Some v else None).
Proof.
  destruct s as [|c s]; [done|]. cbn [str_forallb]. rewrite andb_true_iff. intros [Hc _] _.
  unfold ParseInt.
  assert (Ascii.eqb c "+" = false /\ Ascii.eqb c "-" = false) as [-> ->]; [|done].
  split; apply Ascii.eqb_neq; intros ->; by vm_compute in Hc.
Qed.

Lemma ParseInt_itoa z : 0 <= z < 2 ^ 63 -> ParseInt (itoa z) = Some z.
Proof.
  intros Hz. destruct (decide (z = 0)) as [->|Hne]; [done|].
  assert (E : itoa z = pretty_N_go (Z.to_N z) "").
  { unfold itoa. destruct z as [|p|p]; [done| |lia]. cbn. unfold pretty, pretty_N. by case_decide. }
  rewrite ParseInt_digits.
  - rewrite E, digits_val_pretty, Z2N.id by lia. cbn. by rewrite (proj2 (Z.ltb_lt _ _)) by lia.
  - rewrite E. by apply pretty_N_go_digits.
  - rewrite E. destruct (pretty_N_go _ "") eqn:Ei; [|done]. apply (f_equal (digits_val 0)) in Ei.
    rewrite digits_val_pretty, Z2N.id in Ei by lia. cbn in Ei. congruence.
Qed.

#[export] Hint Rewrite len_app str_app_nil_r str_forallb_app str_existsb_app no_byte_app : wa.
