(* ===== verification/Errors.v ===== *)
(** * Go error values, the typed RPC errors and the wire table

    [internal/domain/errors.go] (and the sentinels declared beside the types
    they belong to), [internal/app/errors.go] and [internal/app/rpcwire.go].

    An [error] is a tree: a sentinel ([errors.New] held in a package
    variable, compared by identity), an anonymous [errors.New], one of the
    coded errors of the app layer, or a [fmt.Errorf] wrapper around one [%w].
    A wrapper keeps the text before and after [%w]; in that text the other
    formatting verbs ([%q], [%d]) are left unexpanded. *)
From S2P Require Import Prelude GoStd.

#[local] Open Scope Z_scope.

Module domain.
(** The sentinel variables of package [domain]. *)
Inductive sentinel :=
| ErrInvalidJID | ErrInvalidPhone | ErrEmptyBody | ErrMessageTooLarge
| ErrUnknownAction | ErrNotAllowed | ErrInvalidSession | ErrDisconnected
| ErrIdempotencyCollision | ErrPastMuteTimestamp | ErrBlocked | ErrNotAdmin
| ErrEmptyGroupPatch | ErrUpstreamError | ErrMediaUnsupported
| ErrMediaNotCached | ErrMessageIDAmbiguous | ErrMessageUnknown
| ErrBroadcastForbidden | ErrSessionWiped
(* moderation.go, scheduled_send.go, draft.go, contact_ref.go, ... *)
| ErrOutsideEditWindow | ErrScheduleInPast | ErrScheduleTerminal
| ErrDraftState | ErrDraftInvariant | ErrContactRefShape
| ErrIdempotencyKey | ErrIdempotencyConflict | ErrMediaRef | ErrReceipt
| ErrDimMismatch | ErrEmptyModel | ErrLabelNameEmpty | ErrLabelNameTooLong
| ErrLabelColorOutOfRange | ErrLabelAssignmentTarget | ErrQuoteChainTooDeep.
End domain.

#[global] Instance sentinel_eq_dec : EqDecision domain.sentinel.
Proof. solve_decision. Defined.

(** The text of each sentinel. *)
Definition sentinel_text (s : domain.sentinel) : string :=
  match s with
  | domain.ErrInvalidJID => "domain: invalid JID"
  | domain.ErrInvalidPhone => "domain: invalid phone number"
  | domain.ErrEmptyBody => "domain: message body must not be empty"
  | domain.ErrMessageTooLarge => "domain: message exceeds size limit"
  | domain.ErrUnknownAction => "domain: unknown action"
  | domain.ErrNotAllowed => "domain: action not allowed for jid"
  | domain.ErrInvalidSession => "domain: invalid session"
  | domain.ErrDisconnected => "domain: adapter disconnected"
  | domain.ErrIdempotencyCollision => "domain: idempotency key collision"
  | domain.ErrPastMuteTimestamp => "domain: mute timestamp must be in the future"
  | domain.ErrBlocked => "domain: recipient is blocked"
  | domain.ErrNotAdmin => "domain: not a group admin"
  | domain.ErrEmptyGroupPatch => "domain: group patch has no fields set"
  | domain.ErrUpstreamError => "domain: upstream error"
  | domain.ErrMediaUnsupported => "domain: message has no downloadable media"
  | domain.ErrMediaNotCached => "domain: message proto not cached"
  | domain.ErrMessageIDAmbiguous => "domain: message id is ambiguous across chats"
  | domain.ErrMessageUnknown => "domain: message not in history store"
  | domain.ErrBroadcastForbidden => "domain: broadcast lists are forbidden by safety policy"
  | domain.ErrSessionWiped => "domain: session store was wiped in this process"
  | domain.ErrOutsideEditWindow => "domain: edit outside 15-min window"
  | domain.ErrScheduleInPast => "scheduled_send: fire_at must be strictly after now"
  | domain.ErrScheduleTerminal => "scheduled_send: cannot transition terminal state"
  | domain.ErrDraftState => "domain: invalid draft state transition"
  | domain.ErrDraftInvariant => "domain: draft invariant violation"
  | domain.ErrContactRefShape => "domain: ContactRef must populate exactly one of jid|phone|name"
  | domain.ErrIdempotencyKey => "domain: invalid idempotency key"
  | domain.ErrIdempotencyConflict => "domain: idempotency key fingerprint mismatch"
  | domain.ErrMediaRef => "domain: invalid MediaRef"
  | domain.ErrReceipt => "domain: invalid message receipt"
  | domain.ErrDimMismatch => "embedding: declared dim does not match vector length"
  | domain.ErrEmptyModel => "embedding: model identifier is required"
  | domain.ErrLabelNameEmpty => "label: name required"
  | domain.ErrLabelNameTooLong => "label: name too long"
  | domain.ErrLabelColorOutOfRange => "label: color index out of range"
  | domain.ErrLabelAssignmentTarget => "label: unsupported assignment target"
  | domain.ErrQuoteChainTooDeep => "quote chain exceeds max depth 5"
  end.

Module app.
(** The [*rpcErr] variables of package [app]. *)
Inductive rpc_sentinel :=
| ErrNotPaired | ErrNotAllowlisted | ErrRateLimited | ErrRateLimitedHard
| ErrWarmupActive | ErrInvalidJID | ErrMessageTooLarge | ErrNotOnWhatsApp
| ErrRecipientMoved | ErrDisconnected | ErrSessionWiped | ErrScheduleInPast
| ErrEmbeddingsDisabled | ErrLabelsUnsupported | ErrTranscriberNotConfigured
| ErrTranscribeFailed | ErrWaitTimeout | ErrMethodNotFound | ErrInvalidParams
| ErrNotIdentity | ErrWebhookNotFound | ErrMessageNotFound
| ErrQuotedMessageStoreNotConfigured.
End app.

#[global] Instance rpc_sentinel_eq_dec : EqDecision app.rpc_sentinel.
Proof. solve_decision. Defined.

(** [newRPCErr(code, msg)]: the registered code and message of each one. *)
Definition rpc_entry (r : app.rpc_sentinel) : Z * string :=
  match r with
  | app.ErrNotPaired => (-32011, "not paired")
  | app.ErrNotAllowlisted => (-32012, "not allowlisted")
  | app.ErrRateLimited => (-32013, "rate limited")
  | app.ErrRateLimitedHard => (-32200, "rate limited")
  | app.ErrWarmupActive => (-32014, "warmup active")
  | app.ErrInvalidJID => (-32015, "invalid JID")
  | app.ErrMessageTooLarge => (-32016, "message too large")
  | app.ErrNotOnWhatsApp => (-32017, "recipient not on WhatsApp")
  | app.ErrRecipientMoved => (-32020, "recipient reachable under a different JID")
  | app.ErrDisconnected => (-32018, "disconnected")
  | app.ErrSessionWiped => (-32019, "session wiped; restart the daemon before pairing")
  | app.ErrScheduleInPast => (-32112, "schedule in past")
  | app.ErrEmbeddingsDisabled => (-32113, "embeddings disabled")
  | app.ErrLabelsUnsupported => (-32114, "labels unsupported")
  | app.ErrTranscriberNotConfigured => (-32115, "transcriber not configured")
  | app.ErrTranscribeFailed => (-32116, "transcribe failed")
  | app.ErrWaitTimeout => (-32003, "wait timeout")
  | app.ErrMethodNotFound => (-32601, "method not found")
  | app.ErrInvalidParams => (-32602, "invalid params")
  | app.ErrNotIdentity => (-32015, "JID is not an identity (PN or LID)")
  | app.ErrWebhookNotFound => (-32118, "webhook not found")
  | app.ErrMessageNotFound => (-32117, "message not found")
  | app.ErrQuotedMessageStoreNotConfigured =>
      (-32000, "quoted message store not configured — daemon cannot hydrate reply-class interactive sends; wire a QuotedMessageStore in DispatcherConfig")
  end%string.

Inductive goerr :=
| ENew (msg : string)                            (* errors.New(msg), anonymous *)
| EDom (s : domain.sentinel)                     (* domain.ErrXxx *)
| ERpc (r : app.rpc_sentinel)                    (* app.ErrXxx *)
| EInvalidParams (detail : string)               (* app.InvalidParams(detail) *)
| EMoved (requested canonical : string)          (* app.RecipientMoved(...) *)
| ECoded (code : Z) (msg : string)               (* a foreign error with RPCCode() *)
| EWrap (pre : string) (inner : goerr) (post : string). (* fmt.Errorf(pre+"%w"+post, inner) *)

Abbreviation result := (res goerr).

#[global] Instance goerr_eq_dec : EqDecision goerr.
Proof. solve_decision. Defined.

(** [InvalidParams] and [RecipientMoved]. *)
Definition InvalidParams (detail : string) : goerr := EInvalidParams detail.
Definition RecipientMoved (requested canonical : string) : goerr :=
  EMoved requested canonical.

(** [fmt.Errorf("%w: detail", s)] and [fmt.Errorf("ctx: %w", e)]. *)
Definition wrapd (s : domain.sentinel) (detail : string) : goerr :=
  EWrap "" (EDom s) (": " +:+ detail).
Definition wrapc (ctx : string) (e : goerr) : goerr := EWrap (ctx +:+ ": ") e "".

(** [err.Error()]. *)
Fixpoint Error (e : goerr) : string :=
  match e with
  | ENew m => m
  | EDom s => sentinel_text s
  | ERpc r => (rpc_entry r).2
  | EInvalidParams d => "invalid params: " +:+ d
  | EMoved req can =>
      "recipient reachable under a different JID: " +:+ req +:+ " is routed as " +:+ can
  | ECoded _ m => m
  | EWrap pre e post => pre +:+ Error e +:+ post
  end.

(** [errors.Is(err, domain.ErrXxx)] and [errors.Is(err, app.ErrXxx)]. *)
Fixpoint is_dom (s : domain.sentinel) (e : goerr) : bool :=
  match e with
  | EDom s' => bool_decide (s = s')
  | EWrap _ e _ => is_dom s e
  | _ => false
  end.

Fixpoint is_rpc (r : app.rpc_sentinel) (e : goerr) : bool :=
  match e with
  | ERpc r' => bool_decide (r = r')
  | EInvalidParams _ => bool_decide (r = app.ErrInvalidParams)
  | EMoved _ _ => bool_decide (r = app.ErrRecipientMoved)
  | EWrap _ e _ => is_rpc r e
  | _ => false
  end.

(** [errors.As(err, &coded)]: the code and own text of the first coded error
    of the chain. *)
Fixpoint as_coded (e : goerr) : option (Z * string) :=
  match e with
  | ERpc r => Some (rpc_entry r)
  | EInvalidParams _ => Some (-32602, Error e)
  | EMoved _ _ => Some (-32020, Error e)
  | ECoded c m => Some (c, m)
  | EWrap _ e _ => as_coded e
  | _ => None
  end.

Definition IsCodedError (e : goerr) : option Z := fst <$> as_coded e.

(** [errors.As(err, &moved)]: the canonical JID a moved error carries. *)
Fixpoint as_moved (e : goerr) : option string :=
  match e with
  | EMoved _ can => Some can
  | EWrap _ e _ => as_moved e
  | _ => None
  end.

(** ** The wire table *)

Definition wireUpstreamError : Z := -32000.
Definition wirePolicyRefused : Z := -32100.
Definition wireIdempotencyCollision : Z := -32101.
Definition wireMediaTooLarge : Z := -32201.
Definition wireUnsupportedMessageType : Z := -32300.
Definition wireMediaNotCached : Z := -32301.
Definition wireMessageUnknown : Z := -32302.
Definition wireMessageIDAmbiguous : Z := -32303.
Definition wireInternalError : Z := -32603.
Definition MsgInternalError : string := "Internal error".

Definition detail (name : string) (e : goerr) : string := name +:+ ": " +:+ Error e.

Definition policy_sentinels : list domain.sentinel :=
  [domain.ErrOutsideEditWindow; domain.ErrPastMuteTimestamp; domain.ErrBlocked;
   domain.ErrNotAdmin; domain.ErrEmptyGroupPatch; domain.ErrBroadcastForbidden].

(** The codes the REST server answers itself: the first argument of every
    [writeError] of [rest/server.go] and [rest/sse.go] that is not [RPCWire]'s. *)
Definition rest_codes : list Z := [-32099; -32700; -32004; -32600; -32601; -32602; -32603].

(** [RPCWire(err)]; [None] is the nil error. *)
Definition RPCWire (err : option goerr) : Z * string :=
  match err with
  | None => (0, "")%string
  | Some e =>
    if is_dom domain.ErrMessageTooLarge e then (wireMediaTooLarge, detail "MediaTooLarge" e)
    else if is_dom domain.ErrIdempotencyCollision e
    then (wireIdempotencyCollision, detail "IdempotencyCollision" e)
    else if existsb (fun s => is_dom s e) policy_sentinels
    then (wirePolicyRefused, detail "PolicyRefused" e)
    else if is_rpc app.ErrNotAllowlisted e then (wirePolicyRefused, "PolicyRefused"%string)
    else if is_dom domain.ErrUpstreamError e
    then (wireUpstreamError, ("upstream_error: " +:+ Error e)%string)
    else if is_dom domain.ErrMediaUnsupported e
    then (wireUnsupportedMessageType, detail "UnsupportedMessageType" e)
    else if is_dom domain.ErrMediaNotCached e
    then (wireMediaNotCached, detail "MediaNotCached" e)
    else if is_dom domain.ErrMessageUnknown e
    then (wireMessageUnknown, detail "MessageUnknown" e)
    else if is_dom domain.ErrMessageIDAmbiguous e
    then (wireMessageIDAmbiguous, detail "MessageIDAmbiguous" e)
    else match as_coded e with
         | Some (c, m) =>
             if (c <? - 2 ^ 31) || (2 ^ 31 - 1 <? c)
             then (wireInternalError, MsgInternalError)
             else (c, m)
         | None => (wireInternalError, MsgInternalError)
         end
  end.

(** ** Properties of the wire table *)

(** The chain of an error ends in one leaf; wrapping does not change it. *)
Fixpoint leaf (e : goerr) : goerr :=
  match e with EWrap _ e _ => leaf e | _ => e end.

Lemma leaf_is_leaf e pre e' post : leaf e <> EWrap pre e' post.
Proof. induction e; cbn; congruence. Qed.

Lemma is_dom_leaf s e : is_dom s e = bool_decide (leaf e = EDom s).
Proof.
  induction e; cbn; [done| |done..|assumption].
  apply bool_decide_ext. naive_solver.
Qed.

Lemma is_rpc_leaf r e : is_rpc r (leaf e) = is_rpc r e.
Proof. induction e; cbn; done. Qed.

Lemma as_coded_leaf e : as_coded (leaf e) = as_coded e.
Proof. induction e; cbn; done. Qed.

Definition typed_sentinels : list domain.sentinel :=
  [domain.ErrMessageTooLarge; domain.ErrIdempotencyCollision] ++ policy_sentinels ++
  [domain.ErrUpstreamError; domain.ErrMediaUnsupported; domain.ErrMediaNotCached;
   domain.ErrMessageUnknown; domain.ErrMessageIDAmbiguous].

(** The code never depends on the context a handler wrapped the error in. *)
Lemma RPCWire_code_leaf e : (RPCWire (Some e)).1 = (RPCWire (Some (leaf e))).1.
Proof.
  unfold RPCWire.
  assert (Hd : forall s, is_dom s (leaf e) = is_dom s e).
  { intros s. rewrite !is_dom_leaf. by induction e. }
  unfold policy_sentinels; cbn [existsb].
  rewrite !Hd, is_rpc_leaf, as_coded_leaf.
  repeat (split_match; try done).
Qed.

Definition is_typed_leaf (e : goerr) : bool :=
  match e with
  | EDom s => bool_decide (s ∈ typed_sentinels)
  | ENew _ => false
  | EWrap _ _ _ => false
  | _ => true
  end.

(** Everything without a type of its own reaches the wire as the constant
    (-32603, "Internal error"): an anonymous error or a sentinel the table does
    not name, however it was wrapped, never leaks a byte of its text. *)
Theorem wire_untyped_is_opaque (e : goerr) :
  is_typed_leaf (leaf e) = false ->
  RPCWire (Some e) = (wireInternalError, MsgInternalError).
Proof.
  intros Ht. unfold RPCWire, policy_sentinels; cbn [existsb].
  rewrite !is_dom_leaf, <- is_rpc_leaf, <- as_coded_leaf.
  destruct (leaf e) as [m|s|r|d|q c|c m|pre i post] eqn:Hl; try done.
  - destruct s; done.
  - by apply leaf_is_leaf in Hl.
Qed.

Lemma wire_untyped_is_opaque_witness :
  RPCWire (Some (wrapc "send" (ENew "sqlite: /home/u/messages.db is locked")))
  = (wireInternalError, MsgInternalError).
Proof. apply wire_untyped_is_opaque. vm_compute. reflexivity. Defined.

(** FR-050: an allowlist refusal has a byte-identical wire body whatever
    method and recipient it was wrapped for, so the wire cannot be used to
    probe which JIDs are allowlisted. *)
Theorem wire_not_allowlisted_constant (e : goerr) :
  leaf e = ERpc app.ErrNotAllowlisted ->
  RPCWire (Some e) = (wirePolicyRefused, "PolicyRefused"%string).
Proof.
  intros Hl. unfold RPCWire, policy_sentinels; cbn [existsb].
  rewrite !is_dom_leaf, <- is_rpc_leaf, Hl. done.
Qed.

Lemma wire_not_allowlisted_constant_witness :
  RPCWire (Some (wrapc "schedule.send" (wrapc "send" (ERpc app.ErrNotAllowlisted))))
  = (wirePolicyRefused, "PolicyRefused"%string).
Proof. apply wire_not_allowlisted_constant. reflexivity. Defined.

(** The code on the wire is a function of the error's own sentinel: the
    handlers' [fmt.Errorf("method: %w", err)] wrappers cannot change it, and
    it is always an int32, whatever integer a foreign coded error carries. *)
Theorem wire_code_wrapping_invariant (e : goerr) (pre post : string) :
  (RPCWire (Some (EWrap pre e post))).1 = (RPCWire (Some e)).1
  /\ - 2 ^ 31 <= (RPCWire (Some e)).1 < 2 ^ 31.
Proof.
  split.
  - rewrite (RPCWire_code_leaf (EWrap pre e post)), (RPCWire_code_leaf e). done.
  - unfold RPCWire.
    repeat (split_match; try (cbn; unfold wireMediaTooLarge, wireIdempotencyCollision,
      wirePolicyRefused, wireUpstreamError, wireUnsupportedMessageType,
      wireMediaNotCached, wireMessageUnknown, wireMessageIDAmbiguous,
      wireInternalError; lia)).
Qed.
