(* ===== verification/Jid.v ===== *)
(** * JIDs and identifiers ([internal/domain/jid.go], [ids.go]) *)
From S2P Require Import Prelude GoStd Errors.

#[local] Open Scope Z_scope.
#[local] Open Scope string_scope.

Definition serverUser : string := "s.whatsapp.net".
Definition serverGroup : string := "g.us".
Definition serverLID : string := "lid".
Definition serverHostedLID : string := "hosted.lid".
Definition serverHosted : string := "hosted".
Definition serverBot : string := "bot".
Definition serverBroadcast : string := "broadcast".
Definition serverNewsletter : string := "newsletter".
Definition minPhoneDigits : Z := 8.
Definition maxPhoneDigits : Z := 15.

(** [type JID struct]. *)
Record JID := mkJID { user : string; server : string }.

#[global] Instance JID_eq_dec : EqDecision JID.
Proof. solve_decision. Defined.
#[global] Instance JID_countable : Countable JID.
Proof.
  refine (inj_countable' (fun j => (user j, server j)) (fun p => mkJID p.1 p.2) _).
  by intros [].
Defined.

(** [JID{}]. *)
Definition zeroJID : JID := mkJID "" "".

(** [for _, r := range s] with an ASCII test: no rune of a multi-byte or
    invalid sequence is in the tested range, so the test is made per byte. *)
Definition allDigits (s : string) : bool :=
  if str_empty s then false else str_forallb is_digit s.

Definition groupUserOK (s : string) : bool :=
  if str_empty s then false
  else if str_forallb (fun c => is_digit c || Ascii.eqb c "-") s
       then str_existsb is_digit s
       else false.

Definition JID_IsZero (j : JID) : bool := (user j =? "") && (server j =? "").

(** [String]: the canonical form. *)
Definition JID_String (j : JID) : string :=
  if JID_IsZero j then "" else user j +:+ "@" +:+ server j.

Definition User (j : JID) : string := user j.
Definition Server (j : JID) : string := server j.
Definition IsUser (j : JID) : bool := server j =? serverUser.
Definition IsLID (j : JID) : bool := server j =? serverLID.
Definition IsHosted (j : JID) : bool :=
  (server j =? serverHosted) || (server j =? serverHostedLID).
Definition IsBot (j : JID) : bool := server j =? serverBot.
Definition IsChannel (j : JID) : bool := server j =? serverNewsletter.
Definition IsGroup (j : JID) : bool := server j =? serverGroup.
Definition IsAddressable (j : JID) : bool :=
  (server j =? serverUser) || (server j =? serverLID) || (server j =? serverHosted)
  || (server j =? serverHostedLID) || (server j =? serverBot).

(** [ParsePhone]: every non-digit byte is stripped. *)
Definition ParsePhone (phone : string) : result JID :=
  fail_if str_empty phone with wrapd domain.ErrInvalidPhone "empty input" ;;
  let digits := str_filter is_digit phone in
  fail_if (len digits <? minPhoneDigits)%Z || (maxPhoneDigits <? len digits)%Z
    with wrapd domain.ErrInvalidPhone "%q normalised to %d digits" ;;
  Ok (mkJID digits serverUser).

Definition parseJIDForm (input : string) : result JID :=
  match split_byte "@" input with
  | [user; server] =>
    fail_if str_empty user with wrapd domain.ErrInvalidJID "empty user in %q" ;;
    if (server =? serverUser) || (server =? serverLID) || (server =? serverHosted)
       || (server =? serverHostedLID) || (server =? serverBot)
    then fail_if negb (allDigits user)
           with wrapd domain.ErrInvalidJID "non-digit user in %q" ;;
         Ok (mkJID user server)
    else if (server =? serverGroup) || (server =? serverNewsletter)
    then fail_if negb (groupUserOK user)
           with wrapd domain.ErrInvalidJID "invalid %s user in %q" ;;
         Ok (mkJID user server)
    else if server =? serverBroadcast
    then Err (wrapd domain.ErrBroadcastForbidden
                "broadcast lists are forbidden by safety policy")
    else Err (wrapd domain.ErrInvalidJID "unknown server %q")
  | _ => Err (wrapd domain.ErrInvalidJID "%q")
  end.

Definition Parse (input : string) : result JID :=
  fail_if str_empty input with wrapd domain.ErrInvalidJID "empty input" ;;
  if str_contains input "@" then parseJIDForm input else ParsePhone input.

Definition IsNonConversationChat (chatJID : string) : bool :=
  match cut_byte "@" chatJID with
  | None => false
  | Some (user, server) =>
    if str_empty user then false
    else if server =? serverBroadcast then (user =? "status") || allDigits user
    else if server =? serverUser then user =? "0"
    else false
  end.

(** ** ids.go *)

Definition MessageID_IsZero (id : string) : bool := str_empty id.
Definition EventID_IsZero (id : string) : bool := str_empty id.
Definition SafeMessageIDMax : Z := 64.

Definition id_punct (c : ascii) : bool :=
  Ascii.eqb c "-" || Ascii.eqb c "_" || Ascii.eqb c "." || Ascii.eqb c ":"
  || Ascii.eqb c "@" || Ascii.eqb c "=" || Ascii.eqb c "+" || Ascii.eqb c "/".

Definition MessageID_IsSafe (id : string) : bool :=
  if (len id =? 0)%Z || (SafeMessageIDMax <? len id)%Z then false
  else str_forallb (fun c => is_alnum c || id_punct c) id.

(** ** The identities the parser lets through *)

Definition phone_server (s : string) : bool :=
  (s =? serverUser) || (s =? serverLID) || (s =? serverHosted)
  || (s =? serverHostedLID) || (s =? serverBot).
Definition group_server (s : string) : bool :=
  (s =? serverGroup) || (s =? serverNewsletter).

Definition wf_jid (j : JID) : bool :=
  if phone_server (server j) then allDigits (user j)
  else group_server (server j) && groupUserOK (user j).

Lemma digit_not_at : is_digit "@" = false. Proof. done. Qed.

Lemma allDigits_no_at s : allDigits s = true -> no_byte "@" s = true /\ s <> "".
Proof.
  unfold allDigits. destruct (str_empty s) eqn:E; [done|]. intros H. split.
  - by apply (no_byte_class is_digit).
  - by apply str_empty_false.
Qed.

Lemma groupUserOK_no_at s : groupUserOK s = true -> no_byte "@" s = true /\ s <> "".
Proof.
  unfold groupUserOK. destruct (str_empty s) eqn:E; [done|].
  destruct (str_forallb _ s) eqn:F; [|done]. intros _. split.
  - by apply (no_byte_class _ "@" s) in F.
  - by apply str_empty_false.
Qed.

(** The servers' names are disjoint literals without an at sign. *)
Lemma wf_jid_parts j :
  wf_jid j = true ->
  no_byte "@" (user j) = true /\ user j <> "" /\ no_byte "@" (server j) = true /\
  (server j =? serverBroadcast) = false.
Proof.
  unfold wf_jid, phone_server, group_server. intros H.
  assert (Hs : server j = serverUser \/ server j = serverLID \/ server j = serverHosted \/
    server j = serverHostedLID \/ server j = serverBot \/ server j = serverGroup \/
    server j = serverNewsletter).
  { destruct (String.eqb_spec (server j) serverUser); [tauto|].
    destruct (String.eqb_spec (server j) serverLID); [tauto|].
    destruct (String.eqb_spec (server j) serverHosted); [tauto|].
    destruct (String.eqb_spec (server j) serverHostedLID); [tauto|].
    destruct (String.eqb_spec (server j) serverBot); [tauto|].
    destruct (String.eqb_spec (server j) serverGroup); [tauto|].
    destruct (String.eqb_spec (server j) serverNewsletter); [tauto|]. done. }
  assert (Hu : no_byte "@" (user j) = true /\ user j <> "").
  { destruct (_ || _ || _ || _ || _); [by apply allDigits_no_at|].
    apply andb_true_iff in H as [_ H]. by apply groupUserOK_no_at. }
  destruct Hu. repeat split; [done..| |]; destruct_or! Hs; by rewrite Hs.
Qed.

Lemma wf_not_zero j : wf_jid j = true -> JID_IsZero j = false.
Proof.
  intros (_ & Hu & _)%wf_jid_parts. unfold JID_IsZero.
  by destruct (String.eqb_spec (user j) "").
Qed.

Lemma ParsePhone_wf s j : ParsePhone s = Ok j -> wf_jid j = true.
Proof.
  unfold ParsePhone. intros [_ H]%guard_ok. cbn zeta in H.
  apply guard_ok in H as [[Hl _]%orb_false_iff [= <-]]. cbn.
  unfold allDigits. rewrite str_forallb_filter.
  destruct (str_empty _) eqn:E; [|done].
  apply str_empty_true in E. by rewrite E in Hl.
Qed.

Lemma parseJIDForm_ok s j :
  parseJIDForm s = Ok j <-> s = user j +:+ "@" +:+ server j /\ wf_jid j = true.
Proof.
  unfold parseJIDForm. split.
  - destruct (split_byte "@" s) as [|u [|v [|]]] eqn:E; try done.
    apply split_byte_two in E as (-> & Hu & Hv). intros [_ H]%guard_ok.
    unfold wf_jid, phone_server, group_server.
    destruct (_ || _ || _ || _ || _) eqn:P in H.
    + apply guard_ok in H as [Hd%negb_false_iff [= <-]]. cbn. rewrite P. eauto.
    + destruct (_ || _) eqn:G in H; [|by destruct (v =? serverBroadcast)].
      apply guard_ok in H as [Hd%negb_false_iff [= <-]]. cbn. rewrite P, G. eauto.
  - intros [-> Hw]. destruct (wf_jid_parts j Hw) as (Hu & Hne & Hv & _).
    cbn [String.append]. rewrite (proj2 (split_byte_two "@" _ (user j) (server j))); [|done].
    rewrite (proj2 (str_empty_false _) Hne). cbn.
    unfold wf_jid, phone_server, group_server in Hw.
    destruct (_ || _ || _ || _ || _).
    + rewrite Hw. by destruct j.
    + apply andb_true_iff in Hw as [-> Hw]. rewrite Hw. by destruct j.
Qed.

Lemma Parse_wf s j : Parse s = Ok j -> wf_jid j = true.
Proof.
  unfold Parse. intros [_ H]%guard_ok. destruct (str_contains _ _).
  - by apply parseJIDForm_ok in H as [_ ?].
  - by eapply ParsePhone_wf.
Qed.

Lemma Parse_String j : wf_jid j = true -> Parse (JID_String j) = Ok j.
Proof.
  intros Hw. destruct (wf_jid_parts j Hw) as (_ & Hu & _).
  unfold JID_String, Parse. rewrite (wf_not_zero j Hw).
  replace (str_empty _) with false by (by destruct (user j)).
  replace (str_contains _ _) with true; [by apply parseJIDForm_ok|].
  symmetry. apply str_contains_spec. by exists (user j), (server j).
Qed.

(** Parsing is sound and the canonical form is a fixed point: every JID
    [Parse] accepts, from a phone number in any notation or from the
    user@server form, is well formed (an all-digit user on a person server, a
    group user on a group or newsletter server, never a broadcast list), and
    parsing its [String] gives the same JID back. *)
Theorem Parse_String_roundtrip (input : string) (j : JID) :
  Parse input = Ok j -> wf_jid j = true /\ Parse (JID_String j) = Ok j.
Proof. intros Hw%Parse_wf. eauto using Parse_String. Qed.

Lemma Parse_String_roundtrip_witness :
  Parse (JID_String (mkJID "5511999990000" serverUser))
  = Ok (mkJID "5511999990000" serverUser).
Proof.
  apply (Parse_String_roundtrip "+55 (11) 99999-0000").
  vm_compute. reflexivity.
Defined.

(** [String] is injective on parsed JIDs, so the string-keyed tables
    (audit, allowlist file, rate buckets) never merge two identities. *)
Theorem JID_String_inj (s1 s2 : string) (j1 j2 : JID) :
  Parse s1 = Ok j1 -> Parse s2 = Ok j2 -> JID_String j1 = JID_String j2 -> j1 = j2.
Proof.
  intros H1%Parse_wf%Parse_String H2%Parse_wf%Parse_String HS.
  rewrite HS in H1. congruence.
Qed.

Lemma JID_String_inj_witness :
  mkJID "5511999990000" serverUser = mkJID "5511999990000" serverUser.
Proof.
  apply (JID_String_inj "+55 11 99999-0000" "5511999990000@s.whatsapp.net");
    vm_compute; reflexivity.
Defined.

(** Only one parsed identity is a system thread, the 0@s.whatsapp.net
    account; status@broadcast and the broadcast lists never parse. *)
Lemma IsNonConversationChat_parsed (j : JID) :
  wf_jid j = true ->
  IsNonConversationChat (JID_String j) = bool_decide (j = mkJID "0" serverUser).
Proof.
  intros Hw. destruct (wf_jid_parts j Hw) as (Hu & Hne & Hs & Hb).
  unfold IsNonConversationChat, JID_String. rewrite (wf_not_zero j Hw).
  cbn [String.append]. rewrite cut_byte_app by done.
  rewrite (proj2 (str_empty_false _) Hne), Hb.
  destruct j as [u s]; cbn in *.
  destruct (String.eqb_spec s serverUser) as [->|Hn].
  - destruct (String.eqb_spec u "0") as [->|Hn]; symmetry; [done|].
    apply bool_decide_eq_false. congruence.
  - symmetry. apply bool_decide_eq_false. congruence.
Qed.

(** The three sentinels the parser documents. *)
Definition parse_sentinel (e : goerr) : bool :=
  is_dom domain.ErrInvalidJID e || is_dom domain.ErrInvalidPhone e
  || is_dom domain.ErrBroadcastForbidden e.

(** The parser's errors are its documented sentinels, and the broadcast
    refusal is raised for exactly the inputs of the form user@broadcast. *)
Theorem Parse_error_classified (input : string) (e : goerr) :
  Parse input = Err e ->
  parse_sentinel e = true
  /\ (is_dom domain.ErrBroadcastForbidden e = true <->
      exists u, u <> "" /\ no_byte "@" u = true /\ input = u +:+ "@" +:+ serverBroadcast).
Proof.
  unfold Parse. intros [[Hb <-]|[Hb H]]%guard_err.
  { apply str_empty_true in Hb as ->. split; [done|]. split; [done|].
    intros (u & Hu & _ & H). by destruct u. }
  destruct (str_contains input "@") eqn:Hc.
  - unfold parseJIDForm in H.
    destruct (split_byte "@" input) as [|u [|v [|]]] eqn:E.
    1, 2, 4: injection H as <-; split; [done|]; split; [done|];
      intros (u' & _ & Hu' & ->); exfalso;
      rewrite (proj2 (split_byte_two "@" _ u' serverBroadcast)) in E; done.
    apply split_byte_two in E as (-> & Hu & Hv).
    assert (Hex : (exists u0, u0 <> "" /\ no_byte "@" u0 = true /\
        u +:+ String "@" v = u0 +:+ "@" +:+ serverBroadcast) <-> u <> "" /\ v = serverBroadcast).
    { split; [|intros [? ->]; eauto]. intros (u0 & H0 & Hn0 & Heq).
      assert (Some (u, v) = Some (u0, serverBroadcast)) as [= -> ->]; [|done].
      rewrite <- (cut_byte_app "@" u v), <- (cut_byte_app "@" u0 serverBroadcast) by done.
      by rewrite Heq. }
    rewrite Hex. clear Hex Hc.
    apply guard_err in H as [[He <-]|[He%str_empty_false H]].
    { apply str_empty_true in He as ->. split; [done|]. naive_solver. }
    destruct (_ || _ || _ || _ || _) eqn:P in H; [|destruct (_ || _) eqn:G in H].
    + apply guard_err in H as [[_ <-]|[_ [=]]]. split; [done|]. split; [done|].
      intros [_ ->]. done.
    + apply guard_err in H as [[_ <-]|[_ [=]]]. split; [done|]. split; [done|].
      intros [_ ->]. done.
    + destruct (String.eqb_spec v serverBroadcast); injection H as <-; split; naive_solver.
  - assert (Hx : parse_sentinel e = true /\ is_dom domain.ErrBroadcastForbidden e = false).
    { unfold ParsePhone in H. apply guard_err in H as [[_ <-]|[_ H]]; [done|].
      by apply guard_err in H as [[_ <-]|[_ [=]]]. }
    destruct Hx as [-> ->]. split; [done|]. split; [done|].
    intros (u & _ & _ & ->). exfalso. revert Hc. apply not_false_iff_true, str_contains_spec.
    by exists u, serverBroadcast.
Qed.

Lemma Parse_error_classified_witness :
  exists e, Parse "120363@broadcast" = Err e /\ is_dom domain.ErrBroadcastForbidden e = true.
Proof.
  exists (wrapd domain.ErrBroadcastForbidden "broadcast lists are forbidden by safety policy").
  split; [reflexivity|].
  apply (Parse_error_classified "120363@broadcast"); [reflexivity|].
  exists "120363". repeat split; discriminate.
Defined.
