(* ===== verification/Policy.v ===== *)
(** * The allowlist, its actions and the audit record

    [internal/domain/action.go], [allowlist.go], [audit.go] and
    [internal/app/allowlist_middleware.go].  An [Action] and an [AuditAction]
    are the [Z] of their Go [uint8]; the per-JID permission record is the
    [uint32] bitmap of the code; the allowlist is a finite map from JIDs to
    bitmaps (the mutex makes each operation one atomic step). *)
From S2P Require Import Prelude GoStd Errors Jid.

#[local] Open Scope Z_scope.

(** ** action.go *)

Definition ActionRead : Z := 1.
Definition ActionSend : Z := 2.
Definition ActionGroupAdd : Z := 3.
Definition ActionGroupCreate : Z := 4.
Definition ActionRevoke : Z := 5.
Definition ActionEdit : Z := 6.
Definition ActionBlock : Z := 7.
Definition ActionGroupRemove : Z := 8.
Definition ActionGroupPromote : Z := 9.
Definition ActionGroupDemote : Z := 10.
Definition ActionGroupLeave : Z := 11.
Definition ActionGroupEdit : Z := 12.
Definition ActionGroupInvite : Z := 13.
Definition ActionPrivacySet : Z := 14.
Definition ActionProfileEdit : Z := 15.
Definition ActionLogoutAll : Z := 16.
Definition ActionPresence : Z := 17.
Definition ActionChatState : Z := 18.
Definition ActionLogout : Z := 19.

(** [actionNames]: the array, position 0 empty. *)
Definition actionNames : list string :=
  [""; "read"; "send"; "group.add"; "group.create"; "revoke"; "edit"; "block";
   "group.remove"; "group.promote"; "group.demote"; "group.leave"; "group.edit";
   "group.invite"; "privacy.set"; "profile.edit"; "logout.all"; "presence";
   "chat.state"; "logout"]%string.

(** [int(a) < len(tbl) && tbl[a] != ""], then [tbl[a]]. *)
Definition table_name (tbl : list string) (a : Z) : option string :=
  if a <? 0 then None
  else match tbl !! Z.to_nat a with
       | Some n => if str_empty n then None else Some n
       | None => None
       end.

Definition Action_String (a : Z) : string :=
  match table_name actionNames a with Some n => n | None => "unknown" end.

Definition Action_IsValid (a : Z) : bool :=
  match table_name actionNames a with Some _ => true | None => false end.

(** The first index from [i] on whose non-empty name is [s]. *)
Fixpoint find_name (names : list string) (s : string) (i : Z) : option Z :=
  match names with
  | [] => None
  | n :: ns => if negb (str_empty n) && (n =? s)%string then Some i
               else find_name ns s (i + 1)
  end.

Definition ParseAction (s : string) : result Z :=
  match find_name actionNames s 0 with
  | Some i => Ok i
  | None => Err (wrapd domain.ErrUnknownAction "%q")
  end.

Fixpoint named_from (names : list string) (i : Z) : list Z :=
  match names with
  | [] => []
  | n :: ns => if (i =? 0) || str_empty n then named_from ns (i + 1)
               else i :: named_from ns (i + 1)
  end.
Definition AllActions : list Z := named_from actionNames 0.

(** ** allowlist.go *)

Record actionSet := mkActionSet { bits : Z }.

#[global] Instance actionSet_eq_dec : EqDecision actionSet.
Proof. solve_decision. Defined.

Definition actionSet_get (s : actionSet) (a : Z) : bool :=
  if negb (Action_IsValid a) then false
  else negb (Z.land (bits s) (Z.shiftl 1 a mod 2 ^ 32) =? 0).

Definition actionSet_set (s : actionSet) (a : Z) (v : bool) : actionSet :=
  if negb (Action_IsValid a) then s
  else if v then mkActionSet (Z.lor (bits s) (Z.shiftl 1 a mod 2 ^ 32))
       else mkActionSet (Z.ldiff (bits s) (Z.shiftl 1 a mod 2 ^ 32)).

Definition actionSet_list (s : actionSet) : list Z :=
  merge_sort Z.le (List.filter (actionSet_get s) AllActions).

Definition actionSet_empty (s : actionSet) : bool := bits s =? 0.

Abbreviation Allowlist := (gmap JID actionSet).

Definition NewAllowlist : Allowlist := ∅.

Definition Allows (al : Allowlist) (j : JID) (a : Z) : bool :=
  if negb (Action_IsValid a) then false
  else match al !! j with
       | None => false
       | Some set => actionSet_get set a
       end.

Definition set_all (v : bool) (acts : list Z) (s : actionSet) : actionSet :=
  foldl (fun s a => if Action_IsValid a then actionSet_set s a v else s) s acts.

Definition Allowlist_Grant (al : Allowlist) (j : JID) (acts : list Z) : Allowlist :=
  let set := set_all true acts (default (mkActionSet 0) (al !! j)) in
  if actionSet_empty set then al else <[j := set]> al.

Definition Allowlist_Revoke (al : Allowlist) (j : JID) (acts : list Z) : Allowlist :=
  match al !! j with
  | None => al
  | Some set =>
      let set := set_all false acts set in
      if actionSet_empty set then delete j al else <[j := set]> al
  end.

Definition Allowlist_Entries (al : Allowlist) : gmap JID (list Z) := actionSet_list <$> al.
Definition Allowlist_Size (al : Allowlist) : nat := size al.

(** ** allowlist_middleware.go *)

Definition methodActions : list (string * Z) :=
  [("send", ActionSend); ("sendMedia", ActionSend); ("send.reply", ActionSend);
   ("react", ActionSend); ("markRead", ActionRead); ("message.revoke", ActionRevoke);
   ("message.edit", ActionEdit); ("message.forward", ActionSend);
   ("message.star", ActionSend); ("message.setDisappearing", ActionChatState);
   ("chat.archive", ActionChatState); ("chat.mute", ActionChatState);
   ("chat.pin", ActionChatState); ("chat.markUnread", ActionChatState);
   ("chat.composing", ActionPresence); ("presence.composing.start", ActionPresence);
   ("presence.composing.stop", ActionPresence);
   ("presence.recording.start", ActionPresence);
   ("presence.recording.stop", ActionPresence);
   ("contact.block", ActionBlock); ("contact.unblock", ActionBlock);
   ("group.create", ActionGroupCreate); ("group.leave", ActionGroupLeave);
   ("group.addParticipants", ActionGroupAdd);
   ("group.removeParticipants", ActionGroupRemove);
   ("group.promote", ActionGroupPromote); ("group.demote", ActionGroupDemote);
   ("group.edit", ActionGroupEdit); ("group.inviteRevoke", ActionGroupInvite);
   ("group.inviteJoin", ActionGroupInvite); ("poll.create", ActionSend);
   ("poll.vote", ActionSend); ("privacy.set", ActionPrivacySet);
   ("profile.setName", ActionProfileEdit); ("profile.setStatus", ActionProfileEdit);
   ("session.logoutAll", ActionLogoutAll); ("session.logout", ActionLogout)]%string.

Fixpoint assoc {A} (l : list (string * A)) (k : string) : option A :=
  match l with
  | [] => None
  | (k', a) :: l' => if (k' =? k)%string then Some a else assoc l' k
  end.

Definition ActionForMethod (method : string) : option Z := assoc methodActions method.

Definition pluginBoundaryRefused : list string :=
  ["contact.block"; "contact.unblock"; "privacy.set"; "group.leave";
   "session.logoutAll"; "session.logout"]%string.

Definition IsPluginBoundaryRefused (method : string) : bool :=
  existsb (String.eqb method) pluginBoundaryRefused.

(** ** audit.go *)

Definition AuditSend : Z := 1.
Definition AuditReceive : Z := 2.
Definition AuditPair : Z := 3.
Definition AuditGrant : Z := 4.
Definition AuditRevoke : Z := 5.
Definition AuditPanic : Z := 6.
Definition AuditHistoryComplete : Z := 7.
Definition AuditStreamDrop : Z := 8.
Definition AuditMigration : Z := 9.
Definition AuditIdempotencyCollision : Z := 10.
Definition AuditEdit : Z := 11.
Definition AuditBlock : Z := 12.
Definition AuditUnblock : Z := 13.
Definition AuditLeaveGroup : Z := 14.
Definition AuditPrivacyChange : Z := 15.
Definition AuditLogoutAll : Z := 16.
Definition AuditGroupCreate : Z := 17.
Definition AuditGroupParticipantsPatch : Z := 18.
Definition AuditGroupInviteJoin : Z := 19.
Definition AuditDisappearingSet : Z := 20.
Definition AuditProfileEdit : Z := 21.
Definition AuditReload : Z := 22.
Definition AuditLogout : Z := 23.
Definition AuditDraftCreate : Z := 24.

Definition auditForAction : list (Z * Z) :=
  [(ActionSend, AuditSend); (ActionRevoke, AuditRevoke); (ActionEdit, AuditEdit);
   (ActionBlock, AuditBlock); (ActionProfileEdit, AuditProfileEdit);
   (ActionLogoutAll, AuditLogoutAll); (ActionLogout, AuditLogout);
   (ActionGroupCreate, AuditGroupCreate); (ActionGroupLeave, AuditLeaveGroup);
   (ActionPrivacySet, AuditPrivacyChange)].

Definition AuditForAction (a : Z) : Z :=
  match find (fun p => p.1 =? a) auditForAction with
  | Some (_, kind) => kind
  | None => AuditSend
  end.

Definition auditActionNames : list string :=
  ["unknown"; "send"; "receive"; "pair"; "grant"; "revoke"; "panic";
   "history_complete"; "stream_drop"; "migration"; "idempotency_collision"; "edit";
   "block"; "unblock"; "leave_group"; "privacy_change"; "logout_all"; "group_create";
   "group_participants_patch"; "group_invite_join"; "disappearing_set";
   "profile_edit"; "reload"; "logout"; "draft_create"]%string.

Definition AuditAction_String (a : Z) : string :=
  match table_name auditActionNames a with Some n => n | None => "unknown" end.

Record AuditEvent := mkAuditEvent {
  ae_ID : string;
  ae_TS : time;
  ae_Actor : string;
  ae_Action : Z;
  ae_Subject : JID;
  ae_Decision : string;
  ae_Detail : string;
  ae_Source : string
}.

(** [time.Now().UTC()] is the argument [now]. *)
Definition NewAuditEventFrom (source actor : string) (action : Z) (subject : JID)
    (decision detail : string) (now : time) : AuditEvent :=
  mkAuditEvent "" (utc now) actor action subject decision detail
    (if str_empty source then "internal" else source).

Definition NewAuditEvent (actor : string) (action : Z) (subject : JID)
    (decision detail : string) (now : time) : AuditEvent :=
  NewAuditEventFrom "internal" actor action subject decision detail now.

Definition quote_byte : ascii := chr 34.
Definition hexDigit (n : Z) : ascii := chr (if n <? 10 then 48 + n else 87 + n).

(** The [switch c] of [writeJSONString]. *)
Definition json_escape (c : ascii) : string :=
  let z := bz c in
  if z =? 34 then String "\" (String c "")
  else if z =? 92 then "\\"
  else if z =? 10 then "\n"
  else if z =? 13 then "\r"
  else if z =? 9 then "\t"
  else if z <? 32
       then "\u00" +:+ String (hexDigit (Z.shiftr z 4)) (String (hexDigit (Z.land z 15)) "")
  else String c "".

Definition writeJSONString (s : string) : string :=
  String quote_byte (str_flat_map json_escape s +:+ String quote_byte "").

(** A key of the object with its colon. *)
Definition json_key (k : string) : string :=
  String quote_byte (k +:+ String quote_byte ":").

Definition AuditEvent_String (e : AuditEvent) : string :=
  ("{" +:+ json_key "id" +:+ writeJSONString (ae_ID e)
   +:+ "," +:+ json_key "ts" +:+ writeJSONString (format_rfc3339nano (utc (ae_TS e)))
   +:+ "," +:+ json_key "actor" +:+ writeJSONString (ae_Actor e)
   +:+ "," +:+ json_key "action" +:+ writeJSONString (AuditAction_String (ae_Action e))
   +:+ "," +:+ json_key "subject" +:+ writeJSONString (JID_String (ae_Subject e))
   +:+ "," +:+ json_key "decision" +:+ writeJSONString (ae_Decision e)
   +:+ "," +:+ json_key "detail" +:+ writeJSONString (ae_Detail e)
   +:+ (if str_empty (ae_Source e) then ""
        else "," +:+ json_key "source" +:+ writeJSONString (ae_Source e))
   +:+ "}")%string.

(** ** Lemmas on actions and bitmaps *)

Lemma valid_enum a : 1 <= a <= 19 -> a ∈ AllActions.
Proof.
  intros H. assert (E : AllActions = seqZ 1 19) by reflexivity.
  rewrite E. apply elem_of_seqZ. lia.
Qed.

Lemma valid_all : Forall (fun a => Action_IsValid a = true) AllActions.
Proof. apply forallb_Forall_iff. reflexivity. Qed.

Lemma Action_IsValid_range a : Action_IsValid a = true <-> 1 <= a <= 19.
Proof.
  split; intros H.
  - unfold Action_IsValid, table_name in H. destruct (a <? 0) eqn:E; [done|]. bprop.
    destruct (actionNames !! Z.to_nat a) as [n|] eqn:En; [|done].
    pose proof (lookup_lt_Some _ _ _ En) as Hlt. cbn in Hlt.
    destruct (decide (a = 0)) as [->|]; [|lia]. cbn in En. injection En as <-. done.
  - apply (proj1 (Forall_forall _ _) valid_all). by apply valid_enum.
Qed.

Lemma action_mask a : 1 <= a <= 19 -> Z.shiftl 1 a mod 2 ^ 32 = 2 ^ a.
Proof.
  intros Ha. rewrite Z.shiftl_1_l. apply Z.mod_small. split; [lia|].
  apply Z.pow_lt_mono_r; lia.
Qed.

Lemma land_pow2_testbit b a : 0 <= a -> negb (Z.land b (2 ^ a) =? 0) = Z.testbit b a.
Proof.
  intros Ha. destruct (Z.testbit b a) eqn:E.
  - apply negb_true_iff, Z.eqb_neq. intros H.
    assert (Z.testbit (Z.land b (2 ^ a)) a = false) by (rewrite H; apply Z.bits_0).
    rewrite Z.land_spec, E, Z.pow2_bits_true in * by done. done.
  - apply negb_false_iff, Z.eqb_eq, Z.bits_inj'. intros n Hn.
    rewrite Z.land_spec, Z.pow2_bits_eqb, Z.bits_0 by done.
    destruct (Z.eqb_spec a n) as [->|]; [by rewrite E|by rewrite andb_false_r].
Qed.

Lemma actionSet_get_testbit s a :
  actionSet_get s a = Action_IsValid a && Z.testbit (bits s) a.
Proof.
  unfold actionSet_get. destruct (Action_IsValid a) eqn:E; [|done]. cbn.
  apply Action_IsValid_range in E. rewrite action_mask by done.
  apply land_pow2_testbit. lia.
Qed.

Lemma actionSet_set_testbit s a v i :
  0 <= i ->
  Z.testbit (bits (actionSet_set s a v)) i
  = if Action_IsValid a && (a =? i) then v else Z.testbit (bits s) i.
Proof.
  intros Hi. unfold actionSet_set. destruct (Action_IsValid a) eqn:E; [|done].
  apply Action_IsValid_range in E. rewrite action_mask by done. cbn.
  destruct v; cbn; [rewrite Z.lor_spec|rewrite Z.ldiff_spec];
    rewrite Z.pow2_bits_eqb by lia; destruct (a =? i); cbn;
    by rewrite ?orb_true_r, ?orb_false_r, ?andb_false_r, ?andb_true_r.
Qed.

Lemma set_all_testbit v acts s i :
  0 <= i ->
  Z.testbit (bits (set_all v acts s)) i
  = if Action_IsValid i && bool_decide (i ∈ acts) then v else Z.testbit (bits s) i.
Proof.
  intros Hi. unfold set_all. revert s. induction acts as [|a acts IH]; intros s; cbn [foldl].
  - by rewrite andb_false_r.
  - rewrite IH. clear IH.
    assert (Hs : Z.testbit (bits (if Action_IsValid a then actionSet_set s a v else s)) i
      = if Action_IsValid a && (a =? i) then v else Z.testbit (bits s) i).
    { destruct (Action_IsValid a) eqn:E; [|done]. by rewrite actionSet_set_testbit, E. }
    rewrite Hs. destruct (Z.eqb_spec a i) as [->|Hn].
    + rewrite andb_true_r, (bool_decide_eq_true_2 (i ∈ i :: acts)) by left.
      by destruct (Action_IsValid i), (bool_decide (i ∈ acts)).
    + rewrite andb_false_r.
      erewrite (bool_decide_ext (i ∈ a :: acts) (i ∈ acts)); [done|].
      rewrite elem_of_cons. naive_solver.
Qed.

(** ** The allowlist refines a set of (jid, action) permissions *)

(** What an entry may hold: only valid actions, at least one, a [uint32]. *)
Definition actionSet_wf (s : actionSet) : Prop :=
  0 <= bits s < 2 ^ 32 /\ forall i, 0 <= i -> Z.testbit (bits s) i = true -> Action_IsValid i = true.

Definition Allowlist_wf (al : Allowlist) : Prop :=
  map_Forall (fun _ s => actionSet_wf s /\ actionSet_empty s = false) al.

Lemma bits_below b n : 0 <= n -> 0 <= b ->
  (forall i, 0 <= i -> Z.testbit b i = true -> i < n) -> b < 2 ^ n.
Proof.
  intros Hn Hb H. destruct (decide (b = 0)) as [->|Hnz]; [lia|].
  assert (Hl : Z.log2 b < n).
  { apply H; [apply Z.log2_nonneg|]. apply Z.bit_log2. lia. }
  apply Z.log2_lt_pow2; lia.
Qed.

Lemma actionSet_set_nonneg s a v : 0 <= bits s -> 0 <= bits (actionSet_set s a v).
Proof.
  intros H. unfold actionSet_set. destruct (negb _); [done|].
  pose proof (Z.mod_pos_bound (Z.shiftl 1 a) (2 ^ 32) ltac:(lia)).
  destruct v; cbn; [apply Z.lor_nonneg|apply Z.ldiff_nonneg]; lia.
Qed.

Lemma set_all_wf v acts s : actionSet_wf s -> actionSet_wf (set_all v acts s).
Proof.
  intros [Hb Hv].
  assert (Hn : 0 <= bits (set_all v acts s)).
  { unfold set_all. destruct Hb as [Hb _]. clear Hv. revert s Hb.
    induction acts as [|a acts IH]; intros s Hb; cbn; [done|].
    apply IH. destruct (Action_IsValid a); [by apply actionSet_set_nonneg|done]. }
  assert (Hv' : forall i, 0 <= i ->
      Z.testbit (bits (set_all v acts s)) i = true -> Action_IsValid i = true).
  { intros i Hi. rewrite set_all_testbit by done.
    destruct (Action_IsValid i) eqn:E; [done|]. cbn. intros H.
    rewrite <- E. by apply Hv. }
  split; [split; [done|]|done].
  apply bits_below; [lia|done|]. intros i Hi H.
  apply Hv', Action_IsValid_range in H; lia.
Qed.

Lemma empty_wf : actionSet_wf (mkActionSet 0).
Proof. split; [cbn; lia|]. intros i _. cbn. by rewrite Z.bits_0. Qed.

Lemma Allowlist_Grant_wf al j acts : Allowlist_wf al -> Allowlist_wf (Allowlist_Grant al j acts).
Proof.
  intros Hwf. unfold Allowlist_Grant. destruct (actionSet_empty _) eqn:E; [done|].
  apply map_Forall_insert_2; [|done]. split; [|done].
  apply set_all_wf. destruct (al !! j) eqn:L; cbn; [|apply empty_wf].
  by apply Hwf in L as [? _].
Qed.

Lemma Allowlist_Revoke_wf al j acts :
  Allowlist_wf al -> Allowlist_wf (Allowlist_Revoke al j acts).
Proof.
  intros Hwf. unfold Allowlist_Revoke. destruct (al !! j) eqn:L; [|done].
  apply Hwf in L as [L _]. destruct (actionSet_empty _) eqn:E.
  - by apply map_Forall_delete.
  - apply map_Forall_insert_2; [|done]. split; [by apply set_all_wf|done].
Qed.

Lemma Allows_testbit al j a :
  Allows al j a = Action_IsValid a && Z.testbit (bits (default (mkActionSet 0) (al !! j))) a.
Proof.
  unfold Allows. destruct (Action_IsValid a) eqn:E; [|done]. cbn.
  destruct (al !! j); cbn; [by rewrite actionSet_get_testbit, E|by rewrite Z.bits_0].
Qed.

Lemma empty_bits s i : actionSet_empty s = true -> Z.testbit (bits s) i = false.
Proof. unfold actionSet_empty. intros ->%Z.eqb_eq. apply Z.bits_0. Qed.

Lemma Allows_Grant al j acts j' a :
  Allows (Allowlist_Grant al j acts) j' a
  = Allows al j' a || (Action_IsValid a && bool_decide (j = j') && bool_decide (a ∈ acts)).
Proof.
  rewrite !Allows_testbit. destruct (Action_IsValid a) eqn:E; [|done]. cbn.
  assert (Ha : 0 <= a) by (apply Action_IsValid_range in E; lia).
  pose proof (set_all_testbit true acts (default (mkActionSet 0) (al !! j)) a Ha) as Ht.
  rewrite E in Ht. cbn in Ht.
  unfold Allowlist_Grant. destruct (decide (j = j')) as [<-|Hn].
  - rewrite bool_decide_eq_true_2 by done. cbn.
    destruct (actionSet_empty _) eqn:Em.
    + rewrite (empty_bits _ a Em) in Ht.
      destruct (bool_decide (a ∈ acts)); [done|]. by rewrite orb_false_r.
    + rewrite lookup_insert_eq. cbn. rewrite Ht.
      destruct (bool_decide _); by rewrite ?orb_true_r, ?orb_false_r.
  - rewrite (bool_decide_eq_false_2 (j = j')) by done. cbn. rewrite orb_false_r.
    destruct (actionSet_empty _); [done|]. by rewrite lookup_insert_ne.
Qed.

Lemma Allows_Revoke al j acts j' a :
  Allows (Allowlist_Revoke al j acts) j' a
  = Allows al j' a && negb (bool_decide (j = j') && bool_decide (a ∈ acts)).
Proof.
  rewrite !Allows_testbit. destruct (Action_IsValid a) eqn:E; [|done]. cbn.
  assert (Ha : 0 <= a) by (apply Action_IsValid_range in E; lia).
  unfold Allowlist_Revoke. destruct (decide (j = j')) as [<-|Hn].
  - rewrite bool_decide_eq_true_2 by done. cbn.
    destruct (al !! j) as [s|] eqn:L; cbn.
    2: { rewrite L. cbn. by rewrite Z.bits_0. }
    pose proof (set_all_testbit false acts s a Ha) as Ht. rewrite E in Ht. cbn in Ht.
    destruct (actionSet_empty _) eqn:Em.
    + rewrite lookup_delete_eq. cbn. rewrite Z.bits_0.
      rewrite (empty_bits _ a Em) in Ht.
      destruct (bool_decide (a ∈ acts)); cbn; [by rewrite andb_false_r|by rewrite <- Ht].
    + rewrite lookup_insert_eq. cbn. rewrite Ht.
      destruct (bool_decide _); cbn; by rewrite ?andb_false_r, ?andb_true_r.
  - rewrite (bool_decide_eq_false_2 (j = j')) by done. cbn. rewrite andb_true_r.
    destruct (al !! j); [|done].
    destruct (actionSet_empty _); [by rewrite lookup_delete_ne|by rewrite lookup_insert_ne].
Qed.

(** The operations that reach the allowlist (allow/revoke RPCs, file reload). *)
Inductive al_op :=
| OpGrant (j : JID) (acts : list Z)
| OpRevoke (j : JID) (acts : list Z).

Definition al_step (al : Allowlist) (o : al_op) : Allowlist :=
  match o with
  | OpGrant j acts => Allowlist_Grant al j acts
  | OpRevoke j acts => Allowlist_Revoke al j acts
  end.
Definition al_run (al : Allowlist) (ops : list al_op) : Allowlist := foldl al_step al ops.

(** The abstract policy: a set of permissions, default deny. *)
Definition pairs (j : JID) (acts : list Z) : gset (JID * Z) :=
  list_to_set ((fun a => (j, a)) <$> List.filter Action_IsValid acts).
Definition perm_step (p : gset (JID * Z)) (o : al_op) : gset (JID * Z) :=
  match o with
  | OpGrant j acts => p ∪ pairs j acts
  | OpRevoke j acts => p ∖ pairs j acts
  end.
Definition perm_run (p : gset (JID * Z)) (ops : list al_op) : gset (JID * Z) :=
  foldl perm_step p ops.

Lemma elem_of_pairs j acts j' a :
  (j', a) ∈ pairs j acts <-> j = j' /\ a ∈ acts /\ Action_IsValid a = true.
Proof.
  unfold pairs. rewrite elem_of_list_to_set, list_elem_of_fmap. split.
  - intros (x & [= <- <-] & Hx). apply list_elem_of_In, filter_In in Hx as [Hx ?].
    split; [done|]. split; [|done]. by apply list_elem_of_In.
  - intros (<- & Ha & Hv). exists a. split; [done|].
    apply list_elem_of_In, filter_In. split; [by apply list_elem_of_In|done].
Qed.

Definition al_refines (al : Allowlist) (p : gset (JID * Z)) : Prop :=
  Allowlist_wf al /\ forall j a, Allows al j a = bool_decide ((j, a) ∈ p).

Lemma al_step_refines al p o :
  al_refines al p -> al_refines (al_step al o) (perm_step p o).
Proof.
  intros [Hwf H]. destruct o as [j acts|j acts]; cbn.
  - split; [by apply Allowlist_Grant_wf|]. intros j' a. rewrite Allows_Grant, H.
    apply eq_true_iff_eq. rewrite !orb_true_iff, !andb_true_iff, !bool_decide_eq_true,
      elem_of_union, elem_of_pairs. naive_solver.
  - split; [by apply Allowlist_Revoke_wf|]. intros j' a. rewrite Allows_Revoke, H.
    apply eq_true_iff_eq.
    rewrite !andb_true_iff, negb_true_iff, andb_false_iff, !bool_decide_eq_true,
      !bool_decide_eq_false, elem_of_difference, elem_of_pairs.
    split; [naive_solver|]. intros [Hp Hn]. split; [done|].
    assert (Hv : Action_IsValid a = true).
    { destruct (Action_IsValid a) eqn:E; [done|].
      pose proof (bool_decide_eq_true_2 _ Hp) as Hb. rewrite <- H in Hb.
      unfold Allows in Hb. by rewrite E in Hb. }
    destruct (decide (j = j')); [right|by left]. naive_solver.
Qed.

Lemma al_run_refines ops al p :
  al_refines al p -> al_refines (al_run al ops) (perm_run p ops).
Proof.
  revert al p. induction ops as [|o ops IH]; intros al p H; cbn; [done|].
  apply IH. by apply al_step_refines.
Qed.

Lemma NewAllowlist_refines : al_refines NewAllowlist ∅.
Proof.
  split; [apply map_Forall_empty|]. intros j a.
  rewrite bool_decide_eq_false_2 by set_solver.
  unfold Allows, NewAllowlist. by rewrite lookup_empty, Tauto.if_same.
Qed.

(** C4. Default deny and least surprise: after any sequence of grants and
    revocations the bitmap allowlist permits exactly the (jid, action) pairs
    of the mathematical set the same operations build, unknown JIDs and
    invalid actions are denied, and no entry is empty or holds a bit of an
    undeclared action. *)
Theorem allowlist_refines_permission_set (ops : list al_op) (j : JID) (a : Z) :
  Allowlist_wf (al_run NewAllowlist ops)
  /\ (Allows (al_run NewAllowlist ops) j a = true <-> (j, a) ∈ perm_run ∅ ops).
Proof.
  destruct (al_run_refines ops _ _ NewAllowlist_refines) as [Hwf H].
  split; [done|]. by rewrite H, bool_decide_eq_true.
Qed.

(** Two allowlists are equivalent when they decide alike. *)
Definition al_equiv (a b : Allowlist) : Prop := forall j act, Allows a j act = Allows b j act.

#[global] Instance al_equiv_equivalence : Equivalence al_equiv.
Proof.
  split.
  - by intros a j act.
  - intros a b H j act. by rewrite H.
  - intros a b c H1 H2 j act. by rewrite H1, H2.
Qed.

#[global] Instance Allowlist_Grant_proper :
  Proper (al_equiv ==> eq ==> eq ==> al_equiv) Allowlist_Grant.
Proof. intros a b H j ? <- acts ? <- j' act. by rewrite !Allows_Grant, H. Qed.
#[global] Instance Allowlist_Revoke_proper :
  Proper (al_equiv ==> eq ==> eq ==> al_equiv) Allowlist_Revoke.
Proof. intros a b H j ? <- acts ? <- j' act. by rewrite !Allows_Revoke, H. Qed.
#[global] Instance al_run_proper : Proper (al_equiv ==> eq ==> al_equiv) al_run.
Proof.
  intros a b H ops ? <-. revert a b H. induction ops as [|o ops IH]; intros a b H; cbn; [done|].
  apply IH. destruct o; cbn; by rewrite H.
Qed.

Lemma wf_bits_eq s s' :
  actionSet_wf s -> actionSet_wf s' ->
  (forall a, Action_IsValid a = true -> Z.testbit (bits s) a = Z.testbit (bits s') a) -> s = s'.
Proof.
  destruct s as [b], s' as [b']. intros [_ Hb] [_ Hb'] H. cbn in *. f_equal.
  apply Z.bits_inj'. intros i Hi. destruct (Action_IsValid i) eqn:E; [by apply H|].
  destruct (Z.testbit b i) eqn:Eb; [apply Hb in Eb; [congruence|done]|].
  destruct (Z.testbit b' i) eqn:Eb'; [apply Hb' in Eb'; [congruence|done]|done].
Qed.

(** An entry exists exactly when some action is allowed. *)
Lemma wf_entry_allows al j :
  Allowlist_wf al -> is_Some (al !! j) <-> exists a, Allows al j a = true.
Proof.
  intros Hwf. split.
  - intros [s L]. pose proof (Hwf _ _ L) as [[[Hb _] Hv] He].
    unfold actionSet_empty in He. bprop.
    exists (Z.log2 (bits s)). rewrite Allows_testbit, L. cbn.
    rewrite Z.bit_log2, andb_true_r by lia. apply Hv; [apply Z.log2_nonneg|].
    apply Z.bit_log2. lia.
  - intros [a Ha]. unfold Allows in Ha. destruct (negb _); [done|].
    destruct (al !! j); [eauto|done].
Qed.

(** The representation is canonical: equivalent well-formed allowlists are
    the same map, so [Size] and [Entries] are functions of the policy. *)
Lemma al_equiv_eq al al' :
  Allowlist_wf al -> Allowlist_wf al' -> al_equiv al al' -> al = al'.
Proof.
  intros Hwf Hwf' H. apply map_eq. intros j.
  pose proof (wf_entry_allows al j Hwf) as E1. pose proof (wf_entry_allows al' j Hwf') as E2.
  destruct (al !! j) as [s|] eqn:L, (al' !! j) as [s'|] eqn:L'; try done.
  - f_equal. apply wf_bits_eq; [by apply Hwf in L as []|by apply Hwf' in L' as []|].
    intros a Ha. specialize (H j a). by rewrite !Allows_testbit, L, L', Ha in H.
  - destruct (proj1 E1) as [a Ha]; [eauto|]. rewrite H in Ha.
    destruct (proj2 E2) as [? [=]]. eauto.
  - destruct (proj1 E2) as [a Ha]; [eauto|]. rewrite <- H in Ha.
    destruct (proj2 E1) as [? [=]]. eauto.
Qed.

(** ** Names and tables *)

Lemma ParseAction_String a : Action_IsValid a = true -> ParseAction (Action_String a) = Ok a.
Proof.
  intros Ha%Action_IsValid_range%valid_enum.
  assert (F : forallb (fun a => bool_decide (ParseAction (Action_String a) = Ok a)) AllActions
    = true) by (vm_compute; reflexivity).
  rewrite forallb_forall in F. apply list_elem_of_In, F in Ha.
  by apply bool_decide_eq_true in Ha.
Qed.

(** FR-051 is nested in FR-050: what the plugin boundary refuses is also
    gated by the allowlist. *)
Lemma plugin_refused_gated m :
  IsPluginBoundaryRefused m = true -> exists a, ActionForMethod m = Some a /\ Action_IsValid a = true.
Proof.
  unfold IsPluginBoundaryRefused. rewrite existsb_exists. intros (x & Hx & ->%String.eqb_eq).
  repeat (destruct Hx as [<-|Hx]; [by eexists|]). done.
Qed.

(** ** The audit line cannot be forged *)

Definition hex_val (c : ascii) : option Z :=
  if is_digit c then Some (bz c - 48)
  else if in_range 97 102 (bz c) then Some (bz c - 87) else None.

(** The reader of the JSON string grammar [writeJSONString] writes: the
    contents up to the closing quote, and the rest of the line. *)
Fixpoint json_chars (s : string) : option (string * string) :=
  let cons c (o : option (string * string)) :=
    match o with Some (t, r) => Some (String c t, r) | None => None end in
  match s with
  | EmptyString => None
  | String c r =>
    if Ascii.eqb c quote_byte then Some (EmptyString, r)
    else if Ascii.eqb c "\" then
      match r with
      | String e r' =>
        if Ascii.eqb e quote_byte || Ascii.eqb e "\" then cons e (json_chars r')
        else if Ascii.eqb e "n" then cons (chr 10) (json_chars r')
        else if Ascii.eqb e "r" then cons (chr 13) (json_chars r')
        else if Ascii.eqb e "t" then cons (chr 9) (json_chars r')
        else if Ascii.eqb e "u" then
          match r' with
          | String "0" (String "0" (String h (String l r''))) =>
            match hex_val h, hex_val l with
            | Some h, Some l => cons (chr (16 * h + l)) (json_chars r'')
            | _, _ => None
            end
          | _ => None
          end
        else None
      | EmptyString => None
      end
    else if bz c <? 32 then None else cons c (json_chars r)
  end.

Lemma json_chars_escape c s :
  json_chars (json_escape c +:+ s)
  = match json_chars s with Some (t, r) => Some (String c t, r) | None => None end.
Proof. destruct c as [[] [] [] [] [] [] [] []]; reflexivity. Qed.

Lemma json_chars_write s r :
  json_chars (str_flat_map json_escape s +:+ String quote_byte r) = Some (s, r).
Proof.
  induction s as [|c s IH]; [done|]. cbn [str_flat_map].
  by rewrite <- str_app_assoc, json_chars_escape, IH.
Qed.

Lemma writeJSONString_cancel s1 s2 r1 r2 :
  writeJSONString s1 +:+ r1 = writeJSONString s2 +:+ r2 -> s1 = s2 /\ r1 = r2.
Proof.
  unfold writeJSONString. cbn. rewrite <- !str_app_assoc. cbn. intros [= H].
  apply (f_equal json_chars) in H. rewrite !json_chars_write in H. by injection H.
Qed.

Lemma json_escape_no_control c : str_existsb (fun b => bz b <? 32) (json_escape c) = false.
Proof. destruct c as [[] [] [] [] [] [] [] []]; reflexivity. Qed.

Lemma writeJSONString_no_control s :
  str_existsb (fun b => bz b <? 32) (writeJSONString s) = false.
Proof.
  unfold writeJSONString. cbn. rewrite str_existsb_app. cbn. rewrite orb_false_r.
  induction s as [|c s IH]; [done|]. cbn. by rewrite str_existsb_app, json_escape_no_control.
Qed.

(** Log integrity: whatever bytes an actor, a decision detail or a source
    carries (quotes, newlines, control bytes), the rendered audit line has no
    raw control byte, so it stays one line, and the line determines every
    field of the record: no field can forge another one. *)
Theorem audit_line_injective (e1 e2 : AuditEvent) :
  str_existsb (fun b => bz b <? 32) (AuditEvent_String e1) = false
  /\ (AuditEvent_String e1 = AuditEvent_String e2 ->
      ae_ID e1 = ae_ID e2
      /\ format_rfc3339nano (ae_TS e1) = format_rfc3339nano (ae_TS e2)
      /\ ae_Actor e1 = ae_Actor e2
      /\ AuditAction_String (ae_Action e1) = AuditAction_String (ae_Action e2)
      /\ JID_String (ae_Subject e1) = JID_String (ae_Subject e2)
      /\ ae_Decision e1 = ae_Decision e2
      /\ ae_Detail e1 = ae_Detail e2
      /\ ae_Source e1 = ae_Source e2).
Proof.
  split.
  - unfold AuditEvent_String.
    destruct (str_empty (ae_Source e1));
      rewrite !str_existsb_app, !writeJSONString_no_control; reflexivity.
  - unfold AuditEvent_String, utc. intros H.
    apply append_inj_l, append_inj_l, writeJSONString_cancel in H as [Hid H].
    do 6 (apply append_inj_l, append_inj_l, writeJSONString_cancel in H as [? H]).
    repeat split; try assumption.
    destruct (str_empty (ae_Source e1)) eqn:E1, (str_empty (ae_Source e2)) eqn:E2; try done.
    + apply str_empty_true in E1, E2. congruence.
    + rewrite <- !str_app_assoc in H.
      by apply append_inj_l, append_inj_l, writeJSONString_cancel in H as [? _].
Qed.
