(* ===== verification/Limiter.v ===== *)
(** * Rate limiting and the safety pipeline

    [internal/app/ratelimiter.go], [safety.go].  The token bucket itself is
    [golang.org/x/time/rate], a package outside the repository: it enters
    through the class [RateBucket], whose law is the package's documented
    guarantee (at most [burst] events plus [rate] per second over any
    interval); [tokens] is an instance that meets it.  Rates and multipliers
    are in eighths and quarters, in which every float64 the code computes is
    exact. *)
From S2P Require Import Prelude GoStd Errors Jid Policy.

#[local] Open Scope Z_scope.

(** ** The third-party bucket *)

(** [rate.Limiter]: [rb_new rate8 burst] allows [rate8 / 8] tokens a second;
    [rb_allow now] takes a token if there is one. *)
Class RateBucket (B : Type) := {
  rb_new : Z -> Z -> B;
  rb_allow : time -> B -> bool * B;
}.

(** The answers of a bucket asked at the given times. *)
Fixpoint rb_run {B} `{RateBucket B} (b : B) (ts : list time) : list bool :=
  match ts with
  | [] => []
  | t :: ts => let '(ok, b) := rb_allow t b in ok :: rb_run b ts
  end.

Definition count_true (l : list bool) : Z := Z.of_nat (length (List.filter id l)).

(** The bucket once it was asked at the given times. *)
Definition rb_after {B} `{RateBucket B} (b : B) (ts : list time) : B := foldl (fun b t => (rb_allow t b).2) b ts.

(** The documented bound, over any interval [t0, t1] of the bucket's life:
    [past] are the calls before it, [ts] those inside. *)
Class RateBucketLaw (B : Type) `{RateBucket B} := {
  rb_bound : forall rate8 burst past ts t0 t1,
    0 < rate8 -> 0 <= burst -> t0 <= t1 -> StronglySorted Z.le (past ++ ts) ->
    Forall (fun t => t0 <= t <= t1) ts ->
    8 * second * count_true (rb_run (rb_after (rb_new rate8 burst) past) ts)
      <= 8 * second * burst + rate8 * (t1 - t0)
}.

(** ** The limiter *)

Definition defaultPerSecondRate8 : Z := 16.   (* 2.0 tokens/s *)
Definition defaultPerSecondBurst : Z := 2.
Definition defaultPerMinuteRate8 : Z := 4.    (* 30.0/60.0 tokens/s *)
Definition defaultPerMinuteBurst : Z := 30.

Definition hour : Z := 3600 * second.

(** [t.Sub(u)]: saturates to the range of [time.Duration]. *)
Definition time_sub (t u : time) : Z :=
  Z.max (- 2 ^ 63) (Z.min (2 ^ 63 - 1) (t - u)).

(** The multiplier in quarters: 0.25, 0.50, 1.0. *)
Definition warmupMultiplier (created now : time) : Z :=
  let age := time_sub now created in
  if age <? 7 * 24 * hour then 1
  else if age <? 14 * 24 * hour then 2
  else 4.

(** [max(1, int(float64(defaultBurst) * multiplier))]; [int] truncates. *)
Definition scaledBurst (defaultBurst multiplier : Z) : Z :=
  Z.max (Z.quot (defaultBurst * multiplier) 4) 1.

Record RateLimiter (B : Type) := mkRateLimiter {
  perSecond : B; perMinute : B; warmup : Z }.
Arguments mkRateLimiter {B} _ _ _.
Arguments perSecond {B} _.
Arguments perMinute {B} _.
Arguments warmup {B} _.

Section Limiter.
  Context {B : Type} `{RateBucket B}.

Definition newRateLimiterWithMultiplier (m : Z) : RateLimiter B :=
  mkRateLimiter
    (rb_new (defaultPerSecondRate8 * m / 4) (scaledBurst defaultPerSecondBurst m))
    (rb_new (defaultPerMinuteRate8 * m / 4) (scaledBurst defaultPerMinuteBurst m))
    m.

Definition NewRateLimiterAt (sessionCreated now : time) : RateLimiter B :=
  newRateLimiterWithMultiplier (warmupMultiplier sessionCreated now).

Definition denyError (r : RateLimiter B) : goerr :=
  if warmup r <? 4 then ERpc app.ErrWarmupActive else ERpc app.ErrRateLimited.

(** [Allow] at time [now]: the verdict and the limiter afterwards; a token
    the first bucket gave is not returned when the second one refuses. *)
Definition Allow (now : time) (r : RateLimiter B) : check goerr * RateLimiter B :=
  let '(ok1, ps) := rb_allow now (perSecond r) in
  let r1 := mkRateLimiter ps (perMinute r) (warmup r) in
  if negb ok1 then (Err (denyError r1), r1)
  else
    let '(ok2, pm) := rb_allow now (perMinute r1) in
    let r2 := mkRateLimiter ps pm (warmup r) in
    if negb ok2 then (Err (denyError r2), r2) else (Ok tt, r2).

(** ** The safety pipeline *)

(** The [Allowlist] port of package [app]. *)
Class AllowlistPort (A : Type) := al_allows : A -> JID -> Z -> bool.

Context {A : Type} `{AllowlistPort A}.

Record SafetyPipeline := mkSafety { sp_allowlist : A; sp_limiter : RateLimiter B }.

(** [Check]: the allowlist first; a refusal consumes no token. *)
Definition Check_ (now : time) (s : SafetyPipeline) (j : JID) (action : Z)
    : check goerr * SafetyPipeline :=
  if negb (al_allows (sp_allowlist s) j action)
  then (Err (ERpc app.ErrNotAllowlisted), s)
  else let '(r, l) := Allow now (sp_limiter s) in (r, mkSafety (sp_allowlist s) l).

End Limiter.
Arguments SafetyPipeline : clear implicits.

#[global] Instance Allowlist_port : AllowlistPort Allowlist := Allows.

(** ** A concrete bucket: tokens in units of 1/(8e9) *)

Record tokens := mkTokens { tk_rate : Z; tk_cap : Z; tk_level : Z; tk_last : option time }.

#[global] Instance tokens_bucket : RateBucket tokens := {
  rb_new r b := mkTokens r (8 * second * b) (8 * second * b) None;
  rb_allow now b :=
    let lvl := match tk_last b with
               | None => tk_level b
               | Some l => Z.min (tk_cap b) (tk_level b + tk_rate b * (now - l))
               end in
    if 8 * second <=? lvl
    then (true, mkTokens (tk_rate b) (tk_cap b) (lvl - 8 * second) (Some now))
    else (false, mkTokens (tk_rate b) (tk_cap b) lvl (Some now))
}.

Lemma count_true_cons b l : count_true (b :: l) = (if b then 1 else 0) + count_true l.
Proof. unfold count_true. cbn. destruct b; cbn [length id]; lia. Qed.

Lemma sorted_tail_range ts t t1 :
  StronglySorted Z.le (t :: ts) -> Forall (fun u => u <= t1) ts ->
  StronglySorted Z.le ts /\ Forall (fun u => t <= u <= t1) ts.
Proof.
  intros [Hs Hle]%StronglySorted_inv Hf. split; [done|].
  rewrite Forall_forall in Hle, Hf |- *. intros u Hu.
  specialize (Hle u Hu). specialize (Hf u Hu). lia.
Qed.

Lemma tokens_run_bound r cap lvl ts l t1 :
  0 < r -> 0 <= cap -> 0 <= lvl -> StronglySorted Z.le ts ->
  Forall (fun t => l <= t <= t1) ts -> l <= t1 ->
  8 * second * count_true (rb_run (mkTokens r cap lvl (Some l)) ts) <= lvl + r * (t1 - l).
Proof.
  revert lvl l. induction ts as [|t ts IH]; intros lvl l Hr Hc Hl Hs Hf Ht.
  - unfold count_true. cbn. nia.
  - apply Forall_cons in Hf as [Ht1 Hf].
    assert (Hf1 : Forall (fun u => u <= t1) ts) by (eapply Forall_impl; [exact Hf|]; cbn; lia).
    destruct (sorted_tail_range ts t t1 Hs Hf1) as [Hs' Hf'].
    cbn [rb_run rb_allow tokens_bucket tk_last tk_cap tk_level tk_rate].
    assert (Hm : 0 <= Z.min cap (lvl + r * (t - l)) <= lvl + r * (t - l)) by nia.
    destruct (Z.leb_spec (8 * second) (Z.min cap (lvl + r * (t - l)))) as [Hle|Hle];
      rewrite count_true_cons; unfold second in *.
    + specialize (IH (Z.min cap (lvl + r * (t - l)) - 8 * 1000000000) t
        Hr Hc ltac:(lia) Hs' Hf' ltac:(lia)). nia.
    + specialize (IH (Z.min cap (lvl + r * (t - l))) t Hr Hc ltac:(lia) Hs' Hf' ltac:(lia)). nia.
Qed.

(** What holds of a bucket asked so far at times up to [u]. *)
Definition tokens_ok (r cap u : Z) (b : tokens) : Prop :=
  tk_rate b = r /\ tk_cap b = cap /\ 0 <= tk_level b <= cap /\ match tk_last b with Some l => l <= u | None => True end.

Lemma tokens_ok_allow r cap u t b : 0 < r -> u <= t -> tokens_ok r cap u b ->
  tokens_ok r cap t (rb_allow t b).2 /\ tk_last (rb_allow t b).2 = Some t
  /\ (if (rb_allow t b).1 then 8 * second else 0) + tk_level (rb_allow t b).2 <= cap.
Proof.
  intros Hr Hu (Er & Ec & Hl & Hlast). unfold tokens_ok. cbn [rb_allow tokens_bucket].
  set (lvl := match tk_last b with None => _ | Some l => _ end).
  assert (Hlvl : 0 <= lvl <= cap) by (unfold lvl; destruct (tk_last b); rewrite ?Er, ?Ec; nia).
  destruct (Z.leb_spec (8 * second) lvl); cbn; unfold second in *; repeat split; try done; lia.
Qed.

Lemma tokens_ok_after r cap past : 0 < r -> forall u b, tokens_ok r cap u b ->
  StronglySorted Z.le past -> Forall (fun t => u <= t) past ->
  exists v, tokens_ok r cap v (rb_after b past) /\ (v = u \/ v ∈ past).
Proof.
  intros Hr. induction past as [|t past IH]; intros u b Hb Hs Hf; [exists u; auto|].
  apply StronglySorted_inv in Hs as [Hs Ht]. apply Forall_cons in Hf as [Hu _].
  destruct (tokens_ok_allow r cap u t b Hr Hu Hb) as [Hb' _].
  destruct (IH t _ Hb' Hs Ht) as (v & Hv & Hin). exists v. split; [exact Hv|]. right.
  destruct Hin as [->|Hin]; [left|by right].
Qed.

(** The calls of an interval, from a bucket with a past. *)
Lemma tokens_interval r cap u b ts t0 t1 : 0 < r -> 0 <= cap -> t0 <= t1 -> tokens_ok r cap u b ->
  StronglySorted Z.le ts -> Forall (fun t => u <= t) ts -> Forall (fun t => t0 <= t <= t1) ts ->
  8 * second * count_true (rb_run b ts) <= cap + r * (t1 - t0).
Proof.
  intros Hr Hc Ht Hb Hs Hu Hf. destruct ts as [|t ts]; [unfold count_true; cbn; nia|].
  apply Forall_cons in Hf as [Ht1 Hf]. apply Forall_cons in Hu as [Hu _].
  assert (Hf1 : Forall (fun u => u <= t1) ts) by (eapply Forall_impl; [exact Hf|]; cbn; lia).
  destruct (sorted_tail_range ts t t1 Hs Hf1) as [Hs' Hf'].
  destruct (tokens_ok_allow r cap u t b Hr Hu Hb) as ((Er & Ec & Hl & _) & Hlast & Hle).
  cbn [rb_run]. destruct (rb_allow t b) as [ok b'] eqn:E. cbn [fst snd] in *. rewrite count_true_cons.
  destruct b' as [r' c' lvl' last']. cbn in Er, Ec, Hl, Hlast, Hle. subst r' c' last'.
  pose proof (tokens_run_bound r cap lvl' ts t t1 Hr Hc ltac:(lia) Hs' Hf' ltac:(lia)).
  unfold second in *. destruct ok; nia.
Qed.

#[global] Instance tokens_law : RateBucketLaw tokens.
Proof.
  constructor. intros r b past ts t0 t1 Hr Hb Ht (Hpt & Hp & Hs)%StronglySorted_app Hf.
  set (u := match past with [] => match ts with [] => 0 | t :: _ => t end | t :: _ => t end).
  assert (H0 : tokens_ok r (8 * second * b) u (rb_new r b)) by (unfold tokens_ok; cbn [rb_new tokens_bucket tk_rate tk_cap tk_level tk_last]; repeat split; unfold second; lia).
  assert (Hpu : Forall (fun t => u <= t) past).
  { destruct past as [|p past]; [constructor|]. apply StronglySorted_inv in Hp as [_ Hp]. by constructor. }
  destruct (tokens_ok_after r _ past Hr u _ H0 Hp Hpu) as (v & Hv & Hin).
  apply (tokens_interval r (8 * second * b) v _ ts t0 t1); auto; [unfold second; lia|].
  destruct Hin as [->|Hin].
  - unfold u. destruct past as [|p past].
    + destruct ts as [|t ts]; [constructor|]. apply StronglySorted_inv in Hs as [_ Hs]. by constructor.
    + apply Forall_forall. intros t Hin. apply Hpt; [left|done].
  - apply Forall_forall. intros t Hin'. by apply Hpt.
Qed.

(** ** What the limiter guarantees *)

Lemma warmupMultiplier_cases created now :
  warmupMultiplier created now = 1 \/ warmupMultiplier created now = 2
  \/ warmupMultiplier created now = 4.
Proof. unfold warmupMultiplier. cbn zeta. repeat (destruct (_ <? _)); auto. Qed.

(** The bursts of the three stages; never zero, so no limiter denies for ever. *)
Lemma scaledBurst_pos b m : 1 <= scaledBurst b m.
Proof. unfold scaledBurst. lia. Qed.

Section Guarantees.
  Context {B : Type} `{RateBucketLaw B}.

(** The verdicts of a limiter asked at the given times. *)
Fixpoint allow_run (r : RateLimiter B) (ts : list time) : list (check goerr) :=
  match ts with
  | [] => []
  | t :: ts => let '(v, r') := Allow t r in v :: allow_run r' ts
  end.

Definition count_ok (l : list (check goerr)) : Z :=
  Z.of_nat (length (List.filter is_ok l)).

Lemma count_ok_cons v l : count_ok (v :: l) = (if is_ok v then 1 else 0) + count_ok l.
Proof. unfold count_ok. cbn. destruct (is_ok v); cbn [length]; lia. Qed.

(** The limiter once it was asked at the given times. *)
Definition allow_after (r : RateLimiter B) (ts : list time) : RateLimiter B := foldl (fun r t => (Allow t r).2) r ts.

(** The granted calls are granted by each bucket; the second bucket is asked
    only at the times the first one let through. *)
Lemma allow_run_buckets r ts :
  count_ok (allow_run r ts) <= count_true (rb_run (perSecond r) ts)
  /\ exists ts', sublist ts' ts /\
       count_ok (allow_run r ts) <= count_true (rb_run (perMinute r) ts').
Proof.
  revert r. induction ts as [|t ts IH]; intros r; cbn [allow_run rb_run].
  - split; [done|]. exists []. done.
  - unfold Allow. destruct (rb_allow t (perSecond r)) as [ok1 ps] eqn:E1. cbn [perMinute].
    destruct ok1; cbn [negb].
    + destruct (rb_allow t (perMinute r)) as [ok2 pm] eqn:E2.
      destruct (IH (mkRateLimiter ps pm (warmup r))) as [IH1 (ts' & Hsub & IH2)].
      cbn in IH1, IH2.
      destruct ok2; cbn [negb]; rewrite count_ok_cons; cbn [is_ok]; rewrite count_true_cons.
      all: split; [lia|]; exists (t :: ts'); split; [by constructor|];
        cbn [rb_run]; rewrite E2, count_true_cons; lia.
    + destruct (IH (mkRateLimiter ps (perMinute r) (warmup r))) as [IH1 (ts' & Hsub & IH2)].
      cbn in IH1, IH2. rewrite count_ok_cons, count_true_cons. cbn [is_ok].
      split; [lia|]. exists ts'. split; [by constructor|lia].
Qed.

Lemma allow_after_buckets past r :
  perSecond (allow_after r past) = rb_after (perSecond r) past
  /\ exists past', sublist past' past /\ perMinute (allow_after r past) = rb_after (perMinute r) past'.
Proof.
  revert r. induction past as [|t past IH]; intros r; [split; [done|]; by exists []|].
  cbn [allow_after foldl rb_after]. unfold Allow at 2 4. destruct (rb_allow t (perSecond r)) as [[] ps] eqn:E1; cbn [negb perMinute].
  - destruct (rb_allow t (perMinute r)) as [ok2 pm] eqn:E2.
    destruct (IH (mkRateLimiter ps pm (warmup r))) as [IH1 (past' & Hsub & IH2)]. cbn in IH1, IH2.
    split; [by destruct ok2|]. exists (t :: past'). split; [by constructor|]. cbn. rewrite E2. by destruct ok2.
  - destruct (IH (mkRateLimiter ps (perMinute r) (warmup r))) as [IH1 (past' & Hsub & IH2)]. cbn in IH1, IH2.
    split; [done|]. exists past'. split; [by constructor|done].
Qed.

Lemma sorted_sublist (l k : list time) :
  sublist l k -> StronglySorted Z.le k -> StronglySorted Z.le l.
Proof.
  induction 1 as [|x l k Hs IH|x l k Hs IH]; intros Hk; [done| |].
  - apply StronglySorted_inv in Hk as [Hk Hx]. constructor; [by apply IH|].
    rewrite Forall_forall in Hx |- *. intros y Hy. apply Hx.
    eapply elem_of_submseteq; [exact Hy|by apply sublist_submseteq].
  - apply StronglySorted_inv in Hk as [Hk _]. by apply IH.
Qed.

(** C7. The anti-ban budget: whatever was asked of the limiter before, in any
    window [t0, t1] of its life the sends it lets through are at most the
    burst plus the accrual of BOTH buckets over the window, at the quarter,
    half or full rate of the session's age when the limiter was made.  The
    clock does not run backwards. *)
Theorem limiter_budget (created now t0 t1 : time) (past ts : list time) :
  t0 <= t1 -> StronglySorted Z.le (past ++ ts) -> Forall (fun t => t0 <= t <= t1) ts ->
  let m := warmupMultiplier created now in
  let n := count_ok (allow_run (allow_after (NewRateLimiterAt created now) past) ts) in
  8 * second * n <= 8 * second * scaledBurst 2 m + 4 * m * (t1 - t0)
  /\ 8 * second * n <= 8 * second * scaledBurst 30 m + m * (t1 - t0).
Proof.
  intros Ht Hs Hf m n.
  assert (Hm : m = 1 \/ m = 2 \/ m = 4) by apply warmupMultiplier_cases.
  destruct (allow_run_buckets (allow_after (NewRateLimiterAt created now) past) ts) as [H1 (ts' & Hsub & H2)].
  destruct (allow_after_buckets past (NewRateLimiterAt created now)) as [E1 (past' & Hpsub & E2)].
  rewrite E1 in H1. rewrite E2 in H2.
  fold n in H1, H2. unfold NewRateLimiterAt, newRateLimiterWithMultiplier in H1, H2.
  cbn [perSecond perMinute] in H1, H2. fold m in H1, H2.
  pose proof (scaledBurst_pos 2 m). pose proof (scaledBurst_pos 30 m).
  assert (Hr1 : defaultPerSecondRate8 * m / 4 = 4 * m) by (unfold defaultPerSecondRate8; destruct_or! Hm; by rewrite Hm).
  assert (Hr2 : defaultPerMinuteRate8 * m / 4 = m) by (unfold defaultPerMinuteRate8; destruct_or! Hm; by rewrite Hm).
  rewrite Hr1 in H1. rewrite Hr2 in H2.
  unfold defaultPerSecondBurst, defaultPerMinuteBurst in *.
  pose proof (rb_bound (4 * m) (scaledBurst 2 m) past ts t0 t1 ltac:(lia) ltac:(lia) Ht Hs Hf) as B1.
  assert (Hf' : Forall (fun t => t0 <= t <= t1) ts').
  { rewrite Forall_forall in Hf |- *. intros y Hy. apply Hf.
    eapply elem_of_submseteq; [exact Hy|by apply sublist_submseteq]. }
  pose proof (rb_bound m (scaledBurst 30 m) past' ts' t0 t1 ltac:(lia) ltac:(lia) Ht
    (sorted_sublist _ _ (sublist_app _ _ _ _ Hpsub Hsub) Hs) Hf') as B2.
  unfold second in *. split; nia.
Qed.

End Guarantees.

(** One request a second for three seconds on a fresh session: one token; and
    ten seconds later, with that past, no more than one. *)
Lemma limiter_budget_witness :
  8 * second * count_ok (allow_run (B:=tokens) (allow_after (NewRateLimiterAt 0 0) [0; second; 2 * second]) [12 * second; 13 * second])
    <= 8 * second * scaledBurst 2 1 + 4 * 1 * (13 * second - 12 * second).
Proof.
  assert (Hm : warmupMultiplier 0 0 = 1) by reflexivity. rewrite <- Hm.
  refine (proj1 (limiter_budget (B:=tokens) 0 0 (12 * second) (13 * second) [0; second; 2 * second] [12 * second; 13 * second] _ _ _)).
  - vm_compute. discriminate.
  - repeat constructor; vm_compute; discriminate.
  - repeat constructor; vm_compute; discriminate.
Defined.

(** ** What the pipeline guarantees *)

Lemma Check_spec {A B : Type} `{AllowlistPort A, RateBucket B}
    (now : time) (s s' : SafetyPipeline B A) (j : JID) (action : Z) (r : check goerr) :
  Check_ now s j action = (r, s') ->
  (r = Err (ERpc app.ErrNotAllowlisted) <-> al_allows (sp_allowlist s) j action = false)
  /\ (r = Err (ERpc app.ErrNotAllowlisted) -> s' = s)
  /\ sp_allowlist s' = sp_allowlist s
  /\ (r = Ok tt \/ r = Err (ERpc app.ErrNotAllowlisted)
      \/ r = Err (ERpc (if warmup (sp_limiter s) <? 4 then app.ErrWarmupActive
                        else app.ErrRateLimited))).
Proof.
  unfold Check_. destruct (al_allows (sp_allowlist s) j action) eqn:E; cbn [negb].
  2: { intros [= <- <-]. repeat split; auto. }
  unfold Allow, denyError. destruct (rb_allow now (perSecond (sp_limiter s))) as [[] ps].
  - cbn. destruct (rb_allow now (perMinute (sp_limiter s))) as [[] pm]; intros [= <- <-].
    + repeat split; auto; discriminate.
    + cbn. destruct (warmup (sp_limiter s) <? 4); repeat split; auto; discriminate.
  - intros [= <- <-]. cbn. destruct (warmup (sp_limiter s) <? 4); repeat split; auto; discriminate.
Qed.

(** Allowlist before limiter: a JID without the permission is refused
    with ErrNotAllowlisted and costs no token (the pipeline is unchanged); an
    accepted check means the permission exists; the other refusals are the
    limiter's, ErrWarmupActive exactly while the session is in warmup. *)
Theorem safety_check_spec {A B : Type} `{AllowlistPort A, RateBucket B}
    (now : time) (s s' : SafetyPipeline B A) (j : JID) (action : Z) (r : check goerr) :
  Check_ now s j action = (r, s') ->
  (r = Err (ERpc app.ErrNotAllowlisted) <-> al_allows (sp_allowlist s) j action = false)
  /\ (r = Err (ERpc app.ErrNotAllowlisted) -> s' = s)
  /\ sp_allowlist s' = sp_allowlist s
  /\ (r = Ok tt \/ r = Err (ERpc app.ErrNotAllowlisted)
      \/ r = Err (ERpc (if warmup (sp_limiter s) <? 4 then app.ErrWarmupActive
                        else app.ErrRateLimited))).
Proof. apply Check_spec. Qed.

Lemma safety_check_spec_witness :
  exists s', Check_ 0 (mkSafety NewAllowlist (NewRateLimiterAt 0 0)) zeroJID ActionSend
               = (Err (ERpc app.ErrNotAllowlisted), s')
             /\ s' = mkSafety NewAllowlist (NewRateLimiterAt 0 0).
Proof.
  eexists. split; [reflexivity|].
  refine (proj1 (proj2 (safety_check_spec 0 (mkSafety NewAllowlist (NewRateLimiterAt 0 0)) _ zeroJID
    ActionSend (Err (ERpc app.ErrNotAllowlisted)) eq_refl)) _).
  reflexivity.
Defined.
