(* ===== verification/Message.v ===== *)
(** * Outbound and inbound messages ([internal/domain/message.go])

    The sealed [Message] interface is an inductive with one constructor per
    variant, each carrying the variant's struct as a record; the interface's
    methods are functions by cases.  [slog] attributes are key/value pairs. *)
From S2P Require Import Prelude GoStd Errors Jid.

#[local] Open Scope Z_scope.
#[local] Open Scope string_scope.

Definition previewLen : Z := 32.
(** U+2026. *)
Definition ellipsis : string := encode_rune 8230.

Definition preview (body : string) : string :=
  if (len body <=? previewLen)%Z then body
  else str_take (Z.to_nat previewLen) body +:+ ellipsis.

Definition MaxTextBytes : Z := 64 * 1024.
Definition MaxMediaBytes : Z := 16 * 1024 * 1024.
Definition MaxAudioSeconds : Z := 24 * 60 * 60.

Record Content := mkContent { c_Text : string; c_Mime : string }.

Record TextMessage := mkText {
  tm_Recipient : JID; tm_Body : string; tm_LinkPreview : bool; tm_Mentions : list JID }.
Record MediaMessage := mkMedia {
  mm_Recipient : JID; mm_Path : string; mm_Mime : string; mm_Caption : string;
  mm_Filename : string; mm_Bytes : string; mm_SHA256 : string; mm_PTT : bool;
  mm_Seconds : Z }.
Record AudioMessage := mkAudio {
  am_Recipient : JID; am_Path : string; am_Mime : string; am_Seconds : Z; am_PTT : bool }.
Record VideoMessage := mkVideo {
  vm_Recipient : JID; vm_Path : string; vm_Mime : string; vm_Caption : string;
  vm_Seconds : Z; vm_IsGif : bool }.
Record DocumentMessage := mkDocument {
  dm_Recipient : JID; dm_Path : string; dm_Mime : string; dm_Filename : string;
  dm_Caption : string }.
Record StickerMessage := mkSticker {
  sm_Recipient : JID; sm_Path : string; sm_Mime : string; sm_IsAnimated : bool }.
Record ContactCard := mkContactCard {
  cc_Recipient : JID; cc_DisplayName : string; cc_VCard : string }.
Record LocationPin := mkLocation {
  lp_Recipient : JID; lp_Latitude : float64; lp_Longitude : float64; lp_Name : string;
  lp_Address : string }.
Record UnknownMessage := mkUnknown { um_Recipient : JID; um_Detail : string }.
Record ReactionMessage := mkReaction {
  rm_Recipient : JID; rm_TargetID : string; rm_Emoji : string }.
Record ListReplyMessage := mkListReply {
  lr_Recipient : JID; lr_RowID : string; lr_Title : string; lr_ContextStanzaID : string;
  lr_ContextSender : JID; lr_ContextQuotedRaw : string }.
(** [ButtonReplyKind]: 0 is buttons, 1 is template. *)
Definition ButtonReplyButtons : Z := 0.
Definition ButtonReplyTemplate : Z := 1.
Record ButtonReplyMessage := mkButtonReply {
  br_Recipient : JID; br_ButtonID : string; br_DisplayText : string; br_Kind : Z;
  br_ContextStanzaID : string; br_ContextSender : JID; br_ContextQuotedRaw : string }.

Inductive Message :=
| MText (m : TextMessage)
| MMedia (m : MediaMessage)
| MAudio (m : AudioMessage)
| MVideo (m : VideoMessage)
| MDocument (m : DocumentMessage)
| MSticker (m : StickerMessage)
| MContact (m : ContactCard)
| MLocation (m : LocationPin)
| MUnknown (m : UnknownMessage)
| MReaction (m : ReactionMessage)
| MListReply (m : ListReplyMessage)
| MButtonReply (m : ButtonReplyMessage).

Definition Variant (m : Message) : string :=
  match m with
  | MText _ => "text"
  | MMedia _ => "media"
  | MAudio _ => "audio"
  | MVideo _ => "video"
  | MDocument _ => "document"
  | MSticker _ => "sticker"
  | MContact _ => "contact"
  | MLocation _ => "location"
  | MUnknown _ => "unknown"
  | MReaction _ => "reaction"
  | MListReply _ => "list_reply"
  | MButtonReply _ => "button_reply"
  end.

Definition To (m : Message) : JID :=
  match m with
  | MText m => tm_Recipient m
  | MMedia m => mm_Recipient m
  | MAudio m => am_Recipient m
  | MVideo m => vm_Recipient m
  | MDocument m => dm_Recipient m
  | MSticker m => sm_Recipient m
  | MContact m => cc_Recipient m
  | MLocation m => lp_Recipient m
  | MUnknown m => um_Recipient m
  | MReaction m => rm_Recipient m
  | MListReply m => lr_Recipient m
  | MButtonReply m => br_Recipient m
  end.

(** ** Mentions *)

(** [isASCIIAlnum]. *)
Definition isASCIIAlnum (b : ascii) : bool := is_digit b || is_lower b || is_upper b.

(** [start == 0 || !isASCIIAlnum(body[start-1])]. *)
Definition leftOK (body : string) (start : nat) : bool :=
  match start with
  | O => true
  | S k => match String.get k body with Some b => negb (isASCIIAlnum b) | None => true end
  end.

(** [end == len(body) || body[end] < '0' || body[end] > '9']. *)
Definition rightOK (body : string) (stop : nat) : bool :=
  match String.get stop body with Some b => negb (is_digit b) | None => true end.

(** One turn of the loop per unit of fuel, [from] growing by at least one. *)
Fixpoint mention_loop (fuel : nat) (body tok : string) (from : nat) : bool :=
  match fuel with
  | O => false
  | S fuel =>
    match str_index tok (str_drop from body) with
    | None => false
    | Some i =>
      let start := (from + i)%nat in
      let stop := (start + String.length tok)%nat in
      if leftOK body start && rightOK body stop then true
      else mention_loop fuel body tok (S start)
    end
  end.

Definition bodyHasMentionToken (body tok : string) : bool :=
  mention_loop (S (String.length body)) body tok 0.

Definition mention_token (j : JID) : string := "@" +:+ User j.

(** The body of the [range m.Mentions] loop. *)
Definition add_mention (body : string) (j : JID) : string :=
  if JID_IsZero j then body
  else
    let tok := mention_token j in
    if bodyHasMentionToken body tok then body
    else (if str_empty body then body else body +:+ " ") +:+ tok.

Definition EffectiveBody (m : TextMessage) : string :=
  foldl add_mention (tm_Body m) (tm_Mentions m).

(** ** Content and validation *)

Definition Message_Content (m : Message) : Content :=
  match m with
  | MText m => mkContent (EffectiveBody m) ""
  | MMedia m => mkContent (mm_Caption m) (mm_Mime m)
  | MAudio m => mkContent "" (am_Mime m)
  | MVideo m => mkContent (vm_Caption m) (vm_Mime m)
  | MDocument m => mkContent (dm_Caption m) (dm_Mime m)
  | MSticker m => mkContent "" (sm_Mime m)
  | MContact m => mkContent (cc_DisplayName m) ""
  | MLocation m => mkContent (lp_Name m) ""
  | MUnknown _ => mkContent "" ""
  | MReaction m => mkContent (rm_Emoji m) ""
  | MListReply m => mkContent (lr_Title m) ""
  | MButtonReply m => mkContent (br_DisplayText m) ""
  end.

Fixpoint validate_mentions (js : list JID) (k : check goerr) : check goerr :=
  match js with
  | [] => k
  | j :: js =>
    fail_if JID_IsZero j with wrapd domain.ErrInvalidJID "TextMessage has a zero mention JID" ;;
    fail_if negb (IsAddressable j)
      with wrapd domain.ErrInvalidJID "TextMessage mention %q is not addressable" ;;
    validate_mentions js k
  end.

Definition Text_Validate (m : TextMessage) : check goerr :=
  fail_if JID_IsZero (tm_Recipient m)
    with wrapd domain.ErrInvalidJID "TextMessage has zero recipient" ;;
  fail_if str_empty (tm_Body m) with wrapd domain.ErrEmptyBody "TextMessage has empty body" ;;
  validate_mentions (tm_Mentions m)
    (fail_if (MaxTextBytes <? len (EffectiveBody m))%Z
       with wrapd domain.ErrMessageTooLarge "TextMessage body %d > %d bytes" ;;
     Ok tt).

Definition AudioValidate (m : MediaMessage) : check goerr :=
  if negb (mm_PTT m) && (mm_Seconds m =? 0)%Z then Ok tt else
  fail_if negb (has_prefix "audio/" (mm_Mime m))
    with wrapd domain.ErrEmptyBody "MediaMessage sets ptt/seconds on mime %q (audio/* required)" ;;
  fail_if (mm_Seconds m <? 0)%Z || (MaxAudioSeconds <? mm_Seconds m)%Z
    with wrapd domain.ErrEmptyBody "MediaMessage seconds %d outside [0,%d]" ;;
  Ok tt.

Definition payload_sources (m : MediaMessage) : Z :=
  (if str_empty (mm_Path m) then 0 else 1)
  + (if (0 <? len (mm_Bytes m))%Z then 1 else 0)
  + (if str_empty (mm_SHA256 m) then 0 else 1).

Definition SourceValidate (m : MediaMessage) : check goerr :=
  fail_if (payload_sources m =? 0)%Z
    with wrapd domain.ErrEmptyBody
      "MediaMessage has no payload source (set exactly one of path, bytes, sha256)" ;;
  fail_if (1 <? payload_sources m)%Z
    with wrapd domain.ErrEmptyBody
      "MediaMessage has %d payload sources (set exactly one of path, bytes, sha256)" ;;
  fail_if (MaxMediaBytes <? len (mm_Bytes m))%Z
    with wrapd domain.ErrMessageTooLarge "MediaMessage inline bytes %d > %d" ;;
  Ok tt.

Definition Media_Validate (m : MediaMessage) : check goerr :=
  fail_if JID_IsZero (mm_Recipient m)
    with wrapd domain.ErrInvalidJID "MediaMessage has zero recipient" ;;
  let* _ := SourceValidate m in
  fail_if str_empty (mm_Mime m) with wrapd domain.ErrEmptyBody "MediaMessage has empty mime" ;;
  AudioValidate m.

(** The shared shape of the path-only variants. *)
Definition validate_path (kind : string) (j : JID) (path : string) : check goerr :=
  fail_if JID_IsZero j with wrapd domain.ErrInvalidJID (kind +:+ " has zero recipient") ;;
  fail_if str_empty path with wrapd domain.ErrEmptyBody (kind +:+ " has empty path") ;;
  Ok tt.

Definition Audio_Validate (m : AudioMessage) : check goerr :=
  validate_path "AudioMessage" (am_Recipient m) (am_Path m).
Definition Video_Validate (m : VideoMessage) : check goerr :=
  validate_path "VideoMessage" (vm_Recipient m) (vm_Path m).
Definition Document_Validate (m : DocumentMessage) : check goerr :=
  validate_path "DocumentMessage" (dm_Recipient m) (dm_Path m).
Definition Sticker_Validate (m : StickerMessage) : check goerr :=
  validate_path "StickerMessage" (sm_Recipient m) (sm_Path m).

Definition Contact_Validate (m : ContactCard) : check goerr :=
  fail_if JID_IsZero (cc_Recipient m)
    with wrapd domain.ErrInvalidJID "ContactCard has zero recipient" ;;
  fail_if str_empty (cc_VCard m) with wrapd domain.ErrEmptyBody "ContactCard has empty vcard" ;;
  Ok tt.

Definition Location_Validate (m : LocationPin) : check goerr :=
  fail_if JID_IsZero (lp_Recipient m)
    with wrapd domain.ErrInvalidJID "LocationPin has zero recipient" ;;
  fail_if f64_ltz (lp_Latitude m) (-90) || f64_gtz (lp_Latitude m) 90
    with wrapd domain.ErrEmptyBody "LocationPin latitude %f out of range" ;;
  fail_if f64_ltz (lp_Longitude m) (-180) || f64_gtz (lp_Longitude m) 180
    with wrapd domain.ErrEmptyBody "LocationPin longitude %f out of range" ;;
  Ok tt.

Definition Unknown_Validate (m : UnknownMessage) : check goerr :=
  fail_if JID_IsZero (um_Recipient m)
    with wrapd domain.ErrInvalidJID "UnknownMessage has zero recipient" ;;
  Ok tt.

Definition Reaction_Validate (m : ReactionMessage) : check goerr :=
  fail_if JID_IsZero (rm_Recipient m)
    with wrapd domain.ErrInvalidJID "ReactionMessage has zero recipient" ;;
  fail_if MessageID_IsZero (rm_TargetID m)
    with wrapd domain.ErrEmptyBody "ReactionMessage has zero target" ;;
  Ok tt.

Definition ListReply_Validate (m : ListReplyMessage) : check goerr :=
  fail_if JID_IsZero (lr_Recipient m)
    with wrapd domain.ErrInvalidJID "ListReplyMessage has zero recipient" ;;
  fail_if str_empty (lr_RowID m)
    with wrapd domain.ErrEmptyBody "ListReplyMessage has empty rowID" ;;
  fail_if str_empty (lr_ContextStanzaID m)
    with wrapd domain.ErrEmptyBody "ListReplyMessage has empty contextStanzaId" ;;
  fail_if JID_IsZero (lr_ContextSender m)
    with wrapd domain.ErrInvalidJID "ListReplyMessage has zero contextSender" ;;
  Ok tt.

Definition ButtonReply_Validate (m : ButtonReplyMessage) : check goerr :=
  fail_if JID_IsZero (br_Recipient m)
    with wrapd domain.ErrInvalidJID "ButtonReplyMessage has zero recipient" ;;
  fail_if str_empty (br_ButtonID m)
    with wrapd domain.ErrEmptyBody "ButtonReplyMessage has empty buttonID" ;;
  fail_if str_empty (br_ContextStanzaID m)
    with wrapd domain.ErrEmptyBody "ButtonReplyMessage has empty contextStanzaId" ;;
  fail_if JID_IsZero (br_ContextSender m)
    with wrapd domain.ErrInvalidJID "ButtonReplyMessage has zero contextSender" ;;
  Ok tt.

Definition Message_Validate (m : Message) : check goerr :=
  match m with
  | MText m => Text_Validate m
  | MMedia m => Media_Validate m
  | MAudio m => Audio_Validate m
  | MVideo m => Video_Validate m
  | MDocument m => Document_Validate m
  | MSticker m => Sticker_Validate m
  | MContact m => Contact_Validate m
  | MLocation m => Location_Validate m
  | MUnknown m => Unknown_Validate m
  | MReaction m => Reaction_Validate m
  | MListReply m => ListReply_Validate m
  | MButtonReply m => ButtonReply_Validate m
  end.

(** ** Logging *)

Inductive attr_value :=
| AString (s : string)
| AInt (z : Z)
| ABool (b : bool)
| AFloat (f : float64)
| AJID (j : JID).
Definition attr : Type := string * attr_value.

Definition logValue (m : Message) (extra : list attr) : list attr :=
  [("type", AString (Variant m)); ("to", AJID (To m))] ++ extra.

Definition media_source (m : MediaMessage) : string :=
  if negb (str_empty (mm_Path m)) then "path"
  else if (0 <? len (mm_Bytes m))%Z then "bytes"
  else if negb (str_empty (mm_SHA256 m)) then "sha256" else "none".

Definition Text_LogValue (t : TextMessage) : list attr :=
  logValue (MText t)
  [("bytes", AInt (len (tm_Body t)));
   ("mentions", AInt (Z.of_nat (length (tm_Mentions t))));
   ("preview", AString (preview (tm_Body t)))].

Definition Media_LogValue (t : MediaMessage) : list attr :=
  logValue (MMedia t)
  [("mime", AString (mm_Mime t)); ("source", AString (media_source t));
   ("bytes", AInt (len (mm_Bytes t))); ("ptt", ABool (mm_PTT t));
   ("preview", AString (preview (mm_Caption t)))].

Definition Audio_LogValue (t : AudioMessage) : list attr :=
  logValue (MAudio t)
  [("seconds", AInt (am_Seconds t)); ("ptt", ABool (am_PTT t))].

Definition Video_LogValue (t : VideoMessage) : list attr :=
  logValue (MVideo t)
  [("seconds", AInt (vm_Seconds t)); ("gif", ABool (vm_IsGif t));
   ("preview", AString (preview (vm_Caption t)))].

Definition Document_LogValue (t : DocumentMessage) : list attr :=
  logValue (MDocument t)
  [("filename", AString (dm_Filename t)); ("mime", AString (dm_Mime t))].

Definition Sticker_LogValue (t : StickerMessage) : list attr :=
  logValue (MSticker t)
  [("animated", ABool (sm_IsAnimated t))].

Definition Contact_LogValue (t : ContactCard) : list attr :=
  logValue (MContact t)
  [("name", AString (cc_DisplayName t))].

Definition Location_LogValue (t : LocationPin) : list attr :=
  logValue (MLocation t)
  [("lat", AFloat (lp_Latitude t)); ("lon", AFloat (lp_Longitude t))].

Definition Unknown_LogValue (t : UnknownMessage) : list attr :=
  logValue (MUnknown t)
  [("detail", AString (um_Detail t))].

Definition Reaction_LogValue (t : ReactionMessage) : list attr :=
  logValue (MReaction t)
  [("emoji", AString (rm_Emoji t))].

Definition ListReply_LogValue (t : ListReplyMessage) : list attr :=
  logValue (MListReply t)
  [("rowId", AString (lr_RowID t)); ("title", AString (preview (lr_Title t)));
   ("contextStanzaId", AString (lr_ContextStanzaID t));
   ("contextSender", AJID (lr_ContextSender t))].

Definition ButtonReply_LogValue (t : ButtonReplyMessage) : list attr :=
  logValue (MButtonReply t)
  [("kind", AString (if (br_Kind t =? ButtonReplyTemplate)%Z then "template_button"
   else "buttons"));
   ("buttonId", AString (br_ButtonID t));
   ("displayText", AString (preview (br_DisplayText t)));
   ("contextStanzaId", AString (br_ContextStanzaID t));
   ("contextSender", AJID (br_ContextSender t))].

Definition LogValue (m : Message) : list attr :=
  match m with
  | MText t => Text_LogValue t
  | MMedia t => Media_LogValue t
  | MAudio t => Audio_LogValue t
  | MVideo t => Video_LogValue t
  | MDocument t => Document_LogValue t
  | MSticker t => Sticker_LogValue t
  | MContact t => Contact_LogValue t
  | MLocation t => Location_LogValue t
  | MUnknown t => Unknown_LogValue t
  | MReaction t => Reaction_LogValue t
  | MListReply t => ListReply_LogValue t
  | MButtonReply t => ButtonReply_LogValue t
  end.

(** ** The mention token search *)

Lemma str_drop_drop n k s : str_drop n (str_drop k s) = str_drop (k + n) s.
Proof.
  revert s; induction k as [|k IH]; intros s; cbn; [done|].
  destruct s; [by destruct n|]. apply IH.
Qed.

Lemma str_drop_length n s : String.length (str_drop n s) = (String.length s - n)%nat.
Proof. revert s; induction n as [|n IH]; intros [|c s]; cbn; [done..|]. apply IH. Qed.

(** [strings.Index] is the least position at which the pattern occurs. *)
Lemma str_index_least sub s n :
  str_index sub s = Some n ->
  has_prefix sub (str_drop n s) = true /\
  forall k, (k < n)%nat -> has_prefix sub (str_drop k s) = false.
Proof.
  revert n; induction s as [|c s IH]; intros n; cbn.
  - destruct (has_prefix sub "") eqn:E; [|done]. intros [= <-]. split; [done|lia].
  - destruct (has_prefix sub (String c s)) eqn:E.
    + intros [= <-]. split; [done|lia].
    + destruct (str_index sub s) as [m|]; cbn; [|done]. intros [= <-].
      destruct (IH m eq_refl) as [H1 H2]. split; [done|].
      intros [|k] Hk; cbn; [done|]. apply H2. lia.
Qed.

Lemma str_index_absent sub s k :
  str_index sub s = None -> has_prefix sub (str_drop k s) = false.
Proof.
  revert k; induction s as [|c s IH]; intros k; cbn.
  - destruct (has_prefix sub "") eqn:E; [done|]. by destruct k.
  - destruct (has_prefix sub (String c s)) eqn:E; [done|].
    destruct (str_index sub s) as [m|]; cbn; [done|]. intros _.
    destruct k; cbn; [done|]. by apply IH.
Qed.

(** A position at which the loop would answer true. *)
Definition mention_ok (body tok : string) (k : nat) : bool :=
  has_prefix tok (str_drop k body) && leftOK body k && rightOK body (k + String.length tok).

Lemma mention_loop_spec fuel body tok from :
  tok <> "" -> (String.length body < from + fuel)%nat ->
  mention_loop fuel body tok from = true <->
  exists k, (from <= k)%nat /\ mention_ok body tok k = true.
Proof.
  intros Htok. unfold mention_ok. revert from.
  induction fuel as [|fuel IH]; intros from Hf; cbn.
  - split; [done|]. intros (k & Hk & Hok). exfalso.
    rewrite !andb_true_iff in Hok. destruct Hok as [[Hp _] _].
    assert (Hd : str_drop k body = "").
    { pose proof (str_drop_length k body) as Hl. destruct (str_drop k body); [done|].
      cbn in Hl. lia. }
    rewrite Hd in Hp. by destruct tok.
  - destruct (str_index tok (str_drop from body)) as [i|] eqn:Hi.
    + apply str_index_least in Hi as [Hocc Hleast]. rewrite str_drop_drop in Hocc.
      destruct (leftOK body (from + i) && rightOK body _) eqn:Hlr.
      * split; [|done]. intros _. exists (from + i)%nat. split; [lia|].
        by rewrite Hocc, <- andb_assoc.
      * rewrite IH by lia. split; intros (k & Hk & Hok); exists k; (split; [|done]); [lia|].
        destruct (decide (k = from + i)%nat) as [->|].
        { exfalso. rewrite <- andb_assoc, Hlr, andb_false_r in Hok. done. }
        destruct (decide (k < from + i)%nat) as [Hlt|]; [|lia]. exfalso.
        specialize (Hleast (k - from)%nat ltac:(lia)). rewrite str_drop_drop in Hleast.
        replace (from + (k - from))%nat with k in Hleast by lia.
        by rewrite Hleast in Hok.
    + split; [done|]. intros (k & Hk & Hok). exfalso.
      apply (str_index_absent _ _ (k - from)) in Hi. rewrite str_drop_drop in Hi.
      replace (from + (k - from))%nat with k in Hi by lia. by rewrite Hi in Hok.
Qed.

(** [tok] stands in [body] as a word of its own: between [u], which does not
    end in an ASCII letter or digit, and [v], which does not start with a digit. *)
Definition mention_at (u tok v : string) : Prop :=
  leftOK (u +:+ tok +:+ v) (String.length u) = true /\
  match v with "" => True | String c _ => is_digit c = false end.

Lemma str_take_drop n s : s = str_take n s +:+ str_drop n s.
Proof. revert s; induction n as [|n IH]; intros [|c s]; cbn; [done..|]. by rewrite <- IH. Qed.

Lemma get_app u v k : String.get (String.length u + k) (u +:+ v) = String.get k v.
Proof. by induction u; cbn. Qed.

Lemma rightOK_app u tok v :
  rightOK (u +:+ tok +:+ v) (String.length u + String.length tok)
  = match v with "" => true | String c _ => negb (is_digit c) end.
Proof.
  unfold rightOK. rewrite get_app.
  replace (String.length tok) with (String.length tok + 0)%nat by lia.
  rewrite get_app. by destruct v.
Qed.

Lemma mention_ok_decomp body tok :
  tok <> "" ->
  (exists k, mention_ok body tok k = true) <->
  exists u v, body = u +:+ tok +:+ v /\ mention_at u tok v.
Proof.
  intros Htok. unfold mention_ok, mention_at. split.
  - intros (k & Hok). rewrite !andb_true_iff in Hok. destruct Hok as [[Hp Hl] Hr].
    apply has_prefix_spec in Hp as [v Hv].
    assert (Hk : (k <= String.length body)%nat).
    { destruct (decide (k <= String.length body)%nat); [done|]. exfalso.
      apply (f_equal String.length) in Hv. rewrite str_drop_length, str_app_length in Hv.
      destruct tok; [done|]. cbn in Hv. lia. }
    exists (str_take k body), v. rewrite <- Hv, <- str_take_drop, str_take_length by done.
    split; [done|]. split; [done|].
    rewrite (str_take_drop k body), Hv in Hr at 1.
    rewrite <- (str_take_length k body Hk) in Hr at 2. rewrite rightOK_app in Hr.
    destruct v; [done|]. by apply negb_true_iff in Hr.
  - intros (u & v & -> & Hl & Hr). exists (String.length u).
    rewrite str_drop_app, has_prefix_app, Hl, rightOK_app. cbn.
    destruct v; [done|]. by rewrite Hr.
Qed.

Lemma bodyHasMentionToken_spec body tok :
  tok <> "" ->
  bodyHasMentionToken body tok = true <->
  exists u v, body = u +:+ tok +:+ v /\ mention_at u tok v.
Proof.
  intros Htok. unfold bodyHasMentionToken. rewrite mention_loop_spec by (done || lia).
  rewrite <- mention_ok_decomp by done. split; intros (k & H); [exists k; tauto|].
  exists k. split; [lia|done].
Qed.

Lemma leftOK_app body s k : (k <= String.length body)%nat -> leftOK (body +:+ s) k = leftOK body k.
Proof.
  destruct k as [|k]; cbn; [done|]. intros Hk.
  assert (String.get k (body +:+ s) = String.get k body) as ->; [|done].
  revert k Hk; induction body as [|c body IH]; intros k Hk; cbn in *; [lia|].
  destruct k; [done|]. apply IH. lia.
Qed.

(** Appending text that does not start with a digit keeps the tokens. *)
Lemma has_token_app body tok c s :
  tok <> "" -> is_digit c = false ->
  bodyHasMentionToken body tok = true ->
  bodyHasMentionToken (body +:+ String c s) tok = true.
Proof.
  intros Ht Hc. rewrite !bodyHasMentionToken_spec by done.
  intros (u & v & -> & Hl & Hr). exists u, (v +:+ String c s).
  split; [by rewrite <- !str_app_assoc|]. unfold mention_at.
  rewrite !str_app_assoc. rewrite leftOK_app, <- str_app_assoc.
  - split; [done|]. by destruct v.
  - rewrite !str_app_length. lia.
Qed.

Lemma mention_token_ne j : mention_token j <> "".
Proof. done. Qed.

Lemma leftOK_space u : leftOK (u +:+ " ") (String.length (u +:+ " ")) = true.
Proof.
  rewrite str_app_length, Nat.add_comm. cbn.
  pose proof (get_app u " " 0) as H. rewrite Nat.add_0_r in H. by rewrite H.
Qed.

Lemma has_token_sep body j :
  bodyHasMentionToken ((if str_empty body then body else body +:+ " ") +:+ mention_token j)
    (mention_token j) = true.
Proof.
  apply bodyHasMentionToken_spec; [apply mention_token_ne|].
  destruct body as [|c body].
  - exists "", "". rewrite str_app_nil_r. repeat split.
  - exists (String c body +:+ " "), "". rewrite !str_app_nil_r.
    split; [done|]. split; [|done].
    rewrite str_app_nil_r, leftOK_app by lia. apply leftOK_space.
Qed.

Lemma add_mention_keeps body j j' :
  bodyHasMentionToken body (mention_token j) = true ->
  bodyHasMentionToken (add_mention body j') (mention_token j) = true.
Proof.
  intros H. unfold add_mention. destruct (JID_IsZero j'); [done|].
  destruct (bodyHasMentionToken body (mention_token j')); [done|].
  destruct (str_empty body) eqn:E.
  - apply str_empty_true in E as ->. done.
  - rewrite <- str_app_assoc. by apply has_token_app.
Qed.

Lemma add_mention_has body j :
  JID_IsZero j = false -> bodyHasMentionToken (add_mention body j) (mention_token j) = true.
Proof.
  intros Hz. unfold add_mention. rewrite Hz.
  destruct (bodyHasMentionToken body (mention_token j)) eqn:E; [done|].
  apply has_token_sep.
Qed.

Lemma fold_mentions_keeps js body j :
  bodyHasMentionToken body (mention_token j) = true ->
  bodyHasMentionToken (foldl add_mention body js) (mention_token j) = true.
Proof.
  revert body. induction js as [|j' js IH]; intros body H; cbn; [done|].
  apply IH. by apply add_mention_keeps.
Qed.

Lemma fold_mentions_has js body j :
  j ∈ js -> JID_IsZero j = false ->
  bodyHasMentionToken (foldl add_mention body js) (mention_token j) = true.
Proof.
  intros Hin Hz. revert body. induction Hin as [j js|j j' js Hin IH]; intros body; cbn; [|by apply IH].
  apply fold_mentions_keeps. by apply add_mention_has.
Qed.

Lemma add_mention_prefix body j : has_prefix body (add_mention body j) = true.
Proof.
  apply has_prefix_spec. unfold add_mention.
  destruct (JID_IsZero j); [exists ""; by rewrite str_app_nil_r|].
  destruct (bodyHasMentionToken _ _); [exists ""; by rewrite str_app_nil_r|].
  destruct (str_empty body); [by eexists|]. rewrite <- str_app_assoc. by eexists.
Qed.

Lemma fold_mentions_prefix js body : has_prefix body (foldl add_mention body js) = true.
Proof.
  revert body. induction js as [|j js IH]; intros body; cbn.
  - rewrite <- (str_app_nil_r body) at 2. apply has_prefix_app.
  - pose proof (add_mention_prefix body j) as [v Hv]%has_prefix_spec.
    pose proof (IH (add_mention body j)) as [w Hw]%has_prefix_spec.
    apply has_prefix_spec. exists (v +:+ w). by rewrite Hw, Hv, str_app_assoc.
Qed.

Lemma fold_mentions_fixed js body :
  (forall j, j ∈ js -> JID_IsZero j = false ->
     bodyHasMentionToken body (mention_token j) = true) ->
  foldl add_mention body js = body.
Proof.
  induction js as [|j js IH]; intros H; cbn; [done|].
  assert (add_mention body j = body) as ->.
  { unfold add_mention. destruct (JID_IsZero j) eqn:E; [done|].
    rewrite H; [done|by left|done]. }
  apply IH. intros j' Hj'. apply H. by right.
Qed.

(** Every mention renders: the body put on the wire extends the caller's
    body and contains, for every non-zero mention, its token as a word of its
    own (not glued to a preceding letter, not a prefix of a longer number);
    a body that already carries the tokens is sent byte for byte, so
    completing it twice changes nothing. *)
Theorem EffectiveBody_mentions (m : TextMessage) :
  has_prefix (tm_Body m) (EffectiveBody m) = true
  /\ (forall j, j ∈ tm_Mentions m -> JID_IsZero j = false ->
       exists u v, EffectiveBody m = u +:+ mention_token j +:+ v /\ mention_at u (mention_token j) v)
  /\ EffectiveBody (mkText (tm_Recipient m) (EffectiveBody m) (tm_LinkPreview m) (tm_Mentions m))
     = EffectiveBody m.
Proof.
  unfold EffectiveBody. split; [apply fold_mentions_prefix|]. split.
  - intros j Hj Hz. apply bodyHasMentionToken_spec; [apply mention_token_ne|].
    by apply fold_mentions_has.
  - cbn. apply fold_mentions_fixed. intros j Hj Hz. by apply fold_mentions_has.
Qed.

(** ** Validation *)

Definition message_error (e : goerr) : bool :=
  is_dom domain.ErrInvalidJID e || is_dom domain.ErrEmptyBody e
  || is_dom domain.ErrMessageTooLarge e.

(** A validator whose refusals are the documented sentinels. *)
Definition refuses_typed (r : check goerr) : Prop :=
  match r with Ok _ => True | Err e => message_error e = true end.

Lemma refuses_guard b e k :
  message_error e = true -> refuses_typed k -> refuses_typed (guard b e k).
Proof. by destruct b. Qed.

Lemma refuses_mentions js k : refuses_typed k -> refuses_typed (validate_mentions js k).
Proof.
  intros Hk. induction js as [|j js IH]; cbn; [done|].
  by repeat apply refuses_guard.
Qed.

Lemma refuses_bind r k :
  refuses_typed r -> refuses_typed k -> refuses_typed (let* _ := r in k).
Proof. by destruct r. Qed.

#[local] Hint Resolve refuses_guard refuses_mentions refuses_bind : wa.

(** Validation is uniform over the twelve variants: an accepted message
    has a recipient, and a refused one carries one of the three documented
    sentinels, so the wire table always finds its code. *)
Theorem Message_Validate_typed (m : Message) :
  (Message_Validate m = Ok tt -> JID_IsZero (To m) = false)
  /\ (forall e, Message_Validate m = Err e -> message_error e = true).
Proof.
  split.
  - destruct m; cbn; intros [H _]%guard_ok; exact H.
  - intros e He. enough (R : refuses_typed (Message_Validate m)) by (by rewrite He in R).
    clear e He. destruct m as [m|m|m|m|m|m|m|m|m|m|m|m]; cbn;
      unfold Text_Validate, Media_Validate, SourceValidate, AudioValidate, Audio_Validate,
        Video_Validate, Document_Validate, Sticker_Validate, validate_path, Contact_Validate,
        Location_Validate, Unknown_Validate, Reaction_Validate, ListReply_Validate,
        ButtonReply_Validate;
      repeat first [apply refuses_guard; [done|] | apply refuses_mentions | apply refuses_bind
                   | split_match]; done.
Qed.

Lemma Message_Validate_typed_witness :
  JID_IsZero (To (MText (mkText (mkJID "5511999990000" serverUser) "oi" false []))) = false.
Proof. apply Message_Validate_typed. vm_compute. reflexivity. Defined.

Lemma AudioValidate_ok m :
  AudioValidate m = Ok tt <->
  (mm_PTT m = true \/ mm_Seconds m <> 0%Z ->
    has_prefix "audio/" (mm_Mime m) = true /\ (0 <= mm_Seconds m <= MaxAudioSeconds)%Z).
Proof.
  unfold AudioValidate. destruct (mm_PTT m); cbn; [|destruct (Z.eqb_spec (mm_Seconds m) 0)].
  2: { split; [|done]. intros _ [|]; [done|lia]. }
  all: rewrite !guard_ok, negb_false_iff, orb_false_iff, !Z.ltb_ge; naive_solver.
Qed.

Lemma SourceValidate_ok m r :
  SourceValidate m = Ok r <->
  ((mm_Path m <> "" /\ mm_Bytes m = "" /\ mm_SHA256 m = "")
   \/ (mm_Path m = "" /\ mm_Bytes m <> "" /\ mm_SHA256 m = "")
   \/ (mm_Path m = "" /\ mm_Bytes m = "" /\ mm_SHA256 m <> ""))
  /\ (len (mm_Bytes m) <= MaxMediaBytes)%Z.
Proof.
  unfold SourceValidate, payload_sources. rewrite !guard_ok, len_pos, !Z.ltb_ge, Z.eqb_neq. destruct r.
  rewrite <- !str_empty_false, <- !str_empty_true.
  destruct (str_empty (mm_Path m)), (str_empty (mm_Bytes m)), (str_empty (mm_SHA256 m));
    cbn; intuition (congruence || lia).
Qed.

(** A media message is accepted exactly when it has a recipient, one and
    only one payload source, at most 16 MiB of inline bytes, a mime type, and
    voice-note hints (ptt, or a duration within a day) only on audio. *)
Theorem Media_Validate_exact (m : MediaMessage) :
  Media_Validate m = Ok tt <->
  JID_IsZero (mm_Recipient m) = false
  /\ ((mm_Path m <> "" /\ mm_Bytes m = "" /\ mm_SHA256 m = "")
      \/ (mm_Path m = "" /\ mm_Bytes m <> "" /\ mm_SHA256 m = "")
      \/ (mm_Path m = "" /\ mm_Bytes m = "" /\ mm_SHA256 m <> ""))
  /\ (len (mm_Bytes m) <= MaxMediaBytes)%Z
  /\ mm_Mime m <> ""
  /\ (mm_PTT m = true \/ mm_Seconds m <> 0%Z ->
      has_prefix "audio/" (mm_Mime m) = true /\ (0 <= mm_Seconds m <= MaxAudioSeconds)%Z).
Proof.
  unfold Media_Validate. rewrite guard_ok, res_bind_ok.
  setoid_rewrite SourceValidate_ok. setoid_rewrite guard_ok.
  setoid_rewrite str_empty_false. setoid_rewrite AudioValidate_ok.
  split; [intros (? & _ & ?); tauto|]. intros ?. split; [tauto|]. exists tt. tauto.
Qed.
