(* ===== verification/Values.v ===== *)
(** * The small value types of package [domain]

    [label.go], [media_ref.go], [contact_ref.go], [privacy.go],
    [revoke_scope.go], [avatar.go], [group.go], [group_patch.go],
    [session.go], [contact.go], [embedding.go], [quoted_message.go],
    [idempotency_key.go]. *)
From S2P Require Import Prelude GoStd Errors Jid Limiter.

#[local] Open Scope Z_scope.
#[local] Open Scope string_scope.

(** ** label.go *)

Definition LabelPaletteSize : Z := 20.
Definition LabelNameMaxLen : Z := 100.
Definition LabelTargetChat : Z := 1.
Definition LabelTargetMessage : Z := 2.

Definition LabelTargetKind_IsValid (k : Z) : bool :=
  (k =? LabelTargetChat)%Z || (k =? LabelTargetMessage)%Z.

Record Label := mkLabel {
  lb_id : string; lb_name : string; lb_colorIndex : Z; lb_createdAt : time;
  lb_updatedAt : time }.

Definition NewLabel (id name : string) (colorIndex : Z) (createdAt : time) : result Label :=
  fail_if str_empty id with ENew "label: id required" ;;
  let trimmed := trim_space name in
  fail_if str_empty trimmed with EDom domain.ErrLabelNameEmpty ;;
  fail_if (LabelNameMaxLen <? len trimmed)%Z with EDom domain.ErrLabelNameTooLong ;;
  fail_if (colorIndex <? 0)%Z || (LabelPaletteSize <=? colorIndex)%Z
    with EDom domain.ErrLabelColorOutOfRange ;;
  Ok (mkLabel id trimmed colorIndex (utc createdAt) (utc createdAt)).

(** The receiver is returned with the error. *)
Definition Label_Rename (l : Label) (name : string) (at_ : time) : Label * option goerr :=
  let trimmed := trim_space name in
  if str_empty trimmed then (l, Some (EDom domain.ErrLabelNameEmpty))
  else if (LabelNameMaxLen <? len trimmed)%Z then (l, Some (EDom domain.ErrLabelNameTooLong))
  else (mkLabel (lb_id l) trimmed (lb_colorIndex l) (lb_createdAt l) (utc at_), None).

Definition Label_Recolor (l : Label) (colorIndex : Z) (at_ : time) : Label * option goerr :=
  if (colorIndex <? 0)%Z || (LabelPaletteSize <=? colorIndex)%Z
  then (l, Some (EDom domain.ErrLabelColorOutOfRange))
  else (mkLabel (lb_id l) (lb_name l) colorIndex (lb_createdAt l) (utc at_), None).

Record LabelAssignment := mkLabelAssignment {
  la_labelID : string; la_targetKind : Z; la_chat : JID; la_messageID : string;
  la_createdAt : time }.

Definition NewChatLabelAssignment (labelID : string) (chat : JID) (at_ : time)
    : result LabelAssignment :=
  fail_if str_empty labelID with ENew "label_assignment: labelID required" ;;
  fail_if JID_IsZero chat with ENew "label_assignment: chat required" ;;
  Ok (mkLabelAssignment labelID LabelTargetChat chat "" (utc at_)).

Definition NewMessageLabelAssignment (labelID : string) (chat : JID) (messageID : string)
    (at_ : time) : result LabelAssignment :=
  fail_if str_empty labelID with ENew "label_assignment: labelID required" ;;
  fail_if JID_IsZero chat with ENew "label_assignment: chat required" ;;
  fail_if str_empty messageID with ENew "label_assignment: messageID required" ;;
  Ok (mkLabelAssignment labelID LabelTargetMessage chat messageID (utc at_)).

(** ** media_ref.go *)

(** [[32]byte] as the string of its bytes. *)
Definition zero_sha : string := str_concat (repeat (String (chr 0) "") 32).

Record MediaRef := mkMediaRef {
  mr_SHA256 : string; mr_Mime : string; mr_Size : Z; mr_Ext : string }.

Definition MaxInboundMediaBytes : Z := 50 * 1024 * 1024.

Definition hex_digit (n : Z) : ascii := chr (if (n <? 10)%Z then 48 + n else 87 + n)%Z.
(** [hex.EncodeToString]. *)
Definition hex_encode (s : string) : string :=
  str_flat_map (fun c => String (hex_digit (bz c / 16)) (String (hex_digit (bz c mod 16)) "")) s.

Definition HexSHA256 (r : MediaRef) : string := hex_encode (mr_SHA256 r).

Definition MediaRef_IsZero (r : MediaRef) : bool :=
  (mr_SHA256 r =? zero_sha) && (mr_Mime r =? "") && (mr_Size r =? 0)%Z && (mr_Ext r =? "").

Definition ext_forbidden (c : ascii) : bool :=
  Ascii.eqb c "/" || Ascii.eqb c "\" || Ascii.eqb c ".".

Definition MediaRef_Validate (r : MediaRef) : check goerr :=
  fail_if mr_SHA256 r =? zero_sha with wrapd domain.ErrMediaRef "sha256 is zero" ;;
  fail_if str_empty (trim_space (mr_Mime r)) with wrapd domain.ErrMediaRef "mime is empty" ;;
  fail_if (mr_Size r <=? 0)%Z with wrapd domain.ErrMediaRef "size %d must be positive" ;;
  fail_if (MaxInboundMediaBytes <? mr_Size r)%Z
    with wrapd domain.ErrMessageTooLarge "size %d exceeds %d" ;;
  fail_if str_empty (trim_space (mr_Ext r)) with wrapd domain.ErrMediaRef "ext is empty" ;;
  fail_if str_existsb ext_forbidden (mr_Ext r)
    with wrapd domain.ErrMediaRef "ext %q must be bare (no separators or dots)" ;;
  Ok tt.

(** [filepath.Join] of two clean, separator-free names. *)
Definition RelativePath (r : MediaRef) : string :=
  let h := HexSHA256 r in
  str_take 2 h +:+ "/" +:+ str_drop 2 h +:+ "." +:+ mr_Ext r.

Record MediaObject := mkMediaObject {
  mo_Ref : MediaRef; mo_Path : string; mo_MimeAdvertised : string; mo_MimeDetected : string;
  mo_DurationSeconds : Z; mo_Transcript : string; mo_FetchedAt : Z; mo_LastAccessAt : Z }.

Definition MediaObject_Validate (o : MediaObject) : check goerr :=
  let* _ := MediaRef_Validate (mo_Ref o) in
  fail_if str_empty (trim_space (mo_Path o)) with wrapd domain.ErrMediaRef "path is empty" ;;
  fail_if str_empty (trim_space (mo_MimeDetected o))
    with wrapd domain.ErrMediaRef "detected mime is empty" ;;
  fail_if (mo_FetchedAt o <? 0)%Z || (mo_LastAccessAt o <? 0)%Z
    with wrapd domain.ErrMediaRef "negative timestamp" ;;
  Ok tt.

Definition MediaObject_IsAudio (o : MediaObject) : bool :=
  if has_prefix "audio/" (mo_MimeDetected o) then true
  else if has_prefix "audio/" (mo_MimeAdvertised o) then true
  else has_prefix "application/ogg" (mo_MimeDetected o).

(** ** contact_ref.go *)

Definition ContactRefJID : Z := 1.
Definition ContactRefPhone : Z := 2.
Definition ContactRefName : Z := 3.

Record ContactRef := mkContactRef { cr_JID : JID; cr_Phone : string; cr_Name : string }.

Definition NewJIDRef (j : JID) : ContactRef := mkContactRef j "" "".
Definition NewPhoneRef (phone : string) : ContactRef := mkContactRef zeroJID phone "".
Definition NewNameRef (name : string) : ContactRef := mkContactRef zeroJID "" name.

Definition ContactRef_Kind (r : ContactRef) : Z :=
  let j := negb (JID_IsZero (cr_JID r)) in
  let p := negb (str_empty (trim_space (cr_Phone r))) in
  let n := negb (str_empty (trim_space (cr_Name r))) in
  let set := ((if j then 1 else 0) + (if p then 1 else 0) + (if n then 1 else 0))%Z in
  let kind := if n then ContactRefName else if p then ContactRefPhone
              else if j then ContactRefJID else 0%Z in
  if negb (set =? 1)%Z then 0%Z else kind.

Definition ContactRef_validatePhone (r : ContactRef) : check goerr :=
  let p := trim_space (cr_Phone r) in
  fail_if str_empty p with wrapd domain.ErrContactRefShape "phone is empty" ;;
  let digits := trim_prefix "+" p in
  fail_if (len digits <? minPhoneDigits)%Z || (maxPhoneDigits <? len digits)%Z
    with wrapd domain.ErrInvalidPhone "phone %q out of E.164 range [%d,%d]" ;;
  fail_if negb (str_forallb is_digit digits)
    with wrapd domain.ErrInvalidPhone "phone %q contains non-digit %q" ;;
  Ok tt.

Definition ContactRef_Validate (r : ContactRef) : check goerr :=
  let k := ContactRef_Kind r in
  if (k =? ContactRefJID)%Z then
    fail_if JID_IsZero (cr_JID r) with wrapd domain.ErrContactRefShape "JID is zero" ;; Ok tt
  else if (k =? ContactRefPhone)%Z then ContactRef_validatePhone r
  else if (k =? ContactRefName)%Z then
    fail_if str_empty (trim_space (cr_Name r))
      with wrapd domain.ErrContactRefShape "name is empty" ;; Ok tt
  else Err (EDom domain.ErrContactRefShape).

(** ** privacy.go, revoke_scope.go, avatar.go *)

Definition PrivacyKey_String (k : Z) : string :=
  if (k =? 1)%Z then "groups" else if (k =? 2)%Z then "readReceipts"
  else if (k =? 3)%Z then "lastSeen" else if (k =? 4)%Z then "profile"
  else if (k =? 5)%Z then "about" else "unknown".

Definition ParsePrivacyKey (s : string) : result Z :=
  if s =? "groups" then Ok 1%Z else if s =? "readReceipts" then Ok 2%Z
  else if s =? "lastSeen" then Ok 3%Z else if s =? "profile" then Ok 4%Z
  else if s =? "about" then Ok 5%Z
  else Err (ENew "domain: invalid privacy key %q").

Definition PrivacyValue_String (v : Z) : string :=
  if (v =? 1)%Z then "everyone" else if (v =? 2)%Z then "contacts"
  else if (v =? 3)%Z then "nobody" else "unknown".

Definition ParsePrivacyValue (s : string) : result Z :=
  if s =? "everyone" then Ok 1%Z else if s =? "contacts" then Ok 2%Z
  else if s =? "nobody" then Ok 3%Z else Err (ENew "domain: invalid privacy value %q").

Definition RevokeSelf : Z := 1.
Definition RevokeEveryone : Z := 2.

Definition RevokeScope_String (s : Z) : string :=
  if (s =? RevokeSelf)%Z then "self" else if (s =? RevokeEveryone)%Z then "everyone"
  else "unknown".

Definition ParseRevokeScope (s : string) : result Z :=
  if s =? "self" then Ok RevokeSelf else if s =? "everyone" then Ok RevokeEveryone
  else Err (ENew "domain: invalid revoke scope %q (want self|everyone)").

Definition ParseAvatarSize (s : string) : result Z :=
  if (s =? "") || (s =? "preview") then Ok 1%Z else if s =? "full" then Ok 2%Z
  else Err (ENew "domain: invalid avatar size %q (want preview|full)").

(** ** group.go, group_patch.go *)

Definition maxGroupSubjectBytes : Z := 100.
Definition maxGroupDescriptionBytes : Z := 512.

Record Group := mkGroup {
  g_JID : JID; g_Subject : string; g_Participants : list JID; g_Admins : list JID;
  g_FetchedAt : time }.

Definition zeroGroup : Group := mkGroup zeroJID "" [] [] zero_time.

Definition NewGroup (jid : JID) (subject : string) (participants : list JID) : result Group :=
  fail_if negb (IsGroup jid) with wrapd domain.ErrInvalidJID "%q is not a group JID" ;;
  fail_if (maxGroupSubjectBytes <? len subject)%Z
    with wrapd domain.ErrMessageTooLarge "group subject %d > %d bytes" ;;
  fail_if (Z.of_nat (length participants) =? 0)%Z
    with wrapd domain.ErrInvalidJID "group must have at least one participant" ;;
  fail_if negb (forallb IsAddressable participants)
    with wrapd domain.ErrInvalidJID "participant[%d]=%q is not an addressable JID" ;;
  Ok (mkGroup jid subject participants [] zero_time).

Definition HasParticipant (g : Group) (j : JID) : bool := bool_decide (j ∈ g_Participants g).
Definition IsAdmin (g : Group) (j : JID) : bool := bool_decide (j ∈ g_Admins g).

Definition Group_IsStale (g : Group) (now : time) (ttl : Z) : bool :=
  if is_zero_time (g_FetchedAt g) then true
  else if (ttl <? 0)%Z then false
  else (ttl <? time_sub now (g_FetchedAt g))%Z.

(** The loop stops at the first admin that fails either test. *)
Fixpoint check_admins (g : Group) (admins : list JID) : check goerr :=
  match admins with
  | [] => Ok tt
  | a :: admins =>
    fail_if negb (IsAddressable a)
      with wrapd domain.ErrInvalidJID "admin[%d]=%q is not an addressable JID" ;;
    fail_if negb (HasParticipant g a)
      with wrapd domain.ErrInvalidJID "admin[%d]=%q is not a participant" ;;
    check_admins g admins
  end.

Definition WithAdmins (g : Group) (admins : list JID) : result Group :=
  let* _ := check_admins g admins in
  Ok (mkGroup (g_JID g) (g_Subject g) (g_Participants g) admins (g_FetchedAt g)).

Record GroupPatch := mkGroupPatch {
  gp_Subject : option string; gp_Description : option string; gp_IconPath : option string }.

Definition over (max : Z) (o : option string) : bool :=
  match o with Some s => (max <? len s)%Z | None => false end.

Definition GroupPatch_Validate (p : GroupPatch) : check goerr :=
  fail_if match gp_Subject p, gp_Description p, gp_IconPath p with
          | None, None, None => true | _, _, _ => false end
    with EDom domain.ErrEmptyGroupPatch ;;
  fail_if over maxGroupSubjectBytes (gp_Subject p)
    with wrapd domain.ErrMessageTooLarge "group subject %d > %d bytes" ;;
  fail_if over maxGroupDescriptionBytes (gp_Description p)
    with wrapd domain.ErrMessageTooLarge "group description %d > %d bytes" ;;
  Ok tt.

Record GroupInviteLink := mkInviteLink { il_Group : JID; il_URL : string; il_Code : string }.

(** ** session.go, contact.go, embedding.go, quoted_message.go *)

Record Session := mkSession { se_jid : JID; se_deviceID : Z; se_createdAt : time }.

Definition NewSession (jid : JID) (deviceID : Z) (createdAt : time) : result Session :=
  fail_if JID_IsZero jid with wrapd domain.ErrInvalidJID "NewSession requires a non-zero JID" ;;
  fail_if (deviceID =? 0)%Z
    with wrapd domain.ErrInvalidSession "NewSession requires a non-zero deviceID" ;;
  Ok (mkSession jid deviceID createdAt).

Definition Session_IsZero (s : Session) : bool :=
  JID_IsZero (se_jid s) && (se_deviceID s =? 0)%Z && is_zero_time (se_createdAt s).
Definition Session_IsLoggedIn (s : Session) : bool :=
  negb (JID_IsZero (se_jid s)) && (0 <? se_deviceID s)%Z.

Record Contact := mkContact { ct_JID : JID; ct_PushName : string; ct_Verified : bool }.

Definition NewContact (jid : JID) (pushName : string) : result Contact :=
  fail_if JID_IsZero jid with wrapd domain.ErrInvalidJID "zero JID passed to NewContact" ;;
  Ok (mkContact jid pushName false).

Definition DisplayName (c : Contact) : string :=
  if negb (str_empty (ct_PushName c)) then ct_PushName c else User (ct_JID c).

(** The vector is kept as its list of float32 bit patterns. *)
Record Embedding := mkEmbedding {
  em_MessageID : string; em_Model : string; em_Dim : Z; em_Vec : list Z }.

Definition Embedding_Validate (e : Embedding) : check goerr :=
  fail_if str_empty (em_Model e) with EDom domain.ErrEmptyModel ;;
  fail_if negb (em_Dim e =? Z.of_nat (length (em_Vec e)))%Z with EDom domain.ErrDimMismatch ;;
  fail_if str_empty (em_MessageID e) with ENew "embedding: message id is required" ;;
  Ok tt.

Definition QuoteChainMaxDepth : Z := 5.

(** [*QuotedMessageChain]: a chain of messages; [nil] is []. *)
Fixpoint quote_loop {A} (chain : list A) (depth : Z) : check goerr :=
  match chain with
  | [] => Ok tt
  | _ :: parent =>
    fail_if (QuoteChainMaxDepth <? depth + 1)%Z with EDom domain.ErrQuoteChainTooDeep ;;
    quote_loop parent (depth + 1)
  end.
Definition ValidateQuoteChain {A} (chain : list A) : check goerr := quote_loop chain 0.
Definition QuoteChain_Depth {A} (chain : list A) : Z := Z.of_nat (length chain).

(** ** idempotency_key.go *)

Definition IdempotencyKeyTTL : Z := 24 * 3600.

Definition key_char (c : ascii) : bool := is_alnum c || Ascii.eqb c "_" || Ascii.eqb c "-".
(** [^[A-Za-z0-9_-]{1,64}$]. *)
Definition idempotencyKeyRe (s : string) : bool :=
  (1 <=? len s)%Z && (len s <=? 64)%Z && str_forallb key_char s.

Record IdempotencyKey := mkIdempotencyKey { ik_Value : string; ik_Fingerprint : string }.

Definition NewIdempotencyKey (value fingerprint : string) : result IdempotencyKey :=
  fail_if negb (idempotencyKeyRe value)
    with wrapd domain.ErrIdempotencyKey "value %q does not match [A-Za-z0-9_-]{1,64}" ;;
  fail_if fingerprint =? zero_sha with wrapd domain.ErrIdempotencyKey "fingerprint is zero" ;;
  Ok (mkIdempotencyKey value fingerprint).

Definition IdempotencyKey_Matches (k other : IdempotencyKey) : bool :=
  (ik_Value k =? ik_Value other) && (ik_Fingerprint k =? ik_Fingerprint other).

(** ** Media paths *)

Definition hex_value (c : ascii) : Z := if is_digit c then bz c - 48 else bz c - 87.
Definition unhex_pair (h l : ascii) : ascii := chr (16 * hex_value h + hex_value l).

Lemma unhex_hex c : unhex_pair (hex_digit (bz c / 16)) (hex_digit (bz c mod 16)) = c.
Proof. destruct c as [[] [] [] [] [] [] [] []]; reflexivity. Qed.

Lemma hex_encode_inj s t : hex_encode s = hex_encode t -> s = t.
Proof.
  revert t; induction s as [|c s IH]; intros [|d t]; cbn; [done..|].
  intros [= H1 H2 H3]. f_equal; [|by apply IH].
  rewrite <- (unhex_hex c), <- (unhex_hex d). by rewrite H1, H2.
Qed.

Lemma hex_digit_byte c :
  no_byte "/" (String (hex_digit (bz c / 16)) (String (hex_digit (bz c mod 16)) "")) = true
  /\ no_byte "." (String (hex_digit (bz c / 16)) (String (hex_digit (bz c mod 16)) "")) = true.
Proof. destruct c as [[] [] [] [] [] [] [] []]; split; reflexivity. Qed.

Lemma hex_encode_no s : no_byte "/" (hex_encode s) = true /\ no_byte "." (hex_encode s) = true.
Proof.
  induction s as [|c s [IH1 IH2]]; [done|].
  change (hex_encode (String c s)) with
    (String (hex_digit (bz c / 16)) (String (hex_digit (bz c mod 16)) "") +:+ hex_encode s).
  destruct (hex_digit_byte c) as [H1 H2].
  rewrite !no_byte_app, H1, H2, IH1, IH2. done.
Qed.

Lemma no_byte_take b n s : no_byte b s = true -> no_byte b (str_take n s) = true.
Proof.
  unfold no_byte. revert s; induction n as [|n IH]; intros [|c s]; cbn; try done.
  rewrite !andb_true_iff. intros [-> H]. auto.
Qed.
Lemma no_byte_drop b n s : no_byte b s = true -> no_byte b (str_drop n s) = true.
Proof.
  unfold no_byte. revert s; induction n as [|n IH]; intros [|c s]; cbn; try done.
  rewrite !andb_true_iff. intros [_ H]. auto.
Qed.

Lemma take_drop_inj n s t :
  str_take n s = str_take n t -> str_drop n s = str_drop n t -> s = t.
Proof.
  revert s t; induction n as [|n IH]; intros [|c s] [|d t]; cbn; try done.
  intros [= -> H] H'. f_equal. by apply IH.
Qed.

Lemma valid_ext r :
  MediaRef_Validate r = Ok tt -> no_byte "/" (mr_Ext r) = true /\ no_byte "." (mr_Ext r) = true.
Proof.
  unfold MediaRef_Validate. rewrite !guard_ok. intros (_ & _ & _ & _ & _ & H & _).
  rewrite str_existsb_negb in H. apply negb_false_iff in H.
  split; (eapply str_forallb_impl; [|exact H]); intros c Hc; cbn in Hc;
    unfold ext_forbidden in Hc; apply negb_true_iff, orb_false_iff in Hc as [Hc1 Hc2];
    apply orb_false_iff in Hc1 as [Hc1 Hc3]; apply negb_true_iff; assumption.
Qed.

(** The content-addressed media path is injective and stays inside the
    store: two valid references share a path only if they share digest and
    extension, and the path has exactly two components, so neither a digest
    nor a sniffed extension can climb out of the two-level tree. *)
Theorem RelativePath_injective (r1 r2 : MediaRef) :
  MediaRef_Validate r1 = Ok tt -> MediaRef_Validate r2 = Ok tt ->
  split_byte "/" (RelativePath r1)
    = [str_take 2 (HexSHA256 r1); str_drop 2 (HexSHA256 r1) +:+ "." +:+ mr_Ext r1]
  /\ (RelativePath r1 = RelativePath r2 ->
      mr_SHA256 r1 = mr_SHA256 r2 /\ mr_Ext r1 = mr_Ext r2).
Proof.
  intros [He1 Hd1]%valid_ext [He2 Hd2]%valid_ext.
  assert (HN : forall r, no_byte "/" (HexSHA256 r) = true /\ no_byte "." (HexSHA256 r) = true)
    by (intros; apply hex_encode_no).
  assert (HS : forall r, no_byte "/" (mr_Ext r) = true ->
    split_byte "/" (RelativePath r)
    = [str_take 2 (HexSHA256 r); str_drop 2 (HexSHA256 r) +:+ "." +:+ mr_Ext r]).
  { intros r Hr. destruct (HN r). apply split_byte_two. split; [done|].
    rewrite !no_byte_app, Hr. split; [by apply no_byte_take|].
    by rewrite no_byte_drop. }
  split; [by apply HS|]. intros Heq.
  pose proof (HS r1 He1) as S1. rewrite Heq, (HS r2 He2) in S1.
  assert (HD : forall r, no_byte "." (str_drop 2 (HexSHA256 r)) = true)
    by (intros; apply no_byte_drop, HN).
  pose proof (HD r1) as D1. pose proof (HD r2) as D2. clear HD HS.
  assert (Hinj : str_take 2 (HexSHA256 r2) = str_take 2 (HexSHA256 r1) ->
    str_drop 2 (HexSHA256 r2) = str_drop 2 (HexSHA256 r1) -> mr_SHA256 r1 = mr_SHA256 r2).
  { intros Ht Hd. symmetry. apply hex_encode_inj. by apply (take_drop_inj 2). }
  revert S1 D1 D2 Hinj.
  generalize (str_take 2 (HexSHA256 r1)), (str_drop 2 (HexSHA256 r1)),
    (str_take 2 (HexSHA256 r2)), (str_drop 2 (HexSHA256 r2)).
  intros t1 d1 t2 d2 [= -> Hr] D1 D2 Hinj.
  apply (f_equal (cut_byte ".")) in Hr. rewrite !cut_byte_app in Hr by done.
  injection Hr as -> ->. auto.
Qed.

Lemma RelativePath_injective_witness :
  let r := mkMediaRef (String "A" (str_drop 1 zero_sha)) "image/png" 10 "png" in
  length (split_byte "/" (RelativePath r)) = 2%nat.
Proof.
  intros r.
  destruct (RelativePath_injective r r) as [H _]; [vm_compute; reflexivity..|].
  rewrite H. reflexivity.
Defined.

(** ** Groups *)

Definition Group_wf (g : Group) : Prop :=
  IsGroup (g_JID g) = true /\ (len (g_Subject g) <= maxGroupSubjectBytes)%Z
  /\ g_Participants g <> []
  /\ Forall (fun j => IsAddressable j = true) (g_Participants g)
  /\ Forall (fun j => j ∈ g_Participants g) (g_Admins g).

Lemma check_admins_ok g admins :
  check_admins g admins = Ok tt <->
  Forall (fun a => IsAddressable a = true /\ a ∈ g_Participants g) admins.
Proof.
  induction admins as [|a admins IH]; cbn; [done|].
  rewrite !guard_ok, !negb_false_iff, IH, Forall_cons. unfold HasParticipant.
  rewrite bool_decide_eq_true. tauto.
Qed.

(** Group rosters stay consistent: a constructed group has a group JID, a
    subject within the server's limit and only addressable members, and
    replacing its admins either fails or yields a group whose admins are
    members, nothing else changed. *)
Theorem Group_invariant (jid : JID) (subject : string) (ps admins : list JID) (g g' : Group) :
  NewGroup jid subject ps = Ok g -> WithAdmins g admins = Ok g' ->
  Group_wf g /\ Group_wf g' /\ g_Admins g' = admins /\ g_Participants g' = ps
  /\ (forall j, IsAdmin g' j = true -> HasParticipant g' j = true).
Proof.
  unfold NewGroup. rewrite !guard_ok. intros (Hg & Hs & Hn & Ha & [= <-]).
  apply negb_false_iff in Hg, Ha. apply Z.ltb_ge in Hs. apply Z.eqb_neq in Hn.
  assert (Hne : ps <> []) by (by destruct ps).
  apply forallb_Forall_iff in Ha.
  unfold WithAdmins. rewrite res_bind_ok. intros ([] & Hc%check_admins_ok & [= <-]).
  cbn in *. assert (Hsub : Forall (fun j => j ∈ ps) admins).
  { eapply Forall_impl; [exact Hc|]. by intros a [_ ?]. }
  repeat split; cbn; auto.
  unfold IsAdmin, HasParticipant. cbn. intros j Hj. apply bool_decide_eq_true in Hj.
  apply bool_decide_eq_true. rewrite Forall_forall in Hsub. auto.
Qed.

Lemma Group_invariant_witness :
  let u := mkJID "5511999990000" serverUser in
  HasParticipant (mkGroup (mkJID "120363" serverGroup) "x" [u] [u] zero_time) u = true.
Proof.
  intros u.
  apply (Group_invariant (mkJID "120363" serverGroup) "x" [u] [u]
    (mkGroup (mkJID "120363" serverGroup) "x" [u] [] zero_time)); vm_compute; reflexivity.
Defined.

(** ** Labels, quote chains, contact references *)

Definition Label_wf (l : Label) : Prop :=
  lb_id l <> "" /\ lb_name l <> "" /\ (len (lb_name l) <= LabelNameMaxLen)%Z
  /\ (0 <= lb_colorIndex l < LabelPaletteSize)%Z.

Lemma NewLabel_wf id name c t l : NewLabel id name c t = Ok l -> Label_wf l.
Proof.
  unfold NewLabel. rewrite guard_ok. cbn zeta. rewrite !guard_ok.
  intros (H1%str_empty_false & H2%str_empty_false & H3%Z.ltb_ge & [H4 H5]%orb_false_iff & [= <-]).
  unfold Label_wf. cbn. bprop. repeat split; auto.
Qed.

Lemma Label_Rename_wf l name t : Label_wf l -> Label_wf (Label_Rename l name t).1.
Proof.
  intros (H1 & H2 & H3 & H4). unfold Label_Rename. cbn zeta.
  destruct (str_empty _) eqn:E1; [done|]. destruct (LabelNameMaxLen <? _)%Z eqn:E2; [done|].
  apply str_empty_false in E1. bprop. done.
Qed.

Lemma Label_Recolor_wf l c t : Label_wf l -> Label_wf (Label_Recolor l c t).1.
Proof.
  intros (H1 & H2 & H3 & H4). unfold Label_Recolor.
  destruct (_ || _) eqn:E; [done|]. bprop. unfold Label_wf. cbn. auto with lia.
Qed.

Lemma ValidateQuoteChain_depth {A} (c : list A) :
  ValidateQuoteChain c = Ok tt <-> (QuoteChain_Depth c <= QuoteChainMaxDepth)%Z.
Proof.
  unfold ValidateQuoteChain, QuoteChain_Depth.
  enough (H : forall d, (0 <= d <= 5)%Z ->
    quote_loop c d = Ok tt <-> (d + Z.of_nat (length c) <= QuoteChainMaxDepth)%Z)
    by (by apply H).
  induction c as [|x c IH]; intros d Hd; cbn [quote_loop length].
  - unfold QuoteChainMaxDepth. split; [lia|done].
  - rewrite guard_ok, Z.ltb_ge. unfold QuoteChainMaxDepth in *.
    destruct (decide (d + 1 <= 5)%Z); [rewrite IH by lia; lia|].
    split; [tauto|lia].
Qed.

(** The three constructors give their own kind on usable input. *)
Lemma ContactRef_kinds j p n :
  JID_IsZero j = false -> trim_space p <> "" -> trim_space n <> "" ->
  ContactRef_Kind (NewJIDRef j) = ContactRefJID
  /\ ContactRef_Kind (NewPhoneRef p) = ContactRefPhone
  /\ ContactRef_Kind (NewNameRef n) = ContactRefName.
Proof.
  intros Hj Hp%str_empty_false Hn%str_empty_false.
  unfold ContactRef_Kind; cbn [NewJIDRef NewPhoneRef NewNameRef cr_JID cr_Phone cr_Name].
  by rewrite Hj, Hp, Hn.
Qed.

Lemma ParsePrivacyKey_String k :
  (1 <= k <= 5)%Z -> ParsePrivacyKey (PrivacyKey_String k) = Ok k.
Proof. intros Hk. assert (k = 1 \/ k = 2 \/ k = 3 \/ k = 4 \/ k = 5)%Z as H by lia.
  by destruct_or! H; subst. Qed.
