(* ===== verification/Json.v ===== *)
(** * JSON values and the decoding of request parameters

    What the handlers use of [encoding/json]: a [json.RawMessage] is [None]
    when it is empty or not well-formed, and otherwise the parsed value, whose
    numbers keep their literal.  [json.Unmarshal] into a struct matches keys
    exactly or case-insensitively, applies members in order, ignores unknown
    keys and [null], and fails on a value of another type. *)
From S2P Require Import Prelude GoStd Errors.

#[local] Open Scope Z_scope.
#[local] Open Scope string_scope.

Inductive json :=
| JNull
| JBool (b : bool)
| JNum (literal : string)
| JStr (s : string)
| JArr (l : list json)
| JObj (m : list (string * json)).

Abbreviation RawMessage := (option json).

(** [foldName]: equality under Unicode simple folding, on the letters a
    struct's field name can hold (ASCII, U+017F for s and U+212A for k). *)
Fixpoint fold_name (s : string) : string :=
  match s with
  | EmptyString => EmptyString
  | String a s1 =>
    match s1 with
    | String b s2 =>
      if (bz a =? 197)%Z && (bz b =? 191)%Z then String "s" (fold_name s2)
      else match s2 with
           | String c s3 =>
             if (bz a =? 226)%Z && (bz b =? 132)%Z && (bz c =? 170)%Z
             then String "k" (fold_name s3)
             else String (if is_upper a then chr (bz a + 32)%Z else a) (fold_name s1)
           | EmptyString => String (if is_upper a then chr (bz a + 32)%Z else a) (fold_name s1)
           end
    | EmptyString => String (if is_upper a then chr (bz a + 32)%Z else a) EmptyString
    end
  end.

Definition key_matches (name k : string) : bool := fold_name k =? fold_name name.

(** One field of the struct: the members that match it, applied in order. *)
Definition field {A} (dec : A -> json -> option A) (zero : A) (name : string)
    (m : list (string * json)) : option A :=
  foldl (fun acc kv =>
           if key_matches name kv.1
           then match acc with Some a => dec a kv.2 | None => None end
           else acc) (Some zero) m.

Definition dec_str (old : string) (j : json) : option string :=
  match j with JStr s => Some s | JNull => Some old | _ => None end.
Definition dec_bool (old : bool) (j : json) : option bool :=
  match j with JBool b => Some b | JNull => Some old | _ => None end.
(** A [*string] field. *)
Definition dec_ptr (old : option string) (j : json) : option (option string) :=
  match j with JStr s => Some (Some s) | JNull => Some None | _ => None end.
Definition dec_strs (old : list string) (j : json) : option (list string) :=
  match j with
  | JArr l => mapM (fun x => dec_str "" x) l
  | JNull => Some []
  | _ => None
  end.

(** [strconv.ParseInt(lit, 10, 64)] on a JSON number literal. *)
Definition parse_int64 (lit : string) : option Z :=
  match lit with
  | EmptyString => None
  | String c rest =>
    let v := if Ascii.eqb c "-" then option_map Z.opp (if str_empty rest then None else digits_val 0 rest)
             else digits_val 0 lit in
    match v with
    | Some z => if (- 2 ^ 63 <=? z)%Z && (z <? 2 ^ 63)%Z then Some z else None
    | None => None
    end
  end.
Definition dec_int (old : Z) (j : json) : option Z :=
  match j with JNum lit => parse_int64 lit | JNull => Some old | _ => None end.
Definition dec_ints (old : list Z) (j : json) : option (list Z) :=
  match j with
  | JArr l => mapM (fun x => dec_int 0 x) l
  | JNull => Some []
  | _ => None
  end.

(** [[]byte]: standard base64 with padding; CR and LF are skipped. *)
Definition b64_val (c : ascii) : option Z :=
  if is_upper c then Some (bz c - 65)%Z
  else if is_lower c then Some (bz c - 71)%Z
  else if is_digit c then Some (bz c + 4)%Z
  else if Ascii.eqb c "+" then Some 62%Z
  else if Ascii.eqb c "/" then Some 63%Z
  else None.
Fixpoint b64_quads (s : string) : option string :=
  match s with
  | EmptyString => Some EmptyString
  | String a (String b (String c (String d r))) =>
    match b64_val a, b64_val b with
    | Some va, Some vb =>
      let x := chr (va * 4 + vb / 16)%Z in
      if Ascii.eqb c "=" then
        if Ascii.eqb d "=" && str_empty r then Some (String x "") else None
      else
        match b64_val c with
        | None => None
        | Some vc =>
          let y := chr ((vb mod 16) * 16 + vc / 4)%Z in
          if Ascii.eqb d "=" then if str_empty r then Some (String x (String y "")) else None
          else
            match b64_val d, b64_quads r with
            | Some vd, Some t => Some (String x (String y (String (chr ((vc mod 4) * 64 + vd)%Z) t)))
            | _, _ => None
            end
        end
    | _, _ => None
    end
  | _ => None
  end.
Definition b64_decode (s : string) : option string :=
  b64_quads (str_filter (fun c => negb ((bz c =? 10)%Z || (bz c =? 13)%Z)) s).
Definition dec_bytes (old : string) (j : json) : option string :=
  match j with JStr s => b64_decode s | JNull => Some "" | _ => None end.

(** [parseParams(raw, &p)] for a struct decoded by [dec] from its members. *)
Definition parseParams {P} (dec : list (string * json) -> option P) (raw : RawMessage) : result P :=
  match raw with
  | None => Err (ERpc app.ErrInvalidParams)
  | Some (JObj m) =>
    match dec m with Some p => Ok p | None => Err (ERpc app.ErrInvalidParams) end
  | Some JNull =>
    match dec [] with Some p => Ok p | None => Err (ERpc app.ErrInvalidParams) end
  | Some _ => Err (ERpc app.ErrInvalidParams)
  end.
