(* ===== verification/Idem.v ===== *)
(** * The idempotency sidecar

    [internal/app/idempotency.go] (canonical fingerprint, [IdempotencyExec]),
    [canonicaljson.go], [internal/adapters/secondary/memory/idempotency.go]
    and [sqlitehistory/idempotency.go].  The class [IdempotencyPort] is the
    contract the dispatcher relies on (FR-034a); the in-memory store and the
    SQLite table are its two instances.  A callback is a state transformer
    that may reach the store itself; payloads are of any type [R]. *)
From S2P Require Import Prelude GoStd Errors Limiter Values Json.

#[local] Open Scope Z_scope.

(** ** Canonical JSON *)

Definition reservedFields : list string := ["idempotencyKey"; "requestId"; "ts"; "timestamp"].
Definition is_reserved (k : string) : bool := existsb (String.eqb k) reservedFields.

(** [json.Marshal] of a string, with HTML escaping. *)
Definition hex4 (r : Z) : string :=
  let d n := String (hex_digit ((r / n) mod 16)) "" in
  ("\u" +:+ d 4096 +:+ d 256 +:+ d 16 +:+ d 1)%string.
Definition json_rune (rs : Z * string) : string :=
  let r := rs.1 in
  if r =? 34 then String "\" (String (chr 34) "")
  else if r =? 92 then "\\"
  else if r =? 8 then "\b" else if r =? 12 then "\f"
  else if r =? 10 then "\n" else if r =? 13 then "\r" else if r =? 9 then "\t"
  else if (r <? 32) || (r =? 60) || (r =? 62) || (r =? 38) then hex4 r
  else if (r =? rune_error) && (len rs.2 =? 1) then hex4 r
  else if (r =? 8232) || (r =? 8233) then hex4 r
  else rs.2.
Definition json_string (s : string) : string :=
  String (chr 34) (str_concat (map json_rune (segments s)) +:+ String (chr 34) "").

Definition comma_join (l : list string) : string :=
  match l with
  | [] => ""
  | x :: l => x +:+ str_concat (map (fun y => ("," +:+ y)%string) l)
  end.

(** The members of a [map[string]any]: the last duplicate wins. *)
Definition members {A} (m : list (string * A)) : gmap string A := list_to_map (reverse m).

Definition key_le (a b : string * string) : Prop := String.leb a.1 b.1 = true.
#[local] Instance key_le_dec : RelDecision key_le.
Proof. intros a b. unfold key_le. apply bool_eq_dec. Defined.

(** [sort.Strings(keys)] and the members in that order. *)
Definition sorted_members (m : gmap string string) : list (string * string) :=
  merge_sort key_le (map_to_list m).

Definition write_object (m : gmap string string) : string :=
  ("{" +:+ comma_join (map (fun kv => (json_string kv.1 +:+ ":" +:+ kv.2)%string) (sorted_members m))
   +:+ "}")%string.

Lemma members_perm {A} (l k : list (string * A)) :
  NoDup l.*1 -> l ≡ₚ k -> members l = members k.
Proof.
  intros Hnd Hp. unfold members. apply list_to_map_proper.
  - rewrite fmap_reverse, reverse_Permutation. exact Hnd.
  - rewrite (reverse_Permutation l), Hp. symmetry. apply reverse_Permutation.
Qed.

Lemma map_map_keys {A B} (f : A -> B) (l : list (string * A)) :
  (map (fun kv => (kv.1, f kv.2)) l).*1 = l.*1.
Proof. induction l as [|kv l IH]; cbn; [done|]. f_equal. exact IH. Qed.

Section Canonical.
  (** How [encoding/json] prints a number read as a float64, and SHA-256. *)
  Variable format_number : string -> string.
  Variable sha256 : string -> string.

Fixpoint marshalCanonical (v : json) : string :=
  match v with
  | JNull => "null"
  | JBool b => if b then "true" else "false"
  | JNum lit => format_number lit
  | JStr s => json_string s
  | JArr l => ("[" +:+ comma_join (map marshalCanonical l) +:+ "]")%string
  | JObj m => write_object (members (map (fun kv => (kv.1, marshalCanonical kv.2)) m))
  end.

(** The reserved fields are deleted at the top level only. *)
Definition stripReserved (v : json) : json :=
  match v with
  | JObj m => JObj (List.filter (fun kv => negb (is_reserved kv.1)) m)
  | _ => v
  end.

Definition canonicalJSON (v : json) : string := marshalCanonical (stripReserved v).

(** [paramsFingerprint] on well-formed params, and [ComputeFingerprint]. *)
Definition ComputeFingerprint (canonicalParams : string) : string := sha256 canonicalParams.
Definition CanonicalParamsHash (v : json) : string := ComputeFingerprint (canonicalJSON v).

(** The fingerprint sees the request, not its spelling: the order of the
    top-level members and any reserved field (idempotencyKey, requestId, ts,
    timestamp) the client adds leave it unchanged. *)
Theorem fingerprint_order_reserved (m m' : list (string * json)) (k : string) (v : json) :
  NoDup m.*1 -> m' ≡ₚ m -> is_reserved k = true ->
  CanonicalParamsHash (JObj ((k, v) :: m')) = CanonicalParamsHash (JObj m).
Proof.
  intros Hnd Hp Hk. unfold CanonicalParamsHash, canonicalJSON, stripReserved.
  cbn [List.filter fst]. rewrite Hk. cbn [negb marshalCanonical]. do 2 f_equal.
  symmetry. apply members_perm.
  - rewrite map_map_keys. by apply filter_keys_NoDup.
  - apply Permutation_map, filter_perm. by symmetry.
Qed.

End Canonical.

Lemma fingerprint_order_reserved_witness :
  CanonicalParamsHash id id
    (JObj [("ts", JNum "17"); ("to", JStr "a"); ("body", JStr "b")])
  = CanonicalParamsHash id id (JObj [("body", JStr "b"); ("to", JStr "a")]).
Proof.
  apply (fingerprint_order_reserved id id [("body", JStr "b"); ("to", JStr "a")]
    [("to", JStr "a"); ("body", JStr "b")] "ts" (JNum "17")).
  - apply NoDup_ListNoDup. repeat constructor; cbn; intuition discriminate.
  - apply perm_swap.
  - reflexivity.
Defined.

(** ** The FR-034a port *)

(** method, profile, key *)
Abbreviation row_key := (string * string * string)%type.

(** A stored row: params hash, payload, expiry in the unit of the store. *)
Record v4Row (R : Type) := mkV4Row { v4_hash : string; v4_result : R; v4_expires : Z }.
Arguments mkV4Row {R} _ _ _.
Arguments v4_hash {R} _.
Arguments v4_result {R} _.
Arguments v4_expires {R} _.

Definition ttl24h : Z := 24 * hour.

Definition collision_error : goerr := wrapd domain.ErrIdempotencyCollision "method=%s key=%s".

(** What the dispatcher needs of a store [I] of payloads [R].  The callback of
    a miss runs outside the lock and outside any transaction, so a call has
    two sections of its own: [ip_lookup] before the callback, which answers
    what is recorded, and [ip_record] after it. *)
Class IdempotencyPort (I R : Type) := {
  ip_row : I -> row_key -> option (v4Row R);
  ip_put : I -> row_key -> v4Row R -> I;
  ip_live : v4Row R -> time -> bool;
  ip_expiry : time -> Z;
  ip_lookup : time -> row_key -> string -> I -> option (result R);
  ip_record : time -> row_key -> string -> R -> I -> I;
  ip_sweep : I -> time -> I;
  ip_LoadOrStore : forall S, time -> string -> string -> string -> string ->
    (I * S -> result R * (I * S)) -> I * S -> result R * (I * S);
}.
Arguments ip_LoadOrStore {I R _ S} _ _ _ _ _ _ _.

(** The documented obligations of an implementation (ports_017.go). *)
Class IdempotencyLaw (I R : Type) `{IdempotencyPort I R} := {
  ip_put_row : forall i k r k', ip_row (ip_put i k r) k' = if decide (k = k') then Some r else ip_row i k';
  ip_ttl : forall h r t t', t' < t + ttl24h - second ->
    ip_live (mkV4Row h r (ip_expiry t)) t' = true;
  ip_lookup_spec : forall t k h i,
    ip_lookup t k h i
    = match ip_row i k with
      | Some row => if ip_live row t then Some (if (v4_hash row =? h)%string then Ok (v4_result row) else Err collision_error)
                    else None
      | None => None
      end;
  ip_record_spec : forall t k h r i, ip_record t k h r i = ip_put i k (mkV4Row h r (ip_expiry t));
  ip_sweep_row : forall i b k row, ip_row i k = Some row -> ip_live row b = true -> ip_row (ip_sweep i b) k = Some row;
  ip_sections : forall S t m p k h (run : I * S -> result R * (I * S)) s,
    ip_LoadOrStore t m p k h run s
    = if str_empty k then run s
      else match ip_lookup t (m, p, k) h s.1 with
           | Some v => (v, s)
           | None => match run s with
                     | (Err e, s') => (Err e, s')
                     | (Ok r, (i', s')) => (Ok r, (ip_record t (m, p, k) h r i', s'))
                     end
           end;
}.

Section Alone.
  Context {I R : Type} `{IdempotencyLaw I R}.

(** A call that nothing overlaps: a hit, and a miss. *)
Lemma ip_hit {S} t m p k h (run : I * S -> result R * (I * S)) s row :
  k <> ""%string -> ip_row s.1 (m, p, k) = Some row -> ip_live row t = true ->
  ip_LoadOrStore t m p k h run s
  = ((if (v4_hash row =? h)%string then Ok (v4_result row) else Err collision_error), s).
Proof. intros Hk%str_empty_false Hr Hl. by rewrite ip_sections, Hk, ip_lookup_spec, Hr, Hl. Qed.
Lemma ip_miss {S} t m p k h (run : I * S -> result R * (I * S)) s :
  k <> ""%string ->
  (forall row, ip_row s.1 (m, p, k) = Some row -> ip_live row t = false) ->
  ip_LoadOrStore t m p k h run s
  = match run s with
    | (Err e, s') => (Err e, s')
    | (Ok r, (i', s')) => (Ok r, (ip_put i' (m, p, k) (mkV4Row h r (ip_expiry t)), s'))
    end.
Proof.
  intros Hk%str_empty_false Hr. rewrite ip_sections, Hk, ip_lookup_spec.
  destruct (ip_row s.1 (m, p, k)) as [row|]; [rewrite (Hr row eq_refl)|];
    destruct (run s) as [[r|e] [i' s']]; by rewrite ?ip_record_spec.
Qed.
End Alone.

(** ** memory/idempotency.go *)

Record idempotencyRow (R : Type) := mkIdemRow {
  ir_fingerprint : string; ir_result : R; ir_expiresAt : time }.
Arguments mkIdemRow {R} _ _ _.
Arguments ir_fingerprint {R} _.
Arguments ir_result {R} _.
Arguments ir_expiresAt {R} _.

Record IdempotencyStore (R : Type) := mkIdemStore {
  is_rows : gmap (string * string) (idempotencyRow R);
  is_v4Rows : gmap row_key (v4Row R) }.
Arguments mkIdemStore {R} _ _.
Arguments is_rows {R} _.
Arguments is_v4Rows {R} _.

Section Memory.
  Context {R : Type}.

Definition NewIdempotencyStore : IdempotencyStore R := mkIdemStore ∅ ∅.

(** [key.Validate()] is [NewIdempotencyKey]'s test. *)
Definition IdempotencyKey_Validate (k : IdempotencyKey) : check goerr :=
  res_map (fun _ => tt) (NewIdempotencyKey (ik_Value k) (ik_Fingerprint k)).

Definition mem_Check (s : IdempotencyStore R) (profile : string) (key : IdempotencyKey)
    : result (option R) :=
  let* _ := IdempotencyKey_Validate key in
  match is_rows s !! (profile, ik_Value key) with
  | None => Ok None
  | Some row =>
    fail_if negb (ir_fingerprint row =? ik_Fingerprint key)%string
      with wrapd domain.ErrIdempotencyConflict "key=%s" ;;
    Ok (Some (ir_result row))
  end.

Definition mem_Record (s : IdempotencyStore R) (profile : string) (key : IdempotencyKey)
    (result : R) (expiresAt : time) : IdempotencyStore R * option goerr :=
  match IdempotencyKey_Validate key with
  | Err e => (s, Some e)
  | Ok _ => (mkIdemStore (<[(profile, ik_Value key) :=
               mkIdemRow (ik_Fingerprint key) result expiresAt]> (is_rows s)) (is_v4Rows s), None)
  end.

(** [Sweep]: rows of both tables that do not expire after [before]. *)
Definition mem_Sweep (s : IdempotencyStore R) (before : time) : IdempotencyStore R * Z :=
  let rows := filter (fun kv => after (ir_expiresAt kv.2) before = true) (is_rows s) in
  let v4 := filter (fun kv => after (v4_expires kv.2) before = true) (is_v4Rows s) in
  (mkIdemStore rows v4,
   Z.of_nat (size (is_rows s) - size rows) + Z.of_nat (size (is_v4Rows s) - size v4)).

(** The section under the first lock, and the one under the second. *)
Definition mem_lookup (now : time) (rowKey : row_key) (paramsHash : string) (i : IdempotencyStore R) : option (result R) :=
  match is_v4Rows i !! rowKey with
  | Some row =>
      if after (v4_expires row) now then
        if negb (v4_hash row =? paramsHash)%string then Some (Err collision_error)
        else Some (Ok (v4_result row))
      else None
  | None => None
  end.
Definition mem_store (now : time) (rowKey : row_key) (paramsHash : string) (r : R) (i : IdempotencyStore R) : IdempotencyStore R :=
  mkIdemStore (is_rows i) (<[rowKey := mkV4Row paramsHash r (now + ttl24h)]> (is_v4Rows i)).

(** The whole call, when nothing runs between its sections. *)
Definition mem_LoadOrStore {S} (now : time) (method profile key paramsHash : string)
    (execute : IdempotencyStore R * S -> result R * (IdempotencyStore R * S))
    (st : IdempotencyStore R * S) : result R * (IdempotencyStore R * S) :=
  if str_empty key then execute st
  else
    let rowKey := (method, profile, key) in
    match mem_lookup now rowKey paramsHash st.1 with
    | Some v => (v, st)
    | None =>
      match execute st with
      | (Err e, st') => (Err e, st')
      | (Ok r, (i, s)) => (Ok r, (mem_store now rowKey paramsHash r i, s))
      end
    end.

End Memory.

(** ** sqlitehistory/idempotency.go

    The table [idempotency_keys]; [lookup_err] and [ins_err] are the errors of
    the two statements. *)
Record SidecarTable (R : Type) := mkSidecar { sc_keys : gmap row_key (v4Row R) }.
Arguments mkSidecar {R} _.
Arguments sc_keys {R} _.

(** The SELECT, [WHERE ... AND expires_at > ?], and the INSERT. *)
Definition sc_lookup {R} (now : time) (rowKey : row_key) (paramsHash : string) (t : SidecarTable R) : option (result R) :=
  match sc_keys t !! rowKey with
  | Some row =>
      if unix now <? v4_expires row then
        if negb (v4_hash row =? paramsHash)%string then Some (Err collision_error)
        else Some (Ok (v4_result row))
      else None
  | None => None
  end.
Definition sc_insert {R} (now : time) (rowKey : row_key) (paramsHash : string) (r : R) (t : SidecarTable R) : SidecarTable R :=
  mkSidecar (<[rowKey := mkV4Row paramsHash r (unix (now + ttl24h))]> (sc_keys t)).

(** The whole call, when nothing runs between its statements. *)
Definition sc_LoadOrStore {R S} (lookup_err ins_err : option goerr)
    (now : time) (method profile key paramsHash : string)
    (execute : SidecarTable R * S -> result R * (SidecarTable R * S))
    (st : SidecarTable R * S) : result R * (SidecarTable R * S) :=
  if str_empty key then execute st
  else
    let rowKey := (method, profile, key) in
    match lookup_err with
    | Some e => (Err (wrapc "sqlitehistory: idempotency lookup" e), st)
    | None =>
      match sc_lookup now rowKey paramsHash st.1 with
      | Some v => (v, st)
      | None =>
        match execute st with
        | (Err e, st') => (Err e, st')
        | (Ok r, (i, s)) =>
          match ins_err with
          | Some e => (Err (wrapc "sqlitehistory: idempotency record" e), (i, s))
          | None => (Ok r, (sc_insert now rowKey paramsHash r i, s))
          end
        end
      end
    end.

Definition sc_Sweep {R} (t : SidecarTable R) (before : time) : SidecarTable R * Z :=
  let keys := filter (fun kv => (unix before <? v4_expires kv.2) = true) (sc_keys t) in
  (mkSidecar keys, Z.of_nat (size (sc_keys t) - size keys)).

#[global] Instance mem_port {R} : IdempotencyPort (IdempotencyStore R) R := {
  ip_row i k := is_v4Rows i !! k;
  ip_put i k r := mkIdemStore (is_rows i) (<[k := r]> (is_v4Rows i));
  ip_live row t := after (v4_expires row) t;
  ip_expiry t := t + ttl24h;
  ip_lookup := mem_lookup;
  ip_record := mem_store;
  ip_sweep i b := (mem_Sweep i b).1;
  ip_LoadOrStore S := @mem_LoadOrStore R S;
}.

#[global] Instance sc_port {R} : IdempotencyPort (SidecarTable R) R := {
  ip_row i k := sc_keys i !! k;
  ip_put i k r := mkSidecar (<[k := r]> (sc_keys i));
  ip_live row t := unix t <? v4_expires row;
  ip_expiry t := unix (t + ttl24h);
  ip_lookup := sc_lookup;
  ip_record := sc_insert;
  ip_sweep t b := (sc_Sweep t b).1;
  ip_LoadOrStore S := @sc_LoadOrStore R S None None;
}.

#[global] Instance mem_law {R} : IdempotencyLaw (IdempotencyStore R) R.
Proof.
  constructor.
  - intros i k r k'. cbn. destruct (decide (k = k')) as [->|];
      [by rewrite lookup_insert_eq|by rewrite lookup_insert_ne].
  - intros h r t t' H2. cbn. unfold after, second in *. apply Z.ltb_lt. lia.
  - intros t k h i. cbn. unfold mem_lookup. destruct (is_v4Rows i !! k) as [row|]; [|done].
    destruct (after _ _); [|done]. by destruct (_ =? _)%string.
  - done.
  - intros i b k row Hr Hl. cbn in *. apply map_lookup_filter_Some. done.
  - done.
Qed.

#[global] Instance sc_law {R} : IdempotencyLaw (SidecarTable R) R.
Proof.
  constructor.
  - intros i k r k'. cbn. destruct (decide (k = k')) as [->|];
      [by rewrite lookup_insert_eq|by rewrite lookup_insert_ne].
  - intros h r t t' H2. cbn. unfold unix, second in *. apply Z.ltb_lt.
    pose proof (Z.div_le_mono (t' + 1000000000) (t + ttl24h) 1000000000 ltac:(lia) ltac:(lia)) as Hd.
    rewrite <- (Z.mul_1_l 1000000000) in Hd at 1. rewrite Z.div_add in Hd by lia. lia.
  - intros t k h i. cbn. unfold sc_lookup. destruct (sc_keys i !! k) as [row|]; [|done].
    destruct (_ <? _); [|done]. by destruct (_ =? _)%string.
  - done.
  - intros i b k row Hr Hl. cbn in *. apply map_lookup_filter_Some. done.
  - done.
Qed.

(** ** At most once, with calls that overlap *)

Section Client.
  Context {I R : Type} `{IdempotencyLaw I R} {S : Type}.

(** A request as the dispatcher makes it: its callback works on the rest of
    the daemon's state and does not write the sidecar. *)
Record call := mkCall {
  c_time : time; c_method : string; c_profile : string; c_key : string; c_hash : string;
  c_run : S -> result R * S }.
Definition key_of (c : call) : row_key := (c_method c, c_profile c, c_key c).

Definition lift_run (run : S -> result R * S) (st : I * S) : result R * (I * S) :=
  let '(r, s) := run st.2 in (r, (st.1, s)).

Definition do_call (st : I * S) (c : call) : result R * (I * S) :=
  ip_LoadOrStore (c_time c) (c_method c) (c_profile c) (c_key c) (c_hash c)
    (lift_run (c_run c)) st.

(** The daemon between two sections: the store, the rest, and the calls that
    missed, each with the result of its callback once that ran. *)
Record daemon := mkDaemon { da_store : I; da_rest : S; da_flight : list (call * option R) }.

(** What happens: a call is answered from the store, misses, runs its
    callback, is recorded and answered, or is answered the error of a failing
    statement; rows are swept. *)
Inductive moment :=
| Hit (c : call) (v : result R)
| Missed (c : call)
| Ran (c : call) (v : result R)
| Recorded (c : call) (r : R)
| Failed (c : call) (e : goerr)
| Swept (b : time).

Inductive da_step : daemon -> moment -> daemon -> Prop :=
| da_hit i s fl c v : c_key c <> ""%string -> ip_lookup (c_time c) (key_of c) (c_hash c) i = Some v ->
    da_step (mkDaemon i s fl) (Hit c v) (mkDaemon i s fl)
| da_miss i s fl c : c_key c <> ""%string -> ip_lookup (c_time c) (key_of c) (c_hash c) i = None ->
    da_step (mkDaemon i s fl) (Missed c) (mkDaemon i s (fl ++ [(c, None)]))
| da_keyless i s fl c v s' : c_key c = ""%string -> c_run c s = (v, s') ->
    da_step (mkDaemon i s fl) (Ran c v) (mkDaemon i s' fl)
| da_run i s f1 f2 c r s' : c_run c s = (Ok r, s') ->
    da_step (mkDaemon i s (f1 ++ (c, None) :: f2)) (Ran c (Ok r)) (mkDaemon i s' (f1 ++ (c, Some r) :: f2))
| da_run_err i s f1 f2 c e s' : c_run c s = (Err e, s') ->
    da_step (mkDaemon i s (f1 ++ (c, None) :: f2)) (Ran c (Err e)) (mkDaemon i s' (f1 ++ f2))
| da_record i s f1 f2 c r :
    da_step (mkDaemon i s (f1 ++ (c, Some r) :: f2)) (Recorded c r)
            (mkDaemon (ip_record (c_time c) (key_of c) (c_hash c) r i) s (f1 ++ f2))
| da_no_lookup i s fl c e : da_step (mkDaemon i s fl) (Failed c e) (mkDaemon i s fl)
| da_no_record i s f1 f2 c r e : da_step (mkDaemon i s (f1 ++ (c, Some r) :: f2)) (Failed c e) (mkDaemon i s (f1 ++ f2))
| da_sweep i s fl b : da_step (mkDaemon i s fl) (Swept b) (mkDaemon (ip_sweep i b) s fl).

Inductive da_run_all : daemon -> list moment -> daemon -> Prop :=
| da_none d : da_run_all d [] d
| da_more d1 m d2 ms d3 : da_step d1 m d2 -> da_run_all d2 ms d3 -> da_run_all d1 (m :: ms) d3.

(** A call that nothing overlaps takes the same sections in a row. *)
Lemma call_alone (c : call) i s : c_key c <> ""%string ->
  exists ms, da_run_all (mkDaemon i s []) ms (mkDaemon (do_call (i, s) c).2.1 (do_call (i, s) c).2.2 []).
Proof.
  intros Hk. unfold do_call. rewrite ip_sections. rewrite (proj2 (str_empty_false _) Hk).
  destruct (ip_lookup _ _ _ _) as [v|] eqn:E; cbn in E |- *.
  { exists [Hit c v]. econstructor; [by apply da_hit|constructor]. }
  unfold lift_run. cbn. destruct (c_run c s) as [[r|e] s'] eqn:Er; cbn.
  - exists [Missed c; Ran c (Ok r); Recorded c r].
    econstructor; [by apply da_miss|]. econstructor; [by apply (da_run i s [] [])|].
    econstructor; [apply (da_record i s' [] [])|constructor].
  - exists [Missed c; Ran c (Err e)].
    econstructor; [by apply da_miss|]. econstructor; [by apply (da_run_err i s [] [])|constructor].
Qed.

(** The clock of a day: from [t0] on, less the second that SQLite rounds. *)
Definition in_day (t0 t : time) : Prop := t0 <= t < t0 + ttl24h - second.
Definition moment_in_day (t0 : time) (m : moment) : Prop :=
  match m with
  | Hit c _ | Missed c => in_day t0 (c_time c)
  | Swept b => in_day t0 b
  | _ => True
  end.

(** A row of the key that stays live all day. *)
Definition recorded (t0 : time) (k : row_key) (i : I) : Prop :=
  exists h r t, ip_row i k = Some (mkV4Row h r (ip_expiry t)) /\ t0 <= t.
(** The calls of the key that missed, and those of them that still wait. *)
Definition flying (k : row_key) (d : daemon) (c : call) : Prop := key_of c = k /\ exists o, (c, o) ∈ da_flight d.
Definition waiting (k : row_key) (d : daemon) (c : call) : Prop := key_of c = k /\ (c, None) ∈ da_flight d.

Lemma recorded_live t0 k i t : recorded t0 k i -> in_day t0 t ->
  exists row, ip_row i k = Some row /\ ip_live row t = true.
Proof.
  intros (h & r & u & Hr & Hu) Ht. exists (mkV4Row h r (ip_expiry u)). split; [done|].
  apply ip_ttl. unfold in_day in Ht. lia.
Qed.

(** One step of a day on which the key has a row. *)
Lemma da_step_recorded t0 k d m d' : k.2 <> ""%string -> recorded t0 k (da_store d) ->
  (forall c, flying k d c -> t0 <= c_time c) -> moment_in_day t0 m -> da_step d m d' ->
  recorded t0 k (da_store d')
  /\ (forall c, flying k d' c -> flying k d c) /\ (forall c, waiting k d' c -> waiting k d c)
  /\ (forall c v, m = Ran c v -> key_of c = k -> waiting k d c)
  /\ ((forall c, ~ flying k d c) -> ip_row (da_store d') k = ip_row (da_store d) k).
Proof.
  intros Hk Hrec Hfl Hm Hst. destruct Hst; cbn [da_store da_rest da_flight] in *; unfold flying, waiting in *; cbn [da_flight] in *.
  - naive_solver.
  - cbn in Hm. assert (key_of c <> k).
    { intros <-. destruct (recorded_live _ _ _ _ Hrec Hm) as (row & Hr & Hl).
      match goal with E : ip_lookup _ _ _ _ = None |- _ => by rewrite ip_lookup_spec, Hr, Hl in E end. }
    setoid_rewrite elem_of_app. setoid_rewrite list_elem_of_singleton. naive_solver.
  - assert (key_of c <> k) by (intros <-; by apply Hk). naive_solver.
  - setoid_rewrite elem_of_app. setoid_rewrite elem_of_cons. setoid_rewrite elem_of_app in Hfl. setoid_rewrite elem_of_cons in Hfl.
    split; [done|]. split; [naive_solver|]. split; [naive_solver|]. split; [naive_solver|done].
  - setoid_rewrite elem_of_app. setoid_rewrite elem_of_cons. naive_solver.
  - setoid_rewrite elem_of_app in Hfl. setoid_rewrite elem_of_cons in Hfl.
    rewrite ip_record_spec. unfold recorded in *. setoid_rewrite ip_put_row.
    setoid_rewrite elem_of_app. setoid_rewrite elem_of_cons.
    split; [|split; [naive_solver|split; [naive_solver|split; [naive_solver|]]]].
    + destruct (decide (key_of c = k)) as [<-|]; [|done]. exists (c_hash c), r, (c_time c). split; [done|]. apply Hfl. eauto.
    + intros Hno. rewrite decide_False; [done|]. intros E. apply (Hno c). eauto.
  - naive_solver.
  - setoid_rewrite elem_of_app. setoid_rewrite elem_of_cons. naive_solver.
  - destruct (recorded_live _ _ _ _ Hrec Hm) as (row & Hr & Hl).
    assert (E : ip_row (ip_sweep i b) k = ip_row i k) by (rewrite (ip_sweep_row _ _ _ _ Hr Hl); done).
    unfold recorded in *. rewrite E. naive_solver.
Qed.

Lemma da_run_recorded t0 k ms : k.2 <> ""%string -> Forall (moment_in_day t0) ms -> forall d d', recorded t0 k (da_store d) ->
  (forall c, flying k d c -> t0 <= c_time c) -> da_run_all d ms d' ->
  (forall c v, Ran c v ∈ ms -> key_of c = k -> waiting k d c)
  /\ ((forall c, ~ flying k d c) -> ip_row (da_store d') k = ip_row (da_store d) k
      /\ forall c v, Hit c v ∈ ms -> key_of c = k -> ip_lookup (c_time c) k (c_hash c) (da_store d) = Some v).
Proof.
  intros Hk Hms. induction Hms as [|m ms Hm Hms IH]; intros d d' Hrec Hfl Hrun; inversion Hrun as [|? ? d2 ? ? Hst Hrest]; subst.
  { split; [set_solver|]. split; [done|set_solver]. }
  destruct (da_step_recorded t0 k d m d2 Hk Hrec Hfl Hm Hst) as (Hrec2 & Hf2 & Hw2 & Hran & Hrow).
  destruct (IH d2 d' Hrec2 (fun c Hc => Hfl c (Hf2 c Hc)) Hrest) as [IH1 IH2]. split.
  - intros c v [E|Hin]%elem_of_cons Hc; [by apply (Hran c v)|]. by apply Hw2, (IH1 c v).
  - intros Hno. destruct (IH2 (fun c Hc => Hno c (Hf2 c Hc))) as [IHr IHh]. rewrite IHr, (Hrow Hno). split; [done|].
    intros c v [<-|Hin]%elem_of_cons Hc.
    + inversion Hst; subst. cbn. done.
    + specialize (IHh c v Hin Hc). rewrite ip_lookup_spec in *. by rewrite (Hrow Hno) in IHh.
Qed.


(** Failures are not cached: the sidecar is left as it was. *)
Lemma failure_not_cached (c : call) (i : I) (s s1 : S) (e : goerr) :
  c_key c <> ""%string ->
  (forall row, ip_row i (key_of c) = Some row -> ip_live row (c_time c) = false) ->
  c_run c s = (Err e, s1) -> do_call (i, s) c = (Err e, (i, s1)).
Proof.
  intros Hk Hm Hrun. unfold do_call. rewrite ip_miss; [|done|exact Hm]. unfold lift_run. cbn.
  by rewrite Hrun.
Qed.

End Client.
Arguments mkCall {R S} _ _ _ _ _ _.

(** A send that is recorded, and its retry. *)
Definition demo_keyed (t : time) : @call string nat := mkCall t "send" "default" "k1" "h" (fun n => (Ok "sent"%string, Datatypes.S n)).

(** Two requests of one key that overlap both run: the second one looks up
    before the first one is recorded. *)
Lemma overlapping_calls_run_twice : exists ms (d' : @daemon (SidecarTable string) string nat),
  da_run_all (mkDaemon (mkSidecar ∅) 0%nat []) ms d' /\ da_rest d' = 2%nat
  /\ Ran (demo_keyed 0) (Ok "sent"%string) ∈ ms /\ Ran (demo_keyed second) (Ok "sent"%string) ∈ ms.
Proof.
  exists [Missed (demo_keyed 0); Missed (demo_keyed second); Ran (demo_keyed 0) (Ok "sent"%string); Ran (demo_keyed second) (Ok "sent"%string)].
  eexists. split; [|split; [|set_solver]].
  - econstructor; [apply da_miss; [discriminate|reflexivity]|]. econstructor; [apply da_miss; [discriminate|reflexivity]|].
    econstructor; [apply (da_run _ _ [] [(demo_keyed second, None)]); reflexivity|].
    econstructor; [apply (da_run _ _ [(demo_keyed 0, Some "sent"%string)] []); reflexivity|]. constructor.
  - reflexivity.
Qed.

(** When the INSERT itself fails the side effect has happened but the caller
    gets an error and no row: the same retry runs it again. *)
Lemma sc_record_failure_reexecutes {R S} (t : SidecarTable R) (s : S) now m p k h e r run s1 :
  k <> ""%string -> sc_keys t !! (m, p, k) = None -> run (t, s) = (Ok r, (t, s1)) ->
  sc_LoadOrStore None (Some e) now m p k h run (t, s)
  = (Err (wrapc "sqlitehistory: idempotency record" e), (t, s1)).
Proof.
  intros Hk%str_empty_false Hn Hr. unfold sc_LoadOrStore, sc_lookup. cbn zeta.
  rewrite Hk. cbn. by rewrite Hn, Hr.
Qed.

(** Sweeping never evicts a live row: what a sweep at [b] removes is dead at
    every later time. *)
Lemma sc_Sweep_keeps_live {R} (t : SidecarTable R) b b' k row :
  b <= b' -> sc_keys t !! k = Some row -> ip_live row b' = true ->
  sc_keys (sc_Sweep t b).1 !! k = Some row.
Proof.
  intros Hb Hr Hl. cbn in *. apply map_lookup_filter_Some. split; [done|]. cbn.
  apply Z.ltb_lt in Hl. apply Z.ltb_lt. unfold unix in *.
  pose proof (Z.div_le_mono b b' second ltac:(unfold second; lia) Hb). lia.
Qed.

(** ** IdempotencyExec (feature 017) *)

Section Exec.
  Context {S T R : Type}.
  (** The JSON codec of the result type. *)
  Variable encode : T -> result R.
  Variable decode : R -> result T.
  Variable format_number : string -> string.
  Variable sha256 : string -> string.

Definition IdempotencyExec (profile keyValue : string) (params : json) (now : time)
    (fn : S -> result T * S) (st : IdempotencyStore R * S)
    : result (T * bool) * (IdempotencyStore R * S) :=
  let canonical := canonicalJSON format_number params in
  let fp := ComputeFingerprint sha256 canonical in
  match NewIdempotencyKey keyValue fp with
  | Err e => (Err e, st)
  | Ok key =>
    match mem_Check st.1 profile key with
    | Err e => (Err e, st)
    | Ok (Some cached) =>
      match decode cached with
      | Err e => (Err (wrapc "idempotency: decode cached result" e), st)
      | Ok v => (Ok (v, true), st)
      end
    | Ok None =>
      let '(r, s') := fn st.2 in
      match r with
      | Err e => (Err e, (st.1, s'))
      | Ok v =>
        match encode v with
        | Err e => (Err (wrapc "idempotency: encode result" e), (st.1, s'))
        | Ok buf =>
          let expires := now + IdempotencyKeyTTL * second in
          let '(i, err) := mem_Record st.1 profile key buf expires in
          match err with
          | Some e => if is_dom domain.ErrIdempotencyConflict e then (Err e, (i, s'))
                      else (Err (wrapc "idempotency: record result" e), (i, s'))
          | None => (Ok (v, false), (i, s'))
          end
        end
      end
    end
  end.

(** The feature-017 wrapper replays: after a first execution under a key,
    a second one with the same canonical parameters returns the same value
    flagged as replayed without running its callback, and one with other
    parameters fails with ErrIdempotencyConflict. *)
Theorem IdempotencyExec_replay profile keyValue params params' now now' fn fn'
    (i i' : IdempotencyStore R) (s s' s'' : S) (v : T) (b : R) :
  encode v = Ok b -> decode b = Ok v ->
  IdempotencyExec profile keyValue params now fn (i, s) = (Ok (v, false), (i', s')) ->
  (canonicalJSON format_number params' = canonicalJSON format_number params ->
   IdempotencyExec profile keyValue params' now' fn' (i', s'') = (Ok (v, true), (i', s'')))
  /\ (sha256 (canonicalJSON format_number params') <> zero_sha ->
      sha256 (canonicalJSON format_number params') <> sha256 (canonicalJSON format_number params) ->
      exists e, IdempotencyExec profile keyValue params' now' fn' (i', s'') = (Err e, (i', s''))
        /\ is_dom domain.ErrIdempotencyConflict e = true).
Proof.
  intros Henc Hdec. unfold IdempotencyExec, ComputeFingerprint. cbn zeta.
  unfold NewIdempotencyKey, mem_Check, mem_Record, IdempotencyKey_Validate, NewIdempotencyKey.
  destruct (idempotencyKeyRe keyValue) eqn:Hre; cbn [negb guard]; [|done].
  destruct (sha256 (canonicalJSON format_number params) =? zero_sha)%string eqn:Hz;
    cbn [guard]; [done|].
  cbn [ik_Value ik_Fingerprint fst snd]. rewrite Hre, Hz. cbn [negb guard res_map res_bind].
  destruct (is_rows i !! (profile, keyValue)) as [row|] eqn:Hrow; cbn [negb guard].
  { intros H. exfalso. revert H. destruct (negb _); cbn; [done|].
    by destruct (decode (ir_result row)). }
  destruct (fn s) as [[v0|] s0]; [|done].
  destruct (encode v0) as [b0|] eqn:E0; [|done]. intros [= <- <- <-].
  rewrite Henc in E0. injection E0 as <-. split.
  - intros ->. rewrite Hz. cbn [guard fst snd ik_Value ik_Fingerprint].
    rewrite Hre, Hz. cbn [negb guard res_map res_bind is_rows].
    rewrite lookup_insert_eq. cbn [ir_fingerprint ir_result].
    rewrite String.eqb_refl. cbn [negb guard]. by rewrite Hdec.
  - intros Hz'%String.eqb_neq Hne. rewrite Hz'. cbn [guard fst snd ik_Value ik_Fingerprint].
    rewrite Hre, Hz'. cbn [negb guard res_map res_bind is_rows].
    rewrite lookup_insert_eq. cbn [ir_fingerprint ir_result].
    apply not_eq_sym, String.eqb_neq in Hne. rewrite Hne. cbn [negb guard].
    eexists. split; reflexivity.
Qed.
End Exec.

Lemma IdempotencyExec_replay_witness :
  exists i', IdempotencyExec (S:=nat) (T:=string) (R:=string) Ok Ok id (fun _ => "f"%string)
      "default" "k1" (JObj []) 0 (fun n => (Ok "r"%string, Datatypes.S n))
      (NewIdempotencyStore, 0%nat) = (Ok ("r"%string, false), (i', 1%nat))
    /\ IdempotencyExec (S:=nat) (T:=string) (R:=string) Ok Ok id (fun _ => "f"%string)
      "default" "k1" (JObj []) 0 (fun n => (Ok "r"%string, Datatypes.S n))
      (i', 1%nat) = (Ok ("r"%string, true), (i', 1%nat)).
Proof.
  eexists. split; [reflexivity|].
  match goal with |- IdempotencyExec _ _ _ _ _ _ _ _ _ (?i, _) = _ =>
    destruct (IdempotencyExec_replay (S:=nat) (T:=string) (R:=string) Ok Ok id
      (fun _ => "f"%string) "default" "k1" (JObj []) (JObj []) 0 0
      (fun n => (Ok "r"%string, Datatypes.S n)) (fun n => (Ok "r"%string, Datatypes.S n))
      NewIdempotencyStore i 0%nat 1%nat 1%nat "r" "r" eq_refl eq_refl eq_refl) as [HR _]
  end.
  apply HR. reflexivity.
Defined.
