(* ===== verification/Ports.v ===== *)
(** * The dispatcher's ports, its state and its effect trace

    The secondary ports of [internal/app/ports*.go] are outside the daemon's
    own logic (they talk to WhatsApp and to disk): the class [Ports] gives
    them as functions of an abstract world [W].  A handler runs in a state
    monad over the safety pipeline, the world and the trace of everything it
    made happen: outbound operations, upstream queries and audit records.
    [triple] is the program logic the handlers' theorems are proved in. *)
From S2P Require Import Prelude GoStd Errors Jid Policy Limiter Message Values Json Idem.

#[local] Open Scope Z_scope.

(** ** Ports *)

(** The optional ports and the optional interfaces of the sender. *)
Inductive port :=
| PReply | PForward | PStar | PDisappearing | PBlocker | PModerator | PChatState
| PPresence | PPrivacy | PProfile | PSessionTerm | PGroupAdmin | PPolls
| POnWhatsApp | PQuoted | PIdentity | PLatest | PIdempotency.

(** The outbound operations. *)
Inductive outop :=
| OSend (m : Message)
| OReply (quoted : string) (m : TextMessage)
| OForward (to src : JID) (id : string)
| OStar (chat : JID) (id : string) (starred : bool)
| ODisappearing (chat : JID) (seconds : Z)
| OPresence (chat : JID) (state : string) (duration : Z)
| ORevoke (chat : JID) (id : string) (scope : Z)
| OEdit (chat : JID) (id body : string)
| OArchive (chat : JID) (archived : bool)
| OMute (chat : JID) (until : option time)
| OPin (chat : JID) (pinned : bool)
| OMarkUnread (chat : JID)
| OMarkRead (chat : JID) (id : string)
| OMarkPlayed (chat : JID) (id : string)
| OBlock (j : JID)
| OUnblock (j : JID)
| OPrivacySet (key value : Z)
| OSetName (name : string)
| OSetStatus (status : string)
| OLogoutAll
| OLogout
| OGroupCreate (subject : string) (participants : list JID)
| OGroupLeave (g : JID)
| OGroupAdd (g : JID) (jids : list JID)
| OGroupRemove (g : JID) (jids : list JID)
| OGroupPromote (g : JID) (jids : list JID)
| OGroupDemote (g : JID) (jids : list JID)
| OGroupEdit (g : JID) (patch : GroupPatch)
| OInviteRevoke (g : JID)
| OInviteJoin (url : string)
| OPollCreate (chat : JID) (question : string) (options : list string) (selectable : Z)
| OPollVote (chat : JID) (poll : string) (selected : list Z).

Definition reply_of (o : outop) : Type :=
  match o with
  | OSend _ | OReply _ _ | OForward _ _ _ | OPollCreate _ _ _ _ => string
  | OGroupCreate _ _ | OInviteJoin _ => Group
  | OInviteRevoke _ => GroupInviteLink
  | _ => unit
  end.

(** The upstream and store reads. *)
Inductive query :=
| QOnWhatsApp (phone : string)
| QListBlocked
| QRawProto (chat : JID) (id : string)
| QResolveLID (pn : JID)
| QResolvePN (lid : JID)
| QLatestIncoming (chat : JID)
| QInviteGet (g : JID)
| QPrivacyGet
| QAvatar (j : JID) (size : Z).

Definition answer_of (q : query) : Type :=
  match q with
  | QOnWhatsApp _ => JID * bool
  | QListBlocked => list JID
  | QRawProto _ _ | QAvatar _ _ => string
  | QResolveLID _ | QResolvePN _ => JID
  | QLatestIncoming _ => option string
  | QInviteGet _ => GroupInviteLink
  | QPrivacyGet => list (Z * Z)
  end.

Class Ports (W : Type) := {
  wired : port -> bool;
  perform : forall o : outop, W -> result (reply_of o) * W;
  ask : forall q : query, W -> result (answer_of q) * W;
  audit_Record : AuditEvent -> W -> check goerr * W;
  clock : W -> time;                        (* time.Now() *)
  wait : Z -> W -> check goerr * W;         (* the timer, or ctx.Err() *)
  jitter : Z -> W -> Z;                     (* math/rand around a duration *)
}.

Inductive event :=
| EvOut (o : outop)
| EvAsk (q : query)
| EvAudit (e : AuditEvent).

(** ** The monad *)

Section Monad.
  Context {B A W : Type} `{RateBucket B, AllowlistPort A, Ports W}.

Record St := mkSt {
  st_safety : SafetyPipeline B A; st_world : W; st_trace : list event }.

Definition M (X : Type) : Type := St -> result X * St.

Definition mret {X} (x : X) : M X := fun st => (Ok x, st).
Definition mfail {X} (e : goerr) : M X := fun st => (Err e, st).
Definition mbind {X Y} (m : M X) (k : X -> M Y) : M Y :=
  fun st => let '(r, st) := m st in
            match r with Ok x => k x st | Err e => (Err e, st) end.
Definition mguard {X} (b : bool) (e : goerr) (k : M X) : M X := if b then mfail e else k.
Definition lift {X} (r : result X) : M X := fun st => (r, st).
(** Run a call and hand its error to the code that inspects it. *)
Definition mtry {X} (m : M X) : M (result X) :=
  fun st => let '(r, st) := m st in (Ok r, st).

Definition do_op (o : outop) : M (reply_of o) :=
  fun st => let '(r, w) := perform o (st_world st) in
            (r, mkSt (st_safety st) w (st_trace st ++ [EvOut o])).
Definition do_ask (q : query) : M (answer_of q) :=
  fun st => let '(r, w) := ask q (st_world st) in
            (r, mkSt (st_safety st) w (st_trace st ++ [EvAsk q])).
(** An audit write failure is logged and does not fail the request. *)
Definition do_audit (mk : time -> AuditEvent) : M unit :=
  fun st => let e := mk (clock (st_world st)) in
            let '(_, w) := audit_Record e (st_world st) in
            (Ok tt, mkSt (st_safety st) w (st_trace st ++ [EvAudit e])).
Definition do_wait (d : Z) : M unit :=
  fun st => let '(r, w) := wait d (st_world st) in
            (r, mkSt (st_safety st) w (st_trace st)).
Definition now : M time := fun st => (Ok (clock (st_world st)), st).
Definition get_jitter (d : Z) : M Z := fun st => (Ok (jitter d (st_world st)), st).
Definition safety_check (j : JID) (action : Z) : M (check goerr) :=
  fun st => let '(r, sp) := Check_ (clock (st_world st)) (st_safety st) j action in
            (Ok r, mkSt sp (st_world st) (st_trace st)).

End Monad.
Arguments St : clear implicits.
Arguments M : clear implicits.

Notation "'let!' x ':=' m 'in' k" := (mbind m (fun x => k))
  (at level 10, x pattern, m at level 100, k at level 200) : wa_scope.
Notation "'fail!' b 'with' e ';;' k" := (mguard b e k)
  (at level 10, b at level 99, e at level 99, k at level 200) : wa_scope.

(** ** The program logic *)

(** The messages and polls that cannot be recalled. *)
Definition is_message (e : event) : bool :=
  match e with
  | EvOut (OSend _ | OReply _ _ | OForward _ _ _ | OPollCreate _ _ _ _) => true
  | _ => false
  end.
Definition sends (evs : list event) : nat := length (List.filter is_message evs).

Lemma sends_app a b : sends (a ++ b) = (sends a + sends b)%nat.
Proof. unfold sends. by rewrite List.filter_app, length_app. Qed.

Section Logic.
  Context {B A W : Type} `{RateBucket B, AllowlistPort A, Ports W}.
  (** What an event must satisfy, given the allowlist in force. *)
  Variable ok : A -> event -> Prop.

(** From any state with allowlist [al], [m] keeps the allowlist, appends to
    the trace only events that satisfy [ok al], of which at most [n] are
    messages, and a value it returns satisfies [Q]. *)
Definition triple {X} (al : A) (n : nat) (m : M B A W X) (Q : X -> Prop) : Prop :=
  forall st, sp_allowlist (st_safety st) = al ->
  exists evs,
    sp_allowlist (st_safety (m st).2) = al
    /\ st_trace (m st).2 = st_trace st ++ evs
    /\ Forall (ok al) evs
    /\ (sends evs <= n)%nat
    /\ (forall x, (m st).1 = Ok x -> Q x).

Lemma triple_ret {X} al n (x : X) (Q : X -> Prop) : Q x -> triple al n (mret x) Q.
Proof.
  intros HQ st Hal. exists []. rewrite app_nil_r. repeat split; cbn; auto; [lia|].
  by intros ? [= <-].
Qed.

Lemma triple_fail {X} al n e (Q : X -> Prop) : triple al n (mfail e) Q.
Proof.
  intros st Hal. exists []. rewrite app_nil_r. repeat split; cbn; auto; [lia|done].
Qed.

Lemma triple_lift {X} al n (r : result X) : triple al n (lift r) (fun x => r = Ok x).
Proof.
  intros st Hal. exists []. rewrite app_nil_r. repeat split; cbn; auto. lia.
Qed.

Lemma triple_bind {X Y} al n1 n2 (m : M B A W X) (k : X -> M B A W Y) Q R :
  triple al n1 m Q -> (forall x, Q x -> triple al n2 (k x) R) ->
  triple al (n1 + n2) (mbind m k) R.
Proof.
  intros Hm Hk st Hal. destruct (Hm st Hal) as (evs & Ha & Ht & Hf & Hn & HQ).
  unfold mbind. destruct (m st) as [[x|e] st1]; cbn in *.
  - destruct (Hk x (HQ x eq_refl) st1 Ha) as (evs2 & Ha2 & Ht2 & Hf2 & Hn2 & HR).
    exists (evs ++ evs2). rewrite Ht2, Ht, app_assoc, Forall_app, sends_app.
    repeat split; auto. lia.
  - exists evs. repeat split; auto; [lia|done].
Qed.

(** A step that emits no message, in front of a program with budget [n]. *)
Lemma triple_bind0 {X Y} al n (m : M B A W X) (k : X -> M B A W Y) Q R :
  triple al 0 m Q -> (forall x, Q x -> triple al n (k x) R) -> triple al n (mbind m k) R.
Proof. intros. by eapply (triple_bind al 0 n). Qed.

Lemma triple_guard {X} al n b e (k : M B A W X) Q :
  (b = false -> triple al n k Q) -> triple al n (mguard b e k) Q.
Proof. destruct b; cbn; intros Hk; [apply triple_fail|by apply Hk]. Qed.

Lemma triple_try {X} al n (m : M B A W X) Q :
  triple al n m Q ->
  triple al n (mtry m) (fun r => forall x, r = Ok x -> Q x).
Proof.
  intros Hm st Hal. destruct (Hm st Hal) as (evs & Ha & Ht & Hf & Hn & HQ).
  exists evs. unfold mtry. destruct (m st) as [r st1]; cbn in *.
  repeat split; auto. intros ? [= <-]. exact HQ.
Qed.

Lemma triple_mono {X} al n n' (m : M B A W X) (Q Q' : X -> Prop) :
  triple al n m Q -> (n <= n')%nat -> (forall x, Q x -> Q' x) -> triple al n' m Q'.
Proof.
  intros Hm Hn HQ st Hal. destruct (Hm st Hal) as (evs & Ha & Ht & Hf & Hn1 & HQ1).
  exists evs. repeat split; auto. lia.
Qed.

Lemma triple_op al (o : outop) :
  ok al (EvOut o) -> triple al (if is_message (EvOut o) then 1 else 0) (do_op o) (fun _ => True).
Proof.
  intros Ho st Hal. exists [EvOut o]. unfold do_op.
  destruct (perform o (st_world st)) as [r w]; cbn. repeat split; auto.
  unfold sends. cbn. by destruct o.
Qed.

Lemma triple_ask al (q : query) : ok al (EvAsk q) -> triple al 0 (do_ask q) (fun _ => True).
Proof.
  intros Hq st Hal. exists [EvAsk q]. unfold do_ask.
  destruct (ask q (st_world st)) as [r w]; cbn. repeat split; auto.
Qed.

Lemma triple_audit al mk :
  (forall t, ok al (EvAudit (mk t))) -> triple al 0 (do_audit mk) (fun _ => True).
Proof.
  intros Hm st Hal. exists [EvAudit (mk (clock (st_world st)))]. unfold do_audit.
  destruct (audit_Record _ _) as [r w]; cbn. repeat split; auto.
Qed.

Lemma triple_wait al d : triple al 0 (do_wait d) (fun _ => True).
Proof.
  intros st Hal. exists []. unfold do_wait. destruct (wait _ _) as [r w]; cbn.
  rewrite app_nil_r. repeat split; auto.
Qed.

Lemma triple_now al : triple al 0 now (fun _ => True).
Proof. intros st Hal. exists []. cbn. rewrite app_nil_r. repeat split; auto. Qed.

Lemma triple_jitter al d : triple al 0 (get_jitter d) (fun _ => True).
Proof. intros st Hal. exists []. cbn. rewrite app_nil_r. repeat split; auto. Qed.

Lemma triple_safety al j a :
  triple al 0 (safety_check j a) (fun r => r = Ok tt -> al_allows al j a = true).
Proof.
  intros st Hal. exists []. unfold safety_check.
  destruct (Check_ _ _ j a) as [r sp] eqn:E. cbn.
  destruct (Check_spec _ _ _ _ _ _ E) as (Hden & _ & Hkeep & _).
  rewrite app_nil_r, Hkeep. repeat split; auto.
  intros r' [= <-] ->. rewrite Hal in Hden.
  destruct (al_allows al j a); [done|]. by discriminate (proj2 Hden eq_refl).
Qed.

End Logic.
