(* ===== verification/Dispatch.v ===== *)
(** * The send family of the dispatcher

    [internal/app/method_send.go], [method_tier2.go], [method_msg_extensions.go],
    [method_send_interactive.go], [humanize.go] and [ensureNotBlocked] of
    [method_block.go].  Every [doXxx] is the handler's body; the [handleXxx]
    wrappers of the code run it through [idempotentCall], which is in Admin.v. *)
From S2P Require Import Prelude GoStd Errors Jid Policy Limiter Message Values Json Idem Ports.

#[local] Open Scope Z_scope.
#[local] Open Scope string_scope.

(** ** Parameters and results *)

Record sendParams := mkSendParams {
  sp_To : string; sp_Body : string; sp_Humanize : bool; sp_Mentions : list string;
  sp_FollowCanonical : bool }.
Definition dec_sendParams (m : list (string * json)) : option sendParams :=
  to ← field dec_str "" "to" m;
  body ← field dec_str "" "body" m;
  humanize ← field dec_bool false "humanize" m;
  mentions ← field dec_strs [] "mentions" m;
  follow ← field dec_bool false "followCanonical" m;
  Some (mkSendParams to body humanize mentions follow).

Record sendMediaParams := mkSendMediaParams {
  smp_To : string; smp_Path : string; smp_Caption : string; smp_Mime : string;
  smp_Filename : string; smp_Bytes : string; smp_SHA256 : string; smp_Humanize : bool;
  smp_PTT : bool; smp_Seconds : Z }.
Definition dec_sendMediaParams (m : list (string * json)) : option sendMediaParams :=
  to ← field dec_str "" "to" m;
  path ← field dec_str "" "path" m;
  caption ← field dec_str "" "caption" m;
  mime ← field dec_str "" "mime" m;
  filename ← field dec_str "" "filename" m;
  bytes ← field dec_bytes "" "bytes" m;
  sha ← field dec_str "" "sha256" m;
  humanize ← field dec_bool false "humanize" m;
  ptt ← field dec_bool false "ptt" m;
  seconds ← field dec_int 0%Z "seconds" m;
  Some (mkSendMediaParams to path caption mime filename bytes sha humanize ptt seconds).

Record reactParams := mkReactParams { rp_Chat : string; rp_MessageID : string; rp_Emoji : string }.
Definition dec_reactParams (m : list (string * json)) : option reactParams :=
  chat ← field dec_str "" "chat" m;
  id ← field dec_str "" "messageId" m;
  emoji ← field dec_str "" "emoji" m;
  Some (mkReactParams chat id emoji).

Record sendReplyParams := mkSendReplyParams {
  srp_To : string; srp_QuotedID : string; srp_Body : string }.
Definition dec_sendReplyParams (m : list (string * json)) : option sendReplyParams :=
  to ← field dec_str "" "to" m;
  q ← field dec_str "" "quotedId" m;
  body ← field dec_str "" "body" m;
  Some (mkSendReplyParams to q body).

Record sendForwardParams := mkSendForwardParams {
  sfp_To : string; sfp_SourceChat : string; sfp_MessageID : string }.
Definition dec_sendForwardParams (m : list (string * json)) : option sendForwardParams :=
  to ← field dec_str "" "to" m;
  src ← field dec_str "" "sourceChat" m;
  id ← field dec_str "" "messageId" m;
  Some (mkSendForwardParams to src id).

Record sendStarParams := mkSendStarParams {
  ssp_Chat : string; ssp_MessageID : string; ssp_Starred : bool }.
Definition dec_sendStarParams (m : list (string * json)) : option sendStarParams :=
  chat ← field dec_str "" "chat" m;
  id ← field dec_str "" "messageId" m;
  starred ← field dec_bool false "starred" m;
  Some (mkSendStarParams chat id starred).

Record setDisappearingParams := mkSetDisappearingParams { sdp_Chat : string; sdp_Seconds : Z }.
Definition dec_setDisappearingParams (m : list (string * json)) : option setDisappearingParams :=
  chat ← field dec_str "" "chat" m;
  secs ← field dec_int 0%Z "seconds" m;
  Some (mkSetDisappearingParams chat secs).

Record interactiveParams := mkInteractiveParams {
  ip_To : string; ip_Selected : string; ip_Text : string; ip_Kind : string;
  ip_ContextStanzaID : string; ip_ContextSender : string }.
(** [sendListResponseParams]. *)
Definition dec_listParams (m : list (string * json)) : option interactiveParams :=
  to ← field dec_str "" "to" m;
  row ← field dec_str "" "rowId" m;
  title ← field dec_str "" "title" m;
  stanza ← field dec_str "" "contextStanzaId" m;
  sender ← field dec_str "" "contextSender" m;
  _ ← field dec_str "" "idempotencyKey" m;
  Some (mkInteractiveParams to row title "" stanza sender).
(** [sendButtonResponseParams]. *)
Definition dec_buttonParams (m : list (string * json)) : option interactiveParams :=
  to ← field dec_str "" "to" m;
  button ← field dec_str "" "buttonId" m;
  text ← field dec_str "" "displayText" m;
  kind ← field dec_str "" "kind" m;
  stanza ← field dec_str "" "contextStanzaId" m;
  sender ← field dec_str "" "contextSender" m;
  _ ← field dec_str "" "idempotencyKey" m;
  Some (mkInteractiveParams to button text kind stanza sender).

Record composingParams := mkComposingParams {
  cp_Chat : string; cp_State : string; cp_Duration : Z }.
Definition dec_composingParams (m : list (string * json)) : option composingParams :=
  chat ← field dec_str "" "chat" m;
  state ← field dec_str "" "state" m;
  dur ← field dec_int 0%Z "durationMs" m;
  Some (mkComposingParams chat state dur).

(** [sendResult], [resolvedTo] omitted when empty. *)
Definition sendResult (id : string) (t : time) (resolvedTo : string) : json :=
  JObj ([("messageId", JStr id); ("timestamp", JNum (itoa (unix t)))]
        ++ if str_empty resolvedTo then [] else [("resolvedTo", JStr resolvedTo)]).
Definition emptyResult : json := JObj [].

Definition ErrInvalidParams_ : goerr := ERpc app.ErrInvalidParams.
Definition ErrInvalidJID_ : goerr := ERpc app.ErrInvalidJID.
Definition ErrMethodNotFound_ : goerr := ERpc app.ErrMethodNotFound.

(** [domain.Parse(s)], every error replaced by ErrInvalidJID. *)
Definition parse_jid (s : string) : result JID :=
  match Parse s with Ok j => Ok j | Err _ => Err ErrInvalidJID_ end.

Fixpoint parseMentions (raw : list string) : result (list JID) :=
  match raw with
  | [] => Ok []
  | s :: raw =>
    let* j := parse_jid s in
    fail_if negb (IsAddressable j) with ErrInvalidJID_ ;;
    let* js := parseMentions raw in
    Ok (j :: js)
  end.

Definition auditErrDetail (e : goerr) : string :=
  match as_coded e with
  | Some (c, _) => "code=" +:+ itoa c
  | None => "internal"
  end.

(** ** Gates *)

Section Handlers.
  Context {B A W : Type} `{RateBucket B, AllowlistPort A, Ports W}.
  Abbreviation M := (M B A W).

Definition recordSafetyAudit (j : JID) (action : Z) (decision : string) : M unit :=
  do_audit (NewAuditEvent "dispatcher" (AuditForAction action) j decision
              ("action=" +:+ Action_String action)).

Definition recordAudit (j : JID) (decision detail : string) : M unit :=
  do_audit (NewAuditEvent "dispatcher" AuditSend j decision detail).

Definition recordModerationAudit (action : Z) (j : JID) (decision detail : string) : M unit :=
  do_audit (NewAuditEvent "dispatcher" action j decision detail).

Definition ensureOnWhatsApp (j : JID) : M unit :=
  if negb (wired POnWhatsApp) || negb (IsUser j) then mret tt
  else
    let! r := mtry (do_ask (QOnWhatsApp (User j))) in
    match r with
    | Err _ => mret tt
    | Ok (canonical, on) =>
      if negb on then mfail (ERpc app.ErrNotOnWhatsApp)
      else if negb (JID_IsZero canonical) && IsUser canonical
              && negb (User canonical =? User j)
      then mfail (RecipientMoved (JID_String j) (JID_String canonical))
      else mret tt
    end.

Definition denial_decision (e : goerr) : string :=
  if is_rpc app.ErrNotAllowlisted e then "denied:allowlist"
  else if is_rpc app.ErrWarmupActive e then "denied:warmup"
  else if is_rpc app.ErrRateLimited e then "denied:rate"
  else "denied:unknown".

Definition checkSafetyAndAudit (j : JID) (action : Z) : M unit :=
  let! err := safety_check j action in
  match err with
  | Ok _ =>
    if (action =? ActionSend)%Z then
      let! waErr := mtry (ensureOnWhatsApp j) in
      match waErr with
      | Err e => let! _ := recordAudit j "denied:not-on-whatsapp" "" in mfail e
      | Ok _ => mret tt
      end
    else mret tt
  | Err e => let! _ := recordSafetyAudit j action (denial_decision e) in mfail e
  end.

Definition ensureNotBlocked (j : JID) : M unit :=
  if negb (wired PBlocker) then mret tt
  else
    let! r := mtry (do_ask QListBlocked) in
    match r with
    | Err e => mfail (wrapc "blocker" e)
    | Ok blocked =>
      if bool_decide (j ∈ (blocked : list JID)) then mfail (wrapd domain.ErrBlocked (JID_String j))
      else mret tt
    end.

(** The block-list gate with its audit record. *)
Definition notBlockedOrAudit (j : JID) : M unit :=
  let! r := mtry (ensureNotBlocked j) in
  match r with
  | Err e => let! _ := recordAudit j "denied:blocked" "" in mfail e
  | Ok _ => mret tt
  end.

Definition guardSend (j : JID) : M unit :=
  let! _ := checkSafetyAndAudit j ActionSend in
  notBlockedOrAudit j.

(** The JID to send to and the [resolvedTo] of the result. *)
Definition guardSendFollowing (j : JID) (follow : bool) : M (JID * string) :=
  let! r := mtry (guardSend j) in
  match r with
  | Ok _ => mret (j, "")
  | Err e =>
    match (if follow then as_moved e else None) with
    | None => mfail e
    | Some moved =>
      match Parse moved with
      | Err _ => mfail e
      | Ok canonical =>
        let! _ := guardSend canonical in
        mret (canonical, JID_String canonical)
      end
    end
  end.

(** ** humanize.go *)

Definition millisecond : Z := 1000000.
Definition humanizeBaseDelay : Z := 1500 * millisecond.
Definition humanizePerChar : Z := 35 * millisecond.
Definition humanizeMaxDelay : Z := 6 * second.

(** The delay before jitter; [int64] arithmetic wraps. *)
Definition humanizeDelayBase (bodyLen : Z) : Z :=
  Z.min (wrap64 (humanizeBaseDelay + wrap64 (bodyLen * humanizePerChar))) humanizeMaxDelay.

Definition send_presence (j : JID) (state : string) (d : Z) : M unit :=
  let! _ := mtry (do_op (OPresence j state d)) in mret tt.

Definition humanizeBeforeSend (j : JID) (bodyLen : Z) : M unit :=
  let! delay := get_jitter (humanizeDelayBase bodyLen) in
  let! _ := (if wired PPresence then send_presence j "composing" delay else mret tt) in
  let! _ := do_wait delay in
  if wired PPresence then send_presence j "paused" 0%Z else mret tt.

(** ** The send and its audit *)

(** [d.sender.Send] (or a sibling), the error audited by [errDetail] and
    wrapped with the method's name, success audited by [okDetail]. *)
Definition send_audited {X} (method : string) (j : JID) (op : M X)
    (errDetail : goerr -> string) (okDetail : X -> string) : M X :=
  let! r := mtry op in
  match r with
  | Err e => let! _ := recordAudit j "error" (errDetail e) in mfail (wrapc method e)
  | Ok x => let! _ := recordAudit j "ok" (okDetail x) in mret x
  end.

Definition doSend (raw : RawMessage) : M json :=
  let! p := lift (parseParams dec_sendParams raw) in
  fail! str_empty (sp_To p) || str_empty (sp_Body p) with ErrInvalidParams_ ;;
  let! j := lift (parse_jid (sp_To p)) in
  let! mentions := lift (parseMentions (sp_Mentions p)) in
  let! (j, resolvedTo) := guardSendFollowing j (sp_FollowCanonical p) in
  let! _ := (if sp_Humanize p then humanizeBeforeSend j (len (sp_Body p)) else mret tt) in
  let msg := MText (mkText j (sp_Body p) false mentions) in
  let! id := send_audited "send" j (do_op (OSend msg)) auditErrDetail (fun id => id) in
  let! t := now in
  mret (sendResult id t resolvedTo).

Definition doSendMedia (raw : RawMessage) : M json :=
  let! p := lift (parseParams dec_sendMediaParams raw) in
  fail! str_empty (smp_To p) with ErrInvalidParams_ ;;
  let mime := if str_empty (smp_Mime p) then "application/octet-stream" else smp_Mime p in
  let msg j := mkMedia j (smp_Path p) mime (smp_Caption p) (smp_Filename p) (smp_Bytes p)
                 (smp_SHA256 p) (smp_PTT p) (smp_Seconds p) in
  fail! negb (is_ok (SourceValidate (msg zeroJID))) with ErrInvalidParams_ ;;
  fail! negb (is_ok (AudioValidate (msg zeroJID))) with ErrInvalidParams_ ;;
  let! j := lift (parse_jid (smp_To p)) in
  let! _ := guardSend j in
  let! _ := (if smp_Humanize p then humanizeBeforeSend j (len (smp_Caption p)) else mret tt) in
  let! id := send_audited "sendMedia" j (do_op (OSend (MMedia (msg j)))) auditErrDetail
               (fun id => id) in
  let! t := now in
  mret (sendResult id t "").

Definition doReact (raw : RawMessage) : M json :=
  let! p := lift (parseParams dec_reactParams raw) in
  fail! str_empty (rp_Chat p) || str_empty (rp_MessageID p) with ErrInvalidParams_ ;;
  let! j := lift (parse_jid (rp_Chat p)) in
  let! _ := guardSend j in
  let msg := MReaction (mkReaction j (rp_MessageID p) (rp_Emoji p)) in
  let! _ := send_audited "react" j (do_op (OSend msg)) auditErrDetail (fun _ => "") in
  mret emptyResult.

(** ** method_tier2.go, method_msg_extensions.go *)

Definition doSendReply (raw : RawMessage) : M json :=
  fail! negb (wired PReply) with ErrMethodNotFound_ ;;
  let! p := lift (parseParams dec_sendReplyParams raw) in
  fail! str_empty (srp_To p) || str_empty (srp_QuotedID p) || str_empty (srp_Body p)
    with ErrInvalidParams_ ;;
  let! j := lift (parse_jid (srp_To p)) in
  let! _ := checkSafetyAndAudit j ActionSend in
  let! _ := notBlockedOrAudit j in
  let msg := mkText j (srp_Body p) false [] in
  let! id := send_audited "send.reply" j (do_op (OReply (srp_QuotedID p) msg)) auditErrDetail
               (fun id => id) in
  let! t := now in
  mret (sendResult id t "").

Definition handleComposing (raw : RawMessage) : M json :=
  fail! negb (wired PPresence) with ErrMethodNotFound_ ;;
  let! p := lift (parseParams dec_composingParams raw) in
  fail! str_empty (cp_Chat p) || str_empty (cp_State p) with ErrInvalidParams_ ;;
  fail! negb ((cp_State p =? "composing") || (cp_State p =? "recording")
              || (cp_State p =? "paused")) with ErrInvalidParams_ ;;
  let! j := lift (parse_jid (cp_Chat p)) in
  let! _ := checkSafetyAndAudit j ActionPresence in
  let! r := mtry (do_op (OPresence j (cp_State p) (wrap64 (cp_Duration p * millisecond)%Z))) in
  match r with
  | Err e => mfail (wrapc "chat.composing" e)
  | Ok _ => mret emptyResult
  end.

Definition doSendForward (raw : RawMessage) : M json :=
  fail! negb (wired PForward) with ErrMethodNotFound_ ;;
  let! p := lift (parseParams dec_sendForwardParams raw) in
  fail! str_empty (sfp_To p) || str_empty (sfp_SourceChat p) || str_empty (sfp_MessageID p)
    with ErrInvalidParams_ ;;
  let! toJID := lift (parse_jid (sfp_To p)) in
  let! srcJID := lift (parse_jid (sfp_SourceChat p)) in
  let! _ := checkSafetyAndAudit toJID ActionSend in
  let! _ := notBlockedOrAudit toJID in
  let! id := send_audited "message.forward" toJID
               (do_op (OForward toJID srcJID (sfp_MessageID p))) Error (fun id => id) in
  let! t := now in
  mret (sendResult id t "").

Definition doSendStar (raw : RawMessage) : M json :=
  fail! negb (wired PStar) with ErrMethodNotFound_ ;;
  let! p := lift (parseParams dec_sendStarParams raw) in
  fail! str_empty (ssp_Chat p) || str_empty (ssp_MessageID p) with ErrInvalidParams_ ;;
  let! j := lift (parse_jid (ssp_Chat p)) in
  let! _ := checkSafetyAndAudit j ActionSend in
  let! _ := send_audited "message.star" j
              (do_op (OStar j (ssp_MessageID p) (ssp_Starred p))) Error
              (fun _ => ssp_MessageID p) in
  mret emptyResult.

Definition legalDisappearing : list Z := [0; 86400; 604800; 7776000]%Z.

Definition doSetDisappearing (raw : RawMessage) : M json :=
  fail! negb (wired PDisappearing) with ErrMethodNotFound_ ;;
  let! p := lift (parseParams dec_setDisappearingParams raw) in
  fail! str_empty (sdp_Chat p) with ErrInvalidParams_ ;;
  fail! negb (existsb (Z.eqb (sdp_Seconds p)) legalDisappearing) with ErrInvalidParams_ ;;
  let! j := lift (parse_jid (sdp_Chat p)) in
  let! _ := checkSafetyAndAudit j ActionChatState in
  let! r := mtry (do_op (ODisappearing j (sdp_Seconds p))) in
  match r with
  | Err e =>
    let! _ := recordModerationAudit AuditDisappearingSet j "error" (Error e) in
    mfail (wrapc "message.setDisappearing" e)
  | Ok _ =>
    let! _ := recordModerationAudit AuditDisappearingSet j "ok" (itoa (sdp_Seconds p) +:+ "s") in
    mret emptyResult
  end.

(** ** method_send_interactive.go *)

Definition loadQuotedRaw (chat : JID) (stanzaID : string) : M string :=
  fail! negb (wired PQuoted) with ERpc app.ErrQuotedMessageStoreNotConfigured ;;
  let final (r : result string) : M string :=
    match r with
    | Ok b => mret b
    | Err e => if is_rpc app.ErrMessageNotFound e then mfail ErrInvalidParams_
               else mfail (wrapc "loadQuotedRaw" e)
    end in
  let! r := mtry (do_ask (QRawProto chat stanzaID)) in
  match r with
  | Err e =>
    if is_rpc app.ErrMessageNotFound e && wired PIdentity then
      let! alt := (if IsUser chat then mtry (do_ask (QResolveLID chat))
                   else if IsLID chat then mtry (do_ask (QResolvePN chat))
                   else mret (Ok zeroJID)) in
      match alt with
      | Err e' => mfail (wrapc "loadQuotedRaw identity" e')
      | Ok alt =>
        if negb (JID_IsZero alt)
        then let! r' := mtry (do_ask (QRawProto alt stanzaID)) in final r'
        else final r
      end
    else final r
  | Ok _ => final r
  end.

Definition doSendListResponse (raw : RawMessage) : M json :=
  let! p := lift (parseParams dec_listParams raw) in
  fail! str_empty (ip_To p) || str_empty (ip_Selected p) || str_empty (ip_ContextStanzaID p)
    with ErrInvalidParams_ ;;
  let! j := lift (parse_jid (ip_To p)) in
  let senderStr := if str_empty (ip_ContextSender p) then ip_To p else ip_ContextSender p in
  let! ctxSender := lift (parse_jid senderStr) in
  let! _ := checkSafetyAndAudit j ActionSend in
  let! _ := notBlockedOrAudit j in
  let! quotedRaw := loadQuotedRaw j (ip_ContextStanzaID p) in
  let msg := MListReply (mkListReply j (ip_Selected p) (ip_Text p) (ip_ContextStanzaID p)
                           ctxSender quotedRaw) in
  let! id := send_audited "send.listResponse" j (do_op (OSend msg)) Error
               (fun _ => "list_response:" +:+ ip_Selected p) in
  let! t := now in
  mret (sendResult id t "").

Definition button_kind (k : string) : option Z :=
  if (k =? "") || (k =? "button") then Some ButtonReplyButtons
  else if k =? "templateButton" then Some ButtonReplyTemplate
  else None.

Definition doSendButtonResponse (raw : RawMessage) : M json :=
  let! p := lift (parseParams dec_buttonParams raw) in
  fail! str_empty (ip_To p) || str_empty (ip_Selected p) || str_empty (ip_ContextStanzaID p)
    with ErrInvalidParams_ ;;
  match button_kind (ip_Kind p) with
  | None => mfail ErrInvalidParams_
  | Some kind =>
    let! j := lift (parse_jid (ip_To p)) in
    let senderStr := if str_empty (ip_ContextSender p) then ip_To p else ip_ContextSender p in
    let! ctxSender := lift (parse_jid senderStr) in
    let! _ := checkSafetyAndAudit j ActionSend in
    let! _ := notBlockedOrAudit j in
    let! quotedRaw := loadQuotedRaw j (ip_ContextStanzaID p) in
    let msg := MButtonReply (mkButtonReply j (ip_Selected p) (ip_Text p) kind
                               (ip_ContextStanzaID p) ctxSender quotedRaw) in
    let! id := send_audited "send.buttonResponse" j (do_op (OSend msg)) Error
                 (fun _ => "button_response:" +:+ ip_Selected p) in
    let! t := now in
    mret (sendResult id t "")
  end.

End Handlers.
