(* ===== verification/Admin.v ===== *)
(** * The other mutating methods of the dispatcher, and its idempotency wrapper

    [internal/app/method_moderate.go], [method_chat_state.go],
    [method_presence.go], [method_markread.go], [method_sendseen.go],
    [method_block.go], [method_privacy.go], [method_profile.go],
    [method_logout_all.go], [group_admin.go], [poll.go], and
    [method_idempotency.go]. *)
From S2P Require Import Prelude GoStd Errors Jid Policy Limiter Message Values Json Idem Ports Dispatch.

#[local] Open Scope Z_scope.
#[local] Open Scope string_scope.

(** ** Parameters *)

Record revokeParams := mkRevokeParams { rv_Chat : string; rv_MessageID : string; rv_Scope : string }.
Definition dec_revokeParams (m : list (string * json)) : option revokeParams :=
  chat ← field dec_str "" "chat" m;
  id ← field dec_str "" "messageId" m;
  scope ← field dec_str "" "scope" m;
  Some (mkRevokeParams chat id scope).

Record editParams := mkEditParams { ed_Chat : string; ed_MessageID : string; ed_Body : string }.
Definition dec_editParams (m : list (string * json)) : option editParams :=
  chat ← field dec_str "" "chat" m;
  id ← field dec_str "" "messageId" m;
  body ← field dec_str "" "body" m;
  Some (mkEditParams chat id body).

(** [archiveParams], [pinParams]: a chat and a flag. *)
Definition dec_flagParams (flag : string) (m : list (string * json)) : option (string * bool) :=
  chat ← field dec_str "" "chat" m;
  b ← field dec_bool false flag m;
  Some (chat, b).
Definition dec_muteParams (m : list (string * json)) : option (string * Z) :=
  chat ← field dec_str "" "chat" m;
  until ← field dec_int 0%Z "untilUnix" m;
  Some (chat, until).
(** A single string field. *)
Definition dec_one (name : string) (m : list (string * json)) : option string :=
  field dec_str "" name m.

Record markReadParams := mkMarkReadParams {
  mk_Chat : string; mk_MessageID : string; mk_Played : bool }.
Definition dec_markReadParams (m : list (string * json)) : option markReadParams :=
  chat ← field dec_str "" "chat" m;
  id ← field dec_str "" "messageId" m;
  played ← field dec_bool false "played" m;
  Some (mkMarkReadParams chat id played).

Definition dec_privacySetParams (m : list (string * json)) : option (string * string) :=
  key ← field dec_str "" "key" m;
  value ← field dec_str "" "value" m;
  Some (key, value).

Definition dec_groupCreateParams (m : list (string * json)) : option (string * list string) :=
  subject ← field dec_str "" "subject" m;
  parts ← field dec_strs [] "participants" m;
  Some (subject, parts).
Definition dec_groupRosterParams (m : list (string * json)) : option (string * list string) :=
  group ← field dec_str "" "group" m;
  parts ← field dec_strs [] "participants" m;
  Some (group, parts).
Definition dec_groupEditParams (m : list (string * json)) : option (string * GroupPatch) :=
  group ← field dec_str "" "group" m;
  subject ← field dec_ptr None "subject" m;
  description ← field dec_ptr None "description" m;
  icon ← field dec_ptr None "iconPath" m;
  Some (group, mkGroupPatch subject description icon).

Record pollCreateParams := mkPollCreateParams {
  pc_Chat : string; pc_Question : string; pc_Options : list string; pc_Selectable : Z }.
Definition dec_pollCreateParams (m : list (string * json)) : option pollCreateParams :=
  chat ← field dec_str "" "chat" m;
  q ← field dec_str "" "question" m;
  opts ← field dec_strs [] "options" m;
  sel ← field dec_int 0%Z "selectable" m;
  Some (mkPollCreateParams chat q opts sel).
Definition dec_pollVoteParams (m : list (string * json)) : option (string * string * list Z) :=
  chat ← field dec_str "" "chat" m;
  id ← field dec_str "" "pollId" m;
  sel ← field dec_ints [] "selected" m;
  Some (chat, id, sel).

(** The slice loop [for _, s := range raw { domain.Parse(s) }]. *)
Fixpoint parse_jids (raw : list string) : result (list JID) :=
  match raw with
  | [] => Ok []
  | s :: raw => let* j := parse_jid s in let* js := parse_jids raw in Ok (j :: js)
  end.

(** A nil interface used as a method value panics; the goroutine unwinds and
    no code of the handler runs after it. *)
Definition nil_deref : goerr :=
  ENew "runtime error: invalid memory address or nil pointer dereference".

Section Handlers.
  Context {B A W : Type} `{RateBucket B, AllowlistPort A, Ports W}.
  Abbreviation M := (M B A W).

(** A port call whose only outcome is its wrapped error. *)
Definition call_port (method : string) (o : outop) : M (reply_of o) :=
  let! r := mtry (do_op o) in
  match r with Err e => mfail (wrapc method e) | Ok x => mret x end.

(** ** method_moderate.go *)

Definition doMessageRevoke (raw : RawMessage) : M json :=
  fail! negb (wired PModerator) with ErrMethodNotFound_ ;;
  let! p := lift (parseParams dec_revokeParams raw) in
  fail! str_empty (rv_Chat p) || str_empty (rv_MessageID p) with ErrInvalidParams_ ;;
  let scopeStr := if str_empty (rv_Scope p) then "everyone" else rv_Scope p in
  match ParseRevokeScope scopeStr with
  | Err _ => mfail ErrInvalidParams_
  | Ok scope =>
    let! j := lift (parse_jid (rv_Chat p)) in
    let! _ := checkSafetyAndAudit j ActionRevoke in
    let! r := mtry (do_op (ORevoke j (rv_MessageID p) scope)) in
    match r with
    | Err e =>
      let! _ := recordModerationAudit AuditRevoke j "error" (Error e) in
      mfail (wrapc "message.revoke" e)
    | Ok _ =>
      let! _ := recordModerationAudit AuditRevoke j "ok"
                  (rv_MessageID p +:+ ":" +:+ RevokeScope_String scope) in
      mret emptyResult
    end
  end.

Definition doMessageEdit (raw : RawMessage) : M json :=
  fail! negb (wired PModerator) with ErrMethodNotFound_ ;;
  let! p := lift (parseParams dec_editParams raw) in
  fail! str_empty (ed_Chat p) || str_empty (ed_MessageID p) || str_empty (ed_Body p)
    with ErrInvalidParams_ ;;
  let! j := lift (parse_jid (ed_Chat p)) in
  let! _ := checkSafetyAndAudit j ActionEdit in
  let! r := mtry (do_op (OEdit j (ed_MessageID p) (ed_Body p))) in
  match r with
  | Err e =>
    let! _ := recordModerationAudit AuditEdit j "error" (Error e) in
    if is_dom domain.ErrOutsideEditWindow e || is_dom domain.ErrMessageTooLarge e
    then mfail e else mfail (wrapc "message.edit" e)
  | Ok _ =>
    let! _ := recordModerationAudit AuditEdit j "ok" (ed_MessageID p) in
    mret emptyResult
  end.

(** ** method_chat_state.go *)

Definition mapChatStateErr (method : string) (e : goerr) : goerr :=
  if is_dom domain.ErrPastMuteTimestamp e || is_dom domain.ErrUpstreamError e
     || is_dom domain.ErrInvalidJID e || is_dom domain.ErrDisconnected e
  then e else wrapc method e.

Definition chat_state_call (method : string) (chat : string) (mk : JID -> outop) : M json :=
  fail! str_empty chat with ErrInvalidParams_ ;;
  let! j := lift (parse_jid chat) in
  let! _ := checkSafetyAndAudit j ActionChatState in
  let! r := mtry (do_op (mk j)) in
  match r with Err e => mfail (mapChatStateErr method e) | Ok _ => mret emptyResult end.

Definition doChatArchive (raw : RawMessage) : M json :=
  fail! negb (wired PChatState) with ErrMethodNotFound_ ;;
  let! p := lift (parseParams (dec_flagParams "archived") raw) in
  chat_state_call "chat.archive" p.1 (fun j => OArchive j p.2).

Definition doChatMute (raw : RawMessage) : M json :=
  fail! negb (wired PChatState) with ErrMethodNotFound_ ;;
  let! p := lift (parseParams dec_muteParams raw) in
  let until := if negb (p.2 =? 0)%Z then Some (utc (of_unix p.2)) else None in
  chat_state_call "chat.mute" p.1 (fun j => OMute j until).

Definition doChatPin (raw : RawMessage) : M json :=
  fail! negb (wired PChatState) with ErrMethodNotFound_ ;;
  let! p := lift (parseParams (dec_flagParams "pinned") raw) in
  chat_state_call "chat.pin" p.1 (fun j => OPin j p.2).

Definition doChatMarkUnread (raw : RawMessage) : M json :=
  fail! negb (wired PChatState) with ErrMethodNotFound_ ;;
  let! chat := lift (parseParams (dec_one "chat") raw) in
  chat_state_call "chat.markUnread" chat OMarkUnread.

(** ** method_presence.go, method_markread.go, method_sendseen.go *)

Definition doPresence (raw : RawMessage) (state : string) : M json :=
  fail! negb (wired PPresence) with ErrMethodNotFound_ ;;
  let! chat := lift (parseParams (dec_one "chat") raw) in
  fail! str_empty chat with ErrInvalidParams_ ;;
  let! j := lift (parse_jid chat) in
  let! _ := checkSafetyAndAudit j ActionPresence in
  let! _ := call_port ("presence." +:+ state) (OPresence j state 0%Z) in
  mret emptyResult.

Definition doMarkRead (raw : RawMessage) : M json :=
  let! p := lift (parseParams dec_markReadParams raw) in
  fail! str_empty (mk_Chat p) || str_empty (mk_MessageID p) with ErrInvalidParams_ ;;
  let! j := lift (parse_jid (mk_Chat p)) in
  let! _ := checkSafetyAndAudit j ActionRead in
  let! r := (if mk_Played p then mtry (do_op (OMarkPlayed j (mk_MessageID p)))
             else mtry (do_op (OMarkRead j (mk_MessageID p)))) in
  match r with
  | Err e => let! _ := recordAudit j "error" (auditErrDetail e) in mfail e
  | Ok _ => let! _ := recordAudit j "ok" "" in mret emptyResult
  end.

Definition doSendSeen (raw : RawMessage) : M json :=
  let! chat := lift (parseParams (dec_one "chat") raw) in
  fail! str_empty chat with ErrInvalidParams_ ;;
  let! j := lift (parse_jid chat) in
  fail! negb (wired PLatest) with ErrMethodNotFound_ ;;
  let! _ := checkSafetyAndAudit j ActionRead in
  let! r := mtry (do_ask (QLatestIncoming j)) in
  match r with
  | Err e =>
    let! _ := recordAudit j "error" (auditErrDetail e) in mfail (wrapc "sendSeen" e)
  | Ok None =>
    let! _ := recordAudit j "error" (auditErrDetail (ERpc app.ErrMessageNotFound)) in
    mfail (wrapc "sendSeen: no incoming message on record for chat" (ERpc app.ErrMessageNotFound))
  | Ok (Some id) =>
    let! r := mtry (do_op (OMarkRead j id)) in
    match r with
    | Err e => let! _ := recordAudit j "error" (auditErrDetail e) in mfail e
    | Ok _ =>
      let! _ := recordAudit j "ok" id in
      mret (JObj [("messageId", JStr id)])
    end
  end.

(** ** method_block.go, method_privacy.go, method_profile.go, method_logout_all.go *)

Definition doContactAction (method : string) (raw : RawMessage) (mk : JID -> outop) : M json :=
  fail! negb (wired PBlocker) with ErrMethodNotFound_ ;;
  let! s := lift (parseParams (dec_one "jid") raw) in
  fail! str_empty s with ErrInvalidParams_ ;;
  let! j := lift (parse_jid s) in
  let! _ := call_port method (mk j) in
  mret emptyResult.

Definition doContactBlock (raw : RawMessage) : M json :=
  doContactAction "contact.block" raw OBlock.
Definition doContactUnblock (raw : RawMessage) : M json :=
  doContactAction "contact.unblock" raw OUnblock.

Definition handleContactBlocklist (raw : RawMessage) : M json :=
  fail! negb (wired PBlocker) with ErrMethodNotFound_ ;;
  let! r := mtry (do_ask QListBlocked) in
  match r with
  | Err e => mfail (wrapc "contact.blocklist" e)
  | Ok l => mret (JObj [("blocked", JArr (map (fun j => JStr (JID_String j)) l))])
  end.

Definition doPrivacySet (raw : RawMessage) : M json :=
  fail! negb (wired PPrivacy) with ErrMethodNotFound_ ;;
  let! p := lift (parseParams dec_privacySetParams raw) in
  fail! str_empty p.1 || str_empty p.2 with ErrInvalidParams_ ;;
  match ParsePrivacyKey p.1, ParsePrivacyValue p.2 with
  | Ok key, Ok value =>
    let! _ := call_port "privacy.set" (OPrivacySet key value) in mret emptyResult
  | _, _ => mfail ErrInvalidParams_
  end.

Definition handlePrivacyGet (raw : RawMessage) : M json :=
  fail! negb (wired PPrivacy) with ErrMethodNotFound_ ;;
  let! r := mtry (do_ask QPrivacyGet) in
  match r with
  | Err e => mfail (wrapc "privacy.get" e)
  | Ok l => mret (JObj [("settings", JArr (map (fun kv : Z * Z =>
              JObj [("key", JStr (PrivacyKey_String kv.1));
                    ("value", JStr (PrivacyValue_String kv.2))]) l))])
  end.

Definition doProfileSetName (raw : RawMessage) : M json :=
  fail! negb (wired PProfile) with ErrMethodNotFound_ ;;
  let! name := lift (parseParams (dec_one "name") raw) in
  let! _ := call_port "profile.setName" (OSetName name) in mret emptyResult.

Definition doProfileSetStatus (raw : RawMessage) : M json :=
  fail! negb (wired PProfile) with ErrMethodNotFound_ ;;
  let! status := lift (parseParams (dec_one "status") raw) in
  let! _ := call_port "profile.setStatus" (OSetStatus status) in mret emptyResult.

Definition dec_profileAvatarParams (m : list (string * json)) : option (string * string) :=
  j ← field dec_str "" "jid" m;
  size ← field dec_str "" "size" m;
  Some (j, size).

Definition handleProfileAvatar (raw : RawMessage) : M json :=
  fail! negb (wired PProfile) with ErrMethodNotFound_ ;;
  let! p := lift (parseParams dec_profileAvatarParams raw) in
  fail! str_empty p.1 with ErrInvalidParams_ ;;
  let! j := lift (parse_jid p.1) in
  match ParseAvatarSize p.2 with
  | Err _ => mfail ErrInvalidParams_
  | Ok size =>
    let! r := mtry (do_ask (QAvatar j size)) in
    match r with
    | Err e => mfail (wrapc "profile.avatar" e)
    | Ok path => mret (JObj [("path", JStr path)])
    end
  end.

Definition doSessionLogoutAll : M json :=
  fail! negb (wired PSessionTerm) with ErrMethodNotFound_ ;;
  let! _ := call_port "session.logoutAll" OLogoutAll in mret emptyResult.
Definition doSessionLogout : M json :=
  fail! negb (wired PSessionTerm) with ErrMethodNotFound_ ;;
  let! _ := call_port "session.logout" OLogout in mret emptyResult.

(** ** group_admin.go *)

(** The gate loop: each JID is checked (and costs a token) in order. *)
Fixpoint check_each (jids : list JID) (action : Z) : M unit :=
  match jids with
  | [] => mret tt
  | j :: jids => let! _ := checkSafetyAndAudit j action in check_each jids action
  end.

Definition group_json (g : Group) : json :=
  JObj [("jid", JStr (JID_String (g_JID g))); ("subject", JStr (g_Subject g));
        ("participants", JArr (map (fun j => JStr (JID_String j)) (g_Participants g)))].

Definition doGroupCreate (raw : RawMessage) : M json :=
  fail! negb (wired PGroupAdmin) with ErrMethodNotFound_ ;;
  let! p := lift (parseParams dec_groupCreateParams raw) in
  fail! match p.2 with [] => true | _ => false end with ErrInvalidParams_ ;;
  let! parts := lift (parse_jids p.2) in
  let! _ := check_each parts ActionGroupAdd in
  let! g := call_port "group.create" (OGroupCreate p.1 parts) in
  mret (group_json g).

Definition doGroupLeave (raw : RawMessage) : M json :=
  fail! negb (wired PGroupAdmin) with ErrMethodNotFound_ ;;
  let! s := lift (parseParams (dec_one "group") raw) in
  fail! str_empty s with ErrInvalidParams_ ;;
  let! j := lift (parse_jid s) in
  let! _ := call_port "group.leave" (OGroupLeave j) in mret emptyResult.

Definition parseRosterParams (raw : RawMessage) : result (JID * list JID) :=
  let* p := parseParams dec_groupRosterParams raw in
  fail_if str_empty p.1 || match p.2 with [] => true | _ => false end with ErrInvalidParams_ ;;
  let* group := parse_jid p.1 in
  let* jids := parse_jids p.2 in
  Ok (group, jids).

Definition runRoster (method : string) (raw : RawMessage) (op : JID -> list JID -> outop) : M json :=
  fail! negb (wired PGroupAdmin) with ErrMethodNotFound_ ;;
  let! p := lift (parseRosterParams raw) in
  let! r := mtry (do_op (op p.1 p.2)) in
  match r with Err e => mfail (wrapc method e) | Ok _ => mret emptyResult end.

(** The argument [d.groupAdmin.Op] of a call: a method value, evaluated (and
    panicking on a nil interface) before the callee runs. *)
Definition method_value {X} (k : M X) : M X :=
  fail! negb (wired PGroupAdmin) with nil_deref ;; k.

Definition groupAddParticipants (raw : RawMessage) : M json :=
  let! _ := match parseRosterParams raw with
            | Ok p => check_each p.2 ActionGroupAdd
            | Err _ => mret tt
            end in
  method_value (runRoster "group.addParticipants" raw OGroupAdd).
Definition groupRemoveParticipants (raw : RawMessage) : M json :=
  method_value (runRoster "group.removeParticipants" raw OGroupRemove).
Definition groupPromote (raw : RawMessage) : M json :=
  method_value (runRoster "group.promote" raw OGroupPromote).
Definition groupDemote (raw : RawMessage) : M json :=
  method_value (runRoster "group.demote" raw OGroupDemote).

Definition doGroupEdit (raw : RawMessage) : M json :=
  fail! negb (wired PGroupAdmin) with ErrMethodNotFound_ ;;
  let! p := lift (parseParams dec_groupEditParams raw) in
  fail! str_empty p.1 with ErrInvalidParams_ ;;
  let! j := lift (parse_jid p.1) in
  let! _ := call_port "group.edit" (OGroupEdit j p.2) in mret emptyResult.

Definition doGroupInvite (raw : RawMessage) (revoke : bool) : M json :=
  fail! negb (wired PGroupAdmin) with ErrMethodNotFound_ ;;
  let! s := lift (parseParams (dec_one "group") raw) in
  fail! str_empty s with ErrInvalidParams_ ;;
  let! j := lift (parse_jid s) in
  let! r := (if revoke then mtry (do_op (OInviteRevoke j)) else mtry (do_ask (QInviteGet j))) in
  match r with
  | Err e => mfail (wrapc (if revoke then "group.inviteRevoke" else "group.inviteGet") e)
  | Ok link => mret (JObj [("group", JStr (JID_String (il_Group link)));
                           ("url", JStr (il_URL link)); ("code", JStr (il_Code link))])
  end.

Definition doGroupInviteJoin (raw : RawMessage) : M json :=
  fail! negb (wired PGroupAdmin) with ErrMethodNotFound_ ;;
  let! url := lift (parseParams (dec_one "url") raw) in
  fail! str_empty url with ErrInvalidParams_ ;;
  let! g := call_port "group.inviteJoin" (OInviteJoin url) in
  mret (JObj [("jid", JStr (JID_String (g_JID g)))]).

(** ** poll.go *)

Definition pollMinOptions : Z := 2.
Definition pollMaxOptions : Z := 12.

Fixpoint options_ok (seen opts : list string) : bool :=
  match opts with
  | [] => true
  | o :: opts =>
    if str_empty o || (MaxTextBytes <? len o)%Z || bool_decide (o ∈ seen) then false
    else options_ok (o :: seen) opts
  end.

Definition poll_validate (p : pollCreateParams) : check goerr :=
  let n := Z.of_nat (length (pc_Options p)) in
  fail_if str_empty (pc_Chat p) || str_empty (pc_Question p) with ErrInvalidParams_ ;;
  fail_if (n <? pollMinOptions)%Z || (pollMaxOptions <? n)%Z with ErrInvalidParams_ ;;
  fail_if (MaxTextBytes <? len (pc_Question p))%Z with ErrInvalidParams_ ;;
  fail_if negb (options_ok [] (pc_Options p)) with ErrInvalidParams_ ;;
  fail_if (pc_Selectable p <? 0)%Z || (n <? pc_Selectable p)%Z with ErrInvalidParams_ ;;
  Ok tt.

Definition doPollCreate (raw : RawMessage) : M json :=
  fail! negb (wired PPolls) with ErrMethodNotFound_ ;;
  let! p := lift (parseParams dec_pollCreateParams raw) in
  let! _ := lift (poll_validate p) in
  let! chat := lift (parse_jid (pc_Chat p)) in
  let! id := call_port "poll.create"
               (OPollCreate chat (pc_Question p) (pc_Options p) (pc_Selectable p)) in
  mret (JObj [("messageId", JStr id)]).

Definition doPollVote (raw : RawMessage) : M json :=
  fail! negb (wired PPolls) with ErrMethodNotFound_ ;;
  let! p := lift (parseParams dec_pollVoteParams raw) in
  fail! str_empty p.1.1 || str_empty p.1.2 with ErrInvalidParams_ ;;
  let! chat := lift (parse_jid p.1.1) in
  let! _ := call_port "poll.vote" (OPollVote chat p.1.2 p.2) in mret emptyResult.

(** ** The method table ([NewDispatcher]) *)

(** A row is a handler of this file or of [Dispatch], or one of a component
    with a state of its own: contacts ([Contacts]), the history ([HistoryApi]),
    drafts ([DraftQueue]), webhooks ([Webhook]), media ([MediaApi]), schedules
    ([ScheduleFire]), labels ([Labels]), the event bridge ([Bridge]), and the
    session, its state and the embeddings, which are not modelled. *)
Inductive component := OContacts | OHistory | ODrafts | OWebhooks | OMedia | OSchedules | OLabels | OEvents | OSession.
Inductive row := Here (h : RawMessage -> M json) | Elsewhere (c : component).

Definition method_table : list (string * row) :=
  [("send", Here doSend); ("sendMedia", Here doSendMedia); ("react", Here doReact);
   ("pair", Elsewhere OSession); ("wait", Elsewhere OEvents); ("status", Elsewhere OSession);
   ("health", Elsewhere OSession); ("groups", Elsewhere OSession); ("markRead", Here doMarkRead);
   ("sendSeen", Here doSendSeen); ("contacts.lookup", Elsewhere OContacts);
   ("contacts.search", Elsewhere OContacts); ("contacts.list", Elsewhere OContacts);
   ("contacts.annotate", Elsewhere OContacts); ("contacts.sync", Elsewhere OContacts);
   ("contacts.resolve.confirm", Elsewhere OContacts);
   ("presence.composing.start", Here (fun r => doPresence r "composing"));
   ("presence.composing.stop", Here (fun r => doPresence r "paused"));
   ("presence.recording.start", Here (fun r => doPresence r "recording"));
   ("presence.recording.stop", Here (fun r => doPresence r "paused")); ("thread.get", Elsewhere OHistory);
   ("messages.search", Elsewhere OHistory); ("draft.list", Elsewhere ODrafts); ("draft.get", Elsewhere ODrafts);
   ("draft.create", Elsewhere ODrafts); ("webhook.add", Elsewhere OWebhooks);
   ("webhook.list", Elsewhere OWebhooks); ("webhook.remove", Elsewhere OWebhooks);
   ("webhook.deliveries", Elsewhere OWebhooks); ("webhook.replay", Elsewhere OWebhooks);
   ("draft.approve", Elsewhere ODrafts); ("draft.reject", Elsewhere ODrafts);
   ("media.resolve", Elsewhere OMedia); ("media.download", Elsewhere OMedia);
   ("media.fetchBytes", Elsewhere OMedia); ("media.gc", Elsewhere OMedia); ("send.reply", Here doSendReply);
   ("send.listResponse", Here doSendListResponse); ("send.buttonResponse", Here doSendButtonResponse);
   ("chat.composing", Here handleComposing); ("groups.get", Elsewhere OSession);
   ("schedule.send", Elsewhere OSchedules); ("schedule.list", Elsewhere OSchedules);
   ("schedule.cancel", Elsewhere OSchedules); ("schedule.update", Elsewhere OSchedules);
   ("labels.list", Elsewhere OLabels); ("labels.create", Elsewhere OLabels);
   ("labels.delete", Elsewhere OLabels); ("labels.assign", Elsewhere OLabels);
   ("labels.unassign", Elsewhere OLabels); ("embeddings.status", Elsewhere OSession);
   ("embeddings.purge", Elsewhere OSession); ("message.revoke", Here doMessageRevoke);
   ("message.edit", Here doMessageEdit); ("message.forward", Here doSendForward);
   ("message.star", Here doSendStar); ("message.setDisappearing", Here doSetDisappearing);
   ("chat.archive", Here doChatArchive); ("chat.mute", Here doChatMute); ("chat.pin", Here doChatPin);
   ("chat.markUnread", Here doChatMarkUnread); ("contact.block", Here doContactBlock);
   ("contact.unblock", Here doContactUnblock); ("contact.blocklist", Here handleContactBlocklist);
   ("privacy.set", Here doPrivacySet); ("privacy.get", Here handlePrivacyGet);
   ("session.logoutAll", Here (fun _ => doSessionLogoutAll));
   ("session.logout", Here (fun _ => doSessionLogout)); ("profile.setName", Here doProfileSetName);
   ("profile.setStatus", Here doProfileSetStatus); ("contacts.profilePhoto", Here handleProfileAvatar);
   ("group.create", Here doGroupCreate); ("group.leave", Here doGroupLeave);
   ("group.addParticipants", Here groupAddParticipants);
   ("group.removeParticipants", Here groupRemoveParticipants); ("group.promote", Here groupPromote);
   ("group.demote", Here groupDemote); ("group.edit", Here doGroupEdit);
   ("group.inviteGet", Here (fun r => doGroupInvite r false));
   ("group.inviteRevoke", Here (fun r => doGroupInvite r true)); ("group.inviteJoin", Here doGroupInviteJoin);
   ("poll.create", Here doPollCreate); ("poll.vote", Here doPollVote);
   ("contact.resolve", Elsewhere OContacts)].

(** [Handle]; [elsewhere] runs the rows of the other components. *)
Definition Handle (elsewhere : component -> string -> RawMessage -> M json) (method : string) (raw : RawMessage) : M json :=
  match assoc method_table method with
  | None => mfail ErrMethodNotFound_
  | Some (Here h) => h raw
  | Some (Elsewhere c) => elsewhere c method raw
  end.

(** ** method_idempotency.go *)

Definition extractIdempotencyKey (raw : RawMessage) : string :=
  match raw with
  | Some (JObj m) => default "" (field dec_str "" "idempotencyKey" m)
  | _ => ""
  end.

Definition paramsFingerprint (fmt : string -> string) (sha : string -> string)
    (raw : RawMessage) : result string :=
  match raw with
  | Some v => Ok (CanonicalParamsHash fmt sha v)
  | None => Err (ENew "unexpected end of JSON input")
  end.

(** The state gains the sidecar; [innerErr] is captured next to it. *)
Definition idempotentCall {I} `{IdempotencyPort I json} (profile : string)
    (fmt sha : string -> string) (method : string) (raw : RawMessage) (run : M json)
    (st : I * St B A W) : result json * (I * St B A W) :=
  let key := extractIdempotencyKey raw in
  if str_empty key || negb (wired PIdempotency) then lift_run run st
  else
    match paramsFingerprint fmt sha raw with
    | Err _ => (Err ErrInvalidParams_, st)
    | Ok hash =>
      let execute (s : I * (St B A W * option goerr)) :=
        let '(r, s1) := run s.2.1 in
        match r with
        | Err rerr => (Err rerr, (s.1, (s1, Some rerr)))
        | Ok out => (Ok out, (s.1, (s1, s.2.2)))
        end in
      let '(cached, (i, (s, innerErr))) :=
        ip_LoadOrStore (clock (st_world st.2)) method profile key hash execute
          (st.1, (st.2, None)) in
      match innerErr with
      | Some e => (Err e, (i, s))
      | None => (cached, (i, s))
      end
    end.

End Handlers.
