(* ===== verification/Gate.v ===== *)
(** * What the dispatcher lets out

    The policy theorems over every modelled handler: outbound operations of
    the gated methods are authorised by the allowlist, a request emits at most
    one message, refusals leave no trace upstream, and which methods the
    policy table names but no gate protects. *)
From S2P Require Import Prelude GoStd Errors Jid Policy Limiter Message Values Json Idem Ports Dispatch Admin.

#[local] Open Scope Z_scope.

Section Gate.
  Context {B A W : Type} `{RateBucket B, AllowlistPort A, Ports W}.

(** The permission an outbound operation needs; operations no gate protects
    are not authorised by any. *)
Definition authorised (al : A) (o : outop) : Prop :=
  match o with
  | OSend m => al_allows al (To m) ActionSend = true
  | OReply _ m => al_allows al (tm_Recipient m) ActionSend = true
  | OForward to _ _ => al_allows al to ActionSend = true
  | OStar c _ _ => al_allows al c ActionSend = true
  | ODisappearing c _ | OArchive c _ | OMute c _ | OPin c _ | OMarkUnread c =>
      al_allows al c ActionChatState = true
  | OPresence c _ _ => al_allows al c ActionPresence = true \/ al_allows al c ActionSend = true
  | ORevoke c _ _ => al_allows al c ActionRevoke = true
  | OEdit c _ _ => al_allows al c ActionEdit = true
  | OMarkRead c _ | OMarkPlayed c _ => al_allows al c ActionRead = true
  | OGroupCreate _ ps | OGroupAdd _ ps => Forall (fun j => al_allows al j ActionGroupAdd = true) ps
  | _ => False
  end.

Definition event_ok (al : A) (e : event) : Prop :=
  match e with EvOut o => authorised al o | _ => True end.

Abbreviation T := (triple (B:=B) (A:=A) (W:=W) event_ok).

Lemma T_lift0 {X Y} al n (r : result X) (k : X -> M B A W Y) Q :
  (forall x, r = Ok x -> T al n (k x) Q) -> T al n (mbind (lift r) k) Q.
Proof. intros Hk. eapply triple_bind0; [apply triple_lift|exact Hk]. Qed.

(** Structural steps of the proofs below. *)
Ltac tstep :=
  match goal with
  | |- triple _ _ _ (mret _) _ => apply triple_ret; try done
  | |- triple _ _ _ (mfail _) _ => apply triple_fail
  | |- triple _ _ _ (mguard _ _ _) _ => apply triple_guard; intros ?
  | |- triple _ _ _ (mbind (lift _) _) _ => apply T_lift0; intros ? ?
  | |- triple _ _ _ (mbind (mtry (do_ask _)) _) _ =>
      eapply triple_bind0; [apply triple_try, triple_ask; exact I|intros ? _]
  | |- triple _ _ _ (mbind (do_audit _) _) _ =>
      eapply triple_bind0; [apply triple_audit; intros; exact I|intros _ _]
  | |- triple _ _ _ (mbind (recordAudit _ _ _) _) _ => unfold recordAudit
  | |- triple _ _ _ (mbind (recordSafetyAudit _ _ _) _) _ => unfold recordSafetyAudit
  | |- triple _ _ _ (mbind (recordModerationAudit _ _ _ _) _) _ => unfold recordModerationAudit
  | |- triple _ _ _ (mbind now _) _ => eapply triple_bind0; [apply triple_now|intros ? _]
  | |- triple _ _ _ (match ?x with _ => _ end) _ => destruct x eqn:?
  | |- triple _ _ _ (let '(_, _) := ?x in _) _ => destruct x
  end.

Lemma T_ensureOnWhatsApp al j : T al 0 (ensureOnWhatsApp j) (fun _ => True).
Proof. unfold ensureOnWhatsApp. repeat tstep. Qed.

Lemma T_checkSafety al j a :
  T al 0 (checkSafetyAndAudit j a) (fun _ => al_allows al j a = true).
Proof.
  unfold checkSafetyAndAudit. eapply triple_bind0; [apply triple_safety|].
  intros [[]|e] Hr; [|repeat tstep]. specialize (Hr eq_refl).
  destruct (a =? ActionSend); [|by tstep].
  eapply triple_bind0; [apply triple_try, T_ensureOnWhatsApp|].
  intros [[]|e] _; repeat tstep.
Qed.

Lemma T_ensureNotBlocked al j : T al 0 (ensureNotBlocked j) (fun _ => True).
Proof. unfold ensureNotBlocked. repeat tstep. Qed.

Lemma T_notBlockedOrAudit al j : T al 0 (notBlockedOrAudit j) (fun _ => True).
Proof.
  unfold notBlockedOrAudit. eapply triple_bind0; [apply triple_try, T_ensureNotBlocked|].
  intros [[]|e] _; repeat tstep.
Qed.

Lemma T_guardSend al j : T al 0 (guardSend j) (fun _ => al_allows al j ActionSend = true).
Proof.
  unfold guardSend. eapply triple_bind0; [apply T_checkSafety|]. intros ? Hj.
  eapply triple_mono; [apply T_notBlockedOrAudit|lia|done].
Qed.

Lemma T_guardSendFollowing al j follow :
  T al 0 (guardSendFollowing j follow) (fun p => al_allows al p.1 ActionSend = true).
Proof.
  unfold guardSendFollowing. eapply triple_bind0; [apply triple_try, T_guardSend|].
  intros [u|e] Hr; cbn in Hr.
  - tstep. cbn. by apply (Hr u).
  - repeat tstep. eapply triple_bind0; [apply T_guardSend|]. intros ? Hc. by tstep.
Qed.

Lemma T_op0 {X} al n (o : outop) (k : result (reply_of o) -> M B A W X) Q :
  authorised al o -> is_message (EvOut o) = false ->
  (forall r, T al n (k r) Q) -> T al n (mbind (mtry (do_op o)) k) Q.
Proof.
  intros Ho Hm Hk. eapply triple_bind0; [|intros r _; apply Hk].
  apply triple_try. pose proof (triple_op (B:=B) event_ok al o Ho) as Ht. by rewrite Hm in Ht.
Qed.

Lemma T_send_presence al j s d :
  al_allows al j ActionSend = true -> T al 0 (send_presence j s d) (fun _ => True).
Proof. intros Hj. unfold send_presence. apply T_op0; [by right|done|]. intros r. by tstep. Qed.

Lemma T_humanize al j n :
  al_allows al j ActionSend = true -> T al 0 (humanizeBeforeSend j n) (fun _ => True).
Proof.
  intros Hj. unfold humanizeBeforeSend.
  eapply triple_bind0; [apply triple_jitter|]. intros d _.
  eapply triple_bind0; [destruct (wired PPresence); [by apply T_send_presence|by tstep]|].
  intros _ _. eapply triple_bind0; [apply triple_wait|]. intros _ _.
  destruct (wired PPresence); [by apply T_send_presence|by tstep].
Qed.

Lemma T_maybe_humanize al j (b : bool) n :
  al_allows al j ActionSend = true ->
  T al 0 (if b then humanizeBeforeSend j n else mret tt) (fun _ => True).
Proof. intros Hj. destruct b; [by apply T_humanize|by tstep]. Qed.

(** A send and what follows it: the one message of the handler. *)
Lemma T_send {X Y} al n method j (op : M B A W X) ed od (k : X -> M B A W Y) Q :
  T al n op (fun _ => True) -> (forall x, T al 0 (k x) Q) ->
  T al n (mbind (send_audited method j op ed od) k) Q.
Proof.
  intros Hop Hk. rewrite <- (Nat.add_0_r n).
  eapply (triple_bind event_ok al n 0 _ _ (fun _ => True)); [|intros x _; apply Hk].
  unfold send_audited. rewrite <- (Nat.add_0_r n).
  eapply triple_bind; [apply triple_try, Hop|]. intros [x|e] _; repeat tstep.
Qed.

Lemma T_loadQuotedRaw al j id : T al 0 (loadQuotedRaw j id) (fun _ => True).
Proof.
  unfold loadQuotedRaw. tstep. cbn zeta.
  eapply triple_bind0; [apply triple_try, triple_ask; exact I|]. intros [b|e] _; [by tstep|].
  destruct (is_rpc _ _ && _); [|repeat tstep].
  eapply (triple_bind0 event_ok al 0 _ _ (fun _ => True)).
  { destruct (IsUser j); [|destruct (IsLID j)];
      [eapply triple_mono; [apply triple_try, triple_ask; exact I|lia|done]..|by tstep]. }
  intros [alt|e'] _; [|tstep]. destruct (negb _); repeat tstep.
Qed.

(** ** The handlers *)

Ltac gate := eapply triple_bind0; [apply T_checkSafety|]; intros ? ?.
Ltac unblocked := eapply triple_bind0; [apply T_notBlockedOrAudit|]; intros ? _.
Ltac the_send := apply T_send; [apply (triple_op (B:=B) event_ok _ (OSend _)); done|]; intros ?.
Ltac op0 := apply T_op0; [cbn; auto|done|]; intros ?.

Lemma T_doSend al raw : T al 1 (doSend raw) (fun _ => True).
Proof.
  unfold doSend. repeat tstep.
  eapply triple_bind0; [apply T_guardSendFollowing|]. intros [j r] Hj. cbn in Hj.
  eapply triple_bind0; [by apply T_maybe_humanize|]. intros _ _.
  the_send. repeat tstep.
Qed.

Lemma T_doSendMedia al raw : T al 1 (doSendMedia raw) (fun _ => True).
Proof.
  unfold doSendMedia. repeat tstep.
  eapply triple_bind0; [apply T_guardSend|]. intros ? Hj.
  eapply triple_bind0; [by apply T_maybe_humanize|]. intros _ _.
  the_send. repeat tstep.
Qed.

Lemma T_doReact al raw : T al 1 (doReact raw) (fun _ => True).
Proof.
  unfold doReact. repeat tstep.
  eapply triple_bind0; [apply T_guardSend|]. intros ? Hj. the_send. repeat tstep.
Qed.

Lemma T_doSendReply al raw : T al 1 (doSendReply raw) (fun _ => True).
Proof.
  unfold doSendReply. repeat tstep. gate. unblocked.
  apply T_send; [apply (triple_op (B:=B) event_ok _ (OReply _ _)); done|]. intros ?.
  repeat tstep.
Qed.

Lemma T_doSendForward al raw : T al 1 (doSendForward raw) (fun _ => True).
Proof.
  unfold doSendForward. repeat tstep. gate. unblocked.
  apply T_send; [apply (triple_op (B:=B) event_ok _ (OForward _ _ _)); done|]. intros ?.
  repeat tstep.
Qed.

Lemma T_doSendListResponse al raw : T al 1 (doSendListResponse raw) (fun _ => True).
Proof.
  unfold doSendListResponse. repeat tstep. gate. unblocked.
  eapply triple_bind0; [apply T_loadQuotedRaw|]. intros ? _. the_send. repeat tstep.
Qed.

Lemma T_doSendButtonResponse al raw : T al 1 (doSendButtonResponse raw) (fun _ => True).
Proof.
  unfold doSendButtonResponse. repeat tstep. gate. unblocked.
  eapply triple_bind0; [apply T_loadQuotedRaw|]. intros ? _. the_send. repeat tstep.
Qed.

Lemma T_doSendStar al raw : T al 0 (doSendStar raw) (fun _ => True).
Proof.
  unfold doSendStar. repeat tstep. gate.
  apply T_send; [apply (triple_op (B:=B) event_ok _ (OStar _ _ _)); done|]. intros ?.
  repeat tstep.
Qed.

Lemma T_doSetDisappearing al raw : T al 0 (doSetDisappearing raw) (fun _ => True).
Proof. unfold doSetDisappearing. repeat tstep. gate. op0. repeat tstep. Qed.

Lemma T_handleComposing al raw : T al 0 (handleComposing raw) (fun _ => True).
Proof. unfold handleComposing. repeat tstep. gate. op0. repeat tstep. Qed.

Lemma T_call_port {X} al method (o : outop) (k : reply_of o -> M B A W X) Q :
  authorised al o -> is_message (EvOut o) = false ->
  (forall r, T al 0 (k r) Q) -> T al 0 (mbind (call_port method o) k) Q.
Proof.
  intros Ho Hm Hk. eapply (triple_bind0 event_ok al 0 _ _ (fun _ => True)); [|auto].
  unfold call_port. apply T_op0; [done..|]. intros [r|e]; by tstep.
Qed.

Lemma T_doPresence al raw state : T al 0 (doPresence raw state) (fun _ => True).
Proof.
  unfold doPresence. repeat tstep. gate. apply T_call_port; [cbn; auto|done|].
  intros ?. by tstep.
Qed.

Lemma T_doMarkRead al raw : T al 0 (doMarkRead raw) (fun _ => True).
Proof.
  unfold doMarkRead. repeat tstep. gate.
  eapply (triple_bind0 event_ok al 0 _ _ (fun _ => True)).
  - destruct (mk_Played _).
    + eapply triple_mono; [apply triple_try, (triple_op (B:=B) event_ok al (OMarkPlayed _ _)); done|done|done].
    + eapply triple_mono; [apply triple_try, (triple_op (B:=B) event_ok al (OMarkRead _ _)); done|done|done].
  - intros [r|e] _; repeat tstep.
Qed.

Lemma T_doSendSeen al raw : T al 0 (doSendSeen raw) (fun _ => True).
Proof.
  unfold doSendSeen. repeat tstep. gate.
  eapply triple_bind0; [apply triple_try, triple_ask; exact I|]. intros [[id|]|e] _; [|repeat tstep..].
  op0. repeat tstep.
Qed.

Lemma T_chat_state al method chat mk :
  (forall j, al_allows al j ActionChatState = true -> authorised al (mk j)) ->
  (forall j, is_message (EvOut (mk j)) = false) ->
  T al 0 (chat_state_call method chat mk) (fun _ => True).
Proof.
  intros Hm Hi. unfold chat_state_call. repeat tstep. gate.
  apply T_op0; [by apply Hm|done|]. intros ?. repeat tstep.
Qed.

Lemma T_doMessageRevoke al raw : T al 0 (doMessageRevoke raw) (fun _ => True).
Proof. unfold doMessageRevoke. repeat tstep. gate. op0. repeat tstep. Qed.

Lemma T_doMessageEdit al raw : T al 0 (doMessageEdit raw) (fun _ => True).
Proof. unfold doMessageEdit. repeat tstep. gate. op0. repeat tstep. Qed.

Lemma T_check_each al js a :
  T al 0 (check_each js a) (fun _ => Forall (fun j => al_allows al j a = true) js).
Proof.
  induction js as [|j js IH]; cbn [check_each]; [by tstep|]. gate.
  eapply triple_mono; [exact IH|done|]. intros ? ?. by constructor.
Qed.

Lemma T_doGroupCreate al raw : T al 0 (doGroupCreate raw) (fun _ => True).
Proof.
  unfold doGroupCreate. repeat tstep.
  eapply triple_bind0; [apply T_check_each|]. intros ? ?.
  apply T_call_port; [done..|]. intros ?. by tstep.
Qed.

Lemma T_groupAddParticipants al raw : T al 0 (groupAddParticipants raw) (fun _ => True).
Proof.
  unfold groupAddParticipants.
  eapply (triple_bind0 event_ok al 0 _ _
    (fun _ => forall p, parseRosterParams raw = Ok p ->
       Forall (fun j => al_allows al j ActionGroupAdd = true) p.2)).
  - destruct (parseRosterParams raw) as [p|e]; [|by tstep].
    eapply triple_mono; [apply T_check_each|done|]. by intros ? Hp ? [= <-].
  - intros ? Hp. unfold method_value, runRoster. repeat tstep.
    apply T_op0; [cbn; auto|done|]. intros ?. repeat tstep.
Qed.

End Gate.

(** ** The policy theorems *)

Section Policy.
  Context {B A W : Type} `{RateBucket B, AllowlistPort A, Ports W}.

(** The methods whose handlers check the allowlist before their port. *)
Definition gated_methods : list string :=
  ["send"; "sendMedia"; "react"; "send.reply"; "send.listResponse"; "send.buttonResponse"; "message.forward";
   "markRead"; "sendSeen"; "presence.composing.start"; "presence.composing.stop"; "presence.recording.start";
   "presence.recording.stop"; "chat.composing"; "message.revoke"; "message.edit"; "message.star";
   "message.setDisappearing"; "chat.archive"; "chat.mute"; "chat.pin"; "chat.markUnread"; "group.create";
   "group.addParticipants"]%string.
(** The mutations whose handlers run no gate before their port; the labels
    push their patches without one, too. *)
Definition ungated_methods : list string :=
  ["contact.block"; "contact.unblock"; "privacy.set"; "session.logoutAll";
   "session.logout"; "profile.setName"; "profile.setStatus"; "group.leave";
   "group.removeParticipants"; "group.promote"; "group.demote"; "group.edit";
   "group.inviteRevoke"; "group.inviteJoin"; "poll.create"; "poll.vote"]%string.
Definition ungated_labels : list string := ["labels.create"; "labels.delete"; "labels.assign"; "labels.unassign"]%string.
(** The queries of the server, and the rows whose handlers ask WhatsApp for
    nothing that the allowlist speaks of: the daemon's own stores, its session
    and the downloads of its media. *)
Definition asking_methods : list string := ["contact.blocklist"; "privacy.get"; "contacts.profilePhoto"; "group.inviteGet"]%string.
Definition own_methods : list string :=
  ["pair"; "wait"; "status"; "health"; "groups"; "groups.get"; "contacts.lookup"; "contacts.search"; "contacts.list";
   "contacts.annotate"; "contacts.sync"; "contacts.resolve.confirm"; "contact.resolve"; "thread.get"; "messages.search";
   "draft.list"; "draft.get"; "draft.create"; "draft.approve"; "draft.reject"; "webhook.add"; "webhook.list";
   "webhook.remove"; "webhook.deliveries"; "webhook.replay"; "media.resolve"; "media.download"; "media.fetchBytes";
   "media.gc"; "schedule.send"; "schedule.list"; "schedule.cancel"; "schedule.update"; "labels.list";
   "embeddings.status"; "embeddings.purge"]%string.

Lemma T_reads al raw :
  triple (B:=B) (A:=A) (W:=W) event_ok al 0 (handleContactBlocklist raw) (fun _ => True)
  /\ triple (B:=B) (A:=A) (W:=W) event_ok al 0 (handlePrivacyGet raw) (fun _ => True)
  /\ triple (B:=B) (A:=A) (W:=W) event_ok al 0 (handleProfileAvatar raw) (fun _ => True)
  /\ triple (B:=B) (A:=A) (W:=W) event_ok al 0 (doGroupInvite raw false) (fun _ => True).
Proof.
  repeat split.
  - unfold handleContactBlocklist. apply triple_guard; intros _.
    eapply triple_bind0; [apply triple_try, triple_ask; exact I|].
    intros [?|?] _; [by apply triple_ret|apply triple_fail].
  - unfold handlePrivacyGet. apply triple_guard; intros _.
    eapply triple_bind0; [apply triple_try, triple_ask; exact I|].
    intros [?|?] _; [by apply triple_ret|apply triple_fail].
  - unfold handleProfileAvatar. apply triple_guard; intros _. apply T_lift0; intros p _.
    apply triple_guard; intros _. apply T_lift0; intros j _.
    destruct (ParseAvatarSize p.2); [|apply triple_fail].
    eapply triple_bind0; [apply triple_try, triple_ask; exact I|].
    intros [?|?] _; [by apply triple_ret|apply triple_fail].
  - unfold doGroupInvite. apply triple_guard; intros _. apply T_lift0; intros p _.
    apply triple_guard; intros _. apply T_lift0; intros j _.
    eapply triple_bind0; [apply triple_try, triple_ask; exact I|].
    intros [?|?] _; [by apply triple_ret|apply triple_fail].
Qed.

Ltac at_most1 := eapply triple_mono; [|apply Nat.le_0_l|done].

Lemma T_Handle elsewhere al m raw :
  m ∈ gated_methods ++ asking_methods -> triple (B:=B) (A:=A) (W:=W) event_ok al 1 (Handle elsewhere m raw) (fun _ => True).
Proof.
  intros Hm. destruct (T_reads al raw) as (R1 & R2 & R3 & R4). cbn [gated_methods asking_methods app] in Hm.
  repeat (apply elem_of_cons in Hm as [->|Hm]); [..|by apply not_elem_of_nil in Hm].
  all: cbn [Handle method_table assoc String.eqb Ascii.eqb Bool.eqb].
  all: lazymatch goal with
  | |- triple _ _ _ (doSend _) _ => apply T_doSend
  | |- triple _ _ _ (doSendMedia _) _ => apply T_doSendMedia
  | |- triple _ _ _ (doReact _) _ => apply T_doReact
  | |- triple _ _ _ (doSendReply _) _ => apply T_doSendReply
  | |- triple _ _ _ (doSendForward _) _ => apply T_doSendForward
  | |- triple _ _ _ (doSendListResponse _) _ => apply T_doSendListResponse
  | |- triple _ _ _ (doSendButtonResponse _) _ => apply T_doSendButtonResponse
  | |- triple _ _ _ (doMarkRead _) _ => at_most1; apply T_doMarkRead
  | |- triple _ _ _ (doSendSeen _) _ => at_most1; apply T_doSendSeen
  | |- triple _ _ _ (handleComposing _) _ => at_most1; apply T_handleComposing
  | |- triple _ _ _ (doMessageRevoke _) _ => at_most1; apply T_doMessageRevoke
  | |- triple _ _ _ (doMessageEdit _) _ => at_most1; apply T_doMessageEdit
  | |- triple _ _ _ (doSendStar _) _ => at_most1; apply T_doSendStar
  | |- triple _ _ _ (doSetDisappearing _) _ => at_most1; apply T_doSetDisappearing
  | |- triple _ _ _ (doGroupCreate _) _ => at_most1; apply T_doGroupCreate
  | |- triple _ _ _ (groupAddParticipants _) _ => at_most1; apply T_groupAddParticipants
  | |- triple _ _ _ (doPresence _ _) _ => at_most1; apply T_doPresence
  | |- triple _ _ _ (handleContactBlocklist _) _ => at_most1; exact R1
  | |- triple _ _ _ (handlePrivacyGet _) _ => at_most1; exact R2
  | |- triple _ _ _ (handleProfileAvatar _) _ => at_most1; exact R3
  | |- triple _ _ _ (doGroupInvite _ _) _ => at_most1; exact R4
  | |- _ => unfold doChatArchive, doChatMute, doChatPin, doChatMarkUnread;
            apply triple_guard; intros _; apply T_lift0; intros ? _; cbn zeta;
            at_most1; apply T_chat_state; [by intros|done]
  end.
Qed.

(** C1. The allowlist cannot be bypassed on the methods that check it.  For
    each of the 24 gated methods and the four queries of the server, whatever
    the parameters (with or without followCanonical and humanize) and whatever
    the upstream answers, every outbound operation is one the allowlist grants
    for its actual target, at most one message is emitted, and the allowlist
    is not changed.  The rest of the dispatcher's table is named: the twenty
    mutations that run no gate, and the rows that work on the daemon's own
    state; every method the action table lists is gated or among the ungated. *)
Theorem gated_methods_respect_allowlist (elsewhere : component -> string -> RawMessage -> M B A W json) :
  (forall (method : string) (raw : RawMessage) (st : St B A W), method ∈ gated_methods ++ asking_methods ->
    exists evs,
      st_trace (Handle elsewhere method raw st).2 = st_trace st ++ evs
      /\ Forall (event_ok (sp_allowlist (st_safety st))) evs
      /\ (sends evs <= 1)%nat
      /\ sp_allowlist (st_safety (Handle elsewhere method raw st).2) = sp_allowlist (st_safety st))
  /\ map fst (method_table (B:=B) (A:=A) (W:=W)) ≡ₚ gated_methods ++ ungated_methods ++ ungated_labels ++ asking_methods ++ own_methods
  /\ Forall (fun ma => ma.1 ∈ gated_methods ++ ungated_methods) methodActions.
Proof.
  split; [|split].
  - intros method raw st Hm. destruct (T_Handle elsewhere (sp_allowlist (st_safety st)) method raw Hm st eq_refl)
      as (evs & Ha & Ht & Hf & Hn & _). exists evs. auto.
  - apply (bool_decide_unpack _). vm_compute. exact I.
  - apply (bool_decide_unpack _). vm_compute. exact I.
Qed.

(** C2. Ordinary refusals cost nothing and leak nothing: when the recipient
    lacks the send permission, a [send] (humanized or not, followed or not)
    answers ErrNotAllowlisted after exactly one event, the audit record of
    the denial; no typing indicator, upstream query or token is spent. *)
Theorem refused_send_is_silent (raw : RawMessage) (p : sendParams) (j : JID) (ms : list JID)
    (st : St B A W) :
  parseParams dec_sendParams raw = Ok p ->
  str_empty (sp_To p) = false -> str_empty (sp_Body p) = false ->
  Parse (sp_To p) = Ok j -> parseMentions (sp_Mentions p) = Ok ms ->
  al_allows (sp_allowlist (st_safety st)) j ActionSend = false ->
  let '(r, st') := doSend raw st in
  r = Err (ERpc app.ErrNotAllowlisted)
  /\ st_safety st' = st_safety st
  /\ st_trace st' = st_trace st ++
       [EvAudit (NewAuditEvent "dispatcher" AuditSend j "denied:allowlist" "action=send"
                   (clock (st_world st)))].
Proof.
  intros Hp Ht Hb Hj Hm Hd.
  unfold doSend, mbind, lift, parse_jid. rewrite Hp. unfold mguard. rewrite Ht, Hb, Hj, Hm. cbn.
  unfold guardSendFollowing, guardSend, checkSafetyAndAudit, safety_check, Check_, mbind, mtry.
  rewrite Hd. cbn. unfold recordSafetyAudit, do_audit. cbn.
  destruct (audit_Record _ _) as [? w]. cbn. destruct (sp_FollowCanonical p); cbn; done.
Qed.

(** The block list is consulted live before every send: when the blocker
    is wired, a passed [guardSend] means the last thing it did was to read
    the server's list in the state it returns, successfully and without the
    recipient in it. *)
Theorem guardSend_not_blocked (j : JID) (st st' : St B A W) :
  wired (W:=W) PBlocker = true -> guardSend j st = (Ok tt, st') ->
  exists w blocked evs,
    ask QListBlocked w = (Ok blocked, st_world st') /\ j ∉ (blocked : list JID)
    /\ st_trace st' = st_trace st ++ evs ++ [EvAsk QListBlocked].
Proof.
  intros Hw. unfold guardSend, mbind.
  pose proof (T_checkSafety (sp_allowlist (st_safety st)) j ActionSend st eq_refl) as Hc.
  destruct (checkSafetyAndAudit j ActionSend st) as [[[]|e] st1] eqn:E1; [|done].
  destruct Hc as (evs & _ & Htr & _). cbn in Htr.
  unfold notBlockedOrAudit, ensureNotBlocked, mbind, mtry. rewrite Hw. cbn [negb].
  unfold do_ask. destruct (ask QListBlocked (st_world st1)) as [[blocked|e] w] eqn:Eq; cbn.
  - destruct (bool_decide (j ∈ (blocked : list JID))) eqn:Hin; cbn.
    + unfold recordAudit, do_audit. cbn. by destruct (audit_Record _ w).
    + intros [= <-]. cbn. exists (st_world st1), blocked, evs. rewrite Htr, <- app_assoc.
      split; [done|]. split; [|done]. by apply bool_decide_eq_false in Hin.
  - unfold recordAudit, do_audit. cbn. by destruct (audit_Record _ w).
Qed.

(** followCanonical never picks a recipient silently: the JID a send goes
    to is the requested one with an empty resolvedTo, or, only when the caller
    opted in, the parsed canonical JID of the server's moved answer, named in
    resolvedTo and itself authorised. *)
Theorem guardSendFollowing_target (j j' : JID) (follow : bool) (resolved : string)
    (st st' : St B A W) :
  guardSendFollowing j follow st = (Ok (j', resolved), st') ->
  al_allows (sp_allowlist (st_safety st)) j' ActionSend = true
  /\ ((j' = j /\ resolved = "")
      \/ (follow = true /\ resolved = JID_String j' /\ wf_jid j' = true
          /\ exists e moved st1, guardSend j st = (Err e, st1) /\ as_moved e = Some moved
               /\ Parse moved = Ok j')).
Proof.
  intros Hg.
  pose proof (T_guardSendFollowing (sp_allowlist (st_safety st)) j follow st eq_refl)
    as (evs & _ & _ & _ & _ & HQ).
  rewrite Hg in HQ. specialize (HQ _ eq_refl). cbn in HQ. split; [done|].
  unfold guardSendFollowing, mbind, mtry in Hg.
  destruct (guardSend j st) as [[[]|e] st1] eqn:Eg; cbn in Hg.
  - left. by injection Hg as <- <- <-.
  - right. destruct follow; [|done]. destruct (as_moved e) as [moved|] eqn:Em; [|done].
    destruct (Parse moved) as [canonical|] eqn:Ep; [|done].
    destruct (guardSend canonical st1) as [[[]|e2] st2]; [|done]. injection Hg as <- <- <-.
    split; [done|]. split; [done|]. split; [by eapply Parse_wf|]. by exists e, moved, st1.
Qed.

End Policy.

(** ** A concrete world for the witnesses *)

(** Everything wired, everything succeeds; the world is the clock. *)
#[global] Instance demo_ports : Ports Z := {
  wired _ := true;
  perform o w :=
    (match o as o return result (reply_of o) with
     | OSend _ => Ok "3EB0"%string | OReply _ _ => Ok "3EB1"%string
     | OForward _ _ _ => Err (ENew "send failed for 5511999990000: body=secret")
     | OPollCreate _ _ _ _ => Ok "3EB3"%string
     | OGroupCreate _ _ => Ok zeroGroup | OInviteJoin _ => Ok zeroGroup
     | OInviteRevoke _ => Ok (mkInviteLink zeroJID "" "")
     | _ => Ok tt
     end, w);
  ask q w :=
    (match q as q return result (answer_of q) with
     | QOnWhatsApp p => Ok (mkJID p serverUser, true)
     | QListBlocked => Ok []
     | QRawProto _ _ => Ok "raw"%string | QAvatar _ _ => Ok "/avatar"%string
     | QResolveLID j => Ok j | QResolvePN j => Ok j
     | QLatestIncoming _ => Ok None
     | QInviteGet _ => Ok (mkInviteLink zeroJID "" "")
     | QPrivacyGet => Ok []
     end, w);
  audit_Record _ w := (Ok tt, w);
  clock w := w;
  wait d w := (Ok tt, w + d);
  jitter d _ := d;
}.

Definition demo_user : JID := mkJID "5511999990000" serverUser.
Definition demo_state (al : Allowlist) : St tokens Allowlist Z :=
  mkSt (mkSafety al (NewRateLimiterAt 0 (30 * 24 * hour))) 0 [].
Definition demo_allow : Allowlist := Allowlist_Grant NewAllowlist demo_user [ActionSend].
Definition demo_send : RawMessage :=
  Some (JObj [("to", JStr "+55 11 99999-0000"); ("body", JStr "oi"); ("humanize", JBool true);
              ("idempotencyKey", JStr "k1")]%string).

Definition demo_elsewhere (c : component) (m : string) (raw : RawMessage) : M tokens Allowlist Z json := mfail ErrMethodNotFound_.
Lemma gated_methods_respect_allowlist_witness :
  exists evs, st_trace (Handle demo_elsewhere "send" demo_send (demo_state demo_allow)).2 = [] ++ evs
    /\ sends evs = 1%nat.
Proof.
  destruct (proj1 (gated_methods_respect_allowlist demo_elsewhere) "send" demo_send (demo_state demo_allow) (list_elem_of_here _ _))
    as (evs & Ht & _). exists evs. split; [exact Ht|].
  cbn [demo_state st_trace app] in Ht. rewrite <- Ht. vm_compute. reflexivity.
Defined.

Lemma refused_send_is_silent_witness :
  (doSend demo_send (demo_state NewAllowlist)).1 = Err (ERpc app.ErrNotAllowlisted).
Proof.
  pose proof (refused_send_is_silent demo_send
    (mkSendParams "+55 11 99999-0000" "oi" true [] false) demo_user [] (demo_state NewAllowlist)
    eq_refl eq_refl eq_refl eq_refl eq_refl eq_refl) as Hr.
  destruct (doSend demo_send (demo_state NewAllowlist)) as [r st']. apply Hr.
Defined.

Lemma guardSend_not_blocked_witness :
  exists w blocked evs st',
    ask QListBlocked w = (Ok blocked, st_world st') /\ demo_user ∉ (blocked : list JID)
    /\ st_trace (A:=Allowlist) (B:=tokens) st' = [] ++ evs ++ [EvAsk QListBlocked].
Proof.
  assert (R : (guardSend demo_user (demo_state demo_allow)).1 = Ok tt) by (vm_compute; reflexivity).
  destruct (guardSend demo_user (demo_state demo_allow)) as [r st'] eqn:E.
  cbn in R. subst r.
  assert (Hw : wired (W:=Z) PBlocker = true) by reflexivity.
  destruct (guardSend_not_blocked demo_user (demo_state demo_allow) st' Hw E)
    as (w & bl & evs & H). exists w, bl, evs, st'. exact H.
Defined.

Lemma guardSendFollowing_target_witness :
  al_allows demo_allow demo_user ActionSend = true.
Proof.
  assert (R : (guardSendFollowing demo_user true (demo_state demo_allow)).1 = Ok (demo_user, ""%string))
    by (vm_compute; reflexivity).
  destruct (guardSendFollowing demo_user true (demo_state demo_allow)) as [r st'] eqn:E.
  cbn in R. subst r.
  apply (guardSendFollowing_target demo_user demo_user true "" (demo_state demo_allow) st' E).
Defined.

(** ** Where the policy table is not enforced *)

(** Every ungated method is nevertheless in the FR-050 table
    [methodActions], as a mutation the allowlist middleware gates. *)
Lemma ungated_methods_are_in_table :
  forallb (fun m => match ActionForMethod m with Some _ => true | None => false end)
    ungated_methods = true.
Proof. reflexivity. Qed.

Section Findings.
  Context {B A W : Type} `{RateBucket B, AllowlistPort A, Ports W}.

(** Polls bypass the safety pipeline: the manual says poll sends cross the
    allowlist as a send and count against the send rate limits, and the table
    lists poll.create under the send action, but for every allowlist and
    limiter a well-formed poll.create reaches WhatsApp as its only event,
    with no check, token, block-list test or audit record. *)
Theorem poll_create_bypasses_policy elsewhere (raw : RawMessage) (p : pollCreateParams) (chat : JID)
    (st : St B A W) :
  wired (W:=W) PPolls = true ->
  parseParams dec_pollCreateParams raw = Ok p -> poll_validate p = Ok tt ->
  Parse (pc_Chat p) = Ok chat ->
  let st' := (Handle elsewhere "poll.create" raw st).2 in
  ActionForMethod "poll.create" = Some ActionSend
  /\ st_safety st' = st_safety st
  /\ st_trace st' = st_trace st ++
       [EvOut (OPollCreate chat (pc_Question p) (pc_Options p) (pc_Selectable p))].
Proof.
  intros Hw Hp Hv Hc.
  change (Handle elsewhere "poll.create" raw) with (doPollCreate (B:=B) (A:=A) (W:=W) raw).
  unfold doPollCreate, mbind, lift, parse_jid, mguard. rewrite Hw. cbn [negb].
  rewrite Hp, Hv, Hc. unfold call_port, mbind, mtry, do_op.
  destruct (perform _ _) as [[id|e] w]; cbn; auto.
Qed.

(** The append-only audit log is meant to hold only an error's code
    (SEC-04, [auditErrDetail]), and the send, sendMedia and react handlers
    keep it so, but a failed message.forward records the upstream error's
    whole text as its detail, whatever that text embeds. *)
Theorem forward_audit_keeps_error_text (raw : RawMessage) (to src : JID) (e : goerr)
    (p : sendForwardParams) (st st1 : St B A W) :
  wired (W:=W) PForward = true ->
  parseParams dec_sendForwardParams raw = Ok p ->
  str_empty (sfp_To p) || str_empty (sfp_SourceChat p) || str_empty (sfp_MessageID p) = false ->
  Parse (sfp_To p) = Ok to -> Parse (sfp_SourceChat p) = Ok src ->
  guardSend to st = (Ok tt, st1) ->
  (perform (OForward to src (sfp_MessageID p)) (st_world st1)).1 = Err e ->
  exists t,
    st_trace (doSendForward raw st).2 = st_trace st1 ++
      [EvOut (OForward to src (sfp_MessageID p));
       EvAudit (NewAuditEvent "dispatcher" AuditSend to "error" (Error e) t)]
    /\ (doSendForward raw st).1 = Err (wrapc "message.forward" e).
Proof.
  intros Hw Hp He Ht Hs Hg Hr.
  enough (E : exists t w', doSendForward raw st = (Err (wrapc "message.forward" e),
    mkSt (st_safety st1) w' (st_trace st1 ++ [EvOut (OForward to src (sfp_MessageID p));
       EvAudit (NewAuditEvent "dispatcher" AuditSend to "error" (Error e) t)]))).
  { destruct E as (t & w' & ->). by exists t. }
  unfold doSendForward, mguard. rewrite Hw. cbn [negb].
  unfold mbind at 1, lift at 1. rewrite Hp, He.
  unfold mbind at 1, lift at 1, parse_jid at 1. rewrite Ht.
  unfold mbind at 1, lift at 1, parse_jid at 1. rewrite Hs.
  unfold guardSend, mbind in Hg. unfold mbind at 1.
  destruct (checkSafetyAndAudit to ActionSend st) as [[[]|] st0]; [|done].
  unfold mbind at 1. rewrite Hg. unfold mbind at 1, send_audited, mbind, mtry, do_op.
  destruct (perform _ _) as [r w]. cbn in Hr. subst r.
  unfold recordAudit, do_audit. cbn. destruct (audit_Record _ w) as [? w']. cbn.
  exists (clock w), w'. by rewrite <- app_assoc.
Qed.

(** A group roster method on a daemon without a GroupAdmin does not answer
    method-not-found as its nil test intends: the method value of the nil
    interface panics first. *)
Theorem roster_without_group_admin_panics elsewhere (m : string) (raw : RawMessage) (st : St B A W) :
  wired (W:=W) PGroupAdmin = false ->
  m ∈ ["group.removeParticipants"; "group.promote"; "group.demote"]%string ->
  (Handle elsewhere m raw st).1 = Err nil_deref
  /\ (Handle elsewhere "group.leave" raw st).1 = Err (ERpc app.ErrMethodNotFound).
Proof.
  intros Hw Hm. split.
  - repeat (apply elem_of_cons in Hm as [->|Hm]); [..|by apply not_elem_of_nil in Hm].
    all: unfold Handle; cbn; unfold groupRemoveParticipants, groupPromote, groupDemote,
      method_value, mguard; by rewrite Hw.
  - unfold Handle; cbn. unfold doGroupLeave, mguard. by rewrite Hw.
Qed.

End Findings.

Definition demo_poll : RawMessage :=
  Some (JObj [("chat", JStr "5511999990000@s.whatsapp.net"); ("question", JStr "lunch?");
              ("options", JArr [JStr "yes"; JStr "no"])]%string).

Lemma poll_create_bypasses_policy_witness :
  st_trace (Handle demo_elsewhere "poll.create" demo_poll (demo_state NewAllowlist)).2
  = [] ++ [EvOut (OPollCreate demo_user "lunch?" ["yes"; "no"] 0)]%string.
Proof.
  apply (poll_create_bypasses_policy demo_elsewhere demo_poll
    (mkPollCreateParams "5511999990000@s.whatsapp.net" "lunch?" ["yes"; "no"]%string 0)
    demo_user (demo_state NewAllowlist)); vm_compute; reflexivity.
Defined.

Definition demo_forward : RawMessage :=
  Some (JObj [("to", JStr "5511999990000"); ("sourceChat", JStr "5511888880000");
              ("messageId", JStr "3EB0")]%string).

Lemma forward_audit_keeps_error_text_witness :
  (doSendForward demo_forward (demo_state demo_allow)).1
  = Err (wrapc "message.forward" (ENew "send failed for 5511999990000: body=secret")).
Proof.
  assert (R : (guardSend demo_user (demo_state demo_allow)).1 = Ok tt) by (vm_compute; reflexivity).
  destruct (guardSend demo_user (demo_state demo_allow)) as [r st1] eqn:E.
  cbn in R. subst r.
  assert (Hw : wired (W:=Z) PForward = true) by reflexivity.
  destruct (forward_audit_keeps_error_text demo_forward demo_user
    (mkJID "5511888880000" serverUser) (ENew "send failed for 5511999990000: body=secret")
    (mkSendForwardParams "5511999990000" "5511888880000" "3EB0") (demo_state demo_allow) st1
    Hw eq_refl eq_refl eq_refl eq_refl E eq_refl) as (t & _ & H).
  exact H.
Defined.

(** The same world with no optional port. *)
Definition bare_ports : Ports Z := {|
  wired _ := false; perform := perform; ask := ask; audit_Record := audit_Record;
  clock := clock; wait := wait; jitter := jitter |}.

Lemma roster_without_group_admin_panics_witness :
  (@Handle _ _ _ _ _ bare_ports demo_elsewhere "group.promote" None (demo_state NewAllowlist)).1 = Err nil_deref.
Proof.
  apply (@roster_without_group_admin_panics tokens Allowlist Z _ _ bare_ports demo_elsewhere).
  - reflexivity.
  - right. left.
Defined.

(** ** Idempotent retries *)

Section Retry.
  Context {B A W I : Type} `{RateBucket B, AllowlistPort A, Ports W, IdempotencyLaw I json}.

(** A keyed retry does nothing twice: once a request with an idempotency
    key succeeded, the same request within 24 hours gives the recorded answer
    from any later state of the daemon, without running the handler: no
    outbound operation, no audit record, no token. *)
Theorem keyed_retry_replays (profile method : string) (fmt sha : string -> string)
    (raw : RawMessage) (run : M B A W json) (i i1 : I) (s s1 s2 : St B A W) (out : json) :
  extractIdempotencyKey raw <> ""%string -> wired (W:=W) PIdempotency = true ->
  ip_row i (method, profile, extractIdempotencyKey raw) = None ->
  idempotentCall profile fmt sha method raw run (i, s) = (Ok out, (i1, s1)) ->
  in_day (clock (st_world s)) (clock (st_world s2)) ->
  idempotentCall profile fmt sha method raw run (i1, s2) = (Ok out, (i1, s2)).
Proof.
  intros Hk Hw Hn Hc Ht. unfold idempotentCall in *. cbn zeta in *.
  pose proof (proj2 (str_empty_false _) Hk) as Hk'. rewrite Hk', Hw in *. cbn [negb orb] in *.
  destruct raw as [v|]; [|done]. cbn [paramsFingerprint] in *.
  rewrite ip_miss in Hc; [|done|by intros row Hrow; cbn [fst] in Hrow; rewrite Hn in Hrow].
  cbn [fst snd] in Hc.
  destruct (run s) as [[o|e] s'] eqn:Er; [|done]. injection Hc as -> <- <-.
  erewrite ip_hit; [| |cbn; rewrite ip_put_row; by rewrite decide_True|].
  - cbn. by rewrite String.eqb_refl.
  - done.
  - apply ip_ttl. apply Ht.
Qed.

End Retry.

Lemma keyed_retry_replays_witness :
  exists out i1 s1,
    idempotentCall "default" id id "send" demo_send (doSend demo_send)
      (NewIdempotencyStore, demo_state demo_allow) = (Ok out, (i1, s1))
    /\ idempotentCall "default" id id "send" demo_send (doSend demo_send)
         (i1, demo_state demo_allow) = (Ok out, (i1, demo_state demo_allow)).
Proof.
  assert (Hr : is_ok (idempotentCall "default" id id "send" demo_send (doSend demo_send)
      (NewIdempotencyStore, demo_state demo_allow)).1 = true) by (vm_compute; reflexivity).
  destruct (idempotentCall _ _ _ _ _ _ _) as [[out|e] [i1 s1]] eqn:Hf; [|discriminate Hr].
  exists out, i1, s1. split; [reflexivity|].
  apply (keyed_retry_replays "default" "send" id id demo_send (doSend demo_send)
    NewIdempotencyStore i1 (demo_state demo_allow) s1 (demo_state demo_allow) out).
  - discriminate.
  - reflexivity.
  - reflexivity.
  - exact Hf.
  - split; vm_compute; [discriminate|reflexivity].
Defined.
