(* ===== verification/Draft.v ===== *)
(** * The human-review queue: drafts and their two stores

    [internal/domain/draft.go] (the state machine pending_review ->
    approved | rejected | expired), [memory/draftstore.go] and
    [sqlitedrafts/drafts.go] (the two implementations of [app.DraftStore]),
    and [internal/app/draft_sweeper.go].  The class [DraftPort] is the port;
    [DraftLaw] is its contract against the abstract queue
    (profile, id) -> draft, which both stores discharge. *)
From S2P Require Import Prelude GoStd Errors Jid.

#[local] Open Scope Z_scope.

(** ** draft.go *)

Definition DraftExpiryWindow : Z := 30 * 60.

(** [DraftState] *)
Definition DraftPendingReview : Z := 1.
Definition DraftApproved : Z := 2.
Definition DraftRejected : Z := 3.
Definition DraftExpired : Z := 4.

Definition DraftState_String (s : Z) : string :=
  if s =? DraftPendingReview then "pending_review"
  else if s =? DraftApproved then "approved"
  else if s =? DraftRejected then "rejected"
  else if s =? DraftExpired then "expired"
  else "unknown".
Definition DraftState_IsValid (s : Z) : bool :=
  (s =? DraftPendingReview) || (s =? DraftApproved) || (s =? DraftRejected) || (s =? DraftExpired).
Definition DraftState_IsTerminal (s : Z) : bool :=
  (s =? DraftApproved) || (s =? DraftRejected) || (s =? DraftExpired).

(** [DraftKind] *)
Definition DraftKindSend : Z := 1.
Definition DraftKindSendMedia : Z := 2.
Definition DraftKindReact : Z := 3.
Definition DraftKindMarkRead : Z := 4.
Definition DraftKindScheduleSend : Z := 5.
Definition DraftKindGroupAddParticipant : Z := 6.
Definition DraftKindGroupCreate : Z := 7.

Definition DraftKind_String (k : Z) : string :=
  if k =? DraftKindSend then "send"
  else if k =? DraftKindSendMedia then "send_media"
  else if k =? DraftKindReact then "react"
  else if k =? DraftKindMarkRead then "mark_read"
  else if k =? DraftKindScheduleSend then "schedule_send"
  else if k =? DraftKindGroupAddParticipant then "group_add_participant"
  else if k =? DraftKindGroupCreate then "group_create"
  else "unknown".
Definition DraftKind_IsValid (k : Z) : bool := (DraftKindSend <=? k) && (k <=? DraftKindGroupCreate).
Definition AlwaysDraft (k : Z) : bool :=
  (k =? DraftKindGroupCreate) || (k =? DraftKindGroupAddParticipant).

(** [DraftDecider] *)
Definition DraftDeciderCLI : string := "cli".
Definition DraftDeciderSkill : string := "skill".
Definition DraftDeciderTimeout : string := "timeout".
Definition DraftDecider_IsValid (d : string) : bool :=
  (d =? DraftDeciderCLI)%string || (d =? DraftDeciderSkill)%string || (d =? DraftDeciderTimeout)%string.

Record Draft := mkDraft {
  dr_ID : string; dr_Profile : string; dr_Kind : Z; dr_PayloadJSON : string;
  dr_TargetJID : JID; dr_State : Z; dr_CreatedAt : Z; dr_ExpiresAt : Z;
  dr_DecidedAt : Z; dr_DecidedBy : string; dr_Reason : string }.

#[global] Instance Draft_eq_dec : EqDecision Draft.
Proof. solve_decision. Defined.

Definition blank (s : string) : bool := (trim_space s =? "")%string.

Definition Draft_Validate (d : Draft) : check goerr :=
  fail_if blank (dr_ID d) with wrapd domain.ErrDraftInvariant "id is empty" ;;
  fail_if blank (dr_Profile d) with wrapd domain.ErrDraftInvariant "profile is empty" ;;
  fail_if negb (DraftKind_IsValid (dr_Kind d)) with wrapd domain.ErrDraftInvariant "kind %d" ;;
  fail_if negb (DraftState_IsValid (dr_State d)) with wrapd domain.ErrDraftInvariant "state %d" ;;
  fail_if blank (dr_PayloadJSON d) with wrapd domain.ErrDraftInvariant "payload_json is empty" ;;
  fail_if dr_CreatedAt d <=? 0
    with wrapd domain.ErrDraftInvariant "created_at %d must be positive" ;;
  fail_if negb (dr_ExpiresAt d =? wrap64 (dr_CreatedAt d + DraftExpiryWindow))
    with wrapd domain.ErrDraftInvariant "expires_at %d must equal created_at+%d" ;;
  fail_if DraftState_IsTerminal (dr_State d) && (dr_DecidedAt d <=? 0)
    with wrapd domain.ErrDraftInvariant "terminal state %s missing decided_at" ;;
  fail_if DraftState_IsTerminal (dr_State d)
          && (negb (dr_State d =? DraftExpired) && negb (DraftDecider_IsValid (dr_DecidedBy d)))
    with wrapd domain.ErrDraftInvariant "terminal state %s missing decided_by" ;;
  fail_if (dr_Kind d =? DraftKindGroupCreate) && negb (JID_IsZero (dr_TargetJID d))
    with wrapd domain.ErrDraftInvariant "group_create must have zero target_jid" ;;
  fail_if negb (dr_Kind d =? DraftKindGroupCreate) && JID_IsZero (dr_TargetJID d)
    with wrapd domain.ErrDraftInvariant "kind %s requires target_jid" ;;
  Ok tt.

Definition NewDraft (id profile : string) (kind : Z) (payloadJSON : string) (target : JID)
    (now : Z) : result Draft :=
  let d := mkDraft id profile kind payloadJSON target DraftPendingReview now
             (wrap64 (now + DraftExpiryWindow)) 0 "" "" in
  let* _ := Draft_Validate d in Ok d.

(** The fields a transition writes. *)
Definition decided (d : Draft) (state at_ : Z) (by_ reason : string) : Draft :=
  mkDraft (dr_ID d) (dr_Profile d) (dr_Kind d) (dr_PayloadJSON d) (dr_TargetJID d)
    state (dr_CreatedAt d) (dr_ExpiresAt d) at_ by_ reason.

Definition Draft_Approve (d : Draft) (at_ : Z) (by_ : string) : result Draft :=
  fail_if negb (dr_State d =? DraftPendingReview)
    with wrapd domain.ErrDraftState "cannot approve from %s" ;;
  fail_if negb (DraftDecider_IsValid by_) || (by_ =? DraftDeciderTimeout)%string
    with wrapd domain.ErrDraftState "approve requires cli|skill decider, got %q" ;;
  fail_if at_ <? dr_CreatedAt d
    with wrapd domain.ErrDraftInvariant "decided_at %d before created_at %d" ;;
  Ok (decided d DraftApproved at_ by_ (dr_Reason d)).

Definition Draft_Reject (d : Draft) (at_ : Z) (by_ reason : string) : result Draft :=
  fail_if negb (dr_State d =? DraftPendingReview)
    with wrapd domain.ErrDraftState "cannot reject from %s" ;;
  fail_if negb (DraftDecider_IsValid by_) || (by_ =? DraftDeciderTimeout)%string
    with wrapd domain.ErrDraftState "reject requires cli|skill decider, got %q" ;;
  fail_if at_ <? dr_CreatedAt d
    with wrapd domain.ErrDraftInvariant "decided_at %d before created_at %d" ;;
  Ok (decided d DraftRejected at_ by_ reason).

Definition Draft_ExpireAt (d : Draft) (at_ : Z) : result Draft :=
  if DraftState_IsTerminal (dr_State d) then Ok d
  else
    fail_if at_ <? dr_ExpiresAt d
      with wrapd domain.ErrDraftState "cannot expire at %d before expires_at %d" ;;
    Ok (decided d DraftExpired at_ DraftDeciderTimeout (dr_Reason d)).

(** ** The port *)

Abbreviation draft_key := (string * string)%type. (* profile, id *)

(** Where a call can fail outside the store's own logic: a cancelled context
    (checked first), or a database statement.  A failed transaction rolls
    back. *)
Inductive stage := SBegin | SQuery | SExec | SCommit.
Abbreviation fault := (option (stage * goerr)).
Definition fails_at (f : fault) (s : stage) : option goerr :=
  match f, s with
  | Some (SBegin, e), SBegin | Some (SQuery, e), SQuery
  | Some (SExec, e), SExec | Some (SCommit, e), SCommit => Some e
  | _, _ => None
  end.

Class DraftPort (D : Type) := {
  ds_row : D -> draft_key -> option Draft;      (* the queue it represents *)
  ds_inv : D -> Prop;
  ds_storable : Draft -> Prop;
  ds_Put : fault -> Draft -> D -> check goerr * D;
  ds_Get : fault -> string -> string -> D -> result Draft;
  ds_List : fault -> string -> Z -> Z -> D -> result (list Draft);
  ds_Approve : fault -> string -> string -> time -> string -> D -> result Draft * D;
  ds_Reject : fault -> string -> string -> time -> string -> string -> D -> result Draft * D;
  ds_ExpireDue : fault -> string -> time -> D -> result Z * D }.

(** ** memory/draftstore.go *)

Record DraftStore := mkDraftStore {
  mds_rows : gmap draft_key Draft; mds_putSeq : Z; mds_order : gmap draft_key Z }.
Definition NewDraftStore : DraftStore := mkDraftStore ∅ 0 ∅.

Definition memory_ErrNotFound : goerr := ENew "memory: not found".
Definition memory_ErrInvalidLimit : goerr := ENew "memory: invalid limit".

Definition draft_key_of (d : Draft) : draft_key := (dr_Profile d, dr_ID d).

Definition mem_Put (ctx : fault) (d : Draft) (s : DraftStore) : check goerr * DraftStore :=
  match ctx with
  | Some (_, e) => (Err e, s)
  | None =>
    match Draft_Validate d with
    | Err e => (Err e, s)
    | Ok _ =>
      let k := draft_key_of d in
      let '(seq, order) :=
        match mds_order s !! k with
        | Some _ => (mds_putSeq s, mds_order s)
        | None => (wrap64 (mds_putSeq s + 1), <[k := wrap64 (mds_putSeq s + 1)]> (mds_order s))
        end in
      (Ok tt, mkDraftStore (<[k := d]> (mds_rows s)) seq order)
    end
  end.

Definition mem_Get (ctx : fault) (profile id : string) (s : DraftStore) : result Draft :=
  match ctx with
  | Some (_, e) => Err e
  | None =>
    match mds_rows s !! (profile, id) with
    | None => Err (EWrap "" memory_ErrNotFound ": draft %s/%s")
    | Some d => Ok d
    end
  end.

Definition seq_le (a b : Draft * Z) : Prop := a.2 <= b.2.
#[local] Instance seq_le_dec : RelDecision seq_le.
Proof. intros a b. unfold seq_le. apply Z_le_dec. Defined.

Definition mem_List `{!MapRange draft_key Draft} (ctx : fault) (profile : string)
    (state limit : Z) (s : DraftStore) : result (list Draft) :=
  match ctx with
  | Some (_, e) => Err e
  | None =>
    fail_if limit <=? 0 with EWrap "" memory_ErrInvalidLimit ": limit %d" ;;
    let matches := map (fun kd => (kd.2, default 0 (mds_order s !! kd.1)))
      (List.filter (fun kd => (kd.1.1 =? profile)%string && (dr_State kd.2 =? state))
         (range (mds_rows s))) in
    Ok (take (Z.to_nat limit) (map fst (merge_sort seq_le matches)))
  end.

Definition mem_transition (ctx : fault) (profile id : string) (fn : Draft -> result Draft)
    (s : DraftStore) : result Draft * DraftStore :=
  match ctx with
  | Some (_, e) => (Err e, s)
  | None =>
    match mds_rows s !! (profile, id) with
    | None => (Err (EWrap "" memory_ErrNotFound ": draft %s/%s"), s)
    | Some d =>
      match fn d with
      | Err e => (Err e, s)
      | Ok next =>
        (Ok next, mkDraftStore (<[(profile, id) := next]> (mds_rows s)) (mds_putSeq s) (mds_order s))
      end
    end
  end.

Definition mem_Approve (ctx : fault) (profile id : string) (at_ : time) (by_ : string) :=
  mem_transition ctx profile id (fun d => Draft_Approve d (unix at_) by_).
Definition mem_Reject (ctx : fault) (profile id : string) (at_ : time) (by_ reason : string) :=
  mem_transition ctx profile id (fun d => Draft_Reject d (unix at_) by_ reason).

(** The loop of [ExpireDue] over the entries in the order the map yields
    them, with the rows and the count so far. *)
Fixpoint mem_expire_loop (profile : string) (at_ : Z) (l : list (draft_key * Draft))
    (rows : gmap draft_key Draft) (n : Z) : result Z * gmap draft_key Draft :=
  match l with
  | [] => (Ok n, rows)
  | (k, d) :: l =>
    if negb (k.1 =? profile)%string || negb (dr_State d =? DraftPendingReview)
    then mem_expire_loop profile at_ l rows n
    else if at_ <? dr_ExpiresAt d then mem_expire_loop profile at_ l rows n
    else match Draft_ExpireAt d at_ with
         | Err e => (Err e, rows)
         | Ok expired => mem_expire_loop profile at_ l (<[k := expired]> rows) (n + 1)
         end
  end.

Definition mem_ExpireDue `{!MapRange draft_key Draft} (ctx : fault) (profile : string)
    (at_ : time) (s : DraftStore) : result Z * DraftStore :=
  match ctx with
  | Some (_, e) => (Err e, s)
  | None =>
    let '(r, rows) := mem_expire_loop profile (unix at_) (range (mds_rows s)) (mds_rows s) 0 in
    (r, mkDraftStore rows (mds_putSeq s) (mds_order s))
  end.

(** ** sqlitedrafts/drafts.go

    A row of table [drafts], whose primary key is [id] alone. *)
Record DraftRow := mkDraftRow {
  rw_id : string; rw_profile : string; rw_kind : Z; rw_payload : string; rw_target : string;
  rw_state : Z; rw_created : Z; rw_expires : Z; rw_decided : Z; rw_by : string; rw_reason : string }.

Abbreviation DraftTable := (gmap string DraftRow).

Definition sqlitedrafts_ErrNotFound : goerr := ENew "sqlitedrafts: not found".

(** The arguments of the upsert of [Put]. *)
Definition draft_columns (d : Draft) : DraftRow :=
  mkDraftRow (dr_ID d) (dr_Profile d) (dr_Kind d) (dr_PayloadJSON d) (JID_String (dr_TargetJID d))
    (dr_State d) (dr_CreatedAt d) (dr_ExpiresAt d) (dr_DecidedAt d) (dr_DecidedBy d) (dr_Reason d).

Definition scanDraft (r : DraftRow) : result Draft :=
  let* target :=
    (if str_empty (rw_target r) then Ok zeroJID
     else match Parse (rw_target r) with
          | Err e => Err (wrapc "sqlitedrafts: parse target_jid %q" e)
          | Ok j => Ok j
          end) in
  fail_if (rw_kind r <? 0) || (255 <? rw_kind r)
    with ENew "sqlitedrafts: kind %d out of uint8 range" ;;
  fail_if (rw_state r <? 0) || (255 <? rw_state r)
    with ENew "sqlitedrafts: state %d out of uint8 range" ;;
  Ok (mkDraft (rw_id r) (rw_profile r) (rw_kind r) (rw_payload r) target (rw_state r)
        (rw_created r) (rw_expires r) (rw_decided r) (rw_by r) (rw_reason r)).

Definition sql_Put (f : fault) (d : Draft) (t : DraftTable) : check goerr * DraftTable :=
  match Draft_Validate d with
  | Err e => (Err (wrapc "sqlitedrafts: put" e), t)
  | Ok _ =>
    match fails_at f SExec with
    | Some e => (Err (wrapc "sqlitedrafts: put" e), t)
    | None => (Ok tt, <[dr_ID d := draft_columns d]> t)
    end
  end.

(** [SELECT ... WHERE profile = ? AND id = ?] *)
Definition sql_select (t : DraftTable) (profile id : string) : option DraftRow :=
  match t !! id with
  | Some r => if (rw_profile r =? profile)%string then Some r else None
  | None => None
  end.

Definition sql_load (f : fault) (profile id : string) (t : DraftTable) : result Draft :=
  match fails_at f SQuery with
  | Some e => Err e
  | None =>
    match sql_select t profile id with
    | None => Err (EWrap "" sqlitedrafts_ErrNotFound ": %s/%s")
    | Some r => scanDraft r
    end
  end.
Definition sql_Get : fault -> string -> string -> DraftTable -> result Draft := sql_load.

(** [ORDER BY created_at ASC, id ASC] (the binary collation). *)
Definition row_le (a b : DraftRow) : Prop :=
  rw_created a < rw_created b
  \/ (rw_created a = rw_created b /\ String.leb (rw_id a) (rw_id b) = true).
#[local] Instance row_le_dec : RelDecision row_le.
Proof. intros a b. unfold row_le. apply _. Defined.

Fixpoint scan_rows (l : list DraftRow) : result (list Draft) :=
  match l with
  | [] => Ok []
  | r :: l => let* d := scanDraft r in let* ds := scan_rows l in Ok (d :: ds)
  end.

Definition sql_List `{!MapRange string DraftRow} (f : fault) (profile : string)
    (state limit : Z) (t : DraftTable) : result (list Draft) :=
  fail_if limit <=? 0 with ENew "sqlitedrafts: List: invalid limit %d" ;;
  fail_if negb (DraftState_IsValid state) with ENew "sqlitedrafts: List: invalid state %d" ;;
  match fails_at f SQuery with
  | Some e => Err (wrapc "sqlitedrafts: list" e)
  | None =>
    scan_rows (take (Z.to_nat limit) (merge_sort row_le
      (List.filter (fun r => (rw_profile r =? profile)%string && (rw_state r =? state))
         (map snd (range t)))))
  end.

(** The [UPDATE] of a transition writes four columns. *)
Definition sql_set (r : DraftRow) (next : Draft) (reason : string) : DraftRow :=
  mkDraftRow (rw_id r) (rw_profile r) (rw_kind r) (rw_payload r) (rw_target r) (dr_State next)
    (rw_created r) (rw_expires r) (dr_DecidedAt next) (dr_DecidedBy next) reason.

Definition sql_transition (f : fault) (profile id : string) (fn : Draft -> result Draft)
    (t : DraftTable) : result Draft * DraftTable :=
  match fails_at f SBegin with
  | Some e => (Err (wrapc "sqlitedrafts: tx" e), t)
  | None =>
    match sql_load f profile id t with
    | Err e => (Err e, t)
    | Ok cur =>
      match fn cur with
      | Err e => (Err e, t)
      | Ok next =>
        match fails_at f SExec, fails_at f SCommit with
        | Some e, _ => (Err (wrapc "sqlitedrafts: update" e), t)
        | None, Some e => (Err (wrapc "sqlitedrafts: commit" e), t)
        | None, None =>
          (Ok next,
           match sql_select t profile id with
           | Some r => <[id := sql_set r next (dr_Reason next)]> t
           | None => t
           end)
        end
      end
    end
  end.

Definition sql_Approve (f : fault) (profile id : string) (at_ : time) (by_ : string) :=
  sql_transition f profile id (fun d => Draft_Approve d (unix at_) by_).
Definition sql_Reject (f : fault) (profile id : string) (at_ : time) (by_ reason : string) :=
  sql_transition f profile id (fun d => Draft_Reject d (unix at_) by_ reason).

(** The update loop of [ExpireDue], inside its transaction. *)
Fixpoint sql_expire_loop (f : fault) (profile : string) (at_ : Z) (l : list Draft)
    (t : DraftTable) (n : Z) : result (Z * DraftTable) :=
  match l with
  | [] => Ok (n, t)
  | d :: l =>
    match Draft_ExpireAt d at_ with
    | Err e => Err (wrapc "sqlitedrafts: expire %s" e)
    | Ok next =>
      if dr_State next =? dr_State d then sql_expire_loop f profile at_ l t n
      else
        match fails_at f SExec with
        | Some e => Err (wrapc "sqlitedrafts: expire update" e)
        | None =>
          sql_expire_loop f profile at_ l
            (match sql_select t profile (dr_ID d) with
             | Some r => if rw_state r =? DraftPendingReview
                         then <[dr_ID d := sql_set r next (rw_reason r)]> t else t
             | None => t
             end) (n + 1)
        end
    end
  end.

Definition sql_ExpireDue `{!MapRange string DraftRow} (f : fault) (profile : string)
    (at_ : time) (t : DraftTable) : result Z * DraftTable :=
  match fails_at f SBegin, fails_at f SQuery with
  | Some e, _ => (Err (wrapc "sqlitedrafts: expire begin" e), t)
  | None, Some e => (Err (wrapc "sqlitedrafts: expire scan" e), t)
  | None, None =>
    match scan_rows (List.filter (fun r => (rw_profile r =? profile)%string
                       && (rw_state r =? DraftPendingReview) && (rw_expires r <=? unix at_))
                       (map snd (range t))) with
    | Err e => (Err e, t)
    | Ok drafts =>
      match sql_expire_loop f profile (unix at_) drafts t 0 with
      | Err e => (Err e, t)
      | Ok (n, t') =>
        match fails_at f SCommit with
        | Some e => (Err (wrapc "sqlitedrafts: expire commit" e), t)
        | None => (Ok n, t')
        end
      end
    end
  end.

(** ** draft_sweeper.go: [Sweep]; [store = None] is the nil interface. *)
Definition Sweep {D} `{DraftPort D} (f : fault) (store : option D) (profile : string)
    (now : time) : result Z * option D :=
  match store with
  | None => (Err (ENew "draft sweeper: nil store"), None)
  | Some s => let '(r, s) := ds_ExpireDue f profile now s in (r, Some s)
  end.

(** ** The contract *)

Definition res_opt {A} (r : result A) : option A :=
  match r with Ok a => Some a | Err _ => None end.

(** A pending draft of [profile] past its horizon. *)
Definition due (profile : string) (at_ : Z) (k : draft_key) (d : Draft) : bool :=
  (k.1 =? profile)%string && (dr_State d =? DraftPendingReview) && (dr_ExpiresAt d <=? at_).
Definition expire1 (profile : string) (at_ : Z) (k : draft_key) (d : Draft) : Draft :=
  if due profile at_ k d then decided d DraftExpired at_ DraftDeciderTimeout (dr_Reason d) else d.

Definition matching (profile : string) (state : Z) (k : draft_key) (d : Draft) : Prop :=
  k.1 = profile /\ dr_State d = state.

Section Contract.
  Context {D : Type} `{DraftPort D}.

(** The call [c] moves the draft at [k] by [fn], or changes nothing. *)
Definition moves (k : draft_key) (fn : Draft -> result Draft) (c : D -> result Draft * D)
    (s : D) : Prop :=
  match ds_row s k with
  | None => exists e, c s = (Err e, s)
  | Some d =>
    match fn d with
    | Err e => c s = (Err e, s)
    | Ok n => exists s', c s = (Ok n, s') /\ ds_inv s'
              /\ forall k', ds_row s' k' = if decide (k' = k) then Some n else ds_row s k'
    end
  end.

(** With a fault the call is refused and changes nothing, or is not affected. *)
Definition atomic {A} (c : fault -> D -> result A * D) (s : D) : Prop :=
  forall f, (exists e, c f s = (Err e, s)) \/ c f s = c None s.

Class DraftLaw : Prop := {
  dl_key : forall s k d, ds_inv s -> ds_row s k = Some d -> draft_key_of d = k;
  dl_storable : forall d, wf_jid (dr_TargetJID d) = true -> Draft_Validate d = Ok tt -> ds_storable d;
  dl_put_invalid : forall f s d e, Draft_Validate d = Err e ->
    exists e', ds_Put f d s = (Err e', s);
  dl_put : forall s d, ds_inv s -> ds_storable d -> Draft_Validate d = Ok tt ->
    (forall p, p <> dr_Profile d -> ds_row s (p, dr_ID d) = None) ->
    exists s', ds_Put None d s = (Ok tt, s') /\ ds_inv s'
    /\ forall k, ds_row s' k = if decide (k = draft_key_of d) then Some d else ds_row s k;
  dl_get : forall s p id, ds_inv s -> res_opt (ds_Get None p id s) = ds_row s (p, id);
  dl_list : forall s p state limit, ds_inv s -> 0 < limit -> DraftState_IsValid state = true ->
    exists l, ds_List None p state limit s = Ok (take (Z.to_nat limit) l)
    /\ NoDup (map draft_key_of l)
    /\ forall d, d ∈ l <-> ds_row s (p, dr_ID d) = Some d /\ matching p state (draft_key_of d) d;
  dl_approve : forall s p id t by_, ds_inv s ->
    moves (p, id) (fun d => Draft_Approve d (unix t) by_) (ds_Approve None p id t by_) s;
  dl_reject : forall s p id t by_ why, ds_inv s ->
    moves (p, id) (fun d => Draft_Reject d (unix t) by_ why) (ds_Reject None p id t by_ why) s;
  dl_expire : forall s p t, ds_inv s -> exists s' l,
    ds_ExpireDue None p t s = (Ok (Z.of_nat (length l)), s') /\ ds_inv s'
    /\ NoDup l
    /\ (forall k, k ∈ l <-> exists d, ds_row s k = Some d /\ due p (unix t) k d = true)
    /\ forall k, ds_row s' k = expire1 p (unix t) k <$> ds_row s k;
  dl_atomic_approve : forall s p id t by_, ds_inv s -> atomic (fun f => ds_Approve f p id t by_) s;
  dl_atomic_reject : forall s p id t by_ why, ds_inv s ->
    atomic (fun f => ds_Reject f p id t by_ why) s;
  dl_atomic_expire : forall s p t, ds_inv s -> atomic (fun f => ds_ExpireDue f p t) s;
  dl_atomic_put : forall s d, ds_inv s -> atomic (fun f => ds_Put f d) s }.

End Contract.
Arguments DraftLaw D {_}.

(** ** The transitions of the domain *)

(** The decisions are taken from pending_review only, and preserve validity. *)
Lemma Draft_Approve_ok d t by_ d' : Draft_Approve d t by_ = Ok d' ->
  dr_State d = DraftPendingReview /\ d' = decided d DraftApproved t by_ (dr_Reason d)
  /\ dr_CreatedAt d <= t /\ DraftDecider_IsValid by_ = true /\ by_ <> DraftDeciderTimeout.
Proof.
  unfold Draft_Approve. intros H. peel H. bprop. injection H as <-.
  repeat split; auto. intros ->. discriminate.
Qed.

Lemma Draft_Reject_ok d t by_ why d' : Draft_Reject d t by_ why = Ok d' ->
  dr_State d = DraftPendingReview /\ d' = decided d DraftRejected t by_ why
  /\ dr_CreatedAt d <= t /\ DraftDecider_IsValid by_ = true /\ by_ <> DraftDeciderTimeout.
Proof.
  unfold Draft_Reject. intros H. peel H. bprop. injection H as <-.
  repeat split; auto. intros ->. discriminate.
Qed.

Lemma Draft_ExpireAt_pending d t : dr_State d = DraftPendingReview -> dr_ExpiresAt d <= t ->
  Draft_ExpireAt d t = Ok (decided d DraftExpired t DraftDeciderTimeout (dr_Reason d)).
Proof.
  intros Hs Ht. unfold Draft_ExpireAt. rewrite Hs. cbn.
  by destruct (Z.ltb_spec t (dr_ExpiresAt d)); [lia|].
Qed.

Lemma decided_valid d state t by_ why :
  Draft_Validate d = Ok tt -> DraftState_IsValid state = true -> 0 < t ->
  DraftDecider_IsValid by_ = true -> Draft_Validate (decided d state t by_ why) = Ok tt.
Proof.
  unfold Draft_Validate. intros H Hs Ht Hb. peel H. cbn.
  repeat (apply guard_ok; split; [first [assumption | by rewrite ?Hs, ?Hb, ?andb_false_r
    | by rewrite (proj2 (Z.leb_gt t 0) Ht), andb_false_r]|]). done.
Qed.

Lemma Validate_created d : Draft_Validate d = Ok tt -> 0 < dr_CreatedAt d.
Proof. unfold Draft_Validate. intros H. peel H. bprop. lia. Qed.

(** ** The in-memory store keeps the contract *)

Lemma range_map {V K} `{Countable K} `{!MapRange K V} (m : gmap K V) :
  NoDup (range m).*1 /\ list_to_map (range m) = m
  /\ forall k v, (k, v) ∈ range m <-> m !! k = Some v.
Proof.
  assert (Hn : NoDup (range m).*1).
  { rewrite (range_perm m). apply NoDup_fst_map_to_list. }
  split; [done|split].
  - rewrite (list_to_map_proper (M:=gmap K) _ (map_to_list m)); [|done|apply range_perm].
    apply list_to_map_to_list.
  - intros k v. rewrite (range_perm m). apply elem_of_map_to_list.
Qed.

Lemma mem_expire_loop_spec p t l rows n : NoDup l.*1 -> exists rows',
  mem_expire_loop p t l rows n
  = (Ok (n + Z.of_nat (length (List.filter (fun kd => due p t kd.1 kd.2) l))), rows')
  /\ forall k, rows' !! k = match (list_to_map l : gmap draft_key Draft) !! k with
                           | Some d => if due p t k d then Some (expire1 p t k d) else rows !! k
                           | None => rows !! k
                           end.
Proof.
  revert rows n. induction l as [|[k d] l IH]; intros rows n Hnd.
  - exists rows. cbn. split; [f_equal; f_equal; lia|]. intros k. by rewrite lookup_empty.
  - cbn in Hnd. apply NoDup_cons in Hnd as [Hk Hnd].
    assert (Hl : (list_to_map l : gmap draft_key Draft) !! k = None) by by apply not_elem_of_list_to_map.
    cbn [mem_expire_loop List.filter fst snd list_to_map foldr].
    destruct (due p t k d) eqn:Hd.
    + pose proof Hd as Hd'. unfold due in Hd'. bprop.
      rewrite H, H1, Z.eqb_refl. cbn [negb orb].
      destruct (Z.ltb_spec t (dr_ExpiresAt d)); [lia|].
      rewrite Draft_ExpireAt_pending by lia.
      destruct (IH (<[k := decided d DraftExpired t DraftDeciderTimeout (dr_Reason d)]> rows)
                  (n + 1) Hnd) as (rows' & He & Hr).
      exists rows'. rewrite He. split; [f_equal; f_equal; cbn [length]; lia|]. intros k'. rewrite Hr.
      destruct (decide (k' = k)) as [->|Hne].
      * rewrite Hl, !lookup_insert_eq, Hd. unfold expire1. by rewrite Hd.
      * by rewrite !lookup_insert_ne by congruence.
    + assert (Hskip : mem_expire_loop p t ((k, d) :: l) rows n = mem_expire_loop p t l rows n).
      { cbn. unfold due in Hd. destruct (k.1 =? p)%string; [|done].
        destruct (dr_State d =? DraftPendingReview); [|done]. cbn in *.
        destruct (Z.ltb_spec t (dr_ExpiresAt d)); [done|]. bprop. lia. }
      cbn [mem_expire_loop] in Hskip. rewrite Hskip.
      destruct (IH rows n Hnd) as (rows' & He & Hr). exists rows'. split; [done|]. intros k'.
      rewrite Hr. destruct (decide (k' = k)) as [->|Hne].
      * by rewrite Hl, lookup_insert_eq, Hd.
      * by rewrite lookup_insert_ne by congruence.
Qed.

Section MemoryInstance.
  Context `{!MapRange draft_key Draft}.

#[global] Instance mem_draft_port : DraftPort DraftStore := {
  ds_row s k := mds_rows s !! k;
  ds_inv s := forall k d, mds_rows s !! k = Some d -> draft_key_of d = k;
  ds_storable _ := True;
  ds_Put := mem_Put;
  ds_Get := mem_Get;
  ds_List := mem_List;
  ds_Approve := mem_Approve;
  ds_Reject := mem_Reject;
  ds_ExpireDue := mem_ExpireDue }.

Lemma mem_moves p id fn (s : DraftStore) :
  (forall k d, mds_rows s !! k = Some d -> draft_key_of d = k) ->
  (forall d n, fn d = Ok n -> draft_key_of n = draft_key_of d) ->
  moves (p, id) fn (mem_transition None p id fn) s.
Proof.
  intros Hi Hf. unfold moves, mem_transition. cbn.
  destruct (mds_rows s !! (p, id)) as [d|] eqn:E; [|by eexists].
  destruct (fn d) as [n|e] eqn:F; [|done]. eexists. split; [done|]. cbn. split.
  - intros k d' Hk. destruct (decide (k = (p, id))) as [->|Hne].
    + rewrite lookup_insert_eq in Hk. injection Hk as <-. rewrite (Hf _ _ F). by apply Hi.
    + rewrite lookup_insert_ne in Hk by done. by apply Hi.
  - intros k. case_decide as Hk; [subst k; by rewrite lookup_insert_eq|by rewrite lookup_insert_ne].
Qed.

Lemma mem_atomic p id fn (s : DraftStore) : atomic (fun f => mem_transition f p id fn) s.
Proof. intros [[st e]|]; [left; by eexists|by right]. Qed.

Lemma Approve_key d t by_ n : Draft_Approve d t by_ = Ok n -> draft_key_of n = draft_key_of d.
Proof. by intros (_ & -> & _)%Draft_Approve_ok. Qed.
Lemma Reject_key d t by_ why n : Draft_Reject d t by_ why = Ok n -> draft_key_of n = draft_key_of d.
Proof. by intros (_ & -> & _)%Draft_Reject_ok. Qed.

Lemma mem_list_law (s : DraftStore) p state limit :
  ds_inv s -> 0 < limit ->
  exists l, mem_List None p state limit s = Ok (take (Z.to_nat limit) l)
  /\ NoDup (map draft_key_of l)
  /\ forall d, d ∈ l <-> ds_row s (p, dr_ID d) = Some d /\ matching p state (draft_key_of d) d.
Proof.
  intros Hi Hlim. unfold mem_List. destruct (Z.leb_spec limit 0); [lia|]. cbn [guard].
  destruct (range_map (mds_rows s)) as (Hnd & _ & Hin).
  set (flt := List.filter _ _). set (ms := map (fun kd => (kd.2, _)) flt).
  exists (map fst (merge_sort seq_le ms)).
  assert (Hp : map fst (merge_sort seq_le ms) ≡ₚ map snd flt).
  { rewrite (Permutation_map fst (merge_sort_Permutation seq_le ms)).
    unfold ms. by rewrite map_map. }
  assert (Hf : forall k d, (k, d) ∈ flt <-> mds_rows s !! k = Some d /\ matching p state k d).
  { intros k d. unfold flt. rewrite list_elem_of_In, filter_In, <- list_elem_of_In, Hin. cbn.
    rewrite andb_true_iff, Z.eqb_eq, String.eqb_eq. done. }
  split; [done|split].
  - rewrite Hp, map_map.
    replace (map (fun x => draft_key_of x.2) flt) with (flt.*1); [by apply filter_keys_NoDup|].
    apply list_fmap_ext. intros i [k d] Hl. cbn. symmetry. apply Hi.
    apply Hf. by eapply list_elem_of_lookup_2.
  - intros d. rewrite Hp. change (map snd flt) with (flt.*2). rewrite list_elem_of_fmap. cbn. split.
    + intros ([k d'] & -> & [Hr Hm]%Hf). cbn in *. pose proof (Hi _ _ Hr) as Hk. subst k.
      destruct Hm as [Hm1 Hm2]. cbn in Hm1. subst p. done.
    + intros [Hr [Hm1 Hm2]]. exists (draft_key_of d, d). split; [done|]. apply Hf.
      cbn in Hm1. subst p. done.
Qed.

Lemma mem_expire_law (s : DraftStore) p t : ds_inv s -> exists s' l,
  mem_ExpireDue None p t s = (Ok (Z.of_nat (length l)), s') /\ ds_inv s'
  /\ NoDup l
  /\ (forall k, k ∈ l <-> exists d, ds_row s k = Some d /\ due p (unix t) k d = true)
  /\ forall k, ds_row s' k = expire1 p (unix t) k <$> ds_row s k.
Proof.
  intros Hi. unfold mem_ExpireDue. destruct (range_map (mds_rows s)) as (Hnd & Hm & Hin).
  destruct (mem_expire_loop_spec p (unix t) _ (mds_rows s) 0 Hnd) as (rows' & -> & Hr).
  rewrite Hm in Hr.
  set (l := List.filter _ _).
  assert (Hrow : forall k, rows' !! k = expire1 p (unix t) k <$> mds_rows s !! k).
  { intros k. rewrite Hr. destruct (mds_rows s !! k) as [d|]; [|done]. cbn. unfold expire1.
    by destruct (due p (unix t) k d). }
  eexists _, l.*1. rewrite length_fmap. split; [done|]. split; [|split; [|split]].
  - intros k d. cbn. rewrite Hrow. destruct (mds_rows s !! k) as [d0|] eqn:E; [|done].
    intros [= <-]. unfold expire1. destruct (due _ _ _ _); apply (Hi _ _ E).
  - by apply filter_keys_NoDup.
  - intros k. rewrite list_elem_of_fmap. cbn. split.
    + intros ([k' d] & -> & Hk). apply list_elem_of_In, filter_In in Hk as [Hk Hd].
      apply list_elem_of_In, Hin in Hk. by exists d.
    + intros (d & Hk & Hd). exists (k, d). split; [done|]. apply list_elem_of_In, filter_In.
      split; [|done]. by apply list_elem_of_In, Hin.
  - exact Hrow.
Qed.

Lemma mem_put_law (s : DraftStore) d : ds_inv s -> Draft_Validate d = Ok tt ->
  exists s', mem_Put None d s = (Ok tt, s') /\ ds_inv s'
  /\ forall k, ds_row s' k = if decide (k = draft_key_of d) then Some d else ds_row s k.
Proof.
  intros Hi Hv. unfold mem_Put. rewrite Hv.
  destruct (mds_order s !! draft_key_of d); eexists; (split; [done|]); cbn; split;
    solve [ intros k d'; destruct (decide (k = draft_key_of d)) as [->|];
        [rewrite lookup_insert_eq; by intros [= <-] | rewrite lookup_insert_ne by done; apply Hi]
      | intros k; case_decide; [subst; by rewrite lookup_insert_eq|by rewrite lookup_insert_ne] ].
Qed.

#[global] Instance mem_draft_law : DraftLaw DraftStore.
Proof.
  constructor.
  - intros s k d Hi. apply Hi.
  - done.
  - intros [[st e0]|] s d e He; eexists; cbn; unfold mem_Put; [done|by rewrite He].
  - intros s d Hi _ Hv _. by apply mem_put_law.
  - intros s p id Hi. cbn. by destruct (mds_rows s !! (p, id)).
  - intros s p state limit Hi Hl _. by apply mem_list_law.
  - intros s p id t by_ Hi. apply mem_moves; [done|]. intros d n. apply Approve_key.
  - intros s p id t by_ why Hi. apply mem_moves; [done|]. intros d n. apply Reject_key.
  - intros s p t Hi. by apply mem_expire_law.
  - intros s p id t by_ Hi. apply mem_atomic.
  - intros s p id t by_ why Hi. apply mem_atomic.
  - intros s p t Hi [[st e]|]; [left; by eexists|by right].
  - intros s d Hi [[st e]|]; [left; by eexists|by right].
Qed.

End MemoryInstance.

(** ** The SQLite store keeps the contract *)

(** What the columns can hold and give back. *)
Definition storable (d : Draft) : Prop :=
  (JID_IsZero (dr_TargetJID d) = true \/ wf_jid (dr_TargetJID d) = true)
  /\ 0 <= dr_Kind d <= 255 /\ 0 <= dr_State d <= 255.

Lemma valid_storable d : wf_jid (dr_TargetJID d) = true -> Draft_Validate d = Ok tt -> storable d.
Proof.
  unfold Draft_Validate. intros Hw H. peel H. split; [by right|].
  unfold DraftKind_IsValid, DraftState_IsValid, DraftKindSend, DraftKindGroupCreate in *. bprop.
  split; [lia|]. repeat match goal with Hs : _ || _ = true |- _ => apply orb_true_iff in Hs as [Hs|Hs] end;
    bprop; unfold DraftPendingReview, DraftApproved, DraftRejected, DraftExpired in *; lia.
Qed.

Lemma scan_columns d : storable d -> scanDraft (draft_columns d) = Ok d.
Proof.
  intros (Hj & Hk & Hs). unfold scanDraft, draft_columns. cbn.
  assert (Hp : (if str_empty (JID_String (dr_TargetJID d)) then Ok zeroJID
    else match Parse (JID_String (dr_TargetJID d)) with
         | Err e => Err (wrapc "sqlitedrafts: parse target_jid %q" e) | Ok j => Ok j end)
    = Ok (dr_TargetJID d)).
  { destruct Hj as [Hz|Hw].
    - unfold JID_String. rewrite Hz. cbn. f_equal. unfold JID_IsZero in Hz. bprop.
      apply String.eqb_eq in H, H0. destruct (dr_TargetJID d). cbn in *. by subst.
    - rewrite Parse_String by done. unfold JID_String. rewrite (wf_not_zero _ Hw).
      apply wf_jid_parts in Hw as (_ & Hu & _). by destruct (user (dr_TargetJID d)). }
  rewrite Hp. cbn.
  destruct (Z.ltb_spec (dr_Kind d) 0), (Z.ltb_spec 255 (dr_Kind d)); try lia. cbn.
  destruct (Z.ltb_spec (dr_State d) 0), (Z.ltb_spec 255 (dr_State d)); try lia. cbn.
  by destruct d.
Qed.

Lemma columns_key d d' : draft_columns d = draft_columns d' -> draft_key_of d = draft_key_of d'.
Proof. unfold draft_columns, draft_key_of. congruence. Qed.

Definition table_inv (t : DraftTable) : Prop :=
  forall id r, t !! id = Some r -> exists d, r = draft_columns d /\ storable d /\ dr_ID d = id.

Definition sql_row (t : DraftTable) (k : draft_key) : option Draft :=
  match sql_select t k.1 k.2 with Some r => res_opt (scanDraft r) | None => None end.

Lemma sql_row_some t k d : table_inv t ->
  sql_row t k = Some d <-> t !! k.2 = Some (draft_columns d) /\ storable d /\ draft_key_of d = k.
Proof.
  intros Hi. unfold sql_row, sql_select. destruct k as [p id]. cbn.
  destruct (t !! id) as [r|] eqn:E; [|naive_solver].
  destruct (Hi _ _ E) as (d' & -> & Hs & Hid). cbn [rw_profile draft_columns].
  destruct (String.eqb_spec (dr_Profile d') p) as [Hp|Hp].
  - rewrite scan_columns by done. cbn. unfold draft_key_of. split.
    + intros [= <-]. by subst.
    + intros (Hc & Hs2 & _). f_equal.
      pose proof (scan_columns d' Hs) as H1. pose proof (scan_columns d Hs2) as H2.
      assert (Hc' : draft_columns d' = draft_columns d) by congruence. congruence.
  - split; [done|]. intros (Hc & _ & Hk). apply (inj Some), columns_key in Hc.
    rewrite <- Hc in Hk. by injection Hk.
Qed.

Lemma sql_load_row t p id : table_inv t -> res_opt (sql_load None p id t) = sql_row t (p, id).
Proof. intros Hi. unfold sql_load, sql_row. cbn. by destruct (sql_select t p id). Qed.

(** Writing the columns of a draft under its own id. *)
Lemma table_inv_insert t d : table_inv t -> storable d ->
  table_inv (<[dr_ID d := draft_columns d]> t).
Proof.
  intros Hi Hs id r. destruct (decide (id = dr_ID d)) as [->|].
  - rewrite lookup_insert_eq. intros [= <-]. by exists d.
  - rewrite lookup_insert_ne by done. apply Hi.
Qed.

Lemma sql_row_insert t d : table_inv t -> storable d ->
  (forall p, p <> dr_Profile d -> sql_row t (p, dr_ID d) = None) ->
  forall k, sql_row (<[dr_ID d := draft_columns d]> t) k
            = if decide (k = draft_key_of d) then Some d else sql_row t k.
Proof.
  intros Hi Hs Hf [p id]. case_decide as Hk.
  - injection Hk as -> ->. apply sql_row_some; [by apply table_inv_insert|]. cbn.
    by rewrite lookup_insert_eq.
  - destruct (decide (id = dr_ID d)) as [->|Hne].
    + rewrite (Hf p); [|intros ->; by apply Hk].
      destruct (sql_row _ _) as [d'|] eqn:E; [|done].
      apply sql_row_some in E as (Hc & _ & Hk'); [|by apply table_inv_insert]. cbn in Hc.
      rewrite lookup_insert_eq in Hc. apply (inj Some), columns_key in Hc. congruence.
    + unfold sql_row, sql_select. cbn. by rewrite lookup_insert_ne.
Qed.

(** The other profiles hold no row with the id of a stored draft. *)
Lemma sql_row_unique t p id d q : table_inv t -> sql_row t (p, id) = Some d -> q <> p ->
  sql_row t (q, id) = None.
Proof.
  intros Hi (Hc & _ & Hk)%sql_row_some Hq; [|done]. destruct (sql_row t (q, id)) as [d'|] eqn:E; [|done].
  apply sql_row_some in E as (Hc' & _ & Hk'); [|done]. cbn in *. exfalso.
  rewrite Hc in Hc'. apply (inj Some), columns_key in Hc'. congruence.
Qed.

Lemma storable_decided d st t by_ why : storable d -> 0 <= st <= 255 ->
  storable (decided d st t by_ why).
Proof. intros (Hj & Hk & _) Hs. done. Qed.

Lemma sql_moves p id fn (t : DraftTable) : table_inv t ->
  (forall d n, fn d = Ok n -> exists st at_ by_ why, n = decided d st at_ by_ why /\ 0 <= st <= 255) ->
  match sql_row t (p, id) with
  | None => exists e, sql_transition None p id fn t = (Err e, t)
  | Some d =>
    match fn d with
    | Err e => sql_transition None p id fn t = (Err e, t)
    | Ok n => exists t', sql_transition None p id fn t = (Ok n, t') /\ table_inv t'
              /\ forall k', sql_row t' k' = if decide (k' = (p, id)) then Some n else sql_row t k'
    end
  end.
Proof.
  intros Hi Hf. unfold sql_transition. cbn [fails_at].
  pose proof (sql_load_row t p id Hi) as Hl.
  destruct (sql_row t (p, id)) as [d|] eqn:E.
  2: { destruct (sql_load None p id t) as [d|e]; [done|]. by eexists. }
  destruct (sql_load None p id t) as [d0|e0]; cbn in Hl; [|done]. injection Hl as ->.
  destruct (fn d) as [n|e] eqn:F; [|done].
  pose proof E as E'. apply sql_row_some in E' as (Hc & Hs & Hk); [|done]. cbn in Hc.
  destruct (Hf _ _ F) as (st & at_ & by_ & why & -> & Hst).
  unfold sql_select. rewrite Hc. cbn [rw_profile draft_columns].
  injection Hk as <- <-. rewrite String.eqb_refl. eexists. split; [done|].
  pose proof (storable_decided d st at_ by_ why Hs Hst) as Hs'.
  set (d' := decided d st at_ by_ why) in *.
  change (sql_set _ _ _) with (draft_columns d'). change (dr_ID d) with (dr_ID d').
  split; [by apply table_inv_insert|]. intros k'.
  apply (sql_row_insert t d'); [done|done|].
  intros q Hq. by eapply sql_row_unique.
Qed.

Lemma sql_atomic p id fn (t : DraftTable) f :
  (exists e, sql_transition f p id fn t = (Err e, t))
  \/ sql_transition f p id fn t = sql_transition None p id fn t.
Proof.
  destruct f as [[[] e]|]; unfold sql_transition, sql_load; cbn; [left; by eexists|..|by right].
  - left. by eexists.
  - destruct (sql_select t p id); [|by right]. destruct (scanDraft _); [|by right].
    destruct (fn _); [left; by eexists|by right].
  - destruct (sql_select t p id); [|by right]. destruct (scanDraft _); [|by right].
    destruct (fn _); [left; by eexists|by right].
Qed.

Lemma scan_rows_columns l :
  Forall (fun r => exists d, r = draft_columns d /\ storable d) l ->
  exists ds, scan_rows l = Ok ds /\ l = map draft_columns ds /\ Forall storable ds.
Proof.
  induction 1 as [|r l (d & -> & Hs) _ (ds & Hd & -> & Hf)]; [by exists []|].
  exists (d :: ds). cbn. rewrite scan_columns by done. cbn. rewrite Hd. cbn. auto.
Qed.

Lemma table_rows_forall `{!MapRange string DraftRow} t (P : DraftRow -> bool) : table_inv t ->
  Forall (fun r => exists d, r = draft_columns d /\ storable d)
    (List.filter P (map snd (range t))).
Proof.
  intros Hi. apply Forall_forall. intros r Hr.
  apply list_elem_of_In, filter_In in Hr as [Hr _].
  apply list_elem_of_In, list_elem_of_fmap in Hr as ([id r'] & -> & Hr). cbn.
  destruct (range_map t) as (_ & _ & Hm). apply Hm in Hr.
  destruct (Hi _ _ Hr) as (d & -> & Hs & _). by exists d.
Qed.

Lemma NoDup_filter_map {A B} (P : A -> bool) (f : A -> B) l :
  NoDup (map f l) -> NoDup (map f (List.filter P l)).
Proof.
  induction l as [|x l IH]; cbn; [done|]. rewrite NoDup_cons. intros [Hx Hl].
  destruct (P x); [|auto]. cbn. rewrite NoDup_cons. split; [|auto].
  intros Hin. apply Hx. apply list_elem_of_fmap in Hin as (y & -> & Hy).
  apply list_elem_of_fmap. exists y. split; [done|].
  apply list_elem_of_In, filter_In in Hy as [Hy _]. by apply list_elem_of_In.
Qed.

(** The rows a [WHERE] clause selects, read back. *)
Lemma select_rows `{!MapRange string DraftRow} t (P : DraftRow -> bool) : table_inv t ->
  exists ds, scan_rows (List.filter P (map snd (range t))) = Ok ds
  /\ List.filter P (map snd (range t)) = map draft_columns ds
  /\ NoDup (map dr_ID ds)
  /\ forall d, d ∈ ds <-> sql_row t (draft_key_of d) = Some d /\ P (draft_columns d) = true.
Proof.
  intros Hi. destruct (scan_rows_columns _ (table_rows_forall t P Hi)) as (ds & Hd & Hl & Hs).
  exists ds. split; [done|]. split; [done|]. destruct (range_map t) as (Hnd & _ & Hm).
  assert (Hid : map rw_id (map snd (range t)) = (range t).*1).
  { rewrite map_map. apply list_fmap_ext. intros i [id r] Hr. cbn.
    apply list_elem_of_lookup_2, Hm in Hr. destruct (Hi _ _ Hr) as (d & -> & _ & <-). done. }
  split.
  - assert (Hn : NoDup (map rw_id (List.filter P (map snd (range t))))).
    { apply NoDup_filter_map. by rewrite Hid. }
    rewrite Hl, map_map in Hn. exact Hn.
  - intros d.
    pose proof (proj1 (Forall_forall _ _) Hs) as Hs'.
    assert (Hin : d ∈ ds <-> storable d /\ draft_columns d ∈ List.filter P (map snd (range t))).
    { rewrite Hl. change (map draft_columns ds) with (draft_columns <$> ds).
      rewrite list_elem_of_fmap. split.
      - intros H. split; [by apply Hs'|]. by exists d.
      - intros (Hsd & d' & Hc & Hd'). assert (storable d') by by apply Hs'.
        pose proof (scan_columns d Hsd). pose proof (scan_columns d' H). congruence. }
    rewrite Hin, list_elem_of_In, filter_In, <- list_elem_of_In, sql_row_some by done.
    change (map snd (range t)) with ((range t).*2). rewrite list_elem_of_fmap. cbn. split.
    + intros (Hsd & ([id r] & Hc & Hr) & HP). cbn in Hc. subst r. apply Hm in Hr.
      destruct (Hi _ _ Hr) as (d' & Hc & _ & Hid'). apply columns_key in Hc.
      injection Hc as Hc1 Hc2. rewrite <- Hid', <- Hc2 in Hr. done.
    + intros ((Hr & Hsd & _) & HP). split; [done|]. split; [|done].
      exists (dr_ID d, draft_columns d). split; [done|]. by apply Hm.
Qed.

Lemma columns_read l : Forall storable l ->
  omap (fun r => res_opt (scanDraft r)) (map draft_columns l) = l.
Proof.
  induction 1 as [|d l Hs _ IH]; [done|]. cbn. rewrite scan_columns by done. by f_equal.
Qed.

Lemma columns_perm l l' : Forall storable l -> Forall storable l' ->
  map draft_columns l ≡ₚ map draft_columns l' -> l ≡ₚ l'.
Proof.
  intros Hl Hl' Hp. apply (omap_Permutation (fun r => res_opt (scanDraft r))) in Hp.
  by rewrite !columns_read in Hp.
Qed.

Lemma sql_expire_loop_spec p at_ l (t : DraftTable) n : table_inv t ->
  NoDup (map dr_ID l) ->
  Forall (fun d => sql_row t (draft_key_of d) = Some d
                   /\ due p at_ (draft_key_of d) d = true) l ->
  exists t', sql_expire_loop None p at_ l t n = Ok (n + Z.of_nat (length l), t') /\ table_inv t'
  /\ forall k, sql_row t' k = (fun d => if decide (k.2 ∈ map dr_ID l) then expire1 p at_ k d else d)
                              <$> sql_row t k.
Proof.
  revert t n. induction l as [|d l IH]; intros t n Hi Hnd Hf.
  - exists t. cbn. split; [f_equal; f_equal; lia|]. split; [done|]. intros k.
    destruct (sql_row t k); cbn; [|done]. case_decide as Hk; [by apply elem_of_nil in Hk|done].
  - cbn in Hnd. apply NoDup_cons in Hnd as [Hd Hnd]. apply Forall_cons in Hf as [[Hr Hdue] Hf].
    pose proof Hdue as Hdue'. unfold due in Hdue'. bprop. apply String.eqb_eq in H. cbn in H.
    set (d' := decided d DraftExpired at_ DraftDeciderTimeout (dr_Reason d)).
    pose proof Hr as Hr'. apply sql_row_some in Hr' as (Hc & Hs & _); [|done]. cbn in Hc.
    assert (Hs' : storable d') by (apply storable_decided; [done|unfold DraftExpired; lia]).
    assert (Hrow : forall k, sql_row (<[dr_ID d := draft_columns d']> t) k
                   = if decide (k = draft_key_of d) then Some d' else sql_row t k).
    { apply (sql_row_insert t d'); [done|done|]. intros q Hq. by eapply sql_row_unique. }
    cbn [sql_expire_loop]. rewrite Draft_ExpireAt_pending by lia. fold d'.
    replace (dr_State d' =? dr_State d) with false by (by rewrite H1). cbn [fails_at].
    unfold sql_select. rewrite Hc. cbn [rw_profile draft_columns].
    rewrite H, String.eqb_refl. cbn [rw_state draft_columns]. rewrite H1, Z.eqb_refl.
    change (sql_set _ _ _) with (draft_columns d').
    destruct (IH (<[dr_ID d := draft_columns d']> t) (n + 1)) as (t' & He & Hi' & Ht');
      [by apply (table_inv_insert t d')|done| |].
    { apply Forall_forall. intros x Hx. rewrite Hrow. case_decide as Hk.
      - exfalso. apply Hd. injection Hk as _ Hk. rewrite <- Hk. apply list_elem_of_fmap. by exists x.
      - by apply (proj1 (Forall_forall _ _) Hf). }
    exists t'. rewrite He. split; [f_equal; f_equal; cbn [length]; lia|]. split; [done|].
    intros k. rewrite Ht', Hrow. destruct (decide (k = draft_key_of d)) as [->|Hk].
    + rewrite Hr. cbn. rewrite (decide_False (P := _ ∈ map dr_ID l)) by done.
      rewrite decide_True by (by left). unfold expire1. by rewrite Hdue.
    + destruct (sql_row t k) as [x|] eqn:Ex; [|done]. cbn. f_equal.
      destruct (decide (k.2 ∈ map dr_ID l)) as [Hin|Hin].
      * by rewrite decide_True by (by right).
      * rewrite decide_False; [done|]. intros [Hk2|?]%elem_of_cons; [|contradiction].
        apply Hk. destruct k as [q id]. cbn in Hk2. subst id.
        destruct (decide (q = dr_Profile d)) as [->|Hq]; [done|].
        rewrite (sql_row_unique _ _ _ _ q Hi Hr Hq) in Ex. done.
Qed.

Section SqliteInstance.
  Context `{!MapRange string DraftRow}.

#[global] Instance sql_draft_port : DraftPort DraftTable := {
  ds_row := sql_row;
  ds_inv := table_inv;
  ds_storable := storable;
  ds_Put := sql_Put;
  ds_Get := sql_Get;
  ds_List := sql_List;
  ds_Approve := sql_Approve;
  ds_Reject := sql_Reject;
  ds_ExpireDue := sql_ExpireDue }.

Lemma sql_list_law (t : DraftTable) p state limit :
  table_inv t -> 0 < limit -> DraftState_IsValid state = true ->
  exists l, sql_List None p state limit t = Ok (take (Z.to_nat limit) l)
  /\ NoDup (map draft_key_of l)
  /\ forall d, d ∈ l <-> sql_row t (p, dr_ID d) = Some d /\ matching p state (draft_key_of d) d.
Proof.
  intros Hi Hlim Hst. unfold sql_List. destruct (Z.leb_spec limit 0); [lia|].
  rewrite Hst. cbn [guard negb fails_at].
  set (P := fun r => (rw_profile r =? p)%string && (rw_state r =? state)).
  destruct (select_rows t P Hi) as (ds & _ & Hfl & Hnd & Hin).
  pose proof (table_rows_forall t P Hi) as Hall.
  rewrite Hfl in *.
  assert (Hall' : Forall (fun r => exists d, r = draft_columns d /\ storable d)
    (merge_sort row_le (map draft_columns ds))) by by rewrite (merge_sort_Permutation row_le).
  destruct (scan_rows_columns _ Hall') as (l & _ & Hl & Hsl).
  assert (Hpl : l ≡ₚ ds).
  { assert (Hss : Forall storable ds).
    { apply Forall_forall. intros d Hd. apply Hin in Hd as [Hr _].
      by apply sql_row_some in Hr as (_ & ? & _). }
    apply columns_perm; [done|done|]. rewrite <- Hl. apply merge_sort_Permutation. }
  exists l. rewrite Hl, firstn_map. split; [|split].
  - assert (Hscan : forall l, Forall storable l -> scan_rows (map draft_columns l) = Ok l).
    { clear. induction 1 as [|d l Hs _ IH]; [done|]. cbn. rewrite scan_columns by done. cbn. by rewrite IH. }
    apply Hscan. by apply Forall_take.
  - rewrite Hpl. apply (NoDup_fmap_1 snd). rewrite <- list_fmap_compose. exact Hnd.
  - intros d. rewrite Hpl, Hin. unfold P, matching. cbn.
    rewrite andb_true_iff, String.eqb_eq, Z.eqb_eq. unfold draft_key_of. naive_solver.
Qed.

Lemma sql_expire_law (t : DraftTable) p u : table_inv t -> exists t' l,
  sql_ExpireDue None p u t = (Ok (Z.of_nat (length l)), t') /\ table_inv t'
  /\ NoDup l
  /\ (forall k, k ∈ l <-> exists d, sql_row t k = Some d /\ due p (unix u) k d = true)
  /\ forall k, sql_row t' k = expire1 p (unix u) k <$> sql_row t k.
Proof.
  intros Hi. unfold sql_ExpireDue. cbn [fails_at].
  set (P := fun r => (rw_profile r =? p)%string && (rw_state r =? DraftPendingReview)
                     && (rw_expires r <=? unix u)).
  destruct (select_rows t P Hi) as (ds & -> & _ & Hnd & Hin).
  assert (Hdue : forall d, d ∈ ds <-> sql_row t (draft_key_of d) = Some d
                                     /\ due p (unix u) (draft_key_of d) d = true) by apply Hin.
  destruct (sql_expire_loop_spec p (unix u) ds t 0 Hi Hnd) as (t' & -> & Hi' & Hr).
  { apply Forall_forall. intros d. apply Hdue. }
  exists t', (map draft_key_of ds). rewrite length_map. split; [done|]. split; [done|].
  assert (Hk : forall k, k ∈ map draft_key_of ds <->
      exists d, sql_row t k = Some d /\ due p (unix u) k d = true).
  { intros k. change (map draft_key_of ds) with (draft_key_of <$> ds). rewrite list_elem_of_fmap.
    split.
    - intros (d & -> & [Hd1 Hd2]%Hdue). by exists d.
    - intros (d & Hd1 & Hd2). pose proof Hd1 as Hd3. apply sql_row_some in Hd3 as (_ & _ & <-); [|done].
      exists d. split; [done|]. by apply Hdue. }
  split; [apply (NoDup_fmap_1 snd); rewrite <- list_fmap_compose; exact Hnd|].
  split; [exact Hk|]. intros k. rewrite Hr. destruct (sql_row t k) as [d|] eqn:E; [|done]. cbn.
  case_decide as Hm; [done|]. unfold expire1. destruct (due _ _ _ _) eqn:F; [|done].
  exfalso. apply Hm. assert (Hkd : k ∈ map draft_key_of ds) by (apply Hk; by exists d).
  apply list_elem_of_fmap in Hkd as (d' & -> & Hd'). apply list_elem_of_fmap. by exists d'.
Qed.

Lemma sql_expire_atomic (t : DraftTable) p u f :
  (exists e, sql_ExpireDue f p u t = (Err e, t)) \/ sql_ExpireDue f p u t = sql_ExpireDue None p u t.
Proof.
  assert (Hl : forall l t0 n, (exists e, sql_expire_loop f p (unix u) l t0 n = Err e)
    \/ sql_expire_loop f p (unix u) l t0 n = sql_expire_loop None p (unix u) l t0 n).
  { induction l as [|d l IH]; intros t0 n; cbn [sql_expire_loop]; [by right|].
    destruct (Draft_ExpireAt d (unix u)); [|by right].
    destruct (_ =? _); [apply IH|]. cbn [fails_at].
    destruct (fails_at f SExec); [left; by eexists|apply IH]. }
  unfold sql_ExpireDue. cbn [fails_at].
  destruct (fails_at f SBegin); [left; by eexists|]. destruct (fails_at f SQuery); [left; by eexists|].
  destruct (scan_rows _) as [ds|]; [|by right].
  destruct (Hl ds t 0) as [[e ->]| ->]; [left; by eexists|].
  destruct (sql_expire_loop None _ _ _ _ _) as [[n t']|]; [|by right].
  destruct (fails_at f SCommit); [left; by eexists|by right].
Qed.

Lemma sql_put_atomic (t : DraftTable) d f :
  (exists e, sql_Put f d t = (Err e, t)) \/ sql_Put f d t = sql_Put None d t.
Proof.
  unfold sql_Put. destruct (Draft_Validate d); [|by right]. cbn [fails_at].
  destruct (fails_at f SExec); [left; by eexists|by right].
Qed.

#[global] Instance sql_draft_law : DraftLaw DraftTable.
Proof.
  constructor.
  - intros s k d Hi Hr. by apply sql_row_some in Hr as (_ & _ & ?).
  - intros d. apply valid_storable.
  - intros f s d e He. cbn. unfold sql_Put. rewrite He. by eexists.
  - intros s d Hi Hs Hv Hf. cbn. unfold sql_Put. rewrite Hv. eexists. split; [done|].
    split; [by apply table_inv_insert|by apply sql_row_insert].
  - intros s p id Hi. by apply sql_load_row.
  - intros s p state limit Hi Hl Hs. by apply sql_list_law.
  - intros s p id t by_ Hi. apply (sql_moves p id _ s Hi).
    intros d n (_ & -> & _)%Draft_Approve_ok. repeat eexists; unfold DraftApproved; lia.
  - intros s p id t by_ why Hi. apply (sql_moves p id _ s Hi).
    intros d n (_ & -> & _)%Draft_Reject_ok. repeat eexists; unfold DraftRejected; lia.
  - intros s p t Hi. by apply sql_expire_law.
  - intros s p id t by_ Hi f. apply sql_atomic.
  - intros s p id t by_ why Hi f. apply sql_atomic.
  - intros s p t Hi f. apply sql_expire_atomic.
  - intros s d Hi f. apply sql_put_atomic.
Qed.

End SqliteInstance.
