(* ===== verification/DraftQueue.v ===== *)
(** * The review queue as a whole: histories of operations, and the draft methods

    A history is any interleaving of the queue's operations by the RPC
    handlers and by the sweeper (each store call is one critical section or
    one transaction), each with its own fault.  The theorems are proved for
    every store that keeps [DraftLaw] and hold of both implementations.  The
    second part models [internal/app/method_drafts.go]. *)
From S2P Require Import Prelude GoStd Errors Jid Policy Limiter Message Values Json Idem Ports Dispatch Admin Gate Draft.

#[local] Open Scope Z_scope.

(** ** Histories *)

Inductive draft_op :=
| QPut (d : Draft)
| QApprove (p id : string) (t : time) (by_ : string)
| QReject (p id : string) (t : time) (by_ why : string)
| QExpire (p : string) (t : time).

Inductive answer := ANone | ADone | ADraft (d : Draft) | ACount (n : Z).

Definition answer_of_draft (r : result Draft) : answer :=
  match r with Ok d => ADraft d | Err _ => ANone end.

Section Queue.
  Context {D : Type} `{DraftPort D}.

Definition draft_step (f : fault) (o : draft_op) (s : D) : answer * D :=
  match o with
  | QPut d => let '(r, s) := ds_Put f d s in (match r with Ok _ => ADone | Err _ => ANone end, s)
  | QApprove p id t by_ => let '(r, s) := ds_Approve f p id t by_ s in (answer_of_draft r, s)
  | QReject p id t by_ why => let '(r, s) := ds_Reject f p id t by_ why s in (answer_of_draft r, s)
  | QExpire p t => let '(r, s) := ds_ExpireDue f p t s in
                   (match r with Ok n => ACount n | Err _ => ANone end, s)
  end.

Fixpoint draft_run (l : list (fault * draft_op)) (s : D) : list answer * D :=
  match l with
  | [] => ([], s)
  | (f, o) :: l => let '(a, s) := draft_step f o s in
                   let '(al, s) := draft_run l s in (a :: al, s)
  end.

(** New drafts carry an id no profile holds ([newDraftID]) and fit the store;
    the clock reads a positive time. *)
Definition op_ok (o : draft_op) (s : D) : Prop :=
  match o with
  | QPut d => ds_storable d /\ dr_State d = DraftPendingReview /\ forall p, ds_row s (p, dr_ID d) = None
  | QApprove _ _ t _ | QReject _ _ t _ _ | QExpire _ t => 0 < unix t
  end.
Fixpoint run_ok (l : list (fault * draft_op)) (s : D) : Prop :=
  match l with
  | [] => True
  | (f, o) :: l => op_ok o s /\ run_ok l (draft_step f o s).2
  end.

Context `{!DraftLaw D}.

(** What a step can do to the draft at [k]. *)
Inductive row_change (k : draft_key) (o : draft_op) (a : answer) : option Draft -> option Draft -> Prop :=
| rc_same r : (forall d, a = ADraft d -> match o with
                 | QApprove p id _ _ | QReject p id _ _ _ => k <> (p, id) | _ => True end) ->
    row_change k o a r r
| rc_new d : o = QPut d -> draft_key_of d = k -> dr_State d = DraftPendingReview ->
    Draft_Validate d = Ok tt -> row_change k o a None (Some d)
| rc_decide d state t by_ why : dr_State d = DraftPendingReview ->
    state = DraftApproved \/ state = DraftRejected -> dr_CreatedAt d <= t ->
    DraftDecider_IsValid by_ = true -> by_ <> DraftDeciderTimeout ->
    row_change k o a (Some d) (Some (decided d state t by_ why))
| rc_expire p t d : o = QExpire p t -> due p (unix t) k d = true ->
    row_change k o a (Some d) (Some (decided d DraftExpired (unix t) DraftDeciderTimeout (dr_Reason d))).

Lemma moves_change k k0 fn c (s : D) o : ds_inv s -> moves k0 fn c s ->
  (match o with QApprove p id _ _ | QReject p id _ _ _ => k0 = (p, id) | _ => False end) ->
  (forall d n, fn d = Ok n -> exists state t by_ why, n = decided d state t by_ why
     /\ dr_State d = DraftPendingReview /\ (state = DraftApproved \/ state = DraftRejected)
     /\ dr_CreatedAt d <= t /\ DraftDecider_IsValid by_ = true /\ by_ <> DraftDeciderTimeout) ->
  row_change k o (answer_of_draft (c s).1) (ds_row s k) (ds_row (c s).2 k) /\ ds_inv (c s).2.
Proof.
  intros Hi Hm Ho Hf. unfold moves in Hm.
  destruct (ds_row s k0) as [d|] eqn:Hr; [destruct (fn d) as [n|e] eqn:F|].
  - destruct Hm as (s' & -> & Hi' & Hrow). cbn. split; [|done]. rewrite Hrow.
    destruct (decide (k = k0)) as [->|Hne].
    + rewrite Hr. destruct (Hf _ _ F) as (st & t & by_ & why & -> & Hp & Hst & Hc & Hb & Hn).
      by apply rc_decide.
    + apply rc_same. intros d' _. destruct o; try done; congruence.
  - rewrite Hm. cbn. split; [|done]. by apply rc_same.
  - destruct Hm as [e ->]. cbn. split; [|done]. by apply rc_same.
Qed.

Lemma fault_split {A} (c : fault -> D -> result A * D) (s : D) f
    (P : result A -> D -> Prop) : atomic c s -> (forall e, P (Err e) s) ->
  P (c None s).1 (c None s).2 -> P (c f s).1 (c f s).2.
Proof. intros Ha He Hn. destruct (Ha f) as [[e ->]| ->]; [apply He|exact Hn]. Qed.

Lemma step_change f o (s : D) k : ds_inv s -> op_ok o s ->
  row_change k o (draft_step f o s).1 (ds_row s k) (ds_row (draft_step f o s).2 k)
  /\ ds_inv (draft_step f o s).2.
Proof.
  intros Hi Hok. destruct o as [d|p id t by_|p id t by_ why|p t]; cbn [draft_step].
  - rewrite (surjective_pairing (ds_Put f d s)). cbn [fst snd].
    apply (fault_split (fun f => ds_Put f d) s f (fun r s' =>
      row_change k (QPut d) (match r with Ok _ => ADone | Err _ => ANone end) (ds_row s k) (ds_row s' k)
      /\ ds_inv s')); [by apply dl_atomic_put|by intros e; split; [apply rc_same|]|].
    destruct Hok as (Hst & Hp & Hfr). destruct (Draft_Validate d) as [[]|e] eqn:Hv.
    + destruct (dl_put s d Hi Hst Hv) as (s' & -> & Hi' & Hr); [by intros; apply Hfr|]. cbn.
      split; [|done]. rewrite Hr. case_decide as Hk; [|by apply rc_same].
      subst k. unfold draft_key_of at 2. rewrite Hfr. by apply rc_new.
    + destruct (dl_put_invalid None s d e Hv) as [e' ->]. cbn. split; [by apply rc_same|done].
  - rewrite (surjective_pairing (ds_Approve f p id t by_ s)). cbn [fst snd].
    apply (fault_split (fun f => ds_Approve f p id t by_) s f (fun r s' =>
      row_change k _ (answer_of_draft r) (ds_row s k) (ds_row s' k) /\ ds_inv s'));
      [by apply dl_atomic_approve|by intros e; split; [apply rc_same|]|].
    eapply moves_change; [done|by apply dl_approve|done|].
    intros d n (Hp & -> & Hc & Hb & Hn)%Draft_Approve_ok. repeat eexists; auto.
  - rewrite (surjective_pairing (ds_Reject f p id t by_ why s)). cbn [fst snd].
    apply (fault_split (fun f => ds_Reject f p id t by_ why) s f (fun r s' =>
      row_change k _ (answer_of_draft r) (ds_row s k) (ds_row s' k) /\ ds_inv s'));
      [by apply dl_atomic_reject|by intros e; split; [apply rc_same|]|].
    eapply moves_change; [done|by apply dl_reject|done|].
    intros d n (Hp & -> & Hc & Hb & Hn)%Draft_Reject_ok. repeat eexists; auto.
  - rewrite (surjective_pairing (ds_ExpireDue f p t s)). cbn [fst snd].
    apply (fault_split (fun f => ds_ExpireDue f p t) s f (fun r s' =>
      row_change k (QExpire p t) (match r with Ok n => ACount n | Err _ => ANone end)
        (ds_row s k) (ds_row s' k) /\ ds_inv s'));
      [by apply dl_atomic_expire|by intros e; split; [apply rc_same|]|].
    destruct (dl_expire s p t Hi) as (s' & l & -> & Hi' & _ & _ & Hr). cbn. split; [|done].
    rewrite Hr. destruct (ds_row s k) as [d|]; [|by apply rc_same]. cbn. unfold expire1.
    destruct (due p (unix t) k d) eqn:E; [by eapply rc_expire|by apply rc_same].
Qed.

(** The successful approve and reject calls on [k]. *)
Definition is_decision (k : draft_key) (o : draft_op) (a : answer) : bool :=
  match o, a with
  | QApprove p id _ _, ADraft _ | QReject p id _ _ _, ADraft _ => bool_decide (k = (p, id))
  | _, _ => false
  end.
Fixpoint decisions (k : draft_key) (l : list (fault * draft_op)) (al : list answer) : nat :=
  match l, al with
  | (_, o) :: l, a :: al => (if is_decision k o a then 1 else 0) + decisions k l al
  | _, _ => 0
  end%nat.

Lemma is_decision_false k o a r : row_change k o a r r ->
  (forall d, r = Some d -> dr_State d <> DraftPendingReview) -> is_decision k o a = false.
Proof.
  intros Hc Hr.
  assert (Hgen : forall r1 r2, row_change k o a r1 r2 -> r1 = r -> is_decision k o a = false).
  { intros r1 r2 [r0 Hs|d -> _ _ _|d st t by_ why Hp _ _ _ _|p t d -> _] Heq.
    - destruct o, a; try done; cbn; apply bool_decide_eq_false; exact (Hs _ eq_refl).
    - done.
    - by destruct (Hr d).
    - done. }
  by eapply Hgen.
Qed.

(** A draft that is not pending is frozen. *)
Lemma settled_step f o (s : D) k d : ds_inv s -> op_ok o s -> ds_row s k = Some d ->
  dr_State d <> DraftPendingReview ->
  ds_row (draft_step f o s).2 k = Some d /\ is_decision k o (draft_step f o s).1 = false.
Proof.
  intros Hi Hok Hr Hd. destruct (step_change f o s k Hi Hok) as [Hc _]. rewrite Hr in Hc.
  assert (Hrow : ds_row (draft_step f o s).2 k = Some d).
  { inversion Hc as [|d' Ho Hk Hst Hv|d' st t by_ why Hp|p t d' Ho Hdue]; subst; [done|contradiction|].
    unfold due in Hdue. bprop. contradiction. }
  split; [done|]. rewrite Hrow in Hc. eapply is_decision_false; [exact Hc|].
  by intros d' [= <-].
Qed.

Lemma settled_run l : forall (s : D) k d, ds_inv s -> run_ok l s -> ds_row s k = Some d ->
  dr_State d <> DraftPendingReview ->
  ds_row (draft_run l s).2 k = Some d /\ decisions k l (draft_run l s).1 = 0%nat.
Proof.
  induction l as [|[f o] l IH]; intros s k d Hi Hok Hr Hd; [done|]. cbn [draft_run].
  destruct Hok as [Ho Hok].
  destruct (settled_step f o s k d Hi Ho Hr Hd) as [Hr1 Hdec].
  destruct (step_change f o s k Hi Ho) as [_ Hi1].
  destruct (draft_step f o s) as [a s1]. cbn [fst snd] in *.
  destruct (IH s1 k d Hi1 Hok Hr1 Hd) as [Hr2 Hn].
  destruct (draft_run l s1) as [al s2]. cbn [fst snd] in *. cbn [decisions]. by rewrite Hdec, Hn.
Qed.

Lemma decisions_le l : forall (s : D) k, ds_inv s -> run_ok l s ->
  (decisions k l (draft_run l s).1 <= 1)%nat.
Proof.
  induction l as [|[f o] l IH]; intros s k Hi Hok; [cbn; lia|]. cbn [draft_run].
  destruct Hok as [Ho Hok]. destruct (step_change f o s k Hi Ho) as [Hc Hi1].
  pose proof (fun d => settled_run l (draft_step f o s).2 k d Hi1 Hok) as Hset.
  specialize (IH (draft_step f o s).2 k Hi1 Hok).
  destruct (draft_step f o s) as [a s1]. cbn [fst snd] in *.
  destruct (draft_run l s1) as [al s2]. cbn [fst snd decisions] in *.
  destruct (is_decision k o a) eqn:E; [|lia].
  inversion Hc as [r0 Hs Hr1 Hr2|d -> _ _ _|d st t by_ why Hp Hst _ _ _ Hr1 Hr2|p t d -> _]; try done.
  - destruct o, a; try done; cbn in E; apply bool_decide_eq_true in E; by destruct (Hs _ eq_refl).
  - rewrite (proj2 (Hset _ eq_refl ltac:(by destruct Hst as [-> | ->]))). lia.
Qed.

Definition rows_valid (s : D) : Prop := forall k d, ds_row s k = Some d -> Draft_Validate d = Ok tt.

Lemma valid_step f o (s : D) : ds_inv s -> op_ok o s -> rows_valid s ->
  rows_valid (draft_step f o s).2.
Proof.
  intros Hi Hok Hv k d Hr. destruct (step_change f o s k Hi Hok) as [Hc _]. rewrite Hr in Hc.
  inversion Hc as [r0 Hs Hr1 Hr2|d0 -> _ _ Hval Hr0 Hr2|d0 st t by_ why Hp Hst Hcr Hb _ Hr1 Hr2
                  |p t d0 -> Hdue Hr1 Hr2]; subst.
  - by eapply Hv.
  - done.
  - pose proof (Hv _ _ (eq_sym Hr1)) as Hv0. apply Validate_created in Hv0 as Hc0.
    apply decided_valid; [done|by destruct Hst as [-> | ->]|lia|done].
  - apply decided_valid; [by eapply Hv|done|done|done].
Qed.

Lemma valid_run l : forall s : D, ds_inv s -> run_ok l s -> rows_valid s ->
  rows_valid (draft_run l s).2 /\ ds_inv (draft_run l s).2.
Proof.
  induction l as [|[f o] l IH]; intros s Hi Hok Hv; [done|]. cbn [draft_run].
  destruct Hok as [Ho Hok]. pose proof (valid_step f o s Hi Ho Hv) as Hv1.
  destruct (step_change f o s ("", "")%string Hi Ho) as [_ Hi1].
  destruct (draft_step f o s) as [a s1]. cbn [fst snd] in *.
  specialize (IH s1 Hi1 Hok Hv1). by destruct (draft_run l s1).
Qed.

End Queue.

(** ** Theorems *)

(** C10. One decision per draft: in every history of create, approve, reject
    and expire calls, in any interleaving and with any fault, at most one
    approve or reject of a given draft succeeds, and once a draft is not
    pending its row never changes again (double approve, approve after
    reject, approve after expiry are all refused). *)
Theorem draft_decided_once {D} `{DraftPort D, !DraftLaw D} (l : list (fault * draft_op)) (s : D)
    (k : draft_key) :
  ds_inv s -> run_ok l s ->
  (decisions k l (draft_run l s).1 <= 1)%nat
  /\ forall d, ds_row s k = Some d -> DraftState_IsTerminal (dr_State d) = true ->
     ds_row (draft_run l s).2 k = Some d /\ decisions k l (draft_run l s).1 = 0%nat.
Proof.
  intros Hi Hok. split; [by apply decisions_le|]. intros d Hr Ht.
  apply settled_run; [done..|]. intros Hp. by rewrite Hp in Ht.
Qed.

(** Every draft the queue ever holds satisfies its structural invariant
    ([Draft.Validate]), whatever the history of operations and faults. *)
Theorem drafts_stay_valid {D} `{DraftPort D, !DraftLaw D} (l : list (fault * draft_op)) (s : D) :
  ds_inv s -> rows_valid s -> run_ok l s -> rows_valid (draft_run l s).2.
Proof. intros Hi Hv Hok. by apply valid_run. Qed.

(** *** The two stores give the same answers *)

Section Agree.
  Context {D1 D2 : Type} `{DraftPort D1, !DraftLaw D1, DraftPort D2, !DraftLaw D2}.

Definition same_rows (s1 : D1) (s2 : D2) : Prop :=
  ds_inv s1 /\ ds_inv s2 /\ forall k, ds_row s1 k = ds_row s2 k.

Lemma moves_agree k fn (c1 : D1 -> result Draft * D1) (c2 : D2 -> result Draft * D2) s1 s2 :
  same_rows s1 s2 -> moves k fn c1 s1 -> moves k fn c2 s2 ->
  answer_of_draft (c1 s1).1 = answer_of_draft (c2 s2).1 /\ same_rows (c1 s1).2 (c2 s2).2.
Proof.
  intros (Hi1 & Hi2 & Hr) H1 H2. unfold moves in *. rewrite <- Hr in H2.
  destruct (ds_row s1 k) as [d|]; [destruct (fn d)|].
  - destruct H1 as (s1' & -> & ? & Hr1), H2 as (s2' & -> & ? & Hr2). cbn. split; [done|].
    split; [done|]. split; [done|]. intros k'. rewrite Hr1, Hr2. by case_decide.
  - by rewrite H1, H2.
  - destruct H1 as [? ->], H2 as [? ->]. done.
Qed.

Lemma nodup_len {A} (l l' : list A) : NoDup l -> NoDup l' -> (forall x, x ∈ l <-> x ∈ l') ->
  length l = length l'.
Proof. intros H1 H2 Hx. apply Permutation_length, NoDup_Permutation; auto. Qed.

Lemma step_agree o (s1 : D1) (s2 : D2) : same_rows s1 s2 -> op_ok o s1 -> op_ok o s2 ->
  (draft_step None o s1).1 = (draft_step None o s2).1
  /\ same_rows (draft_step None o s1).2 (draft_step None o s2).2.
Proof.
  intros Hs Ho1 Ho2. pose proof Hs as (Hi1 & Hi2 & Hr).
  destruct o as [d|p id t by_|p id t by_ why|p t]; cbn [draft_step].
  - destruct (Draft_Validate d) as [[]|e] eqn:Hv.
    + destruct Ho1 as (Hst1 & _ & Hf1), Ho2 as (Hst2 & _ & Hf2).
      destruct (dl_put s1 d Hi1 Hst1 Hv) as (s1' & -> & ? & Hr1); [intros; apply Hf1|].
      destruct (dl_put s2 d Hi2 Hst2 Hv) as (s2' & -> & ? & Hr2); [intros; apply Hf2|]. cbn.
      split; [done|]. split; [done|]. split; [done|]. intros k. rewrite Hr1, Hr2. by case_decide.
    + destruct (dl_put_invalid None s1 d e Hv) as [? ->], (dl_put_invalid None s2 d e Hv) as [? ->].
      done.
  - pose proof (moves_agree _ _ _ _ _ _ Hs (dl_approve s1 p id t by_ Hi1) (dl_approve s2 p id t by_ Hi2)).
    by destruct (ds_Approve None p id t by_ s1), (ds_Approve None p id t by_ s2).
  - pose proof (moves_agree _ _ _ _ _ _ Hs (dl_reject s1 p id t by_ why Hi1)
      (dl_reject s2 p id t by_ why Hi2)).
    by destruct (ds_Reject None p id t by_ why s1), (ds_Reject None p id t by_ why s2).
  - destruct (dl_expire s1 p t Hi1) as (s1' & l1 & -> & ? & Hn1 & Hm1 & Hr1).
    destruct (dl_expire s2 p t Hi2) as (s2' & l2 & -> & ? & Hn2 & Hm2 & Hr2). cbn. split.
    + f_equal. f_equal. apply nodup_len; [done|done|]. intros k. rewrite Hm1, Hm2. by rewrite Hr.
    + split; [done|]. split; [done|]. intros k. by rewrite Hr1, Hr2, Hr.
Qed.

Lemma run_agree l : forall (s1 : D1) (s2 : D2), same_rows s1 s2 ->
  run_ok (map (pair None) l) s1 -> run_ok (map (pair None) l) s2 ->
  (draft_run (map (pair None) l) s1).1 = (draft_run (map (pair None) l) s2).1
  /\ same_rows (draft_run (map (pair None) l) s1).2 (draft_run (map (pair None) l) s2).2.
Proof.
  induction l as [|o l IH]; intros s1 s2 Hs Hok1 Hok2; [done|]. cbn [map draft_run run_ok] in *.
  destruct Hok1 as [Ho1 Hok1], Hok2 as [Ho2 Hok2].
  destruct (step_agree o s1 s2 Hs Ho1 Ho2) as [Ha Hs'].
  destruct (draft_step None o s1) as [a1 t1], (draft_step None o s2) as [a2 t2]. cbn [fst snd] in *.
  destruct (IH t1 t2 Hs' Hok1 Hok2) as [Hal Hs2].
  destruct (draft_run _ t1), (draft_run _ t2). cbn in *. by subst.
Qed.

Lemma run_ok_transfer l : (forall d, ds_storable (D:=D2) d -> ds_storable (D:=D1) d) ->
  forall (s1 : D1) (s2 : D2), same_rows s1 s2 ->
  run_ok (map (pair None) l) s2 -> run_ok (map (pair None) l) s1.
Proof.
  intros Hst. induction l as [|o l IH]; intros s1 s2 Hs Hok; [done|]. cbn [map run_ok] in *.
  destruct Hok as [Ho Hok].
  assert (Ho1 : op_ok o s1).
  { destruct o; cbn in *; [|done..]. destruct Ho as (? & ? & Hf), Hs as (_ & _ & Hr).
    split; [by apply Hst|]. split; [done|]. intros p. by rewrite Hr. }
  split; [done|]. eapply IH; [|exact Hok]. by apply step_agree.
Qed.

(** What two stores of the same rows answer to the queries: the same draft,
    and the same list up to its order, of which each gives the first [limit]. *)
Definition same_queries (s1 : D1) (s2 : D2) : Prop :=
  (forall p id, res_opt (ds_Get None p id s1) = res_opt (ds_Get None p id s2))
  /\ (forall p state limit, 0 < limit -> DraftState_IsValid state = true ->
      exists l1 l2, ds_List None p state limit s1 = Ok (take (Z.to_nat limit) l1)
        /\ ds_List None p state limit s2 = Ok (take (Z.to_nat limit) l2)
        /\ l1 ≡ₚ l2 /\ NoDup (map draft_key_of l1)
        /\ forall d, d ∈ l1 <-> ds_row s1 (p, dr_ID d) = Some d /\ matching p state (draft_key_of d) d).

Lemma queries_agree s1 s2 : same_rows s1 s2 -> same_queries s1 s2.
Proof.
  intros (Hi1 & Hi2 & Hr). split.
  - intros p id. by rewrite !dl_get, Hr.
  - intros p state limit Hl Hst.
    destruct (dl_list s1 p state limit Hi1 Hl Hst) as (l1 & E1 & Hn1 & Hm1).
    destruct (dl_list s2 p state limit Hi2 Hl Hst) as (l2 & E2 & Hn2 & Hm2).
    exists l1, l2. split; [done|]. split; [done|]. split; [|done].
    apply NoDup_Permutation; [by eapply NoDup_fmap_1|by eapply NoDup_fmap_1|].
    intros d. by rewrite Hm1, Hm2, Hr.
Qed.

End Agree.

(** A failing statement fails its operation as a whole. *)
Lemma fault_atomic {D} `{DraftPort D, !DraftLaw D} f o (s : D) : ds_inv s ->
  draft_step f o s = (ANone, s) \/ draft_step f o s = draft_step None o s.
Proof.
  intros Hi. destruct o as [d|p id t by_|p id t by_ why|p t]; cbn [draft_step].
  - destruct (dl_atomic_put s d Hi f) as [[e ->]| ->]; auto.
  - destruct (dl_atomic_approve s p id t by_ Hi f) as [[e ->]| ->]; auto.
  - destruct (dl_atomic_reject s p id t by_ why Hi f) as [[e ->]| ->]; auto.
  - destruct (dl_atomic_expire s p t Hi f) as [[e ->]| ->]; auto.
Qed.

(** C11. The SQLite store refines the in-memory one: on any sequence of
    puts under fresh ids, approvals, rejections and expiries in which no
    statement fails it gives the same answers (the same transitioned drafts,
    the same refusals, the same expiry counts) and ends with the same queue,
    for every iteration order of the map and of the table, through the text
    encoding of the target JID and although its primary key is the id alone.
    There a get finds the same draft, and a list of a valid state has the same
    drafts, in an order of its own and cut at the limit.  In either store an
    operation whose statement fails answers an error and changes nothing, or
    does what it would have done. *)
Theorem draft_stores_agree `{!MapRange draft_key Draft, !MapRange string DraftRow}
    (l : list draft_op) :
  run_ok (map (pair None) l) (∅ : DraftTable) ->
  let s1 := (draft_run (map (pair None) l) NewDraftStore).2 in
  let s2 := (draft_run (map (pair None) l) (∅ : DraftTable)).2 in
  (draft_run (map (pair None) l) NewDraftStore).1 = (draft_run (map (pair None) l) (∅ : DraftTable)).1
  /\ (forall k, ds_row s1 k = ds_row s2 k)
  /\ same_queries s1 s2
  /\ (forall f o, (draft_step f o s1 = (ANone, s1) \/ draft_step f o s1 = draft_step None o s1)
                 /\ (draft_step f o s2 = (ANone, s2) \/ draft_step f o s2 = draft_step None o s2)).
Proof.
  intros Hok s1 s2. assert (Hs : same_rows NewDraftStore (∅ : DraftTable)).
  { repeat split; try done. }
  destruct (run_agree l NewDraftStore (∅ : DraftTable) Hs) as (Ha & Hs2); [|done|].
  { by eapply run_ok_transfer. }
  split; [done|]. split; [apply Hs2|]. split; [by apply queries_agree|].
  destruct Hs2 as (Hi1 & Hi2 & _). intros f o. split; by apply fault_atomic.
Qed.

(** ** method_drafts.go

    The dispatcher's state next to the draft store; [drafts = None] is the nil
    port.  The params of a request that parsed are either absent or
    well-formed. *)
Section Handlers.
  #[local] Open Scope string_scope.
  Context {D B A W : Type} `{DraftPort D, RateBucket B, AllowlistPort A, Ports W}.
  Variable profile : string.

Definition DM (X : Type) : Type := option D * St B A W -> result X * (option D * St B A W).
Definition dret {X} (x : X) : DM X := fun st => (Ok x, st).
Definition dfail {X} (e : goerr) : DM X := fun st => (Err e, st).
Definition dbind {X Y} (m : DM X) (k : X -> DM Y) : DM Y :=
  fun st => let '(r, st) := m st in match r with Ok x => k x st | Err e => (Err e, st) end.
Definition dlift {X} (r : result X) : DM X := fun st => (r, st).
(** A call of the draft port; on the nil port the handler answers first. *)
Definition dstore {X} (ctx : string) (call : D -> result X * D) : DM X :=
  fun st => match st.1 with
            | None => (Err (ERpc app.ErrMethodNotFound), st)
            | Some d => let '(r, d) := call d in
                        (match r with Ok x => Ok x | Err e => Err (wrapc ctx e) end, (Some d, st.2))
            end.
Definition dneed : DM unit :=
  fun st => match st.1 with None => (Err (ERpc app.ErrMethodNotFound), st) | Some _ => (Ok tt, st) end.
Definition dnow : DM time := fun st => (Ok (clock (st_world st.2)), st).
Definition dport {X} (m : M B A W X) : DM X := fun st => let '(r, s) := m st.2 in (r, (st.1, s)).

Notation "'let?' x ':=' m 'in' k" := (dbind m (fun x => k))
  (at level 10, x pattern, m at level 100, k at level 200).
Notation "'fail?' b 'with' e ';;' k" := (if (b : bool) then dfail e else k)
  (at level 10, b at level 99, e at level 99, k at level 200).

Definition jidString (j : JID) : string := if JID_IsZero j then "" else JID_String j.

(** Members with [omitempty]. *)
Definition omit_str (name v : string) : list (string * json) :=
  if str_empty v then [] else [(name, JStr v)].
Definition omit_int (name : string) (v : Z) : list (string * json) :=
  if (v =? 0)%Z then [] else [(name, JNum (itoa v))].

Definition viewDraft (d : Draft) : json :=
  JObj ([("id", JStr (dr_ID d)); ("kind", JStr (DraftKind_String (dr_Kind d)))]
    ++ omit_str "target" (jidString (dr_TargetJID d))
    ++ [("payload", JStr (dr_PayloadJSON d)); ("state", JStr (DraftState_String (dr_State d)));
        ("createdAt", JNum (itoa (dr_CreatedAt d))); ("expiresAt", JNum (itoa (dr_ExpiresAt d)))]
    ++ omit_int "decidedAt" (dr_DecidedAt d)
    ++ omit_str "decidedBy" (dr_DecidedBy d) ++ omit_str "reason" (dr_Reason d)).

Definition parseDraftState (s : string) : result Z :=
  if (s =? "") || (s =? "pending_review") then Ok DraftPendingReview
  else if s =? "approved" then Ok DraftApproved
  else if s =? "rejected" then Ok DraftRejected
  else if s =? "expired" then Ok DraftExpired
  else Err (ERpc app.ErrInvalidParams).

Definition parseDecider (s fallback : string) : result string :=
  if str_empty s then Ok fallback
  else if negb (DraftDecider_IsValid s) || (s =? DraftDeciderTimeout)
  then Err (ERpc app.ErrInvalidParams) else Ok s.

(** [draftListParams], decoded over its defaults. *)
Definition dec_draftListParams (m : list (string * json)) : option (string * Z) :=
  state ← field dec_str "pending_review" "state" m;
  limit ← field dec_int 50%Z "limit" m;
  Some (state, limit).

Definition handleDraftList (f : fault) (raw : RawMessage) : DM json :=
  let? _ := dneed in
  let? p := dlift (match raw with None => Ok ("pending_review", 50%Z)
                   | Some _ => parseParams dec_draftListParams raw end) in
  let limit := Z.min (if (p.2 <=? 0)%Z then 50 else p.2) 200 in
  let? state := dlift (parseDraftState p.1) in
  let? rows := dstore "draft.list" (fun d => (ds_List f profile state limit d, d)) in
  dret (JObj [("drafts", JArr (map viewDraft rows))]).

Definition handleDraftGet (f : fault) (raw : RawMessage) : DM json :=
  let? _ := dneed in
  let? id := dlift (parseParams (field dec_str "" "id") raw) in
  fail? str_empty id with ERpc app.ErrInvalidParams ;;
  let? row := dstore "draft.get" (fun d => (ds_Get f profile id d, d)) in
  dret (JObj [("draft", viewDraft row)]).

Record draftDecisionParams := mkDecision { dd_ID : string; dd_By : string; dd_Reason : string }.
Definition dec_draftDecisionParams (m : list (string * json)) : option draftDecisionParams :=
  id ← field dec_str "" "id" m;
  by_ ← field dec_str "" "by" m;
  reason ← field dec_str "" "reason" m;
  Some (mkDecision id by_ reason).

Definition handleDraftApprove (f : fault) (raw : RawMessage) : DM json :=
  let? _ := dneed in
  let? p := dlift (parseParams dec_draftDecisionParams raw) in
  fail? str_empty (dd_ID p) with ERpc app.ErrInvalidParams ;;
  let? by_ := dlift (parseDecider (dd_By p) DraftDeciderCLI) in
  let? t := dnow in
  let? row := dstore "draft.approve" (ds_Approve f profile (dd_ID p) t by_) in
  dret (JObj [("draft", viewDraft row)]).

Definition handleDraftReject (f : fault) (raw : RawMessage) : DM json :=
  let? _ := dneed in
  let? p := dlift (parseParams dec_draftDecisionParams raw) in
  fail? str_empty (dd_ID p) with ERpc app.ErrInvalidParams ;;
  let? by_ := dlift (parseDecider (dd_By p) DraftDeciderCLI) in
  let? t := dnow in
  let? row := dstore "draft.reject" (ds_Reject f profile (dd_ID p) t by_ (dd_Reason p)) in
  dret (JObj [("draft", viewDraft row)]).

Record draftCreateParams := mkDraftCreate {
  dc_To : string; dc_Body : string; dc_Path : string; dc_Caption : string; dc_Origin : string }.
Definition dec_draftCreateParams (m : list (string * json)) : option draftCreateParams :=
  to ← field dec_str "" "to" m;
  body ← field dec_str "" "body" m;
  path ← field dec_str "" "path" m;
  caption ← field dec_str "" "caption" m;
  origin ← field dec_str "" "origin" m;
  Some (mkDraftCreate to body path caption origin).

(** [json.Marshal(draftPayload{...})] *)
Record draftPayload := mkPayload {
  pl_To : string; pl_Body : string; pl_Path : string; pl_Mime : string; pl_Caption : string }.
Definition marshal_member (kv : string * string) : string :=
  json_string kv.1 +:+ ":" +:+ json_string kv.2.
Definition marshal_payload (p : draftPayload) : string :=
  "{" +:+ comma_join (map marshal_member
    (("to", pl_To p) :: List.filter (fun kv => negb (str_empty kv.2))
       [("body", pl_Body p); ("path", pl_Path p); ("mime", pl_Mime p); ("caption", pl_Caption p)]))
  +:+ "}".

(** [newID] is the value [newDraftID()] draws. *)
Definition handleDraftCreate (f : fault) (newID : string) (raw : RawMessage) : DM json :=
  let? _ := dneed in
  let? p := dlift (parseParams dec_draftCreateParams raw) in
  match Parse (dc_To p) with
  | Err _ => dfail (ERpc app.ErrInvalidParams)
  | Ok target =>
    let media := negb (str_empty (dc_Path p)) in
    let kind := if media then DraftKindSendMedia else DraftKindSend in
    let payload := if media
      then mkPayload (JID_String target) (dc_Body p) (dc_Path p) "application/octet-stream" (dc_Caption p)
      else mkPayload (JID_String target) (dc_Body p) "" "" "" in
    fail? negb media && str_empty (dc_Body p) with ERpc app.ErrInvalidParams ;;
    let? t := dnow in
    let? draft := dlift (match NewDraft newID profile kind (marshal_payload payload) target (unix t) with
                         | Ok d => Ok d | Err e => Err (wrapc "draft.create" e) end) in
    let? _ := dstore "draft.create: persist" (ds_Put f draft) in
    let source := if str_empty (dc_Origin p) then "socket" else dc_Origin p in
    let? _ := dport (do_audit (NewAuditEventFrom source profile AuditDraftCreate target "created"
      ("draftId=" +:+ dr_ID draft +:+ " kind=" +:+ DraftKind_String kind))) in
    dret (JObj [("draft", viewDraft draft)])
  end.

End Handlers.

Section HandlerFacts.
  Context {D B A W : Type} `{DraftPort D, !DraftLaw D, RateBucket B, AllowlistPort A, Ports W}.

Lemma NewDraft_ok id p kind payload target t d : NewDraft id p kind payload target t = Ok d ->
  Draft_Validate d = Ok tt /\ draft_key_of d = (p, id) /\ dr_TargetJID d = target
  /\ dr_State d = DraftPendingReview /\ dr_CreatedAt d = t
  /\ dr_ExpiresAt d = wrap64 (t + DraftExpiryWindow).
Proof.
  unfold NewDraft. cbn zeta. intros ([] & Hv & [= <-])%res_bind_ok. done.
Qed.

(** draft.create is a proposal: whatever its outcome it performs no
    outbound operation and no upstream query and spends no rate budget; a
    refusal leaves no trace, and a success writes exactly one draft_create
    audit record and leaves, under the fresh id, a valid pending draft for a
    well-formed target that expires half an hour after its creation. *)
Theorem draft_create_proposes (profile newID : string) (f : fault) (raw : RawMessage)
    (s : D) (st st' : St B A W) (s' : option D) (r : result json) :
  ds_inv s -> (forall p, ds_row s (p, newID) = None) ->
  handleDraftCreate profile f newID raw (Some s, st) = (r, (s', st')) ->
  st_safety st' = st_safety st
  /\ if is_ok r then
       (exists e, st_trace st' = st_trace st ++ [EvAudit e] /\ ae_Action e = AuditDraftCreate)
       /\ exists s1 d, s' = Some s1 /\ ds_row s1 (profile, newID) = Some d
          /\ Draft_Validate d = Ok tt /\ dr_State d = DraftPendingReview
          /\ wf_jid (dr_TargetJID d) = true
          /\ dr_CreatedAt d = unix (clock (st_world st))
          /\ dr_ExpiresAt d = wrap64 (dr_CreatedAt d + 1800)
     else st' = st.
Proof.
  intros Hi Hf. unfold handleDraftCreate, dbind, dneed, dlift, dnow, dret, dport. cbn [fst snd].
  destruct (parseParams _ raw) as [p|e]; [|by intros [= <- _ <-]].
  destruct (Parse (dc_To p)) as [target|e] eqn:Hp; [|by intros [= <- _ <-]].
  destruct (_ && _); [by intros [= <- _ <-]|]. cbn [fst snd].
  destruct (NewDraft _ _ _ _ _ _) as [d|e] eqn:Hn; [|by intros [= <- _ <-]].
  apply NewDraft_ok in Hn as (Hv & Hk & Ht & Hs & Hc & He).
  assert (Hw : wf_jid (dr_TargetJID d) = true) by (rewrite Ht; by eapply Parse_wf).
  unfold dstore. cbn [fst snd].
  assert (Hid : dr_ID d = newID) by (by injection Hk).
  assert (Hput : exists s1, ds_Put f d s = (Ok tt, s1) /\ ds_row s1 (profile, newID) = Some d
                 \/ exists e, ds_Put f d s = (Err e, s1)).
  { destruct (dl_atomic_put s d Hi f) as [[e ->]| ->]; [exists s; right; by exists e|].
    destruct (dl_put s d Hi (dl_storable d Hw Hv) Hv) as (s1 & -> & _ & Hr).
    { intros q _. by rewrite Hid. }
    exists s1. left. rewrite Hr, Hk. by rewrite decide_True. }
  destruct Hput as (s1 & [[-> Hr]|[e ->]]); [|by intros [= <- _ <-]].
  unfold do_audit. cbn [fst snd]. destruct (audit_Record _ (st_world st)) as [ra w]. intros [= <- <- <-]. cbn. split; [done|]. split; [by eexists|].
  exists s1, d. rewrite He, Hc. done.
Qed.

(** draft.approve only records the decision: on a pending draft, however
    long past its expiry, it succeeds, the stored row becomes approved, and
    the dispatcher state is exactly as before: no message is handed to the
    sender, no allowlist or rate check is made, nothing is audited. *)
Theorem draft_approve_only_records (profile : string) (raw : RawMessage) (p : draftDecisionParams)
    (s : D) (st : St B A W) (d : Draft) :
  ds_inv s -> parseParams dec_draftDecisionParams raw = Ok p -> dd_ID p <> ""%string -> dd_By p = ""%string ->
  ds_row s (profile, dd_ID p) = Some d -> dr_State d = DraftPendingReview ->
  dr_CreatedAt d <= unix (clock (st_world st)) ->
  exists s1 d1, handleDraftApprove profile None raw (Some s, st)
                = (Ok (JObj [("draft"%string, viewDraft d1)]), (Some s1, st))
  /\ ds_row s1 (profile, dd_ID p) = Some d1 /\ dr_State d1 = DraftApproved
  /\ dr_PayloadJSON d1 = dr_PayloadJSON d.
Proof.
  intros Hi Hp Hid Hby Hr Hs Hc.
  unfold handleDraftApprove, dbind, dneed, dlift, dnow, dret, dstore. cbn [fst snd].
  rewrite Hp, (proj2 (str_empty_false _) Hid), Hby. cbn.
  pose proof (dl_approve s profile (dd_ID p) (clock (st_world st)) DraftDeciderCLI Hi) as Hm.
  unfold moves in Hm. rewrite Hr in Hm. unfold Draft_Approve in Hm. rewrite Hs in Hm. cbn in Hm.
  destruct (Z.ltb_spec (unix (clock (st_world st))) (dr_CreatedAt d)); [lia|]. cbn in Hm.
  destruct Hm as (s1 & -> & _ & Hrow). eexists s1, _. split; [done|].
  rewrite Hrow, decide_True by done. done.
Qed.

End HandlerFacts.

(** ** Witnesses *)

Definition demo_range {K V} `{Countable K} : MapRange K V := {|
  range := map_to_list; range_perm := fun m => reflexivity (map_to_list m) |}.
#[local] Existing Instance demo_range.

Definition demo_draft : Draft :=
  mkDraft "drf-1" "default" DraftKindSend "{}" demo_user DraftPendingReview 1000 2800 0 "" "".
Definition demo_history : list draft_op :=
  [QPut demo_draft; QApprove "default" "drf-1" (of_unix 5000) "cli";
   QApprove "default" "drf-1" (of_unix 5001) "skill"; QReject "default" "drf-1" (of_unix 5002) "cli" "no";
   QExpire "default" (of_unix 9000)]%string.

Lemma demo_history_ok : run_ok (map (pair None) demo_history) (∅ : DraftTable).
Proof.
  split; [split; [|split; [done|]]|].
  - split; [by right|]. repeat split; vm_compute; discriminate.
  - intros p. unfold ds_row. cbn. unfold sql_row, sql_select. cbn. by rewrite lookup_empty.
  - repeat split.
Qed.

Lemma demo_history_ok_mem : run_ok (map (pair None) demo_history) NewDraftStore.
Proof.
  split; [split; [done|split; [done|]]|].
  - intros p. cbn. by rewrite lookup_empty.
  - repeat split.
Qed.

Lemma draft_decided_once_witness :
  (decisions ("default", "drf-1")%string (map (pair None) demo_history)
     (draft_run (map (pair None) demo_history) (∅ : DraftTable)).1 <= 1)%nat.
Proof.
  apply (draft_decided_once (map (pair None) demo_history) (∅ : DraftTable)); [done|].
  apply demo_history_ok.
Defined.

Lemma drafts_stay_valid_witness :
  rows_valid (draft_run (map (pair None) demo_history) NewDraftStore).2.
Proof.
  apply (drafts_stay_valid (map (pair None) demo_history) NewDraftStore); [done|done|].
  apply demo_history_ok_mem.
Defined.

Lemma draft_stores_agree_witness :
  (draft_run (map (pair None) demo_history) NewDraftStore).1
  = [ADone; ADraft (decided demo_draft DraftApproved 5000 "cli" ""); ANone; ANone; ACount 0].
Proof.
  destruct (draft_stores_agree demo_history demo_history_ok) as [-> _].
  vm_compute. reflexivity.
Defined.

Definition demo_draft_state : St tokens Allowlist Z :=
  mkSt (mkSafety NewAllowlist (NewRateLimiterAt 0 0)) (of_unix 10000) [].

Lemma draft_create_proposes_witness :
  exists e, st_trace (handleDraftCreate "default" None "drf-2"
      (Some (JObj [("to", JStr "+5511999990000"); ("body", JStr "oi")]))
      (Some NewDraftStore, demo_draft_state)).2.2 = [EvAudit e] /\ ae_Action e = AuditDraftCreate.
Proof.
  assert (Hok : is_ok (handleDraftCreate "default" None "drf-2"
      (Some (JObj [("to", JStr "+5511999990000"); ("body", JStr "oi")]))
      (Some NewDraftStore, demo_draft_state)).1 = true) by (vm_compute; reflexivity).
  destruct (handleDraftCreate _ _ _ _ _) as [r [s' st']] eqn:E.
  assert (Hf : forall p, ds_row NewDraftStore (p, "drf-2"%string) = None)
    by (intros p; apply lookup_empty).
  assert (Hi : ds_inv NewDraftStore) by done.
  destruct (draft_create_proposes "default" "drf-2" None _ NewDraftStore demo_draft_state st' s' r
    Hi Hf E) as [_ H]. cbn in Hok. rewrite Hok in H.
  destruct H as [(e & He) _]. by exists e.
Defined.

Lemma draft_approve_only_records_witness :
  exists s1 d1, handleDraftApprove "default" None (Some (JObj [("id", JStr "drf-1")]))
      (Some (mem_Put None demo_draft NewDraftStore).2, demo_draft_state)
    = (Ok (JObj [("draft", viewDraft d1)]), (Some s1, demo_draft_state))
    /\ dr_State d1 = DraftApproved /\ dr_ExpiresAt d1 < 10000.
Proof.
  destruct (draft_approve_only_records "default" (Some (JObj [("id", JStr "drf-1")]))
    (mkDecision "drf-1" "" "") (mem_Put None demo_draft NewDraftStore).2 demo_draft_state demo_draft)
    as (s1 & d1 & He & Hr & Hs & _).
  - destruct (mem_put_law NewDraftStore demo_draft) as (s' & E & Hi & _); [done|reflexivity|].
    rewrite E. exact Hi.
  - reflexivity.
  - discriminate.
  - reflexivity.
  - reflexivity.
  - reflexivity.
  - vm_compute. discriminate.
  - exists s1, d1. split; [exact He|]. split; [exact Hs|].
    assert (E : match (handleDraftApprove "default" None (Some (JObj [("id", JStr "drf-1")]))
        (Some (mem_Put None demo_draft NewDraftStore).2, demo_draft_state)).2.1 with
      | Some s => ds_row s ("default", "drf-1") | None => None end = Some d1) by (rewrite He; exact Hr).
    vm_compute in E. injection E as <-. done.
Defined.
