(* ===== verification/Schedule.v ===== *)
(** * Scheduled sends: the entity and its SQLite store

    [internal/domain/scheduled_send.go] (pending -> fired | cancelled |
    failed) and [sqliteschedule/schedule.go], the only implementation of
    [app.ScheduledStore].  The store keeps times in Unix seconds. *)
From S2P Require Import Prelude GoStd Errors Jid Draft.

#[local] Open Scope Z_scope.

(** ** scheduled_send.go *)

(** [ScheduledState] *)
Definition SchedulePending : Z := 1.
Definition ScheduleFired : Z := 2.
Definition ScheduleCancelled : Z := 3.
Definition ScheduleFailed : Z := 4.

Definition ScheduledState_String (s : Z) : string :=
  if s =? SchedulePending then "pending"
  else if s =? ScheduleFired then "fired"
  else if s =? ScheduleCancelled then "cancelled"
  else if s =? ScheduleFailed then "failed"
  else "unknown".
Definition ScheduledState_IsValid (s : Z) : bool :=
  (s =? SchedulePending) || (s =? ScheduleFired) || (s =? ScheduleCancelled) || (s =? ScheduleFailed).
Definition ScheduledState_IsTerminal (s : Z) : bool :=
  (s =? ScheduleFired) || (s =? ScheduleCancelled) || (s =? ScheduleFailed).

(** [ScheduleKind] *)
Definition ScheduleKindSendText : Z := 1.
Definition ScheduleKindSendMedia : Z := 2.
Definition ScheduleKindCreateDraft : Z := 3.

Definition ScheduleKind_IsValid (k : Z) : bool :=
  (k =? ScheduleKindSendText) || (k =? ScheduleKindSendMedia) || (k =? ScheduleKindCreateDraft).
Definition ScheduleKind_String (k : Z) : string :=
  if k =? ScheduleKindSendText then "send_text"
  else if k =? ScheduleKindSendMedia then "send_media"
  else if k =? ScheduleKindCreateDraft then "create_draft"
  else "unknown".

Record ScheduledSend := mkScheduled {
  ss_id : string; ss_profile : string; ss_kind : Z; ss_recipient : JID; ss_body : string;
  ss_mediaPath : string; ss_fireAt : time; ss_createdAt : time; ss_state : Z;
  ss_updatedAt : time; ss_lastError : string }.

Record ScheduledSendSpec := mkScheduledSpec {
  sps_ID : string; sps_Profile : string; sps_Kind : Z; sps_To : JID; sps_Body : string;
  sps_MediaPath : string; sps_FireAt : time; sps_Now : time }.

Definition NewScheduledSend (s : ScheduledSendSpec) : result ScheduledSend :=
  fail_if str_empty (sps_ID s) with ENew "scheduled_send: id required" ;;
  fail_if str_empty (sps_Profile s) with ENew "scheduled_send: profile required" ;;
  fail_if negb (ScheduleKind_IsValid (sps_Kind s)) with ENew "scheduled_send: invalid kind %d" ;;
  fail_if JID_IsZero (sps_To s) with ENew "scheduled_send: recipient required" ;;
  fail_if ((sps_Kind s =? ScheduleKindSendText) || (sps_Kind s =? ScheduleKindCreateDraft))
          && str_empty (sps_Body s) with EDom domain.ErrEmptyBody ;;
  fail_if (sps_Kind s =? ScheduleKindSendMedia) && str_empty (sps_MediaPath s)
    with ENew "scheduled_send: media path required for send_media" ;;
  fail_if negb (after (sps_FireAt s) (sps_Now s)) with EDom domain.ErrScheduleInPast ;;
  Ok (mkScheduled (sps_ID s) (sps_Profile s) (sps_Kind s) (sps_To s) (sps_Body s) (sps_MediaPath s)
        (utc (sps_FireAt s)) (utc (sps_Now s)) SchedulePending (utc (sps_Now s)) "").

(** The fields the transitions write. *)
Definition ss_set (s : ScheduledSend) (fireAt : time) (state : Z) (updatedAt : time)
    (lastError : string) : ScheduledSend :=
  mkScheduled (ss_id s) (ss_profile s) (ss_kind s) (ss_recipient s) (ss_body s) (ss_mediaPath s)
    fireAt (ss_createdAt s) state updatedAt lastError.

Definition MarkFired (s : ScheduledSend) (at_ : time) : result ScheduledSend :=
  fail_if ScheduledState_IsTerminal (ss_state s) with EDom domain.ErrScheduleTerminal ;;
  Ok (ss_set s (ss_fireAt s) ScheduleFired (utc at_) (ss_lastError s)).
Definition MarkCancelled (s : ScheduledSend) (at_ : time) : result ScheduledSend :=
  fail_if ScheduledState_IsTerminal (ss_state s) with EDom domain.ErrScheduleTerminal ;;
  Ok (ss_set s (ss_fireAt s) ScheduleCancelled (utc at_) (ss_lastError s)).
Definition MarkFailed (s : ScheduledSend) (at_ : time) (reason : string) : result ScheduledSend :=
  fail_if ScheduledState_IsTerminal (ss_state s) with EDom domain.ErrScheduleTerminal ;;
  let reason := if str_empty reason then "unspecified"%string else reason in
  Ok (ss_set s (ss_fireAt s) ScheduleFailed (utc at_) reason).
Definition Reschedule (s : ScheduledSend) (newFireAt now : time) : result ScheduledSend :=
  fail_if ScheduledState_IsTerminal (ss_state s) with EDom domain.ErrScheduleTerminal ;;
  fail_if negb (after newFireAt now) with EDom domain.ErrScheduleInPast ;;
  Ok (ss_set s (utc newFireAt) (ss_state s) (utc now) (ss_lastError s)).

Record ScheduledSendRecord := mkSchedRecord {
  sr_ID : string; sr_Profile : string; sr_Kind : Z; sr_To : JID; sr_Body : string;
  sr_MediaPath : string; sr_FireAt : time; sr_CreatedAt : time; sr_State : Z;
  sr_UpdatedAt : time; sr_LastError : string }.
Definition HydrateScheduledSend (r : ScheduledSendRecord) : ScheduledSend :=
  mkScheduled (sr_ID r) (sr_Profile r) (sr_Kind r) (sr_To r) (sr_Body r) (sr_MediaPath r)
    (utc (sr_FireAt r)) (utc (sr_CreatedAt r)) (sr_State r) (utc (sr_UpdatedAt r)) (sr_LastError r).

(** ** sqliteschedule/schedule.go

    A row of [scheduled_sends]; the primary key is (profile, id). *)
Record SchedRow := mkSchedRow {
  sw_id : string; sw_profile : string; sw_kind : Z; sw_recipient : string; sw_body : string;
  sw_media : string; sw_fire : Z; sw_created : Z; sw_state : Z; sw_updated : Z; sw_error : string }.

Abbreviation SchedTable := (gmap (string * string) SchedRow).

(** [ErrNotFound] wraps [fs.ErrNotExist]. *)
Definition sched_ErrNotFound : goerr :=
  EWrap "" (EWrap "sqliteschedule: " (ENew "file does not exist") "") ": %s/%s".

Definition sched_validate (s : ScheduledSend) : check goerr :=
  fail_if str_empty (ss_id s) || str_empty (ss_profile s)
    with ENew "sqliteschedule: id/profile required" ;;
  fail_if negb (ScheduledState_IsValid (ss_state s)) with ENew "sqliteschedule: invalid state %d" ;;
  Ok tt.

Definition sched_columns (s : ScheduledSend) : SchedRow :=
  mkSchedRow (ss_id s) (ss_profile s) (ss_kind s) (JID_String (ss_recipient s)) (ss_body s)
    (ss_mediaPath s) (unix (ss_fireAt s)) (unix (ss_createdAt s)) (ss_state s)
    (unix (ss_updatedAt s)) (ss_lastError s).

Definition sched_Put (f : fault) (s : ScheduledSend) (t : SchedTable) : check goerr * SchedTable :=
  match sched_validate s with
  | Err e => (Err e, t)
  | Ok _ =>
    match fails_at f SExec, t !! (ss_profile s, ss_id s) with
    | Some e, _ => (Err (wrapc "sqliteschedule: put" e), t)
    | None, Some _ => (Err (wrapc "sqliteschedule: put" (ENew "UNIQUE constraint failed")), t)
    | None, None => (Ok tt, <[(ss_profile s, ss_id s) := sched_columns s]> t)
    end
  end.

(** The [UPDATE] keeps [created_at]; its WHERE clause is the key alone. *)
Definition sched_Update (f : fault) (s : ScheduledSend) (t : SchedTable) : check goerr * SchedTable :=
  match sched_validate s with
  | Err e => (Err e, t)
  | Ok _ =>
    match fails_at f SExec, t !! (ss_profile s, ss_id s) with
    | Some e, _ => (Err (wrapc "sqliteschedule: update" e), t)
    | None, None => (Err sched_ErrNotFound, t)
    | None, Some r =>
      (Ok tt, <[(ss_profile s, ss_id s) :=
         mkSchedRow (sw_id r) (sw_profile r) (ss_kind s) (JID_String (ss_recipient s)) (ss_body s)
           (ss_mediaPath s) (unix (ss_fireAt s)) (sw_created r) (ss_state s)
           (unix (ss_updatedAt s)) (ss_lastError s)]> t)
    end
  end.

Definition sched_scan (r : SchedRow) : result ScheduledSend :=
  match Parse (sw_recipient r) with
  | Err e => Err (wrapc "sqliteschedule: scan jid" e)
  | Ok jid =>
    fail_if (sw_kind r <? 0) || (255 <? sw_kind r) with ENew "sqliteschedule: kind %d out of uint8 range" ;;
    fail_if (sw_state r <? 0) || (255 <? sw_state r) with ENew "sqliteschedule: state %d out of uint8 range" ;;
    Ok (HydrateScheduledSend (mkSchedRecord (sw_id r) (sw_profile r) (sw_kind r) jid (sw_body r)
          (sw_media r) (of_unix (sw_fire r)) (of_unix (sw_created r)) (sw_state r)
          (of_unix (sw_updated r)) (sw_error r)))
  end.

Definition sched_Get (f : fault) (profile id : string) (t : SchedTable) : result ScheduledSend :=
  match fails_at f SQuery with
  | Some e => Err e
  | None =>
    match t !! (profile, id) with
    | None => Err sched_ErrNotFound
    | Some r => sched_scan r
    end
  end.

Fixpoint sched_scanAll (l : list SchedRow) : result (list ScheduledSend) :=
  match l with
  | [] => Ok []
  | r :: l => let* s := sched_scan r in let* ss := sched_scanAll l in Ok (s :: ss)
  end.

(** [ORDER BY fire_at ASC, id ASC] and [ORDER BY fire_at DESC, id ASC] *)
Definition fire_le (a b : SchedRow) : Prop :=
  sw_fire a < sw_fire b \/ (sw_fire a = sw_fire b /\ String.leb (sw_id a) (sw_id b) = true).
Definition fire_ge (a b : SchedRow) : Prop :=
  sw_fire b < sw_fire a \/ (sw_fire a = sw_fire b /\ String.leb (sw_id a) (sw_id b) = true).
#[local] Instance fire_le_dec : RelDecision fire_le.
Proof. intros a b. unfold fire_le. apply _. Defined.
#[local] Instance fire_ge_dec : RelDecision fire_ge.
Proof. intros a b. unfold fire_ge. apply _. Defined.

Definition sched_select (p : SchedRow -> bool) (t : SchedTable) : list SchedRow :=
  List.filter p (map snd (map_to_list t)).

Definition sched_ListPending (f : fault) (profile : string) (t : SchedTable)
    : result (list ScheduledSend) :=
  match fails_at f SQuery with
  | Some e => Err (wrapc "sqliteschedule: list_pending" e)
  | None =>
    sched_scanAll (merge_sort fire_le
      (sched_select (fun r => (sw_profile r =? profile)%string && (sw_state r =? SchedulePending)) t))
  end.

Definition sched_List (f : fault) (profile : string) (state limit : Z) (t : SchedTable)
    : result (list ScheduledSend) :=
  let limit := if limit <=? 0 then 100 else limit in
  match fails_at f SQuery with
  | Some e => Err (wrapc "sqliteschedule: list" e)
  | None =>
    sched_scanAll (take (Z.to_nat limit) (merge_sort fire_ge
      (sched_select (fun r => (sw_profile r =? profile)%string
         && (if state =? 0 then true else sw_state r =? state)) t)))
  end.

Definition sched_Delete (f : fault) (profile id : string) (t : SchedTable) : check goerr * SchedTable :=
  match fails_at f SExec, t !! (profile, id) with
  | Some e, _ => (Err (wrapc "sqliteschedule: delete" e), t)
  | None, None => (Err sched_ErrNotFound, t)
  | None, Some _ => (Ok tt, delete (profile, id) t)
  end.

(** ** Facts about the store *)

(** What the columns can hold: [NewScheduledSend] and the transitions build
    only such values from a parsed recipient. *)
Definition sched_wf (s : ScheduledSend) : Prop :=
  wf_jid (ss_recipient s) = true /\ ss_id s <> ""%string /\ ss_profile s <> ""%string
  /\ ScheduleKind_IsValid (ss_kind s) = true /\ ScheduledState_IsValid (ss_state s) = true.

Definition to_seconds (t : time) : time := of_unix (unix t).
(** The value as the store gives it back. *)
Definition stored (s : ScheduledSend) : ScheduledSend :=
  mkScheduled (ss_id s) (ss_profile s) (ss_kind s) (ss_recipient s) (ss_body s) (ss_mediaPath s)
    (to_seconds (ss_fireAt s)) (to_seconds (ss_createdAt s)) (ss_state s)
    (to_seconds (ss_updatedAt s)) (ss_lastError s).

Lemma small_range z (P : z = 1 \/ z = 2 \/ z = 3 \/ z = 4) : (z <? 0) || (255 <? z) = false.
Proof. destruct P as [->|[->|[->| ->]]]; done. Qed.

Lemma valid_kind k : ScheduleKind_IsValid k = true -> k = 1 \/ k = 2 \/ k = 3.
Proof. unfold ScheduleKind_IsValid. rewrite !orb_true_iff, !Z.eqb_eq. tauto. Qed.
Lemma valid_state k : ScheduledState_IsValid k = true -> k = 1 \/ k = 2 \/ k = 3 \/ k = 4.
Proof. unfold ScheduledState_IsValid. rewrite !orb_true_iff, !Z.eqb_eq. tauto. Qed.
Lemma pending_or_terminal k : ScheduledState_IsValid k = true ->
  k = SchedulePending \/ ScheduledState_IsTerminal k = true.
Proof. intros [->|[->|[->| ->]]]%valid_state; auto. Qed.

Lemma sched_scan_columns s : sched_wf s -> sched_scan (sched_columns s) = Ok (stored s).
Proof.
  intros (Hj & _ & _ & Hk & Hs). unfold sched_scan. cbn [sw_recipient sched_columns].
  rewrite Parse_String by done. apply valid_kind in Hk. apply valid_state in Hs.
  cbn [sw_kind sw_state sched_columns]. rewrite !small_range by tauto. done.
Qed.

Lemma sched_wf_validate s : sched_wf s -> sched_validate s = Ok tt.
Proof.
  intros (_ & Hi & Hp & _ & Hs). unfold sched_validate.
  rewrite (proj2 (str_empty_false _) Hi), (proj2 (str_empty_false _) Hp), Hs. done.
Qed.

Definition sched_key (s : ScheduledSend) : string * string := (ss_profile s, ss_id s).

(** The table holds columns of well-formed values under their own keys. *)
Definition sched_inv (t : SchedTable) : Prop :=
  forall k r, t !! k = Some r -> exists s, r = sched_columns s /\ sched_wf s /\ sched_key s = k.

Lemma sched_inv_insert t s : sched_inv t -> sched_wf s ->
  sched_inv (<[sched_key s := sched_columns s]> t).
Proof.
  intros Hi Hw k r. destruct (decide (k = sched_key s)) as [->|].
  - rewrite lookup_insert_eq. intros [= <-]. by exists s.
  - rewrite lookup_insert_ne by done. apply Hi.
Qed.

Lemma sched_Get_ok t p id s : sched_inv t -> sched_Get None p id t = Ok s ->
  sched_wf s /\ sched_key s = (p, id) /\ t !! (p, id) = Some (sched_columns s) /\ stored s = s.
Proof.
  intros Hi. unfold sched_Get. cbn [fails_at]. destruct (t !! (p, id)) as [r|] eqn:E; [|done].
  destruct (Hi _ _ E) as (s0 & -> & Hw & Hk). rewrite sched_scan_columns by done. intros [= <-].
  split; [exact Hw|]. split; [exact Hk|]. unfold stored, sched_columns, to_seconds. cbn.
  unfold unix, of_unix. rewrite !Z.div_mul by done. done.
Qed.

Lemma sched_Update_ok t s s0 : sched_inv t -> sched_wf s ->
  t !! sched_key s = Some (sched_columns s0) -> ss_createdAt s = ss_createdAt s0 ->
  sched_key s0 = sched_key s ->
  sched_Update None s t = (Ok tt, <[sched_key s := sched_columns s]> t).
Proof.
  intros Hi Hw Ht Hc Hk. unfold sched_Update. rewrite sched_wf_validate by done. cbn [fails_at].
  change (ss_profile s, ss_id s) with (sched_key s). rewrite Ht. injection Hk as Hk1 Hk2.
  unfold sched_columns. cbn. by rewrite Hk1, Hk2, Hc.
Qed.

(** The row of a key is there and terminal. *)
Definition settled_row (k : string * string) (t : SchedTable) : Prop :=
  exists r, t !! k = Some r /\ ScheduledState_IsTerminal (sw_state r) = true.

(** An update with any fault keeps the invariant, and keeps every settled row
    settled unless it writes a pending value over one. *)
Lemma sched_Update_step f s t : sched_inv t -> sched_wf s ->
  ScheduledState_IsTerminal (ss_state s) = true \/ ~ settled_row (sched_key s) t ->
  sched_inv (sched_Update f s t).2
  /\ forall k, settled_row k t -> settled_row k (sched_Update f s t).2.
Proof.
  intros Hi Hw Hs. unfold sched_Update. rewrite sched_wf_validate by done.
  change (ss_profile s, ss_id s) with (sched_key s).
  destruct (fails_at f SExec); [done|]. destruct (t !! sched_key s) as [r|] eqn:Er; [|done].
  destruct (Hi _ _ Er) as (s0 & -> & Hw0 & Hk0). cbn [snd]. injection Hk0 as Hp Hd.
  set (s' := mkScheduled (ss_id s) (ss_profile s) (ss_kind s) (ss_recipient s) (ss_body s)
    (ss_mediaPath s) (ss_fireAt s) (ss_createdAt s0) (ss_state s) (ss_updatedAt s) (ss_lastError s)).
  assert (Hw' : sched_wf s') by done.
  match goal with |- context [<[_ := ?c]> t] => replace c with (sched_columns s') end.
  2: { unfold sched_columns. cbn. by rewrite Hd, Hp. }
  change (sched_key s) with (sched_key s'). split; [by apply sched_inv_insert|].
  intros k (r & Hr & Ht). destruct (decide (k = sched_key s')) as [->|].
  - destruct Hs as [Hs|Hs].
    + exists (sched_columns s'). by rewrite lookup_insert_eq.
    + destruct Hs. by exists r.
  - exists r. by rewrite lookup_insert_ne.
Qed.

Lemma sched_Put_step f s t : sched_inv t -> sched_wf s ->
  sched_inv (sched_Put f s t).2 /\ forall k, settled_row k t -> settled_row k (sched_Put f s t).2.
Proof.
  intros Hi Hw. unfold sched_Put. rewrite sched_wf_validate by done.
  change (ss_profile s, ss_id s) with (sched_key s).
  destruct (fails_at f SExec); [done|]. destruct (t !! sched_key s) as [r|] eqn:Er; [done|].
  split; [by apply sched_inv_insert|]. intros k (r & Hr & Ht). exists r.
  cbn. by rewrite lookup_insert_ne by congruence.
Qed.

Lemma sched_Get_stored t s : sched_wf s ->
  sched_Get None (ss_profile s) (ss_id s) (<[sched_key s := sched_columns s]> t) = Ok (stored s).
Proof.
  intros Hw. unfold sched_Get. cbn [fails_at]. change (ss_profile s, ss_id s) with (sched_key s).
  by rewrite lookup_insert_eq, sched_scan_columns.
Qed.

(** Every transition is refused from a terminal state and otherwise moves
    pending to the state it names. *)
Lemma NewScheduledSend_wf spec s : wf_jid (sps_To spec) = true -> NewScheduledSend spec = Ok s ->
  sched_wf s /\ ss_state s = SchedulePending /\ after (ss_fireAt s) (sps_Now spec) = true.
Proof.
  unfold NewScheduledSend. intros Hj H. peel H. injection H as <-. bprop. unfold sched_wf. cbn.
  rewrite str_empty_false in *. repeat split; auto.
Qed.

(** What [ListPending] returns. *)
Lemma sched_scanAll_ok l :
  Forall (fun r => exists s, r = sched_columns s /\ sched_wf s) l ->
  exists ss, sched_scanAll l = Ok ss /\ map sched_columns ss = l
  /\ Forall (fun s => sched_wf s /\ stored s = s) ss.
Proof.
  induction 1 as [|r l (s & -> & Hw) _ (ss & Hs & <- & Hf)]; [by exists []|].
  exists (stored s :: ss). cbn. rewrite sched_scan_columns by done. cbn. rewrite Hs. cbn.
  assert (Hu : forall t, unix (to_seconds t) = unix t)
    by (intros t; unfold to_seconds, unix, of_unix; by rewrite Z.div_mul).
  split; [done|]. split.
  - f_equal. unfold sched_columns, stored. cbn. by rewrite !Hu.
  - constructor; [|done]. split; [done|]. unfold stored, to_seconds. cbn. fold (to_seconds).
    unfold unix, of_unix. by rewrite !Z.div_mul.
Qed.

Lemma sched_ListPending_spec p t : sched_inv t -> exists l,
  sched_ListPending None p t = Ok l
  /\ NoDup (map ss_id l)
  /\ forall s, s ∈ l <-> sched_Get None p (ss_id s) t = Ok s /\ ss_profile s = p
                        /\ ss_state s = SchedulePending.
Proof.
  intros Hi. unfold sched_ListPending. cbn [fails_at].
  set (P := fun r => (sw_profile r =? p)%string && (sw_state r =? SchedulePending)). set (sel := sched_select P t).
  assert (Hall : Forall (fun r => exists s, r = sched_columns s /\ sched_wf s) (merge_sort fire_le sel)).
  { rewrite (merge_sort_Permutation fire_le). apply Forall_forall. intros r Hr. unfold sel, sched_select in Hr.
    apply list_elem_of_In, filter_In in Hr as [Hr _].
    apply list_elem_of_In, list_elem_of_fmap in Hr as ([k r'] & -> & Hr). cbn.
    apply elem_of_map_to_list in Hr. destruct (Hi _ _ Hr) as (s & -> & Hw & _). by exists s. }
  destruct (sched_scanAll_ok _ Hall) as (l & Hl & Hc & Hf). exists l. split; [done|].
  assert (Hperm : map sched_columns l ≡ₚ sel) by (rewrite Hc; apply merge_sort_Permutation).
  assert (Hin : forall r, r ∈ sel <-> exists k, t !! k = Some r /\ P r = true).
  { intros r. unfold sel, sched_select. rewrite list_elem_of_In, filter_In, <- list_elem_of_In.
    change (map snd (map_to_list t)) with ((map_to_list t).*2). rewrite list_elem_of_fmap. split.
    - intros [([k r'] & -> & Hr%elem_of_map_to_list) HP]. by exists k.
    - intros (k & Hr & HP). split; [|done]. exists (k, r). split; [done|]. by apply elem_of_map_to_list. }
  pose proof (proj1 (Forall_forall _ _) Hf) as Hf'. split.
  - assert (Hk : NoDup (map (fun r => (sw_profile r, sw_id r)) sel)).
    { unfold sel, sched_select. apply NoDup_filter_map. rewrite map_map.
      replace (map _ (map_to_list t)) with ((map_to_list t).*1); [apply NoDup_fst_map_to_list|].
      apply list_fmap_ext. intros i [k r] Hr. cbn. apply list_elem_of_lookup_2, elem_of_map_to_list in Hr.
      destruct (Hi _ _ Hr) as (s & -> & _ & <-). done. }
    rewrite <- Hperm, map_map in Hk. apply (NoDup_fmap_1 (fun i => (p, i))).
    rewrite <- list_fmap_compose. eapply eq_ind; [exact Hk|].
    apply list_fmap_ext. intros i s Hs. cbn. f_equal.
    apply list_elem_of_lookup_2 in Hs.
    assert (Hsel : sched_columns s ∈ sel) by (rewrite <- Hperm; apply list_elem_of_fmap; by exists s).
    apply Hin in Hsel as (k & _ & HP). unfold P in HP. bprop. by apply String.eqb_eq in H.
  - intros s. split.
    + intros Hs. assert (Hsel : sched_columns s ∈ sel) by (rewrite <- Hperm; apply list_elem_of_fmap; by exists s).
      apply Hin in Hsel as (k & Ht & HP). unfold P in HP. bprop. apply String.eqb_eq in H. cbn in H, H0.
      destruct (Hf' _ Hs) as [Hw Hst].
      destruct (Hi _ _ Ht) as (s' & Hcol & _ & <-).
      assert (Hk' : sched_key s' = (p, ss_id s)).
      { assert (sw_id (sched_columns s) = sw_id (sched_columns s')) by by rewrite Hcol.
        assert (sw_profile (sched_columns s) = sw_profile (sched_columns s')) by by rewrite Hcol.
        cbn in *. unfold sched_key. congruence. }
      split; [|done]. unfold sched_Get. cbn [fails_at]. rewrite <- Hk', Ht.
      rewrite sched_scan_columns by done. by rewrite Hst.
    + intros (Hg & Hp & Hst). apply sched_Get_ok in Hg as (Hw & Hk & Ht & Hsto); [|done].
      assert (Hsel : sched_columns s ∈ map sched_columns l).
      { rewrite Hperm. apply Hin. exists (p, ss_id s). split; [done|]. unfold P. cbn.
        by rewrite Hp, String.eqb_refl, Hst. }
      apply list_elem_of_fmap in Hsel as (s' & Hcol & Hs'). destruct (Hf' _ Hs') as [Hw' Hst'].
      pose proof (sched_scan_columns s Hw) as E1. pose proof (sched_scan_columns s' Hw') as E2.
      rewrite Hcol, E2, Hsto, Hst' in E1. by injection E1 as <-.
Qed.
