(* ===== verification/ScheduleRunner.v ===== *)
(** * The timers behind scheduled sends

    [internal/app/schedule_runner.go].  The runner's own state (the timer map
    and the [stopped] flag, guarded by one mutex) is next to the part of the
    Go runtime it drives: the armed timers, the callbacks whose timer expired
    and which wait for the mutex, and the fires in progress counted by
    [fireWg].  [runner_step] is one critical section of one goroutine, or one
    timer expiry. *)
From S2P Require Import Prelude GoStd Errors Jid Policy Limiter Draft Schedule.

#[local] Open Scope Z_scope.

(** What a callback closes over. *)
Record callback := mkCallback { cb_key : string; cb_profile : string; cb_id : string }.

Record ScheduleRunner := mkRunner {
  r_timers : gmap string nat;           (* timers, by runner key *)
  r_stopped : bool;
  r_armed : gmap nat (callback * Z);    (* runtime: armed timers and their delay *)
  r_waiting : gmap nat callback;        (* runtime: expired, before the mutex *)
  r_fireWg : nat;
  r_next : nat }.                       (* the next timer *)

Definition NewScheduleRunner : ScheduleRunner := mkRunner ∅ false ∅ ∅ 0 0.

Definition runnerKey (profile id : string) : string := (profile +:+ "|" +:+ id)%string.

(** [t.Stop()] has no effect on an expired timer. *)
Definition timer_stop (i : nat) (r : ScheduleRunner) : ScheduleRunner :=
  mkRunner (r_timers r) (r_stopped r) (delete i (r_armed r)) (r_waiting r) (r_fireWg r) (r_next r).

Definition arm (now : time) (ss : ScheduledSend) (r : ScheduleRunner) : ScheduleRunner :=
  if negb (ss_state ss =? SchedulePending) then r
  else
    let delay := Z.max (time_sub (ss_fireAt ss) now) 0 in
    let key := runnerKey (ss_profile ss) (ss_id ss) in
    if r_stopped r then r
    else
      let r := match r_timers r !! key with Some old => timer_stop old r | None => r end in
      let i := r_next r in
      mkRunner (<[key := i]> (r_timers r)) (r_stopped r)
        (<[i := (mkCallback key (ss_profile ss) (ss_id ss), delay)]> (r_armed r))
        (r_waiting r) (r_fireWg r) (S i).

Definition runner_Schedule (now : time) (ss : ScheduledSend) (r : ScheduleRunner) : ScheduleRunner :=
  arm now ss r.

Definition runner_Cancel (profile id : string) (r : ScheduleRunner) : ScheduleRunner :=
  let key := runnerKey profile id in
  match r_timers r !! key with
  | Some t => let r := timer_stop t r in
              mkRunner (delete key (r_timers r)) (r_stopped r) (r_armed r) (r_waiting r)
                (r_fireWg r) (r_next r)
  | None => r
  end.

Definition runner_Pending (r : ScheduleRunner) : Z := Z.of_nat (size (r_timers r)).

(** [Stop] up to its wait: the loop stops every timer of the map. *)
Definition runner_Stop (r : ScheduleRunner) : ScheduleRunner :=
  let r := foldr (fun kt r => timer_stop kt.2 r) r (map_to_list (r_timers r)) in
  mkRunner ∅ true (r_armed r) (r_waiting r) (r_fireWg r) (r_next r).

(** The body of the callback up to [r.Fire]; [None] when it gives up. *)
Definition run_callback (i : nat) (r : ScheduleRunner) : option (string * string) * ScheduleRunner :=
  match r_waiting r !! i with
  | None => (None, r)
  | Some cb =>
    let w := delete i (r_waiting r) in
    if r_stopped r
    then (None, mkRunner (r_timers r) (r_stopped r) (r_armed r) w (r_fireWg r) (r_next r))
    else (Some (cb_profile cb, cb_id cb),
          mkRunner (delete (cb_key cb) (r_timers r)) (r_stopped r) (r_armed r) w
            (S (r_fireWg r)) (r_next r))
  end.

(** [Start]: [ctx] errors are those of [ListPending]. *)
Definition runner_Start (f : fault) (now : time) (profile : string) (t : SchedTable)
    (r : ScheduleRunner) : check goerr * ScheduleRunner :=
  match sched_ListPending f profile t with
  | Err e => (Err (wrapc "schedule runner: list pending" e), r)
  | Ok pending => (Ok tt, foldl (fun r ss => arm now ss r) r pending)
  end.

(** ** Interleavings *)

Inductive runner_label :=
| LArm (ss : ScheduledSend) (now : time)
| LCancel (profile id : string)
| LExpire (i : nat)                     (* the runtime starts a callback *)
| LFire (profile id : string)           (* a callback calls Fire *)
| LGiveUp                               (* a callback sees stopped *)
| LDone                                 (* fireWg.Done *)
| LStop
| LReturn.                              (* fireWg.Wait returns in Stop *)

(** The runner and whether [Stop] has returned. *)
Inductive runner_step : ScheduleRunner * bool -> runner_label -> ScheduleRunner * bool -> Prop :=
| rs_arm r b ss now : runner_step (r, b) (LArm ss now) (arm now ss r, b)
| rs_cancel r b p id : runner_step (r, b) (LCancel p id) (runner_Cancel p id r, b)
| rs_expire r b i cb d : r_armed r !! i = Some (cb, d) ->
    runner_step (r, b) (LExpire i)
      (mkRunner (r_timers r) (r_stopped r) (delete i (r_armed r)) (<[i := cb]> (r_waiting r))
         (r_fireWg r) (r_next r), b)
| rs_fire r b i p id r' : run_callback i r = (Some (p, id), r') ->
    runner_step (r, b) (LFire p id) (r', b)
| rs_giveup r b i cb r' : r_waiting r !! i = Some cb -> run_callback i r = (None, r') ->
    runner_step (r, b) LGiveUp (r', b)
| rs_done r b n : r_fireWg r = S n ->
    runner_step (r, b) LDone
      (mkRunner (r_timers r) (r_stopped r) (r_armed r) (r_waiting r) n (r_next r), b)
| rs_stop r b : runner_step (r, b) LStop (runner_Stop r, b)
| rs_return r b : r_stopped r = true -> r_fireWg r = 0%nat ->
    runner_step (r, b) LReturn (r, true).

Inductive runner_trace : ScheduleRunner * bool -> list runner_label -> ScheduleRunner * bool -> Prop :=
| rt_nil s : runner_trace s [] s
| rt_cons s l s1 ls s2 : runner_step s l s1 -> runner_trace s1 ls s2 -> runner_trace s (l :: ls) s2.

Definition fires (l : runner_label) : bool := match l with LFire _ _ => true | _ => false end.

(** *** Stop is a barrier *)

Lemma stop_fold_keeps (l : list (string * nat)) r :
  let r' := foldr (fun kt r => timer_stop kt.2 r) r l in
  r_fireWg r' = r_fireWg r /\ r_waiting r' = r_waiting r /\ r_next r' = r_next r.
Proof. induction l as [|kt l IH]; cbn; [done|]. exact IH. Qed.

Lemma arm_frame now ss r : r_stopped (arm now ss r) = r_stopped r
  /\ r_fireWg (arm now ss r) = r_fireWg r /\ r_waiting (arm now ss r) = r_waiting r.
Proof.
  unfold arm. destruct (negb _); [done|]. destruct (r_stopped r) eqn:E; [by rewrite E|].
  by destruct (r_timers r !! _).
Qed.
Lemma cancel_frame p id r : r_stopped (runner_Cancel p id r) = r_stopped r
  /\ r_fireWg (runner_Cancel p id r) = r_fireWg r.
Proof. unfold runner_Cancel. by destruct (r_timers r !! _). Qed.

(** Once stopped: it stays stopped, the fires in progress only decrease, and
    no callback reaches Fire. *)
Lemma stopped_step r b l r' b' : runner_step (r, b) l (r', b') -> r_stopped r = true ->
  r_stopped r' = true /\ fires l = false /\ (r_fireWg r' <= r_fireWg r)%nat.
Proof.
  inversion 1 as [? ? ss now|? ? p id|? ? i cb d|? ? i p id ? Hc|? ? i cb ? Hw Hc|? ? n Hn| |]; subst;
    intros Hs.
  - destruct (arm_frame now ss r) as (-> & -> & _). done.
  - destruct (cancel_frame p id r) as (-> & ->). done.
  - done.
  - unfold run_callback in Hc. rewrite Hs in Hc. by destruct (r_waiting r !! i).
  - unfold run_callback in Hc. rewrite Hw, Hs in Hc. injection Hc as <-. done.
  - rewrite Hn. cbn. repeat split; [done|lia].
  - unfold runner_Stop. cbn. destruct (stop_fold_keeps (map_to_list (r_timers r)) r) as (-> & _). done.
  - done.
Qed.

Lemma stopped_trace s ls s' : runner_trace s ls s' -> r_stopped s.1 = true ->
  existsb fires ls = false /\ r_stopped s'.1 = true /\ (r_fireWg s'.1 <= r_fireWg s.1)%nat.
Proof.
  induction 1 as [|[r b] l [r1 b1] ls [r2 b2] Hstep _ IH]; intros Hs; [done|].
  destruct (stopped_step _ _ _ _ _ Hstep Hs) as (Hs1 & Hf & Hw). destruct (IH Hs1) as (He & Hs2 & Hw2).
  cbn in *. rewrite Hf, He. repeat split; [done|lia].
Qed.

Lemma returned_inv s ls s' : runner_trace s ls s' ->
  (s.2 = true -> r_stopped s.1 = true /\ r_fireWg s.1 = 0%nat) ->
  (s'.2 = true -> r_stopped s'.1 = true /\ r_fireWg s'.1 = 0%nat).
Proof.
  induction 1 as [|[r b] l [r1 b1] ls s2 Hstep _ IH]; [done|]. intros Hinv. apply IH. cbn in *.
  intros ->. destruct b.
  - destruct (Hinv eq_refl) as [Hs Hw]. destruct (stopped_step _ _ _ _ _ Hstep Hs) as (? & _ & ?).
    split; [done|lia].
  - inversion Hstep; subst; done.
Qed.

(** C14. Stop is a barrier (CON-05): in every interleaving of schedules,
    cancels, timer expiries, callbacks and Stop, once Stop has returned no
    fire is in progress, none starts later (a timer armed or expired around
    Stop included), and none is in progress at any later point. *)
Theorem runner_stop_barrier (ls ls' : list runner_label) (r r' : ScheduleRunner) (b : bool) :
  runner_trace (NewScheduleRunner, false) ls (r, true) ->
  runner_trace (r, true) ls' (r', b) ->
  r_fireWg r = 0%nat /\ existsb fires ls' = false /\ r_fireWg r' = 0%nat.
Proof.
  intros H1 H2. destruct (returned_inv _ _ _ H1) as [Hs Hw]; [done|done|].
  destruct (stopped_trace _ _ _ H2 Hs) as (Hf & _ & Hw'). cbn in *. repeat split; [done|done|lia].
Qed.

(** A timer that expired just before Stop. *)
Definition demo_sched : ScheduledSend :=
  mkScheduled "a" "p" ScheduleKindSendText (mkJID "5511999990000" serverUser) "hi" "" (of_unix 5) 0
    SchedulePending 0 "".
Definition demo_expired : ScheduleRunner :=
  let r := arm 0 demo_sched NewScheduleRunner in
  mkRunner (r_timers r) (r_stopped r) (delete 0%nat (r_armed r))
    (<[0%nat := mkCallback "p|a" "p" "a"]> (r_waiting r)) (r_fireWg r) (r_next r).

Lemma runner_stop_barrier_witness :
  r_fireWg (run_callback 0 (runner_Stop demo_expired)).2 = 0%nat.
Proof.
  apply (runner_stop_barrier [LArm demo_sched 0; LExpire 0; LStop; LReturn] [LGiveUp]
    (runner_Stop demo_expired) (run_callback 0 (runner_Stop demo_expired)).2 true).
  - eapply rt_cons; [apply rs_arm|]. eapply rt_cons; [eapply rs_expire; reflexivity|].
    eapply rt_cons; [apply rs_stop|]. eapply rt_cons; [apply rs_return; reflexivity|]. apply rt_nil.
  - eapply rt_cons; [|apply rt_nil]. eapply (rs_giveup _ _ 0); reflexivity.
Defined.

(** *** Start *)

(** The timer of a row: its delay is what is left until [fireAt]. *)
Definition armed_for (now : time) (ss : ScheduledSend) (r : ScheduleRunner) : Prop :=
  exists i, r_timers r !! runnerKey (ss_profile ss) (ss_id ss) = Some i
  /\ r_armed r !! i = Some (mkCallback (runnerKey (ss_profile ss) (ss_id ss)) (ss_profile ss) (ss_id ss),
                            Z.max (time_sub (ss_fireAt ss) now) 0).

Definition runner_fresh (r : ScheduleRunner) : Prop :=
  r_stopped r = false /\ forall k i, r_timers r !! k = Some i -> (i < r_next r)%nat.

Lemma runnerKey_inj p i j : runnerKey p i = runnerKey p j -> i = j.
Proof. unfold runnerKey. intros H%append_inj_l. by apply append_inj_l in H. Qed.

Lemma arm_fresh now ss r : ss_state ss = SchedulePending -> runner_fresh r ->
  runner_fresh (arm now ss r) /\ armed_for now ss (arm now ss r)
  /\ forall ss', ss_profile ss' = ss_profile ss -> ss_id ss' <> ss_id ss -> armed_for now ss' r ->
     r_timers r !! runnerKey (ss_profile ss) (ss_id ss) = None -> armed_for now ss' (arm now ss r).
Proof.
  intros Hp [Hs Hn]. unfold arm. rewrite Hp, Hs. cbn [negb].
  set (key := runnerKey (ss_profile ss) (ss_id ss)).
  set (r1 := match r_timers r !! key with Some old => timer_stop old r | None => r end).
  assert (Hr1 : r_timers r1 = r_timers r /\ r_next r1 = r_next r /\ r_stopped r1 = r_stopped r)
    by (unfold r1; by destruct (r_timers r !! key)).
  destruct Hr1 as (Ht & Hx & Hst). split; [split|split].
  - cbn. by rewrite Hst.
  - intros k i. cbn. rewrite Ht, Hx. destruct (decide (k = key)) as [->|].
    + rewrite lookup_insert_eq. intros [= <-]. lia.
    + rewrite lookup_insert_ne by done. intros Hk%Hn. lia.
  - exists (r_next r1). cbn. by rewrite !lookup_insert_eq.
  - intros ss' Hpr Hid (i & Hi1 & Hi2) Hnone. exists i. cbn.
    assert (Hk : runnerKey (ss_profile ss') (ss_id ss') <> key).
    { unfold key. rewrite Hpr. intros He%runnerKey_inj. by apply Hid. }
    rewrite lookup_insert_ne, Ht by done. split; [done|]. apply Hn in Hi1.
    rewrite lookup_insert_ne by (rewrite Hx; lia). unfold r1. by rewrite Hnone.
Qed.

Lemma arm_other_key now ss r k : k <> runnerKey (ss_profile ss) (ss_id ss) ->
  r_timers (arm now ss r) !! k = r_timers r !! k.
Proof.
  intros Hk. unfold arm. destruct (negb _); [done|]. destruct (r_stopped r); [done|]. cbn.
  rewrite lookup_insert_ne by done. by destruct (r_timers r !! _).
Qed.

Lemma arm_all now p l : forall r, runner_fresh r ->
  Forall (fun ss => ss_profile ss = p /\ ss_state ss = SchedulePending) l -> NoDup (map ss_id l) ->
  (forall ss, ss ∈ l -> r_timers r !! runnerKey p (ss_id ss) = None) ->
  (forall ss, ss ∈ l -> armed_for now ss (foldl (fun r ss => arm now ss r) r l))
  /\ (forall ss', ss_profile ss' = p -> (forall ss, ss ∈ l -> ss_id ss' <> ss_id ss) ->
      armed_for now ss' r -> armed_for now ss' (foldl (fun r ss => arm now ss r) r l))
  /\ (forall k, (forall ss, ss ∈ l -> k <> runnerKey p (ss_id ss)) ->
      r_timers (foldl (fun r ss => arm now ss r) r l) !! k = r_timers r !! k).
Proof.
  induction l as [|ss l IH]; intros r Hf Hall Hnd Hno; cbn [foldl].
  - split; [by intros ? ?%elem_of_nil|]. done.
  - apply Forall_cons in Hall as [[Hp Hst] Hall]. cbn in Hnd. apply NoDup_cons in Hnd as [Hid Hnd].
    destruct (arm_fresh now ss r Hst Hf) as (Hf1 & Ha & Hkeep).
    assert (Hne : forall ss', ss' ∈ l -> ss_id ss' <> ss_id ss).
    { intros ss' Hin He. apply Hid. rewrite <- He. apply list_elem_of_fmap. by exists ss'. }
    destruct (IH (arm now ss r) Hf1 Hall Hnd) as (H1 & H2 & H3).
    { intros ss' Hin. rewrite arm_other_key.
      - apply Hno. by right.
      - rewrite Hp. intros He%runnerKey_inj. by apply (Hne ss' Hin). }
    split; [|split].
    + intros ss' [->|Hin]%elem_of_cons; [|by apply H1].
      apply H2; [done| |done]. intros ss' Hin He. by apply (Hne ss' Hin).
    + intros ss' Hp' Hn Ha'. apply H2; [done| |].
      * intros x Hx. apply Hn. by right.
      * apply Hkeep; [congruence|apply Hn; by left|done|]. rewrite Hp. apply Hno. by left.
    + intros k Hk. rewrite H3 by (intros x Hx; apply Hk; by right).
      apply arm_other_key. rewrite Hp. apply Hk. by left.
Qed.

(** A restart loses no schedule: after Start on a fresh runner every
    pending row of the profile has its own armed timer, whose delay is the
    time left to its fire_at (zero when it is past due), and there is no other
    timer. *)
Theorem Start_arms_pending (now : time) (p : string) (t : SchedTable) :
  sched_inv t ->
  (runner_Start None now p t NewScheduleRunner).1 = Ok tt
  /\ (forall s, sched_Get None p (ss_id s) t = Ok s -> ss_profile s = p ->
      ss_state s = SchedulePending -> armed_for now s (runner_Start None now p t NewScheduleRunner).2)
  /\ (forall k, is_Some (r_timers (runner_Start None now p t NewScheduleRunner).2 !! k) ->
      exists s, k = runnerKey p (ss_id s) /\ sched_Get None p (ss_id s) t = Ok s
                /\ ss_state s = SchedulePending).
Proof.
  intros Hi. destruct (sched_ListPending_spec p t Hi) as (l & Hl & Hnd & Hin).
  unfold runner_Start. rewrite Hl. cbn [fst snd].
  assert (Hall : Forall (fun ss => ss_profile ss = p /\ ss_state ss = SchedulePending) l).
  { apply Forall_forall. intros s Hs. apply Hin in Hs. tauto. }
  destruct (arm_all now p l NewScheduleRunner) as (H1 & _ & H3); [|done|done|done|].
  { split; [done|]. cbn. intros k i. by rewrite lookup_empty. }
  split; [done|]. split; [intros s Hg Hp Hs; apply H1, Hin; done|].
  intros k [i Hk]. destruct (decide (k ∈ map (fun s => runnerKey p (ss_id s)) l)) as [Hk1|Hk1].
  - apply list_elem_of_fmap in Hk1 as (s & -> & Hs). exists s. apply Hin in Hs. tauto.
  - rewrite H3 in Hk; [cbn in Hk; by rewrite lookup_empty in Hk|].
    intros s Hs ->. apply Hk1, list_elem_of_fmap. by exists s.
Qed.

Lemma Start_arms_pending_witness :
  armed_for (of_unix 2) demo_sched
    (runner_Start None (of_unix 2) "p" {[("p", "a")%string := sched_columns demo_sched]} NewScheduleRunner).2.
Proof.
  apply (Start_arms_pending (of_unix 2) "p" {[("p", "a")%string := sched_columns demo_sched]}).
  - intros k r. rewrite lookup_singleton_Some. intros [<- <-]. exists demo_sched. done.
  - reflexivity.
  - reflexivity.
  - reflexivity.
Defined.
