(* ===== verification/ScheduleFire.v ===== *)
(** * Firing a scheduled send, and the schedule methods

    [internal/app/schedule_fire.go] and [internal/app/method_schedule.go].
    [Fire] loads the row, runs the safety pipeline, dispatches by kind and
    persists the outcome.  Store, sender and draft calls are separate
    critical sections, so [Fire] and the handlers are also given as threads
    whose sections interleave. *)
From S2P Require Import Prelude GoStd Errors Jid Policy Limiter Message Values Json Idem Ports Dispatch Admin Gate Draft DraftQueue Schedule ScheduleRunner.

#[local] Open Scope Z_scope.

Section Fire.
  Context {D B A W : Type} `{DraftPort D, RateBucket B, AllowlistPort A, Ports W}.
  (** The firer's optional dependencies: [IsContact] and [NewID]. *)
  Variable isContact : option (JID -> bool).
  Variable newID : option string.

(** The schedule store, the draft store ([None] is the nil port), the runner,
    and the dispatcher's world. *)
Record FS := mkFS {
  fs_table : SchedTable; fs_drafts : option D; fs_runner : ScheduleRunner; fs_st : St B A W }.

Definition with_table (s : FS) t := mkFS t (fs_drafts s) (fs_runner s) (fs_st s).
Definition with_drafts (s : FS) d := mkFS (fs_table s) d (fs_runner s) (fs_st s).
Definition with_runner (s : FS) r := mkFS (fs_table s) (fs_drafts s) r (fs_st s).
Definition with_st (s : FS) st := mkFS (fs_table s) (fs_drafts s) (fs_runner s) st.
Definition fs_now (s : FS) : time := clock (st_world (fs_st s)).
Definition fs_do {X} (m : M B A W X) (s : FS) : result X * FS :=
  let '(r, st) := m (fs_st s) in (r, with_st s st).

Definition createDraft (fd : fault) (ss : ScheduledSend) (kind : Z) (s : FS) : check goerr * FS :=
  match fs_drafts s with
  | None => (Err (ENew "schedule fire: drafts port nil"), s)
  | Some drafts =>
    let payload := if kind =? DraftKindSendMedia
      then mkPayload (JID_String (ss_recipient ss)) (ss_body ss) (ss_mediaPath ss)
             "application/octet-stream" (ss_body ss)
      else mkPayload (JID_String (ss_recipient ss)) (ss_body ss) "" "" "" in
    let id := default (ss_id ss) newID in
    match NewDraft id (ss_profile ss) kind (marshal_payload payload) (ss_recipient ss)
            (unix (fs_now s)) with
    | Err e => (Err (wrapc "build draft" e), s)
    | Ok draft =>
      let '(r, drafts) := ds_Put fd draft drafts in
      (match r with Ok _ => Ok tt | Err e => Err (wrapc "persist draft" e) end,
       with_drafts s (Some drafts))
    end
  end.

Definition fire_text (ss : ScheduledSend) : Message :=
  MText (mkText (ss_recipient ss) (ss_body ss) false []).
Definition fire_media (ss : ScheduledSend) : Message :=
  MMedia (mkMedia (ss_recipient ss) (ss_mediaPath ss) "application/octet-stream" (ss_body ss)
            "" "" "" false 0).

Definition fire_send (m : Message) (s : FS) : check goerr * FS :=
  let '(r, s) := fs_do (do_op (OSend m)) s in
  (match r with Ok _ => Ok tt | Err e => Err e end, s).

Definition routed_to_draft (ss : ScheduledSend) : bool :=
  match isContact with Some f => f (ss_recipient ss) | None => false end.

(** From the safety check to the end of the switch: the cause of a failure,
    or nothing. *)
Definition fire_act (fd : fault) (ss : ScheduledSend) (s : FS) : check goerr * FS :=
  let '(r, s) := fs_do (safety_check (ss_recipient ss) ActionSend) s in
  match r with
  | Err e | Ok (Err e) => (Err e, s)
  | Ok (Ok _) =>
    if ss_kind ss =? ScheduleKindCreateDraft then createDraft fd ss DraftKindSend s
    else if ss_kind ss =? ScheduleKindSendText then
      if routed_to_draft ss then createDraft fd ss DraftKindSend s else fire_send (fire_text ss) s
    else if ss_kind ss =? ScheduleKindSendMedia then
      if routed_to_draft ss then createDraft fd ss DraftKindSendMedia s else fire_send (fire_media ss) s
    else (Err (ENew "unsupported kind %s"), s)
  end.

Definition fire_audit (ss : ScheduledSend) (decision detail : string) (s : FS) : FS :=
  (fs_do (do_audit (NewAuditEvent "schedule" AuditSend (ss_recipient ss) decision detail)) s).2.

Definition markFailed (fu : fault) (ss : ScheduledSend) (cause : goerr) (s : FS) : FS :=
  match MarkFailed ss (fs_now s) (Error cause) with
  | Err _ => s
  | Ok failed =>
    let '(_, t) := sched_Update fu failed (fs_table s) in
    fire_audit ss "error" (Error cause) (with_table s t)
  end.

(** The tail of [Fire]: [markFailed], or mark fired, persist and audit. *)
Definition fire_settle (fu : fault) (id : string) (ss : ScheduledSend) (outcome : check goerr)
    (s : FS) : FS :=
  match outcome with
  | Err cause => markFailed fu ss cause s
  | Ok _ =>
    match MarkFired ss (fs_now s) with
    | Err _ => s
    | Ok fired =>
      let '(_, t) := sched_Update fu fired (fs_table s) in
      fire_audit ss "ok" id (with_table s t)
    end
  end.

(** The load, with the test that short-circuits cancels and duplicates. *)
Definition fire_load (fg : fault) (profile id : string) (s : FS) : option ScheduledSend :=
  match sched_Get fg profile id (fs_table s) with
  | Err _ => None
  | Ok ss => if negb (ss_state ss =? SchedulePending) then None else Some ss
  end.

Definition Fire (fg fd fu : fault) (profile id : string) (s : FS) : FS :=
  match fire_load fg profile id s with
  | None => s
  | Some ss => let '(r, s) := fire_act fd ss s in fire_settle fu id ss r s
  end.

(** ** method_schedule.go *)

Definition viewSchedule (s : ScheduledSend) : json :=
  JObj ([("id", JStr (ss_id s)); ("profile", JStr (ss_profile s));
         ("kind", JStr (ScheduleKind_String (ss_kind s)));
         ("recipient", JStr (JID_String (ss_recipient s)))]%string
    ++ omit_str "body" (ss_body s) ++ omit_str "mediaPath" (ss_mediaPath s)
    ++ [("fireAt", JNum (itoa (unix (ss_fireAt s)))); ("createdAt", JNum (itoa (unix (ss_createdAt s))));
        ("updatedAt", JNum (itoa (unix (ss_updatedAt s)))); ("state", JStr (ScheduledState_String (ss_state s)))]%string
    ++ omit_str "lastError" (ss_lastError s)).
Definition schedule_result (s : ScheduledSend) : json := JObj [("schedule"%string, viewSchedule s)].

Definition parseScheduleKind (s : string) : result Z :=
  if ((s =? "") || (s =? "send_text"))%string then Ok ScheduleKindSendText
  else if (s =? "send_media")%string then Ok ScheduleKindSendMedia
  else if (s =? "create_draft")%string then Ok ScheduleKindCreateDraft
  else Err ErrInvalidParams_.
Definition parseScheduleState (s : string) : result Z :=
  if (s =? "")%string then Ok 0
  else if (s =? "pending")%string then Ok SchedulePending
  else if (s =? "fired")%string then Ok ScheduleFired
  else if (s =? "cancelled")%string then Ok ScheduleCancelled
  else if (s =? "failed")%string then Ok ScheduleFailed
  else Err ErrInvalidParams_.

Record scheduleSendParams := mkSchedSend {
  scp_ID : string; scp_Kind : string; scp_To : string; scp_Body : string; scp_MediaPath : string;
  scp_FireAt : Z }.
Definition dec_scheduleSendParams (m : list (string * json)) : option scheduleSendParams :=
  id ← field dec_str "" "id" m;
  kind ← field dec_str "" "kind" m;
  to ← field dec_str "" "to" m;
  body ← field dec_str "" "body" m;
  media ← field dec_str "" "mediaPath" m;
  fireAt ← field dec_int 0 "fireAt" m;
  Some (mkSchedSend id kind to body media fireAt).

(** [freshID] is the value [newScheduleID()] draws. *)
Definition doScheduleSend (profile freshID : string) (fp : fault) (raw : RawMessage) (s : FS)
    : result json * FS :=
  match parseParams dec_scheduleSendParams raw with
  | Err e => (Err e, s)
  | Ok p =>
    if str_empty (scp_To p) || (scp_FireAt p <=? 0) then (Err ErrInvalidParams_, s)
    else
      match Parse (scp_To p), parseScheduleKind (scp_Kind p) with
      | Err _, _ => (Err (ERpc app.ErrInvalidJID), s)
      | Ok _, Err e => (Err e, s)
      | Ok jid, Ok kind =>
        let id := if str_empty (scp_ID p) then freshID else scp_ID p in
        match NewScheduledSend (mkScheduledSpec id profile kind jid (scp_Body p) (scp_MediaPath p)
                (utc (of_unix (scp_FireAt p))) (fs_now s)) with
        | Err e =>
          if is_dom domain.ErrScheduleInPast e then (Err (ERpc app.ErrScheduleInPast), s)
          else if is_dom domain.ErrEmptyBody e then (Err ErrInvalidParams_, s)
          else (Err (wrapc "schedule.send" e), s)
        | Ok ss =>
          let '(r, t) := sched_Put fp ss (fs_table s) in
          match r with
          | Err e => (Err (wrapc "schedule.send" e), with_table s t)
          | Ok _ => let s := with_table s t in
                    (Ok (schedule_result ss), with_runner s (runner_Schedule (fs_now s) ss (fs_runner s)))
          end
        end
      end
  end.

Definition dec_scheduleListParams (m : list (string * json)) : option (string * Z) :=
  state ← field dec_str "pending" "state" m;
  limit ← field dec_int 50 "limit" m;
  Some (state, limit).

Definition handleScheduleList (profile : string) (fl : fault) (raw : RawMessage) (s : FS)
    : result json :=
  let* p := (match raw with None => Ok ("pending"%string, 50)
             | Some _ => parseParams dec_scheduleListParams raw end) in
  let limit := Z.min (if p.2 <=? 0 then 50 else p.2) 200 in
  let* state := parseScheduleState p.1 in
  match sched_List fl profile state limit (fs_table s) with
  | Err e => Err (wrapc "schedule.list" e)
  | Ok rows => Ok (JObj [("schedules"%string, JArr (map viewSchedule rows))])
  end.

(** schedule.cancel: its load, and its decision on the loaded row. *)
Definition cancel_load (profile : string) (fg : fault) (raw : RawMessage) (s : FS)
    : result ScheduledSend :=
  let* id := parseParams (field dec_str "" "id") raw in
  fail_if str_empty id with ErrInvalidParams_ ;;
  match sched_Get fg profile id (fs_table s) with
  | Err e => Err (wrapc "schedule.cancel" e)
  | Ok row => Ok row
  end.
Definition cancel_write (profile : string) (fu : fault) (row : ScheduledSend) (s : FS)
    : result json * FS :=
  if ScheduledState_IsTerminal (ss_state row) then (Ok (schedule_result row), s)
  else
    match MarkCancelled row (fs_now s) with
    | Err e => (Err (wrapc "schedule.cancel" e), s)
    | Ok cancelled =>
      let '(r, t) := sched_Update fu cancelled (fs_table s) in
      match r with
      | Err e => (Err (wrapc "schedule.cancel" e), with_table s t)
      | Ok _ => let s := with_table s t in
                (Ok (schedule_result cancelled),
                 with_runner s (runner_Cancel profile (ss_id row) (fs_runner s)))
      end
    end.
Definition handleScheduleCancel (profile : string) (fg fu : fault) (raw : RawMessage) (s : FS)
    : result json * FS :=
  match cancel_load profile fg raw s with
  | Err e => (Err e, s)
  | Ok row => cancel_write profile fu row s
  end.

(** schedule.update: likewise, with the requested fire time. *)
Definition dec_scheduleUpdateParams (m : list (string * json)) : option (string * Z) :=
  id ← field dec_str "" "id" m;
  fireAt ← field dec_int 0 "fireAt" m;
  Some (id, fireAt).
Definition update_load (profile : string) (fg : fault) (raw : RawMessage) (s : FS)
    : result (ScheduledSend * Z) :=
  let* p := parseParams dec_scheduleUpdateParams raw in
  fail_if str_empty p.1 || (p.2 <=? 0) with ErrInvalidParams_ ;;
  match sched_Get fg profile p.1 (fs_table s) with
  | Err e => Err (wrapc "schedule.update" e)
  | Ok row => Ok (row, p.2)
  end.
Definition update_write (fu : fault) (row : ScheduledSend) (fireAt : Z) (s : FS) : result json * FS :=
  match Reschedule row (utc (of_unix fireAt)) (fs_now s) with
  | Err e =>
    if is_dom domain.ErrScheduleInPast e then (Err (ERpc app.ErrScheduleInPast), s)
    else if is_dom domain.ErrScheduleTerminal e then (Err ErrInvalidParams_, s)
    else (Err (wrapc "schedule.update" e), s)
  | Ok updated =>
    let '(r, t) := sched_Update fu updated (fs_table s) in
    match r with
    | Err e => (Err (wrapc "schedule.update" e), with_table s t)
    | Ok _ => let s := with_table s t in
              (Ok (schedule_result updated),
               with_runner s (runner_Schedule (fs_now s) updated (fs_runner s)))
    end
  end.
Definition handleScheduleUpdate (profile : string) (fg fu : fault) (raw : RawMessage) (s : FS)
    : result json * FS :=
  match update_load profile fg raw s with
  | Err e => (Err e, s)
  | Ok (row, fireAt) => update_write fu row fireAt s
  end.

End Fire.
Arguments FS : clear implicits.

(** ** What a fire can do *)

Section FireFacts.
  Context {D B A W : Type} `{DraftPort D, RateBucket B, AllowlistPort A, Ports W}.
  Variable isContact : option (JID -> bool).
  Variable newID : option string.
  Implicit Types s : FS D B A W.

Abbreviation trace_of s := (st_trace (fs_st s)).
Abbreviation allowlist_of s := (sp_allowlist (st_safety (fs_st s))).

(** The only outbound operation of a fire: the row's own message, to an
    allowlisted recipient, when the row is not routed to a draft. *)
Definition fire_event_ok (al : A) (ss : ScheduledSend) (e : event) : Prop :=
  match e with
  | EvOut o => al_allows al (ss_recipient ss) ActionSend = true
      /\ routed_to_draft isContact ss = false
      /\ ((ss_kind ss = ScheduleKindSendText /\ o = OSend (fire_text ss))
          \/ (ss_kind ss = ScheduleKindSendMedia /\ o = OSend (fire_media ss)))
  | EvAsk _ => False
  | EvAudit a => ae_Subject a = ss_recipient ss
  end.

Lemma createDraft_frame fd ss kind s :
  fs_table (createDraft newID fd ss kind s).2 = fs_table s
  /\ fs_st (createDraft newID fd ss kind s).2 = fs_st s.
Proof.
  unfold createDraft. destruct (fs_drafts s); [|done].
  destruct (NewDraft _ _ _ _ _ _); [|done]. by destruct (ds_Put _ _ _).
Qed.

Lemma fire_send_frame m s :
  fs_table (fire_send m s).2 = fs_table s
  /\ allowlist_of (fire_send m s).2 = allowlist_of s
  /\ trace_of (fire_send m s).2 = trace_of s ++ [EvOut (OSend m)].
Proof. unfold fire_send, fs_do, do_op. destruct (perform _ _) as [r w]. done. Qed.

Lemma safety_frame (j : JID) s :
  let '(r, s') := fs_do (safety_check j ActionSend) s in
  fs_table s' = fs_table s /\ allowlist_of s' = allowlist_of s /\ trace_of s' = trace_of s
  /\ (forall u, r = Ok (Ok u) -> al_allows (allowlist_of s) j ActionSend = true).
Proof.
  unfold fs_do, safety_check.
  destruct (Check_ (clock (st_world (fs_st s))) (st_safety (fs_st s)) j ActionSend) as [c sp] eqn:E.
  cbn. destruct (Check_spec _ _ _ _ _ _ E) as (Hn & _ & Ha & _). rewrite Ha.
  repeat split. intros u [= ->]. destruct (al_allows _ _ _) eqn:Eal; [done|].
  discriminate (proj2 Hn eq_refl).
Qed.

(** The dispatch keeps the table and emits at most the one message. *)
Lemma fire_act_spec fd ss s :
  fs_table (fire_act isContact newID fd ss s).2 = fs_table s
  /\ allowlist_of (fire_act isContact newID fd ss s).2 = allowlist_of s
  /\ exists evs, trace_of (fire_act isContact newID fd ss s).2 = trace_of s ++ evs
     /\ (sends evs <= 1)%nat /\ Forall (fire_event_ok (allowlist_of s) ss) evs.
Proof.
  unfold fire_act. pose proof (safety_frame (ss_recipient ss) s) as Hs.
  destruct (fs_do (safety_check (ss_recipient ss) ActionSend) s) as [r s1].
  destruct Hs as (Ht & Ha & Htr & Hok). rewrite <- Ht, <- Ha, <- Htr.
  assert (Hquiet : forall (c : check goerr * FS D B A W),
    fs_table c.2 = fs_table s1 -> fs_st c.2 = fs_st s1 ->
    fs_table c.2 = fs_table s1 /\ allowlist_of c.2 = allowlist_of s1
    /\ exists evs, trace_of c.2 = trace_of s1 ++ evs
       /\ (sends evs <= 1)%nat /\ Forall (fire_event_ok (allowlist_of s1) ss) evs).
  { intros c Hc1 Hc2. rewrite Hc1, Hc2. repeat split. exists []. rewrite app_nil_r.
    repeat split; [cbn; lia|constructor]. }
  assert (Hdraft : forall kind, let c := createDraft newID fd ss kind s1 in
    fs_table c.2 = fs_table s1 /\ allowlist_of c.2 = allowlist_of s1
    /\ exists evs, trace_of c.2 = trace_of s1 ++ evs
       /\ (sends evs <= 1)%nat /\ Forall (fire_event_ok (allowlist_of s1) ss) evs)
    by (intros kind; apply Hquiet; apply createDraft_frame).
  destruct r as [[u|e]|e]; [|by apply Hquiet..].
  assert (Hsend : forall m, (forall al, al_allows al (ss_recipient ss) ActionSend = true ->
      fire_event_ok al ss (EvOut (OSend m))) ->
    fs_table (fire_send m s1).2 = fs_table s1 /\ allowlist_of (fire_send m s1).2 = allowlist_of s1
    /\ exists evs, trace_of (fire_send m s1).2 = trace_of s1 ++ evs
       /\ (sends evs <= 1)%nat /\ Forall (fire_event_ok (allowlist_of s1) ss) evs).
  { intros m Hm. destruct (fire_send_frame m s1) as (H1' & H2' & H3'). split; [done|]. split; [done|].
    exists [EvOut (OSend m)]. split; [done|]. split; [cbn; lia|].
    constructor; [|constructor]. apply Hm. rewrite Ha. by apply (Hok u). }
  destruct (Z.eqb_spec (ss_kind ss) ScheduleKindCreateDraft); [apply Hdraft|].
  destruct (Z.eqb_spec (ss_kind ss) ScheduleKindSendText).
  { destruct (routed_to_draft isContact ss) eqn:Er; [apply Hdraft|]. apply Hsend. intros al Hal. cbn. auto. }
  destruct (Z.eqb_spec (ss_kind ss) ScheduleKindSendMedia); [|by apply Hquiet].
  destruct (routed_to_draft isContact ss) eqn:Er; [apply Hdraft|]. apply Hsend. intros al Hal. cbn. auto.
Qed.

Lemma fire_audit_frame ss d1 d2 s :
  fs_table (fire_audit ss d1 d2 s) = fs_table s
  /\ allowlist_of (fire_audit ss d1 d2 s) = allowlist_of s
  /\ exists a, trace_of (fire_audit ss d1 d2 s) = trace_of s ++ [EvAudit a]
     /\ ae_Subject a = ss_recipient ss.
Proof.
  unfold fire_audit, fs_do, do_audit. destruct (audit_Record _ _) as [r w]. cbn.
  repeat split. eexists. split; [done|]. done.
Qed.

(** The settlement keeps the allowlist, sends nothing, and writes the row. *)
Lemma fire_settle_spec fu id ss r s :
  allowlist_of (fire_settle fu id ss r s) = allowlist_of s
  /\ exists evs, trace_of (fire_settle fu id ss r s) = trace_of s ++ evs /\ sends evs = 0%nat
     /\ Forall (fire_event_ok (allowlist_of s) ss) evs.
Proof.
  assert (Ha : forall t d1 d2, allowlist_of (fire_audit ss d1 d2 (with_table s t)) = allowlist_of s
    /\ exists evs, trace_of (fire_audit ss d1 d2 (with_table s t)) = trace_of s ++ evs
       /\ sends evs = 0%nat /\ Forall (fire_event_ok (allowlist_of s) ss) evs).
  { intros t d1 d2. destruct (fire_audit_frame ss d1 d2 (with_table s t)) as (_ & H1' & a & H2' & H3').
    split; [done|]. exists [EvAudit a]. rewrite H2'. split; [done|]. split; [done|]. by repeat constructor. }
  assert (Hq : allowlist_of s = allowlist_of s /\ exists evs, trace_of s = trace_of s ++ evs
      /\ sends evs = 0%nat /\ Forall (fire_event_ok (allowlist_of s) ss) evs).
  { split; [done|]. exists []. rewrite app_nil_r. repeat split. constructor. }
  unfold fire_settle, markFailed. destruct r as [u|cause].
  - destruct (MarkFired _ _); [|exact Hq]. destruct (sched_Update _ _ _). apply Ha.
  - destruct (MarkFailed _ _ _); [|exact Hq]. destruct (sched_Update _ _ _). apply Ha.
Qed.

Lemma fire_policy (fg fd fu : fault) (profile id : string) (s : FS D B A W) :
  exists evs, st_trace (fs_st (Fire isContact newID fg fd fu profile id s)) = st_trace (fs_st s) ++ evs
  /\ (sends evs <= 1)%nat
  /\ sp_allowlist (st_safety (fs_st (Fire isContact newID fg fd fu profile id s)))
     = sp_allowlist (st_safety (fs_st s))
  /\ match fire_load fg profile id s with
     | None => evs = []
     | Some ss => ss_state ss = SchedulePending
                  /\ Forall (fire_event_ok (sp_allowlist (st_safety (fs_st s))) ss) evs
     end.
Proof.
  unfold Fire. destruct (fire_load fg profile id s) as [ss|] eqn:El.
  2: { exists []. rewrite app_nil_r. repeat split. cbn. lia. }
  assert (Hp : ss_state ss = SchedulePending).
  { unfold fire_load in El. destruct (sched_Get _ _ _ _); [|done].
    destruct (negb _) eqn:E; [done|]. injection El as <-. by bprop. }
  destruct (fire_act_spec fd ss s) as (_ & Ha & evs & Ht & Hn & Hf).
  destruct (fire_act isContact newID fd ss s) as [r s1]. cbn [snd] in *.
  destruct (fire_settle_spec fu id ss r s1) as (Ha2 & evs2 & Ht2 & Hn2 & Hf2).
  exists (evs ++ evs2). rewrite Ht2, Ht, app_assoc. split; [done|].
  rewrite sends_app, Hn2. split; [lia|]. split; [by rewrite Ha2|]. split; [done|].
  apply Forall_app. rewrite <- Ha at 2. done.
Qed.

(** C12. A scheduled send crosses the same policy as a direct one: whatever the
    faults, a fire emits at most one message; it is the message of the loaded
    pending row, that row's recipient holds the send permission in the
    allowlist in force, the row is not one routed to human review, and no
    other outbound operation or upstream query is made. *)
Theorem fire_respects_policy (fg fd fu : fault) (profile id : string) (s : FS D B A W) :
  exists evs, st_trace (fs_st (Fire isContact newID fg fd fu profile id s)) = st_trace (fs_st s) ++ evs
  /\ (sends evs <= 1)%nat
  /\ sp_allowlist (st_safety (fs_st (Fire isContact newID fg fd fu profile id s)))
     = sp_allowlist (st_safety (fs_st s))
  /\ match fire_load fg profile id s with
     | None => evs = []
     | Some ss => ss_state ss = SchedulePending
                  /\ Forall (fire_event_ok (sp_allowlist (st_safety (fs_st s))) ss) evs
     end.
Proof. apply fire_policy. Qed.

(** *** Settling *)

Lemma MarkFired_pending ss t : ss_state ss = SchedulePending ->
  MarkFired ss t = Ok (ss_set ss (ss_fireAt ss) ScheduleFired t (ss_lastError ss)).
Proof. intros H'. unfold MarkFired. by rewrite H'. Qed.

Lemma sched_wf_set ss f st u e : sched_wf ss -> ScheduledState_IsValid st = true ->
  sched_wf (ss_set ss f st u e).
Proof. intros (? & ? & ? & ? & _) Hs. repeat split; done. Qed.

(** With a working store the row a fire loaded is terminal afterwards. *)
Lemma fire_settle_table id ss r s : sched_inv (fs_table s) -> sched_wf ss ->
  ss_state ss = SchedulePending -> fs_table s !! sched_key ss = Some (sched_columns ss) ->
  exists ss', fs_table (fire_settle None id ss r s) = <[sched_key ss := sched_columns ss']> (fs_table s)
  /\ sched_wf ss' /\ sched_key ss' = sched_key ss /\ ScheduledState_IsTerminal (ss_state ss') = true
  /\ ss_createdAt ss' = ss_createdAt ss /\ (is_ok r = true -> ss_state ss' = ScheduleFired).
Proof.
  intros Hi Hw Hp Ht.
  assert (Hup : forall f st u e d1 d2, ScheduledState_IsTerminal st = true -> ScheduledState_IsValid st = true ->
    exists ss', fs_table (let '(_, t) := sched_Update None (ss_set ss f st u e) (fs_table s) in
                          fire_audit ss d1 d2 (with_table s t))
      = <[sched_key ss := sched_columns ss']> (fs_table s)
    /\ sched_wf ss' /\ sched_key ss' = sched_key ss /\ ScheduledState_IsTerminal (ss_state ss') = true
    /\ ss_createdAt ss' = ss_createdAt ss /\ ss_state ss' = st).
  { intros f st u e d1 d2 Hst Hv. rewrite (sched_Update_ok _ _ ss Hi); [|by apply sched_wf_set|done|done|done].
    destruct (fire_audit_frame ss d1 d2 (with_table s (<[sched_key (ss_set ss f st u e) :=
      sched_columns (ss_set ss f st u e)]> (fs_table s)))) as (-> & _).
    exists (ss_set ss f st u e). split; [done|]. split; [by apply sched_wf_set|done]. }
  unfold fire_settle, markFailed. destruct r as [u|cause].
  - rewrite MarkFired_pending by done. destruct (Hup (ss_fireAt ss) ScheduleFired (fs_now s)
      (ss_lastError ss) "ok"%string id) as (ss' & Ht' & Hw' & Hk' & Hx' & Hc' & Hs'); [done|done|].
    exists ss'. done.
  - unfold MarkFailed. rewrite Hp. cbn [ScheduledState_IsTerminal guard].
    destruct (Hup (ss_fireAt ss) ScheduleFailed (utc (fs_now s))
      (if str_empty (Error cause) then "unspecified" else Error cause)%string "error"%string (Error cause))
      as (ss' & Ht' & Hw' & Hk' & Hx' & Hc' & Hs'); [done|done|].
    exists ss'. split; [done|]. split; [done|]. split; [done|]. split; [done|]. done.
Qed.

Lemma Fire_settled fd profile id s : sched_inv (fs_table s) ->
  sched_inv (fs_table (Fire isContact newID None fd None profile id s))
  /\ forall fg, fire_load fg profile id (Fire isContact newID None fd None profile id s) = None.
Proof.
  intros Hi. unfold Fire. destruct (fire_load None profile id s) as [ss|] eqn:El.
  - unfold fire_load in El. destruct (sched_Get None profile id (fs_table s)) as [ss0|] eqn:Eg; [|done].
    destruct (negb _) eqn:Ep; [done|]. injection El as ->. bprop.
    apply sched_Get_ok in Eg as (Hw & Hk & Ht & _); [|done]. rewrite <- Hk in Ht.
    destruct (fire_act_spec fd ss s) as (Htab & _).
    destruct (fire_act isContact newID fd ss s) as [r s1]. cbn [snd] in *.
    rewrite <- Htab in Hi, Ht.
    destruct (fire_settle_table id ss r s1 Hi Hw Ep Ht) as (ss' & He & Hw' & Hk' & Hterm & _).
    rewrite <- Hk' in He. split; [rewrite He; by apply sched_inv_insert|].
    intros fg. unfold fire_load, sched_Get. destruct (fails_at fg SQuery); [done|].
    rewrite He, <- Hk, <- Hk', lookup_insert_eq, sched_scan_columns by done. cbn.
    destruct (Z.eqb_spec (ss_state ss') SchedulePending) as [E|]; [|done]. by rewrite E in Hterm.
  - split; [done|]. intros fg. unfold fire_load, sched_Get in *. cbn [fails_at] in El.
    by destruct (fails_at fg SQuery).
Qed.

(** *** The races the store does not close *)

Lemma fire_load_ok profile id s ss : sched_inv (fs_table s) ->
  fire_load None profile id s = Some ss ->
  ss_state ss = SchedulePending /\ sched_wf ss /\ sched_key ss = (profile, id)
  /\ fs_table s !! sched_key ss = Some (sched_columns ss).
Proof.
  intros Hi. unfold fire_load. destruct (sched_Get None profile id (fs_table s)) as [ss0|] eqn:Eg; [|done].
  destruct (negb _) eqn:Ep; [done|]. intros [= ->]. bprop.
  apply sched_Get_ok in Eg as (Hw & Hk & Ht & _); [|done]. by rewrite Hk.
Qed.

Lemma fire_load_stored profile id s ss t : sched_wf ss -> sched_key ss = (profile, id) ->
  fs_table s = <[sched_key ss := sched_columns ss]> t -> ss_state ss = SchedulePending ->
  fire_load None profile id s = Some (stored ss).
Proof.
  intros Hw Hk Ht Hp. unfold fire_load. rewrite Ht. injection Hk as <- <-.
  rewrite sched_Get_stored by done. cbn. by rewrite Hp.
Qed.

(** schedule.update can resurrect a fired row: a request that loaded the
    row while it was pending, and writes after a fire of the same row has
    settled it, succeeds; the store, whose UPDATE does not look at the state,
    is back to pending with the same recipient and text, so the next fire
    runs the send pipeline on it again. *)
Theorem update_race_resurrects (fd : fault) (profile id : string) (s : FS D B A W)
    (row : ScheduledSend) (fireAt : Z) :
  sched_inv (fs_table s) -> fire_load None profile id s = Some row ->
  let s1 := Fire isContact newID None fd None profile id s in
  after (of_unix fireAt) (fs_now s1) = true ->
  fire_load None profile id s1 = None
  /\ exists j s2 row2, update_write None row fireAt s1 = (Ok j, s2)
     /\ fire_load None profile id s2 = Some row2
     /\ ss_recipient row2 = ss_recipient row /\ ss_body row2 = ss_body row /\ ss_kind row2 = ss_kind row.
Proof.
  intros Hi Hl. cbn zeta. intros Hfut.
  destruct (Fire_settled fd profile id s Hi) as [Hi1 Hnone]. split; [apply Hnone|].
  assert (Hrow : exists ss', fs_table (Fire isContact newID None fd None profile id s)
      !! sched_key row = Some (sched_columns ss')
    /\ sched_key ss' = sched_key row /\ ss_createdAt ss' = ss_createdAt row).
  { unfold Fire. rewrite Hl. destruct (fire_load_ok _ _ _ _ Hi Hl) as (Hp & Hw & Hk & Ht).
    destruct (fire_act_spec fd row s) as (Htab & _).
    destruct (fire_act isContact newID fd row s) as [r s1]. cbn [snd] in *. rewrite <- Htab in Hi, Ht.
    destruct (fire_settle_table id row r s1 Hi Hw Hp Ht) as (ss' & -> & _ & Hk' & _ & Hc & _).
    exists ss'. by rewrite lookup_insert_eq. }
  destruct (fire_load_ok _ _ _ _ Hi Hl) as (Hp & Hw & Hk & _).
  destruct Hrow as (ss' & Ht1 & Hk' & Hc).
  set (s1 := Fire isContact newID None fd None profile id s) in *.
  set (upd := ss_set row (of_unix fireAt) SchedulePending (fs_now s1) (ss_lastError row)).
  assert (Hwu : sched_wf upd) by by apply sched_wf_set.
  unfold update_write, Reschedule, utc. rewrite Hp, Hfut.
  change (ScheduledState_IsTerminal SchedulePending) with false. cbn [guard negb].
  change (ss_set row _ _ _ _) with upd.
  rewrite (sched_Update_ok _ upd ss' Hi1 Hwu Ht1); [|done|done].
  eexists _, _, (stored upd). split; [done|]. split; [|done].
  eapply (fire_load_stored profile id _ upd); [done|exact Hk|done|done].
Qed.

(** schedule.cancel can be acknowledged and overwritten: a fire that loaded
    the row before the cancel still runs its dispatch, and a send that
    succeeds turns the cancelled row into a fired one. *)
Lemma cancelled_send_still_fires (fd : fault) (profile id : string) (s : FS D B A W)
    (ss : ScheduledSend) :
  sched_inv (fs_table s) -> fire_load None profile id s = Some ss ->
  exists j s1, cancel_write profile None ss s = (Ok j, s1)
  /\ fire_load None profile id s1 = None
  /\ let '(r, s2) := fire_act isContact newID fd ss s1 in
     is_ok r = true -> exists ss', sched_Get None profile id (fs_table (fire_settle None id ss r s2)) = Ok ss'
                       /\ ss_state ss' = ScheduleFired.
Proof.
  intros Hi Hl. destruct (fire_load_ok _ _ _ _ Hi Hl) as (Hp & Hw & Hk & Ht).
  set (can := ss_set ss (ss_fireAt ss) ScheduleCancelled (fs_now s) (ss_lastError ss)).
  assert (Hwc : sched_wf can) by by apply sched_wf_set.
  unfold cancel_write, MarkCancelled. rewrite Hp.
  change (ScheduledState_IsTerminal SchedulePending) with false. cbn [guard].
  change (ss_set ss _ _ _ _) with can.
  rewrite (sched_Update_ok _ can ss Hi Hwc Ht); [|done|done].
  set (s1 := with_runner _ _). exists (schedule_result can), s1. split; [done|].
  assert (Htab1 : fs_table s1 = <[sched_key can := sched_columns can]> (fs_table s)) by done.
  assert (Hi1 : sched_inv (fs_table s1)) by (rewrite Htab1; by apply sched_inv_insert).
  split.
  { unfold fire_load. rewrite Htab1. change (sched_key can) with (sched_key ss) in *.
    injection Hk as <- <-. pose proof (sched_Get_stored (fs_table s) can Hwc) as Hg.
    change (ss_profile can) with (ss_profile ss) in Hg. change (ss_id can) with (ss_id ss) in Hg.
    change (sched_key can) with (sched_key ss) in Hg. by rewrite Hg. }
  destruct (fire_act_spec fd ss s1) as (Htab & _).
  destruct (fire_act isContact newID fd ss s1) as [r s2]. cbn [snd] in *. intros Hr.
  set (fired := ss_set ss (ss_fireAt ss) ScheduleFired (fs_now s2) (ss_lastError ss)).
  assert (Hwf : sched_wf fired) by by apply sched_wf_set.
  assert (Hup : sched_Update None fired (fs_table s2)
                = (Ok tt, <[sched_key fired := sched_columns fired]> (fs_table s2))).
  { apply (sched_Update_ok _ fired can); [by rewrite Htab|done| |done|done].
    rewrite Htab, Htab1. apply (lookup_insert_eq (fs_table s) (sched_key can)). }
  destruct r as [u|]; [|done]. unfold fire_settle. rewrite MarkFired_pending by done.
  fold fired. rewrite Hup. set (s3 := with_table s2 _).
  destruct (fire_audit_frame ss "ok" id s3) as (-> & _). exists (stored fired).
  injection Hk as <- <-. split; [|done]. apply (sched_Get_stored (fs_table s2) fired Hwf).
Qed.

End FireFacts.

(** ** Whole runs of the subsystem *)

Section Runs.
  Context {D B A W : Type} `{DraftPort D, RateBucket B, AllowlistPort A, Ports W}.
  Variable isContact : option (JID -> bool).
  Implicit Types s : FS D B A W.

(** What timers and clients do to the schedules.  A cancel is two critical
    sections, the load and the write of what was loaded, so it may overlap
    anything; a fire and an update are run whole. *)
Inductive sched_op :=
  | SoFire (newID : option string) (fg fd fu : fault) (profile id : string)
  | SoSend (profile freshID : string) (fp : fault) (raw : RawMessage)
  | SoCancelLoad (profile : string) (fg : fault) (raw : RawMessage)
  | SoCancelWrite (profile : string) (fu : fault) (n : nat)
  | SoUpdate (profile : string) (fg fu : fault) (raw : RawMessage).

(** The subsystem, and the rows the cancels under way have loaded. *)
Definition Subsystem : Type := FS D B A W * list ScheduledSend.

Definition sched_do (x : Subsystem) (o : sched_op) : Subsystem :=
  let '(s, held) := x in
  match o with
  | SoFire newID fg fd fu profile id => (Fire isContact newID fg fd fu profile id s, held)
  | SoSend profile freshID fp raw => ((doScheduleSend profile freshID fp raw s).2, held)
  | SoCancelLoad profile fg raw =>
    (s, match cancel_load profile fg raw s with Ok row => held ++ [row] | Err _ => held end)
  | SoCancelWrite profile fu n =>
    (match held !! n with Some row => (cancel_write profile fu row s).2 | None => s end, held)
  | SoUpdate profile fg fu raw => ((handleScheduleUpdate profile fg fu raw s).2, held)
  end.
Definition sched_run : Subsystem -> list sched_op -> Subsystem := foldl sched_do.

(** The messages the fires of one schedule send along a run. *)
Fixpoint sent_for (profile id : string) (x : Subsystem) (l : list sched_op) : nat :=
  match l with
  | [] => 0
  | o :: l =>
    (match o with
     | SoFire _ _ _ _ p i => if decide ((p, i) = (profile, id))
       then sends (st_trace (fs_st (sched_do x o).1)) - sends (st_trace (fs_st x.1)) else 0
     | _ => 0
     end + sent_for profile id (sched_do x o) l)%nat
  end.

(** The statement that records the outcome of this schedule's fires works. *)
Definition outcome_saved (profile id : string) (o : sched_op) : Prop :=
  match o with SoFire _ _ _ fu p i => (p, i) = (profile, id) -> fu = None | _ => True end.

Definition run_inv (x : Subsystem) : Prop := sched_inv (fs_table x.1) /\ Forall sched_wf x.2.

Lemma Get_wf fg profile id t ss : sched_inv t -> sched_Get fg profile id t = Ok ss ->
  sched_wf ss /\ sched_key ss = (profile, id) /\ t !! sched_key ss = Some (sched_columns ss).
Proof.
  intros Hi Hg. assert (Hg' : sched_Get None profile id t = Ok ss).
  { unfold sched_Get in *. by destruct (fails_at fg SQuery). }
  apply sched_Get_ok in Hg' as (Hw & Hk & Ht & _); [|done]. by rewrite Hk.
Qed.

Lemma cancel_load_wf profile fg raw s row : sched_inv (fs_table s) ->
  cancel_load profile fg raw s = Ok row -> sched_wf row.
Proof.
  intros Hi. unfold cancel_load. destruct (parseParams _ _) as [id|]; [|done]. cbn.
  destruct (str_empty id); [done|]. cbn.
  destruct (sched_Get _ _ _ _) as [ss|] eqn:Eg; [|done]. intros [= ->]. by eapply Get_wf.
Qed.

(** How a table evolves: the invariant stays, and a settled row stays. *)
Definition table_step (t t' : SchedTable) : Prop :=
  sched_inv t -> sched_inv t' /\ forall k, settled_row k t -> settled_row k t'.

Lemma table_step_refl t : table_step t t.
Proof. by intros Hi. Qed.

Lemma cancel_write_step profile fu row s : sched_wf row ->
  table_step (fs_table s) (fs_table (cancel_write profile fu row s).2).
Proof.
  intros Hw. unfold cancel_write. destruct (ScheduledState_IsTerminal _); [apply table_step_refl|].
  destruct (MarkCancelled row _) as [c|] eqn:Ec; [|apply table_step_refl].
  unfold MarkCancelled in Ec. peel Ec. injection Ec as <-.
  assert (Hwc : sched_wf (ss_set row (ss_fireAt row) ScheduleCancelled (utc (fs_now s)) (ss_lastError row)))
    by by apply sched_wf_set.
  intros Hi. destruct (sched_Update_step fu _ _ Hi Hwc (or_introl eq_refl)) as [H1' H2'].
  destruct (sched_Update fu _ _) as [[[]|] t]; done.
Qed.

Lemma update_write_step fu row fireAt s : sched_wf row ->
  fs_table s !! sched_key row = Some (sched_columns row) ->
  table_step (fs_table s) (fs_table (update_write fu row fireAt s).2).
Proof.
  intros Hw Ht. unfold update_write. destruct (Reschedule _ _ _) as [u|e] eqn:Ec.
  2: { destruct (is_dom _ _); [|destruct (is_dom _ _)]; apply table_step_refl. }
  unfold Reschedule in Ec. peel Ec. injection Ec as <-. bprop. intros Hi.
  assert (Hwu : sched_wf (ss_set row (utc (of_unix fireAt)) (ss_state row) (utc (fs_now s)) (ss_lastError row))).
  { apply sched_wf_set; [done|]. apply Hw. }
  destruct (sched_Update_step fu _ _ Hi Hwu) as [H1' H2'].
  { right. intros (r & Hr & Hx). change (sched_key (ss_set _ _ _ _ _)) with (sched_key row) in Hr.
    rewrite Ht in Hr. injection Hr as <-. cbn in Hx. congruence. }
  destruct (sched_Update fu _ _) as [[[]|] t]; done.
Qed.

Lemma doScheduleSend_step profile freshID fp raw s :
  table_step (fs_table s) (fs_table (doScheduleSend profile freshID fp raw s).2).
Proof.
  unfold doScheduleSend. destruct (parseParams _ _) as [p|]; [|apply table_step_refl].
  destruct (_ || _); [apply table_step_refl|].
  destruct (Parse (scp_To p)) as [jid|] eqn:Ej; [|apply table_step_refl].
  destruct (parseScheduleKind _) as [kind|]; [|apply table_step_refl].
  destruct (NewScheduledSend _) as [ss|e] eqn:En.
  2: { destruct (is_dom _ _); [|destruct (is_dom _ _)]; apply table_step_refl. }
  apply NewScheduledSend_wf in En as (Hw & _); [|by eapply Parse_wf]. intros Hi.
  destruct (sched_Put_step fp _ _ Hi Hw) as [H1' H2'].
  destruct (sched_Put fp ss _) as [[[]|] t]; done.
Qed.

Lemma fire_settle_step fu id ss r s : sched_wf ss ->
  table_step (fs_table s) (fs_table (fire_settle fu id ss r s)).
Proof.
  intros Hw Hi. unfold fire_settle, markFailed. destruct r as [u|cause].
  - destruct (MarkFired ss _) as [x|] eqn:Ex; [|by apply table_step_refl].
    unfold MarkFired in Ex. peel Ex. injection Ex as <-.
    destruct (sched_Update_step fu (ss_set ss (ss_fireAt ss) ScheduleFired (utc (fs_now s)) (ss_lastError ss))
      _ Hi) as [H1' H2']; [by apply sched_wf_set|by left|].
    destruct (sched_Update fu _ _) as [q t]. rewrite (proj1 (fire_audit_frame _ _ _ _)). done.
  - destruct (MarkFailed ss _ _) as [x|] eqn:Ex; [|by apply table_step_refl].
    unfold MarkFailed in Ex. peel Ex. injection Ex as <-.
    destruct (sched_Update_step fu (ss_set ss (ss_fireAt ss) ScheduleFailed (utc (fs_now s))
      (if str_empty (Error cause) then "unspecified" else Error cause)%string) _ Hi)
      as [H1' H2']; [by apply sched_wf_set|by left|].
    destruct (sched_Update fu _ _) as [q t]. rewrite (proj1 (fire_audit_frame _ _ _ _)). done.
Qed.

Lemma Fire_step newID fg fd fu profile id s :
  table_step (fs_table s) (fs_table (Fire isContact newID fg fd fu profile id s)).
Proof.
  intros Hi. unfold Fire, fire_load. destruct (sched_Get fg profile id _) as [ss|] eqn:Eg;
    [|by apply table_step_refl].
  destruct (negb _); [by apply table_step_refl|].
  destruct (Get_wf _ _ _ _ _ Hi Eg) as (Hw & _).
  destruct (fire_act_spec isContact newID fd ss s) as (Htab & _).
  destruct (fire_act isContact newID fd ss s) as [r s1]. cbn [snd] in Htab.
  rewrite <- Htab in *. by apply fire_settle_step.
Qed.

Lemma sched_do_step x o : run_inv x -> run_inv (sched_do x o)
  /\ forall k, settled_row k (fs_table x.1) -> settled_row k (fs_table (sched_do x o).1).
Proof.
  destruct x as [s held]. intros [Hi Hh]. cbn in Hi, Hh. unfold run_inv. destruct o; cbn.
  - destruct (Fire_step newID fg fd fu profile id s Hi). done.
  - destruct (doScheduleSend_step profile freshID fp raw s Hi). done.
  - split; [|done]. split; [done|]. destruct (cancel_load _ _ _ _) eqn:E; [|done].
    apply Forall_app; split; [done|]. constructor; [|constructor]. by eapply cancel_load_wf.
  - destruct (held !! n) as [row|] eqn:E; [|done]. rewrite Forall_lookup in Hh.
    destruct (cancel_write_step profile fu row s (Hh _ _ E) Hi). split; [|done].
    split; [done|]. by rewrite Forall_lookup.
  - unfold handleScheduleUpdate, update_load. destruct (parseParams _ _) as [p|]; [|done]. cbn.
    destruct (_ || _); [done|]. cbn. destruct (sched_Get _ _ _ _) as [ss|] eqn:Eg; [|done].
    destruct (Get_wf _ _ _ _ _ Hi Eg) as (Hw & _ & Ht).
    destruct (update_write_step fu ss p.2 s Hw Ht Hi). done.
Qed.

(** A fire of a settled row does nothing at all. *)
Lemma settled_fire newID fg fd fu profile id s : sched_inv (fs_table s) ->
  settled_row (profile, id) (fs_table s) -> Fire isContact newID fg fd fu profile id s = s.
Proof.
  intros Hi (r & Hr & Ht). unfold Fire, fire_load. destruct (sched_Get fg profile id _) as [ss|] eqn:Eg; [|done].
  destruct (Get_wf _ _ _ _ _ Hi Eg) as (_ & Hk & Hc). rewrite Hk, Hr in Hc. injection Hc as ->.
  cbn in Ht. destruct (Z.eqb_spec (ss_state ss) SchedulePending) as [E|]; [|done]. by rewrite E in Ht.
Qed.

Lemma settled_sends_nothing profile id x l : run_inv x -> settled_row (profile, id) (fs_table x.1) ->
  sent_for profile id x l = 0%nat.
Proof.
  revert x. induction l as [|o l IH]; intros x Hi Hs; [done|]. cbn [sent_for].
  destruct (sched_do_step x o Hi) as [Hi' Hs']. rewrite IH by auto. rewrite Nat.add_0_r.
  destruct o; try done. destruct (decide _) as [[= -> ->]|]; [|done].
  destruct x as [s held]. cbn. rewrite (settled_fire newID fg fd fu profile id s (proj1 Hi) Hs).
  apply Nat.sub_diag.
Qed.

(** A fire whose outcome is saved settles the row it loaded. *)
Lemma Fire_settles newID fg fd profile id s : sched_inv (fs_table s) ->
  Fire isContact newID fg fd None profile id s = s
  \/ settled_row (profile, id) (fs_table (Fire isContact newID fg fd None profile id s)).
Proof.
  intros Hi. unfold Fire, fire_load. destruct (sched_Get fg profile id _) as [ss|] eqn:Eg; [|by left].
  destruct (negb _) eqn:Ep; [by left|]. bprop.
  destruct (Get_wf _ _ _ _ _ Hi Eg) as (Hw & Hk & Ht).
  destruct (fire_act_spec isContact newID fd ss s) as (Htab & _).
  destruct (fire_act isContact newID fd ss s) as [r s1]. cbn [snd] in Htab. rewrite <- Htab in *. right.
  destruct (fire_settle_table id ss r s1 Hi Hw Ep Ht) as (ss' & -> & _ & _ & Hterm & _).
  exists (sched_columns ss'). by rewrite <- Hk, lookup_insert_eq.
Qed.

(** C13. One schedule yields at most one message, over any sequence of fires of
    any rows with any faults (the timer firing again, several timers), new
    schedule.send requests (the same id included), schedule.update requests,
    and schedule.cancel requests in two sections that may overlap all of
    these, provided the UPDATE that records the outcome of this schedule's own
    fires succeeds.  Fires of one row do not overlap each other, nor an update
    of it: [update_race_resurrects] shows what happens then. *)
Theorem fires_send_once (profile id : string) (s : FS D B A W) (l : list sched_op) :
  sched_inv (fs_table s) -> Forall (outcome_saved profile id) l ->
  (sent_for profile id (s, []) l <= 1)%nat.
Proof.
  intros Hi Hl. assert (Hx : run_inv (s, [])) by (split; [done|constructor]).
  revert Hx. generalize (s, @nil ScheduledSend). clear s Hi.
  induction Hl as [|o l Ho Hl IH]; intros x Hx; [cbn; lia|]. cbn [sent_for].
  destruct (sched_do_step x o Hx) as [Hx' _]. specialize (IH _ Hx').
  destruct o; try (exact IH). destruct (decide _) as [E|]; [|exact IH].
  specialize (Ho E). injection E as -> ->. subst fu. destruct x as [s held].
  cbn [sched_do fst] in *. destruct (Fire_settles newID fg fd profile id s (proj1 Hx)) as [E|Hs].
  - rewrite E in *. lia.
  - rewrite settled_sends_nothing by done.
    destruct (fire_policy isContact newID fg fd None profile id s) as (evs & -> & Hn & _).
    rewrite sends_app. lia.
Qed.

End Runs.

(** ** Witnesses *)

#[local] Existing Instance demo_range.

Definition demo_row : ScheduledSend :=
  mkScheduled "sch-1" "default" ScheduleKindSendText demo_user "bom dia" "" (of_unix 9000)
    (of_unix 8000) SchedulePending (of_unix 8000) "".
Definition demo_fs : FS DraftStore tokens Allowlist Z :=
  mkFS {[("default", "sch-1")%string := sched_columns demo_row]} (Some NewDraftStore) NewScheduleRunner
    (mkSt (mkSafety demo_allow (NewRateLimiterAt 0 (30 * 24 * hour))) (of_unix 9000) []).

Lemma demo_fs_inv : sched_inv (fs_table demo_fs).
Proof.
  intros k r. cbn. rewrite lookup_singleton_Some. intros [<- <-]. by exists demo_row.
Qed.

(** Sent, cancelled by a request that loaded it before, moved by an update,
    fired twice and scheduled again under its id: one message leaves. *)
Definition demo_run : list sched_op :=
  let of_id := Some (JObj [("id", JStr "sch-1"); ("fireAt", JNum "20000"); ("to", JStr "5511999990000");
                           ("body", JStr "oi")])%string in
  [SoCancelLoad "default" None of_id; SoFire None None None None "default" "sch-1";
   SoUpdate "default" None None of_id; SoFire None None None None "default" "sch-1";
   SoCancelWrite "default" None 0; SoSend "default" "x" None of_id;
   SoFire None None None None "default" "sch-1"].

Lemma fires_send_once_witness :
  sent_for None "default" "sch-1" (demo_fs, []) demo_run = 1%nat
  /\ (sent_for None "default" "sch-1" (demo_fs, []) demo_run <= 1)%nat.
Proof.
  split; [vm_compute; reflexivity|].
  apply (fires_send_once None "default" "sch-1" demo_fs demo_run demo_fs_inv).
  unfold demo_run. repeat constructor.
Defined.

(** The whole race: two messages leave for one schedule. *)
Lemma update_race_resurrects_witness :
  exists j s2, update_write None demo_row 20000
      (Fire None None None None None "default" "sch-1" demo_fs) = (Ok j, s2)
    /\ is_Some (fire_load None "default" "sch-1" s2)
    /\ sends (st_trace (fs_st (Fire None None None None None "default" "sch-1" s2))) = 2%nat.
Proof.
  destruct (update_race_resurrects None None None "default" "sch-1" demo_fs demo_row 20000 demo_fs_inv)
    as [_ (j & s2 & row2 & Hw & Hl & _)]; [vm_compute; reflexivity|vm_compute; reflexivity|].
  exists j, s2. split; [exact Hw|]. split; [rewrite Hl; by eexists|].
  assert (Hs : s2 = (update_write None demo_row 20000
    (Fire None None None None None "default" "sch-1" demo_fs)).2) by (rewrite Hw; reflexivity).
  rewrite Hs. vm_compute. reflexivity.
Defined.
