(* ===== verification/Chain.v ===== *)
(** * The tamper-evident audit file

    [internal/adapters/secondary/slogaudit/chain.go] and [audit.go]: every
    JSON line slog writes is stamped with the HMAC of the previous stamp and
    its own bytes; [VerifyChain] walks the file; [tailLastHMAC] resumes the
    chain after a restart.  The file is its bytes.  HMAC-SHA-256 and the line
    [slog.JSONHandler] renders are parameters. *)
From S2P Require Import Prelude GoStd Errors Jid Policy Values.

#[local] Open Scope Z_scope.

Definition dq : string := String (chr 34) "".
Definition nl : ascii := chr 10.
Definition nl_str : string := String nl "".

(** The text around the prev and hmac members. *)
Definition prevTag : string := ("," +:+ dq +:+ "prev" +:+ dq +:+ ":" +:+ dq)%string.
Definition hmacSep : string := (dq +:+ "," +:+ dq +:+ "hmac" +:+ dq +:+ ":" +:+ dq)%string.

Section Chain.
  (** [hmac.New(sha256.New, key)] over a message, as raw bytes. *)
  Variable mac : string -> string -> string.

Record hmacChainWriter := mkChain { ch_file : string; ch_key : string; ch_last : string }.

Definition chain_sum (key prev body : string) : string := hex_encode (mac key (prev +:+ body)).

(** The bytes [Write] puts out for one record, after the closing brace. *)
Definition stamp (key last body : string) : string :=
  (body +:+ prevTag +:+ last +:+ hmacSep +:+ chain_sum key last body +:+ dq +:+ "}")%string.

(** [f.Write]: a failed write may have put out a prefix. *)
Definition file_write (fail : option (nat * goerr)) (file out : string) : string * option goerr :=
  match fail with
  | None => ((file +:+ out)%string, None)
  | Some (n, e) => ((file +:+ str_take n out)%string, Some e)
  end.

Definition chain_Write (fail : option (nat * goerr)) (p : string) (w : hmacChainWriter)
    : check goerr * hmacChainWriter :=
  let trimmed := trim_right_byte nl p in
  if negb (has_suffix trimmed "}") then
    let '(file, err) := file_write fail (ch_file w) p in
    (match err with Some e => Err e | None => Ok tt end, mkChain file (ch_key w) (ch_last w))
  else
    let body := str_take (String.length trimmed - 1) trimmed in
    let '(file, err) := file_write fail (ch_file w) (stamp (ch_key w) (ch_last w) body +:+ nl_str)%string in
    match err with
    | Some e => (Err e, mkChain file (ch_key w) (ch_last w))
    | None => (Ok tt, mkChain file (ch_key w) (chain_sum (ch_key w) (ch_last w) body))
    end.

Definition parsePrevHmacTail (tail : string) : result (string * string) :=
  fail_if negb (has_prefix prevTag tail) with ENew "malformed: missing prev prefix" ;;
  let rest := str_drop (String.length prevTag) tail in
  match str_index hmacSep rest with
  | None => Err (ENew "malformed: missing hmac separator")
  | Some i =>
    let prev := str_take i rest in
    let rest := str_drop (i + String.length hmacSep) rest in
    fail_if negb (has_suffix rest dq) with ENew "malformed: missing trailing quote" ;;
    Ok (prev, str_take (String.length rest - 1) rest)
  end.

(** [bufio.Scanner] with [ScanLines]: the last line needs no newline, a
    trailing CR is dropped. *)
Definition drop_cr (s : string) : string :=
  if has_suffix s (String (chr 13) "") then str_take (String.length s - 1) s else s.
Definition scan_lines (file : string) : list string :=
  let l := split_byte nl file in
  map drop_cr (match reverse l with "" :: r => reverse r | _ => l end)%string.
Definition maxLine : Z := 1024 * 1024.

(** The loop of [VerifyChain]. *)
Fixpoint verify_lines (key : string) (lines : list string) (prev : string) (verified : Z)
    : Z * check goerr :=
  match lines with
  | [] => (verified, Ok tt)
  | line :: lines =>
    if maxLine <=? len line then (verified, Err (ENew "slogaudit verify: scan %s: token too long"))
    else if str_empty line then verify_lines key lines prev verified
    else
      match str_last_index prevTag line with
      | None => verify_lines key lines "" verified
      | Some idx =>
        let body := str_take idx line in
        let tail := str_take (String.length line - 1 - idx) (str_drop idx line) in
        match parsePrevHmacTail tail with
        | Err e => (verified, Err (wrapc "slogaudit verify: line %d" e))
        | Ok (recordedPrev, recordedHMAC) =>
          if negb (recordedPrev =? prev)%string
          then (verified, Err (ENew "slogaudit verify: line %d: prev mismatch (have %q, recorded %q)"))
          else if negb (chain_sum key prev body =? recordedHMAC)%string
          then (verified, Err (ENew "slogaudit verify: line %d: hmac mismatch"))
          else verify_lines key lines recordedHMAC (verified + 1)
        end
      end
  end.

Definition VerifyChain (file key : string) : Z * check goerr :=
  verify_lines key (scan_lines file) "" 0.

(** ** audit.go *)

Definition tailBytes : nat := Z.to_nat 8192.
Definition readTail (file : string) : string * nat :=
  let from := (String.length file - tailBytes)%nat in (str_drop from file, from).

Definition extractLastCompleteLine (buf : string) (from : nat) : option string :=
  if negb (has_suffix buf nl_str) then None
  else
    let body := str_take (String.length buf - 1) buf in
    let line := match str_last_index nl_str body with
                | None => if (from =? 0)%nat then Some body else None
                | Some i => Some (str_drop (S i) body)
                end in
    match line with
    | None => None
    | Some line => if has_suffix line "}" then Some line else None
    end.

Definition parseChainHMACFromLine (line : string) : string :=
  match str_last_index prevTag line with
  | None => ""
  | Some idx =>
    match parsePrevHmacTail (str_take (String.length line - 1 - idx) (str_drop idx line)) with
    | Err _ => ""
    | Ok (_, m) => m
    end
  end.

Definition tailLastHMAC (file : string) : string :=
  let '(buf, from) := readTail file in
  if str_empty buf then ""
  else match extractLastCompleteLine buf from with
       | None => ""
       | Some line => parseChainHMACFromLine line
       end.

Record Audit := mkAudit { au_chain : hmacChainWriter; au_lastTS : time }.

(** [Open] on an existing file with its key. *)
Definition audit_Open (key file : string) : Audit :=
  mkAudit (mkChain file key (tailLastHMAC file)) zero_time.

(** [Rotate]: the old content, frozen, and the log with a new file. *)
Definition audit_Rotate (a : Audit) : string * Audit :=
  (ch_file (au_chain a), mkAudit (mkChain "" (ch_key (au_chain a)) "") zero_time).

(** [slog.JSONHandler.Handle] renders one record at the wall clock. *)
Variable slog_line : time -> AuditEvent -> string.

Definition ErrOutOfOrder : goerr := ENew "slogaudit: out-of-order timestamp".

Definition audit_file_Record (fail : option (nat * goerr)) (now : time) (e : AuditEvent) (a : Audit)
    : check goerr * Audit :=
  if negb (is_zero_time (au_lastTS a)) && negb (after (ae_TS e) (au_lastTS a))
  then (Err (EWrap "" ErrOutOfOrder ": event %s at %s <= last %s"), a)
  else
    let e' := if str_empty (ae_Source e)
              then mkAuditEvent (ae_ID e) (ae_TS e) (ae_Actor e) (ae_Action e) (ae_Subject e)
                     (ae_Decision e) (ae_Detail e) "internal" else e in
    let '(r, w) := chain_Write fail (slog_line now e') (au_chain a) in
    match r with
    | Err err => (Err (wrapc "slogaudit: durable write failed" err), mkAudit w (au_lastTS a))
    | Ok _ => (Ok tt, mkAudit w (ae_TS e))
    end.

End Chain.

(** ** Byte facts *)

Definition is_hex (s : string) : bool := str_forallb (fun c => is_digit c || in_range 97 102 (bz c)) s.

Lemma hex_digit_ok c : is_hex (String (hex_digit (bz c / 16)) (String (hex_digit (bz c mod 16)) "")) = true.
Proof. destruct c as [[] [] [] [] [] [] [] []]; vm_compute; reflexivity. Qed.

Lemma hex_encode_is_hex s : is_hex (hex_encode s) = true.
Proof.
  induction s as [|c s IH]; [done|].
  change (hex_encode (String c s)) with
    (String (hex_digit (bz c / 16)) (String (hex_digit (bz c mod 16)) "") +:+ hex_encode s).
  unfold is_hex. rewrite str_forallb_app. apply andb_true_iff. split; [apply hex_digit_ok|exact IH].
Qed.

Lemma hex_no_byte b s : is_hex s = true ->
  (is_digit b || in_range 97 102 (bz b)) = false -> no_byte b s = true.
Proof. intros Hs Hb. by apply (no_byte_class (fun c => is_digit c || in_range 97 102 (bz c))). Qed.

Lemma last_index_shift sub u v i : str_last_index sub v = Some i ->
  str_last_index sub (u +:+ v) = Some (String.length u + i)%nat.
Proof. intros Hv. induction u as [|c u IH]; cbn; [done|]. by rewrite IH. Qed.

Lemma last_index_skip a sub u v : no_byte a u = true ->
  str_last_index (String a sub) v = None -> str_last_index (String a sub) (u +:+ v) = None.
Proof.
  intros Hu Hv. induction u as [|c u IH]; [done|].
  unfold no_byte in Hu. cbn in Hu. apply andb_true_iff in Hu as [Hc Hu].
  cbn. rewrite (IH Hu). rewrite Ascii.eqb_sym. by destruct (Ascii.eqb c a).
Qed.

Lemma index_skip a sub u v : no_byte a u = true -> has_prefix (String a sub) v = true ->
  str_index (String a sub) (u +:+ v) = Some (String.length u).
Proof.
  intros Hu Hv. induction u as [|c u IH].
  - cbn [String.append String.length]. by apply str_index_0.
  - unfold no_byte in Hu. cbn in Hu. apply andb_true_iff in Hu as [Hc Hu]. cbn.
    rewrite Ascii.eqb_sym. destruct (Ascii.eqb c a); [done|]. cbn in IH. by rewrite (IH Hu).
Qed.

Lemma has_suffix_app s t : has_suffix (s +:+ t) t = true.
Proof.
  unfold has_suffix. rewrite str_app_length.
  replace (String.length s + String.length t - String.length t)%nat with (String.length s) by lia.
  rewrite str_drop_app, String.eqb_refl. apply andb_true_iff. split; [|done]. apply Nat.leb_le. lia.
Qed.

Lemma take_but_one s c : str_take (String.length (s +:+ String c "") - 1) (s +:+ String c "") = s.
Proof.
  rewrite str_app_length. cbn [String.length].
  replace (String.length s + 1 - 1)%nat with (String.length s) by lia. apply str_take_app.
Qed.

Lemma trim_right_keep c s d : Ascii.eqb d c = false ->
  trim_right_byte c (s +:+ String d "") = s +:+ String d "".
Proof. intros Hd. induction s as [|a s IH]; cbn; [by rewrite Hd|]. rewrite IH. by destruct s. Qed.
Lemma trim_right_drop c s : trim_right_byte c (s +:+ String c "") = trim_right_byte c s.
Proof. induction s as [|a s IH]; cbn; [by rewrite Ascii.eqb_refl|]. by rewrite IH. Qed.

(** ** One stamped line *)

(** A line as [Write] leaves it, whatever its last byte. *)
Definition stamped_line (body prev sum : string) (z : ascii) : string :=
  body +:+ prevTag +:+ prev +:+ hmacSep +:+ sum +:+ dq +:+ String z "".

Lemma stamped_last_index body prev sum z : is_hex prev = true -> is_hex sum = true ->
  no_byte "," (String z "") = true ->
  str_last_index prevTag (stamped_line body prev sum z) = Some (String.length body).
Proof.
  intros Hp Hs Hz. unfold stamped_line.
  rewrite (last_index_shift prevTag body _ 0); [f_equal; lia|].
  set (tag2 := (dq +:+ "prev" +:+ dq +:+ ":" +:+ dq)%string).
  assert (Hno : str_last_index prevTag (tag2 +:+ prev +:+ hmacSep +:+ sum +:+ dq +:+ String z "") = None).
  { change prevTag with (String "," tag2) at 1.
    replace (tag2 +:+ prev +:+ hmacSep +:+ sum +:+ dq +:+ String z "")
      with ((tag2 +:+ prev +:+ dq) +:+ String "," (dq +:+ "hmac" +:+ dq +:+ ":" +:+ dq +:+ sum +:+ dq +:+ String z ""))
      by (unfold hmacSep; by rewrite <- !str_app_assoc).
    apply last_index_skip.
    - rewrite !no_byte_app, (hex_no_byte _ prev Hp) by done. done.
    - cbn [str_last_index].
      replace (str_last_index (String "," tag2) _) with (@None nat); [done|]. symmetry.
      replace (dq +:+ "hmac" +:+ dq +:+ ":" +:+ dq +:+ sum +:+ dq +:+ String z "")
        with ((dq +:+ "hmac" +:+ dq +:+ ":" +:+ dq +:+ sum +:+ dq +:+ String z "") +:+ "")
        by by rewrite str_app_nil_r.
      apply last_index_skip; [|done].
      rewrite !no_byte_app, Hz, (hex_no_byte _ sum Hs) by done. done. }
  change (prevTag +:+ prev +:+ hmacSep +:+ sum +:+ dq +:+ String z "")
    with (String "," (tag2 +:+ prev +:+ hmacSep +:+ sum +:+ dq +:+ String z "")).
  cbn [str_last_index]. rewrite Hno.
  change (String "," (tag2 +:+ ?x)) with (prevTag +:+ x). by rewrite has_prefix_app.
Qed.

Lemma parse_tail prev sum : is_hex prev = true -> is_hex sum = true ->
  parsePrevHmacTail (prevTag +:+ prev +:+ hmacSep +:+ sum +:+ dq) = Ok (prev, sum).
Proof.
  intros Hp Hs. unfold parsePrevHmacTail. rewrite has_prefix_app, str_drop_app. cbn [negb guard].
  change hmacSep with (String (chr 34) ("," +:+ dq +:+ "hmac" +:+ dq +:+ ":" +:+ dq)) at 1.
  rewrite index_skip; [|by apply hex_no_byte|exact (has_prefix_app hmacSep _)].
  rewrite str_take_app.
  replace (str_drop (String.length prev + String.length hmacSep) (prev +:+ hmacSep +:+ sum +:+ dq))
    with (sum +:+ dq).
  - rewrite has_suffix_app. cbn [negb guard]. unfold dq. by rewrite take_but_one.
  - rewrite <- str_app_length, str_app_assoc. by rewrite str_drop_app.
Qed.

(** Reading a stamped line back. *)
Lemma stamped_read body prev sum z : is_hex prev = true -> is_hex sum = true ->
  no_byte "," (String z "") = true ->
  let line := stamped_line body prev sum z in
  str_take (String.length body) line = body
  /\ parsePrevHmacTail (str_take (String.length line - 1 - String.length body)
                          (str_drop (String.length body) line)) = Ok (prev, sum).
Proof.
  intros Hp Hs Hz. cbn zeta. unfold stamped_line. rewrite str_take_app, str_drop_app.
  split; [done|]. rewrite str_app_length.
  set (t := prevTag +:+ prev +:+ hmacSep +:+ sum +:+ dq).
  assert (Ht : prevTag +:+ prev +:+ hmacSep +:+ sum +:+ dq +:+ String z "" = t +:+ String z "")
    by (unfold t; by rewrite <- !str_app_assoc).
  rewrite Ht, str_app_length. cbn [String.length].
  replace (String.length body + (String.length t + 1) - 1 - String.length body)%nat
    with (String.length t) by lia.
  rewrite str_take_app. by apply parse_tail.
Qed.

(** ** Files the writer produces *)

Section Facts.
  Variable mac : string -> string -> string.
  Variable key : string.

Lemma sum_hex prev body : is_hex (chain_sum mac key prev body) = true.
Proof. apply hex_encode_is_hex. Qed.

Lemma stamp_line last body :
  stamp mac key last body = stamped_line body last (chain_sum mac key last body) "}".
Proof. done. Qed.

(** [chained f last n]: [f] is [n] stamped records, the last one [last]. *)
Inductive chained : string -> string -> Z -> Prop :=
| ch_nil : chained "" "" 0
| ch_snoc f last n body : chained f last n -> no_byte nl body = true ->
    len (stamp mac key last body) < 8191 ->
    chained (f +:+ stamp mac key last body +:+ nl_str) (chain_sum mac key last body) (n + 1).

Lemma chained_last_hex f last n : chained f last n -> is_hex last = true.
Proof. destruct 1; [done|apply sum_hex]. Qed.

Lemma write_stamps f last body :
  chain_Write mac None (body +:+ "}" +:+ nl_str) (mkChain f key last)
  = (Ok tt, mkChain (f +:+ stamp mac key last body +:+ nl_str) key (chain_sum mac key last body)).
Proof.
  unfold chain_Write. cbn zeta. cbn [ch_file ch_key ch_last].
  rewrite str_app_assoc. unfold nl_str. rewrite trim_right_drop, trim_right_keep by done.
  rewrite has_suffix_app, take_but_one. done.
Qed.

(** *** Lines *)

Lemma split_snoc f line : no_byte nl line = true ->
  split_byte nl (f +:+ line +:+ nl_str) =
  match reverse (split_byte nl f) with
  | [] => [line; ""%string]
  | w :: r => reverse r ++ [w +:+ line; ""%string]
  end.
Proof.
  intros Hl. induction f as [|c f IH].
  - change (""%string +:+ ?x) with x. unfold nl_str.
    rewrite (split_byte_one nl line "" Hl); done.
  - cbn [String.append split_byte]. destruct (Ascii.eqb c nl).
    + rewrite IH, reverse_cons. destruct (reverse (split_byte nl f)) as [|w r] eqn:E.
      * exfalso. apply (f_equal reverse) in E. rewrite reverse_involutive in E.
        by apply (split_byte_nonempty nl f).
      * cbn. by rewrite reverse_app.
    + rewrite IH. destruct (split_byte nl f) as [|w0 l] eqn:Ef; [by apply split_byte_nonempty in Ef|].
      rewrite !reverse_cons.
      destruct (reverse l) as [|w r] eqn:E.
      * done.
      * cbn. rewrite !reverse_app. done.
Qed.

(** A file that is empty or ends with a newline. *)
Definition whole (f : string) : Prop := exists l, split_byte nl f = l ++ [""%string].

Lemma whole_snoc f line : whole f -> no_byte nl line = true ->
  exists l, split_byte nl f = l ++ [""%string]
  /\ split_byte nl (f +:+ line +:+ nl_str) = l ++ [line; ""%string].
Proof.
  intros [l Hl] Hn. exists l. split; [done|]. rewrite split_snoc by done. rewrite Hl, reverse_app, reverse_singleton. cbn [app].
  by rewrite reverse_involutive.
Qed.

Lemma scan_whole f l : split_byte nl f = l ++ [""%string] -> scan_lines f = map drop_cr l.
Proof. intros H. unfold scan_lines. rewrite H, reverse_app, reverse_singleton. cbn [app].
  by rewrite reverse_involutive. Qed.

Lemma nl_stamp f last n body : chained f last n -> no_byte nl body = true ->
  no_byte nl (stamp mac key last body) = true.
Proof.
  intros Hc Hb. unfold stamp. rewrite !no_byte_app, Hb.
  rewrite (hex_no_byte _ last (chained_last_hex _ _ _ Hc)) by done.
  rewrite (hex_no_byte _ _ (sum_hex last body)) by done. done.
Qed.

Lemma chained_whole f last n : chained f last n -> whole f.
Proof.
  induction 1 as [|f last n body Hc IH Hb Hl]; [by exists []|].
  destruct (whole_snoc f (stamp mac key last body) IH) as (l & _ & H); [by eapply nl_stamp|].
  exists (l ++ [stamp mac key last body]). by rewrite H, <- app_assoc.
Qed.

Lemma drop_cr_stamp last body : drop_cr (stamp mac key last body) = stamp mac key last body.
Proof.
  unfold drop_cr. replace (has_suffix _ _) with false; [done|]. symmetry. rewrite stamp_line.
  unfold stamped_line, has_suffix. apply andb_false_iff. right.
  set (t := body +:+ prevTag +:+ last +:+ hmacSep +:+ chain_sum mac key last body +:+ dq).
  replace (body +:+ _) with (t +:+ "}") by (unfold t; by rewrite <- !str_app_assoc).
  rewrite str_app_length. cbn [String.length].
  replace (String.length t + 1 - 1)%nat with (String.length t) by lia. by rewrite str_drop_app.
Qed.

(** *** The whole file verifies *)

Lemma verify_step line body prev sum l n : line = stamped_line body prev sum "}" ->
  is_hex prev = true -> sum = chain_sum mac key prev body -> len line < maxLine ->
  verify_lines mac key (line :: l) prev n = verify_lines mac key l sum (n + 1).
Proof.
  intros -> Hp -> Hm. cbn [verify_lines].
  destruct (Z.leb_spec maxLine (len (stamped_line body prev (chain_sum mac key prev body) "}"))); [lia|].
  replace (str_empty _) with false by by destruct body.
  rewrite stamped_last_index by (done || apply sum_hex).
  destruct (stamped_read body prev (chain_sum mac key prev body) "}" Hp (sum_hex _ _) eq_refl) as [-> ->].
  by rewrite !String.eqb_refl.
Qed.

Lemma chained_lines f last n : chained f last n -> exists l,
  split_byte nl f = l ++ [""%string]
  /\ forall rest, verify_lines mac key (map drop_cr l ++ rest) "" 0 = verify_lines mac key rest last n.
Proof.
  induction 1 as [|f last n body Hc (l & Hl & IH) Hb Hlen]; [by exists []|].
  destruct (whole_snoc f (stamp mac key last body)) as (l' & Hl' & Hs);
    [by exists l|by eapply nl_stamp|].
  rewrite Hl in Hl'. apply app_inj_tail in Hl' as [<- _].
  exists (l ++ [stamp mac key last body]). rewrite Hs, <- app_assoc. split; [done|]. intros rest.
  rewrite map_app. cbn [map]. rewrite drop_cr_stamp, <- app_assoc, IH. cbn [app].
  apply (verify_step _ body); [apply stamp_line|by eapply chained_last_hex|done|].
  unfold maxLine. lia.
Qed.

Lemma chained_verify f last n : chained f last n -> VerifyChain mac f key = (n, Ok tt).
Proof.
  intros (l & Hl & Hv)%chained_lines. unfold VerifyChain. rewrite (scan_whole _ _ Hl).
  specialize (Hv []). by rewrite app_nil_r in Hv.
Qed.

Lemma str_drop_le n u v : (n <= String.length u)%nat -> str_drop n (u +:+ v) = str_drop n u +:+ v.
Proof.
  revert u. induction n as [|n IH]; intros [|c u] Hn; cbn in *; try done; [lia|]. apply IH. lia.
Qed.

Lemma line_of_window g line b : no_byte nl line = true -> has_suffix line "}" = true ->
  extractLastCompleteLine ((g +:+ nl_str) +:+ line +:+ nl_str) b = Some line.
Proof.
  intros Hn Hs. unfold extractLastCompleteLine. rewrite (str_app_assoc (g +:+ nl_str) line).
  rewrite has_suffix_app. cbn [negb]. cbn zeta.
  rewrite (take_but_one _ nl : str_take (String.length (_ +:+ nl_str) - 1) (_ +:+ nl_str) = _).
  rewrite <- (str_app_assoc g nl_str line). rewrite (last_index_shift nl_str g (nl_str +:+ line) 0).
  - replace (S (String.length g + 0)) with (String.length (g +:+ nl_str))
      by (rewrite str_app_length; cbn; lia).
    by rewrite (str_app_assoc g nl_str line), str_drop_app, Hs.
  - pose proof (last_index_skip nl "" line "" Hn eq_refl) as H. rewrite str_app_nil_r in H.
    change (nl_str +:+ line) with (String nl line). cbn [str_last_index]. unfold nl_str. rewrite H.
    cbn [has_prefix]. by rewrite Ascii.eqb_refl.
Qed.

Lemma parse_stamp last body : is_hex last = true ->
  parseChainHMACFromLine (stamp mac key last body) = chain_sum mac key last body.
Proof.
  intros Hl. unfold parseChainHMACFromLine. rewrite stamp_line, stamped_last_index by (done || apply sum_hex).
  by destruct (stamped_read body last (chain_sum mac key last body) "}" Hl (sum_hex _ _) eq_refl) as [_ ->].
Qed.

Lemma stamp_suffix last body : has_suffix (stamp mac key last body) "}" = true.
Proof.
  unfold stamp. set (t := body +:+ prevTag +:+ last +:+ hmacSep +:+ chain_sum mac key last body +:+ dq).
  replace (body +:+ _) with (t +:+ "}") by (unfold t; by rewrite <- !str_app_assoc). apply has_suffix_app.
Qed.

(** Reopening the file resumes at its last stamp. *)
Lemma chained_tail f last n : chained f last n -> tailLastHMAC f = last.
Proof.
  intros Hc. destruct Hc as [|f last n body Hc Hb Hlen]; [done|].
  pose proof (nl_stamp _ _ _ _ Hc Hb) as Hnl. pose proof (stamp_suffix last body) as Hsuf.
  pose proof (parse_stamp last body (chained_last_hex _ _ _ Hc)) as Hp.
  unfold len in Hlen. set (line := stamp mac key last body) in *.
  unfold tailLastHMAC, readTail.
  set (from := (String.length (f +:+ line +:+ nl_str) - tailBytes)%nat).
  assert (Hfrom : (from <= String.length f - 1)%nat).
  { unfold from, tailBytes. rewrite !str_app_length. cbn [String.length nl_str]. lia. }
  clearbody from. rewrite str_drop_le by lia.
  assert (Hne : str_empty (str_drop from f +:+ line +:+ nl_str) = false)
    by (unfold line, stamp; by destruct (str_drop from f), body).
  rewrite Hne. replace (extractLastCompleteLine _ _) with (Some line); [done|]. symmetry.
  inversion Hc as [Hf|g last0 n0 body0 Hc0 Hb0 Hlen0 Hf]; subst f.
  - cbn [String.length] in Hfrom. assert (from = 0%nat) as -> by lia. cbn [str_drop String.append].
    unfold extractLastCompleteLine. rewrite has_suffix_app. cbn [negb]. cbn zeta.
    rewrite (take_but_one _ nl : str_take (String.length (_ +:+ nl_str) - 1) (_ +:+ nl_str) = _).
    pose proof (last_index_skip nl "" line "" Hnl eq_refl) as H. rewrite str_app_nil_r in H.
    unfold nl_str. rewrite H. cbn. by rewrite Hsuf.
  - rewrite (str_app_assoc g) in *. rewrite str_app_length in Hfrom. cbn [String.length nl_str] in Hfrom.
    rewrite str_drop_le by lia. by apply line_of_window.
Qed.

(** *** Histories of records, restarts and rotations *)

Variable slog_line : time -> AuditEvent -> string.

Inductive audit_op :=
  | OpRecord (fail : option goerr) (now : time) (e : AuditEvent)
  | OpReopen
  | OpRotate.

(** The open log with the number of records acknowledged into its file, and
    the frozen files of earlier rotations with theirs.  A failing write puts
    no byte out. *)
Definition Log : Type := list (string * Z) * (Audit * Z).
Definition log_step (x : Log) (o : audit_op) : Log :=
  let '(frozen, (a, n)) := x in
  match o with
  | OpRecord fail now e =>
    let '(r, a) := audit_file_Record mac slog_line ((fun err => (O, err)) <$> fail) now e a in
    (frozen, (a, if is_ok r then n + 1 else n))
  | OpReopen => (frozen, (audit_Open (ch_key (au_chain a)) (ch_file (au_chain a)), n))
  | OpRotate => let '(f, a) := audit_Rotate a in (frozen ++ [(f, n)], (a, 0))
  end.
Definition new_log : Log := ([], (audit_Open key "", 0)).

(** [slog.JSONHandler]: a record is one line, a JSON object and a newline. *)
Definition renders_short (now : time) (e : AuditEvent) : Prop :=
  exists body, slog_line now e = (body +:+ "}" +:+ nl_str)%string
  /\ no_byte nl body = true /\ len body <= 8000.
Definition records_short (o : audit_op) : Prop :=
  match o with OpRecord _ now _ => forall e, renders_short now e | _ => True end.

Hypothesis mac_len : forall m, String.length (mac key m) = 32%nat.

Lemma hex_encode_length s : String.length (hex_encode s) = (2 * String.length s)%nat.
Proof.
  induction s as [|c s IH]; [done|].
  change (hex_encode (String c s)) with
    (String (hex_digit (bz c / 16)) (String (hex_digit (bz c mod 16)) "") +:+ hex_encode s).
  rewrite str_app_length, IH. cbn [String.length]. lia.
Qed.

Lemma stamp_short f last n body : chained f last n -> len body <= 8000 ->
  len (stamp mac key last body) < 8191.
Proof.
  intros Hc Hb. assert (Hlast : (String.length last <= 64)%nat).
  { destruct Hc; [cbn; lia|]. unfold chain_sum. rewrite hex_encode_length, mac_len. lia. }
  unfold stamp, len in *. rewrite !str_app_length. unfold chain_sum. rewrite hex_encode_length, mac_len.
  cbn [prevTag hmacSep dq String.append String.length]. lia.
Qed.

(** The chain invariant of a log: the open file is a chain the writer
    continues, and the frozen files verify. *)
Definition log_ok (x : Log) : Prop :=
  let '(frozen, (a, n)) := x in
  ch_key (au_chain a) = key /\ chained (ch_file (au_chain a)) (ch_last (au_chain a)) n
  /\ Forall (fun '(f, n) => VerifyChain mac f key = (n, Ok tt)) frozen.

Lemma write_fails e p w : chain_Write mac (Some (O, e)) p w = (Err e, w).
Proof.
  unfold chain_Write. cbn zeta. destruct w as [f k l].
  destruct (negb _); cbn; by rewrite str_app_nil_r.
Qed.

Lemma log_step_ok x o : records_short o -> log_ok x -> log_ok (log_step x o).
Proof.
  destruct x as [frozen [a n]]. intros Ho (Hk & Hc & Hf). destruct o as [fail now e| |].
  - cbn [log_step]. unfold audit_file_Record. destruct (_ && _); [done|].
    set (e' := if str_empty _ then _ else e). destruct fail as [err|]; cbn [fmap option_fmap option_map].
    + rewrite write_fails. done.
    + destruct (Ho e') as (body & -> & Hnl & Hl). destruct a as [[f k last] ts]. cbn in Hk, Hc. subst k.
      cbn [au_chain]. rewrite write_stamps. cbn. split; [done|]. split; [|done].
      constructor; [done|done|]. by eapply stamp_short.
  - cbn [log_step]. unfold audit_Open. rewrite Hk, (chained_tail _ _ _ Hc). done.
  - cbn. rewrite Hk. split; [done|]. split; [constructor|]. apply Forall_app. split; [done|].
    constructor; [|constructor]. by eapply chained_verify.
Qed.


End Facts.

(** ** Tamper evidence *)

Section Tamper.
  Variable mac : string -> string -> string.
  Variable key : string.
  (** HMAC-SHA-256 puts out 32 bytes. *)
  Hypothesis mac_len : forall m, String.length (mac key m) = 32%nat.

(** The messages the MAC is computed on along a chain of bodies. *)
Fixpoint chain_inputs (prev : string) (bodies : list string) : list string :=
  match bodies with
  | [] => []
  | b :: bodies => (prev +:+ b)%string :: chain_inputs (chain_sum mac key prev b) bodies
  end.
(** Two different messages, one in each list, with the same MAC. *)
Definition collision (l1 l2 : list string) : Prop :=
  exists m1 m2, m1 ∈ l1 /\ m2 ∈ l2 /\ m1 <> m2 /\ mac key m1 = mac key m2.

(** The authenticated part of a line, and the stamp it carries. *)
Definition line_body (line : string) : string :=
  match str_last_index prevTag line with Some i => str_take i line | None => line end.

Lemma verify_le l : forall prev n, (verify_lines mac key l prev n).1 <= n + Z.of_nat (length l).
Proof.
  induction l as [|line l IH]; intros prev n; cbn [verify_lines length]; [cbn; lia|].
  assert (Hle : forall p m, m <= n + 1 -> (verify_lines mac key l p m).1 <= n + Z.of_nat (S (length l)))
    by (intros p m Hm; specialize (IH p m); lia).
  destruct (maxLine <=? len line); [cbn; lia|]. destruct (str_empty line); [apply Hle; lia|].
  destruct (str_last_index prevTag line); [|apply Hle; lia].
  destruct (parsePrevHmacTail _) as [[rp rh]|]; [|cbn; lia].
  destruct (negb _); [cbn; lia|]. destruct (negb _); [cbn; lia|]. apply Hle. lia.
Qed.

(** A log in which every line counts is the chain of its bodies. *)
Lemma verify_all l : forall prev n r,
  verify_lines mac key l prev n = (n + Z.of_nat (length l), r) ->
  match l with
  | [] => True
  | _ => parseChainHMACFromLine (List.last l "")
         = foldl (chain_sum mac key) prev (map line_body l)
  end.
Proof.
  induction l as [|line l IH]; intros prev n r Hv; [done|]. cbn [verify_lines length] in Hv.
  assert (Hno : forall p, (verify_lines mac key l p n).1 <> n + Z.of_nat (S (length l)))
    by (intros p Hp; pose proof (verify_le l p n); lia).
  destruct (maxLine <=? len line); [injection Hv; lia|].
  destruct (str_empty line) eqn:Ee; [by destruct (Hno prev); rewrite Hv|].
  destruct (str_last_index prevTag line) as [idx|] eqn:Ei; [|by destruct (Hno ""%string); rewrite Hv].
  destruct (parsePrevHmacTail _) as [[rp rh]|] eqn:Ep; [|injection Hv; lia].
  destruct (negb (rp =? prev)%string) eqn:E1; [injection Hv; lia|].
  destruct (negb (chain_sum mac key prev _ =? rh)%string) eqn:E2; [injection Hv; lia|].
  bprop. apply String.eqb_eq in E1, E2. subst rp rh.
  cbn [map foldl]. assert (Hb : line_body line = str_take idx line) by (unfold line_body; by rewrite Ei).
  rewrite Hb. destruct l as [|line2 l].
  - cbn [List.last map foldl]. unfold parseChainHMACFromLine. by rewrite Ei, Ep.
  - change (List.last (line :: line2 :: l) "") with (List.last (line2 :: l) ""%string).
    apply (IH _ (n + 1) r). rewrite Hv. f_equal. cbn [length]. lia.
Qed.

Definition braced (b : string) : bool := has_prefix "{" b.

Lemma hex_split p1 : forall p2 b1 b2, is_hex p1 = true -> is_hex p2 = true ->
  braced b1 = true -> braced b2 = true -> p1 +:+ b1 = p2 +:+ b2 -> p1 = p2 /\ b1 = b2.
Proof.
  assert (Hx : forall c p b, is_hex (String c p) = true -> braced (String c b) = true -> False).
  { intros c p b Hh Hb. unfold braced in Hb. cbn [has_prefix] in Hb. rewrite andb_true_r in Hb.
    apply Ascii.eqb_eq in Hb. subst c. discriminate Hh. }
  induction p1 as [|c p1 IH]; intros [|d p2] b1 b2 H1 H2 Hb1 Hb2 He.
  - done.
  - cbn in He. subst b1. by destruct (Hx d p2 (p2 +:+ b2)).
  - cbn in He. subst b2. by destruct (Hx c p1 (p1 +:+ b1)).
  - cbn in He. injection He as -> He. unfold is_hex in H1, H2. cbn [str_forallb] in H1, H2.
    apply andb_true_iff in H1 as [_ H1], H2 as [_ H2].
    by destruct (IH p2 b1 b2 H1 H2 Hb1 Hb2 He) as [-> ->].
Qed.

Lemma chain_fold_hex B : forall p, is_hex p = true -> is_hex (foldl (chain_sum mac key) p B) = true.
Proof.
  induction B as [|b B IH]; intros p Hp; [done|]. cbn. apply IH. apply hex_encode_is_hex.
Qed.

Lemma sum_nonempty p b : chain_sum mac key p b <> ""%string.
Proof.
  unfold chain_sum. pose proof (mac_len (p +:+ b)) as Hm. by destruct (mac key (p +:+ b)).
Qed.

Lemma chain_inputs_snoc B b : forall p,
  chain_inputs p (B ++ [b]) = chain_inputs p B ++ [(foldl (chain_sum mac key) p B +:+ b)%string].
Proof. induction B as [|c B IH]; intros p; [done|]. cbn. by rewrite IH. Qed.

Lemma chain_fold_inj B1 : forall B2, Forall (fun b => braced b = true) B1 ->
  Forall (fun b => braced b = true) B2 ->
  foldl (chain_sum mac key) "" B1 = foldl (chain_sum mac key) "" B2 ->
  B1 = B2 \/ collision (chain_inputs "" B1) (chain_inputs "" B2).
Proof.
  induction B1 as [|b1 B1 IH] using rev_ind; intros B2; destruct B2 as [|b2 B2 _] using rev_ind;
    intros H1 H2 He.
  - by left.
  - rewrite foldl_app in He. cbn in He. by destruct (sum_nonempty _ _ (eq_sym He)).
  - rewrite foldl_app in He. cbn in He. by destruct (sum_nonempty _ _ He).
  - apply Forall_app in H1 as [H1 Hb1], H2 as [H2 Hb2].
    apply Forall_cons in Hb1 as [Hb1 _], Hb2 as [Hb2 _]. rewrite !foldl_app in He. cbn in He.
    unfold chain_sum at 1 3 in He. apply hex_encode_inj in He. rewrite !chain_inputs_snoc.
    set (m1 := (foldl (chain_sum mac key) "" B1 +:+ b1)%string) in *.
    set (m2 := (foldl (chain_sum mac key) "" B2 +:+ b2)%string) in *.
    destruct (decide (m1 = m2)) as [E|E].
    2: { right. exists m1, m2. rewrite !elem_of_app, !list_elem_of_singleton. auto. }
    apply hex_split in E as [E ->]; [|by apply chain_fold_hex..|done|done].
    destruct (IH B2 H1 H2 E) as [->|(x & y & Hx & Hy & Hxy)]; [by left|right].
    exists x, y. rewrite !elem_of_app. auto.
Qed.

(** C15. The last stamp authenticates the whole log, as far as the MAC does: if
    two files verify in full (every line counted, every record's line an
    object's, beginning with a brace) and carry the same last HMAC, then
    either their records are the same, in the same order, or the two files
    exhibit a collision of the MAC, two different messages of the two chains
    with one tag.  So no record can be edited, dropped, inserted or reordered
    without changing the last stamp, failing the verification or colliding
    the MAC under its key. *)
Theorem chain_tamper_evident (f1 f2 : string) (r1 r2 : check goerr) :
  VerifyChain mac f1 key = (Z.of_nat (length (scan_lines f1)), r1) ->
  VerifyChain mac f2 key = (Z.of_nat (length (scan_lines f2)), r2) ->
  Forall (fun b => braced b = true) (map line_body (scan_lines f1)) ->
  Forall (fun b => braced b = true) (map line_body (scan_lines f2)) ->
  scan_lines f1 <> [] -> scan_lines f2 <> [] ->
  parseChainHMACFromLine (List.last (scan_lines f1) "")
  = parseChainHMACFromLine (List.last (scan_lines f2) "") ->
  map line_body (scan_lines f1) = map line_body (scan_lines f2)
  \/ collision (chain_inputs "" (map line_body (scan_lines f1)))
               (chain_inputs "" (map line_body (scan_lines f2))).
Proof.
  intros H1 H2 Hb1 Hb2 Hn1 Hn2 He. apply chain_fold_inj; [done|done|].
  pose proof (verify_all _ "" 0 r1 H1) as E1. pose proof (verify_all _ "" 0 r2 H2) as E2.
  destruct (scan_lines f1); [done|]. destruct (scan_lines f2); [done|]. congruence.
Qed.

End Tamper.

(** ** Where the chain restarts by itself *)

Section Restart.
  Variable mac : string -> string -> string.
  Variable key : string.

Lemma drop_past u v k : str_drop (String.length u + k) (u +:+ v) = str_drop k v.
Proof. induction u as [|c u IH]; [done|]. exact IH. Qed.

Lemma tail_of_long_line f line : no_byte nl line = true -> 8192 <= len line ->
  tailLastHMAC (f +:+ line +:+ nl_str) = ""%string.
Proof.
  intros Hn Hl. unfold len in Hl. unfold tailLastHMAC, readTail.
  set (from := (String.length (f +:+ line +:+ nl_str) - tailBytes)%nat).
  assert (Hfrom : exists k, from = (String.length f + S k)%nat /\ (S k <= String.length line)%nat).
  { exists (String.length line - Z.to_nat 8192)%nat. unfold from, tailBytes.
    rewrite !str_app_length. cbn [String.length nl_str]. lia. }
  clearbody from. destruct Hfrom as (k & -> & Hk). rewrite drop_past, str_drop_le by done.
  destruct (str_empty _); [done|]. unfold extractLastCompleteLine. rewrite has_suffix_app. cbn [negb]. cbn zeta.
  rewrite (take_but_one _ nl : str_take (String.length (_ +:+ nl_str) - 1) (_ +:+ nl_str) = _).
  pose proof (last_index_skip nl "" _ "" (no_byte_drop nl (S k) line Hn) eq_refl) as H.
  rewrite str_app_nil_r in H. unfold nl_str. rewrite H.
  by replace (String.length f + S k =? 0)%nat with false by (symmetry; apply Nat.eqb_neq; lia).
Qed.

(** A record whose stamped line is longer than the 8 KiB tail window
    breaks the chain at the next restart: the reopened log resumes from the
    empty stamp, and after one more record VerifyChain refuses the file the
    daemon itself wrote, although nothing was tampered with. *)
Theorem long_record_breaks_restart (f last body next : string) (n : Z) :
  chained mac key f last n -> no_byte nl body = true -> no_byte nl next = true ->
  8192 <= len (stamp mac key last body) < maxLine ->
  len (stamp mac key "" next) < maxLine ->
  mac key (last +:+ body) <> ""%string ->
  let w1 := (chain_Write mac None (body +:+ "}" +:+ nl_str) (mkChain f key last)).2 in
  let w2 := (chain_Write mac None (next +:+ "}" +:+ nl_str) (au_chain (audit_Open key (ch_file w1)))).2 in
  ch_last w1 <> ""%string /\ ch_last (au_chain (audit_Open key (ch_file w1))) = ""%string
  /\ (VerifyChain mac (ch_file w1) key) = (n + 1, Ok tt)
  /\ exists e, VerifyChain mac (ch_file w2) key = (n + 1, Err e).
Proof.
  intros Hc Hb Hx Hlong Hshort Hmac. cbn zeta. rewrite write_stamps. cbn [snd ch_file ch_last].
  pose proof (nl_stamp _ _ _ _ _ _ Hc Hb) as Hn1.
  assert (Htail : tailLastHMAC (f +:+ stamp mac key last body +:+ nl_str) = ""%string)
    by (apply tail_of_long_line; [done|apply Hlong]).
  assert (Hsum : chain_sum mac key last body <> ""%string)
    by (unfold chain_sum; by destruct (mac key (last +:+ body))).
  unfold audit_Open. cbn [au_chain ch_last ch_file]. rewrite Htail, write_stamps. cbn [snd ch_file].
  split; [done|]. split; [done|].
  destruct (chained_lines _ _ _ _ _ Hc) as (l & Hl & Hv).
  destruct (whole_snoc f (stamp mac key last body)) as (l1 & Hl1 & Hs1); [by exists l|done|].
  rewrite Hl in Hl1. apply app_inj_tail in Hl1 as [<- _].
  assert (Hn2 : no_byte nl (stamp mac key "" next) = true) by (by eapply (nl_stamp mac key "" "" 0); [constructor|]).
  set (f1 := f +:+ stamp mac key last body +:+ nl_str) in *.
  replace (l ++ [stamp mac key last body; ""%string])
    with ((l ++ [stamp mac key last body]) ++ [""%string]) in Hs1 by by rewrite <- app_assoc.
  destruct (whole_snoc f1 (stamp mac key "" next)) as (l2 & Hl2 & Hs2); [by eexists|done|].
  rewrite Hs1 in Hl2. apply app_inj_tail in Hl2 as [<- _].
  assert (Hstep : forall rest, verify_lines mac key (stamp mac key last body :: rest) last n
                  = verify_lines mac key rest (chain_sum mac key last body) (n + 1)).
  { intros rest. apply (verify_step mac key _ body); [apply stamp_line|by eapply chained_last_hex|done|lia]. }
  unfold VerifyChain. split.
  - rewrite (scan_whole _ _ Hs1), map_app. cbn [map]. rewrite drop_cr_stamp, Hv, Hstep. done.
  - replace ((l ++ [stamp mac key last body]) ++ [stamp mac key "" next; ""%string])
      with ((l ++ [stamp mac key last body; stamp mac key "" next]) ++ [""%string]) in Hs2
      by by rewrite <- !app_assoc.
    rewrite (scan_whole _ _ Hs2), map_app. cbn [map]. rewrite !drop_cr_stamp, Hv, Hstep.
    rewrite stamp_line in *. cbn [verify_lines].
    destruct (Z.leb_spec maxLine (len (stamped_line next "" (chain_sum mac key "" next) "}"))); [lia|].
    replace (str_empty _) with false by by destruct next.
    rewrite stamped_last_index by (done || apply sum_hex).
    destruct (stamped_read next "" (chain_sum mac key "" next) "}" eq_refl (sum_hex _ _ _ _) eq_refl) as [-> ->].
    destruct (String.eqb_spec "" (chain_sum mac key last body)); [congruence|]. cbn [negb]. by eexists.
Qed.

End Restart.

(** ** Witnesses *)

Definition demo_mac (k m : string) : string := "0123456789abcdef0123456789abcdef".

Definition demo_event (t : time) : AuditEvent :=
  mkAuditEvent "e" t "a" AuditSend (mkJID "1" "s.whatsapp.net") "ok" "" "internal".

(** Two records and a restart, a record out of order, a rotation, a record
    whose write fails and one more. *)
Definition demo_history : list audit_op :=
  [OpRecord None 1 (demo_event 5); OpReopen; OpRecord None 2 (demo_event 6);
   OpRecord None 3 (demo_event 6); OpRotate; OpRecord (Some (ENew "no space")) 4 (demo_event 7);
   OpRecord None 5 (demo_event 8)].
Definition demo_slog (now : time) (e : AuditEvent) : string := ("{a" +:+ "}" +:+ nl_str)%string.
Definition demo_log : Log := foldl (log_step demo_mac demo_slog) (new_log "k") demo_history.


(** 32 bytes of the message, padded; the second file differs from the first
    in its last byte only. *)
Definition short_mac (k m : string) : string :=
  str_take 32 (m +:+ "00000000000000000000000000000000")%string.

Lemma short_mac_len k m : String.length (short_mac k m) = 32%nat.
Proof.
  apply str_take_length. rewrite str_app_length. cbn [String.length]. lia.
Qed.

Lemma chain_tamper_evident_witness :
  let f1 := (stamp short_mac "k" "" "{a" +:+ nl_str)%string in
  let f2 := stamped_line "{a" "" (chain_sum short_mac "k" "" "{a") "]" in
  map line_body (scan_lines f1) = map line_body (scan_lines f2)
  \/ collision short_mac "k" (chain_inputs short_mac "k" "" (map line_body (scan_lines f1)))
               (chain_inputs short_mac "k" "" (map line_body (scan_lines f2))).
Proof.
  apply (chain_tamper_evident short_mac "k" (short_mac_len "k")
    (stamp short_mac "k" "" "{a" +:+ nl_str) (stamped_line "{a" "" (chain_sum short_mac "k" "" "{a") "]")
    (Ok tt) (Ok tt)).
  - vm_compute. reflexivity.
  - vm_compute. reflexivity.
  - vm_compute. repeat constructor.
  - vm_compute. repeat constructor.
  - vm_compute. discriminate.
  - vm_compute. discriminate.
  - vm_compute. reflexivity.
Defined.

Definition demo_long : string := str_concat (repeat "0123456789"%string 900).

Lemma long_record_breaks_restart_witness :
  (VerifyChain demo_mac (ch_file (chain_Write demo_mac None (demo_long +:+ "}" +:+ nl_str)
     (mkChain "" "k" "")).2) "k").1 = 1.
Proof.
  destruct (long_record_breaks_restart demo_mac "k" "" "" demo_long "{b" 0 (ch_nil _ _))
    as (_ & _ & -> & _); [vm_compute; reflexivity|reflexivity|
      split; vm_compute; [discriminate|reflexivity]|vm_compute; reflexivity|discriminate|reflexivity].
Defined.
