(* ===== verification/Rest.v ===== *)
(** * The REST adapter: tokens, scopes and the RPC gate

    [internal/adapters/primary/rest/scope.go], [auth.go], [scoped_auth.go],
    [handleRPC] of [server.go], and the token store
    [internal/adapters/secondary/sqlitetokens/store.go].  SHA-256 and the
    dispatcher behind the gate are parameters; the last section puts the
    modelled dispatcher there. *)
From S2P Require Import Prelude GoStd Errors Jid Policy Limiter Message Values Json Idem Ports Dispatch Admin Gate Draft.

#[local] Open Scope Z_scope.

(** ** scope.go *)

Definition ScopeRead : Z := 1.
Definition ScopeSend : Z := 2.
Definition ScopeAdmin : Z := 3.

Definition MethodScopes : list (string * Z) :=
  [("status", ScopeRead); ("health", ScopeRead); ("messages", ScopeRead);
   ("history", ScopeRead); ("thread.get", ScopeRead); ("messages.search", ScopeRead);
   ("messages.list", ScopeRead); ("groups", ScopeRead); ("groups.get", ScopeRead);
   ("contacts.lookup", ScopeRead); ("contacts.search", ScopeRead);
   ("contacts.list", ScopeRead); ("contacts.profilePhoto", ScopeRead);
   ("contact.resolve", ScopeRead); ("contact.blocklist", ScopeRead);
   ("media.resolve", ScopeRead); ("media.download", ScopeRead);
   ("media.fetchBytes", ScopeRead); ("media.list", ScopeRead); ("draft.list", ScopeRead);
   ("draft.get", ScopeRead); ("webhook.list", ScopeRead); ("webhook.deliveries", ScopeRead);
   ("schedule.list", ScopeRead); ("labels.list", ScopeRead); ("embeddings.status", ScopeRead);
   ("privacy.get", ScopeRead); ("export", ScopeRead); ("chat.list", ScopeRead);
   ("sync.status", ScopeRead); ("system.hello", ScopeRead); ("send", ScopeSend);
   ("sendMedia", ScopeSend); ("react", ScopeSend); ("markRead", ScopeSend);
   ("sendSeen", ScopeSend); ("send.reply", ScopeSend); ("send.buttonResponse", ScopeSend);
   ("send.listResponse", ScopeSend); ("chat.composing", ScopeSend);
   ("presence.composing.start", ScopeSend); ("presence.composing.stop", ScopeSend);
   ("presence.recording.start", ScopeSend); ("presence.recording.stop", ScopeSend);
   ("draft.approve", ScopeSend); ("draft.create", ScopeSend); ("webhook.replay", ScopeSend);
   ("draft.reject", ScopeSend); ("message.forward", ScopeSend); ("message.star", ScopeSend);
   ("message.setDisappearing", ScopeSend); ("contacts.annotate", ScopeSend);
   ("contacts.sync", ScopeSend); ("contacts.resolve.confirm", ScopeSend); ("wait", ScopeSend);
   ("media.gc", ScopeSend); ("poll.create", ScopeSend); ("poll.vote", ScopeSend);
   ("sync.force", ScopeSend); ("media.upload", ScopeSend); ("pair", ScopeAdmin);
   ("panic", ScopeAdmin); ("allow", ScopeAdmin); ("contact.block", ScopeAdmin);
   ("contact.unblock", ScopeAdmin); ("chat.archive", ScopeAdmin); ("chat.mute", ScopeAdmin);
   ("chat.pin", ScopeAdmin); ("chat.markUnread", ScopeAdmin); ("privacy.set", ScopeAdmin);
   ("session.logout", ScopeAdmin); ("session.logoutAll", ScopeAdmin);
   ("profile.setName", ScopeAdmin); ("profile.setStatus", ScopeAdmin);
   ("group.create", ScopeAdmin); ("group.leave", ScopeAdmin);
   ("group.addParticipants", ScopeAdmin); ("group.removeParticipants", ScopeAdmin);
   ("group.promote", ScopeAdmin); ("group.demote", ScopeAdmin); ("group.edit", ScopeAdmin);
   ("group.inviteGet", ScopeAdmin); ("group.inviteRevoke", ScopeAdmin);
   ("group.inviteJoin", ScopeAdmin); ("message.revoke", ScopeAdmin);
   ("message.edit", ScopeAdmin); ("schedule.send", ScopeAdmin);
   ("schedule.cancel", ScopeAdmin); ("schedule.update", ScopeAdmin);
   ("labels.create", ScopeAdmin); ("labels.delete", ScopeAdmin); ("labels.assign", ScopeAdmin);
   ("labels.unassign", ScopeAdmin); ("embeddings.purge", ScopeAdmin);
   ("admin.reload", ScopeAdmin); ("appstate.resync", ScopeAdmin); ("webhook.add", ScopeAdmin);
   ("webhook.remove", ScopeAdmin); ("admin.audit.rotate", ScopeAdmin);
   ("history.purge", ScopeAdmin); ("search", ScopeRead); ("purge", ScopeAdmin);
   ("config.features", ScopeRead); ("debug.pprof.profile", ScopeAdmin)]%string.

Definition revokeMethod : string := "message.revoke".

(** The params are decoded into a struct whose only field is [scope]. *)
Definition revokeIsSelfScoped (params : RawMessage) : bool :=
  match params with
  | None => false
  | Some _ =>
    match parseParams (field dec_str "" "scope") params with
    | Err _ => false
    | Ok scope =>
      if str_empty scope then false
      else match ParseRevokeScope scope with Ok sc => sc =? RevokeSelf | Err _ => false end
    end
  end.

Definition RequiredScope (method : string) (params : RawMessage) : option Z :=
  match assoc MethodScopes method with
  | None => None
  | Some required =>
    if (method =? revokeMethod)%string && revokeIsSelfScoped params then Some ScopeSend
    else Some required
  end.

Definition AllowedScope (method : string) (params : RawMessage) (granted : Z) : bool :=
  match RequiredScope method params with
  | None => false
  | Some required => required <=? granted
  end.

(** [Scope.MethodScope] *)
Definition Scope_MethodScope (s : string) : Z :=
  if (s =? "read")%string then ScopeRead
  else if (s =? "send")%string then ScopeSend
  else if (s =? "admin")%string then ScopeAdmin
  else 0.

(** ** sqlitetokens/store.go *)

Definition tokens_ErrInvalidScope : goerr := ENew "sqlitetokens: invalid scope".
Definition ErrTokenNotFound : goerr := ENew "sqlitetokens: token not found".
Definition ErrTokenRevoked : goerr := ENew "sqlitetokens: token revoked".
Definition ErrTokenExpired : goerr := ENew "sqlitetokens: token expired".

Definition tokens_Scope_IsValid (s : string) : bool :=
  (s =? "read")%string || (s =? "send")%string || (s =? "admin")%string.

(** A row of [tokens]; [token_id] is the key, [hash] is UNIQUE. *)
Record TokenRow := mkTokenRow {
  tk_hash : string; tk_name : string; tk_scope : string; tk_created : Z; tk_expires : Z;
  tk_lastUsed : option Z; tk_revoked : option Z }.

Abbreviation TokenTable := (gmap string TokenRow).

(** The table and the buffered last_used_at writes, by hash. *)
Record TokenStore := mkTokenStore { ts_rows : TokenTable; ts_pending : gmap string Z }.

Section Tokens.
  Variable sha256 : string -> string.

(** [WHERE hash = ? LIMIT 1] *)
Definition row_by_hash (h : string) (t : TokenTable) : option (string * TokenRow) :=
  List.find (fun kr => (tk_hash kr.2 =? h)%string) (map_to_list t).

(** [raw] is the 32 bytes [crypto/rand] draws, [id] the ULID. *)
Definition Issue (f : fault) (now : time) (raw id name scope : string) (ttl : Z) (s : TokenStore)
    : result string * TokenStore :=
  if negb (tokens_Scope_IsValid scope) then (Err tokens_ErrInvalidScope, s)
  else
    let name := trim_space name in
    if str_empty name then (Err (ENew "sqlitetokens: token name must not be empty"), s)
    else
      let rawHex := hex_encode raw in
      let sum := sha256 rawHex in
      let expiresAt := if 0 <? ttl then unix (now + ttl) else 0 in
      match fails_at f SExec, ts_rows s !! id, row_by_hash sum (ts_rows s) with
      | Some e, _, _ => (Err (wrapc "sqlitetokens: insert" e), s)
      | None, Some _, _ | None, None, Some _ =>
          (Err (wrapc "sqlitetokens: insert" (ENew "UNIQUE constraint failed")), s)
      | None, None, None =>
          (Ok rawHex,
           mkTokenStore (<[id := mkTokenRow sum name scope (unix now) expiresAt None None]> (ts_rows s))
             (ts_pending s))
      end.

(** [tokenFromRow]: a NULL or non-positive [expires_at] is the zero time. *)
Definition tok_ExpiresAt (r : TokenRow) : time :=
  if 0 <? tk_expires r then of_unix (tk_expires r) else zero_time.

Definition tokens_Verify (f : fault) (now : time) (rawToken : string) (s : TokenStore)
    : result (string * string) * TokenStore :=
  if str_empty rawToken then (Err ErrTokenNotFound, s)
  else
    let sum := sha256 rawToken in
    match fails_at f SQuery, row_by_hash sum (ts_rows s) with
    | Some e, _ => (Err (wrapc "sqlitetokens: scan" e), s)
    | None, None => (Err ErrTokenNotFound, s)
    | None, Some (id, r) =>
      if negb (tk_hash r =? sum)%string then (Err ErrTokenNotFound, s)
      else if bool_decide (is_Some (tk_revoked r)) then (Err ErrTokenRevoked, s)
      else if negb (is_zero_time (tok_ExpiresAt r)) && after now (tok_ExpiresAt r)
      then (Err ErrTokenExpired, s)
      else (Ok (tk_scope r, id),
            mkTokenStore (ts_rows s) (<[tk_hash r := unix now]> (ts_pending s)))
    end.

Definition set_revoked (now : Z) (r : TokenRow) : TokenRow :=
  mkTokenRow (tk_hash r) (tk_name r) (tk_scope r) (tk_created r) (tk_expires r) (tk_lastUsed r) (Some now).
Definition set_lastUsed (ts : Z) (r : TokenRow) : TokenRow :=
  mkTokenRow (tk_hash r) (tk_name r) (tk_scope r) (tk_created r) (tk_expires r) (Some ts) (tk_revoked r).

Definition tokens_Revoke (f : fault) (now : time) (id : string) (s : TokenStore) : check goerr * TokenStore :=
  match fails_at f SExec with
  | Some e => (Err (wrapc "sqlitetokens: revoke" e), s)
  | None =>
    match ts_rows s !! id with
    | None =>
      match fails_at f SQuery with
      | Some e => (Err (wrapc "sqlitetokens: revoke check" e), s)
      | None => (Err ErrTokenNotFound, s)
      end
    | Some r =>
      match tk_revoked r with
      | Some _ =>
        match fails_at f SQuery with
        | Some e => (Err (wrapc "sqlitetokens: revoke check" e), s)
        | None => (Ok tt, s)
        end
      | None => (Ok tt, mkTokenStore (<[id := set_revoked (unix now) r]> (ts_rows s)) (ts_pending s))
      end
    end
  end.

Definition tokens_Sweep (f : fault) (now : time) (olderThan : Z) (s : TokenStore)
    : result Z * TokenStore :=
  let cutoff := if olderThan <=? 0 then unix now + 1 else unix (now - olderThan) in
  match fails_at f SExec with
  | Some e => (Err (wrapc "sqlitetokens: sweep" e), s)
  | None =>
    let dead r := match tk_revoked r with Some t => t <? cutoff | None => false end
                  || (0 <? tk_expires r) && (tk_expires r <? cutoff) in
    let rows := filter (fun kr => dead kr.2 = false) (ts_rows s) in
    (Ok (Z.of_nat (size (ts_rows s) - size rows)), mkTokenStore rows (ts_pending s))
  end.

(** [flushPending]: the buffer is taken before the transaction, so a failed
    transaction loses it. *)
Definition flushPending (f : fault) (s : TokenStore) : check goerr * TokenStore :=
  if decide (ts_pending s = ∅) then (Ok tt, s)
  else
    let touch rows (kv : string * Z) :=
      fmap (fun r => if (tk_hash r =? kv.1)%string then set_lastUsed kv.2 r else r) rows in
    match f with
    | Some (SBegin, e) => (Err (wrapc "sqlitetokens: begin flush" e), mkTokenStore (ts_rows s) ∅)
    | Some (SQuery, e) => (Err (wrapc "sqlitetokens: prepare flush" e), mkTokenStore (ts_rows s) ∅)
    | Some (SExec, e) => (Err (wrapc "sqlitetokens: exec flush" e), mkTokenStore (ts_rows s) ∅)
    | Some (SCommit, e) => (Err (wrapc "sqlitetokens: commit flush" e), mkTokenStore (ts_rows s) ∅)
    | None => (Ok tt, mkTokenStore (foldl touch (ts_rows s) (map_to_list (ts_pending s))) ∅)
    end.

End Tokens.

(** ** auth.go, scoped_auth.go *)

(** The two authenticators; a nil store is [ScopedAuth false]. *)
Inductive Authenticator :=
| EnvTokenAuth (expectedHash : string) (enabled : bool)
| ScopedAuth (wired : bool).

Definition bearer : string := "Bearer ".
Definition MinTokenBytes : Z := 32.

Definition ErrUnauthorized : goerr := ENew "rest: unauthorized".

Definition ValidateTokenStrength (rawToken : string) : check goerr :=
  fail_if len rawToken <? MinTokenBytes with ENew "rest: WAD_REST_TOKEN must be at least %d bytes" ;;
  Ok tt.

Section Gate.
  Variable sha256 : string -> string.

Definition NewEnvTokenAuth (rawToken : string) : Authenticator :=
  if str_empty rawToken then EnvTokenAuth "" false else EnvTokenAuth (sha256 rawToken) true.

(** The token of an Authorization header. *)
Definition presented (hdr : string) : option string :=
  if has_prefix bearer hdr then
    let t := trim_prefix bearer hdr in if str_empty t then None else Some t
  else None.

Definition env_Verify (expectedHash : string) (enabled : bool) (hdr : string) : check goerr :=
  if negb enabled then Err ErrUnauthorized
  else match presented hdr with
       | None => Err ErrUnauthorized
       | Some t => if (sha256 t =? expectedHash)%string then Ok tt else Err ErrUnauthorized
       end.

(** The scope it leaves in the request's context; the shim of
    [cmd/wad/rest_http.go] passes the store's answer on. *)
Definition scoped_Verify (f : fault) (now : time) (wired : bool) (hdr : string) (s : TokenStore)
    : result string * TokenStore :=
  if negb wired then (Err ErrUnauthorized, s)
  else match presented hdr with
       | None => (Err ErrUnauthorized, s)
       | Some t =>
         let '(r, s) := tokens_Verify sha256 f now t s in
         (match r with
          | Err e => Err (EWrap "" ErrUnauthorized (String (chr 10) (Error e)))
          | Ok (scope, _) => Ok scope
          end, s)
       end.

Definition auth_Verify (f : fault) (now : time) (a : Authenticator) (hdr : string) (s : TokenStore)
    : result (option string) * TokenStore :=
  match a with
  | EnvTokenAuth h enabled => (res_map (fun _ => None) (env_Verify h enabled hdr), s)
  | ScopedAuth wired => let '(r, s) := scoped_Verify f now wired hdr s in (res_map Some r, s)
  end.

Definition scopeFromContext (v : option string) (hasScopedStore : bool) : string :=
  match v with
  | Some s => s
  | None => if hasScopedStore then "" else "admin"
  end.

(** ** handleRPC *)

Record rpcRequest := mkRpc {
  rq_jsonrpc : string; rq_method : string; rq_params : RawMessage; rq_id : RawMessage }.

(** What reading the body gives. *)
Inductive http_body := BodyTooLarge | BodyError | BodyInvalid | BodyRpc (r : rpcRequest).
Record http_request := mkHttp { h_authorization : string; h_mime : string; h_body : http_body }.

(** A problem document, or a JSON-RPC envelope with status 200. *)
Inductive http_reply :=
| Problem (status code : Z) (msg : string)
| RpcError (code : Z) (msg : string)
| RpcResult (result : json).

(** The answer to a dispatched call. *)
Definition rpc_reply (r : result json) : http_reply :=
  match r with
  | Err e => let '(code, msg) := RPCWire (Some e) in RpcError code msg
  | Ok j => RpcResult j
  end.

Context {S : Type}.
Variable dispatch : string -> RawMessage -> S -> result json * S.

Definition is_scoped (a : Authenticator) : bool :=
  match a with ScopedAuth _ => true | _ => false end.

Definition handleRPC (f : fault) (now : time) (a : Authenticator) (h : http_request)
    (st : TokenStore * S) : http_reply * (TokenStore * S) :=
  let '(auth, tokens) := auth_Verify f now a (h_authorization h) st.1 in
  let st := (tokens, st.2) in
  match auth with
  | Err _ => (Problem 401 (-32099) "unauthorized", st)
  | Ok granted =>
    if negb (h_mime h =? "application/json")%string
    then (Problem 415 (-32700) "Content-Type must be application/json", st)
    else
      match h_body h with
      | BodyTooLarge => (Problem 413 (-32004) "request body exceeds 1 MiB", st)
      | BodyError => (Problem 400 (-32700) "read body: ", st)
      | BodyInvalid => (Problem 400 (-32700) "parse error: ", st)
      | BodyRpc req =>
        if negb (rq_jsonrpc req =? "2.0")%string
        then (Problem 400 (-32600) "jsonrpc field must be 2.0", st)
        else if str_empty (rq_method req) then (Problem 400 (-32600) "method field is required", st)
        else if is_scoped a
                && negb (AllowedScope (rq_method req) (rq_params req)
                           (Scope_MethodScope (scopeFromContext granted true)))
        then (Problem 403 (-32099) "scope insufficient for method", st)
        else if negb (bool_decide (is_Some (rq_id req)))
        then (Problem 400 (-32600) "id field is required (notifications not supported)", st)
        else
          let '(r, s) := dispatch (rq_method req) (rq_params req) st.2 in
          (rpc_reply r, (tokens, s))
      end
  end.

End Gate.

(** ** The gate *)

Definition is_problem (r : http_reply) : bool := match r with Problem _ _ _ => true | _ => false end.

Lemma rpc_reply_envelope r : is_problem (rpc_reply r) = false.
Proof. destruct r as [j|e]; [done|]. cbn [rpc_reply]. by destruct (RPCWire (Some e)). Qed.

(** The codes the request is refused with are those of [rest_codes]. *)
Lemma handleRPC_codes {S} sha256 (dispatch : string -> RawMessage -> S -> result json * S) f now a h st status code msg st' :
  handleRPC sha256 dispatch f now a h st = (Problem status code msg, st') -> code ∈ rest_codes.
Proof.
  unfold handleRPC, rest_codes. intros E. repeat case_match; simplify_eq; try set_solver;
    match goal with H : rpc_reply ?r = _ |- _ => by pose proof (rpc_reply_envelope r) as Hr; rewrite H in Hr end.
Qed.

Section GateFacts.
  Variable sha256 : string -> string.

Lemma row_by_hash_some h t id r : row_by_hash h t = Some (id, r) -> t !! id = Some r /\ tk_hash r = h.
Proof.
  unfold row_by_hash. intros [Hin He]%find_some. cbn in He. apply String.eqb_eq in He.
  split; [|done]. by apply elem_of_map_to_list, list_elem_of_In.
Qed.

Lemma row_by_hash_none h t id r : row_by_hash h t = None -> t !! id = Some r -> tk_hash r <> h.
Proof.
  unfold row_by_hash. intros Hn Hr He. apply elem_of_map_to_list, list_elem_of_In in Hr.
  pose proof (find_none _ _ Hn _ Hr) as H. cbn in H. by rewrite He, String.eqb_refl in H.
Qed.

(** A verified token: an active row of the store. *)
Definition active_token (now : time) (t scope : string) (s : TokenStore) : Prop :=
  exists id r, ts_rows s !! id = Some r /\ tk_hash r = sha256 t /\ tk_scope r = scope
  /\ tk_revoked r = None /\ (tk_expires r <= 0 \/ now <= of_unix (tk_expires r)).

Lemma tokens_Verify_ok f now t s scope id s' :
  tokens_Verify sha256 f now t s = (Ok (scope, id), s') ->
  active_token now t scope s /\ ts_rows s' = ts_rows s.
Proof.
  unfold tokens_Verify. destruct (str_empty t); [done|].
  destruct (fails_at f SQuery); [done|].
  destruct (row_by_hash (sha256 t) (ts_rows s)) as [[id' r]|] eqn:E; [|done].
  destruct (negb _); [done|]. destruct (bool_decide _) eqn:Er; [done|].
  destruct (_ && _) eqn:Ex; [done|]. intros [= <- <- <-]. split; [|done].
  apply row_by_hash_some in E as [Hr Hh]. exists id', r. repeat split; auto.
  - apply bool_decide_eq_false in Er. destruct (tk_revoked r); [by destruct Er|done].
  - unfold tok_ExpiresAt in Ex. destruct (Z.ltb_spec 0 (tk_expires r)); [|by left]. right.
    apply andb_false_iff in Ex as [Ex|Ex]; [|unfold after in Ex; bprop; lia].
    apply negb_false_iff in Ex. unfold is_zero_time, zero_time, of_unix, second in Ex. bprop. lia.
Qed.

Lemma tokens_Verify_rows f now t s : ts_rows (tokens_Verify sha256 f now t s).2 = ts_rows s.
Proof.
  unfold tokens_Verify. destruct (str_empty t); [done|]. destruct (fails_at f SQuery); [done|].
  destruct (row_by_hash _ _) as [[id r]|]; [|done].
  destruct (negb _); [done|]. destruct (bool_decide _); [done|]. by destruct (_ && _).
Qed.

(** Who a request comes from, by its Authorization header: with the one
    configured token the operator ([None]), over a token store the scope of
    the active row the bearer token belongs to. *)
Definition authenticated (now : time) (a : Authenticator) (hdr : string) (tokens : TokenStore)
    (who : option string) : Prop :=
  exists t, presented hdr = Some t
  /\ match a, who with
     | EnvTokenAuth expected enabled, None => enabled = true /\ sha256 t = expected
     | ScopedAuth wired, Some scope => wired = true /\ active_token now t scope tokens
     | _, _ => False
     end.
Definition grants (who : option string) : Z :=
  match who with None => ScopeAdmin | Some scope => Scope_MethodScope scope end.

Lemma auth_Verify_ok f now a hdr s who s' :
  auth_Verify sha256 f now a hdr s = (Ok who, s') -> authenticated now a hdr s who.
Proof.
  unfold auth_Verify, env_Verify, scoped_Verify, authenticated. destruct a as [h [|]|[|]]; cbn [negb]; [| done | |done].
  - destruct (presented hdr) as [t|]; [|done]. destruct (String.eqb_spec (sha256 t) h); [|done].
    intros [= <- _]. by exists t.
  - destruct (presented hdr) as [t|]; [|done].
    destruct (tokens_Verify sha256 f now t s) as [[[scope id]|e] tk] eqn:Ev; [|done].
    intros [= <- _]. apply tokens_Verify_ok in Ev as [Hact _]. by exists t.
Qed.

(** Methods of the dispatcher that write to WhatsApp through the policy, and
    those that write past it. *)
Definition writing_methods : list string := gated_methods ++ ungated_methods ++ ungated_labels.
Definition writes_whatsapp (method : string) : bool := existsb (String.eqb method) writing_methods.
Lemma writes_need_send method params required :
  writes_whatsapp method = true -> RequiredScope method params = Some required -> ScopeSend <= required.
Proof.
  unfold writes_whatsapp. intros (x & Hin & ->%String.eqb_eq)%existsb_exists.
  assert (Hall : forallb (fun m => match assoc MethodScopes m with Some r => ScopeSend <=? r | None => true end)
                   writing_methods = true) by (vm_compute; reflexivity).
  rewrite forallb_forall in Hall. specialize (Hall _ Hin). unfold RequiredScope.
  destruct (assoc MethodScopes x) as [r|]; [|done]. bprop.
  destruct (_ && _); intros [= <-]; [done|lia].
Qed.

(** C17. The gate of POST /v1/rpc, in both modes: the dispatcher runs only for a
    JSON-RPC 2.0 call with an id from an authenticated caller, the operator
    with the one configured token, or the bearer of a stored token that is
    neither revoked nor past its expiry and whose scope covers the method with
    these params (for a method that writes to WhatsApp, send at least); every
    other request is answered with a problem document and leaves the
    dispatcher's state alone.  The /mcp endpoint of the same server does not
    pass here: C19. *)
Theorem rest_gate_sound {S} (dispatch : string -> RawMessage -> S -> result json * S)
    (f : fault) (now : time) (a : Authenticator) (h : http_request) (tokens tokens' : TokenStore) (s s' : S)
    (rep : http_reply) :
  handleRPC sha256 dispatch f now a h (tokens, s) = (rep, (tokens', s')) ->
  if is_problem rep then s' = s
  else exists who req,
    authenticated now a (h_authorization h) tokens who
    /\ h_body h = BodyRpc req /\ rq_jsonrpc req = "2.0"%string /\ is_Some (rq_id req)
    /\ (is_Some who -> exists required, RequiredScope (rq_method req) (rq_params req) = Some required
                        /\ required <= grants who)
    /\ (writes_whatsapp (rq_method req) = true -> ScopeSend <= grants who)
    /\ s' = (dispatch (rq_method req) (rq_params req) s).2.
Proof.
  unfold handleRPC. cbn [fst snd].
  destruct (auth_Verify sha256 f now a (h_authorization h) tokens) as [[who|e] tk] eqn:Ev; [|by intros [= <- <- <-]].
  apply auth_Verify_ok in Ev.
  destruct (negb (h_mime h =? _)%string); [by intros [= <- <- <-]|].
  destruct (h_body h) as [| | |req] eqn:Eb; [by intros [= <- <- <-]..|].
  destruct (negb (rq_jsonrpc req =? _)%string) eqn:Ej; [by intros [= <- <- <-]|].
  destruct (str_empty (rq_method req)); [by intros [= <- <- <-]|].
  destruct (is_scoped a && _) eqn:Ea; [by intros [= <- <- <-]|].
  destruct (negb (bool_decide (is_Some (rq_id req)))) eqn:Ei; [by intros [= <- <- <-]|].
  destruct (dispatch (rq_method req) (rq_params req) s) as [r s1] eqn:Ed.
  intros Heq. injection Heq as Hrep _ <-. bprop. apply String.eqb_eq in Ej.
  assert (Hnp : is_problem rep = false) by (subst rep; apply rpc_reply_envelope). rewrite Hnp.
  assert (Hcov : is_Some who -> exists required, RequiredScope (rq_method req) (rq_params req) = Some required
                        /\ required <= grants who).
  { intros [scope ->]. destruct Ev as (t & _ & Ev). destruct a as [|w]; [done|].
    cbn [is_scoped andb scopeFromContext] in Ea. apply negb_false_iff in Ea. unfold AllowedScope in Ea.
    destruct (RequiredScope _ _) as [required|]; [|done]. exists required. split; [done|]. by apply Z.leb_le. }
  exists who, req. rewrite Ed. split_and!; [done..| |done]. intros Hw.
  destruct who as [scope|]; [|done]. destruct Hcov as (required & Hr & Hle); [done|].
  pose proof (writes_need_send _ _ _ Hw Hr). lia.
Qed.

(** *** Revocation is final *)

Inductive token_op :=
| TIssue (now : time) (raw id name scope : string) (ttl : Z)
| TVerify (now : time) (t : string)
| TRevoke (now : time) (id : string)
| TSweep (now : time) (olderThan : Z)
| TFlush.

Definition token_step (f : fault) (o : token_op) (s : TokenStore) : TokenStore :=
  match o with
  | TIssue now raw id name scope ttl => (Issue sha256 f now raw id name scope ttl s).2
  | TVerify now t => (tokens_Verify sha256 f now t s).2
  | TRevoke now id => (tokens_Revoke f now id s).2
  | TSweep now older => (tokens_Sweep f now older s).2
  | TFlush => (flushPending f s).2
  end.

(** No active row carries the hash [h]. *)
Definition dead (h : string) (s : TokenStore) : Prop :=
  forall id r, ts_rows s !! id = Some r -> tk_hash r = h -> is_Some (tk_revoked r).

Lemma dead_verify f now t s : dead (sha256 t) s -> is_ok (tokens_Verify sha256 f now t s).1 = false.
Proof.
  intros Hd. destruct (tokens_Verify sha256 f now t s) as [[[scope id]|e] s'] eqn:E; [|done].
  destruct (tokens_Verify_ok _ _ _ _ _ _ _ E) as [(id' & r & Hr & Hh & _ & Hn & _) _].
  destruct (Hd _ _ Hr Hh) as [x Hx]. by rewrite Hn in Hx.
Qed.

Lemma dead_step f o h s : dead h s ->
  (match o with TIssue _ raw _ _ _ _ => sha256 (hex_encode raw) <> h | _ => True end) ->
  dead h (token_step f o s).
Proof.
  intros Hd Ho. destruct o as [now raw id name scope ttl|now t|now id|now older|]; cbn [token_step].
  - unfold Issue. destruct (negb _); [done|]. cbn zeta. destruct (str_empty _); [done|].
    destruct (fails_at f SExec); [done|]. destruct (ts_rows s !! id) as [r0|]; [done|].
    destruct (row_by_hash _ _); [done|]. intros id' r. cbn.
    destruct (decide (id' = id)) as [->|]; [rewrite lookup_insert_eq|rewrite lookup_insert_ne by done].
    + intros [= <-] Hh. by destruct Ho.
    + apply Hd.
  - intros id r. rewrite tokens_Verify_rows. apply Hd.
  - unfold tokens_Revoke. destruct (fails_at f SExec); [done|].
    destruct (ts_rows s !! id) as [r0|] eqn:E; [|by destruct (fails_at f SQuery)].
    destruct (tk_revoked r0) eqn:Er; [by destruct (fails_at f SQuery)|].
    intros id' r. cbn. destruct (decide (id' = id)) as [->|];
      [rewrite lookup_insert_eq|rewrite lookup_insert_ne by done; apply Hd].
    intros [= <-] _. by eexists.
  - unfold tokens_Sweep. cbn zeta. destruct (fails_at f SExec); [done|].
    intros id r. cbn. rewrite map_lookup_filter_Some. intros [Hr _]. exact (Hd _ _ Hr).
  - unfold flushPending. destruct (decide _); [done|]. destruct f as [[[] e]|]; [done..|].
    cbn [snd]. intros id r. cbn [ts_rows].
    assert (Hfold : forall l rows, (forall id r, rows !! id = Some r -> tk_hash r = h -> is_Some (tk_revoked r)) ->
      forall id r, foldl (fun (rows : TokenTable) (kv : string * Z) =>
        (fun r => if (tk_hash r =? kv.1)%string then set_lastUsed kv.2 r else r) <$> rows) rows l !! id = Some r ->
      tk_hash r = h -> is_Some (tk_revoked r)); [|by apply Hfold].
    clear. induction l as [|kv l IH]; intros rows Hrows; [exact Hrows|]. cbn [foldl]. apply IH.
    intros id r. rewrite lookup_fmap. destruct (rows !! id) as [r0|] eqn:E; [|done].
    cbn. intros [= <-]. destruct (tk_hash r0 =? kv.1)%string; [|exact (Hrows _ _ E)].
    cbn. apply (Hrows _ _ E).
Qed.

Lemma dead_run l h : forall s, dead h s ->
  Forall (fun fo => match fo.2 with TIssue _ raw _ _ _ _ => sha256 (hex_encode raw) <> h | _ => True end) l ->
  dead h (foldl (fun s fo => token_step fo.1 fo.2 s) s l).
Proof.
  induction l as [|[f o] l IH]; intros s Hd Hall; [done|]. apply Forall_cons in Hall as [Ho Hall].
  cbn [foldl]. apply IH; [|done]. by apply dead_step.
Qed.

(** Revocation is final: once Revoke of a token has succeeded, no later
    history of issues (of other secrets), verifications, revocations, sweeps
    and flushes, with any faults, makes that token verify again. *)
Theorem revoked_token_stays_revoked (now : time) (id t : string) (r : TokenRow) (s s1 : TokenStore)
    (l : list (fault * token_op)) (f : fault) (later : time) :
  (forall i j ri rj, ts_rows s !! i = Some ri -> ts_rows s !! j = Some rj ->
     tk_hash ri = tk_hash rj -> i = j) ->
  ts_rows s !! id = Some r -> tk_hash r = sha256 t ->
  tokens_Revoke None now id s = (Ok tt, s1) ->
  Forall (fun fo => match fo.2 with TIssue _ raw _ _ _ _ => sha256 (hex_encode raw) <> sha256 t | _ => True end) l ->
  is_ok (tokens_Verify sha256 f later t (foldl (fun s fo => token_step fo.1 fo.2 s) s1 l)).1 = false.
Proof.
  intros Hu Hr Hh Hv Hl. apply dead_verify, dead_run; [|done].
  unfold tokens_Revoke in Hv. cbn [fails_at] in Hv. rewrite Hr in Hv.
  intros id' r'. destruct (tk_revoked r) as [x|] eqn:Er; injection Hv as <-.
  - intros Hr' Hh'. assert (id' = id) as -> by (eapply Hu; [done|done|congruence]).
    rewrite Hr in Hr'. injection Hr' as <-. by eexists.
  - cbn. destruct (decide (id' = id)) as [->|Hne].
    + rewrite lookup_insert_eq. intros [= <-] _. by eexists.
    + rewrite lookup_insert_ne by done. intros Hr' Hh'. exfalso. apply Hne.
      eapply Hu; [done|done|congruence].
Qed.

End GateFacts.

(** ** The gate in front of the dispatcher *)

Section SelfRevoke.
  Context {B A W : Type} `{RateBucket B, AllowlistPort A, Ports W}.

(** No tombstone for the other participants. *)
Definition no_everyone (al : A) (e : event) : Prop :=
  match e with EvOut (ORevoke _ _ scope) => scope = RevokeSelf | _ => True end.

Abbreviation T0 := (triple (B:=B) (A:=A) (W:=W) no_everyone).

Lemma T0_lift {X Y} al n (r : result X) (k : X -> M B A W Y) Q :
  (forall x, r = Ok x -> T0 al n (k x) Q) -> T0 al n (mbind (lift r) k) Q.
Proof. intros Hk. eapply triple_bind0; [apply triple_lift|exact Hk]. Qed.

Ltac t0step :=
  match goal with
  | |- triple _ _ _ (mret _) _ => apply triple_ret; try done
  | |- triple _ _ _ (mfail _) _ => apply triple_fail
  | |- triple _ _ _ (mguard _ _ _) _ => apply triple_guard; intros ?
  | |- triple _ _ _ (mbind (lift _) _) _ => apply T0_lift; intros ? ?
  | |- triple _ _ _ (mbind (mtry (do_ask _)) _) _ =>
      eapply triple_bind0; [apply triple_try, triple_ask; exact I|intros ? _]
  | |- triple _ _ _ (mbind (do_audit _) _) _ =>
      eapply triple_bind0; [apply triple_audit; intros; exact I|intros _ _]
  | |- triple _ _ _ (mbind (recordAudit _ _ _) _) _ => unfold recordAudit
  | |- triple _ _ _ (mbind (recordSafetyAudit _ _ _) _) _ => unfold recordSafetyAudit
  | |- triple _ _ _ (mbind (recordModerationAudit _ _ _ _) _) _ => unfold recordModerationAudit
  | |- triple _ _ _ (match ?x with _ => _ end) _ => destruct x eqn:?
  | |- triple _ _ _ (let '(_, _) := ?x in _) _ => destruct x
  end.

Lemma T0_ensureOnWhatsApp al j : T0 al 0 (ensureOnWhatsApp j) (fun _ => True).
Proof. unfold ensureOnWhatsApp. repeat t0step. Qed.

Lemma T0_checkSafety al j a : T0 al 0 (checkSafetyAndAudit j a) (fun _ => True).
Proof.
  unfold checkSafetyAndAudit. eapply triple_bind0; [apply triple_safety|].
  intros [[]|e] _; [|repeat t0step]. destruct (a =? ActionSend); [|by t0step].
  eapply triple_bind0; [apply triple_try, T0_ensureOnWhatsApp|].
  intros [[]|e] _; repeat t0step.
Qed.

(** Two decodings of the same params agree on [scope]. *)
Lemma revoke_scope_agrees params p : revokeIsSelfScoped params = true ->
  parseParams dec_revokeParams params = Ok p ->
  str_empty (rv_Scope p) = false /\ ParseRevokeScope (rv_Scope p) = Ok RevokeSelf.
Proof.
  unfold revokeIsSelfScoped. destruct params as [v|]; [|done]. unfold parseParams, dec_revokeParams.
  assert (Hm : forall m, match (match field dec_str "" "scope" m with Some p0 => Ok p0
      | None => Err (ERpc app.ErrInvalidParams) end : result string) with
    | Ok scope => if str_empty scope then false
        else match ParseRevokeScope scope with Ok sc => sc =? RevokeSelf | Err _ => false end
    | Err _ => false end = true ->
    match (chat ← field dec_str "" "chat" m; id ← field dec_str "" "messageId" m;
           scope ← field dec_str "" "scope" m; Some (mkRevokeParams chat id scope)) with
    | Some p0 => Ok p0 | None => Err (ERpc app.ErrInvalidParams) end = Ok p ->
    str_empty (rv_Scope p) = false /\ ParseRevokeScope (rv_Scope p) = Ok RevokeSelf).
  { intros m. destruct (field dec_str "" "scope" m) as [scope|]; [|done].
    destruct (field dec_str "" "chat" m) as [chat|]; [|done].
    destruct (field dec_str "" "messageId" m) as [mid|]; [|done]. cbn.
    destruct (str_empty scope) eqn:Ee; [done|]. destruct (ParseRevokeScope scope) as [sc|] eqn:Ep; [|done].
    intros ->%Z.eqb_eq [= <-]. cbn. done. }
  destruct v; try done; apply Hm.
Qed.

(** The one narrowing of the scope table is safe: when the gate lets a
    send-scope token call message.revoke, the dispatcher never performs a
    revoke for everyone, because both read the same scope from the same
    params.  A send token can only hide a message from its own view. *)
Theorem send_scope_revokes_only_self (elsewhere : component -> string -> RawMessage -> M B A W json) (params : RawMessage) (st : St B A W) :
  AllowedScope "message.revoke" params ScopeSend = true ->
  exists evs, st_trace (Handle elsewhere "message.revoke" params st).2 = st_trace st ++ evs
  /\ Forall (fun e => match e with EvOut (ORevoke _ _ scope) => scope = RevokeSelf | _ => True end) evs.
Proof.
  intros Ha. unfold AllowedScope, RequiredScope in Ha.
  change (assoc MethodScopes "message.revoke") with (Some ScopeAdmin) in Ha.
  change ("message.revoke" =? revokeMethod)%string with true in Ha. cbn [andb] in Ha.
  destruct (revokeIsSelfScoped params) eqn:Es; [|done].
  assert (Ht : T0 (sp_allowlist (st_safety st)) 0 (doMessageRevoke params) (fun _ => True)).
  { unfold doMessageRevoke. t0step. t0step.
    destruct (revoke_scope_agrees params x Es) as [He Hp]; [done|].
    t0step. rewrite He, Hp. t0step. eapply triple_bind0; [apply T0_checkSafety|]. intros _ _.
    eapply triple_bind0; [apply triple_try, (triple_op (B:=B) no_everyone _ (ORevoke _ _ _)); done|].
    intros [u|e] _; repeat t0step. }
  change (Handle elsewhere "message.revoke" params) with (doMessageRevoke (B:=B) (A:=A) (W:=W) params).
  destruct (Ht st eq_refl) as (evs & _ & Htr & Hf & _). by exists evs.
Qed.

End SelfRevoke.

(** ** Witnesses *)

Definition demo_tokens : TokenStore :=
  mkTokenStore {["T1"%string := mkTokenRow "secret" "cli" "send" 1000 0 None None]} ∅.
Definition demo_http : http_request :=
  mkHttp "Bearer secret" "application/json" (BodyRpc (mkRpc "2.0" "send" (Some (JObj [])) (Some (JNum "1")))).

Lemma rest_gate_sound_witness :
  (handleRPC id (fun _ _ (n : Z) => (Ok JNull, n + 1)) None (of_unix 2000) (ScopedAuth true) demo_http
     (demo_tokens, 5)).2.2 = 6
  /\ (handleRPC id (fun _ _ (n : Z) => (Ok JNull, n + 1)) None (of_unix 2000) (NewEnvTokenAuth id "secret") demo_http
     (demo_tokens, 5)).2.2 = 6.
Proof.
  assert (Hw : forall a, is_problem (handleRPC id (fun _ _ (n : Z) => (Ok JNull, n + 1)) None (of_unix 2000)
      a demo_http (demo_tokens, 5)).1 = false ->
    (handleRPC id (fun _ _ (n : Z) => (Ok JNull, n + 1)) None (of_unix 2000) a demo_http (demo_tokens, 5)).2.2 = 6).
  { intros a Hp. destruct (handleRPC _ _ _ _ _ _ _) as [rep [tk s']] eqn:E.
    pose proof (rest_gate_sound id (fun _ _ (n : Z) => (Ok JNull, n + 1)) None (of_unix 2000) a demo_http
      demo_tokens tk 5 s' rep E) as Hg.
    cbn in Hp. rewrite Hp in Hg. destruct Hg as (who & req & _ & _ & _ & _ & _ & _ & ->). reflexivity. }
  split; apply Hw; vm_compute; reflexivity.
Defined.

Lemma revoked_token_stays_revoked_witness :
  is_ok (tokens_Verify id None (of_unix 3000) "secret"
    (token_step id None (TIssue (of_unix 2500) "other" "T2" "bot" "read" 0)
       (tokens_Revoke None (of_unix 2000) "T1" demo_tokens).2)).1 = false.
Proof.
  apply (revoked_token_stays_revoked id (of_unix 2000) "T1" "secret"
    (mkTokenRow "secret" "cli" "send" 1000 0 None None) demo_tokens
    (tokens_Revoke None (of_unix 2000) "T1" demo_tokens).2
    [(None, TIssue (of_unix 2500) "other" "T2" "bot" "read" 0)]).
  - intros i j ri rj. cbn. rewrite !lookup_singleton_Some. by intros [<- _] [<- _].
  - reflexivity.
  - reflexivity.
  - reflexivity.
  - constructor; [discriminate|constructor].
Defined.

Lemma send_scope_revokes_only_self_witness :
  exists evs, st_trace (Handle demo_elsewhere "message.revoke"
      (Some (JObj [("chat", JStr "+5511999990000"); ("messageId", JStr "3EB0"); ("scope", JStr "self")]%string))
      (demo_state (Allowlist_Grant NewAllowlist demo_user [ActionRevoke]))).2 = [] ++ evs
    /\ evs <> [].
Proof.
  destruct (send_scope_revokes_only_self demo_elsewhere
    (Some (JObj [("chat", JStr "+5511999990000"); ("messageId", JStr "3EB0"); ("scope", JStr "self")]%string))
    (demo_state (Allowlist_Grant NewAllowlist demo_user [ActionRevoke]))) as (evs & Ht & _);
    [vm_compute; reflexivity|].
  exists evs. split; [exact Ht|]. intros ->. vm_compute in Ht. discriminate Ht.
Defined.
