(* ===== verification/EventRing.v ===== *)
(** * The durable event ring

    The [app.EventBuffer] port and its two stores: the in-memory ring of
    [internal/adapters/secondary/memory/eventbuffer.go] and the SQLite table
    of [internal/adapters/secondary/sqliteevents/buffer.go].  The table is its
    rows in rowid order, which is how the B-tree of an [INTEGER PRIMARY KEY]
    lists them, together with the AUTOINCREMENT high-water mark and the
    [events_meta] drop counter.  [ring_spec] is what the port promises: the
    accepted records in order, and how many of the oldest are gone. *)
From S2P Require Import Prelude GoStd Errors Draft.

#[local] Open Scope Z_scope.

(** ** ports_017.go *)

Record EventRecord := mkEventRecord {
  er_Seq : Z; er_Kind : string; er_TrustedJSON : string; er_UntrustedJSON : string;
  er_CreatedAt : time }.

Record BufferStats := mkBufferStats {
  bs_Size : Z; bs_Capacity : Z; bs_OldestSeq : Z; bs_NewestSeq : Z; bs_DroppedTotal : Z }.

Definition with_seq (seq : Z) (r : EventRecord) : EventRecord :=
  mkEventRecord seq (er_Kind r) (er_TrustedJSON r) (er_UntrustedJSON r) (er_CreatedAt r).

(** ** memory/eventbuffer.go *)

Record EventBuffer := mkEventBuffer {
  eb_ring : list EventRecord; eb_capacity : Z; eb_nextSeq : Z;
  eb_oldestSeq : Z; eb_newestSeq : Z; eb_droppedTotal : Z }.

Definition NewEventBuffer (capacity : Z) : EventBuffer :=
  mkEventBuffer [] (if capacity <=? 0 then 10000 else capacity) 0 0 0 0.

Definition head_seq (l : list EventRecord) : Z :=
  match l with [] => 0 | r :: _ => er_Seq r end.

Definition eb_Append (ctx : option goerr) (rec : EventRecord) (b : EventBuffer)
    : check goerr * EventBuffer :=
  match ctx with
  | Some e => (Err e, b)
  | None =>
    let '(rec, next) :=
      if er_Seq rec =? 0
      then (with_seq (wrap64 (eb_nextSeq b + 1)) rec, wrap64 (eb_nextSeq b + 1))
      else (rec, if eb_nextSeq b <? er_Seq rec then er_Seq rec else eb_nextSeq b) in
    let '(ring, dropped) :=
      if eb_capacity b <=? Z.of_nat (length (eb_ring b))
      then (drop 1 (eb_ring b), wrap64 (eb_droppedTotal b + 1))
      else (eb_ring b, eb_droppedTotal b) in
    let ring := ring ++ [rec] in
    (Ok tt, mkEventBuffer ring (eb_capacity b) next (head_seq ring) (er_Seq rec) dropped)
  end.

(** The loop of [Range]: skip up to the cursor, stop at [limit] rows. *)
Fixpoint range_loop (since limit : Z) (l out : list EventRecord) : list EventRecord :=
  match l with
  | [] => out
  | r :: l =>
    if er_Seq r <=? since then range_loop since limit l out
    else let out := out ++ [r] in
         if limit <=? Z.of_nat (length out) then out else range_loop since limit l out
  end.

Definition eb_Range (ctx : option goerr) (since limit : Z) (b : EventBuffer)
    : result (list EventRecord) :=
  match ctx with
  | Some e => Err e
  | None =>
    fail_if limit <=? 0 with EWrap "" memory_ErrInvalidLimit ": limit %d" ;;
    Ok (range_loop since limit (eb_ring b) [])
  end.

Definition eb_Stats (ctx : option goerr) (b : EventBuffer) : result BufferStats :=
  match ctx with
  | Some e => Err e
  | None => Ok (mkBufferStats (Z.of_nat (length (eb_ring b))) (eb_capacity b)
                  (eb_oldestSeq b) (eb_newestSeq b) (eb_droppedTotal b))
  end.

Fixpoint trim_cut (seq : Z) (l : list EventRecord) : nat :=
  match l with
  | [] => 0
  | r :: l => if er_Seq r <=? seq then S (trim_cut seq l) else 0
  end.

Definition eb_TrimTo (ctx : option goerr) (seq : Z) (b : EventBuffer) : result Z * EventBuffer :=
  match ctx with
  | Some e => (Err e, b)
  | None =>
    let cut := trim_cut seq (eb_ring b) in
    let ring := drop cut (eb_ring b) in
    (Ok (Z.of_nat cut),
     mkEventBuffer ring (eb_capacity b) (eb_nextSeq b) (head_seq ring) (eb_newestSeq b)
       (eb_droppedTotal b))
  end.

(** ** sqliteevents/buffer.go *)

Record EventTable := mkEventTable {
  et_rows : list EventRecord; et_autoinc : Z; et_dropped : Z; et_capacity : Z }.

Definition DefaultCapacity : Z := 10000.
Definition events_Open (capacity : Z) : EventTable :=
  mkEventTable [] 0 0 (if capacity <=? 0 then DefaultCapacity else capacity).

(** [INSERT] at a given rowid: [None] when the key is taken. *)
Fixpoint row_insert (r : EventRecord) (l : list EventRecord) : option (list EventRecord) :=
  match l with
  | [] => Some [r]
  | x :: l' =>
    if er_Seq r <? er_Seq x then Some (r :: l)
    else if er_Seq r =? er_Seq x then None
    else option_map (cons x) (row_insert r l')
  end.

(** What a row keeps of a record: the columns the insert writes, read back. *)
Definition stored (now : time) (r : EventRecord) : EventRecord :=
  let createdAt := if is_zero_time (er_CreatedAt r) then now else er_CreatedAt r in
  let trusted := if str_empty (er_TrustedJSON r) then "{}"%string else er_TrustedJSON r in
  mkEventRecord (er_Seq r) (er_Kind r) trusted (er_UntrustedJSON r) (of_unix (unix createdAt)).

Definition sqlite_max_rowid : Z := 2 ^ 63 - 1.

Definition et_insert (now : time) (rec : EventRecord) (t : EventTable)
    : option (list EventRecord * Z) :=
  if er_Seq rec =? 0 then
    if sqlite_max_rowid <=? et_autoinc t then None
    else let seq := et_autoinc t + 1 in
         (fun rows => (rows, seq)) <$> row_insert (stored now (with_seq seq rec)) (et_rows t)
  else (fun rows => (rows, Z.max (et_autoinc t) (er_Seq rec)))
         <$> row_insert (stored now rec) (et_rows t).

(** The statements of the transaction of [Append], any of which can fail;
    the deferred rollback then leaves the table as it was. *)
Inductive append_stage := ABegin | AInsert | ACount | ADropOldest | ABumpDropped | ACommit.
#[global] Instance append_stage_eq_dec : EqDecision append_stage.
Proof. solve_decision. Defined.
Abbreviation append_fault := (option (append_stage * goerr)).
Definition fails_in (f : append_fault) (s : append_stage) : option goerr :=
  match f with Some (s', e) => if bool_decide (s' = s) then Some e else None | None => None end.

Definition evict (f : append_fault) (rows : list EventRecord) (t : EventTable)
    : result (list EventRecord * Z) :=
  let count := Z.of_nat (length rows) in
  if et_capacity t <? count then
    let dropN := count - et_capacity t in
    match fails_in f ADropOldest, fails_in f ABumpDropped with
    | Some e, _ => Err (wrapc "sqliteevents: drop oldest" e)
    | None, Some e => Err (wrapc "sqliteevents: bump dropped" e)
    | None, None => Ok (drop (Z.to_nat dropN) rows, et_dropped t + dropN)
    end
  else Ok (rows, et_dropped t).

Definition insert_ctx (rec : EventRecord) : string :=
  if er_Seq rec =? 0 then "sqliteevents: insert" else "sqliteevents: insert seq=%d".

Definition et_Append (ctx : option goerr) (f : append_fault) (now : time) (rec : EventRecord)
    (t : EventTable) : check goerr * EventTable :=
  match ctx with
  | Some e => (Err e, t)
  | None =>
    if str_empty (er_Kind rec) then (Err (ENew "sqliteevents: append: empty kind"), t)
    else
      match fails_in f ABegin with
      | Some e => (Err (wrapc "sqliteevents: append tx" e), t)
      | None =>
        match fails_in f AInsert, et_insert now rec t with
        | Some e, _ => (Err (wrapc (insert_ctx rec) e), t)
        | None, None => (Err (wrapc (insert_ctx rec) (ENew "constraint failed")), t)
        | None, Some (rows, autoinc) =>
          match fails_in f ACount with
          | Some e => (Err (wrapc "sqliteevents: count" e), t)
          | None =>
            match evict f rows t with
            | Err e => (Err e, t)
            | Ok (rows, dropped) =>
              match fails_in f ACommit with
              | Some e => (Err (wrapc "sqliteevents: append commit" e), t)
              | None => (Ok tt, mkEventTable rows autoinc dropped (et_capacity t))
              end
            end
          end
        end
      end
  end.

Definition sqliteevents_ErrInvalidLimit : goerr := ENew "sqliteevents: invalid limit".

Definition newer (since : Z) (r : EventRecord) : bool := since <? er_Seq r.

Definition et_Range (ctx : option goerr) (f : fault) (since limit : Z) (t : EventTable) : result (list EventRecord) :=
  match ctx with
  | Some e => Err e
  | None =>
    fail_if limit <=? 0 with EWrap "" sqliteevents_ErrInvalidLimit ": %d" ;;
    match fails_at f SQuery with
    | Some e => Err (wrapc "sqliteevents: range" e)
    | None => Ok (take (Z.to_nat limit) (List.filter (newer since) (et_rows t)))
    end
  end.

Definition et_Stats (ctx : option goerr) (f : fault) (t : EventTable) : result BufferStats :=
  match ctx with
  | Some e => Err e
  | None =>
    match fails_at f SQuery with
    | Some e => Err (wrapc "sqliteevents: stats" e)
    | None =>
      Ok (mkBufferStats (Z.of_nat (length (et_rows t))) (et_capacity t) (head_seq (et_rows t))
            (match last (et_rows t) with Some r => er_Seq r | None => 0 end) (et_dropped t))
    end
  end.

Definition et_TrimTo (ctx : option goerr) (f : fault) (seq : Z) (t : EventTable) : result Z * EventTable :=
  match ctx with
  | Some e => (Err e, t)
  | None =>
    match fails_at f SExec with
    | Some e => (Err (wrapc "sqliteevents: trim" e), t)
    | None =>
      let rows := List.filter (newer seq) (et_rows t) in
      (Ok (Z.of_nat (length (et_rows t) - length rows)),
       mkEventTable rows (et_autoinc t) (et_dropped t) (et_capacity t))
    end
  end.

(** [SyntheticDrop]: the gap a resume from [sinceSeq] cannot fill, as the
    [(gap, from, to, dropped_total)] of the record's payload. *)
Definition SyntheticDrop (sinceSeq oldestSeq dropped : Z) : option (Z * Z * Z * Z) :=
  if (oldestSeq =? 0) || (oldestSeq <=? wrap64 (sinceSeq + 1)) then None
  else Some (wrap64 (oldestSeq - sinceSeq - 1), wrap64 (sinceSeq + 1),
             wrap64 (oldestSeq - 1), dropped).

(** ** The contract *)

Inductive ring_op :=
| OpAppend (now : time) (rec : EventRecord)
| OpTrim (seq : Z).

(** Every record accepted so far, stamped, with the clock it was stored at;
    the number of the oldest that are gone; those evicted by capacity. *)
Record ring_spec := mkRingSpec { rs_log : list (time * EventRecord); rs_base : nat; rs_dropped : Z }.

Definition log_next (log : list (time * EventRecord)) : Z :=
  match last log with Some x => er_Seq x.2 | None => 0 end.

Definition rs_retained (s : ring_spec) : list (time * EventRecord) := drop (rs_base s) (rs_log s).

Definition spec_step (cap : nat) (s : ring_spec) (o : ring_op) : ring_spec :=
  match o with
  | OpAppend now rec =>
    let rec := if er_Seq rec =? 0 then with_seq (log_next (rs_log s) + 1) rec else rec in
    let log := rs_log s ++ [(now, rec)] in
    let over := (length log - rs_base s - cap)%nat in
    mkRingSpec log (rs_base s + over) (rs_dropped s + Z.of_nat over)
  | OpTrim seq =>
    mkRingSpec (rs_log s)
      (Nat.max (rs_base s) (length (List.filter (fun x => er_Seq x.2 <=? seq) (rs_log s))))
      (rs_dropped s)
  end.

Definition spec_run (cap : nat) : list ring_op -> ring_spec :=
  foldl (spec_step cap) (mkRingSpec [] 0 0).

(** A record the pump appends: a kind, and a seq that is unset or above
    every earlier one (the bridge's counter). *)
Definition op_ok (cap : nat) (s : ring_spec) (o : ring_op) : Prop :=
  match o with
  | OpAppend _ rec =>
    er_Kind rec <> ""%string /\
    (er_Seq rec = 0 \/ log_next (rs_log s) < er_Seq rec) /\
    log_next (rs_log s) < 2 ^ 63 - 1 /\ er_Seq rec < 2 ^ 63 /\
    Z.of_nat (length (rs_log s)) < 2 ^ 62
  | OpTrim _ => True
  end.

Fixpoint ops_ok (cap : nat) (s : ring_spec) (h : list ring_op) : Prop :=
  match h with
  | [] => True
  | o :: h => op_ok cap s o /\ ops_ok cap (spec_step cap s o) h
  end.

Definition mem_step (b : EventBuffer) (o : ring_op) : EventBuffer :=
  match o with
  | OpAppend _ rec => (eb_Append None rec b).2
  | OpTrim seq => (eb_TrimTo None seq b).2
  end.
Definition sql_step (t : EventTable) (o : ring_op) : EventTable :=
  match o with
  | OpAppend now rec => (et_Append None None now rec t).2
  | OpTrim seq => (et_TrimTo None None seq t).2
  end.

(** ** Ascending lists *)

Section Ascending.
Context {A : Type} (key : A -> Z).

Abbreviation ascending := (StronglySorted (fun x y : A => key x < key y)).

Definition upto (k : Z) (l : list A) : list A := List.filter (fun x => key x <=? k) l.
Definition above (k : Z) (l : list A) : list A := List.filter (fun x => k <? key x) l.

Lemma above_all k l : Forall (fun x => k < key x) l -> above k l = l /\ upto k l = [].
Proof.
  induction 1 as [|x l Hx _ [IH1 IH2]]; [done|]. unfold above, upto in *. cbn.
  rewrite (proj2 (Z.ltb_lt _ _) Hx), (proj2 (Z.leb_gt _ _) Hx). by rewrite IH1.
Qed.

(** Below a cursor an ascending list is a prefix, above it a suffix. *)
Lemma ascending_cut k l : ascending l -> l = upto k l ++ above k l.
Proof.
  induction 1 as [|x l Hs IH Hx]; [done|]. unfold above, upto in *. cbn.
  destruct (Z.leb_spec (key x) k) as [Hle|Hgt].
  - rewrite (proj2 (Z.ltb_ge _ _) Hle). cbn. by f_equal.
  - rewrite (proj2 (Z.ltb_lt _ _) Hgt).
    destruct (above_all k l) as [E1 E2].
    { eapply Forall_impl; [exact Hx|]. cbn. lia. }
    unfold above, upto in E1, E2. by rewrite E1, E2.
Qed.

Lemma above_drop k l : ascending l -> above k l = drop (length (upto k l)) l.
Proof. intros H. rewrite (ascending_cut k l H) at 3. by rewrite drop_app_length. Qed.

Lemma ascending_drop n l : ascending l -> ascending (drop n l).
Proof.
  revert n. induction l as [|x l IH]; intros [|n] H; cbn; auto. inversion H; auto.
Qed.

Lemma ascending_snoc l x :
  ascending l -> (forall y, last l = Some y -> key y < key x) -> ascending (l ++ [x]).
Proof.
  induction 1 as [|y l Hs IH Hy]; intros Hx; cbn; [by repeat constructor|].
  assert (Hl : ascending (l ++ [x])).
  { apply IH. intros z Hz. apply Hx. by rewrite last_cons, Hz. }
  constructor; [done|]. apply Forall_app. split; [done|]. constructor; [|done].
  destruct (last l) as [z|] eqn:E.
  - assert (key z < key x) by (apply Hx; by rewrite last_cons, E).
    apply last_Some in E as [l' ->]. apply Forall_app in Hy as [_ Hz].
    inversion Hz; subst. cbn in *. lia.
  - apply last_None in E as ->. by apply Hx.
Qed.

Lemma upto_drop k n l : ascending l ->
  length (upto k (drop n l)) = (length (upto k l) - n)%nat.
Proof.
  revert n. induction l as [|x l IH]; intros [|n] H; cbn -[upto]; [done..|lia|].
  inversion H as [|? ? Hs Hx]; subst. rewrite (IH n Hs). unfold upto at 2. cbn.
  destruct (Z.leb_spec (key x) k); cbn; [done|].
  destruct (above_all k l) as [_ E]; [eapply Forall_impl; [exact Hx|]; cbn; lia|].
  rewrite E. unfold upto in E. by rewrite E.
Qed.

End Ascending.

Abbreviation ascending_rows := (StronglySorted (fun x y => er_Seq x < er_Seq y)).

Lemma above_app k l1 l2 : Forall (fun r => er_Seq r <= k) l1 -> Forall (fun r => k < er_Seq r) l2 ->
  above er_Seq k (l1 ++ l2) = l2.
Proof.
  intros H1 H2. induction H1 as [|x l Hx _ IH]; cbn.
  - by apply above_all.
  - unfold above in *. cbn. by rewrite (proj2 (Z.ltb_ge _ _) Hx).
Qed.

Lemma Forall_above k l : Forall (fun r => k < er_Seq r) (above er_Seq k l).
Proof. apply List.Forall_forall. intros x Hx. apply filter_In in Hx as [_ Hx]. by apply Z.ltb_lt. Qed.

Lemma Forall_upto k l : Forall (fun r => er_Seq r <= k) (upto er_Seq k l).
Proof. apply List.Forall_forall. intros x Hx. apply filter_In in Hx as [_ Hx]. by apply Z.leb_le. Qed.

Lemma sorted_app_lt (l1 l2 : list EventRecord) : ascending_rows (l1 ++ l2) ->
  Forall (fun y => Forall (fun x => er_Seq x < er_Seq y) l1) l2.
Proof.
  intros H. apply List.Forall_forall. intros y Hy. apply List.Forall_forall. intros x Hx.
  induction l1 as [|z l1 IH]; [done|]. cbn in H. inversion H as [|? ? Hs Hz]; subst.
  destruct Hx as [->|Hx]; [|by apply IH].
  rewrite List.Forall_forall in Hz. apply Hz, in_app_iff. by right.
Qed.


(** The cursor after reading [l]. *)
Definition last_seq (n : Z) (l : list EventRecord) : Z := foldl (fun m r => Z.max m (er_Seq r)) n l.

Lemma last_seq_ge n l : n <= last_seq n l /\ Forall (fun r => er_Seq r <= last_seq n l) l.
Proof.
  revert n. induction l as [|r l IH]; intros n; [split; [cbn; lia|done]|]. cbn.
  destruct (IH (Z.max n (er_Seq r))) as [H1 H2]. unfold last_seq in *. cbn.
  split; [lia|]. constructor; [lia|done].
Qed.

Lemma last_seq_lt n m l : n < m -> Forall (fun r => er_Seq r < m) l -> last_seq n l < m.
Proof. intros H1 H2. revert n H1. induction H2 as [|r l Hr _ IH]; intros n H1; cbn; [done|]. apply IH. lia. Qed.

Lemma last_seq_app n l1 l2 : last_seq n (l1 ++ l2) = last_seq (last_seq n l1) l2.
Proof. apply foldl_app. Qed.

(** Past a batch the cursor leaves exactly the rows after it. *)
Lemma above_after n cursor rows : ascending_rows rows ->
  above er_Seq (last_seq cursor (take n (above er_Seq cursor rows))) rows = drop n (above er_Seq cursor rows).
Proof.
  intros Hs. set (R := above er_Seq cursor rows).
  assert (E : rows = (upto er_Seq cursor rows ++ take n R) ++ drop n R).
  { rewrite <- app_assoc, take_drop. by apply ascending_cut. }
  rewrite E at 1. pose proof (last_seq_ge cursor (take n R)) as [G1 G2].
  rewrite E in Hs. apply sorted_app_lt in Hs.
  apply above_app.
  - apply Forall_app. split; [|done]. eapply Forall_impl; [apply Forall_upto|]. cbn. lia.
  - pose proof (Forall_drop _ n _ (Forall_above cursor rows)) as Hd. fold R in Hd.
    apply List.Forall_forall. intros y Hy. rewrite List.Forall_forall in Hs, Hd.
    apply last_seq_lt; [by apply Hd|]. specialize (Hs y Hy). by apply Forall_app in Hs as [_ Hs].
Qed.
Arguments upto {A} key k l : simpl never.
Arguments above {A} key k l : simpl never.

(** ** The stores implement the contract *)

Abbreviation log_seq := (fun x : time * EventRecord => er_Seq x.2).
Definition stored_rows (l : list (time * EventRecord)) : list EventRecord :=
  map (fun x => stored x.1 x.2) l.

Lemma stored_seq now r : er_Seq (stored now r) = er_Seq r.
Proof. done. Qed.

Lemma range_loop_spec since limit l out :
  Z.of_nat (length out) < limit ->
  range_loop since limit l out = out ++ take (Z.to_nat limit - length out) (above er_Seq since l).
Proof.
  revert out. induction l as [|r l IH]; intros out Hlen; cbn.
  - unfold above. cbn. by rewrite take_nil, app_nil_r.
  - unfold above. cbn. destruct (Z.leb_spec (er_Seq r) since) as [Hle|Hgt].
    + rewrite (proj2 (Z.ltb_ge _ _) Hle). by apply IH.
    + rewrite (proj2 (Z.ltb_lt _ _) Hgt), length_app. cbn.
      destruct (Z.to_nat limit - length out)%nat as [|m] eqn:Em; [lia|]. cbn.
      destruct (Z.leb_spec limit (Z.of_nat (length out + 1))).
      * replace m with 0%nat by lia. done.
      * rewrite IH by (rewrite length_app; cbn; lia).
        rewrite length_app, <- app_assoc. cbn. do 3 f_equal. lia.
Qed.

Lemma trim_cut_spec seq l :
  StronglySorted (fun x y => er_Seq x < er_Seq y) l -> trim_cut seq l = length (upto er_Seq seq l).
Proof.
  induction 1 as [|x l Hs IH Hx]; [done|]. unfold upto. cbn.
  destruct (Z.leb_spec (er_Seq x) seq); cbn; [by rewrite IH|].
  destruct (above_all er_Seq seq l) as [_ E]; [eapply Forall_impl; [exact Hx|]; cbn; lia|].
  unfold upto in E. by rewrite E.
Qed.

Lemma row_insert_last r l :
  Forall (fun x => er_Seq x < er_Seq r) l -> row_insert r l = Some (l ++ [r]).
Proof.
  induction 1 as [|x l Hx _ IH]; [done|]. cbn.
  rewrite (proj2 (Z.ltb_ge _ _)), (proj2 (Z.eqb_neq _ _)), IH by lia. done.
Qed.

(** Keys are preserved by the projections the two stores apply. *)
Lemma upto_map {A B} (f : A -> B) (kb : B -> Z) k l :
  upto kb k (map f l) = map f (upto (fun x => kb (f x)) k l).
Proof. unfold upto. induction l as [|x l IH]; cbn; [done|]. destruct (_ <=? _); cbn; by rewrite IH. Qed.
Lemma above_map {A B} (f : A -> B) (kb : B -> Z) k l :
  above kb k (map f l) = map f (above (fun x => kb (f x)) k l).
Proof. unfold above. induction l as [|x l IH]; cbn; [done|]. destruct (_ <? _); cbn; by rewrite IH. Qed.

Lemma ascending_map {A B} (f : A -> B) (kb : B -> Z) l :
  StronglySorted (fun x y => kb (f x) < kb (f y)) l ->
  StronglySorted (fun x y => kb x < kb y) (map f l).
Proof.
  induction 1 as [|x l _ IH Hx]; cbn; constructor; [done|].
  apply List.Forall_map. done.
Qed.

Record simulates (cap : nat) (s : ring_spec) (b : EventBuffer) (t : EventTable) : Prop := {
  sim_ring : eb_ring b = map snd (rs_retained s);
  sim_rows : et_rows t = stored_rows (rs_retained s);
  sim_next : eb_nextSeq b = log_next (rs_log s);
  sim_autoinc : et_autoinc t = log_next (rs_log s);
  sim_dropped : eb_droppedTotal b = rs_dropped s /\ et_dropped t = rs_dropped s;
  sim_capacity : eb_capacity b = Z.of_nat cap /\ et_capacity t = Z.of_nat cap;
  sim_oldest : eb_oldestSeq b = head_seq (eb_ring b);
  sim_sorted : StronglySorted (fun x y => log_seq x < log_seq y) (rs_log s);
  sim_pos : Forall (fun x => 0 < log_seq x < 2 ^ 63) (rs_log s);
  sim_base : (rs_base s <= length (rs_log s))%nat;
  sim_room : (length (rs_log s) - rs_base s <= cap)%nat;
  sim_count : 0 <= rs_dropped s <= Z.of_nat (length (rs_log s)) }.

Lemma log_next_bound log : Forall (fun x => 0 < log_seq x < 2 ^ 63) log -> 0 <= log_next log < 2 ^ 63.
Proof.
  intros H. unfold log_next. destruct (last log) as [x|] eqn:E; [|lia].
  apply last_Some in E as [l ->]. apply Forall_app in H as [_ H]. inversion H; lia.
Qed.

Lemma log_below log seq :
  StronglySorted (fun x y => log_seq x < log_seq y) log -> log_next log < seq ->
  Forall (fun x => log_seq x < seq) log.
Proof.
  intros Hs. unfold log_next. induction Hs as [|x l Hs IH Hx]; [done|]. rewrite last_cons.
  destruct (last l) as [y|] eqn:E; intros Hlt.
  - assert (Hl : Forall (fun x => log_seq x < seq) l) by auto. constructor; [|done].
    apply last_Some in E as [l' ->]. apply Forall_app in Hx as [_ Hx]. inversion Hx; lia.
  - apply last_None in E as ->. by repeat constructor.
Qed.

Definition stamp_rec (s : ring_spec) (rec : EventRecord) : EventRecord :=
  if er_Seq rec =? 0 then with_seq (log_next (rs_log s) + 1) rec else rec.

Lemma log_next_snoc log x : log_next (log ++ [x]) = log_seq x.
Proof. unfold log_next. by rewrite last_snoc. Qed.

Section Step.
Context (cap : nat) (s : ring_spec) (b : EventBuffer) (t : EventTable).
Hypothesis Hcap : (0 < cap)%nat.
Hypothesis Hcap_max : Z.of_nat cap < 2 ^ 62.
Hypothesis Hsim : simulates cap s b t.

Lemma stamp_above rec now : op_ok cap s (OpAppend now rec) ->
  log_next (rs_log s) < er_Seq (stamp_rec s rec) < 2 ^ 63 /\ 0 < er_Seq (stamp_rec s rec).
Proof.
  intros (_ & Hseq & Hnext & Hmax & _).
  pose proof (log_next_bound _ (sim_pos _ _ _ _ Hsim)). unfold stamp_rec.
  destruct (Z.eqb_spec (er_Seq rec) 0); cbn; lia.
Qed.

Lemma retained_length : length (rs_retained s) = (length (rs_log s) - rs_base s)%nat.
Proof. apply length_drop. Qed.

Lemma retained_snoc now rec :
  rs_retained (spec_step cap s (OpAppend now rec)) =
  (if (cap <=? length (rs_retained s))%nat then drop 1 (rs_retained s) else rs_retained s)
  ++ [(now, stamp_rec s rec)].
Proof.
  pose proof (sim_room _ _ _ _ Hsim). pose proof (sim_base _ _ _ _ Hsim).
  rewrite retained_length. unfold rs_retained. cbn. rewrite length_app. cbn.
  destruct (Nat.leb_spec cap (length (rs_log s) - rs_base s)).
  - rewrite drop_drop, drop_app_le by lia. do 2 f_equal. lia.
  - rewrite drop_app_le by lia. do 2 f_equal. lia.
Qed.

Lemma mem_append_ring now rec : op_ok cap s (OpAppend now rec) ->
  let b' := mem_step b (OpAppend now rec) in
  let s' := spec_step cap s (OpAppend now rec) in
  eb_ring b' = map snd (rs_retained s') /\ eb_nextSeq b' = log_next (rs_log s') /\
  eb_droppedTotal b' = rs_dropped s' /\ eb_capacity b' = Z.of_nat cap /\
  eb_oldestSeq b' = head_seq (eb_ring b').
Proof.
  intros Hok. pose proof (stamp_above _ _ Hok) as [[Hlt Hmax] Hpos].
  destruct Hok as (_ & Hseq & Hnext & _ & Hlog). pose proof Hsim as [Hr _ Hn _ [Hd _] [Hc _] _ _ Hp Hb Hroom Hcount].
  pose proof (log_next_bound _ Hp).
  cbn zeta. rewrite retained_snoc. cbn. rewrite log_next_snoc. fold (stamp_rec s rec). cbn.
  assert (E : (if er_Seq rec =? 0
      then (with_seq (wrap64 (eb_nextSeq b + 1)) rec, wrap64 (eb_nextSeq b + 1))
      else (rec, if eb_nextSeq b <? er_Seq rec then er_Seq rec else eb_nextSeq b))
      = (stamp_rec s rec, er_Seq (stamp_rec s rec))).
  { rewrite Hn. unfold stamp_rec in *. destruct (Z.eqb_spec (er_Seq rec) 0); cbn in *.
    - by rewrite wrap64_id by lia.
    - by rewrite (proj2 (Z.ltb_lt _ _)) by lia. }
  rewrite E, Hr, Hc, length_map, retained_length, length_app. cbn.
  destruct (Z.leb_spec (Z.of_nat cap) (Z.of_nat (length (rs_log s) - rs_base s)));
    [rewrite (proj2 (Nat.leb_le _ _)) by lia|rewrite (proj2 (Nat.leb_gt _ _)) by lia]; cbn;
    rewrite map_app; cbn; split_and!; try done.
  - by rewrite skipn_map.
  - rewrite wrap64_id by lia. lia.
  - lia.
Qed.

Lemma sql_append_rows now rec : op_ok cap s (OpAppend now rec) ->
  let t' := sql_step t (OpAppend now rec) in
  let s' := spec_step cap s (OpAppend now rec) in
  et_rows t' = stored_rows (rs_retained s') /\ et_autoinc t' = log_next (rs_log s') /\
  et_dropped t' = rs_dropped s' /\ et_capacity t' = Z.of_nat cap.
Proof.
  intros Hok. pose proof (stamp_above _ _ Hok) as [[Hlt Hmax] Hpos].
  destruct Hok as (Hkind & Hseq & Hnext & _ & Hlog). pose proof Hsim as [_ Hr _ Hn [_ Hd] [_ Hc] _ Hs Hp Hb Hroom Hcount].
  cbn zeta. rewrite retained_snoc. cbn. rewrite log_next_snoc. fold (stamp_rec s rec). cbn.
  assert (Hins : row_insert (stored now (stamp_rec s rec)) (et_rows t)
      = Some (et_rows t ++ [stored now (stamp_rec s rec)])).
  { apply row_insert_last. rewrite Hr. apply List.Forall_map. unfold rs_retained.
    apply Forall_drop. by apply log_below. }
  assert (E : et_insert now rec t =
      Some (et_rows t ++ [stored now (stamp_rec s rec)], er_Seq (stamp_rec s rec))).
  { unfold et_insert. rewrite Hn. unfold stamp_rec, sqlite_max_rowid in *.
    destruct (Z.eqb_spec (er_Seq rec) 0); cbn [er_Seq with_seq] in *.
    - rewrite (proj2 (Z.leb_gt _ _)) by lia. by rewrite Hins.
    - rewrite Hins. cbn. by rewrite Z.max_r by lia. }
  unfold et_Append. cbn. destruct (er_Kind rec) as [|ch k] eqn:Ek; [done|]. cbn.
  rewrite E. unfold evict. cbn. rewrite Hc, Hr. unfold stored_rows.
  rewrite length_app, length_map, retained_length, length_app. cbn.
  destruct (Z.ltb_spec (Z.of_nat cap) (Z.of_nat (length (rs_log s) - rs_base s + 1)));
    [rewrite (proj2 (Nat.leb_le _ _)) by lia|rewrite (proj2 (Nat.leb_gt _ _)) by lia]; cbn;
    rewrite map_app; cbn; split_and!; try done.
  - rewrite drop_app_le, skipn_map by (rewrite length_map, retained_length; lia).
    do 3 f_equal. lia.
  - lia.
  - lia.
Qed.

Lemma sim_append now rec : op_ok cap s (OpAppend now rec) ->
  simulates cap (spec_step cap s (OpAppend now rec))
    (mem_step b (OpAppend now rec)) (sql_step t (OpAppend now rec)).
Proof.
  intros Hok. pose proof (stamp_above _ _ Hok) as [[Hlt Hmax] Hpos].
  destruct (mem_append_ring _ _ Hok) as (? & ? & ? & ? & ?).
  destruct (sql_append_rows _ _ Hok) as (? & ? & ? & ?).
  pose proof Hsim as [_ _ _ _ _ _ _ Hs Hp Hb Hroom Hcount].
  constructor; try done; cbn; fold (stamp_rec s rec); rewrite ?length_app; cbn; try lia.
  - apply (ascending_snoc log_seq); [done|]. cbn. intros y Hy. unfold log_next in Hlt.
    by rewrite Hy in Hlt.
  - apply Forall_app. split; [done|]. constructor; [cbn; lia|done].
Qed.

Lemma sim_trim seq :
  simulates cap (spec_step cap s (OpTrim seq)) (mem_step b (OpTrim seq)) (sql_step t (OpTrim seq)).
Proof.
  pose proof Hsim as [Hr Hrow Hn Ha [Hd1 Hd2] [Hc1 Hc2] _ Hs Hp Hb Hroom Hcount].
  assert (Hasc : StronglySorted (fun x y => log_seq x < log_seq y) (rs_retained s))
    by by apply (ascending_drop log_seq).
  assert (Hret : rs_retained (spec_step cap s (OpTrim seq)) = above log_seq seq (rs_retained s)).
  { rewrite (above_drop log_seq) by done. unfold rs_retained. rewrite drop_drop.
    rewrite (upto_drop log_seq) by done. cbn. f_equal. unfold upto. lia. }
  assert (Hlen : (length (upto log_seq seq (rs_log s)) <= length (rs_log s))%nat).
  { rewrite (ascending_cut log_seq seq (rs_log s) Hs) at 2. rewrite length_app. lia. }
  constructor; rewrite ?Hret; try done; cbn; unfold upto in Hlen; try lia.
  - rewrite Hr, (trim_cut_spec seq) by by apply ascending_map.
    rewrite upto_map, length_map, skipn_map. by rewrite (above_drop log_seq).
  - rewrite Hrow. exact (above_map (fun x => stored x.1 x.2) er_Seq _ _).
Qed.

End Step.

Lemma sim_run cap s b t h :
  (0 < cap)%nat -> Z.of_nat cap < 2 ^ 62 -> simulates cap s b t -> ops_ok cap s h ->
  simulates cap (foldl (spec_step cap) s h) (foldl mem_step b h) (foldl sql_step t h).
Proof.
  intros Hc Hc'. revert s b t. induction h as [|o h IH]; intros s b t Hsim; [done|].
  intros [Ho Hh]. cbn. apply IH; [|done]. destruct o; [by apply sim_append|by apply sim_trim].
Qed.

Lemma sim_init cap : (0 < cap)%nat ->
  simulates cap (mkRingSpec [] 0 0) (NewEventBuffer (Z.of_nat cap)) (events_Open (Z.of_nat cap)).
Proof.
  intros Hc. unfold NewEventBuffer, events_Open.
  rewrite (proj2 (Z.leb_gt _ _)) by lia. constructor; cbn; try done; try lia; constructor.
Qed.

Lemma sim_mem_range cap s b t since limit : simulates cap s b t -> 0 < limit ->
  eb_Range None since limit b
  = Ok (take (Z.to_nat limit) (map snd (above log_seq since (rs_retained s)))).
Proof.
  intros Hsim Hl. unfold eb_Range. rewrite (proj2 (Z.leb_gt _ _)) by lia. cbn.
  rewrite range_loop_spec by (cbn; lia). cbn.
  by rewrite (sim_ring _ _ _ _ Hsim), above_map, Nat.sub_0_r.
Qed.

Lemma sim_sql_range cap s b t since limit : simulates cap s b t -> 0 < limit ->
  et_Range None None since limit t
  = Ok (take (Z.to_nat limit) (stored_rows (above log_seq since (rs_retained s)))).
Proof.
  intros Hsim Hl. unfold et_Range. rewrite (proj2 (Z.leb_gt _ _)) by lia. cbn.
  rewrite (sim_rows _ _ _ _ Hsim). unfold stored_rows. do 2 f_equal.
  exact (above_map (fun x => stored x.1 x.2) er_Seq _ _).
Qed.

(** A table whose statements can fail: each operation with the failure of an
    append and of a trim.  What it answers, and the operations it acknowledged. *)
Definition sql_do (t : EventTable) (x : ring_op * append_fault * fault) : bool * EventTable :=
  let '(o, fa, ft) := x in
  match o with
  | OpAppend now rec => let '(r, t) := et_Append None fa now rec t in (is_ok r, t)
  | OpTrim seq => let '(r, t) := et_TrimTo None ft seq t in (is_ok r, t)
  end.
Fixpoint sql_history (t : EventTable) (h : list (ring_op * append_fault * fault)) : list ring_op * EventTable :=
  match h with
  | [] => ([], t)
  | x :: h =>
    let '(ok, t) := sql_do t x in
    let '(acked, t) := sql_history t h in
    (if ok then x.1.1 :: acked else acked, t)
  end.

(** A failed append or trim changes nothing; one that is acknowledged did its work. *)
Lemma sql_do_spec t x ok t' : sql_do t x = (ok, t') -> t' = if ok then sql_step t x.1.1 else t.
Proof.
  destruct x as [[[now rec|seq] fa] ft]; cbn [sql_do sql_step fst].
  - unfold et_Append. destruct (str_empty _); [by intros [= <- <-]|]. cbn [fails_in].
    destruct (fails_in fa ABegin); [by intros [= <- <-]|]. destruct (fails_in fa AInsert); [by intros [= <- <-]|].
    destruct (et_insert now rec t) as [[rows autoinc]|]; [|by intros [= <- <-]].
    destruct (fails_in fa ACount); [by intros [= <- <-]|]. unfold evict. cbn [fails_in].
    destruct (_ <? _); [destruct (fails_in fa ADropOldest); [by intros [= <- <-]|];
      destruct (fails_in fa ABumpDropped); [by intros [= <- <-]|]|];
      (destruct (fails_in fa ACommit); by intros [= <- <-]).
  - unfold et_TrimTo. destruct (fails_at ft SExec); by intros [= <- <-].
Qed.
Lemma sql_history_run h : forall t acked t', sql_history t h = (acked, t') -> t' = foldl sql_step t acked.
Proof.
  induction h as [|x h IH]; intros t acked t'; cbn; [by intros [= <- <-]|].
  destruct (sql_do t x) as [ok t1] eqn:E1. destruct (sql_history t1 h) as [a t2] eqn:E2. intros [= <- <-].
  apply sql_do_spec in E1. apply IH in E2. by destruct ok; subst.
Qed.

(** C38. Both event stores implement one ring.  Take any history of appends and
    trims of the table, any statement of which may fail, and the operations it
    acknowledged.  When no sequence number was reused or came late (each was
    the next one, or above every earlier one), the table holds what those
    operations alone would have left, and so does the memory ring given the
    same operations: the accepted records less an oldest prefix, never more
    than the capacity.  A [Range] from any cursor returns, in ascending order,
    the first [limit] retained records above the cursor, the same from both up
    to the columns the table normalises; and the drop counters agree.  A number
    that comes late is outside: the table sorts it in, or refuses it as a
    duplicate, and the memory ring appends it. *)
Theorem event_stores_refine_ring (cap : nat) (h : list (ring_op * append_fault * fault)) (since limit : Z) :
  (0 < cap)%nat -> Z.of_nat cap < 2 ^ 62 -> 0 < limit ->
  let '(acked, t) := sql_history (events_Open (Z.of_nat cap)) h in
  ops_ok cap (mkRingSpec [] 0 0) acked ->
  let s := spec_run cap acked in
  let b := foldl mem_step (NewEventBuffer (Z.of_nat cap)) acked in
  let got := take (Z.to_nat limit) (above log_seq since (rs_retained s)) in
  eb_Range None since limit b = Ok (map snd got) /\
  et_Range None None since limit t = Ok (stored_rows got) /\
  StronglySorted (fun x y => log_seq x < log_seq y) (rs_log s) /\
  (length (rs_retained s) <= cap)%nat /\
  (exists ms ts, eb_Stats None b = Ok ms /\ et_Stats None None t = Ok ts /\
     bs_Size ms = bs_Size ts /\ bs_OldestSeq ms = bs_OldestSeq ts /\
     bs_DroppedTotal ms = bs_DroppedTotal ts /\ bs_DroppedTotal ts = rs_dropped s).
Proof.
  intros Hc Hc' Hl. destruct (sql_history _ h) as [acked t] eqn:Eh. intros Hh. cbn zeta.
  apply sql_history_run in Eh as ->.
  pose proof (sim_run cap _ _ _ acked Hc Hc' (sim_init cap Hc) Hh) as Hsim.
  change (foldl (spec_step cap) _ acked) with (spec_run cap acked) in Hsim.
  rewrite (sim_mem_range _ _ _ _ since limit Hsim Hl), (sim_sql_range _ _ _ _ since limit Hsim Hl).
  pose proof Hsim as [Hr Hrow _ _ [Hd1 Hd2] _ Ho Hs _ Hb Hroom _].
  unfold stored_rows. rewrite !firstn_map. split_and!; try done.
  - by rewrite retained_length.
  - do 2 eexists. split; [done|]. split; [done|]. cbn.
    rewrite Ho, Hr, Hrow, Hd1, Hd2. unfold stored_rows. rewrite !length_map. split_and!; try done.
    by destruct (rs_retained _).
Qed.

Definition demo_rec (seq : Z) (kind : string) : EventRecord := mkEventRecord seq kind "" "" 0.
Definition demo_history : list (ring_op * append_fault * fault) :=
  [(OpAppend 5 (demo_rec 0 "message"), None, None); (OpAppend 6 (demo_rec 4 "receipt"), None, None);
   (OpAppend 6 (demo_rec 0 "lost"), Some (ABumpDropped, ENew "disk I/O error"), None);
   (OpAppend 7 (demo_rec 0 "message"), None, None); (OpTrim 4, None, None); (OpTrim 9, None, Some (SExec, ENew "locked"));
   (OpAppend 8 (demo_rec 9 "status"), None, None)]%string.

Lemma event_stores_refine_ring_witness :
  et_Range None None 4 10 (sql_history (events_Open 2) demo_history).2
  = Ok (map (fun x => stored x.1 x.2) [(7, demo_rec 5 "message"); (8, demo_rec 9 "status")])%string.
Proof.
  pose proof (event_stores_refine_ring 2 demo_history 4 10 ltac:(lia) ltac:(lia) ltac:(lia)) as H.
  assert (E : sql_history (events_Open (Z.of_nat 2)) demo_history
    = ([OpAppend 5 (demo_rec 0 "message"); OpAppend 6 (demo_rec 4 "receipt"); OpAppend 7 (demo_rec 0 "message");
        OpTrim 4; OpAppend 8 (demo_rec 9 "status")]%string, (sql_history (events_Open 2) demo_history).2))
    by (vm_compute; reflexivity).
  rewrite E in H. destruct H as (_ & H & _); [vm_compute; intuition congruence|]. exact H.
Defined.
