(* ===== verification/EventStream.v ===== *)
(** * Event subscriptions over the socket

    [internal/adapters/primary/socket]: the subscription table and its three
    methods ([subscribe.go]), the filter ([match.go]), the frame builders
    ([server_frames.go]), the bounded mailbox ([connection.go]), the resume
    from the durable ring ([replay.go], with [cmd/wad/socket_replay.go] behind
    it), the live fan-out ([server_fanout.go]) and the heartbeat
    ([server_heartbeat.go]).

    A frame is the [map[string]any] the code hands to [json.Marshal].  The
    mailbox of a connection is every frame accepted so far and how many of
    them the writer goroutine has taken; [Peer] says what the writer and the
    client have done by the time a push looks at the connection, so a theorem
    for every [Peer] covers every interleaving with them.  The regular
    expression engine and the JSON text parser are parameters. *)
From S2P Require Import Prelude GoStd Errors Draft Json EventRing.

#[local] Open Scope string_scope.
#[local] Open Scope list_scope.
#[local] Open Scope Z_scope.

(** ** Events, subscriptions, frames *)

(** What [json.Marshal] makes of a payload: [None] is a nil payload, [Some
    None] one that does not marshal. *)
Abbreviation payload := (option (option json)).

Record Event := mkEvent {
  ev_Type : string; ev_Seq : Z; ev_Chat : string; ev_Sender : string; ev_Body : string;
  ev_Payload : payload }.

Record Subscription := mkSub {
  sub_id : string; sub_events : gset string; sub_chats : list string;
  sub_senders : list string; sub_notSenders : list string;
  sub_bodyRe : string; sub_bodyReCompiled : option string;
  sub_since : Z; sub_lastSeq : Z; sub_lastPongAt : time; sub_createdAt : time }.

Definition set_lastSeq (n : Z) (s : Subscription) : Subscription :=
  mkSub (sub_id s) (sub_events s) (sub_chats s) (sub_senders s) (sub_notSenders s)
    (sub_bodyRe s) (sub_bodyReCompiled s) (sub_since s) n (sub_lastPongAt s) (sub_createdAt s).
Definition set_lastPongAt (t : time) (s : Subscription) : Subscription :=
  mkSub (sub_id s) (sub_events s) (sub_chats s) (sub_senders s) (sub_notSenders s)
    (sub_bodyRe s) (sub_bodyReCompiled s) (sub_since s) (sub_lastSeq s) t (sub_createdAt s).

(** A value of a [map[string]any]. *)
Inductive gany := AStr (s : string) | AInt (z : Z) | ARaw (j : json).

Inductive frame :=
| FNotify (method : string) (params : gmap string gany)
| FError (code : Z) (message : string) (data : option (gmap string gany)).

(** ** server_frames.go *)

Definition CodeInvalidParams : Z := -32602.
Definition CodeInternalError : Z := -32603.
Definition CodeBackpressure : Z := -32001.
Definition CodeShutdownInProgress : Z := -32002.
Definition CodeSubscriptionClosed : Z := -32005.
Definition CodePongTimeout : Z := -32006.
Definition CodeStreamDrop : Z := -32007.

Definition paramsFromPayload (p : payload) : option (gmap string gany) :=
  match p with
  | None => Some ∅
  | Some None => None
  | Some (Some (JObj m)) => Some (foldl (fun acc kv => <[kv.1 := ARaw kv.2]> acc) ∅ m)
  | Some (Some JNull) => Some ∅
  | Some (Some raw) => Some {["payload" := ARaw raw]}
  end.

Definition marshalNotification (evt : Event) (subscriptionID : string) : option frame :=
  match paramsFromPayload (ev_Payload evt) with
  | None => None
  | Some params =>
    let params := <["schema" := AStr "wa.event/v1"]> params in
    let params := <["type" := AStr (ev_Type evt)]> params in
    let params := <["subscriptionId" := AStr subscriptionID]> params in
    let params := if 0 <? ev_Seq evt then <["seq" := AInt (ev_Seq evt)]> params else params in
    Some (FNotify "event" params)
  end.

Definition shutdownFrame (id : string) : frame :=
  FError CodeShutdownInProgress "ShutdownInProgress" (Some {["subscriptionId" := AStr id]}).
Definition subscribePingFrame (id : string) : frame :=
  FNotify "subscribe.ping" {["subscriptionId" := AStr id]}.
Definition subscribeClosedPongTimeoutFrame (id : string) (resumeSince : Z) : frame :=
  FError CodePongTimeout "PongTimeout"
    (Some (<["subscriptionId" := AStr id]> (<["reason" := AStr "pong_timeout"]>
       {["resumeSince" := AInt resumeSince]}))).
Definition streamDropFrame (id : string) (oldestDropped newestDropped : Z) : frame :=
  FError CodeStreamDrop "StreamDrop"
    (Some (<["subscriptionId" := AStr id]>
      (<["count" := AInt (wrap64 (newestDropped - oldestDropped + 1))]>
      (<["oldest_dropped" := AInt oldestDropped]> {["newest_dropped" := AInt newestDropped]})))).
Definition subscriptionClosedFrame (id : string) : frame :=
  FError CodeSubscriptionClosed "SubscriptionClosed" (Some {["subscriptionId" := AStr id]}).
Definition backpressureFrame : frame := FError CodeBackpressure "Backpressure" None.

(** ** connection.go *)

Record Connection := mkConn {
  c_subscriptions : gmap string Subscription;
  c_out : list frame;        (* every frame the mailbox accepted, in order *)
  c_taken : nat;             (* how many the writer goroutine has taken *)
  c_cancelled : bool;
  c_raw : list frame }.      (* frames written past the mailbox *)

Definition newConnection : Connection := mkConn ∅ [] 0 false [].
Definition mailbox_cap : nat := 1024.

Definition set_subs (m : gmap string Subscription) (c : Connection) : Connection :=
  mkConn m (c_out c) (c_taken c) (c_cancelled c) (c_raw c).

(** What the writer and the client have done since the connection was last
    looked at. *)
Class Peer := { pe_taken : Connection -> nat; pe_hangup : Connection -> bool }.

(** The regular expressions of the Go library and its JSON text parser. *)
Class Library := {
  re_Compile : string -> check string;
  re_MatchString : string -> string -> bool;
  json_parse : string -> option json }.

Section Socket.
Context {peer : Peer} {library : Library} {subs_order : MapRange string Subscription}.

Definition meanwhile (c : Connection) : Connection :=
  mkConn (c_subscriptions c) (c_out c) (Nat.min (length (c_out c)) (c_taken c + pe_taken c))
    (c_cancelled c || pe_hangup c) (c_raw c).

(** [true] when the mailbox took the frame. *)
Definition pushNotification (f : frame) (c : Connection) : bool * Connection :=
  let c := meanwhile c in
  if c_cancelled c then (false, c)
  else if (length (c_out c) - c_taken c <? mailbox_cap)%nat
  then (true, mkConn (c_subscriptions c) (c_out c ++ [f]) (c_taken c) false (c_raw c))
  else (false, mkConn (c_subscriptions c) (c_out c) (c_taken c) true (c_raw c ++ [backpressureFrame])).

(** ** match.go *)

Definition containsStr (list : list string) (want : string) : bool := bool_decide (want ∈ list).

Definition nonempty {A} (l : list A) : bool := match l with [] => false | _ => true end.

Definition matchesSub (sub : Subscription) (evt : Event) : bool :=
  if negb (ev_Seq evt =? 0) && (ev_Seq evt <=? sub_since sub) then false
  else if bool_decide (sub_events sub <> ∅) && negb (bool_decide (ev_Type evt ∈ sub_events sub)) then false
  else if nonempty (sub_chats sub) && negb (containsStr (sub_chats sub) (ev_Chat evt)) then false
  else if nonempty (sub_senders sub) && negb (containsStr (sub_senders sub) (ev_Sender evt)) then false
  else if nonempty (sub_notSenders sub) && containsStr (sub_notSenders sub) (ev_Sender evt) then false
  else match sub_bodyReCompiled sub with
       | Some re => negb (str_empty (ev_Body evt)) && re_MatchString re (ev_Body evt)
       | None => true
       end.

(** ** cmd/wad/socket_replay.go *)

Record ReplayRecord := mkReplay {
  rr_Seq : Z; rr_Kind : string; rr_Data : string; rr_Chat : string; rr_Sender : string;
  rr_Body : string }.

(** One string field of a decode whose type errors are ignored. *)
Definition lenient (name : string) (m : list (string * json)) : string :=
  foldl (fun acc kv => if key_matches name kv.1 then default acc (dec_str acc kv.2) else acc) "" m.

Definition eventSelectors (untrusted : string) : string * string * string :=
  match (if str_empty untrusted then None else json_parse untrusted) with
  | Some (JObj m) => (lenient "chat" m, lenient "sender" m, lenient "body" m)
  | _ => ("", "", "")
  end.

Definition replay_of (rec : EventRecord) : ReplayRecord :=
  let '(chat, sender, body) := eventSelectors (er_UntrustedJSON rec) in
  mkReplay (er_Seq rec) (er_Kind rec) (er_TrustedJSON rec) chat sender body.

(** The ring as the resume reads it: one state and one possible failure per
    call. *)
Record ring_reads := mkReads { rd_table : nat -> EventTable; rd_fault : nat -> fault }.

Definition OldestSeq (r : ring_reads) : result Z :=
  res_map bs_OldestSeq (et_Stats None (rd_fault r 0) (rd_table r 0)).
Definition Replay (r : ring_reads) (k : nat) (sinceSeq limit : Z) : result (list ReplayRecord) :=
  res_map (map replay_of) (et_Range None (rd_fault r k) sinceSeq limit (rd_table r k)).

(** ** replay.go *)

Definition replayBatch : Z := 500.

Definition advanceLastSeq (seq : Z) (sub : Subscription) : Subscription :=
  if seq <=? 0 then sub
  else if sub_lastSeq sub <? seq then set_lastSeq seq sub else sub.

Definition replay_event (rec : ReplayRecord) : Event :=
  mkEvent (rr_Kind rec) (rr_Seq rec) (rr_Chat rec) (rr_Sender rec) (rr_Body rec)
    (Some (json_parse (rr_Data rec))).

Definition pushReplayRecord (rec : ReplayRecord) (st : Connection * Subscription)
    : bool * (Connection * Subscription) :=
  let '(conn, sub) := st in
  let evt := replay_event rec in
  if negb (matchesSub sub evt) then (true, (conn, advanceLastSeq (rr_Seq rec) sub))
  else
    match marshalNotification evt (sub_id sub) with
    | None => (true, (conn, advanceLastSeq (rr_Seq rec) sub))
    | Some frame =>
      let '(ok, conn) := pushNotification frame conn in
      if ok then (true, (conn, advanceLastSeq (rr_Seq rec) sub)) else (false, (conn, sub))
    end.

(** The records of one batch, with the cursor. *)
Fixpoint replay_batch (recs : list ReplayRecord) (cursor : Z) (st : Connection * Subscription)
    : bool * Z * (Connection * Subscription) :=
  match recs with
  | [] => (true, cursor, st)
  | rec :: recs =>
    let cursor := if cursor <? rr_Seq rec then rr_Seq rec else cursor in
    let '(ok, st) := pushReplayRecord rec st in
    if ok then replay_batch recs cursor st else (false, cursor, st)
  end.

(** The drain loop; call [k] reads the ring for the [k]th time.  Every full
    batch moves the cursor, so a ring of [n] rows needs at most [n] turns. *)
Fixpoint replay_loop (fuel : nat) (r : ring_reads) (k : nat) (cursor : Z)
    (st : Connection * Subscription) : Connection * Subscription :=
  match fuel with
  | O => st
  | S fuel =>
    match Replay r k cursor replayBatch with
    | Err _ => st
    | Ok [] => st
    | Ok recs =>
      let '(ok, cursor, st) := replay_batch recs cursor st in
      if negb ok then st
      else if Z.of_nat (length recs) <? replayBatch then st
      else replay_loop fuel r (S k) cursor st
    end
  end.

Definition emitEvictionGap (r : ring_reads) (sub : Subscription) (conn : Connection) : Connection :=
  match OldestSeq r with
  | Err _ => conn
  | Ok oldest =>
    if oldest <=? wrap64 (sub_since sub + 1) then conn
    else (pushNotification
            (streamDropFrame (sub_id sub) (wrap64 (sub_since sub + 1)) (wrap64 (oldest - 1))) conn).2
  end.

Definition replaySubscription (fuel : nat) (r : ring_reads) (conn : Connection)
    (sub : Subscription) : Connection * Subscription :=
  replay_loop fuel r 1 (sub_since sub) (emitEvictionGap r sub conn, sub).

(** ** subscribe.go *)

Abbreviation rpc_result := (res (Z * string)).

Record subscribeParams := mkSubscribeParams {
  sp_Events : option (list string); sp_Chats : list string; sp_Senders : list string;
  sp_NotSenders : list string; sp_BodyRe : string; sp_Since : Z }.

Definition dec_slice (old : option (list string)) (j : json) : option (option (list string)) :=
  match j with
  | JArr l => Some <$> mapM (fun x => dec_str "" x) l
  | JNull => Some None
  | _ => None
  end.

Definition dec_subscribeParams (m : list (string * json)) : option subscribeParams :=
  events ← field dec_slice None "events" m;
  chats ← field dec_strs [] "chats" m;
  senders ← field dec_strs [] "senders" m;
  notSenders ← field dec_strs [] "notSenders" m;
  bodyRe ← field dec_str "" "bodyRe" m;
  since ← field dec_int 0 "since" m;
  Some (mkSubscribeParams events chats senders notSenders bodyRe since).

(** [json.Unmarshal] of optional params into a struct decoded by [dec]. *)
Definition conn_params {P} (dec : list (string * json) -> option P) (zero : P)
    (params : RawMessage) : rpc_result P :=
  let bad := Err (CodeInvalidParams, "Invalid params: %v") in
  match params with
  | None => Ok zero
  | Some (JObj m) => match dec m with Some p => Ok p | None => bad end
  | Some JNull => Ok zero
  | Some _ => bad
  end.

Definition new_subscription (id : string) (p : subscribeParams) (events : list string)
    (bodyRe : option string) (now : time) : Subscription :=
  mkSub id (list_to_set events) (sp_Chats p) (sp_Senders p) (sp_NotSenders p) (sp_BodyRe p)
    bodyRe (sp_Since p) (sp_Since p) now now.

Definition compile_bodyRe (p : subscribeParams) : rpc_result (option string) :=
  if str_empty (sp_BodyRe p) then Ok None
  else match re_Compile (sp_BodyRe p) with
       | Err _ => Err (CodeInvalidParams, "Invalid params: bodyRe: %v")
       | Ok _ => Ok (Some (sp_BodyRe p))
       end.

(** [replay] is [None] when no ring is wired; [uuid] is the outcome of
    [newUUID]; the result carries the id and the cursor. *)
Definition handleSubscribe (fuel : nat) (replay : option ring_reads) (uuid : option string)
    (now : time) (params : RawMessage) (conn : Connection)
    : rpc_result (string * Z) * Connection :=
  match conn_params dec_subscribeParams (mkSubscribeParams None [] [] [] "" 0) params with
  | Err e => (Err e, conn)
  | Ok p =>
    match sp_Events p with
    | None => (Err (CodeInvalidParams, "Invalid params: events is required"), conn)
    | Some events =>
      match compile_bodyRe p, uuid with
      | Err e, _ => (Err e, conn)
      | Ok _, None => (Err (CodeInternalError, "Internal error"), conn)
      | Ok re, Some id =>
        let sub := new_subscription id p events re now in
        let '(conn, sub) :=
          match replay with
          | Some r => if 0 <? sub_since sub then replaySubscription fuel r conn sub else (conn, sub)
          | None => (conn, sub)
          end in
        (Ok (id, sub_since sub), set_subs (<[id := sub]> (c_subscriptions conn)) conn)
      end
    end
  end.

Definition dec_subscriptionRef (m : list (string * json)) : option string :=
  field dec_str "" "subscriptionId" m.

Definition withSubscription (params : RawMessage) (conn : Connection)
    (fn : string -> Subscription -> gmap string Subscription -> gmap string Subscription)
    : rpc_result string * Connection :=
  match conn_params dec_subscriptionRef "" params with
  | Err e => (Err e, conn)
  | Ok id =>
    if str_empty id then (Err (CodeInvalidParams, "Invalid params: subscriptionId is required"), conn)
    else match c_subscriptions conn !! id with
         | None => (Err (CodeInvalidParams, "Invalid params: subscription not found"), conn)
         | Some sub => (Ok id, set_subs (fn id sub (c_subscriptions conn)) conn)
         end
  end.

Definition handleUnsubscribe (params : RawMessage) (conn : Connection) : rpc_result unit * Connection :=
  let '(r, conn) := withSubscription params conn (fun id _ m => delete id m) in
  (res_map (fun _ => tt) r, conn).
Definition handlePong (now : time) (params : RawMessage) (conn : Connection)
    : rpc_result unit * Connection :=
  let '(r, conn) := withSubscription params conn
                      (fun id sub m => <[id := set_lastPongAt now sub]> m) in
  (res_map (fun _ => tt) r, conn).

(** ** server_fanout.go *)

(** The frames one subscription gets for an event: a drop frame carries no
    subscription, so it does not move the cursor. *)
Definition sub_frames (evt : Event) (sub : Subscription) : list (frame * option string) :=
  if negb (matchesSub sub evt) then []
  else
    (if (0 <? ev_Seq evt) && (0 <? sub_lastSeq sub) && (wrap64 (sub_lastSeq sub + 1) <? ev_Seq evt)
     then [(streamDropFrame (sub_id sub) (wrap64 (sub_lastSeq sub + 1)) (wrap64 (ev_Seq evt - 1)), None)]
     else []) ++
    match marshalNotification evt (sub_id sub) with
    | None => []
    | Some f => [(f, Some (sub_id sub))]
    end.

Definition push_frame (evt : Event) (c : Connection) (f : frame * option string) : Connection :=
  let '(ok, c) := pushNotification f.1 c in
  match f.2 with
  | Some id => if ok && (0 <? ev_Seq evt)
               then set_subs (alter (set_lastSeq (ev_Seq evt)) id (c_subscriptions c)) c
               else c
  | None => c
  end.

Definition fan_frames (evt : Event) (c : Connection) : list (frame * option string) :=
  flat_map (fun ks => sub_frames evt ks.2) (range (c_subscriptions c)).

Definition fan_conn (evt : Event) (c : Connection) : Connection :=
  foldl (push_frame evt) c (fan_frames evt c).

(** The server's connections, by id; each is served on its own. *)
Abbreviation Server := (gmap Z Connection).
Definition fanOutEvent (evt : Event) (s : Server) : Server := fan_conn evt <$> s.

Definition push_all (fs : list frame) (c : Connection) : Connection :=
  foldl (fun c f => (pushNotification f c).2) c fs.

Definition sendSubscriptionClosed (s : Server) : Server :=
  (fun c => set_subs ∅ (push_all (map (fun ks => subscriptionClosedFrame ks.1)
                                      (range (c_subscriptions c))) c)) <$> s.

Definition sendShutdownNotifications (s : Server) : Server :=
  (fun c => push_all (map (fun ks => shutdownFrame ks.1) (range (c_subscriptions c))) c) <$> s.

(** ** server_heartbeat.go *)

Definition tick_sub (pongTimeout : Z) (now : time) (c : Connection) (sub : Subscription) : Connection :=
  if (0 <? pongTimeout) && (pongTimeout <? now - sub_lastPongAt sub) then
    let c := (pushNotification (subscribeClosedPongTimeoutFrame (sub_id sub) (sub_lastSeq sub)) c).2 in
    set_subs (delete (sub_id sub) (c_subscriptions c)) c
  else (pushNotification (subscribePingFrame (sub_id sub)) c).2.

Definition tickHeartbeat (pongTimeout : Z) (now : time) (s : Server) : Server :=
  (fun c => foldl (tick_sub pongTimeout now) c (map snd (range (c_subscriptions c)))) <$> s.

(** ** The mailbox *)

Lemma push_spec f c ok c' : pushNotification f c = (ok, c') ->
  c_subscriptions c' = c_subscriptions c /\ c_cancelled c' = negb ok /\
  c_out c' = c_out c ++ (if ok then [f] else []) /\ (c_cancelled c = true -> ok = false).
Proof.
  unfold pushNotification, meanwhile. cbn.
  destruct (c_cancelled c), (pe_hangup c); cbn; try (intros [= <- <-]; cbn; by rewrite app_nil_r).
  case_match; intros [= <- <-]; cbn; by rewrite ?app_nil_r.
Qed.

(** ** The resume *)

(** The frame a ring row deserves, if any. *)
Definition row_frames (sub : Subscription) (rec : ReplayRecord) : list frame :=
  if matchesSub sub (replay_event rec)
  then option_list (marshalNotification (replay_event rec) (sub_id sub)) else [].

Definition batch_frames (sub : Subscription) (recs : list ReplayRecord) : list frame :=
  flat_map (row_frames sub) recs.

Lemma row_frames_lastSeq n sub rec : row_frames (set_lastSeq n sub) rec = row_frames sub rec.
Proof. done. Qed.
Lemma batch_frames_lastSeq n sub recs : batch_frames (set_lastSeq n sub) recs = batch_frames sub recs.
Proof. done. Qed.

Definition max_seq (n : Z) (recs : list ReplayRecord) : Z :=
  foldl (fun m r => Z.max m (rr_Seq r)) n recs.

(** The state after a drain that owed the frames [want]: a prefix of them is
    out, and all of them when the connection is still up. *)
Definition drained (c c' : Connection) (want : list frame) : Prop :=
  exists fs, c_out c' = c_out c ++ fs /\ fs `prefix_of` want /\
    (c_cancelled c' = false -> fs = want) /\ c_subscriptions c' = c_subscriptions c /\
    (c_cancelled c = true -> fs = [] /\ c_cancelled c' = true).

Lemma drained_refl c : drained c c [].
Proof. exists []. by rewrite app_nil_r. Qed.

Lemma drained_trans c1 c2 c3 w1 w2 :
  drained c1 c2 w1 -> drained c2 c3 w2 -> drained c1 c3 (w1 ++ w2).
Proof.
  intros (f1 & O1 & P1 & A1 & S1 & C1) (f2 & O2 & P2 & A2 & S2 & C2).
  exists (f1 ++ f2). rewrite O2, O1, app_assoc, S2. split_and!; try done.
  - destruct (c_cancelled c2) eqn:E.
    + destruct C2 as [-> _]; [done|]. rewrite app_nil_r. by apply prefix_app_r.
    + rewrite A1 by done. by apply prefix_app.
  - intros E. destruct (c_cancelled c2) eqn:E2.
    + destruct C2 as [_ C]; [done|congruence].
    + by rewrite A1, A2.
  - intros E. destruct (C1 E) as [-> E2]. destruct (C2 E2) as [-> E3]. done.
Qed.

Lemma drained_more c c' w w' : drained c c' w -> c_cancelled c' = true -> drained c c' (w ++ w').
Proof.
  intros (fs & O & P & A & S & C) E. exists fs. split_and!; try done.
  - by apply prefix_app_r.
  - congruence.
Qed.

Lemma push_drained f c : drained c (pushNotification f c).2 [f].
Proof.
  destruct (pushNotification f c) as [ok c'] eqn:E. apply push_spec in E as (S & K & O & C).
  exists (if ok then [f] else []). cbn. rewrite K. split_and!; try done.
  - destruct ok; [done|apply prefix_nil].
  - by destruct ok.
  - intros E. by rewrite (C E).
Qed.

Lemma advance_seq n sub : 0 < n -> 
  advanceLastSeq n sub = set_lastSeq (Z.max (sub_lastSeq sub) n) sub.
Proof.
  intros H. unfold advanceLastSeq. rewrite (proj2 (Z.leb_gt _ _)) by lia.
  destruct (Z.ltb_spec (sub_lastSeq sub) n).
  - by rewrite Z.max_r by lia.
  - rewrite Z.max_l by lia. by destruct sub.
Qed.

(** A drain changes nothing of a subscription but its cursor. *)
Definition same_but_cursor (sub sub' : Subscription) : Prop := exists n, sub' = set_lastSeq n sub.

Lemma same_refl sub : same_but_cursor sub sub.
Proof. exists (sub_lastSeq sub). by destruct sub. Qed.
Lemma same_set n sub : same_but_cursor sub (set_lastSeq n sub).
Proof. by exists n. Qed.
Lemma same_trans s1 s2 s3 : same_but_cursor s1 s2 -> same_but_cursor s2 s3 -> same_but_cursor s1 s3.
Proof. intros [n ->] [m ->]. by exists m. Qed.
#[local] Hint Resolve same_refl same_set : core.

Lemma advance_same n sub : same_but_cursor sub (advanceLastSeq n sub).
Proof. unfold advanceLastSeq. repeat case_match; auto. Qed.

Lemma pushReplay_same rec st : same_but_cursor st.2 (pushReplayRecord rec st).2.2.
Proof.
  destruct st as [c sub]. unfold pushReplayRecord.
  repeat case_match; cbn; auto using advance_same.
Qed.

Lemma replay_batch_same recs cursor st : same_but_cursor st.2 (replay_batch recs cursor st).2.2.
Proof.
  revert cursor st. induction recs as [|rec recs IH]; intros cursor st; cbn [replay_batch]; [auto|].
  pose proof (pushReplay_same rec st) as H.
  destruct (pushReplayRecord rec st) as [[|] st1]; [|done].
  eapply same_trans; [exact H|apply IH].
Qed.

Lemma replay_loop_same fuel r k cursor st : same_but_cursor st.2 (replay_loop fuel r k cursor st).2.
Proof.
  revert k cursor st. induction fuel as [|fuel IH]; intros k cursor st; cbn [replay_loop]; [auto|].
  destruct (Replay r k cursor replayBatch) as [[|rec recs]|]; [auto| |auto].
  pose proof (replay_batch_same (rec :: recs) cursor st) as H.
  destruct (replay_batch (rec :: recs) cursor st) as [[[|] cur] st1]; cbn [negb]; [|done].
  case_match; [done|]. eapply same_trans; [exact H|apply IH].
Qed.

Lemma pushReplay_spec rec c sub ok c' sub' :
  0 < rr_Seq rec -> pushReplayRecord rec (c, sub) = (ok, (c', sub')) ->
  drained c c' (row_frames sub rec) /\
  (ok = true -> sub' = set_lastSeq (Z.max (sub_lastSeq sub) (rr_Seq rec)) sub) /\
  (ok = false -> c_cancelled c' = true).
Proof.
  intros Hpos. unfold pushReplayRecord, row_frames. rewrite advance_seq by done.
  destruct (matchesSub _ _); cbn -[pushNotification].
  2:{ intros [= <- <- <-]. split; [apply drained_refl|done]. }
  destruct (marshalNotification _ _) as [f|]; cbn -[pushNotification].
  2:{ intros [= <- <- <-]. split; [apply drained_refl|done]. }
  pose proof (push_drained f c) as Hd.
  destruct (pushNotification f c) as [ok1 c1] eqn:E. apply push_spec in E as (_ & K & _ & _).
  cbn in Hd. destruct ok1; intros [= <- <- <-]; (split; [done|]); cbn in K; done.
Qed.

Lemma replay_batch_spec recs cursor c sub ok cursor' c' sub' :
  Forall (fun r => 0 < rr_Seq r) recs ->
  replay_batch recs cursor (c, sub) = (ok, cursor', (c', sub')) ->
  drained c c' (batch_frames sub recs) /\
  (ok = true -> cursor' = max_seq cursor recs /\
                sub' = set_lastSeq (max_seq (sub_lastSeq sub) recs) sub) /\
  (ok = false -> c_cancelled c' = true).
Proof.
  intros H. revert cursor c sub. induction H as [|rec recs Hr _ IH]; intros cursor c sub; cbn [replay_batch].
  - intros [= <- <- <- <-]. split; [apply drained_refl|]. split; [|done].
    intros _. split; [done|]. by destruct sub.
  - destruct (pushReplayRecord rec (c, sub)) as [ok1 [c1 sub1]] eqn:E1.
    apply pushReplay_spec in E1 as (D1 & L1 & K1); [|done].
    destruct ok1.
    + rewrite (L1 eq_refl). intros E. apply IH in E as (D & L & K).
      rewrite batch_frames_lastSeq in D. split; [by eapply drained_trans|]. split; [|done].
      intros Ho. destruct (L Ho) as [-> ->]. cbn. split; [|done].
      unfold max_seq. cbn. f_equal. destruct (Z.ltb_spec cursor (rr_Seq rec)); lia.
    + intros [= <- <- <- <-]. split; [|done]. apply drained_more; auto.
Qed.

(** The ring does not change while it is drained, and its reads succeed. *)
Definition steady (r : ring_reads) (t : EventTable) : Prop :=
  forall k, rd_table r k = t /\ rd_fault r k = None.

(** The rows of [t] a resume from [since] reads. *)
Definition unread (since : Z) (t : EventTable) : list ReplayRecord :=
  map replay_of (above er_Seq since (et_rows t)).

Lemma replay_of_seq rec : rr_Seq (replay_of rec) = er_Seq rec.
Proof. unfold replay_of. by destruct (eventSelectors _) as [[? ?] ?]. Qed.

Lemma Replay_steady r t k cursor : steady r t ->
  Replay r k cursor replayBatch = Ok (take 500 (unread cursor t)).
Proof.
  intros H. destruct (H k) as [E1 E2]. unfold Replay, et_Range. rewrite E1, E2. cbn -[take].
  unfold unread. by rewrite firstn_map.
Qed.

Lemma max_seq_app n l1 l2 : max_seq n (l1 ++ l2) = max_seq (max_seq n l1) l2.
Proof. apply foldl_app. Qed.

Lemma max_seq_replay n l : max_seq n (map replay_of l) = last_seq n l.
Proof. revert n. induction l as [|r l IH]; intros n; cbn; [done|]. rewrite replay_of_seq. apply IH. Qed.

(** Past a batch the cursor leaves exactly the rows after it. *)
Lemma unread_after n cursor t : ascending_rows (et_rows t) ->
  unread (max_seq cursor (take n (unread cursor t))) t = drop n (unread cursor t).
Proof.
  intros Hs. unfold unread. rewrite firstn_map, skipn_map, max_seq_replay. f_equal. by apply above_after.
Qed.

Lemma unread_pos cursor t : Forall (fun r => 0 < er_Seq r) (et_rows t) ->
  Forall (fun r => 0 < rr_Seq r) (unread cursor t).
Proof.
  intros H. apply List.Forall_map. apply List.Forall_forall. intros x Hx. rewrite replay_of_seq.
  apply filter_In in Hx as [Hx _]. rewrite List.Forall_forall in H. auto.
Qed.

Lemma replay_loop_spec r t : steady r t -> ascending_rows (et_rows t) ->
  Forall (fun x => 0 < er_Seq x) (et_rows t) ->
  forall fuel k cursor c sub c' sub',
  (length (unread cursor t) < fuel)%nat ->
  replay_loop fuel r k cursor (c, sub) = (c', sub') ->
  drained c c' (batch_frames sub (unread cursor t)) /\
  (c_cancelled c' = false -> sub' = set_lastSeq (max_seq (sub_lastSeq sub) (unread cursor t)) sub).
Proof.
  intros Hst Hs Hp. induction fuel as [|fuel IH]; intros k cursor c sub c' sub' Hf; [lia|].
  cbn [replay_loop]. rewrite (Replay_steady r t k cursor Hst).
  pose proof (unread_after 500 cursor t Hs) as Hnext.
  pose proof (Forall_take _ 500 _ (unread_pos cursor t Hp)) as Hpb.
  assert (ER : unread cursor t = take 500 (unread cursor t) ++ drop 500 (unread cursor t))
    by by rewrite take_drop.
  assert (EQ : (length (take 500 (unread cursor t)) < 500)%nat -> drop 500 (unread cursor t) = []).
  { intros Hl. apply skipn_all2. rewrite length_take in Hl. lia. }
  set (Q := drop 500 (unread cursor t)) in *. set (P := take 500 (unread cursor t)) in *.
  clearbody P Q. rewrite ER in Hf |- *. clear ER. destruct P as [|rec P'] eqn:EP.
  { intros [= <- <-]. rewrite EQ by (cbn; lia). split; [apply drained_refl|]. by destruct sub. }
  rewrite <- EP in *. assert (0 < length P)%nat by (rewrite EP; cbn; lia). clear EP.
  rewrite length_app in Hf. unfold batch_frames. rewrite flat_map_app, max_seq_app.
  destruct (replay_batch P cursor (c, sub)) as [[ok cur] [c1 sub1]] eqn:E.
  apply replay_batch_spec in E as (D & L & K); [|done]. destruct ok; cbn [negb].
  2:{ intros [= <- <-]. split; [apply drained_more; auto|]. rewrite K by done. done. }
  destruct (L eq_refl) as [-> ->]. destruct (Z.ltb_spec (Z.of_nat (length P)) replayBatch) as [Hl|Hl].
  - intros [= <- <-]. rewrite EQ by (unfold replayBatch in Hl; lia). cbn.
    by rewrite app_nil_r.
  - intros E. apply IH in E; [|rewrite Hnext; lia]. rewrite Hnext in E. destruct E as [D2 L2].
    split; [by eapply drained_trans|]. intros Hc. by rewrite (L2 Hc).
Qed.

(** The notice owed to a cursor that fell off the back of the ring. *)
Definition gap_frames (sub : Subscription) (oldest : Z) : list frame :=
  if oldest <=? sub_since sub + 1 then []
  else [streamDropFrame (sub_id sub) (sub_since sub + 1) (oldest - 1)].

Lemma emitEvictionGap_drained r t sub c : steady r t -> int64 (sub_since sub + 1) ->
  Forall (fun x => 0 < er_Seq x < 2 ^ 63) (et_rows t) ->
  drained c (emitEvictionGap r sub c) (gap_frames sub (head_seq (et_rows t))).
Proof.
  intros Hst Hsince Hp. destruct (Hst 0%nat) as [E1 E2]. unfold int64 in Hsince.
  assert (Hh : 0 <= head_seq (et_rows t) < 2 ^ 63).
  { destruct (et_rows t); cbn; [lia|]. inversion Hp; lia. }
  unfold emitEvictionGap, OldestSeq, et_Stats. rewrite E1, E2. cbn -[pushNotification wrap64].
  rewrite (wrap64_id (sub_since sub + 1)), (wrap64_id (head_seq _ - 1)) by lia.
  unfold gap_frames. case_match; [apply drained_refl|apply push_drained].
Qed.

(** The comparison with [since+1] is made on wrapped integers: a cursor at the
    top of the range is told of a gap no ring can have, an empty one included. *)
Lemma max_cursor_reports_gap r t sub c : steady r t -> sub_since sub = 2 ^ 63 - 1 ->
  Forall (fun x => 0 < er_Seq x < 2 ^ 63) (et_rows t) ->
  drained c (emitEvictionGap r sub c)
    [streamDropFrame (sub_id sub) (- 2 ^ 63) (head_seq (et_rows t) - 1)].
Proof.
  intros Hst Hsince Hp. destruct (Hst 0%nat) as [E1 E2].
  assert (Hh : 0 <= head_seq (et_rows t) < 2 ^ 63).
  { destruct (et_rows t); cbn; [lia|]. inversion Hp; lia. }
  unfold emitEvictionGap, OldestSeq, et_Stats. rewrite E1, E2, Hsince. cbn -[pushNotification wrap64].
  rewrite (wrap64_id (head_seq _ - 1)) by lia.
  change (wrap64 (2 ^ 63 - 1 + 1)) with (- 2 ^ 63).
  rewrite (proj2 (Z.leb_gt _ _)) by lia. apply push_drained.
Qed.

Lemma replaySubscription_spec fuel r t c sub c' sub' :
  steady r t -> int64 (sub_since sub + 1) -> ascending_rows (et_rows t) ->
  Forall (fun x => 0 < er_Seq x < 2 ^ 63) (et_rows t) ->
  (length (et_rows t) < fuel)%nat ->
  replaySubscription fuel r c sub = (c', sub') ->
  drained c c' (gap_frames sub (head_seq (et_rows t)) ++ batch_frames sub (unread (sub_since sub) t)) /\
  (c_cancelled c' = false ->
   sub' = set_lastSeq (max_seq (sub_lastSeq sub) (unread (sub_since sub) t)) sub).
Proof.
  intros Hst Hsince Hs Hp Hf E. eapply replay_loop_spec in E as [D L]; try done.
  - split; [|done]. eapply drained_trans; [by apply emitEvictionGap_drained|done].
  - eapply Forall_impl; [exact Hp|]. cbn. lia.
  - unfold unread. rewrite length_map.
    pose proof (f_equal length (ascending_cut er_Seq (sub_since sub) _ Hs)) as El.
    rewrite length_app in El. lia.
Qed.

(** A resume hands back exactly what the client missed.  When a subscribe
    from a cursor [since] succeeds and the connection is still up, its mailbox
    has gained, in order, one stream.drop naming the evicted range if the
    cursor fell off the ring, then one frame for every ring row above the
    cursor that the filter accepts, each with the row's own seq and payload,
    and nothing else; the subscription's cursor is the newest row's seq.  If
    the peer fell behind or hung up, what it got is a prefix of that. *)
Theorem resume_replays_missed (fuel : nat) (r : ring_reads) (t : EventTable) (id : string)
    (now : time) (params : RawMessage) (c c' : Connection) (since : Z) :
  steady r t -> ascending_rows (et_rows t) ->
  Forall (fun x => 0 < er_Seq x < 2 ^ 63) (et_rows t) ->
  (length (et_rows t) < fuel)%nat ->
  handleSubscribe fuel (Some r) (Some id) now params c = (Ok (id, since), c') ->
  0 < since < 2 ^ 63 - 1 ->
  exists sub fs,
    c_subscriptions c' = <[id := sub]> (c_subscriptions c) /\
    sub_id sub = id /\ sub_since sub = since /\
    c_out c' = c_out c ++ fs /\
    let want := gap_frames sub (head_seq (et_rows t)) ++ batch_frames sub (unread since t) in
    fs `prefix_of` want /\
    (c_cancelled c' = false ->
     fs = want /\ sub_lastSeq sub = max_seq since (unread since t)).
Proof.
  intros Hst Hs Hp Hf E Hsince. unfold handleSubscribe in E.
  destruct (conn_params _ _ _) as [p|]; [|done]. destruct (sp_Events p) as [events|]; [|done].
  destruct (compile_bodyRe p) as [re|]; [|done].
  set (sub0 := new_subscription id p events re now) in E.
  destruct (0 <? sub_since sub0) eqn:Es.
  2:{ injection E as E _. apply Z.ltb_ge in Es. unfold sub0 in Es. cbn in Es. lia. }
  pose proof (replay_loop_same fuel r 1 (sub_since sub0) (emitEvictionGap r sub0 c, sub0)) as [n Hn].
  destruct (replaySubscription fuel r c sub0) as [c1 sub1] eqn:Er.
  pose proof Er as Er'. unfold replaySubscription in Er'. rewrite Er' in Hn. cbn in Hn.
  injection E as Esince <-. rewrite Hn in Esince. cbn in Esince.
  eapply replaySubscription_spec in Er as [(fs & O & P & A & S & _) L]; try done.
  2:{ unfold int64. cbn. lia. }
  cbn [sub_since sub0 new_subscription] in P, A, L. rewrite Esince in P, A, L.
  exists sub1, fs. cbn. rewrite S, O, Hn. cbn. split_and!; try done.
  intros Hc. split; [by apply A|].
  assert (En : set_lastSeq n sub0 = set_lastSeq (max_seq since (unread since t)) sub0).
  { rewrite <- Hn, (L Hc). cbn. by rewrite Esince. }
  by injection En.
Qed.

(** ** The live fan-out *)

(** The sequence numbers a frame tells the subscription [id] about: the
    event's own, or the range a stream.drop declares missing. *)
Definition frame_covers (id : string) (f : frame) : list Z :=
  match f with
  | FNotify "event" p =>
    match p !! "subscriptionId", p !! "seq" with
    | Some (AStr i), Some (AInt z) => if (i =? id)%string then [z] else []
    | _, _ => []
    end
  | FError _ _ (Some d) =>
    match d !! "subscriptionId", d !! "oldest_dropped", d !! "newest_dropped" with
    | Some (AStr i), Some (AInt lo), Some (AInt hi) =>
      if (i =? id)%string then seqZ lo (hi - lo + 1) else []
    | _, _, _ => []
    end
  | _ => []
  end.

Definition covers (id : string) (fs : list frame) : list Z := flat_map (frame_covers id) fs.

Lemma covers_app id f1 f2 : covers id (f1 ++ f2) = covers id f1 ++ covers id f2.
Proof. apply flat_map_app. Qed.

Lemma streamDrop_covers id id' lo hi :
  frame_covers id' (streamDropFrame id lo hi) = if (id =? id')%string then seqZ lo (hi - lo + 1) else [].
Proof. done. Qed.

(** The envelope is written over the payload, whatever its fields are. *)
Lemma notification_envelope evt id f : marshalNotification evt id = Some f -> 0 < ev_Seq evt ->
  exists p, f = FNotify "event" p /\ p !! "subscriptionId" = Some (AStr id) /\
    p !! "seq" = Some (AInt (ev_Seq evt)) /\ p !! "type" = Some (AStr (ev_Type evt)).
Proof.
  unfold marshalNotification. intros E Hs. rewrite (proj2 (Z.ltb_lt _ _) Hs) in E.
  destruct (paramsFromPayload _) as [p|]; [|done]. injection E as <-. eexists. split; [done|].
  split_and!.
  - rewrite lookup_insert_ne by done. by rewrite lookup_insert_eq.
  - by rewrite lookup_insert_eq.
  - rewrite !lookup_insert_ne by done. by rewrite lookup_insert_eq.
Qed.

Lemma notification_covers evt id id' f : marshalNotification evt id = Some f -> 0 < ev_Seq evt ->
  frame_covers id' f = if (id =? id')%string then [ev_Seq evt] else [].
Proof.
  intros E Hs. destruct (notification_envelope _ _ _ E Hs) as (p & -> & H1 & H2 & _).
  cbn. by rewrite H1, H2.
Qed.

Definition marshals (evt : Event) : Prop := ev_Payload evt <> Some None.

Lemma marshals_some evt id : marshals evt -> exists f, marshalNotification evt id = Some f.
Proof.
  unfold marshals, marshalNotification. intros H.
  destruct (ev_Payload evt) as [[j|]|]; [|done|cbn; eauto].
  destruct j; cbn; eauto.
Qed.

Lemma sub_frames_other evt sub id : marshals evt -> 0 < ev_Seq evt -> sub_id sub <> id ->
  covers id (map fst (sub_frames evt sub)) = [] /\ id ∉ omap snd (sub_frames evt sub).
Proof.
  intros Hm Hs Hid. unfold sub_frames. destruct (marshals_some evt (sub_id sub) Hm) as [f E].
  rewrite E. pose proof (notification_covers _ _ id _ E Hs) as Hc.
  rewrite (proj2 (String.eqb_neq _ _) Hid) in Hc.
  repeat case_match; cbn -[streamDropFrame frame_covers]; rewrite ?streamDrop_covers, ?Hc,
    ?(proj2 (String.eqb_neq _ _) Hid); (split; [done|]); rewrite ?list_elem_of_singleton; try done; set_solver.
Qed.

Lemma sub_frames_own evt sub : marshals evt -> matchesSub sub evt = true ->
  0 < sub_lastSeq sub < ev_Seq evt -> ev_Seq evt < 2 ^ 63 ->
  covers (sub_id sub) (map fst (sub_frames evt sub))
  = seqZ (sub_lastSeq sub + 1) (ev_Seq evt - sub_lastSeq sub) /\
  omap snd (sub_frames evt sub) = [sub_id sub].
Proof.
  intros Hm Hmatch Hs Hmax. unfold sub_frames. destruct (marshals_some evt (sub_id sub) Hm) as [f E].
  rewrite E, Hmatch. pose proof (notification_covers _ _ (sub_id sub) _ E ltac:(lia)) as Hc.
  rewrite String.eqb_refl in Hc. cbn [negb].
  rewrite !wrap64_id by lia.
  rewrite (proj2 (Z.ltb_lt 0 (ev_Seq evt))), (proj2 (Z.ltb_lt 0 (sub_lastSeq sub))) by lia. cbn [andb].
  destruct (Z.ltb_spec (sub_lastSeq sub + 1) (ev_Seq evt));
    cbn -[streamDropFrame frame_covers]; rewrite ?streamDrop_covers, ?String.eqb_refl, Hc, app_nil_r;
    (split; [|done]).
  - replace (ev_Seq evt - sub_lastSeq sub) with ((ev_Seq evt - 1 - (sub_lastSeq sub + 1) + 1) + 1) by lia.
    rewrite (seqZ_app _ (ev_Seq evt - 1 - (sub_lastSeq sub + 1) + 1) 1) by lia. f_equal.
    rewrite seqZ_cons by lia. f_equal. lia.
  - replace (ev_Seq evt - sub_lastSeq sub) with 1 by lia.
    rewrite seqZ_cons by lia. f_equal. lia.
Qed.

(** When the connection survives the fan-out every frame is in its mailbox,
    in order, and the cursors named by them are at the event. *)
Definition moved (seq : Z) (ids : list string) (m : gmap string Subscription) : gmap string Subscription :=
  foldl (fun m id => alter (set_lastSeq seq) id m) m ids.

Lemma push_frame_cancelled evt c f :
  c_cancelled c = true -> c_cancelled (push_frame evt c f) = true.
Proof.
  intros H. unfold push_frame. destruct (pushNotification f.1 c) as [ok c'] eqn:E.
  apply push_spec in E as (_ & K & _ & C). rewrite (C H) in *. cbn in *. by destruct f.2.
Qed.

Lemma push_frames_cancelled evt fs c :
  c_cancelled c = true -> c_cancelled (foldl (push_frame evt) c fs) = true.
Proof. revert c. induction fs as [|f fs IH]; intros c H; cbn; auto using push_frame_cancelled. Qed.

Lemma push_frames_alive evt fs c :
  0 < ev_Seq evt -> c_cancelled (foldl (push_frame evt) c fs) = false ->
  c_out (foldl (push_frame evt) c fs) = c_out c ++ map fst fs /\
  c_subscriptions (foldl (push_frame evt) c fs) = moved (ev_Seq evt) (omap snd fs) (c_subscriptions c).
Proof.
  intros Hs. revert c. induction fs as [|[f o] fs IH]; intros c; cbn; [by rewrite app_nil_r|].
  intros Hc. destruct (IH _ Hc) as [-> ->].
  destruct (c_cancelled (push_frame evt c (f, o))) eqn:E.
  { by rewrite (push_frames_cancelled evt fs) in Hc. }
  clear IH Hc. unfold push_frame in *. cbn in *.
  destruct (pushNotification f c) as [ok c'] eqn:Ep. apply push_spec in Ep as (S & K & O & _).
  destruct ok.
  2:{ destruct o; cbn in *; congruence. }
  rewrite (proj2 (Z.ltb_lt _ _) Hs) in *. destruct o as [id|]; cbn in *; rewrite O, S, <- app_assoc; done.
Qed.

Lemma moved_lookup seq ids m id :
  moved seq ids m !! id
  = (if bool_decide (id ∈ ids) then set_lastSeq seq <$> m !! id else m !! id).
Proof.
  revert m. induction ids as [|i ids IH]; intros m; [done|].
  change (moved seq (i :: ids) m) with (moved seq ids (alter (set_lastSeq seq) i m)). rewrite IH.
  destruct (decide (i = id)) as [->|Hne].
  - rewrite lookup_alter_eq. rewrite (bool_decide_true (id ∈ id :: ids)) by set_solver.
    case_bool_decide; [|done]. by destruct (m !! id).
  - rewrite lookup_alter_ne by done. by rewrite (bool_decide_ext (id ∈ i :: ids) (id ∈ ids)) by set_solver.
Qed.

(** Every subscription is registered under its own id. *)
Definition keyed (m : gmap string Subscription) : Prop := map_Forall (fun id sub => sub_id sub = id) m.

Lemma keyed_moved seq ids m : keyed m -> keyed (moved seq ids m).
Proof.
  intros H id sub Hl. rewrite moved_lookup in Hl. case_bool_decide; [|by apply H].
  apply fmap_Some in Hl as (sub' & Hl & ->). cbn. by apply H.
Qed.

Lemma others_silent evt id l : marshals evt -> 0 < ev_Seq evt ->
  Forall (fun ks : string * Subscription => sub_id ks.2 <> id) l ->
  covers id (map fst (flat_map (fun ks => sub_frames evt ks.2) l)) = [] /\
  id ∉ omap snd (flat_map (fun ks => sub_frames evt ks.2) l).
Proof.
  intros Hm Hs. induction 1 as [|ks l Hk _ [IH1 IH2]]; [split; [done|cbn; set_solver]|]. cbn [flat_map].
  destruct (sub_frames_other evt ks.2 id Hm Hs Hk) as [H1 H2].
  rewrite map_app, covers_app, H1, IH1, omap_app. split; [done|]. set_solver.
Qed.

Lemma subs_split (m : gmap string Subscription) id sub : m !! id = Some sub ->
  exists l1 l2, range m = l1 ++ (id, sub) :: l2 /\
    Forall (fun ks => ks.1 <> id) l1 /\ Forall (fun ks => ks.1 <> id) l2 /\
    Forall (fun ks => m !! ks.1 = Some ks.2) (l1 ++ l2).
Proof.
  intros Hl. pose proof (range_perm m) as Hp.
  assert (Hin : (id, sub) ∈ range m) by by rewrite Hp, elem_of_map_to_list.
  apply list_elem_of_split in Hin as (l1 & l2 & E). exists l1, l2. split; [done|].
  assert (Hnd : NoDup (range m).*1) by (rewrite Hp; apply NoDup_fst_map_to_list).
  rewrite E, fmap_app in Hnd. cbn in Hnd. apply NoDup_app in Hnd as (_ & Hn & Hnd).
  apply NoDup_cons in Hnd as [Hnd _].
  split_and!; apply List.Forall_forall; intros [k s] Hks; cbn.
  - intros ->. apply (Hn id); [|set_solver]. apply list_elem_of_fmap. exists (id, s).
    split; [done|by apply list_elem_of_In].
  - intros ->. apply Hnd. apply list_elem_of_fmap. exists (id, s). split; [done|by apply list_elem_of_In].
  - apply elem_of_map_to_list. rewrite <- Hp, E. apply list_elem_of_In in Hks. set_solver.
Qed.

Lemma fan_conn_step evt c id sub :
  keyed (c_subscriptions c) -> c_subscriptions c !! id = Some sub -> marshals evt ->
  0 < sub_lastSeq sub < ev_Seq evt -> ev_Seq evt < 2 ^ 63 ->
  c_cancelled (fan_conn evt c) = false ->
  exists fs, c_out (fan_conn evt c) = c_out c ++ fs /\ keyed (c_subscriptions (fan_conn evt c)) /\
    let last := if matchesSub sub evt then ev_Seq evt else sub_lastSeq sub in
    covers id fs = seqZ (sub_lastSeq sub + 1) (last - sub_lastSeq sub) /\
    c_subscriptions (fan_conn evt c) !! id = Some (set_lastSeq last sub).
Proof.
  intros Hk Hl Hm Hs Hmax Ha. unfold fan_conn in *.
  destruct (push_frames_alive evt _ c ltac:(lia) Ha) as [-> ->].
  eexists. split; [done|]. split; [by apply keyed_moved|]. rewrite moved_lookup, Hl.
  destruct (subs_split _ _ _ Hl) as (l1 & l2 & E & N1 & N2 & Hm12). unfold fan_frames. rewrite E.
  assert (Hid : sub_id sub = id) by by apply (Hk id).
  assert (Hne : forall l, Forall (fun ks : string * Subscription => ks.1 <> id) l ->
    Forall (fun ks => c_subscriptions c !! ks.1 = Some ks.2) l ->
    Forall (fun ks => sub_id ks.2 <> id) l).
  { intros l H1 H2. rewrite List.Forall_forall in H1, H2 |- *. intros ks Hks.
    rewrite (Hk _ _ (H2 _ Hks)). by apply H1. }
  apply Forall_app in Hm12 as [M1 M2].
  destruct (others_silent evt id l1 Hm ltac:(lia) (Hne _ N1 M1)) as [C1 I1].
  destruct (others_silent evt id l2 Hm ltac:(lia) (Hne _ N2 M2)) as [C2 I2].
  rewrite flat_map_app. cbn [flat_map snd]. rewrite !map_app, !covers_app, !omap_app, C1, C2, app_nil_r.
  destruct (matchesSub sub evt) eqn:Em.
  - destruct (sub_frames_own evt sub Hm Em Hs Hmax) as [C I]. rewrite Hid in C, I. rewrite C, I.
    rewrite bool_decide_true by set_solver. done.
  - unfold sub_frames. rewrite Em. cbn [negb map omap list_omap app covers flat_map].
    rewrite bool_decide_false by set_solver. rewrite Z.sub_diag. split; [done|]. by destruct sub.
Qed.

Definition fan_events (evts : list Event) (c : Connection) : Connection :=
  foldl (fun c e => fan_conn e c) c evts.

(** The cursor after a run of events: the last one the filter accepted. *)
Definition last_matched (sub : Subscription) (evts : list Event) : Z :=
  foldl (fun n e => if matchesSub sub e then ev_Seq e else n) (sub_lastSeq sub) evts.

Lemma last_matched_ge n sub evts m : n <= m -> Forall (fun e => n <= ev_Seq e) evts ->
  n <= foldl (fun n e => if matchesSub sub e then ev_Seq e else n) m evts.
Proof.
  intros Hm H. revert m Hm. induction H as [|e evts He _ IH]; intros m Hm; cbn; [done|].
  apply IH. by case_match.
Qed.

Lemma fan_events_cancelled evts c : c_cancelled c = true -> c_cancelled (fan_events evts c) = true.
Proof.
  unfold fan_events. revert c. induction evts as [|e evts IH]; intros c H; cbn; [done|].
  apply IH. by apply push_frames_cancelled.
Qed.

(** The live stream accounts for every sequence number.  Take any
    subscription with a live cursor on a connection with any others, and any
    events with rising seqs, however many were lost before the fan-out: if
    the connection is still up at the end, the frames it got for this
    subscription name every seq from its cursor to the last event its filter
    accepted exactly once, in order, each as an event or inside a stream.drop,
    and the cursor is at that event. *)
Theorem live_stream_accounts (id : string) (sub : Subscription) (evts : list Event) (c : Connection) :
  keyed (c_subscriptions c) -> c_subscriptions c !! id = Some sub -> 0 < sub_lastSeq sub ->
  StronglySorted (fun e1 e2 => ev_Seq e1 < ev_Seq e2) evts ->
  Forall (fun e => sub_lastSeq sub < ev_Seq e < 2 ^ 63 /\ marshals e) evts ->
  c_cancelled (fan_events evts c) = false ->
  exists fs, c_out (fan_events evts c) = c_out c ++ fs /\
    covers id fs = seqZ (sub_lastSeq sub + 1) (last_matched sub evts - sub_lastSeq sub) /\
    c_subscriptions (fan_events evts c) !! id = Some (set_lastSeq (last_matched sub evts) sub).
Proof.
  intros Hk Hl Hpos Hs. revert sub c Hk Hl Hpos.
  induction Hs as [|e evts Hs IH He]; intros sub c Hk Hl Hpos Hb Ha.
  - exists []. cbn. rewrite app_nil_r, Z.sub_diag. split_and!; try done. rewrite Hl. by destruct sub.
  - inversion Hb as [|? ? [Hseq Hm] Hb']; subst.
    change (fan_events (e :: evts) c) with (fan_events evts (fan_conn e c)) in *.
    destruct (c_cancelled (fan_conn e c)) eqn:Ec.
    { by rewrite (fan_events_cancelled evts _ Ec) in Ha. }
    destruct (fan_conn_step e c id sub Hk Hl Hm ltac:(lia) ltac:(lia) Ec) as (f1 & O1 & K1 & C1 & L1).
    set (n := if matchesSub sub e then ev_Seq e else sub_lastSeq sub) in *.
    assert (Hn : sub_lastSeq sub <= n <= ev_Seq e) by (unfold n; case_match; lia).
    edestruct (IH (set_lastSeq n sub) (fan_conn e c)) as (f2 & O2 & C2 & L2); try done.
    + cbn. lia.
    + rewrite List.Forall_forall in He, Hb' |- *. intros x Hx. specialize (He x Hx).
      destruct (Hb' x Hx). cbn. split; [lia|done].
    + change (last_matched (set_lastSeq n sub) evts) with (last_matched sub (e :: evts)) in C2, L2.
      exists (f1 ++ f2). rewrite O2, O1, app_assoc, covers_app, C1, C2, L2. cbn [sub_lastSeq set_lastSeq].
      split_and!; try done.
      assert (n <= last_matched sub (e :: evts)).
      { apply (last_matched_ge n sub evts n); [lia|]. eapply Forall_impl; [exact He|]. cbn. lia. }
      replace (last_matched sub (e :: evts) - sub_lastSeq sub)
        with ((n - sub_lastSeq sub) + (last_matched sub (e :: evts) - n)) by lia.
      rewrite seqZ_app by lia. do 2 f_equal. lia.
Qed.

(** A filtered event is reported as a lost one.  On the live path an
    event the filter rejects leaves the subscription's cursor behind, so the
    next accepted event comes after a stream.drop that declares the rejected
    one missing; the resume path moves the cursor over the same row, for this
    stated reason. *)
Theorem filtered_event_reported_dropped (id : string) (sub : Subscription) (e1 e2 : Event)
    (f : frame) (c : Connection) :
  c_subscriptions c = {[id := sub]} -> sub_id sub = id ->
  0 < sub_lastSeq sub -> ev_Seq e1 = sub_lastSeq sub + 1 -> ev_Seq e2 = sub_lastSeq sub + 2 ->
  ev_Seq e2 < 2 ^ 63 -> matchesSub sub e1 = false -> matchesSub sub e2 = true ->
  marshalNotification e2 id = Some f -> c_cancelled (fan_events [e1; e2] c) = false ->
  c_out (fan_events [e1; e2] c) = c_out c ++ [streamDropFrame id (ev_Seq e1) (ev_Seq e1); f] /\
  (forall rec c0, replay_event rec = e1 ->
     (pushReplayRecord rec (c0, sub)).2 = (c0, set_lastSeq (ev_Seq e1) sub)).
Proof.
  intros Hsubs Hid Hpos H1 H2 Hmax M1 M2 Hf Ha. split.
  - assert (Er : range (c_subscriptions c) = [(id, sub)]).
    { apply Permutation_singleton_r. rewrite range_perm, Hsubs. by rewrite map_to_list_singleton. }
    assert (E1 : fan_conn e1 c = c).
    { unfold fan_conn, fan_frames. rewrite Er. cbn. unfold sub_frames. by rewrite M1. }
    unfold fan_events in *. cbn [foldl] in *. rewrite E1 in *. unfold fan_conn in *.
    destruct (push_frames_alive e2 _ c ltac:(lia) Ha) as [-> _]. f_equal.
    unfold fan_frames. rewrite Er. cbn [flat_map snd]. rewrite app_nil_r. unfold sub_frames.
    rewrite M2, Hid, Hf. cbn [negb].
    rewrite !wrap64_id by lia.
    rewrite (proj2 (Z.ltb_lt 0 (ev_Seq e2))), (proj2 (Z.ltb_lt 0 (sub_lastSeq sub))),
      (proj2 (Z.ltb_lt (sub_lastSeq sub + 1) (ev_Seq e2))) by lia. cbn [andb app map fst].
    by rewrite H1, H2, <- Z.add_sub_assoc.
  - intros rec c0 E. unfold pushReplayRecord. rewrite E, M1. cbn.
    assert (rr_Seq rec = ev_Seq e1) as -> by by rewrite <- E.
    rewrite advance_seq by lia. do 2 f_equal. lia.
Qed.

(** ** The subscription table *)

Lemma handleUnsubscribe_spec m id sub c :
  conn_params dec_subscriptionRef "" (Some (JObj m)) = Ok id -> id <> "" ->
  c_subscriptions c !! id = Some sub ->
  handleUnsubscribe (Some (JObj m)) c = (Ok tt, set_subs (delete id (c_subscriptions c)) c).
Proof.
  intros Hp Hid Hl. unfold handleUnsubscribe, withSubscription. rewrite Hp.
  destruct id; [done|]. cbn. by rewrite Hl.
Qed.

(** After an unsubscribe the live path sends nothing under that id. *)
Lemma unsubscribed_is_silent id c evt : keyed (c_subscriptions c) -> c_subscriptions c !! id = None ->
  marshals evt -> 0 < ev_Seq evt -> c_cancelled (fan_conn evt c) = false ->
  exists fs, c_out (fan_conn evt c) = c_out c ++ fs /\ covers id fs = [].
Proof.
  intros Hk Hl Hm Hs Ha. unfold fan_conn in *.
  destruct (push_frames_alive evt _ c Hs Ha) as [-> _]. eexists. split; [done|].
  apply (others_silent evt id _ Hm Hs). apply List.Forall_forall. intros [k s] Hks. cbn.
  assert (Hm' : c_subscriptions c !! k = Some s).
  { apply elem_of_map_to_list. rewrite <- range_perm. by apply list_elem_of_In. }
  rewrite (Hk _ _ Hm'). by intros ->; rewrite Hl in Hm'.
Qed.

(** A subscription whose pong is overdue is closed with its own cursor, and
    only then; otherwise it is pinged and kept. *)
Lemma tick_sub_spec pongTimeout now c sub c' : tick_sub pongTimeout now c sub = c' ->
  let overdue := (0 <? pongTimeout) && (pongTimeout <? now - sub_lastPongAt sub) in
  c_subscriptions c' = (if overdue then delete (sub_id sub) (c_subscriptions c) else c_subscriptions c) /\
  (c_cancelled c' = false -> c_out c' = c_out c ++
     [if overdue then subscribeClosedPongTimeoutFrame (sub_id sub) (sub_lastSeq sub)
      else subscribePingFrame (sub_id sub)]).
Proof.
  intros <-. unfold tick_sub. cbn zeta.
  destruct ((0 <? pongTimeout) && _);
    [set (f := subscribeClosedPongTimeoutFrame _ _)|set (f := subscribePingFrame _)];
    destruct (pushNotification f c) as [ok c1] eqn:E;
    pose proof (push_spec _ _ _ _ E) as (S & K & O & _); cbn; rewrite S; (split; [done|]);
    rewrite K; destruct ok; intros; try done; by rewrite O.
Qed.

End Socket.

(** ** A concrete daemon *)

(** A writer that keeps up, a client that stays, a pattern that is a literal
    and payloads that are one JSON string. *)
Definition demo_peer : Peer := {| pe_taken := fun _ => 1%nat; pe_hangup := fun _ => false |}.
Definition demo_library : Library := {|
  re_Compile := fun _ => Ok tt; re_MatchString := fun re s => (re =? s)%string;
  json_parse := fun s => Some (JStr s) |}.
Definition demo_subs_order : MapRange string Subscription :=
  {| range := map_to_list; range_perm := fun m => reflexivity (map_to_list m) |}.
#[local] Existing Instances demo_peer demo_library demo_subs_order.

Definition demo_table : EventTable :=
  foldl sql_step (events_Open 3)
    [OpAppend 5 (demo_rec 0 "message"); OpAppend 6 (demo_rec 0 "receipt");
     OpAppend 7 (demo_rec 0 "message"); OpAppend 8 (demo_rec 0 "receipt");
     OpAppend 9 (demo_rec 0 "message")].
Definition demo_reads : ring_reads := mkReads (fun _ => demo_table) (fun _ => None).
Definition demo_params : RawMessage :=
  Some (JObj [("events", JArr [JStr "message"]); ("since", JNum "1")]).
Definition demo_conn : Connection :=
  (handleSubscribe 5 (Some demo_reads) (Some "s1") 0 demo_params newConnection).2.

Lemma resume_replays_missed_witness :
  exists sub, c_out demo_conn = gap_frames sub 3 ++ batch_frames sub (unread 1 demo_table) /\
    covers "s1" (c_out demo_conn) = [2; 3; 5] /\ sub_lastSeq sub = 5.
Proof.
  destruct (resume_replays_missed 5 demo_reads demo_table "s1" 0 demo_params newConnection demo_conn 1)
    as (sub & fs & _ & _ & _ & Ho & Hw).
  - split; reflexivity.
  - vm_compute. repeat constructor.
  - apply List.Forall_forall. intros x Hx. vm_compute in Hx.
    destruct Hx as [<-|[<-|[<-|[]]]]; cbn; lia.
  - vm_compute. lia.
  - vm_compute. reflexivity.
  - lia.
  - cbn zeta in Hw. destruct Hw as [_ Hw]. destruct Hw as [Hfs Hl]; [vm_compute; reflexivity|].
    exists sub. split; [|split].
    + rewrite Ho, Hfs. reflexivity.
    + vm_compute. reflexivity.
    + rewrite Hl. vm_compute. reflexivity.
Defined.

Definition demo_event (seq : Z) (type : string) : Event := mkEvent type seq "" "" "" None.
Definition demo_sub : Subscription := mkSub "s1" {["message"]} [] [] [] "" None 1 5 0 0.
Definition demo_live : Connection := set_subs {["s1" := demo_sub]} newConnection.

Lemma live_stream_accounts_witness :
  exists fs, c_out (fan_events [demo_event 8 "message"; demo_event 9 "receipt"] demo_live) = fs /\
    covers "s1" fs = seqZ 6 3.
Proof.
  destruct (live_stream_accounts "s1" demo_sub [demo_event 8 "message"; demo_event 9 "receipt"] demo_live)
    as (fs & Ho & Hc & _).
  - cbn. intros i x Hx. apply lookup_singleton_Some in Hx as [<- <-]. reflexivity.
  - vm_compute. reflexivity.
  - cbn. lia.
  - repeat constructor.
  - repeat constructor; discriminate.
  - vm_compute. reflexivity.
  - exists fs. split; [exact Ho|]. rewrite Hc. vm_compute. reflexivity.
Defined.

Lemma filtered_event_reported_dropped_witness :
  exists f, marshalNotification (demo_event 7 "message") "s1" = Some f /\
    c_out (fan_events [demo_event 6 "receipt"; demo_event 7 "message"] demo_live)
    = [streamDropFrame "s1" 6 6; f].
Proof.
  eexists. split; [vm_compute; reflexivity|].
  apply (filtered_event_reported_dropped "s1" demo_sub (demo_event 6 "receipt")
           (demo_event 7 "message") _ demo_live); vm_compute; reflexivity.
Defined.
