(* ===== verification/Transport.v ===== *)
(** * The socket transport

    [internal/adapters/primary/socket] below the subscriptions of
    [EventStream]: the error codes ([errcodes.go]), the [system.hello] gate
    ([hello.go]), the cap on inbound frames ([framecap.go]), one connection
    from accept to dispatch ([accept.go], [dispatch.go]), the checks before
    listening ([listener.go]) and the single-instance lock ([lock.go] with
    [Server.Run]).

    What a client sends is the bytes and when they arrive; the jrpc2 library's
    reading of a frame as requests, the JSON text parser and the dispatcher
    behind the adapter are parameters. *)
From S2P Require Import Prelude GoStd Errors Json EventStream.

#[local] Open Scope string_scope.
#[local] Open Scope list_scope.
#[local] Open Scope Z_scope.

Definition nl : ascii := chr 10.

(** ** errcodes.go *)

Definition CodeParseError : Z := -32700.
Definition CodeInvalidRequest : Z := -32600.
Definition CodeMethodNotFound : Z := -32601.
Definition CodePeerCredRejected : Z := -32000.
Definition CodeRequestTimeoutDuringShutdown : Z := -32003.
Definition CodeOversizedMessage : Z := -32004.
Definition CodeProtocolMismatch : Z := -32008.
Definition CodePolicyRefused : Z := -32100.
Definition CodeIdempotencyCollision : Z := -32101.
Definition CodeRateLimited : Z := -32200.
Definition CodeMediaTooLarge : Z := -32201.
Definition CodeUnsupportedMessageType : Z := -32300.
Definition CodeMediaNotCached : Z := -32301.
Definition CodeMessageUnknown : Z := -32302.
Definition CodeMessageIDAmbiguous : Z := -32303.

Definition errCodeName : list (Z * string) :=
  [(CodeParseError, "Parse error"); (CodeInvalidRequest, "Invalid Request");
   (CodeMethodNotFound, "Method not found"); (CodeInvalidParams, "Invalid params");
   (CodeInternalError, "Internal error");
   (CodePeerCredRejected, "PeerCredRejected"); (CodeBackpressure, "Backpressure");
   (CodeShutdownInProgress, "ShutdownInProgress");
   (CodeRequestTimeoutDuringShutdown, "RequestTimeoutDuringShutdown");
   (CodeOversizedMessage, "OversizedMessage"); (CodeSubscriptionClosed, "SubscriptionClosed");
   (CodePongTimeout, "PongTimeout"); (CodeStreamDrop, "StreamDrop");
   (CodeProtocolMismatch, "ProtocolMismatch");
   (CodePolicyRefused, "PolicyRefused"); (CodeIdempotencyCollision, "IdempotencyCollision");
   (CodeRateLimited, "RateLimited"); (CodeMediaTooLarge, "MediaTooLarge");
   (CodeUnsupportedMessageType, "UnsupportedMessageType"); (CodeMediaNotCached, "MediaNotCached");
   (CodeMessageUnknown, "MessageUnknown"); (CodeMessageIDAmbiguous, "MessageIDAmbiguous")].
Definition code_name (c : Z) : string :=
  match List.find (fun kv => kv.1 =? c) errCodeName with Some kv => kv.2 | None => "" end.

(** ** What arrives *)

(** How the bytes of a client end. *)
Inductive stop := AtEOF | AtError.
(** The bytes with the time each chunk arrives, from [accept] on, in order, and
    when they end. *)
Record arrivals := mkArrivals { ar_chunks : list (Z * string); ar_stop : stop; ar_end : Z }.

Fixpoint split_at_budget (budget : Z) (l : list (Z * string)) : string * list (Z * string) :=
  match l with
  | [] => ("", [])
  | (t, b) :: l => if t <? budget
                   then let '(early, late) := split_at_budget budget l in (b +:+ early, late)
                   else ("", (t, b) :: l)
  end.
Definition bytes_of (l : list (Z * string)) : string := str_concat (map snd l).

(** ** hello.go *)

Definition ProtoVersion : Z := 2.
Definition HelloBudget : Z := 5000000000.

Record helloRequest := mkHello { hq_JSONRPC : string; hq_Method : string; hq_ID : RawMessage; hq_ProtoVersion : Z }.

Definition dec_raw (old : RawMessage) (j : json) : option RawMessage := Some (Some j).
Definition dec_hello_params (old : Z) (j : json) : option Z :=
  match j with JObj m => field dec_int old "protoVersion" m | JNull => Some old | _ => None end.
Definition dec_hello (j : json) : option helloRequest :=
  match j with
  | JObj m =>
    v ← field dec_str "" "jsonrpc" m; method ← field dec_str "" "method" m;
    id ← field dec_raw None "id" m; proto ← field dec_hello_params 0 "params" m;
    Some (mkHello v method id proto)
  | JNull => Some (mkHello "" "" None 0)
  | _ => None
  end.

Inductive hello_error := errHelloTimeout | errHelloBadFrame | errHelloDeadline | errHelloWrite.
Inductive hello_reply :=
| HelloResult (id : json) (serverVersion : string) (acceptedProtoVersion : Z)
| HelloError (id : json) (code : Z) (message reason : string).

Definition helloID (raw : RawMessage) : json := default JNull raw.

Definition semver_char (c : ascii) : bool :=
  is_digit c || is_upper c || is_lower c || Ascii.eqb c "." || Ascii.eqb c "-".
Definition digits (s : string) : bool := negb (str_empty s) && str_forallb is_digit s.
Definition tail_ok (s : string) : bool := negb (str_empty s) && str_forallb semver_char s.

(** [\d+\.\d+\.\d+(?:-[0-9A-Za-z.-]+)?(?:\+[0-9A-Za-z.-]+)?]: neither tail can
    hold a plus sign, and the three numbers hold no minus. *)
Definition semverRE (v : string) : bool :=
  let '(front, build) := match cut_byte "+" v with Some (a, b) => (a, tail_ok b) | None => (v, true) end in
  let '(core, pre) := match cut_byte "-" front with Some (a, b) => (a, tail_ok b) | None => (front, true) end in
  build && pre && match split_byte "." core with [a; b; c] => digits a && digits b && digits c | _ => false end.
Definition stripVPrefix (v : string) : string :=
  match v with String c r => if Ascii.eqb c "v" || Ascii.eqb c "V" then r else v | EmptyString => v end.
Definition sanitizeServerVersion (v : string) : string :=
  let v := stripVPrefix v in if semverRE v then v else "0.0.0".

Definition helloErrorFrame (id : RawMessage) (detail : string) : hello_reply :=
  HelloError (helloID id) CodeProtocolMismatch "protocol_mismatch" detail.
Definition helloResultFrame (id : RawMessage) (serverVersion : string) : hello_reply :=
  HelloResult (helloID id) (sanitizeServerVersion serverVersion) ProtoVersion.

(** What the operating system does with a connection: whether the two
    deadlines can be set and the answer be written. *)
Record conn_faults := mkConnFaults { cf_set : bool; cf_clear : bool; cf_write : bool }.

Section Gate.
Context {library : Library}.

(** The bytes left for the frames that follow, or why there are none; and what
    was written. *)
Definition handshake (fl : conn_faults) (serverVersion : string) (budget : Z) (a : arrivals)
    : res hello_error string * list hello_reply :=
  let budget := if budget <=? 0 then HelloBudget else budget in
  if cf_set fl then (Err errHelloDeadline, [])
  else
    let '(early, late) := split_at_budget budget (ar_chunks a) in
    match cut_byte nl early with
    | None =>
      (Err (match late with
            | [] => if ar_end a <? budget then errHelloBadFrame else errHelloTimeout
            | _ => errHelloTimeout
            end), [helloErrorFrame None "handshake timed out"])
    | Some (line, rest) =>
      if cf_clear fl then (Err errHelloDeadline, [])
      else
        match (j ← json_parse line; dec_hello j) with
        | None => (Err errHelloBadFrame, [helloErrorFrame None "malformed hello frame"])
        | Some req =>
          if negb (String.eqb (hq_JSONRPC req) "2.0") || negb (String.eqb (hq_Method req) "system.hello")
          then (Err errHelloBadFrame, [helloErrorFrame (hq_ID req) "first frame must be system.hello"])
          else if negb (hq_ProtoVersion req =? ProtoVersion)
          then (Err errHelloBadFrame,
                [helloErrorFrame (hq_ID req) ("protoVersion " +:+ itoa (hq_ProtoVersion req)
                   +:+ " not supported; server speaks " +:+ itoa ProtoVersion)])
          else if cf_write fl then (Err errHelloWrite, [])
          else (Ok (rest +:+ bytes_of late), [helloResultFrame (hq_ID req) serverVersion])
        end
    end.

End Gate.

(** ** framecap.go *)

Definition maxFrameBytes : Z := 2 ^ 20.

Record boundedChannel := mkBounded { bc_rest : string; bc_stop : stop; bc_limit : Z; bc_oversized : bool }.

Inductive received :=
| Frame (buf : string)                     (* a frame *)
| Partial (buf : string) (e : stop)        (* bytes and the error that ended them *)
| Closed (e : stop)
| Oversized.                               (* errOversizedFrame *)

(** The loop of [Recv]: the bytes read so far and how many there are. *)
Fixpoint recv_loop (limit : Z) (e : stop) (buf : string) (n : Z) (rest : string) : received * string :=
  match rest with
  | EmptyString => (if str_empty buf then Closed e else Partial buf e, "")
  | String b rest =>
    if Ascii.eqb b nl then (Frame buf, rest)
    else if limit <=? n then (Oversized, rest)
    else recv_loop limit e (buf +:+ String b "") (n + 1) rest
  end.

Definition oversizedFrame : frame :=
  FError CodeOversizedMessage (code_name CodeOversizedMessage) (Some {["reason" := AStr "frame exceeds 1 MiB cap"]}).

(** The frame it writes to the peer, when it does. *)
Definition Recv (c : boundedChannel) : received * boundedChannel * list frame :=
  if bc_oversized c then (Oversized, c, [])
  else
    let '(r, rest) := recv_loop (bc_limit c) (bc_stop c) "" 0 (bc_rest c) in
    match r with
    | Oversized => (Oversized, mkBounded rest (bc_stop c) (bc_limit c) true, [oversizedFrame])
    | r => (r, mkBounded rest (bc_stop c) (bc_limit c) false, [])
    end.

(** What jrpc2 is handed, one [Recv] after another until one fails: the frames,
    with a last one that only the end of input ended, and what the peer was
    told.  Every turn but the last takes a byte; [n] bounds the turns. *)
Fixpoint drain (n : nat) (c : boundedChannel) : list string * list frame * boundedChannel :=
  match n with
  | O => ([], [], c)
  | S n =>
    let '(r, c, told) := Recv c in
    match r with
    | Frame buf => let '(l, t, c) := drain n c in (buf :: l, told ++ t, c)
    | Partial buf AtEOF => ([buf], told, c)
    | _ => ([], told, c)
    end
  end.

(** ** dispatch.go *)

(** An error the dispatcher or the adapter answers with. *)
Inductive sock_error :=
| SJrpc (code : Z) (msg : string)            (* a *jrpc2.Error *)
| SBackpressure | SShutdown                  (* the adapter's own sentinels *)
| SApp (e : goerr)
| SWrap (pre : string) (e : sock_error).     (* fmt.Errorf(pre+"%w", e) *)

(** The application's error inside, with what it was wrapped in. *)
Fixpoint app_error (e : sock_error) : option goerr :=
  match e with
  | SApp e => Some e
  | SWrap pre e => (fun e => EWrap pre e "") <$> app_error e
  | _ => None
  end.
Fixpoint sock_leaf (e : sock_error) : sock_error :=
  match e with SWrap _ e => sock_leaf e | e => e end.

Definition toRPCError (e : sock_error) : Z * string :=
  match sock_leaf e with
  | SJrpc code msg => (code, msg)
  | SBackpressure => (CodeBackpressure, code_name CodeBackpressure)
  | SShutdown => (CodeShutdownInProgress, code_name CodeShutdownInProgress)
  | _ => RPCWire (app_error e)
  end.

(** What [Dispatcher.Handle] does: answer, with no result or one; fail; panic
    with a value. *)
Inductive handled := HResult (raw : option json) | HError (e : sock_error) | HPanic (value : string).

Definition hex_of (b : list Z) : string :=
  str_concat (map (fun z => String (chr (if z / 16 <? 10 then 48 + z / 16 else 87 + z / 16))
                       (String (chr (if z mod 16 <? 10 then 48 + z mod 16 else 87 + z mod 16)) "")) b).
(** Four bytes of the system's generator, if it has them. *)
Definition panicRef (rng : option (list Z)) : string :=
  match rng with Some b => hex_of b | None => "norand" end.

Class SocketDispatcher := { sd_Handle : string -> RawMessage -> handled; sd_rng : string -> option (list Z) }.

(** One request of a frame. *)
Record jrequest := mkReq { rq_id : string; rq_method : string; rq_params : RawMessage; rq_hasParams : bool }.

Abbreviation rpc_answer := (res (Z * string)).
(** What becomes of a request: the answer, and the calls of the dispatcher. *)
Abbreviation answered := (rpc_answer (option json) * list (string * RawMessage))%type.

Section Dispatch.
Context {dispatcher : SocketDispatcher}.

Definition dispatchRecovered (method reqID : string) (params : RawMessage) : answered :=
  (match sd_Handle method params with
   | HPanic _ => Err (CodeInternalError, "Internal error (ref " +:+ panicRef (sd_rng reqID) +:+ ")")
   | HError e => Err (toRPCError e)
   | HResult raw => Ok raw
   end, [(method, params)]).

Definition request_params (req : jrequest) : RawMessage := if rq_hasParams req then rq_params req else None.

Definition makeDispatchFunc (shutdownStarted : bool) (method : string) (req : jrequest) : answered :=
  if shutdownStarted then (Err (CodeShutdownInProgress, code_name CodeShutdownInProgress), [])
  else dispatchRecovered method (rq_id req) (request_params req).

(** The three methods the adapter keeps for itself. *)
Inductive route := RSubscribe | RUnsubscribe | RPong | RDispatch (method : string).
Definition Assign (method : string) : route :=
  if String.eqb method "subscribe" then RSubscribe
  else if String.eqb method "unsubscribe" then RUnsubscribe
  else if String.eqb method "subscribe.pong" then RPong
  else RDispatch method.

(** The calls of the dispatcher a request causes. *)
Definition reaches (shutdownStarted : bool) (req : jrequest) : list (string * RawMessage) :=
  match Assign (rq_method req) with
  | RDispatch method => (makeDispatchFunc shutdownStarted method req).2
  | _ => []
  end.
End Dispatch.

(** ** accept.go and server.go *)

Record sconn := mkSconn { sc_id : Z; sc_peerUID : Z }.
Record server := mkServer {
  sv_conns : gmap Z sconn; sv_connCounter : Z; sv_maxConns : Z; sv_shutdownStarted : bool;
  sv_serverVersion : string; sv_helloBudget : Z }.

Definition NewServer (version : string) : server := mkServer ∅ 0 16 false version HelloBudget.
Definition set_conns (m : gmap Z sconn) (s : server) : server :=
  mkServer m (sv_connCounter s) (sv_maxConns s) (sv_shutdownStarted s) (sv_serverVersion s) (sv_helloBudget s).

(** One accepted connection: the peer's uid, as far as the system tells it. *)
Definition accept_one (euid : Z) (uid : option Z) (s : server) : option sconn * server :=
  match uid with
  | None => (None, s)
  | Some uid =>
    if negb (uid =? euid) then (None, s)
    else
      let c := mkSconn (sv_connCounter s + 1) uid in
      (Some c, mkServer (<[sc_id c := c]> (sv_conns s)) (sv_connCounter s + 1) (sv_maxConns s)
                 (sv_shutdownStarted s) (sv_serverVersion s) (sv_helloBudget s))
  end.
Definition removeConn (c : sconn) (s : server) : server := set_conns (delete (sc_id c) (sv_conns s)) s.

Section Serve.
Context {library : Library} {dispatcher : SocketDispatcher} (requests_of : string -> list jrequest).

(** [serveConn]: the answers to the greeting, the frames after it, and the
    calls of the dispatcher they cause, in the order of the frames.  jrpc2 runs
    them concurrently. *)
Record served := mkServed {
  sd_hello : list hello_reply; sd_frames : list string; sd_told : list frame; sd_calls : list (string * RawMessage) }.

Definition serveConn (fl : conn_faults) (a : arrivals) (s : server) : served :=
  match handshake fl (sv_serverVersion s) (sv_helloBudget s) a with
  | (Err _, hello) => mkServed hello [] [] []
  | (Ok rest, hello) =>
    let '(frames, told, _) := drain (S (String.length rest)) (mkBounded rest (ar_stop a) maxFrameBytes false) in
    mkServed hello frames told (flat_map (reaches (sv_shutdownStarted s)) (flat_map requests_of frames))
  end.

(** The accept loop on one connection, to its end. *)
Definition acceptLoop (euid : Z) (uid : option Z) (fl : conn_faults) (a : arrivals) (s : server) : option served * server :=
  match accept_one euid uid s with
  | (None, s) => (None, s)
  | (Some c, s) => (Some (serveConn fl a s), removeConn c s)
  end.
End Serve.

(** ** listener.go *)

Inductive listen_error :=
| ErrInvalidPath | ErrPathTooLong | ErrParentCreate | ErrParentWorldWritable | ErrParentSymlinkAttack
| ErrListen | ErrChmod.

Definition maxSunPath : Z := 108.
(** What [os.Lstat] says of the parent, and [os.Stat] of what it leads to. *)
Record dir_info := mkDirInfo { di_perm : Z; di_symlink : bool; di_uid : option Z; di_target : Z }.
Record host := mkHost {
  ho_mkdir : bool;                  (* os.MkdirAll fails *)
  ho_lstat : option dir_info;       (* what the parent is then *)
  ho_chmod : option Z;              (* the permissions after os.Chmod, if it works *)
  ho_bind : bool;                   (* binding the socket fails *)
  ho_chmod_sock : option Z }.       (* the permissions of the socket after os.Chmod *)

Definition checkSymlinkOwner (euid : Z) (i : dir_info) : check listen_error :=
  match di_uid i with
  | None => Err ErrParentSymlinkAttack
  | Some uid => if negb (uid =? euid) then Err ErrParentSymlinkAttack else Ok tt
  end.

Definition validateParentDir (euid : Z) (h : host) : check listen_error :=
  if ho_mkdir h then Err ErrParentCreate
  else match ho_lstat h with
       | None => Err ErrParentCreate
       | Some i =>
         if negb (Z.land (di_perm i) 16 =? 0) || negb (Z.land (di_perm i) 2 =? 0) then Err ErrParentWorldWritable
         else
           let* _ := (if di_symlink i then checkSymlinkOwner euid i else Ok tt) in
           match ho_chmod h with
           | None => Err ErrParentCreate
           | Some mode => if negb (Z.land mode 63 =? 0) then Err ErrParentWorldWritable else Ok tt
           end
       end.

Definition IsAbs (path : string) : bool := has_prefix "/" path.

Definition listen (euid : Z) (path : string) (h : host) : check listen_error :=
  if negb (IsAbs path) then Err ErrInvalidPath
  else if maxSunPath <? len path then Err ErrPathTooLong
  else
    let* _ := validateParentDir euid h in
    if ho_bind h then Err ErrListen
    else match ho_chmod_sock h with
         | None => Err ErrChmod
         | Some mode => if negb (mode =? 384) then Err ErrChmod else Ok tt
         end.

(** ** lock.go, and [Server.Run] around it *)

(** Where a process is: not running, holding the lock, done with the stale
    socket, listening, and past closing its listener. *)
Inductive phase := PIdle | PLocked | PClean | PServing | PClosed | PRemoved.
#[global] Instance phase_eq_dec : EqDecision phase.
Proof. solve_decision. Defined.

(** The lock file's holder, the socket at the path and who bound it, and the
    processes that were started with this path. *)
Record machine := mkMachine { w_lock : option Z; w_sock : option Z; w_phase : Z -> phase }.
Definition set_phase (p : Z) (ph : phase) (f : Z -> phase) : Z -> phase :=
  fun q => if q =? p then ph else f q.
Definition idle : machine := mkMachine None None (fun _ => PIdle).

Inductive run_step : machine -> machine -> Prop :=
| run_acquire p l s f : l = None -> f p = PIdle ->          (* flock(LOCK_EX|LOCK_NB) *)
    run_step (mkMachine l s f) (mkMachine (Some p) s (set_phase p PLocked f))
| run_remove_stale p l s f : f p = PLocked ->
    run_step (mkMachine l s f) (mkMachine l None (set_phase p PClean f))
| run_remove_fails p l s f : f p = PLocked ->
    run_step (mkMachine l s f) (mkMachine None s (set_phase p PIdle f))
| run_listen p l f : f p = PClean ->                        (* bind needs a free path *)
    run_step (mkMachine l None f) (mkMachine l (Some p) (set_phase p PServing f))
| run_listen_fails p l s f : f p = PClean ->
    run_step (mkMachine l s f) (mkMachine None s (set_phase p PIdle f))
| run_close p l s f b : f p = PServing ->                   (* the listener may unlink its socket *)
    run_step (mkMachine l s f) (mkMachine l (if b : bool then None else s) (set_phase p PClosed f))
| run_remove p l s f : f p = PClosed ->
    run_step (mkMachine l s f) (mkMachine l None (set_phase p PRemoved f))
| run_release p l s f : f p = PRemoved ->
    run_step (mkMachine l s f) (mkMachine None s (set_phase p PIdle f))
| run_killed p l s f : f p <> PIdle ->                      (* the kernel drops the lock *)
    run_step (mkMachine l s f) (mkMachine None s (set_phase p PIdle f)).

Inductive runs : machine -> machine -> Prop :=
| runs_none w : runs w w
| runs_more w w' w'' : runs w w' -> run_step w' w'' -> runs w w''.

(** ** The lock *)

Definition lock_inv (w : machine) : Prop :=
  (forall p, w_phase w p <> PIdle -> w_lock w = Some p)
  /\ (forall p, w_phase w p = PServing -> w_sock w = Some p).

Lemma set_phase_same p ph f : set_phase p ph f p = ph.
Proof. unfold set_phase. by rewrite Z.eqb_refl. Qed.
Lemma set_phase_other p q ph f : q <> p -> set_phase p ph f q = f q.
Proof. intros Hn. unfold set_phase. by destruct (Z.eqb_spec q p). Qed.

(** A process that changes its phase, seen from the others. *)
Lemma lock_inv_step p l s s' l' f ph : lock_inv (mkMachine l s f) ->
  (f p <> PIdle \/ l = None) ->
  (ph = PIdle \/ l' = Some p) -> (ph = PServing -> s' = Some p) ->
  lock_inv (mkMachine l' s' (set_phase p ph f)).
Proof.
  intros [H1 H2] Hp Hl Hs. cbn in *.
  assert (Hq : forall q, q <> p -> f q = PIdle).
  { intros q Hne. destruct (decide (f q = PIdle)) as [|Hn]; [done|]. pose proof (H1 q Hn).
    destruct Hp as [Hp|Hp]; [pose proof (H1 p Hp); congruence|congruence]. }
  split; cbn; intros q Hq'; destruct (decide (q = p)) as [->|Hne];
    rewrite ?set_phase_same, ?set_phase_other in Hq' by done.
  - by destruct Hl as [->|].
  - by rewrite Hq in Hq'.
  - by apply Hs.
  - by rewrite Hq in Hq'.
Qed.

Lemma run_step_inv w w' : run_step w w' -> lock_inv w -> lock_inv w'.
Proof.
  intros Hs Hi. destruct Hs; (eapply lock_inv_step; [exact Hi|..]); try (left; congruence); try (by right); try done.
  all: right; destruct Hi as [H1 _]; apply H1; cbn; congruence.
Qed.

Lemma runs_inv w : runs idle w -> lock_inv w.
Proof. intros Hr. remember idle as w0 eqn:E. induction Hr; [by subst|]. eapply run_step_inv; eauto. Qed.

(** C22. One daemon per socket.  However starts, stops, failures and kills of
    any number of processes interleave on one path, two of them are never past
    the lock at once; the socket at the path belongs to the one that serves;
    and nothing another process does takes it away while it serves. *)
Theorem one_daemon_per_socket w : runs idle w ->
  (forall p q, w_phase w p <> PIdle -> w_phase w q <> PIdle -> p = q)
  /\ (forall p, w_phase w p = PServing -> w_lock w = Some p /\ w_sock w = Some p)
  /\ (forall p w', w_phase w p = PServing -> run_step w w' ->
      w_phase w' p = PServing -> w_lock w' = Some p /\ w_sock w' = Some p).
Proof.
  intros Hr. pose proof (runs_inv w Hr) as Hi. destruct Hi as [H1 H2]. split_and!.
  - intros p q Hp Hq. pose proof (H1 p Hp). pose proof (H1 q Hq). congruence.
  - intros p Hp. split; [apply H1; congruence|by apply H2].
  - intros p w' _ Hs Hp'. destruct (run_step_inv w w' Hs (conj H1 H2)) as [H1' H2'].
    split; [apply H1'; congruence|by apply H2'].
Qed.

Lemma one_daemon_per_socket_witness : exists w,
  runs idle w /\ w_phase w 2 = PServing /\ w_lock w = Some 2 /\ w_sock w = Some 2.
Proof.
  eexists. split.
  - eapply runs_more; [eapply runs_more; [eapply runs_more; [eapply runs_more; [eapply runs_more; [eapply runs_more;
      [eapply runs_more; [apply runs_none|]|]|]|]|]|]|].
    + apply (run_acquire 1); done.
    + by apply (run_remove_stale 1).
    + by apply (run_listen 1).
    + by apply (run_killed 1).
    + by apply (run_acquire 2).
    + by apply (run_remove_stale 2).
    + by apply (run_listen 2).
  - split; [done|]. apply one_daemon_per_socket; [|done].
    eapply runs_more; [eapply runs_more; [eapply runs_more; [eapply runs_more; [eapply runs_more; [eapply runs_more;
      [eapply runs_more; [apply runs_none|]|]|]|]|]|]|].
    + apply (run_acquire 1); done.
    + by apply (run_remove_stale 1).
    + by apply (run_listen 1).
    + by apply (run_killed 1).
    + by apply (run_acquire 2).
    + by apply (run_remove_stale 2).
    + by apply (run_listen 2).
Defined.

(** ** The cap on frames *)

(** The pieces between newlines, the last of which nothing ends: the frames a
    splitter of lines would give up to the first piece that is too long, and
    whether there is one. *)
Fixpoint lines_under (limit : Z) (e : stop) (pieces : list string) : list string * bool :=
  match pieces with
  | [] => ([], false)
  | [last] => if limit <? len last then ([], true)
              else (if str_empty last then [] else match e with AtEOF => [last] | AtError => [] end, false)
  | l :: pieces => if limit <? len l then ([], true)
                   else let '(fs, over) := lines_under limit e pieces in (l :: fs, over)
  end.

Lemma len_snoc buf b : len (buf +:+ String b "") = len buf + 1.
Proof. unfold len. rewrite str_app_length. cbn. lia. Qed.
Lemma len_cons b l : len (String b l) = len l + 1.
Proof. unfold len. cbn. lia. Qed.

Lemma recv_line limit e l rest : no_byte nl l = true -> forall buf, len buf <= limit ->
  recv_loop limit e buf (len buf) (l +:+ String nl rest)
  = if limit <? len buf + len l then (Oversized, str_drop (Z.to_nat (limit - len buf) + 1) l +:+ String nl rest)
    else (Frame (buf +:+ l), rest).
Proof.
  unfold no_byte. induction l as [|b l IH]; intros Hl buf Hb.
  - rewrite str_app_nil_r. cbn [String.append recv_loop]. rewrite Ascii.eqb_refl. unfold len at 2. cbn [String.length].
    by rewrite (proj2 (Z.ltb_ge _ _)) by lia.
  - cbn [str_forallb] in Hl. apply andb_true_iff in Hl as [Hn Hl]. apply negb_true_iff in Hn.
    cbn [String.append recv_loop]. rewrite Hn, len_cons. pose proof (len_nonneg l) as Hp. destruct (Z.leb_spec limit (len buf)) as [Hle|Hlt].
    + rewrite (proj2 (Z.ltb_lt _ _)) by lia. replace (limit - len buf) with 0 by lia. cbn. by destruct l.
    + rewrite <- (len_snoc buf b), (IH Hl) by (rewrite len_snoc; lia). rewrite len_snoc.
      replace (len buf + 1 + len l) with (len buf + (len l + 1)) by lia.
      destruct (limit <? len buf + (len l + 1)).
      * replace (Z.to_nat (limit - len buf) + 1)%nat with (S (Z.to_nat (limit - (len buf + 1)) + 1)) by lia. done.
      * by rewrite <- str_app_assoc.
Qed.

Lemma recv_last limit e l : no_byte nl l = true -> forall buf, len buf <= limit ->
  recv_loop limit e buf (len buf) l
  = if limit <? len buf + len l then (Oversized, str_drop (Z.to_nat (limit - len buf) + 1) l)
    else (if str_empty (buf +:+ l) then Closed e else Partial (buf +:+ l) e, "").
Proof.
  unfold no_byte. induction l as [|b l IH]; intros Hl buf Hb.
  - cbn [recv_loop]. rewrite str_app_nil_r. unfold len at 2. cbn [String.length].
    by rewrite (proj2 (Z.ltb_ge _ _)) by lia.
  - cbn [str_forallb] in Hl. apply andb_true_iff in Hl as [Hn Hl]. apply negb_true_iff in Hn.
    cbn [recv_loop]. rewrite Hn, len_cons. pose proof (len_nonneg l) as Hp. destruct (Z.leb_spec limit (len buf)) as [Hle|Hlt].
    + rewrite (proj2 (Z.ltb_lt _ _)) by lia. replace (limit - len buf) with 0 by lia. cbn. by destruct l.
    + rewrite <- (len_snoc buf b), (IH Hl) by (rewrite len_snoc; lia). rewrite len_snoc.
      replace (len buf + 1 + len l) with (len buf + (len l + 1)) by lia.
      destruct (limit <? len buf + (len l + 1)).
      * replace (Z.to_nat (limit - len buf) + 1)%nat with (S (Z.to_nat (limit - (len buf + 1)) + 1)) by lia. done.
      * by rewrite <- str_app_assoc.
Qed.

Lemma split_cases s : (no_byte nl s = true /\ split_byte nl s = [s])
  \/ exists l rest, s = l +:+ String nl rest /\ no_byte nl l = true /\ split_byte nl s = l :: split_byte nl rest.
Proof.
  destruct (cut_byte nl s) as [[l rest]|] eqn:E.
  - right. apply cut_byte_spec in E as [-> Hl]. exists l, rest. split_and!; [done|done|by apply split_byte_one].
  - left. apply cut_byte_none in E. split; [done|by apply split_byte_none].
Qed.

Lemma drain_lines limit e : 0 <= limit -> forall n s, (String.length s < n)%nat ->
  let '(fs, told, c) := drain n (mkBounded s e limit false) in
  (fs, bc_oversized c) = lines_under limit e (split_byte nl s)
  /\ told = (if bc_oversized c then [oversizedFrame] else [])
  /\ Forall (fun f => len f <= limit) fs.
Proof.
  intros Hlim. induction n as [|n IH]; intros s Hs; [lia|]. cbn [drain]. unfold Recv. cbn [bc_oversized bc_limit bc_stop bc_rest].
  assert (H0 : len "" <= limit) by (unfold len; cbn; lia). change 0 with (len "").
  destruct (split_cases s) as [[Hl ->]|(l & rest & -> & Hl & ->)].
  - rewrite (recv_last limit e s Hl "" H0). cbn [String.append lines_under].
    replace (len "" + len s) with (len s) by done. destruct (Z.ltb_spec limit (len s)) as [Ho|Ho].
    { cbn. split_and!; [done|done|by apply Forall_nil_2]. }
    destruct (str_empty s); [cbn; split_and!; [done|done|by apply Forall_nil_2]|].
    destruct e; cbn; (split_and!; [done|done|]); [by apply Forall_cons_2; [|apply Forall_nil_2]|by apply Forall_nil_2].
  - rewrite (recv_line limit e l rest Hl "" H0). cbn [String.append]. replace (len "" + len l) with (len l) by done.
    assert (Hne : split_byte nl rest <> []) by apply split_byte_nonempty.
    assert (Eu : lines_under limit e (l :: split_byte nl rest)
      = if limit <? len l then ([], true) else let '(fs, over) := lines_under limit e (split_byte nl rest) in (l :: fs, over)).
    { by destruct (split_byte nl rest). }
    rewrite Eu. destruct (Z.ltb_spec limit (len l)) as [Ho|Ho]; [cbn; split_and!; [done|done|by apply Forall_nil_2]|].
    rewrite str_app_length in Hs. cbn [String.length] in Hs. specialize (IH rest ltac:(lia)).
    destruct (drain n _) as [[fs told] c]. destruct IH as (E1 & E2 & E3). rewrite <- E1. cbn.
    split_and!; [done|done|by apply Forall_cons_2].
Qed.

(** The cap on frames loses nothing and buffers no more.  Read under a cap,
    what a client sends after its greeting is cut into frames exactly as a
    splitter of lines cuts it, byte for byte and in order, to the first line
    longer than the cap; the client is told of that one with one frame, and of
    nothing else; and no frame ever holds more bytes than the cap. *)
Theorem frame_cap_exact (limit : Z) (e : stop) (s : string) : 0 <= limit ->
  let '(fs, told, c) := drain (S (String.length s)) (mkBounded s e limit false) in
  (fs, bc_oversized c) = lines_under limit e (split_byte nl s)
  /\ told = (if bc_oversized c then [oversizedFrame] else [])
  /\ Forall (fun f => len f <= limit) fs.
Proof. intros Hl. apply drain_lines; [done|lia]. Qed.

Lemma frame_cap_exact_witness : 0 <= 4 /\
  let s := "abcd" +:+ String nl ("ef" +:+ String nl ("toolong" +:+ String nl "x")) in
  (drain (S (String.length s)) (mkBounded s AtEOF 4 false)).1.1 = ["abcd"; "ef"]
  /\ lines_under 4 AtEOF (split_byte nl s) = (["abcd"; "ef"], true).
Proof.
  split; [lia|]. intros s. split; [reflexivity|].
  pose proof (frame_cap_exact 4 AtEOF s ltac:(lia)) as H.
  destruct (drain (S (String.length s)) _) as [[fs told] c] eqn:E. destruct H as [<- _].
  vm_compute in E. injection E as <- <- <-. reflexivity.
Defined.

(** A frame of exactly the cap, newline not counted, is accepted. *)
Example cap_excludes_newline : (drain 10 (mkBounded ("abcd" +:+ String nl "") AtEOF 4 false)).1.1 = ["abcd"].
Proof. reflexivity. Qed.

(** ** The greeting *)

Section GateFacts.
Context {library : Library} {dispatcher : SocketDispatcher} (requests_of : string -> list jrequest).

(** A line that greets: a JSON-RPC 2.0 call of [system.hello] at the protocol
    version. *)
Definition greets (line : string) (req : helloRequest) : Prop :=
  (exists j, json_parse line = Some j /\ dec_hello j = Some req)
  /\ hq_JSONRPC req = "2.0" /\ hq_Method req = "system.hello" /\ hq_ProtoVersion req = ProtoVersion.

Lemma split_at_budget_app budget l : let '(early, late) := split_at_budget budget l in early +:+ bytes_of late = bytes_of l.
Proof.
  induction l as [|[t b] l IH]; cbn [split_at_budget]; [done|]. destruct (t <? budget); [|done].
  destruct (split_at_budget budget l) as [early late]. unfold bytes_of in *. cbn [map str_concat foldr snd] in *.
  rewrite <- str_app_assoc. f_equal. exact IH.
Qed.

Definition budget_of (budget : Z) : Z := if budget <=? 0 then HelloBudget else budget.

Lemma handshake_ok fl version budget a rest hello : handshake fl version budget a = (Ok rest, hello) ->
  exists line req rest',
    (split_at_budget (budget_of budget) (ar_chunks a)).1 = line +:+ String nl rest' /\ no_byte nl line = true
    /\ greets line req /\ hello = [helloResultFrame (hq_ID req) version]
    /\ bytes_of (ar_chunks a) = line +:+ String nl rest.
Proof.
  unfold handshake. fold (budget_of budget). pose proof (split_at_budget_app (budget_of budget) (ar_chunks a)) as Hb.
  destruct (cf_set fl); [done|]. destruct (split_at_budget _ _) as [early late].
  destruct (cut_byte nl early) as [[line rest']|] eqn:Ec; [|done]. apply cut_byte_spec in Ec as [-> Hl].
  destruct (cf_clear fl); [done|]. destruct (json_parse line) as [j|] eqn:Ej; cbn [mbind option_bind]; [|done].
  destruct (dec_hello j) as [req|] eqn:Ed; [|done].
  destruct (String.eqb_spec (hq_JSONRPC req) "2.0") as [E1|]; cbn [negb orb]; [|done].
  destruct (String.eqb_spec (hq_Method req) "system.hello") as [E2|]; cbn [negb]; [|done].
  destruct (Z.eqb_spec (hq_ProtoVersion req) ProtoVersion) as [E3|]; cbn [negb]; [|done].
  destruct (cf_write fl); [done|]. intros [= <- <-]. exists line, req, rest'. split_and!; try done.
  - split; [by exists j|done].
  - rewrite <- Hb, <- str_app_assoc. done.
Qed.

Lemma handshake_refused fl version budget a e hello : handshake fl version budget a = (Err e, hello) ->
  hello = [] \/ exists id reason, hello = [HelloError id CodeProtocolMismatch "protocol_mismatch" reason].
Proof.
  unfold handshake. destruct (cf_set fl); [intros [= _ <-]; by left|]. destruct (split_at_budget _ _) as [early late].
  destruct (cut_byte nl early) as [[line rest']|]; [|intros [= _ <-]; right; unfold helloErrorFrame; eauto].
  destruct (cf_clear fl); [intros [= _ <-]; by left|].
  destruct (json_parse line ≫= _) as [req|]; [|intros [= _ <-]; right; unfold helloErrorFrame; eauto]. unfold helloErrorFrame.
  destruct (_ || _); [intros [= _ <-]; right; eauto|]. destruct (negb _); [intros [= _ <-]; right; eauto|].
  destruct (cf_write fl); [intros [= _ <-]; by left|done].
Qed.

(** What the dispatcher is called with comes from a request of its own. *)
Lemma reaches_in shutdown req method params : (method, params) ∈ reaches shutdown req ->
  shutdown = false /\ rq_method req = method /\ Assign method = RDispatch method /\ params = request_params req.
Proof.
  unfold reaches. destruct (Assign (rq_method req)) eqn:E; try by intros ?%not_elem_of_nil.
  assert (Em : method0 = rq_method req).
  { unfold Assign in E. repeat (case_match; try done). by injection E as <-. }
  subst method0. unfold makeDispatchFunc. destruct shutdown; [by intros ?%not_elem_of_nil|].
  cbn. intros Hm%list_elem_of_singleton. injection Hm as -> ->. done.
Qed.

(** C21. Nothing reaches the dispatcher but through the greeting.  If serving a
    connection causes any call of the dispatcher, the peer has the daemon's own
    uid, the first line it sent arrived within the budget and is a
    [system.hello] at the protocol version, the server was not shutting down,
    and the call is a request, other than the adapter's own three methods, of a
    line that followed, under the cap.  A refused connection causes no call and
    is sent at most one [protocol_mismatch]. *)
Theorem socket_gate (euid : Z) (uid : option Z) (fl : conn_faults) (a : arrivals) (s : server) :
  match (acceptLoop requests_of euid uid fl a s).1 with
  | None => uid <> Some euid
  | Some r =>
    uid = Some euid
    /\ (sd_frames r = [] /\ sd_calls r = [] /\ length (sd_hello r) <= 1
        \/ exists line req rest, bytes_of (ar_chunks a) = line +:+ String nl rest /\ no_byte nl line = true
             /\ has_prefix (line +:+ String nl "") (split_at_budget (budget_of (sv_helloBudget s)) (ar_chunks a)).1 = true
             /\ greets line req /\ sd_hello r = [helloResultFrame (hq_ID req) (sv_serverVersion s)]
             /\ sd_frames r = (lines_under maxFrameBytes (ar_stop a) (split_byte nl rest)).1
             /\ forall method params, (method, params) ∈ sd_calls r ->
                  sv_shutdownStarted s = false /\ Assign method = RDispatch method
                  /\ exists f q, f ∈ sd_frames r /\ q ∈ requests_of f /\ rq_method q = method /\ params = request_params q)%nat
  end.
Proof.
  unfold acceptLoop, accept_one. destruct uid as [uid|]; [|done].
  destruct (Z.eqb_spec uid euid) as [->|Hne]; cbn [negb fst]; [|congruence].
  set (s' := mkServer _ _ _ _ _ _). split; [done|]. unfold serveConn.
  change (sv_serverVersion s') with (sv_serverVersion s). change (sv_helloBudget s') with (sv_helloBudget s).
  change (sv_shutdownStarted s') with (sv_shutdownStarted s).
  destruct (handshake _ _ _ _) as [[rest|e] hello] eqn:Eh.
  - right. apply handshake_ok in Eh as (line & req & rest' & E1 & Hl & Hg & -> & Eb).
    pose proof (drain_lines maxFrameBytes (ar_stop a) ltac:(unfold maxFrameBytes; lia) _ rest (Nat.lt_succ_diag_r _)) as Hd.
    destruct (drain _ _) as [[fs told] c]. destruct Hd as (Ef & _ & _). exists line, req, rest. cbn [sd_hello sd_frames sd_calls].
    split_and!; try done.
    + rewrite E1. apply has_prefix_spec. exists rest'. rewrite <- str_app_assoc. done.
    + by rewrite <- Ef.
    + intros method params Hc. apply list_elem_of_In, in_flat_map in Hc as (q & Hq & Hc).
      apply in_flat_map in Hq as (f & Hf & Hq). apply list_elem_of_In, reaches_in in Hc as (H1 & H2 & H3 & H4).
      split_and!; [done|done|]. exists f, q. split_and!; [by apply list_elem_of_In|by apply list_elem_of_In|done|done].
  - left. cbn [sd_hello sd_frames sd_calls]. split_and!; [done|done|].
    apply handshake_refused in Eh as [->|(id & reason & ->)]; cbn; lia.
Qed.

End GateFacts.

(** ** Answers *)

(** A panic of the dispatcher becomes an answer that says nothing of it. *)
Definition same_panic (h h' : handled) : Prop :=
  match h, h' with HPanic _, HPanic _ => True | _, _ => h = h' end.
Lemma panic_is_opaque (D D' : SocketDispatcher) method id params :
  sd_rng (SocketDispatcher := D) id = sd_rng (SocketDispatcher := D') id ->
  same_panic (sd_Handle (SocketDispatcher := D) method params) (sd_Handle (SocketDispatcher := D') method params) ->
  @dispatchRecovered D method id params = @dispatchRecovered D' method id params.
Proof.
  intros Er Eh. unfold dispatchRecovered. rewrite Er.
  destruct (@sd_Handle D method params), (@sd_Handle D' method params); cbn in Eh; congruence.
Qed.

(** Every error of the application keeps the code of the shared table, however
    it was wrapped on the way. *)
Lemma app_error_code e g : app_error e = Some g -> (toRPCError e).1 = (RPCWire (Some (leaf g))).1.
Proof.
  revert g. unfold toRPCError. assert (Hg : forall e g, app_error e = Some g -> sock_leaf e = SApp (leaf g) \/ exists g', sock_leaf e = SApp g').
  { clear e. intros e. induction e as [| | | |pre e IH]; intros g E; cbn in *; try done; [by right; eexists|].
    destruct (app_error e) as [g'|] eqn:Ea; cbn in E; [|done]. destruct (IH g' eq_refl) as [->|[g'' ->]]; by right; eexists. }
  intros g E. destruct (Hg e g E) as [->|[g' ->]]; rewrite E; apply RPCWire_code_leaf.
Qed.

(** ** The version on the wire *)

Lemma version_is_semver v : semverRE (sanitizeServerVersion v) = true.
Proof. unfold sanitizeServerVersion. by destruct (semverRE (stripVPrefix v)) eqn:E. Qed.
Lemma not_semver c v : is_digit c = false -> Ascii.eqb c "+" = false -> Ascii.eqb c "-" = false -> Ascii.eqb c "." = false ->
  semverRE (String c v) = false.
Proof.
  intros Hd Hp Hm Ht. unfold semverRE. cbn [cut_byte]. rewrite Hp.
  assert (Hcore : forall x, match split_byte "." (String c x) with [a; b; c] => digits a && digits b && digits c | _ => false end = false).
  { intros x. cbn [split_byte]. rewrite Ht. destruct (split_byte "." x) as [|a l]; [done|].
    destruct l as [|b [|d [|]]]; try done. unfold digits at 1. cbn [str_forallb]. rewrite Hd. by rewrite andb_false_r. }
  assert (Hfront : forall f, (let '(core, pre) := match cut_byte "-" (String c f) with Some (a, b) => (a, tail_ok b) | None => (String c f, true) end in
      match split_byte "." core with [a; b; c] => digits a && digits b && digits c | _ => false end) = false).
  { intros f. cbn [cut_byte]. rewrite Hm. destruct (cut_byte "-" f) as [[a b]|]; apply Hcore. }
  destruct (cut_byte "+" v) as [[f b]|].
  - specialize (Hfront f). destruct (match cut_byte "-" (String c f) with Some _ => _ | None => _ end) as [core pre].
    by rewrite Hfront, andb_false_r.
  - specialize (Hfront v). destruct (match cut_byte "-" (String c v) with Some _ => _ | None => _ end) as [core pre].
    by rewrite Hfront, andb_false_r.
Qed.
Lemma version_kept v : semverRE v = true -> sanitizeServerVersion v = v /\ sanitizeServerVersion ("v" +:+ v) = v.
Proof.
  intros Hv. assert (Es : stripVPrefix v = v).
  { destruct v as [|c v]; [done|]. cbn [stripVPrefix]. destruct (Ascii.eqb c "v" || Ascii.eqb c "V") eqn:E; [|done].
    apply orb_true_iff in E as [E|E]; apply Ascii.eqb_eq in E as ->; by rewrite not_semver in Hv. }
  unfold sanitizeServerVersion. cbn [String.append stripVPrefix Ascii.eqb Bool.eqb orb]. by rewrite Es, Hv.
Qed.

(** ** The codes *)

(** No code of the adapter is in the range kept for others. *)
Lemma codes_outside_reserved : forallb (fun kv => negb ((-32099 <=? kv.1) && (kv.1 <=? -32011))) errCodeName = true.
Proof. reflexivity. Qed.
Lemma codes_distinct : NoDup (map fst errCodeName).
Proof. apply (bool_decide_unpack _). by vm_compute. Qed.

(** ** Listening *)

(** A daemon that listens has a private directory, a private socket, and no
    other user's symbolic link on the way. *)
Lemma listen_private euid path h : listen euid path h = Ok tt ->
  IsAbs path = true /\ len path <= maxSunPath /\ ho_chmod_sock h = Some 384
  /\ (exists mode, ho_chmod h = Some mode /\ Z.land mode 63 = 0)
  /\ exists i, ho_lstat h = Some i /\ (di_symlink i = true -> di_uid i = Some euid)
            /\ Z.land (di_perm i) 16 = 0 /\ Z.land (di_perm i) 2 = 0.
Proof.
  unfold listen, validateParentDir. destruct (IsAbs path); [|done]. cbn [negb].
  destruct (Z.ltb_spec maxSunPath (len path)); [done|]. destruct (ho_mkdir h); [done|].
  destruct (ho_lstat h) as [i|]; [|done]. destruct (Z.eqb_spec (Z.land (di_perm i) 16) 0); cbn [negb orb]; [|done].
  destruct (Z.eqb_spec (Z.land (di_perm i) 2) 0); cbn [negb]; [|done].
  destruct (if di_symlink i then checkSymlinkOwner euid i else Ok tt) as [[]|] eqn:Es; cbn; [|done].
  destruct (ho_chmod h) as [mode|]; [|done]. destruct (Z.eqb_spec (Z.land mode 63) 0); cbn; [|done].
  destruct (ho_bind h); [done|]. destruct (ho_chmod_sock h) as [m|]; [|done].
  destruct (Z.eqb_spec m 384) as [->|]; [|done]. intros _. split_and!; [done|lia|done|by exists mode|].
  exists i. split_and!; [done| |done|done]. intros Hy. rewrite Hy in Es. unfold checkSymlinkOwner in Es.
  destruct (di_uid i) as [v|]; [|done]. destruct (Z.eqb_spec v euid) as [E|]; [by rewrite E|done].
Qed.

(** Linux gives every symbolic link mode 0777, so a linked directory is refused
    for its mode before its owner is asked. *)
Lemma linux_symlink_refused euid path h i : IsAbs path = true -> len path <= maxSunPath -> ho_mkdir h = false ->
  ho_lstat h = Some i -> di_perm i = 511 -> listen euid path h = Err ErrParentWorldWritable.
Proof.
  intros Ha Hl Hm Hi Hp. unfold listen, validateParentDir. rewrite Ha. cbn [negb].
  destruct (Z.ltb_spec maxSunPath (len path)); [lia|]. by rewrite Hm, Hi, Hp.
Qed.

(** Nothing holds the number of connections to [maxConns]. *)
Fixpoint accept_many (n : nat) (euid : Z) (s : server) : server :=
  match n with O => s | S n => accept_many n euid (accept_one euid (Some euid) s).2 end.
Lemma connections_uncapped : map (fun n => size (sv_conns (accept_many n 1000 (NewServer "1.2.3")))) [16%nat; 17%nat; 200%nat]
  = [16%nat; 17%nat; 200%nat].
Proof. by vm_compute. Qed.

(** ** A session *)

Definition demo_hello : json :=
  JObj [("jsonrpc", JStr "2.0"); ("id", JNum "1"); ("method", JStr "system.hello");
        ("params", JObj [("protoVersion", JNum "2")])].
Definition demo_gate_library : Library := {|
  re_Compile := fun _ => Err ""; re_MatchString := fun _ _ => false;
  json_parse := fun s => if String.eqb s "HELLO" then Some demo_hello else None |}.
Definition demo_dispatcher : SocketDispatcher := {| sd_Handle := fun _ _ => HResult None; sd_rng := fun _ => None |}.
Definition demo_requests (s : string) : list jrequest := [mkReq "2" s None false].

Example demo_session : (@acceptLoop demo_gate_library demo_dispatcher demo_requests 1000 (Some 1000)
    (mkConnFaults false false false)
    (mkArrivals [(10, "HEL"); (20, "LO" +:+ String nl "status"); (9000000000, String nl ("subscribe" +:+ String nl "wait"))] AtEOF 9000000001)
    (NewServer "v1.2.3+g1a2b3c")).1
  = Some (mkServed [HelloResult (JNum "1") "1.2.3+g1a2b3c" 2] ["status"; "subscribe"; "wait"] [] [("status", None); ("wait", None)]).
Proof. vm_compute. reflexivity. Qed.
Example demo_late : (@acceptLoop demo_gate_library demo_dispatcher demo_requests 1000 (Some 1000)
    (mkConnFaults false false false) (mkArrivals [(10, "HEL"); (5000000000, "LO" +:+ String nl "status")] AtEOF 5000000001)
    (NewServer "v1.2.3")).1
  = Some (mkServed [HelloError JNull (-32008) "protocol_mismatch" "handshake timed out"] [] [] []).
Proof. vm_compute. reflexivity. Qed.
