(* ===== verification/Bridge.v ===== *)
(** * The event bridge and the wait method

    [internal/app/eventbridge.go] (the fan-out between the upstream stream, the
    socket's channel and the registered waiters), [EmitSynthetic] and
    [internal/app/method_wait.go].  Channels are shared: a waiter is an address
    in [br_heap], the list [br_waiters] holds the registered addresses, and a
    dispatch in progress holds the snapshot it took.  [dispatch] is the call
    run alone; [sys_step] interleaves the sections of several calls with
    registrations, cancellations and readers, since the stream goroutine and
    the watchdog dispatch at the same time.  Tracing spans are left out. *)
From S2P Require Import Prelude GoStd Errors Jid Policy Message Values Json Envelope Projection.

#[local] Open Scope string_scope.
#[local] Open Scope list_scope.
#[local] Open Scope Z_scope.

Definition eventChannelBuffer : nat := 64.
Definition millisecond : Z := 1000000.
Definition eventStreamErrorBackoff : Z := 100 * millisecond.
Definition eventStreamErrorBackoffMax : Z := 5 * second.
Definition nextStreamBackoff (cur : Z) : Z :=
  let next := wrap64 (cur * 2) in
  if eventStreamErrorBackoffMax <? next then eventStreamErrorBackoffMax else next.

Definition isTrafficEvent (eventType : string) : bool :=
  String.eqb eventType "message" || String.eqb eventType "receipt".

Record waiter := mkWaiter { w_filter : list string; w_cap : nat; w_ch : list AppEvent }.

Definition type_matches (filter : list string) (eventType : string) : bool :=
  match filter with [] => true | _ => bool_decide (eventType ∈ filter) end.
Definition matches (w : waiter) (eventType : string) : bool := type_matches (w_filter w) eventType.

Record EventBridge := mkBridge {
  br_seq : Z; br_out : list AppEvent; br_heap : gmap nat waiter; br_waiters : list nat;
  br_lastEventUnix : Z; br_lastTrafficUnix : Z; br_streamErrors : Z; br_lastStreamErrUnix : Z }.

Definition new_bridge (seed : Z) : EventBridge := mkBridge seed [] ∅ [] 0 0 0 0.

Definition set_out (l : list AppEvent) (b : EventBridge) : EventBridge :=
  mkBridge (br_seq b) l (br_heap b) (br_waiters b) (br_lastEventUnix b) (br_lastTrafficUnix b)
    (br_streamErrors b) (br_lastStreamErrUnix b).
Definition set_heap (h : gmap nat waiter) (b : EventBridge) : EventBridge :=
  mkBridge (br_seq b) (br_out b) h (br_waiters b) (br_lastEventUnix b) (br_lastTrafficUnix b)
    (br_streamErrors b) (br_lastStreamErrUnix b).
Definition set_waiters (l : list nat) (b : EventBridge) : EventBridge :=
  mkBridge (br_seq b) (br_out b) (br_heap b) l (br_lastEventUnix b) (br_lastTrafficUnix b)
    (br_streamErrors b) (br_lastStreamErrUnix b).

Definition with_Seq (seq : Z) (e : AppEvent) : AppEvent :=
  mkAppEvent (ae_Type e) seq (ae_Chat e) (ae_Sender e) (ae_Body e) (ae_Payload e).

(** ** The sections of [dispatch] *)

Definition stamp (now : time) (updateLastEvent : bool) (appEvt : AppEvent) (b : EventBridge)
    : AppEvent * EventBridge :=
  let seq := wrap64 (br_seq b + 1) in
  let evt := with_Seq seq appEvt in
  (evt,
   mkBridge seq (br_out b) (br_heap b) (br_waiters b)
     (if updateLastEvent then unix now else br_lastEventUnix b)
     (if updateLastEvent && isTrafficEvent (ae_Type evt) then unix now else br_lastTrafficUnix b)
     (br_streamErrors b) (br_lastStreamErrUnix b)).

(** [select { case ch <- evt: default: }] on a channel of capacity [cap]. *)
Definition try_send (cap : nat) (evt : AppEvent) (ch : list AppEvent) : list AppEvent :=
  if (length ch <? cap)%nat then ch ++ [evt] else ch.

Definition push_out (evt : AppEvent) (b : EventBridge) : EventBridge :=
  set_out (try_send eventChannelBuffer evt (br_out b)) b.

Definition offer (evt : AppEvent) (w : waiter) : waiter :=
  if matches w (ae_Type evt) then mkWaiter (w_filter w) (w_cap w) (try_send (w_cap w) evt (w_ch w)) else w.

Definition deliver (evt : AppEvent) (b : EventBridge) (i : nat) : EventBridge :=
  set_heap (alter (offer evt) i (br_heap b)) b.

Definition dispatch (now : time) (updateLastEvent : bool) (appEvt : AppEvent) (b : EventBridge) : EventBridge :=
  let '(evt, b) := stamp now updateLastEvent appEvt b in
  let b := push_out evt b in
  foldl (deliver evt) b (br_waiters b).

Definition EmitSynthetic `{UnicodeTables} (now : time) (evt : option DomainEvent) (b : EventBridge) : EventBridge :=
  match evt with
  | None => b
  | Some evt => dispatch now false (translateDomainEvent evt) b
  end.

(** ** Registration *)

Definition registerSubscriber (filter : list string) (bufSize : nat) (b : EventBridge) : nat * EventBridge :=
  let i := fresh (dom (br_heap b)) in
  (i, set_waiters (br_waiters b ++ [i]) (set_heap (<[i := mkWaiter filter bufSize []]> (br_heap b)) b)).
Definition RegisterWaiter (filter : list string) (b : EventBridge) : nat * EventBridge :=
  registerSubscriber filter 1 b.
Definition SubscribeStream (filter : list string) (bufSize : Z) (b : EventBridge) : nat * EventBridge :=
  registerSubscriber filter (Z.to_nat (if bufSize <? 1 then 1 else bufSize)) b.

(** The cancel function: the first occurrence leaves the list. *)
Fixpoint remove_first (i : nat) (l : list nat) : list nat :=
  match l with
  | [] => []
  | j :: l => if (j =? i)%nat then l else j :: remove_first i l
  end.
Definition cancel_waiter (i : nat) (b : EventBridge) : EventBridge :=
  set_waiters (remove_first i (br_waiters b)) b.

Definition receive (i : nat) (b : EventBridge) : option (AppEvent * EventBridge) :=
  match br_heap b !! i with
  | Some w =>
    match w_ch w with
    | e :: ch => Some (e, set_heap (<[i := mkWaiter (w_filter w) (w_cap w) ch]> (br_heap b)) b)
    | [] => None
    end
  | None => None
  end.

(** ** Run: one turn of the loop *)

Inductive turn :=
| TNext (now : time) (evt : DomainEvent)        (* the stream returned an event *)
| TError (now : time) (cancelled_in_sleep : bool) (* it failed; the context ended during the backoff *)
| TShutdown.                                     (* it failed and the context was already over *)

(** The state and the next delay, or [None] when [Run] returns; the second
    component is the delay slept. *)
Definition run_turn `{UnicodeTables} (t : turn) (backoff : Z) (b : EventBridge)
    : option Z * EventBridge * option Z :=
  match t with
  | TShutdown => (None, b, None)
  | TError now cancelled =>
    let b := mkBridge (br_seq b) (br_out b) (br_heap b) (br_waiters b) (br_lastEventUnix b)
               (br_lastTrafficUnix b) (wrap64 (br_streamErrors b + 1)) (unix now) in
    if cancelled then (None, b, Some backoff) else (Some (nextStreamBackoff backoff), b, Some backoff)
  | TNext now evt => (Some eventStreamErrorBackoff, dispatch now true (translateDomainEvent evt) b, None)
  end.

Fixpoint run_loop `{UnicodeTables} (turns : list turn) (backoff : Z) (b : EventBridge)
    : EventBridge * list Z :=
  match turns with
  | [] => (b, [])
  | t :: turns =>
    let '(next, b, slept) := run_turn t backoff b in
    let slept := match slept with Some d => [d] | None => [] end in
    match next with
    | None => (b, slept)
    | Some backoff => let '(b, ds) := run_loop turns backoff b in (b, slept ++ ds)
    end
  end.

(** ** method_wait.go *)

Record waitParams := mkWaitParams { wp_Events : list string; wp_TimeoutMs : Z }.
Definition dec_waitParams (m : list (string * json)) : option waitParams :=
  events ← field dec_strs [] "events" m;
  timeoutMs ← field dec_int 0 "timeoutMs" m;
  Some (mkWaitParams events timeoutMs).

(** The request's parameters: absent, not JSON, or a value. *)
Inductive wait_raw := WAbsent | WMalformed | WJson (j : json).
Definition wait_params (raw : wait_raw) : result waitParams :=
  let bad := Err (ERpc app.ErrInvalidParams) in
  match raw with
  | WAbsent | WJson JNull => Ok (mkWaitParams [] 0)
  | WMalformed => bad
  | WJson (JObj m) => match dec_waitParams m with Some p => Ok p | None => bad end
  | WJson _ => bad
  end.

Definition defaultWaitTimeoutMs : Z := 30000.
(** [time.Duration(timeoutMs) * time.Millisecond]. *)
Definition wait_duration (p : waitParams) : Z :=
  let ms := if wp_TimeoutMs p <=? 0 then defaultWaitTimeoutMs else wp_TimeoutMs p in
  wrap64 (ms * millisecond).

Definition event_json `{JsonTime} (e : AppEvent) : json :=
  JObj [("Type", jstr (ae_Type e)); ("Payload", payload_json (ae_Payload e)); ("Seq", jint (ae_Seq e))].

(** The events the bridge dispatches while the call is pending, each at its
    time; the call was made at [start].  The select takes the event when it
    arrives before the deadline and [ErrWaitTimeout] otherwise. *)
Record arrival := mkArrival { ar_now : time; ar_organic : bool; ar_event : AppEvent }.

Fixpoint wait_loop (deadline : time) (i : nat) (arrivals : list arrival) (b : EventBridge)
    : option AppEvent * EventBridge :=
  match arrivals with
  | [] => (None, b)
  | a :: arrivals =>
    if deadline <=? ar_now a then (None, b)
    else
      let b := dispatch (ar_now a) (ar_organic a) (ar_event a) b in
      match receive i b with
      | Some (e, b) => (Some e, b)
      | None => wait_loop deadline i arrivals b
      end
  end.

Definition handleWait `{JsonTime} (start : time) (raw : wait_raw) (arrivals : list arrival)
    (b : EventBridge) : result json * EventBridge :=
  match wait_params raw with
  | Err e => (Err e, b)
  | Ok p =>
    let '(i, b) := RegisterWaiter (wp_Events p) b in
    let '(got, b) := wait_loop (start + wait_duration p) i arrivals b in
    (match got with Some e => Ok (event_json e) | None => Err (ERpc app.ErrWaitTimeout) end,
     cancel_waiter i b)
  end.

(** ** Interleaved calls *)

Inductive pc := PStamped | PPushed | PDelivering (rest : list nat).
Record call := mkCall { ca_event : AppEvent; ca_pc : pc }.
Record system := mkSystem { sy_bridge : EventBridge; sy_calls : gmap nat call }.

Inductive label :=
| LStamp (c : nat) (e : AppEvent)
| LPush (c : nat) (e : AppEvent)
| LSnapshot (c : nat)
| LOffer (c i : nat) (e : AppEvent) (taken : bool)
| LReturn (c : nat)
| LRegister (i : nat)
| LCancel (i : nat)
| LReceive (i : nat) (e : AppEvent)
| LReceiveOut (e : AppEvent).

Definition set_bridge (b : EventBridge) (s : system) : system := mkSystem b (sy_calls s).
Definition set_call (c : nat) (ca : call) (s : system) : system :=
  mkSystem (sy_bridge s) (<[c := ca]> (sy_calls s)).

(** Whether the waiter at [i] takes [e]. *)
Definition takes (e : AppEvent) (i : nat) (b : EventBridge) : bool :=
  match br_heap b !! i with
  | Some w => matches w (ae_Type e) && (length (w_ch w) <? w_cap w)%nat
  | None => false
  end.

Inductive sys_step : system -> label -> system -> Prop :=
| S_stamp s c now upd appEvt evt b :
    sy_calls s !! c = None ->
    stamp now upd appEvt (sy_bridge s) = (evt, b) ->
    sys_step s (LStamp c evt) (set_call c (mkCall evt PStamped) (set_bridge b s))
| S_push s c evt :
    sy_calls s !! c = Some (mkCall evt PStamped) ->
    sys_step s (LPush c evt)
      (set_call c (mkCall evt PPushed) (set_bridge (push_out evt (sy_bridge s)) s))
| S_snapshot s c evt :
    sy_calls s !! c = Some (mkCall evt PPushed) ->
    sys_step s (LSnapshot c) (set_call c (mkCall evt (PDelivering (br_waiters (sy_bridge s)))) s)
| S_offer s c evt i rest taken :
    sy_calls s !! c = Some (mkCall evt (PDelivering (i :: rest))) ->
    takes evt i (sy_bridge s) = taken ->
    sys_step s (LOffer c i evt taken)
      (set_call c (mkCall evt (PDelivering rest)) (set_bridge (deliver evt (sy_bridge s) i) s))
| S_return s c evt :
    sy_calls s !! c = Some (mkCall evt (PDelivering [])) ->
    sys_step s (LReturn c) (mkSystem (sy_bridge s) (delete c (sy_calls s)))
| S_register s filter cap i b :
    registerSubscriber filter cap (sy_bridge s) = (i, b) ->
    sys_step s (LRegister i) (set_bridge b s)
| S_cancel s i :
    sys_step s (LCancel i) (set_bridge (cancel_waiter i (sy_bridge s)) s)
| S_receive s i e b :
    receive i (sy_bridge s) = Some (e, b) ->
    sys_step s (LReceive i e) (set_bridge b s)
| S_receive_out s e out :
    br_out (sy_bridge s) = e :: out ->
    sys_step s (LReceiveOut e) (set_bridge (set_out out (sy_bridge s)) s).

Inductive sys_run (s0 : system) : list label -> system -> Prop :=
| R_nil : sys_run s0 [] s0
| R_snoc tr s l s' : sys_run s0 tr s -> sys_step s l s' -> sys_run s0 (tr ++ [l]) s'.

(** ** What a history says *)

Definition stamped (tr : list label) : list AppEvent :=
  omap (fun l => match l with LStamp _ e => Some e | _ => None end) tr.

(** What was read from a channel: [None] is the socket's, [Some i] a waiter's. *)
Definition read_from (k : option nat) (tr : list label) : list AppEvent :=
  omap (fun l => match l, k with
                 | LReceiveOut e, None => Some e
                 | LReceive i e, Some j => if (i =? j)%nat then Some e else None
                 | _, _ => None
                 end) tr.

Definition content (k : option nat) (b : EventBridge) : list AppEvent :=
  match k with
  | None => br_out b
  | Some i => match br_heap b !! i with Some w => w_ch w | None => [] end
  end.

Definition wants (k : option nat) (b : EventBridge) (e : AppEvent) : bool :=
  match k with
  | None => true
  | Some i => match br_heap b !! i with Some w => matches w (ae_Type e) | None => false end
  end.

Definition through (k : option nat) (tr : list label) (b : EventBridge) : list AppEvent :=
  read_from k tr ++ content k b.

(** The call may still put its event into the channel. *)
Definition pending (ca : call) (k : option nat) : Prop :=
  match ca_pc ca, k with
  | PStamped, _ => True
  | PPushed, Some _ => True
  | PDelivering rest, Some i => i ∈ rest
  | _, None => False
  end.

Definition rest_of (ca : call) : list nat :=
  match ca_pc ca with PDelivering rest => rest | _ => [] end.

Record bridge_inv (seed : Z) (tr : list label) (s : system) : Prop := {
  bi_seq : br_seq (sy_bridge s) = seed + Z.of_nat (length (stamped tr));
  bi_stamps : map ae_Seq (stamped tr) = seqZ (seed + 1) (Z.of_nat (length (stamped tr)));
  bi_calls : forall c ca, sy_calls s !! c = Some ca -> ca_event ca ∈ stamped tr /\ NoDup (rest_of ca);
  bi_own : forall c c' ca ca', sy_calls s !! c = Some ca -> sy_calls s !! c' = Some ca' ->
           ae_Seq (ca_event ca) = ae_Seq (ca_event ca') -> c = c';
  bi_waiters : NoDup (br_waiters (sy_bridge s));
  bi_once : forall k, NoDup (map ae_Seq (through k tr (sy_bridge s)));
  bi_known : forall k, Forall (fun e => e ∈ stamped tr /\ wants k (sy_bridge s) e = true)
               (through k tr (sy_bridge s));
  bi_pending : forall k c ca, sy_calls s !! c = Some ca -> pending ca k ->
               ae_Seq (ca_event ca) ∉ map ae_Seq (through k tr (sy_bridge s)) }.

Lemma stamped_snoc tr l : stamped (tr ++ [l]) = stamped tr ++ stamped [l].
Proof. apply omap_app. Qed.
Lemma read_from_snoc k tr l : read_from k (tr ++ [l]) = read_from k tr ++ read_from k [l].
Proof. apply omap_app. Qed.

Lemma stamped_bound seed tr s e : bridge_inv seed tr s -> e ∈ stamped tr ->
  seed < ae_Seq e <= seed + Z.of_nat (length (stamped tr)).
Proof.
  intros Hi He. assert (Hin : ae_Seq e ∈ map ae_Seq (stamped tr)) by (by apply list_elem_of_fmap_2).
  rewrite (bi_stamps _ _ _ Hi), elem_of_seqZ in Hin. lia.
Qed.

Lemma stamped_inj seed tr s e e' : bridge_inv seed tr s -> e ∈ stamped tr -> e' ∈ stamped tr ->
  ae_Seq e = ae_Seq e' -> e = e'.
Proof.
  intros Hi He He' Heq. assert (Hnd : NoDup (map ae_Seq (stamped tr))).
  { rewrite (bi_stamps _ _ _ Hi). apply NoDup_seqZ. }
  apply list_elem_of_lookup in He as [n Hn]. apply list_elem_of_lookup in He' as [m Hm].
  assert (n = m); [|by simplify_eq].
  eapply NoDup_lookup; [exact Hnd| |]; rewrite list_lookup_fmap; [by rewrite Hn | by rewrite Hm, Heq].
Qed.

(** A step that neither stamps nor moves an event between channel and call:
    what went through every channel stays, the calls only lose work. *)
Lemma inv_quiet seed tr s l s' :
  bridge_inv seed tr s ->
  stamped [l] = [] ->
  br_seq (sy_bridge s') = br_seq (sy_bridge s) ->
  NoDup (br_waiters (sy_bridge s')) ->
  (forall k, through k (tr ++ [l]) (sy_bridge s') = through k tr (sy_bridge s)) ->
  (forall k e, wants k (sy_bridge s) e = true -> wants k (sy_bridge s') e = true) ->
  (forall c ca', sy_calls s' !! c = Some ca' -> exists ca, sy_calls s !! c = Some ca /\
     ca_event ca' = ca_event ca /\ NoDup (rest_of ca') /\ forall k, pending ca' k -> pending ca k) ->
  bridge_inv seed (tr ++ [l]) s'.
Proof.
  intros Hi Hl Hseq Hw Hth Hwant Hcalls.
  assert (Est : stamped (tr ++ [l]) = stamped tr) by (by rewrite stamped_snoc, Hl, app_nil_r).
  constructor; rewrite ?Est.
  - rewrite Hseq. apply (bi_seq _ _ _ Hi).
  - apply (bi_stamps _ _ _ Hi).
  - intros c ca' (ca & Hc & -> & Hr & _)%Hcalls. split; [by eapply (bi_calls _ _ _ Hi)|done].
  - intros c c' ca ca' (x & Hx & -> & _)%Hcalls (y & Hy & -> & _)%Hcalls. by eapply (bi_own _ _ _ Hi).
  - done.
  - intros k. rewrite Hth. apply (bi_once _ _ _ Hi).
  - intros k. rewrite Hth. eapply Forall_impl; [apply (bi_known _ _ _ Hi k)|]. cbn. naive_solver.
  - intros k c ca' (ca & Hc & -> & _ & Hp)%Hcalls Hpend. rewrite Hth. eapply (bi_pending _ _ _ Hi); eauto.
Qed.

(** A step in which call [c] offers its event to channel [k0]. *)
Lemma inv_offer seed tr s l s' c k0 ca ca' :
  bridge_inv seed tr s ->
  stamped [l] = [] -> (forall k, read_from k [l] = []) ->
  sy_calls s !! c = Some ca -> pending ca k0 ->
  sy_calls s' = <[c := ca']> (sy_calls s) ->
  ca_event ca' = ca_event ca -> NoDup (rest_of ca') ->
  (forall k, pending ca' k -> pending ca k /\ k <> k0) ->
  br_seq (sy_bridge s') = br_seq (sy_bridge s) ->
  br_waiters (sy_bridge s') = br_waiters (sy_bridge s) ->
  (forall k e, wants k (sy_bridge s') e = wants k (sy_bridge s) e) ->
  (forall k, k <> k0 -> content k (sy_bridge s') = content k (sy_bridge s)) ->
  content k0 (sy_bridge s') = content k0 (sy_bridge s)
  \/ (content k0 (sy_bridge s') = content k0 (sy_bridge s) ++ [ca_event ca]
      /\ wants k0 (sy_bridge s) (ca_event ca) = true) ->
  bridge_inv seed (tr ++ [l]) s'.
Proof.
  intros Hi Hl Hr Hc Hp0 Hcalls Hev Hnd Hpend Hseq Hw Hwant Hother Hk0.
  assert (Est : stamped (tr ++ [l]) = stamped tr) by (by rewrite stamped_snoc, Hl, app_nil_r).
  assert (Eth : forall k, through k (tr ++ [l]) (sy_bridge s') = through k tr (sy_bridge s)
    \/ (k = k0 /\ through k (tr ++ [l]) (sy_bridge s') = through k tr (sy_bridge s) ++ [ca_event ca]
        /\ wants k0 (sy_bridge s) (ca_event ca) = true)).
  { intros k. unfold through. rewrite read_from_snoc, Hr, app_nil_r.
    destruct (decide (k = k0)) as [->|Hne]; [|left; by rewrite Hother].
    destruct Hk0 as [->|[-> Hm]]; [by left|right]. by rewrite app_assoc. }
  destruct (bi_calls _ _ _ Hi _ _ Hc) as [Hin _].
  assert (Hlook : forall x cx, sy_calls s' !! x = Some cx ->
    exists cy, sy_calls s !! x = Some cy /\ ca_event cx = ca_event cy /\ NoDup (rest_of cx)
      /\ forall k, pending cx k -> pending cy k /\ (k = k0 -> x <> c)).
  { intros x cx. rewrite Hcalls. destruct (decide (x = c)) as [->|Hne].
    - rewrite lookup_insert_eq. intros [= <-]. exists ca. split_and!; try done.
      intros k Hk. destruct (Hpend k Hk). split; [done|]. by intros ->.
    - rewrite lookup_insert_ne by done. intros Hx. exists cx. split_and!; try done.
      by eapply (bi_calls _ _ _ Hi). }
  constructor; rewrite ?Est, ?Hseq, ?Hw.
  - apply (bi_seq _ _ _ Hi).
  - apply (bi_stamps _ _ _ Hi).
  - intros x cx (cy & Hy & -> & Hn & _)%Hlook. split; [by eapply (bi_calls _ _ _ Hi)|done].
  - intros x y cx cy (a & Ha & -> & _)%Hlook (b & Hb & -> & _)%Hlook. by eapply (bi_own _ _ _ Hi).
  - apply (bi_waiters _ _ _ Hi).
  - intros k. destruct (Eth k) as [->|(-> & -> & _)]; [apply (bi_once _ _ _ Hi)|].
    rewrite map_app. cbn. apply NoDup_app. split; [apply (bi_once _ _ _ Hi)|].
    split; [|apply NoDup_singleton]. intros q Hq ->%list_elem_of_singleton.
    eapply (bi_pending _ _ _ Hi); eauto.
  - intros k. setoid_rewrite Hwant. destruct (Eth k) as [->|(-> & -> & Hm)]; [apply (bi_known _ _ _ Hi)|].
    apply Forall_app. split; [apply (bi_known _ _ _ Hi)|]. by constructor.
  - intros k x cx (cy & Hy & -> & _ & Hp)%Hlook Hpx. destruct (Hp k Hpx) as [Hpy Hxc].
    destruct (Eth k) as [->|(-> & -> & _)]; [by eapply (bi_pending _ _ _ Hi)|].
    rewrite map_app, not_elem_of_app. split; [by eapply (bi_pending _ _ _ Hi)|].
    cbn. intros Heq%list_elem_of_singleton. apply (Hxc eq_refl).
    by eapply (bi_own _ _ _ Hi).
Qed.

Lemma heap_same k b b' : br_out b' = br_out b -> br_heap b' = br_heap b ->
  content k b' = content k b /\ forall e, wants k b' e = wants k b e.
Proof. intros Ho Hh. destruct k; cbn; rewrite ?Ho, ?Hh; done. Qed.

Lemma inv_stamp seed tr s c now upd appEvt evt b :
  bridge_inv seed tr s -> 0 <= seed -> seed + Z.of_nat (S (length (stamped tr))) < 2 ^ 63 ->
  sy_calls s !! c = None -> stamp now upd appEvt (sy_bridge s) = (evt, b) ->
  bridge_inv seed (tr ++ [LStamp c evt]) (set_call c (mkCall evt PStamped) (set_bridge b s)).
Proof.
  intros Hi Hseed Hmax Hc Hst.
  assert (Hseq : ae_Seq evt = seed + Z.of_nat (length (stamped tr)) + 1
    /\ br_seq b = ae_Seq evt /\ br_out b = br_out (sy_bridge s)
    /\ br_heap b = br_heap (sy_bridge s) /\ br_waiters b = br_waiters (sy_bridge s)).
  { unfold stamp in Hst. injection Hst as <- <-. cbn. rewrite (bi_seq _ _ _ Hi).
    rewrite wrap64_id by lia. split_and!; done || lia. }
  destruct Hseq as (Hseq & Hbs & Ho & Hh & Hw).
  assert (Est : stamped (tr ++ [LStamp c evt]) = stamped tr ++ [evt]) by (by rewrite stamped_snoc).
  assert (Eth : forall k, through k (tr ++ [LStamp c evt]) b = through k tr (sy_bridge s)).
  { intros k. unfold through. rewrite read_from_snoc.
    replace (read_from k [LStamp c evt]) with (@nil AppEvent) by (by destruct k).
    rewrite app_nil_r. by rewrite (proj1 (heap_same k _ _ Ho Hh)). }
  assert (Hnew : forall e, e ∈ stamped tr -> ae_Seq e <> ae_Seq evt).
  { intros e He Heq. pose proof (stamped_bound _ _ _ _ Hi He). lia. }
  constructor; rewrite ?Est, ?length_app; cbn [sy_bridge sy_calls set_call set_bridge length].
  - lia.
  - rewrite map_app, (bi_stamps _ _ _ Hi). cbn [map].
    rewrite Nat2Z.inj_add, seqZ_app by lia. f_equal.
    change (seqZ ?m (Z.of_nat 1)) with [Z.of_nat 0 + m]. f_equal. rewrite Hseq. cbn. lia.
  - intros x cx Hx. destruct (decide (x = c)) as [->|Hne].
    + rewrite lookup_insert_eq in Hx. injection Hx as <-. cbn. split; [set_solver|constructor].
    + rewrite lookup_insert_ne in Hx by done. destruct (bi_calls _ _ _ Hi _ _ Hx). set_solver.
  - intros x y cx cy Hx Hy Heq.
    apply lookup_insert_Some in Hx as [[<- <-]|[Hnx Hx]];
      apply lookup_insert_Some in Hy as [[<- <-]|[Hny Hy]]; cbn in Heq; try done.
    + exfalso. destruct (bi_calls _ _ _ Hi _ _ Hy) as [Hin _]. by apply (Hnew _ Hin).
    + exfalso. destruct (bi_calls _ _ _ Hi _ _ Hx) as [Hin _]. by apply (Hnew _ Hin).
    + by eapply (bi_own _ _ _ Hi).
  - rewrite Hw. apply (bi_waiters _ _ _ Hi).
  - intros k. rewrite Eth. apply (bi_once _ _ _ Hi).
  - intros k. rewrite Eth. eapply Forall_impl; [apply (bi_known _ _ _ Hi k)|]. cbn.
    intros e [He Hk]. rewrite (proj2 (heap_same k _ _ Ho Hh)). set_solver.
  - intros k x cx Hx Hp. rewrite Eth. destruct (decide (x = c)) as [->|Hne].
    + rewrite lookup_insert_eq in Hx. injection Hx as <-. cbn.
      intros (e & Heq & He)%list_elem_of_fmap. pose proof (bi_known _ _ _ Hi k) as Hk.
      rewrite Forall_forall in Hk. destruct (Hk _ He) as [Hin _]. by apply (Hnew e Hin).
    + rewrite lookup_insert_ne in Hx by done. by eapply (bi_pending _ _ _ Hi).
Qed.

Lemma try_send_cases cap e ch : try_send cap e ch = ch \/ try_send cap e ch = ch ++ [e].
Proof. unfold try_send. destruct (_ <? _)%nat; auto. Qed.

Lemma deliver_content e i b k :
  (k <> Some i -> content k (deliver e b i) = content k b)
  /\ (content (Some i) (deliver e b i) = content (Some i) b
      \/ (content (Some i) (deliver e b i) = content (Some i) b ++ [e] /\ wants (Some i) b e = true)).
Proof.
  unfold deliver. destruct k as [j|]; cbn; (split; [|rewrite lookup_alter_eq; destruct (br_heap b !! i) as [w|]; cbn; [|by left];
    unfold offer; destruct (matches w (ae_Type e)) eqn:E; [|by left]; cbn;
    destruct (try_send_cases (w_cap w) e (w_ch w)) as [->| ->]; [by left | by right]]).
  - intros Hne. rewrite lookup_alter_ne by congruence. done.
  - done.
Qed.

Lemma alter_wants f i b k e : (forall w, w_filter (f w) = w_filter w) ->
  wants k (set_heap (alter f i (br_heap b)) b) e = wants k b e.
Proof.
  intros Hf. destruct k as [j|]; [|done]. cbn. destruct (decide (i = j)) as [->|Hne].
  - rewrite lookup_alter_eq. destruct (br_heap b !! j) as [w|]; [|done]. cbn.
    unfold matches. by rewrite Hf.
  - by rewrite lookup_alter_ne.
Qed.

Lemma deliver_wants e i b k e' : wants k (deliver e b i) e' = wants k b e'.
Proof. apply alter_wants. intros w. unfold offer. by destruct (matches _ _). Qed.

Lemma receive_spec i b e b' : receive i b = Some (e, b') ->
  exists w, br_heap b !! i = Some w /\ content (Some i) b = e :: content (Some i) b'
  /\ (forall k, k <> Some i -> content k b' = content k b)
  /\ (forall k e', wants k b' e' = wants k b e')
  /\ br_waiters b' = br_waiters b /\ br_seq b' = br_seq b.
Proof.
  unfold receive. destruct (br_heap b !! i) as [w|] eqn:Ei; [|done].
  destruct (w_ch w) as [|x ch] eqn:Ew; [done|]. intros [= <- <-]. exists w. split_and!; try done.
  - cbn. by rewrite lookup_insert_eq, Ei, Ew.
  - intros [j|] Hne; cbn; [|done]. by rewrite lookup_insert_ne by congruence.
  - intros [j|] e'; cbn; [|done]. destruct (decide (i = j)) as [->|Hne].
    + by rewrite lookup_insert_eq, Ei.
    + by rewrite lookup_insert_ne.
Qed.

Lemma remove_first_NoDup i l : NoDup l -> NoDup (remove_first i l).
Proof.
  intros Hnd. assert (Hs : sublist (remove_first i l) l).
  { clear Hnd. induction l as [|j l IH]; cbn; [done|]. destruct (_ =? _)%nat; by constructor. }
  by eapply sublist_NoDup.
Qed.

(** Nothing was read from, or waits in, a channel that does not exist yet;
    and the list and the calls only name existing ones. *)
Record heap_inv (tr : list label) (s : system) : Prop := {
  hi_fresh : forall i, br_heap (sy_bridge s) !! i = None ->
             read_from (Some i) tr = [] /\ i ∉ br_waiters (sy_bridge s) }.

Lemma heap_inv_step tr s l s' : heap_inv tr s -> sys_step s l s' -> heap_inv (tr ++ [l]) s'.
Proof.
  intros [Hi] Hstep. constructor. intros i.
  destruct Hstep; rewrite read_from_snoc; cbn [sy_bridge set_call set_bridge];
    try (cbn; rewrite ?app_nil_r; apply Hi).
  - unfold stamp in H0. injection H0 as <- <-. cbn. rewrite app_nil_r. apply Hi.
  - cbn. rewrite app_nil_r, lookup_alter_None. apply Hi.
  - unfold registerSubscriber in H. injection H as <- <-. cbn. rewrite app_nil_r.
    intros [Hn Hne]%lookup_insert_None. destruct (Hi _ Hn). set_solver.
  - cbn. rewrite app_nil_r. intros Hn. destruct (Hi _ Hn) as [? Hw]. split; [done|].
    intros Hin. apply Hw. clear -Hin. induction (br_waiters (sy_bridge s)) as [|j l IH]; cbn in *; [done|].
    destruct (_ =? _)%nat; set_solver.
  - intros Hn. destruct (receive_spec _ _ _ _ H) as (w & Hw & _ & _ & _ & Hws & _).
    unfold receive in H. rewrite Hw in H. destruct (w_ch w); [done|]. injection H as <- <-.
    cbn in Hn. apply lookup_insert_None in Hn as [Hn Hne]. cbn. rewrite (proj2 (Nat.eqb_neq _ _) Hne), app_nil_r.
    by apply Hi.
Qed.

Lemma inv_step seed tr s l s' :
  bridge_inv seed tr s -> heap_inv tr s -> 0 <= seed ->
  seed + Z.of_nat (length (stamped (tr ++ [l]))) < 2 ^ 63 -> sys_step s l s' ->
  bridge_inv seed (tr ++ [l]) s'.
Proof.
  intros Hi Hh Hseed Hmax Hstep. pose proof (bi_waiters _ _ _ Hi) as Hnd.
  assert (Hsame : forall c ca', sy_calls s !! c = Some ca' -> exists ca, sy_calls s !! c = Some ca /\
     ca_event ca' = ca_event ca /\ NoDup (rest_of ca') /\ forall k, pending ca' k -> pending ca k).
  { intros c ca' Hc. exists ca'. split_and!; try done. by eapply (bi_calls _ _ _ Hi). }
  destruct Hstep.
  - rewrite stamped_snoc, length_app in Hmax. cbn in Hmax. eapply inv_stamp; eauto. lia.
  - eapply (inv_offer _ _ _ _ _ c None); eauto; try done; cbn.
    + constructor.
    + intros [k|]; cbn; done.
    + intros [k|]; cbn; done.
    + destruct (try_send_cases eventChannelBuffer evt (br_out (sy_bridge s))) as [->| ->]; auto.
  - eapply inv_quiet; eauto; try done; cbn.
    + intros k. unfold through. rewrite read_from_snoc. by destruct k; rewrite app_nil_r.
    + intros x cx Hx. apply lookup_insert_Some in Hx as [[<- <-]|[Hne Hx]]; [|by apply Hsame].
      exists (mkCall evt PPushed). split_and!; try done. by intros [k|].
  - destruct (deliver_content evt i (sy_bridge s) None) as [_ Hd].
    eapply (inv_offer _ _ _ _ _ c (Some i)); eauto; try done; cbn.
    + set_solver.
    + destruct (bi_calls _ _ _ Hi _ _ H) as [_ Hn]. by inversion Hn.
    + destruct (bi_calls _ _ _ Hi _ _ H) as [_ Hn]. cbn in Hn. inversion Hn; subst.
      intros [k|]; cbn; [|done]. set_solver.
    + intros k e. apply deliver_wants.
    + intros k Hk. by apply deliver_content.
  - eapply inv_quiet; eauto; try done; cbn.
    + intros k. unfold through. rewrite read_from_snoc. by destruct k; rewrite app_nil_r.
    + intros x cx [Hne Hx]%lookup_delete_Some. by apply Hsame.
  - unfold registerSubscriber in H. injection H as <- <-.
    set (i := fresh (dom (br_heap (sy_bridge s)))).
    assert (Hfresh : br_heap (sy_bridge s) !! i = None).
    { apply not_elem_of_dom. apply is_fresh. }
    destruct (hi_fresh _ _ Hh _ Hfresh) as [_ Hnw].
    eapply inv_quiet; eauto; try done; cbn.
    + apply NoDup_app. split; [done|]. split; [set_solver|apply NoDup_singleton].
    + intros k. unfold through. rewrite read_from_snoc. destruct k as [j|]; cbn; rewrite app_nil_r; [|done].
      f_equal. destruct (decide (i = j)) as [<-|Hne]; [by rewrite lookup_insert_eq, Hfresh|].
      by rewrite lookup_insert_ne.
    + intros [j|] e; cbn; [|done]. destruct (decide (i = j)) as [<-|Hne]; [by rewrite Hfresh|].
      by rewrite lookup_insert_ne.
  - eapply inv_quiet; eauto; try done; cbn.
    + by apply remove_first_NoDup.
    + intros k. unfold through. rewrite read_from_snoc. by destruct k; rewrite app_nil_r.
  - destruct (receive_spec _ _ _ _ H) as (w & _ & Hc & Hother & Hwant & Hw & Hs).
    eapply inv_quiet; eauto; try done; cbn [sy_bridge set_bridge].
    + by rewrite Hw.
    + intros k. unfold through. rewrite read_from_snoc.
      destruct (decide (k = Some i)) as [->|Hne].
      * rewrite Hc. cbn. rewrite Nat.eqb_refl, <- app_assoc. done.
      * rewrite Hother by done. destruct k as [j|]; cbn; [|by rewrite app_nil_r].
        rewrite (proj2 (Nat.eqb_neq i j)) by congruence. by rewrite app_nil_r.
  - eapply inv_quiet; eauto; try done; cbn.
    intros k. unfold through. rewrite read_from_snoc. destruct k as [j|]; cbn; rewrite ?app_nil_r; [done|].
    by rewrite H, <- app_assoc.
Qed.

Definition bridge_init (seed : Z) : system := mkSystem (new_bridge seed) ∅.

Lemma inv_init seed : bridge_inv seed [] (bridge_init seed) /\ heap_inv [] (bridge_init seed).
Proof.
  split; [|constructor; intros i _; split; [done | apply not_elem_of_nil]].
  constructor; cbn; try done; try lia; try constructor.
  - intros [k|]; cbn; [rewrite lookup_empty|]; constructor.
  - intros [k|]; cbn; [rewrite lookup_empty|]; constructor.
Qed.

Lemma run_inv seed tr s : 0 <= seed -> sys_run (bridge_init seed) tr s ->
  seed + Z.of_nat (length (stamped tr)) < 2 ^ 63 -> bridge_inv seed tr s /\ heap_inv tr s.
Proof.
  intros Hseed Hrun. induction Hrun as [|tr s l s' Hrun IH Hstep]; [intros _; apply inv_init|].
  rewrite stamped_snoc, length_app. intros Hmax.
  destruct IH as [Hi Hh]; [lia|]. split; [|by eapply heap_inv_step].
  eapply inv_step; eauto. rewrite stamped_snoc, length_app. lia.
Qed.

(** C39. One event, one number.  However the stream's and the watchdog's
    dispatches interleave with registrations, cancellations and readers, the
    events are numbered consecutively above the seed; every event read from
    the socket's channel or from a waiter is one of them, so two consumers that
    read the same number read the same event; no channel hands out, or holds
    for later, the same number twice; and a waiter only gets the types it
    asked for. *)
Theorem events_numbered_once (seed : Z) (tr : list label) (s : system) :
  0 <= seed -> sys_run (bridge_init seed) tr s -> seed + Z.of_nat (length (stamped tr)) < 2 ^ 63 ->
  map ae_Seq (stamped tr) = seqZ (seed + 1) (Z.of_nat (length (stamped tr)))
  /\ (forall k k' e e', e ∈ through k tr (sy_bridge s) -> e' ∈ through k' tr (sy_bridge s) ->
      ae_Seq e = ae_Seq e' -> e = e')
  /\ (forall k, NoDup (map ae_Seq (through k tr (sy_bridge s))))
  /\ (forall i w, br_heap (sy_bridge s) !! i = Some w ->
      Forall (fun e => type_matches (w_filter w) (ae_Type e) = true) (through (Some i) tr (sy_bridge s))).
Proof.
  intros Hseed Hrun Hmax. destruct (run_inv _ _ _ Hseed Hrun Hmax) as [Hi _].
  split; [apply (bi_stamps _ _ _ Hi)|]. split; [|split; [apply (bi_once _ _ _ Hi)|]].
  - intros k k' e e' He He'. pose proof (bi_known _ _ _ Hi k) as Hk. pose proof (bi_known _ _ _ Hi k') as Hk'.
    rewrite Forall_forall in Hk, Hk'. eapply stamped_inj; [exact Hi | by apply Hk | by apply Hk'].
  - intros i w Hw. eapply Forall_impl; [apply (bi_known _ _ _ Hi (Some i))|].
    cbn. rewrite Hw. by intros e [_ He].
Qed.

(** ** One dispatcher: what a waiter receives *)

Lemma deliver_all_heap e l : forall b i, NoDup l ->
  br_heap (foldl (deliver e) b l) !! i
  = if bool_decide (i ∈ l) then offer e <$> br_heap b !! i else br_heap b !! i.
Proof.
  induction l as [|j l IH]; intros b i Hnd; [done|]. inversion Hnd as [|? ? Hj Hl]; subst.
  cbn [foldl]. rewrite IH by done. unfold deliver. cbn [br_heap set_heap].
  destruct (decide (i = j)) as [->|Hne].
  - rewrite (bool_decide_eq_false_2 (j ∈ l)) by done.
    rewrite (bool_decide_eq_true_2 (j ∈ j :: l)) by set_solver. by rewrite lookup_alter_eq.
  - rewrite lookup_alter_ne by done.
    rewrite (bool_decide_ext (i ∈ j :: l) (i ∈ l)) by set_solver. done.
Qed.

Lemma deliver_all_frame e l : forall b,
  let b' := foldl (deliver e) b l in
  br_seq b' = br_seq b /\ br_waiters b' = br_waiters b /\ br_out b' = br_out b
  /\ br_lastEventUnix b' = br_lastEventUnix b /\ br_lastTrafficUnix b' = br_lastTrafficUnix b.
Proof. induction l as [|j l IH]; intros b; cbn; [done|]. destruct (IH (deliver e b j)). done. Qed.

Lemma dispatch_frame now upd e b :
  let b' := dispatch now upd e b in
  br_seq b' = wrap64 (br_seq b + 1) /\ br_waiters b' = br_waiters b
  /\ br_out b' = try_send eventChannelBuffer (with_Seq (wrap64 (br_seq b + 1)) e) (br_out b).
Proof.
  unfold dispatch, stamp. cbn zeta. cbn -[deliver].
  edestruct deliver_all_frame as (-> & -> & -> & _). done.
Qed.

Lemma dispatch_heap now upd e b i : NoDup (br_waiters b) ->
  br_heap (dispatch now upd e b) !! i
  = if bool_decide (i ∈ br_waiters b) then offer (with_Seq (wrap64 (br_seq b + 1)) e) <$> br_heap b !! i
    else br_heap b !! i.
Proof. intros Hnd. unfold dispatch, stamp. cbn -[deliver]. by rewrite deliver_all_heap. Qed.

(** The events as a lone dispatcher stamps them. *)
Fixpoint stamped_from (seq : Z) (l : list AppEvent) : list AppEvent :=
  match l with
  | [] => []
  | e :: l => with_Seq (wrap64 (seq + 1)) e :: stamped_from (wrap64 (seq + 1)) l
  end.

Definition dispatch_all : list arrival -> EventBridge -> EventBridge :=
  flip (foldl (fun b a => dispatch (ar_now a) (ar_organic a) (ar_event a) b)).

Definition wanted (filter : list string) (l : list AppEvent) : list AppEvent :=
  List.filter (fun e => type_matches filter (ae_Type e)) l.

Lemma try_send_full cap e ch : (cap <= length ch)%nat -> try_send cap e ch = ch.
Proof. intros H. unfold try_send. by rewrite (proj2 (Nat.ltb_ge _ _) H). Qed.

Lemma try_send_take cap e ch rest : try_send cap e (take cap ch) = take cap (ch ++ [e])
  /\ take cap (try_send cap e (take cap ch) ++ rest) = take cap (ch ++ e :: rest).
Proof.
  unfold try_send. rewrite length_take. destruct (Nat.ltb_spec (cap `min` length ch) cap) as [Hlt|Hge].
  - rewrite (take_ge ch) by lia. rewrite take_ge by (rewrite length_app; cbn; lia).
    split; [done|]. by rewrite <- app_assoc.
  - rewrite !take_app_le by lia. rewrite take_app_le by (rewrite length_take; lia).
    split; [done|]. rewrite take_app_le, take_take by lia. by rewrite Nat.min_id.
Qed.

(** A subscriber that does not read keeps the oldest events and loses the
    newest: the send that finds the buffer full gives up. *)
Lemma stream_keeps_oldest (i cap : nat) (filter : list string) (arrivals : list arrival) :
  forall (b : EventBridge) (ch : list AppEvent), NoDup (br_waiters b) -> i ∈ br_waiters b ->
  br_heap b !! i = Some (mkWaiter filter cap (take cap ch)) ->
  br_heap (dispatch_all arrivals b) !! i
  = Some (mkWaiter filter cap
      (take cap (ch ++ wanted filter (stamped_from (br_seq b) (map ar_event arrivals))))).
Proof.
  induction arrivals as [|a l IH]; intros b ch Hnd Hin Hw; cbn; [by rewrite app_nil_r|].
  destruct (dispatch_frame (ar_now a) (ar_organic a) (ar_event a) b) as (Hs & Hws & _).
  change (foldl _ _ l) with (dispatch_all l (dispatch (ar_now a) (ar_organic a) (ar_event a) b)).
  pose proof (dispatch_heap (ar_now a) (ar_organic a) (ar_event a) b i Hnd) as Hh.
  rewrite bool_decide_eq_true_2, Hw in Hh by done. cbn [fmap option_fmap option_map] in Hh.
  unfold offer, matches in Hh. cbn [w_filter w_cap w_ch] in Hh.
  set (e := with_Seq _ _) in *. change (ae_Type e) with (ae_Type (ar_event a)) in Hh.
  destruct (type_matches filter (ae_Type (ar_event a))).
  - rewrite (proj1 (try_send_take cap e ch [])) in Hh.
    rewrite (IH _ (ch ++ [e])); [|by rewrite Hws|by rewrite Hws|done]. by rewrite Hs, <- app_assoc.
  - rewrite (IH _ ch); [|by rewrite Hws|by rewrite Hws|done]. by rewrite Hs.
Qed.

(** ** The wait method *)

Definition before (deadline : time) (a : arrival) : bool := negb (deadline <=? ar_now a).
Fixpoint take_while {A} (p : A -> bool) (l : list A) : list A :=
  match l with [] => [] | x :: l => if p x then x :: take_while p l else [] end.

Lemma remove_first_app i l : i ∉ l -> remove_first i (l ++ [i]) = l.
Proof.
  induction l as [|j l IH]; cbn; intros Hn; [by rewrite Nat.eqb_refl|].
  rewrite (proj2 (Nat.eqb_neq j i)) by set_solver. rewrite IH by set_solver. done.
Qed.

Lemma wait_loop_spec deadline i filter arrivals : forall b, NoDup (br_waiters b) -> i ∈ br_waiters b ->
  br_heap b !! i = Some (mkWaiter filter 1 []) ->
  let r := wait_loop deadline i arrivals b in
  r.1 = head (wanted filter (stamped_from (br_seq b) (map ar_event (take_while (before deadline) arrivals))))
  /\ br_waiters r.2 = br_waiters b.
Proof.
  induction arrivals as [|a l IH]; intros b Hnd Hin Hw; cbn -[dispatch receive wanted]; [done|].
  unfold before at 1. destruct (deadline <=? ar_now a); [done|]. cbn [negb map stamped_from].
  destruct (dispatch_frame (ar_now a) (ar_organic a) (ar_event a) b) as (Hs & Hws & _).
  pose proof (dispatch_heap (ar_now a) (ar_organic a) (ar_event a) b i Hnd) as Hh.
  rewrite bool_decide_eq_true_2, Hw in Hh by done. cbn [fmap option_fmap option_map] in Hh.
  unfold offer, matches in Hh. cbn [w_filter w_cap w_ch] in Hh.
  set (e := with_Seq _ _) in *. change (ae_Type e) with (ae_Type (ar_event a)) in Hh.
  change (wanted filter (e :: ?r)) with
    (if type_matches filter (ae_Type (ar_event a)) then e :: wanted filter r else wanted filter r).
  unfold receive. rewrite Hh. destruct (type_matches filter (ae_Type (ar_event a))); cbn -[dispatch wanted].
  - split; [reflexivity | exact Hws].
  - destruct (IH (dispatch (ar_now a) (ar_organic a) (ar_event a) b)) as [H1 H2]; [by rewrite Hws|by rewrite Hws|done|].
    rewrite H1, H2, Hs, Hws. done.
Qed.

(** [wait] answers with the first matching event and leaves nothing behind.
    Of the events dispatched after the call and before its deadline, the
    answer is the first whose type is asked for, under the number every other
    consumer sees; without one it is a timeout; malformed parameters register
    nothing; and the bridge's list of waiters is what it was. *)
Theorem wait_first_match `{JsonTime} (start : time) (raw : wait_raw) (arrivals : list arrival) (b : EventBridge) :
  NoDup (br_waiters b) -> (forall i, i ∈ br_waiters b -> is_Some (br_heap b !! i)) ->
  let '(r, b') := handleWait start raw arrivals b in
  br_waiters b' = br_waiters b
  /\ match wait_params raw with
     | Err e => r = Err e /\ b' = b
     | Ok p =>
       let heard := take_while (before (start + wait_duration p)) arrivals in
       match wanted (wp_Events p) (stamped_from (br_seq b) (map ar_event heard)) with
       | e :: _ => r = Ok (event_json e)
       | [] => r = Err (ERpc app.ErrWaitTimeout)
       end
     end.
Proof.
  intros Hnd Hdom. unfold handleWait. destruct (wait_params raw) as [p|e]; [|done].
  unfold RegisterWaiter, registerSubscriber. set (i := fresh _).
  assert (Hi : i ∉ br_waiters b).
  { intros Hin. destruct (Hdom _ Hin) as [w Hw]. apply (is_fresh (dom (br_heap b))).
    by apply elem_of_dom_2 with w. }
  set (b0 := set_waiters _ _).
  pose proof (wait_loop_spec (start + wait_duration p) i (wp_Events p) arrivals b0) as Hl.
  cbn zeta in Hl. destruct (wait_loop _ i arrivals b0) as [got b1].
  destruct Hl as [H1 H2]; cbn.
  - apply NoDup_app. split; [done|]. split; [set_solver|apply NoDup_singleton].
  - set_solver.
  - by rewrite lookup_insert_eq.
  - cbn in H1, H2. split; [rewrite H2; cbn; by apply remove_first_app|].
    rewrite H1. by destruct (wanted _ _).
Qed.

(** A timeout of more than 2^63 nanoseconds wraps: the call gives up at once. *)
Lemma wait_timeout_overflow `{JsonTime} (start : time) (b : EventBridge)
    (arrivals : list arrival) :
  Forall (fun a => start <= ar_now a) arrivals ->
  (handleWait start (WJson (JObj [("timeoutMs", JNum "10000000000000")])) arrivals b).1
  = Err (ERpc app.ErrWaitTimeout).
Proof.
  intros Ha. unfold handleWait.
  change (wait_params _) with (Ok (E:=goerr) (mkWaitParams [] 10000000000000)).
  destruct (RegisterWaiter (wp_Events (mkWaitParams [] 10000000000000)) b) as [i b'].
  change (wait_duration _) with (-8446744073709551616).
  destruct Ha as [|a l Ha _]; [done|]. cbn [wait_loop].
  by rewrite (proj2 (Z.leb_le _ _)) by lia.
Qed.

(** ** Backoff *)

Lemma nextStreamBackoff_min cur : eventStreamErrorBackoff <= cur <= eventStreamErrorBackoffMax ->
  nextStreamBackoff cur = Z.min (cur * 2) eventStreamErrorBackoffMax.
Proof.
  unfold nextStreamBackoff, eventStreamErrorBackoff, eventStreamErrorBackoffMax, millisecond, second.
  intros H. rewrite wrap64_id by lia. destruct (Z.ltb_spec (5 * 1000000000) (cur * 2)); lia.
Qed.

(** The delay after [k] consecutive errors. *)
Lemma backoff_doubles k : Nat.iter k nextStreamBackoff eventStreamErrorBackoff
  = Z.min (eventStreamErrorBackoff * 2 ^ Z.of_nat k) eventStreamErrorBackoffMax.
Proof.
  induction k as [|k IH]; [done|]. rewrite Nat.iter_succ, IH.
  assert (0 < 2 ^ Z.of_nat k) by (apply Z.pow_pos_nonneg; lia).
  rewrite nextStreamBackoff_min, Nat2Z.inj_succ, Z.pow_succ_r;
    unfold eventStreamErrorBackoff, eventStreamErrorBackoffMax, millisecond, second in *; lia.
Qed.

Lemma run_loop_errors `{UnicodeTables} (ts : list turn) : forall k b,
  Forall (fun t => match t with TError _ c => c = false | _ => False end) ts ->
  (run_loop ts (Nat.iter k nextStreamBackoff eventStreamErrorBackoff) b).2
  = map (fun j => Nat.iter (k + j) nextStreamBackoff eventStreamErrorBackoff) (seq 0 (length ts)).
Proof.
  induction ts as [|t ts IH]; intros k b Hall; [done|]. inversion Hall as [|? ? Ht Hts]; subst.
  destruct t as [|now c|]; try done. subst c. cbn [run_loop run_turn].
  match goal with |- context [run_loop ts _ ?b'] => specialize (IH (S k) b' Hts); rewrite Nat.iter_succ in IH;
    destruct (run_loop ts _ b') as [b2 ds] end.
  cbn in IH |- *. rewrite IH, Nat.add_0_r. f_equal. rewrite <- seq_shift, map_map.
  apply map_ext. intros j. by rewrite Nat.add_succ_r.
Qed.

(** ** Running a schedule *)

Inductive action :=
| AStamp (c : nat) (now : time) (upd : bool) (e : AppEvent)
| AAdvance (c : nat)
| ARegister (filter : list string) (cap : nat).

Definition exec (a : action) (s : system) : option (label * system) :=
  match a with
  | AStamp c now upd e =>
    match sy_calls s !! c with
    | Some _ => None
    | None => let '(evt, b) := stamp now upd e (sy_bridge s) in
              Some (LStamp c evt, set_call c (mkCall evt PStamped) (set_bridge b s))
    end
  | AAdvance c =>
    match sy_calls s !! c with
    | None => None
    | Some (mkCall evt PStamped) =>
      Some (LPush c evt, set_call c (mkCall evt PPushed) (set_bridge (push_out evt (sy_bridge s)) s))
    | Some (mkCall evt PPushed) =>
      Some (LSnapshot c, set_call c (mkCall evt (PDelivering (br_waiters (sy_bridge s)))) s)
    | Some (mkCall evt (PDelivering (i :: rest))) =>
      Some (LOffer c i evt (takes evt i (sy_bridge s)),
            set_call c (mkCall evt (PDelivering rest)) (set_bridge (deliver evt (sy_bridge s) i) s))
    | Some (mkCall evt (PDelivering [])) =>
      Some (LReturn c, mkSystem (sy_bridge s) (delete c (sy_calls s)))
    end
  | ARegister filter cap =>
    let '(i, b) := registerSubscriber filter cap (sy_bridge s) in Some (LRegister i, set_bridge b s)
  end.

Fixpoint exec_all (l : list action) (tr : list label) (s : system) : option (list label * system) :=
  match l with
  | [] => Some (tr, s)
  | a :: l => match exec a s with Some (lb, s) => exec_all l (tr ++ [lb]) s | None => None end
  end.

Lemma exec_step a s l s' : exec a s = Some (l, s') -> sys_step s l s'.
Proof.
  destruct a as [c now upd e|c|f cap]; cbn -[stamp].
  - destruct (sy_calls s !! c) eqn:Hc; [done|]. destruct (stamp now upd e (sy_bridge s)) as [evt b] eqn:Hs.
    intros [= <- <-]. by eapply S_stamp.
  - destruct (sy_calls s !! c) as [[evt [| |[|i rest]]]|] eqn:Hc; intros [= <- <-];
      by econstructor.
  - intros [= <- <-]. by eapply S_register.
Qed.

Lemma exec_all_run s0 l : forall tr s tr' s', sys_run s0 tr s -> exec_all l tr s = Some (tr', s') ->
  sys_run s0 tr' s'.
Proof.
  induction l as [|a l IH]; cbn; intros tr s tr' s' Hr He; [by injection He as <- <-|].
  destruct (exec a s) as [[lb s1]|] eqn:Ea; [|done]. eapply IH; [|done].
  eapply R_snoc; [done|]. by eapply exec_step.
Qed.

(** ** Two dispatchers can pass each other *)

(** The stream goroutine stamps its event, the watchdog stamps and delivers
    its own, and only then does the first deliver. *)
Definition overtaking (e1 e2 : AppEvent) : list action :=
  [ARegister [] 1024; AStamp 1 0 true e1; AStamp 2 0 false e2]
  ++ repeat (AAdvance 2) 4 ++ repeat (AAdvance 1) 4.

Lemma dispatchers_reorder (e1 e2 : AppEvent) : exists tr s,
  exec_all (overtaking e1 e2) [] (bridge_init 1) = Some (tr, s)
  /\ sys_run (bridge_init 1) tr s
  /\ through (Some 0%nat) tr (sy_bridge s) = [with_Seq 3 e2; with_Seq 2 e1]
  /\ through None tr (sy_bridge s) = [with_Seq 3 e2; with_Seq 2 e1]
  /\ length (stamped tr) = 2%nat /\ sy_calls s = ∅.
Proof.
  destruct (exec_all (overtaking e1 e2) [] (bridge_init 1)) as [[tr s]|] eqn:E;
    [|vm_compute in E; discriminate E].
  exists tr, s. split; [done|]. split; [eapply exec_all_run; [apply R_nil | exact E]|].
  vm_compute in E. injection E as <- <-. split_and!; vm_compute; reflexivity.
Qed.

(** ** A run, and a call of wait *)

#[local] Existing Instance ascii_only_tables.
#[local] Instance demo_json_time : JsonTime := fun t => jint (unix t).

Definition demo_status (st : Z) : AppEvent := translateDomainEvent (DConnection (mkConnectionEvent "c" 0 st)).
Definition demo_receipt : AppEvent :=
  translateDomainEvent (DReceipt (mkReceiptEvent "r" 0 (mkJID "5511" "s.whatsapp.net") "3EB0" 2)).

Lemma events_numbered_once_witness :
  exists tr s, sys_run (bridge_init 1) tr s
  /\ map ae_Seq (through None tr (sy_bridge s)) = [3; 2]
  /\ NoDup (map ae_Seq (through (Some 0%nat) tr (sy_bridge s))).
Proof.
  destruct (dispatchers_reorder (demo_status 3) demo_receipt) as (tr & s & _ & Hr & _ & Ho & Hl & _).
  exists tr, s. split; [exact Hr|]. split; [rewrite Ho; vm_compute; reflexivity|].
  destruct (events_numbered_once 1 tr s ltac:(lia) Hr ltac:(rewrite Hl; reflexivity)) as (_ & _ & H & _).
  apply H.
Defined.

Definition demo_arrivals : list arrival :=
  [mkArrival (1 * second) true (demo_status 3); mkArrival (2 * second) true demo_receipt;
   mkArrival (3 * second) true demo_receipt].

Lemma wait_first_match_witness :
  let raw := WJson (JObj [("events", JArr [JStr "receipt"])]) in
  handleWait 0 raw demo_arrivals (new_bridge 40)
  = (Ok (event_json (with_Seq 42 demo_receipt)), (handleWait 0 raw demo_arrivals (new_bridge 40)).2)
  /\ br_waiters (handleWait 0 raw demo_arrivals (new_bridge 40)).2 = [].
Proof.
  cbn zeta. pose proof (wait_first_match 0 (WJson (JObj [("events", JArr [JStr "receipt"])]))
    demo_arrivals (new_bridge 40) (NoDup_nil_2) ltac:(intros i Hi; by apply not_elem_of_nil in Hi)) as H.
  destruct (handleWait _ _ _ _) as [r b']. destruct H as [Hw Hr]. cbn [snd]. split; [|exact Hw].
  f_equal. exact Hr.
Defined.
