(* ===== verification/Sse.v ===== *)
(** * The REST event stream

    [internal/adapters/primary/rest/sse.go] (the store-tail loop of
    GET /v1/events), its adapter over the durable ring
    ([cmd/wad/rest_http.go], [eventsReplayShim]) and the producer that fills
    the ring ([cmd/wad/events_pump.go]).  The reply is the bytes written;
    [read_stream] is the reader of the server-sent events format that a client
    runs on them.  The [n]th write succeeds when [wire_ok n] says so; one that
    fails leaves its first [wire_cut n] bytes in the reply, and ends the
    connection.  How much of the reply reaches the client is a parameter of the
    theorem: the server buffers what it writes until a flush. *)
From S2P Require Import Prelude GoStd Errors Jid Policy Message Values Json Idem Draft EventRing Envelope Projection Bridge EventStream.

#[local] Open Scope string_scope.
#[local] Open Scope list_scope.
#[local] Open Scope Z_scope.

(** ** Text of a JSON value *)

Fixpoint json_text (j : json) : string :=
  match j with
  | JNull => "null"
  | JBool b => if b then "true" else "false"
  | JNum lit => lit
  | JStr s => json_string s
  | JArr l => "[" +:+ comma_join (map json_text l) +:+ "]"
  | JObj m => "{" +:+ comma_join (map (fun kv => json_string kv.1 +:+ ":" +:+ json_text kv.2) m) +:+ "}"
  end.

(** ** rest_http.go: eventsReplayShim *)

Record RestRecord := mkRest { rr2_Seq : Z; rr2_Kind : string; rr2_Data : string }.

Definition drop_data (d : Z * Z * Z * Z) : string :=
  let '(gap, from, to, dropped) := d in
  json_text (JObj [("gap", jint gap); ("from", jint from); ("to", jint to); ("dropped_total", jint dropped)]).

Definition rest_of (rec : EventRecord) : RestRecord := mkRest (er_Seq rec) (er_Kind rec) (er_TrustedJSON rec).

Definition shim_NewestSeq (f : fault) (t : EventTable) : result Z :=
  res_map bs_NewestSeq (et_Stats None f t).

Definition shim_gap (stats : result BufferStats) (sinceSeq : Z) : list RestRecord :=
  match stats with
  | Ok st => match SyntheticDrop sinceSeq (bs_OldestSeq st) (bs_DroppedTotal st) with
             | Some d => [mkRest 0 "stream.drop" (drop_data d)]
             | None => []
             end
  | Err _ => []
  end.

(** The two reads of one [Replay]; another goroutine may append between them. *)
Definition shim_Replay (r : ring_reads) (k : nat) (sinceSeq limit : Z) : result (list RestRecord) :=
  let out := shim_gap (et_Stats None (rd_fault r k) (rd_table r k)) sinceSeq in
  let* recs := et_Range None (rd_fault r (S k)) sinceSeq limit (rd_table r (S k)) in
  Ok (out ++ map rest_of recs).

(** ** sse.go: writing *)

(** The [n]th write to the reply: whether it succeeds, and how many of its
    bytes get into the reply when it does not. *)
Class Wire := mkWire { wire_ok : nat -> bool; wire_cut : nat -> nat }.
Record reply := mkReply { rp_body : string; rp_writes : nat }.

Definition fprint `{Wire} (s : string) (w : reply) : bool * reply :=
  if wire_ok (rp_writes w) then (true, mkReply (rp_body w +:+ s) (S (rp_writes w)))
  else (false, mkReply (rp_body w +:+ str_take (wire_cut (rp_writes w)) s) (S (rp_writes w))).

Definition lf : string := String (chr 10) "".

Definition writeReplayEvent `{Wire} (rec : RestRecord) (w : reply) : bool * reply :=
  let '(ok, w) := if 0 <? rr2_Seq rec then fprint ("id: " +:+ itoa (rr2_Seq rec) +:+ lf) w else (true, w) in
  if negb ok then (false, w) else
  let '(ok, w) := if negb (str_empty (rr2_Kind rec)) then fprint ("event: " +:+ rr2_Kind rec +:+ lf) w
                  else (true, w) in
  if negb ok then (false, w) else
  let data := if str_empty (rr2_Data rec) then "null" else rr2_Data rec in
  fprint ("data: " +:+ data +:+ lf +:+ lf) w.

(** ** The tail loop *)

Definition sseReplayBatch : Z := 500.
Record sseTail := mkTail { t_cursor : Z; t_reads : nat; t_w : reply }.

(** The records of a batch. *)
Fixpoint emit_batch `{Wire} (recs : list RestRecord) (cursor : Z) (w : reply) : bool * Z * reply :=
  match recs with
  | [] => (true, cursor, w)
  | rec :: recs =>
    let '(ok, w) := writeReplayEvent rec w in
    if negb ok then (false, cursor, w)
    else emit_batch recs (if cursor <? rr2_Seq rec then rr2_Seq rec else cursor) w
  end.

(** [emit]; [None] when [fuel] turns were not enough. *)
Fixpoint emit `{Wire} (fuel : nat) (r : ring_reads) (t : sseTail) : option (bool * sseTail) :=
  match fuel with
  | O => None
  | S fuel =>
    let k := S (S (t_reads t)) in
    match shim_Replay r (t_reads t) (t_cursor t) sseReplayBatch with
    | Err _ => Some (false, mkTail (t_cursor t) k (t_w t))
    | Ok [] => Some (true, mkTail (t_cursor t) k (t_w t))
    | Ok recs =>
      let '(ok, cursor, w) := emit_batch recs (t_cursor t) (t_w t) in
      let t := mkTail cursor k w in
      if negb ok then Some (false, t)
      else if Z.of_nat (length recs) <? sseReplayBatch then Some (true, t)
      else emit fuel r t
    end
  end.

(** [closed]: the hint channel closed while it was drained; [over]: the
    request ended during the settle delay. *)
Definition onWakeHint `{Wire} (fuel : nat) (closed over : bool) (r : ring_reads) (t : sseTail)
    : option (bool * sseTail) :=
  if closed then Some (false, t)
  else
    let before := t_cursor t in
    match emit fuel r t with
    | None => None
    | Some (ok, t) =>
      if negb ok then Some (false, t)
      else if negb (t_cursor t =? before) then Some (true, t)
      else if over then Some (false, t)
      else emit fuel r t
    end.

Inductive wake := WDone | WHeartbeat | WHint (closed over : bool) | WClosed.

(** One turn of the select: whether the loop goes on. *)
Definition tail_turn `{Wire} (fuel : nat) (r : ring_reads) (k : wake) (t : sseTail) : option (bool * sseTail) :=
  match k with
  | WDone | WClosed => Some (false, t)
  | WHeartbeat =>
    let '(ok, w) := fprint (": keepalive" +:+ lf +:+ lf) (t_w t) in
    let t := mkTail (t_cursor t) (t_reads t) w in
    if ok then emit fuel r t else Some (false, t)
  | WHint closed over => onWakeHint fuel closed over r t
  end.

Fixpoint tail_loop `{Wire} (fuel : nat) (r : ring_reads) (ks : list wake) (t : sseTail) : option sseTail :=
  match ks with
  | [] => Some t
  | k :: ks =>
    match tail_turn fuel r k t with
    | None => None
    | Some (ok, t) => if ok then tail_loop fuel r ks t else Some t
    end
  end.

Definition tailEvents `{Wire} (fuel : nat) (r : ring_reads) (ks : list wake) (cursor : Z) (w : reply)
    : option sseTail :=
  match emit fuel r (mkTail cursor 0 w) with
  | None => None
  | Some (ok, t) => if ok then tail_loop fuel r ks t else Some t
  end.

(** The cursor, or the HTTP status and JSON-RPC code of the refusal. *)
Definition resumeCursor (header since : string) (newest : result Z) : res (Z * Z) Z :=
  let raw := if str_empty header then since else header in
  if str_empty raw then
    match newest with Err _ => Err (503, -32099) | Ok n => Ok n end
  else
    match ParseInt raw with
    | None => Err (400, -32602)
    | Some c => if c <? 0 then Err (400, -32602) else Ok c
    end.

(** Without a ring: one frame per live event, numbered by the connection. *)
Record LiveEvent := mkLive { le_Seq : Z; le_Type : string; le_Data : option string }.
Definition writeEvent `{Wire} (evt : LiveEvent) (w : reply) : bool * reply :=
  let '(ok, w) := fprint ("id: " +:+ itoa (le_Seq evt) +:+ lf) w in
  if negb ok then (false, w) else
  let '(ok, w) := if negb (str_empty (le_Type evt)) then fprint ("event: " +:+ le_Type evt +:+ lf) w
                  else (true, w) in
  if negb ok then (false, w) else
  fprint ("data: " +:+ default "null" (le_Data evt) +:+ lf +:+ lf) w.

(** [restEventStreamAdapter.SubscribeStream]: the events of the subscription,
    numbered by the adapter's own counter. *)
Fixpoint adapt_stream `{JsonTime} (seq : Z) (evts : list AppEvent) : list LiveEvent :=
  match evts with
  | [] => []
  | evt :: evts =>
    let seq := wrap64 (seq + 1) in
    mkLive seq (ae_Type evt) (Some (json_text (payload_json (ae_Payload evt)))) :: adapt_stream seq evts
  end.

Inductive live_wake := LDone | LHeartbeat | LEvent (evt : LiveEvent) | LClosed.

Fixpoint live_loop `{Wire} (ks : list live_wake) (w : reply) : reply :=
  match ks with
  | [] => w
  | LDone :: _ | LClosed :: _ => w
  | LHeartbeat :: ks =>
    let '(ok, w) := fprint (": keepalive" +:+ lf +:+ lf) w in if ok then live_loop ks w else w
  | LEvent evt :: ks => let '(ok, w) := writeEvent evt w in if ok then live_loop ks w else w
  end.

(** [handleEvents]: the refusals, or what was written.  [flusher] is false
    under a middleware that buffers the reply; [replay] is the ring, when one
    is wired. *)
Definition handleEvents `{Wire} (fuel : nat) (wired authorised flusher : bool) (header since : string)
    (replay : option (fault * ring_reads)) (ks : list wake) (ls : list live_wake)
    : res (Z * Z) (option reply) :=
  fail_if negb wired with (503, -32099) ;;
  fail_if negb authorised with (401, -32099) ;;
  fail_if negb flusher with (500, -32603) ;;
  let* cursor := match replay with
                 | None => Ok 0
                 | Some (f, r) => resumeCursor header since (shim_NewestSeq f (rd_table r 0))
                 end in
  let '(_, w) := fprint (": connected" +:+ lf +:+ lf) (mkReply "" 0) in
  Ok (match replay with
      | Some (_, r) => t_w <$> tailEvents fuel r ks cursor w
      | None => Some (live_loop ls w)
      end).

(** ** events_pump.go *)

Definition eventsPumpBuffer : Z := 1024.

Definition selectors_json (e : AppEvent) : json :=
  JObj (omit_str "chat" (ae_Chat e) ++ omit_str "sender" (ae_Sender e) ++ omit_str "body" (ae_Body e)).

Definition pump_record `{JsonTime} (e : AppEvent) : EventRecord :=
  mkEventRecord (ae_Seq e) (ae_Type e) (json_text (payload_json (ae_Payload e)))
    (json_text (selectors_json e)) zero_time.

(** One event: an append that fails is logged and the pump goes on. *)
Definition pump_event `{JsonTime} (f : append_fault) (now : time) (e : AppEvent) (t : EventTable) : EventTable :=
  (et_Append None f now (pump_record e) t).2.

(** ** The client *)

(** A reader of server-sent events: the id, type and data buffers, the last
    event id, which a reconnection sends, and the events dispatched so far,
    each with its id.  An event is dispatched at a blank line. *)
Record es_state := mkEs {
  es_id : string; es_type : string; es_data : string; es_last : string;
  es_events : list (string * string * string) }.

Definition strip_space (s : string) : string :=
  match s with String c r => if Ascii.eqb c " " then r else s | EmptyString => s end.

Definition dispatch_event (st : es_state) : es_state :=
  if str_empty (es_data st) then mkEs (es_id st) "" "" (es_id st) (es_events st)
  else
    let type := if str_empty (es_type st) then "message" else es_type st in
    mkEs (es_id st) "" "" (es_id st)
      (es_events st ++ [(es_id st, type, str_take (String.length (es_data st) - 1) (es_data st))]).

Definition feed_line (line : string) (st : es_state) : es_state :=
  if str_empty line then dispatch_event st
  else
    let '(field, value) :=
      match cut_byte ":" line with Some (f, v) => (f, strip_space v) | None => (line, "") end in
    if String.eqb field "event" then mkEs (es_id st) value (es_data st) (es_last st) (es_events st)
    else if String.eqb field "data" then
      mkEs (es_id st) (es_type st) (es_data st +:+ value +:+ lf) (es_last st) (es_events st)
    else if String.eqb field "id" then mkEs value (es_type st) (es_data st) (es_last st) (es_events st)
    else st.

(** Complete lines only: [cur] is the line being read. *)
Fixpoint feed (cur s : string) (st : es_state) : es_state :=
  match s with
  | EmptyString => st
  | String c s => if Ascii.eqb c (chr 10) then feed "" s (feed_line cur st) else feed (cur +:+ String c "") s st
  end.

(** What a client that asked to resume after [last] receives, and the id its
    next reconnection sends. *)
Definition read_stream (last body : string) : list (string * string * string) * string :=
  let st := feed "" body (mkEs last "" "" last []) in (es_events st, es_last st).

(** ** Frames *)

Definition one_line (s : string) : bool := str_forallb (fun c => 32 <=? bz c) s.

Definition rest_ok (rec : RestRecord) : bool :=
  (0 <=? rr2_Seq rec) && one_line (rr2_Kind rec) && negb (str_empty (rr2_Kind rec))
  && one_line (rr2_Data rec) && negb (str_empty (rr2_Data rec)).

Definition id_line (rec : RestRecord) : string :=
  if 0 <? rr2_Seq rec then "id: " +:+ itoa (rr2_Seq rec) +:+ lf else "".
Definition event_line (rec : RestRecord) : string := "event: " +:+ rr2_Kind rec +:+ lf.
Definition frame_of (rec : RestRecord) : string :=
  id_line rec +:+ event_line rec +:+ "data: " +:+ rr2_Data rec +:+ lf +:+ lf.
Definition frames (l : list RestRecord) : string := str_concat (map frame_of l).

Definition id_after (last : string) (rec : RestRecord) : string :=
  if 0 <? rr2_Seq rec then itoa (rr2_Seq rec) else last.
Fixpoint events_of (last : string) (l : list RestRecord) : list (string * string * string) :=
  match l with
  | [] => []
  | rec :: l => let last := id_after last rec in (last, rr2_Kind rec, rr2_Data rec) :: events_of last l
  end.
Definition cursor_after (c : Z) (l : list RestRecord) : Z :=
  foldl (fun m rec => Z.max m (rr2_Seq rec)) c l.

Lemma feed_lf l : forall cur s st, no_byte (chr 10) l = true ->
  feed cur (l +:+ lf +:+ s) st = feed "" s (feed_line (cur +:+ l) st).
Proof.
  induction l as [|c l IH]; intros cur s st Hl.
  - by rewrite str_app_nil_r.
  - unfold no_byte in Hl. cbn [str_forallb] in Hl. apply andb_true_iff in Hl as [Hc Hl]. apply negb_true_iff in Hc.
    change (String c l +:+ lf +:+ s) with (String c (l +:+ lf +:+ s)). cbn [feed]. rewrite Hc.
    rewrite IH by done. by rewrite <- str_app_assoc.
Qed.

Lemma one_line_no_lf s : one_line s = true -> no_byte (chr 10) s = true.
Proof.
  apply str_forallb_impl. intros c Hc. apply negb_true_iff, Ascii.eqb_neq. intros ->. by vm_compute in Hc.
Qed.

Lemma itoa_one_line z : one_line (itoa z) = true.
Proof.
  eapply str_forallb_impl; [|apply itoa_bytes]. cbn. intros c. unfold is_digit.
  rewrite orb_true_iff, Ascii.eqb_eq. intros [Hc| ->]; [|done]. unfold in_range in Hc. bprop. apply Z.leb_le. lia.
Qed.

Definition fresh_st (id : string) (evs : list (string * string * string)) : es_state := mkEs id "" "" id evs.

Lemma feed_field name v st : no_byte ":" name = true -> str_empty name = false ->
  feed_line (name +:+ ": " +:+ v) st
  = if String.eqb name "event" then mkEs (es_id st) v (es_data st) (es_last st) (es_events st)
    else if String.eqb name "data" then mkEs (es_id st) (es_type st) (es_data st +:+ v +:+ lf) (es_last st) (es_events st)
    else if String.eqb name "id" then mkEs v (es_type st) (es_data st) (es_last st) (es_events st)
    else st.
Proof.
  intros Hn He. unfold feed_line.
  assert (str_empty (name +:+ ": " +:+ v) = false) as -> by by destruct name.
  assert (cut_byte ":" (name +:+ ": " +:+ v) = Some (name, String " " v)) as ->; [|done].
  by apply cut_byte_spec.
Qed.

Lemma no_byte_cat b s t : no_byte b (s +:+ t) = no_byte b s && no_byte b t.
Proof. apply str_forallb_app. Qed.

Lemma feed_id rec s st : rest_ok rec = true ->
  feed "" (id_line rec +:+ s) st
  = feed "" s (mkEs (id_after (es_id st) rec) (es_type st) (es_data st) (es_last st) (es_events st)).
Proof.
  intros _. unfold id_line, id_after. destruct (0 <? rr2_Seq rec); [|by destruct st].
  rewrite <- !str_app_assoc, (str_app_assoc "id: "), feed_lf.
  - f_equal; apply (feed_field "id"); done.
  - rewrite no_byte_cat, andb_true_iff. split; [done|]. apply one_line_no_lf, itoa_one_line.
Qed.

Lemma feed_event rec s st : rest_ok rec = true ->
  feed "" (event_line rec +:+ s) st
  = feed "" s (mkEs (es_id st) (rr2_Kind rec) (es_data st) (es_last st) (es_events st)).
Proof.
  unfold rest_ok. rewrite !andb_true_iff. intros [[[[_ Hk] _] _] _]. unfold event_line.
  rewrite <- !str_app_assoc, (str_app_assoc "event: "), feed_lf.
  - f_equal; apply (feed_field "event"); done.
  - rewrite no_byte_cat, andb_true_iff. split; [done|]. by apply one_line_no_lf.
Qed.

Lemma str_take_lf s : str_take (String.length (s +:+ lf) - 1) (s +:+ lf) = s.
Proof.
  rewrite str_app_length. cbn [String.length lf]. rewrite Nat.add_sub.
  induction s as [|c s IH]; [done|]. cbn. by rewrite IH.
Qed.

Lemma dispatch_full id k d last evs : str_empty k = false -> str_empty d = false ->
  dispatch_event (mkEs id k (d +:+ lf) last evs) = fresh_st id (evs ++ [(id, k, d)]).
Proof.
  intros Hk Hd. unfold dispatch_event. cbn [es_data es_type es_id es_events].
  rewrite Hk, str_take_lf. by destruct d.
Qed.

Lemma feed_frame rec s id evs : rest_ok rec = true ->
  feed "" (frame_of rec +:+ s) (fresh_st id evs)
  = feed "" s (fresh_st (id_after id rec) (evs ++ [(id_after id rec, rr2_Kind rec, rr2_Data rec)])).
Proof.
  intros Hok. unfold frame_of. rewrite <- !str_app_assoc. rewrite feed_id, feed_event by done.
  unfold rest_ok in Hok. rewrite !andb_true_iff in Hok. destruct Hok as [[[[_ _] Hk] Hd] He].
  rewrite (str_app_assoc "data: "), feed_lf.
  2: { rewrite no_byte_cat, andb_true_iff. split; [done|]. by apply one_line_no_lf. }
  change (("" +:+ "data: " +:+ rr2_Data rec)) with ("data" +:+ ": " +:+ rr2_Data rec).
  rewrite (feed_field "data") by done.
  change (String.eqb "data" "event") with false. change (String.eqb "data" "data") with true. cbv iota.
  change (lf +:+ s) with ("" +:+ lf +:+ s). rewrite feed_lf by done.
  change (feed_line ("" +:+ "") ?x) with (dispatch_event x).
  apply negb_true_iff in Hk, He. f_equal. by apply dispatch_full.
Qed.

(** Text without an empty line, from a line that is empty so far or not. *)
Fixpoint no_blank (blank : bool) (s : string) : bool :=
  match s with
  | EmptyString => true
  | String c s => if Ascii.eqb c (chr 10) then negb blank && no_blank true s else no_blank false s
  end.

Lemma no_blank_prefix p q : forall b, no_blank b (p +:+ q) = true -> no_blank b p = true.
Proof.
  induction p as [|c p IH]; intros b; [done|]. change (String c p +:+ q) with (String c (p +:+ q)). cbn [no_blank].
  destruct (Ascii.eqb c (chr 10)); [|apply IH]. rewrite !andb_true_iff. intros [Hb Hp]. split; [done|]. by apply IH.
Qed.

Lemma no_blank_line l s : forall b, no_byte (chr 10) l = true ->
  no_blank b (l +:+ lf +:+ s) = (negb b || negb (str_empty l)) && no_blank true s.
Proof.
  induction l as [|c l IH]; intros b Hl; [by destruct b|].
  unfold no_byte in Hl. cbn [str_forallb] in Hl. apply andb_true_iff in Hl as [Hc Hl]. apply negb_true_iff in Hc.
  change (String c l +:+ lf +:+ s) with (String c (l +:+ lf +:+ s)). cbn [no_blank str_empty negb]. rewrite Hc, orb_true_r.
  by rewrite IH.
Qed.

(** Without an empty line nothing is dispatched. *)
Lemma feed_no_blank s : forall cur st, no_blank (str_empty cur) s = true ->
  es_events (feed cur s st) = es_events st /\ es_last (feed cur s st) = es_last st.
Proof.
  induction s as [|c s IH]; intros cur st; [done|]. cbn [no_blank feed]. destruct (Ascii.eqb c (chr 10)).
  - rewrite andb_true_iff, negb_true_iff. intros [He Hs]. destruct (IH "" (feed_line cur st) Hs) as [-> ->].
    unfold feed_line. rewrite He. destruct (cut_byte ":" cur) as [[field value]|]; repeat case_match; done.
  - intros Hs. apply IH. by destruct cur.
Qed.

(** A frame but for its empty line. *)
Definition open_frame (rec : RestRecord) : string :=
  id_line rec +:+ event_line rec +:+ "data: " +:+ rr2_Data rec +:+ lf.

Lemma open_frame_no_blank rec : rest_ok rec = true -> no_blank true (open_frame rec) = true.
Proof.
  unfold rest_ok. rewrite !andb_true_iff. intros [[[[_ Hk] _] Hd] _].
  assert (Hrest : no_blank true (event_line rec +:+ "data: " +:+ rr2_Data rec +:+ lf) = true).
  { unfold event_line. rewrite <- !str_app_assoc, (str_app_assoc "event: "), no_blank_line.
    2: { rewrite no_byte_cat, andb_true_iff. split; [done|]. by apply one_line_no_lf. }
    cbn [str_empty negb orb andb]. rewrite (str_app_assoc "data: "), <- (str_app_nil_r lf), no_blank_line; [done|].
    rewrite no_byte_cat, andb_true_iff. split; [done|]. by apply one_line_no_lf. }
  unfold open_frame, id_line. destruct (0 <? rr2_Seq rec); [|exact Hrest].
  rewrite <- !str_app_assoc, (str_app_assoc "id: "), no_blank_line; [exact Hrest|].
  rewrite no_byte_cat, andb_true_iff. split; [done|]. apply one_line_no_lf, itoa_one_line.
Qed.

Lemma frame_of_open rec : frame_of rec = open_frame rec +:+ lf.
Proof. unfold frame_of, open_frame. by rewrite <- !str_app_assoc. Qed.

(** Two ways to cut one text. *)
Lemma app_split a b p q : a +:+ b = p +:+ q ->
  (exists p', p = a +:+ p' /\ b = p' +:+ q) \/ (exists c a', a = p +:+ String c a').
Proof.
  revert p. induction a as [|x a IH]; intros p E; [left; by exists p|].
  destruct p as [|y p]; [right; by exists x, a|].
  change (String x (a +:+ b) = String y (p +:+ q)) in E. injection E as -> E.
  destruct (IH p E) as [(p' & -> & ->)|(c & a' & ->)]; [left; by exists p'|right; by exists c, a'].
Qed.

(** Whatever part of the frames arrives, the reader has dispatched the first of
    them, and no more than arrived whole. *)
Lemma feed_prefix l : forall p q id evs, Forall (fun r => rest_ok r = true) l -> frames l = p +:+ q ->
  exists n, (q = "" -> n = length l)
  /\ es_events (feed "" p (fresh_st id evs)) = evs ++ events_of id (take n l)
  /\ es_last (feed "" p (fresh_st id evs)) = foldl id_after id (take n l).
Proof.
  induction l as [|rec l IH]; intros p q id evs Hok E.
  - exists 0%nat. destruct p; [|discriminate E]. cbn. by rewrite app_nil_r.
  - inversion Hok as [|? ? Hr Hl]; subst. change (frames (rec :: l)) with (frame_of rec +:+ frames l) in E.
    destruct (app_split _ _ _ _ E) as [(p' & -> & E')|(c & a & Ea)].
    + rewrite feed_frame by done.
      destruct (IH p' q (id_after id rec) (evs ++ [(id_after id rec, rr2_Kind rec, rr2_Data rec)]) Hl E') as (n & Hn & -> & ->).
      exists (S n). cbn [take events_of foldl length]. rewrite <- app_assoc. split_and!; [intros Hq; by rewrite Hn|done|done].
    + exists 0%nat. cbn [take events_of foldl]. rewrite app_nil_r.
      assert (Hp : no_blank true p = true).
      { pose proof (open_frame_no_blank rec Hr) as Ho. rewrite frame_of_open in Ea.
        destruct (app_split _ _ _ _ Ea) as [(p' & -> & Ep)|(c' & a' & Eo)].
        - destruct p' as [|x p']; [by rewrite str_app_nil_r|]. injection Ep as _ Ep. by destruct p'.
        - rewrite Eo in Ho. by apply no_blank_prefix in Ho. }
      destruct (feed_no_blank p "" (fresh_st id evs) Hp) as [-> ->]. split_and!; [|done|done].
      intros ->. exfalso. rewrite Ea in E. apply (f_equal String.length) in E. rewrite !str_app_length in E. cbn in E. lia.
Qed.

Lemma read_prefix last l p q : Forall (fun r => rest_ok r = true) l -> frames l = p +:+ q ->
  exists n, (q = "" -> n = length l) /\ read_stream last p = (events_of last (take n l), foldl id_after last (take n l)).
Proof.
  intros Hok E. destruct (feed_prefix l p q last [] Hok E) as (n & Hn & He & Hi). exists n. split; [done|].
  unfold read_stream. change (mkEs last "" "" last []) with (fresh_st last []). by rewrite He, Hi.
Qed.

(** ** A JSON text is one line *)

(** The first rune of a string is an ASCII byte, or its bytes are not ASCII. *)
Lemma decode_bytes c s : let '(r, w) := decode_rune (String c s) in
  (r = bz c /\ w = 1%nat) \/ (str_forallb (fun b => 128 <=? bz b) (str_take w (String c s)) = true
    /\ (0 < w)%nat).
Proof.
  unfold decode_rune. destruct (Z.ltb_spec (bz c) 128) as [|Hc]; [by left|].
  apply Z.leb_le in Hc.
  destruct (negb (in_range 194 244 (bz c))); [right; cbn; rewrite Hc; by split; [|lia]|].
  destruct s as [|b s]; [right; cbn; rewrite Hc; by split; [|lia]|].
  match goal with |- context [in_range ?lo ?hi (bz b)] => destruct (in_range lo hi (bz b)) eqn:Hb end;
    cbn [negb]; [|right; cbn; rewrite Hc; by split; [|lia]].
  assert (Hb' : (128 <=? bz b) = true).
  { unfold in_range in Hb. bprop. apply Z.leb_le. repeat case_match; lia. }
  destruct (bz c <? 224); [right; cbn; rewrite Hc, Hb'; by split; [|lia]|].
  destruct s as [|d s]; [right; cbn; rewrite Hc; by split; [|lia]|].
  destruct (is_cont (bz d)) eqn:Hd; cbn [negb]; [|right; cbn; rewrite Hc; by split; [|lia]].
  assert (Hd' : (128 <=? bz d) = true) by (unfold is_cont, in_range in Hd; bprop; apply Z.leb_le; lia).
  destruct (bz c <? 240); [right; cbn; rewrite Hc, Hb', Hd'; by split; [|lia]|].
  destruct s as [|e s]; [right; cbn; rewrite Hc; by split; [|lia]|].
  destruct (is_cont (bz e)) eqn:He; cbn [negb]; [|right; cbn; rewrite Hc; by split; [|lia]].
  assert (He' : (128 <=? bz e) = true) by (unfold is_cont, in_range in He; bprop; apply Z.leb_le; lia).
  right. cbn. rewrite Hc, Hb', Hd', He'. by split; [|lia].
Qed.

Lemma one_line_app s t : one_line (s +:+ t) = one_line s && one_line t.
Proof. apply str_forallb_app. Qed.

Lemma one_line_concat l : Forall (fun s => one_line s = true) l -> one_line (str_concat l) = true.
Proof.
  induction 1 as [|s l Hs _ IH]; [done|]. change (str_concat (s :: l)) with (s +:+ str_concat l).
  by rewrite one_line_app, Hs.
Qed.

Lemma hex4_one_line r : one_line (hex4 r) = true.
Proof.
  assert (Hd : forall z, one_line (String (hex_digit (z mod 16)) "") = true).
  { intros z. pose proof (Z.mod_pos_bound z 16 ltac:(lia)) as Hb.
    assert (Hin : z mod 16 ∈ seqZ 0 16) by (apply elem_of_seqZ; lia). revert Hin. generalize (z mod 16).
    apply Forall_forall. vm_compute. repeat constructor. }
  unfold hex4. cbv zeta. by rewrite !one_line_app, !Hd.
Qed.

Lemma json_rune_one_line r s : (exists c, s = String c "" /\ r = bz c)
  \/ str_forallb (fun b => 128 <=? bz b) s = true -> one_line (json_rune (r, s)) = true.
Proof.
  intros H. unfold json_rune. cbn [fst snd].
  repeat match goal with |- one_line (if ?b then _ else _) = true => destruct b eqn:?; [try reflexivity; try apply hex4_one_line|] end.
  destruct H as [(c & -> & ->)|H].
  - unfold one_line. cbn. rewrite andb_true_r. bprop. apply Z.leb_le. lia.
  - eapply str_forallb_impl; [|exact H]. cbn. intros c Hc. bprop. apply Z.leb_le. lia.
Qed.

Lemma segments_one_line n : forall s, Forall (fun x => one_line x = true) (map json_rune (segments_fuel n s)).
Proof.
  induction n as [|n IH]; intros s; [constructor|]. destruct s as [|c s]; [constructor|].
  cbn [segments_fuel]. pose proof (decode_bytes c s) as Hd. destruct (decode_rune (String c s)) as [r w].
  constructor; [|apply IH]. apply json_rune_one_line.
  destruct Hd as [[-> ->]|[Hd _]]; [left|by right]. exists c. split; [by destruct s|done].
Qed.

Lemma json_string_one_line s : one_line (json_string s) = true.
Proof.
  unfold json_string. change (String ?a (?x +:+ ?y)) with (String a "" +:+ x +:+ y).
  rewrite !one_line_app. rewrite one_line_concat; [done|]. apply segments_one_line.
Qed.

(** The numbers of a value, which are printed as they are. *)
Fixpoint nums_ok (j : json) : bool :=
  match j with
  | JNum lit => one_line lit
  | JArr l => forallb nums_ok l
  | JObj m => forallb (fun kv => nums_ok kv.2) m
  | _ => true
  end.

Lemma comma_join_one_line l : Forall (fun s => one_line s = true) l -> one_line (comma_join l) = true.
Proof.
  destruct 1 as [|s l Hs Hl]; [done|]. unfold comma_join. rewrite one_line_app, Hs.
  apply one_line_concat, List.Forall_map. eapply Forall_impl; [exact Hl|]. cbn. intros x Hx. exact Hx.
Qed.

Lemma json_text_one_line : forall j, nums_ok j = true -> one_line (json_text j) = true.
Proof.
  fix IH 1. intros [|[|]|lit|s|l|m] H; [done|done|done|exact H|apply json_string_one_line| |]; cbn [json_text nums_ok] in *.
  - rewrite !one_line_app. rewrite comma_join_one_line; [done|].
    induction l as [|x l IHl]; cbn in *; [constructor|]. apply andb_true_iff in H as [Hx Hl]. constructor; auto.
  - rewrite !one_line_app. rewrite comma_join_one_line; [done|].
    induction m as [|x l IHl]; cbn [map forallb] in *; [constructor|]. apply andb_true_iff in H as [Hx Hl]. constructor; [|auto].
    cbv beta. rewrite !one_line_app, json_string_one_line. cbn [andb]. by apply IH.
Qed.

Section Emit.
Context {wire : Wire}.

Definition wire_up : Prop := forall n, wire_ok n = true.

(** [w'] is [w] with some of [text] after it: all of it when [ok]. *)
Definition wrote (ok : bool) (text : string) (w w' : reply) : Prop :=
  exists p q, rp_body w' = rp_body w +:+ p /\ text = p +:+ q /\ (ok = true -> q = "").

Lemma wrote_nothing ok w n : wrote ok "" w (mkReply (rp_body w) n).
Proof. exists "", "". by rewrite str_app_nil_r. Qed.
Lemma wrote_cut t w w' : wrote false "" w w' -> wrote false t w w'.
Proof. intros (p & q & Hb & E & _). destruct p; [|discriminate E]. by exists "", t. Qed.
Lemma wrote_stop s t w w' : wrote false s w w' -> wrote false (s +:+ t) w w'.
Proof. intros (p & q & Hb & -> & _). exists p, (q +:+ t). by rewrite str_app_assoc. Qed.
Lemma wrote_seq ok s t w w1 w2 : wrote true s w w1 -> wrote ok t w1 w2 -> wrote ok (s +:+ t) w w2.
Proof.
  intros (p & q & Hb & -> & Hq) (p' & q' & Hb' & -> & Hq'). rewrite Hq, str_app_nil_r by done.
  exists (p +:+ p'), q'. by rewrite Hb', Hb, <- !str_app_assoc.
Qed.

Lemma fprint_wrote s w : let '(ok, w') := fprint s w in wrote ok s w w' /\ (wire_up -> ok = true).
Proof.
  unfold fprint. destruct (wire_ok (rp_writes w)) eqn:E.
  - split; [|done]. exists s, "". by rewrite str_app_nil_r.
  - split; [|intros Hup; by rewrite Hup in E]. eexists _, _. split; [reflexivity|]. split; [apply str_take_drop|done].
Qed.

Lemma write_spec rec w : rest_ok rec = true ->
  let '(ok, w') := writeReplayEvent rec w in wrote ok (frame_of rec) w w' /\ (wire_up -> ok = true).
Proof.
  intros Hok. assert (Hk : str_empty (rr2_Kind rec) = false /\ str_empty (rr2_Data rec) = false).
  { unfold rest_ok in Hok. bprop. done. }
  destruct Hk as [Hk Hd]. unfold writeReplayEvent, frame_of. rewrite Hk, Hd. cbn [negb].
  assert (Hid : let '(ok, w') := (if 0 <? rr2_Seq rec then fprint ("id: " +:+ itoa (rr2_Seq rec) +:+ lf) w else (true, w)) in
    wrote ok (id_line rec) w w' /\ (wire_up -> ok = true)).
  { unfold id_line. destruct (0 <? rr2_Seq rec); [apply fprint_wrote|]. split; [|done]. destruct w. apply wrote_nothing. }
  destruct (if 0 <? rr2_Seq rec then _ else _) as [[|] w1], Hid as [H1 U1]; cbn [negb].
  2: { split; [by apply wrote_stop|done]. }
  pose proof (fprint_wrote ("event: " +:+ rr2_Kind rec +:+ lf) w1) as He.
  destruct (fprint _ w1) as [[|] w2], He as [H2 U2]; cbn [negb].
  2: { split; [eapply wrote_seq; [exact H1|by apply wrote_stop]|done]. }
  pose proof (fprint_wrote ("data: " +:+ rr2_Data rec +:+ lf +:+ lf) w2) as H3.
  destruct (fprint _ w2) as [ok w3], H3 as [H3 U3]. split; [|done].
  eapply wrote_seq; [exact H1|]. eapply wrote_seq; [exact H2|exact H3].
Qed.

Lemma frames_cons rec l : frames (rec :: l) = frame_of rec +:+ frames l.
Proof. done. Qed.
Lemma frames_app l1 l2 : frames (l1 ++ l2) = frames l1 +:+ frames l2.
Proof. induction l1 as [|x l IH]; [done|]. cbn [app]. by rewrite !frames_cons, IH, str_app_assoc. Qed.

Lemma emit_batch_spec recs : Forall (fun r => rest_ok r = true) recs -> forall c w,
  let '(ok, c', w') := emit_batch recs c w in
  wrote ok (frames recs) w w' /\ (ok = true -> c' = cursor_after c recs) /\ (wire_up -> ok = true).
Proof.
  induction 1 as [|rec recs Hr Hrs IH]; intros c w; cbn [emit_batch].
  - split; [|done]. destruct w. apply wrote_nothing.
  - pose proof (write_spec rec w Hr) as Hw. destruct (writeReplayEvent rec w) as [[|] w1], Hw as [Hw Hu]; cbn [negb].
    + specialize (IH (if c <? rr2_Seq rec then rr2_Seq rec else c) w1).
      destruct (emit_batch recs _ w1) as [[ok c'] w'], IH as (Hw' & Hc & Hu'). split_and!; [| |done].
      * rewrite frames_cons. by eapply wrote_seq.
      * intros Hok. rewrite (Hc Hok). unfold cursor_after. cbn [foldl]. f_equal. destruct (Z.ltb_spec c (rr2_Seq rec)); lia.
    + split_and!; [by rewrite frames_cons; apply wrote_stop|done|done].
Qed.

End Emit.

(** ** What a drain sends *)

(** A row of the ring, or the report that the numbers [from] to [to] are gone. *)
Inductive item := Row (x : EventRecord) | Gap (from to dropped : Z).

Definition record_of (it : item) : RestRecord :=
  match it with
  | Row x => rest_of x
  | Gap from to dropped => mkRest 0 "stream.drop" (drop_data (to - from + 1, from, to, dropped))
  end.
Definition first_no (it : item) : Z := match it with Row x => er_Seq x | Gap from _ _ => from end.
Definition last_no (it : item) : Z := match it with Row x => er_Seq x | Gap _ to _ => to end.
Definition covers (it : item) (x : EventRecord) : Prop :=
  match it with Row y => y = x | Gap from to _ => from <= er_Seq x <= to end.

(** The numbers rise, from above [c] on: no event twice, none both sent and
    reported gone. *)
Fixpoint in_order (c : Z) (l : list item) : Prop :=
  match l with [] => True | it :: l => c < first_no it /\ first_no it <= last_no it /\ in_order (last_no it) l end.
Definition bound (c : Z) (l : list item) : Z := foldl (fun _ it => last_no it) c l.
(** The number of the last row among them: the cursor they leave. *)
Definition cursor_of (c : Z) (l : list item) : Z :=
  foldl (fun c it => match it with Row x => er_Seq x | Gap _ _ _ => c end) c l.

Lemma in_order_app l1 l2 : forall c, in_order c (l1 ++ l2) <-> in_order c l1 /\ in_order (bound c l1) l2.
Proof. induction l1 as [|it l1 IH]; intros c; cbn; [tauto|]. rewrite IH. tauto. Qed.
Lemma cursor_of_app l1 l2 c : cursor_of c (l1 ++ l2) = cursor_of (cursor_of c l1) l2.
Proof. apply foldl_app. Qed.
Lemma bound_app l1 l2 c : bound c (l1 ++ l2) = bound (bound c l1) l2.
Proof. apply foldl_app. Qed.

Lemma in_order_first l : forall c it, in_order c l -> it ∈ l -> c < first_no it.
Proof.
  induction l as [|x l IH]; intros c it; cbn; [by intros _ ?%not_elem_of_nil|].
  intros (H1 & H2 & H3) [->|Hin]%elem_of_cons; [done|]. specialize (IH _ _ H3 Hin). lia.
Qed.

Lemma in_order_cursor l : forall b c, 0 <= c <= b -> in_order b l ->
  cursor_after c (map record_of l) = cursor_of c l /\ c <= cursor_of c l <= bound b l.
Proof.
  induction l as [|[x|from to d] l IH]; intros b c Hc; cbn [in_order]; [cbn; lia| |];
    cbn [first_no last_no]; intros (H1 & H2 & H3); unfold cursor_after, cursor_of, bound;
    cbn [map foldl record_of rest_of rr2_Seq last_no].
  - rewrite Z.max_r by lia. destruct (IH (er_Seq x) (er_Seq x) ltac:(lia) H3) as [E1 E2].
    unfold cursor_after, cursor_of, bound in E1, E2. split; [done|lia].
  - rewrite Z.max_l by lia. destruct (IH to c ltac:(lia) H3) as [E1 E2]. by split.
Qed.

(** What the first [n] cover, of what all of them do. *)
Lemma take_covers c n l x : 0 <= c -> in_order c l -> er_Seq x <= cursor_of c (take n l) ->
  (exists it, it ∈ l /\ covers it x) -> exists it, it ∈ take n l /\ covers it x.
Proof.
  intros Hc Hs Hx (it & Hin & Hcov). rewrite <- (take_drop n l) in Hin, Hs. apply in_order_app in Hs as [H1 H2].
  apply elem_of_app in Hin as [Hin|Hin]; [by exists it|]. exfalso.
  pose proof (in_order_first _ _ _ H2 Hin) as Hf. destruct (in_order_cursor _ c c ltac:(lia) H1) as [_ Hb].
  assert (first_no it <= er_Seq x) by (destruct it; cbn in *; [by subst|lia]). lia.
Qed.

(** The id a client is left with is the cursor of what it read. *)
Lemma last_id_cursor l : forall b c, 0 <= b -> in_order b l -> foldl id_after (itoa c) (map record_of l) = itoa (cursor_of c l).
Proof.
  induction l as [|[x|from to d] l IH]; intros b c Hb; cbn [in_order]; [done| |];
    cbn [first_no last_no]; intros (H1 & H2 & H3); cbn [map foldl record_of].
  - unfold id_after at 2. cbn [rest_of rr2_Seq]. rewrite (proj2 (Z.ltb_lt _ _)) by lia. apply (IH (er_Seq x)); [lia|done].
  - unfold id_after at 2. cbn [rr2_Seq Z.ltb Z.compare]. apply (IH to); [lia|done].
Qed.

Lemma rows_in_order l : forall c, Forall (fun x => c < er_Seq x) l -> ascending_rows l -> in_order c (map Row l).
Proof.
  induction l as [|x l IH]; intros c Hc Hs; [done|]. inversion Hc; subst. inversion Hs; subst. cbn.
  split_and!; [done|lia|]. by apply IH.
Qed.
Lemma rows_bound x l : forall c c', bound c (map Row (x :: l)) = cursor_of c' (map Row (x :: l)).
Proof. revert x. induction l as [|y l IH]; intros x c c'; [done|]. exact (IH y (er_Seq x) (er_Seq x)). Qed.

Lemma cursor_of_le l m : forall c, c <= m -> Forall (fun it => match it with Row x => er_Seq x <= m | Gap _ _ _ => True end) l ->
  cursor_of c l <= m.
Proof. induction l as [|it l IH]; intros c Hc Hl; [done|]. inversion Hl; subst. cbn. apply IH; [by destruct it|done]. Qed.

(** ** A ring that moves while it is drained *)

Definition rows_ok (log : list EventRecord) : Prop :=
  Forall (fun r => 0 < er_Seq r < 2 ^ 63 - 1 /\ rest_ok (rest_of r) = true) log.

Abbreviation rows_at r k := (et_rows (rd_table r k)).

(** [log]: every row the ring ever held.  At each read it holds those numbered
    from [lo] up to [hi]: the oldest are gone and do not come back, the newest
    are not there yet. *)
Definition evolving (log : list EventRecord) (r : ring_reads) : Prop :=
  exists lo hi : nat -> Z, (forall k, lo k <= lo (S k))
  /\ forall k, rows_at r k = List.filter (fun x => (lo k <=? er_Seq x) && (er_Seq x <? hi k)) log.

(** What nobody reports: a row gone by the time the rows are read, at a poll
    whose first read failed, or had still shown it (or an empty ring). *)
Definition unreported (r : ring_reads) (k : nat) (x : EventRecord) : Prop :=
  er_Seq x < head_seq (rows_at r (S k))
  /\ (is_ok (et_Stats None (rd_fault r k) (rd_table r k)) = false \/ head_seq (rows_at r k) <= er_Seq x).

(** A row that was in the ring; a gap that ends right before the oldest row of
    some moment. *)
Definition sound (log : list EventRecord) (r : ring_reads) (it : item) : Prop :=
  match it with Row x => x ∈ log | Gap _ to _ => exists k, head_seq (rows_at r k) = to + 1 end.

Lemma drop_record_ok d : rest_ok (mkRest 0 "stream.drop" (drop_data d)) = true.
Proof.
  unfold rest_ok. cbn [rr2_Seq rr2_Kind rr2_Data]. destruct d as [[[g f] o] n].
  assert (one_line (drop_data (g, f, o, n)) = true /\ str_empty (drop_data (g, f, o, n)) = false) as [-> ->]; [|done].
  split; [|done]. unfold drop_data. apply json_text_one_line. cbn. by rewrite !itoa_one_line.
Qed.

Lemma filter_ascending f l : ascending_rows l -> ascending_rows (List.filter f l).
Proof.
  induction 1 as [|x l Hs IH Hx]; cbn; [constructor|]. destruct (f x); [|done]. constructor; [done|].
  apply List.Forall_forall. intros y [Hy _]%filter_In. rewrite List.Forall_forall in Hx. auto.
Qed.
Lemma take_ascending n l : ascending_rows l -> ascending_rows (take n l).
Proof.
  rewrite <- (take_drop n l) at 1. induction (take n l) as [|x t IH]; cbn; [constructor|].
  inversion 1 as [|? ? H1 H2]; subst. constructor; [auto|]. by apply Forall_app in H2 as [? _].
Qed.
Lemma head_least l x : ascending_rows l -> x ∈ l -> head_seq l <= er_Seq x.
Proof.
  destruct 1 as [|y l _ Hy]; [by intros ?%not_elem_of_nil|]. intros [->|Hx]%elem_of_cons; cbn; [lia|].
  rewrite Forall_forall in Hy. specialize (Hy _ Hx). lia.
Qed.
Lemma head_elem l : l <> [] -> exists x, x ∈ l /\ head_seq l = er_Seq x.
Proof. destruct l as [|x l]; [done|]. intros _. exists x. split; [by left|done]. Qed.
Lemma elem_above c x l : x ∈ above er_Seq c l <-> x ∈ l /\ c < er_Seq x.
Proof. unfold above. by rewrite !list_elem_of_In, filter_In, Z.ltb_lt. Qed.

(** Up to the last of the first [n] rows, a row is one of them. *)
Lemma take_upto n l x : ascending_rows l -> x ∈ l -> forall c, er_Seq x <= cursor_of c (map Row (take n l)) -> c < er_Seq x ->
  x ∈ take n l.
Proof.
  intros Hs. revert n. induction Hs as [|y l _ IH Hy]; intros n Hx c Hle Hc; [by apply not_elem_of_nil in Hx|].
  destruct n as [|n]; [change (er_Seq x <= c) in Hle; lia|]. cbn. apply elem_of_cons in Hx as [->|Hx]; [by left|]. right.
  apply (IH n Hx (er_Seq y)); [done|]. rewrite Forall_forall in Hy. by apply Hy.
Qed.

Section Moving.
Context {wire : Wire} (log : list EventRecord) (r : ring_reads).
Hypothesis Hasc : ascending_rows log.
Hypothesis Hrows : rows_ok log.
Hypothesis Hmoves : evolving log r.

Lemma log_number x : x ∈ log -> 0 < er_Seq x < 2 ^ 63 - 1.
Proof. intros Hx. unfold rows_ok in Hrows. rewrite Forall_forall in Hrows. by apply Hrows. Qed.
Lemma same_number x y : x ∈ log -> y ∈ log -> er_Seq x = er_Seq y -> x = y.
Proof.
  revert Hasc. clear. induction 1 as [|z l _ IH Hz]; [by intros ?%not_elem_of_nil|]. rewrite Forall_forall in Hz.
  intros [->|Hx]%elem_of_cons [->|Hy]%elem_of_cons E; [done| | |by apply IH]; [specialize (Hz _ Hy)|specialize (Hz _ Hx)]; lia.
Qed.
Lemma rows_ascending k : ascending_rows (rows_at r k).
Proof. destruct Hmoves as (lo & hi & _ & E). rewrite E. by apply filter_ascending. Qed.
Lemma elem_window (a b : Z) (l : list EventRecord) x :
  x ∈ List.filter (fun x => (a <=? er_Seq x) && (er_Seq x <? b)) l <-> x ∈ l /\ a <= er_Seq x < b.
Proof. by rewrite !list_elem_of_In, filter_In, andb_true_iff, Z.leb_le, Z.ltb_lt. Qed.
Lemma rows_log k x : x ∈ rows_at r k -> x ∈ log.
Proof. destruct Hmoves as (lo & hi & _ & E). rewrite E, elem_window. tauto. Qed.
(** Between two rows it holds, the ring holds every row. *)
Lemma rows_dense k x y : x ∈ log -> y ∈ rows_at r k -> head_seq (rows_at r k) <= er_Seq x <= er_Seq y -> x ∈ rows_at r k.
Proof.
  intros Hx Hy Hb. destruct (head_elem (rows_at r k)) as (h & Hh & Eh).
  { intros E. rewrite E in Hy. by apply not_elem_of_nil in Hy. }
  rewrite Eh in Hb. clear Eh. destruct Hmoves as (lo & hi & _ & E). rewrite E in Hh, Hy |- *. rewrite elem_window in Hh, Hy |- *.
  split; [done|lia].
Qed.
(** What was gone stays gone. *)
Lemma rows_gone k y : y ∈ rows_at r (S k) -> head_seq (rows_at r k) <= er_Seq y.
Proof.
  intros Hy. destruct (decide (rows_at r k = [])) as [E0|Hne].
  { rewrite E0. apply rows_log, log_number in Hy. cbn. lia. }
  destruct (head_elem _ Hne) as (h & Hh & Eh). destruct (Z.le_gt_cases (head_seq (rows_at r k)) (er_Seq y)) as [|Hlt]; [done|].
  rewrite Eh in Hlt. assert (Hin : y ∈ rows_at r k).
  { clear Eh Hne. destruct Hmoves as (lo & hi & Hlo & E). specialize (Hlo k). rewrite E in Hh, Hy |- *.
    rewrite elem_window in Hh, Hy |- *. split; [tauto|lia]. }
  exact (head_least _ _ (rows_ascending k) Hin).
Qed.

(** One poll: the report of what is gone, if any, and the rows. *)
Definition gaps (c : Z) (k : nat) : list item :=
  if is_ok (et_Stats None (rd_fault r k) (rd_table r k)) && (c + 1 <? head_seq (rows_at r k))
  then [Gap (c + 1) (head_seq (rows_at r k) - 1) (et_dropped (rd_table r k))] else [].
Definition batch (c : Z) (k : nat) : list EventRecord := take 500 (above er_Seq c (rows_at r (S k))).
Definition poll (c : Z) (k : nat) : list item := gaps c k ++ map Row (batch c k).

Lemma head_bound k : 0 <= head_seq (rows_at r k) < 2 ^ 63 - 1.
Proof.
  destruct (decide (rows_at r k = [])) as [->|Hne]; [cbn; lia|]. destruct (head_elem _ Hne) as (h & Hh & ->).
  apply rows_log, log_number in Hh. lia.
Qed.
Lemma batch_elem c k x : x ∈ batch c k -> x ∈ rows_at r (S k) /\ c < er_Seq x.
Proof. unfold batch. intros Hx. apply elem_above. by eapply subseteq_take. Qed.
Lemma gaps_length c k : (length (gaps c k) <= 1)%nat.
Proof. unfold gaps. destruct (_ && _); cbn; lia. Qed.

Lemma shim_poll c k : 0 <= c < 2 ^ 63 - 1 ->
  shim_Replay r k c sseReplayBatch
  = if fails_at (rd_fault r (S k)) SQuery is Some e then Err (wrapc "sqliteevents: range" e)
    else Ok (map record_of (poll c k)).
Proof.
  intros Hc. unfold shim_Replay, et_Range. cbn [guard sseReplayBatch Z.leb Z.compare].
  destruct (fails_at (rd_fault r (S k)) SQuery) as [e|]; [done|]. cbn [res_bind]. f_equal.
  unfold poll. rewrite map_app. f_equal.
  - unfold gaps, shim_gap, et_Stats. pose proof (head_bound k) as Hh.
    destruct (fails_at (rd_fault r k) SQuery) as [e|]; [done|]. cbn [is_ok andb bs_OldestSeq bs_DroppedTotal].
    unfold SyntheticDrop. rewrite (wrap64_id (c + 1)) by lia.
    destruct (Z.ltb_spec (c + 1) (head_seq (rows_at r k))).
    + rewrite (proj2 (Z.eqb_neq _ _)), (proj2 (Z.leb_gt _ _)) by lia. cbn [orb map record_of].
      rewrite !wrap64_id by lia.
      by replace (head_seq (rows_at r k) - 1 - (c + 1) + 1) with (head_seq (rows_at r k) - c - 1) by lia.
    + rewrite (proj2 (Z.leb_le _ _)) by lia. by rewrite orb_true_r.
  - unfold batch, above. rewrite map_map. done.
Qed.

Lemma poll_order c k : 0 <= c -> in_order c (poll c k).
Proof.
  intros Hc. unfold poll. apply in_order_app.
  assert (Hb : forall b, b < head_seq (rows_at r k) \/ b = c -> in_order b (map Row (batch c k))).
  { intros b Hb. apply rows_in_order; [|apply take_ascending, filter_ascending, rows_ascending].
    apply Forall_forall. intros x [Hx Hcx]%batch_elem. apply rows_gone in Hx. destruct Hb; lia. }
  unfold gaps. destruct (_ && (c + 1 <? _)) eqn:E; cbn; [|split; [done|by apply Hb; right]].
  apply andb_true_iff in E as [_ E]. apply Z.ltb_lt in E. split_and!; try lia. apply Hb. lia.
Qed.
Lemma poll_sound c k : Forall (sound log r) (poll c k).
Proof.
  apply Forall_app. split.
  - unfold gaps. destruct (_ && _); repeat constructor. cbn. exists k. lia.
  - apply List.Forall_map, Forall_forall. intros x [Hx _]%batch_elem. cbn. by eapply rows_log.
Qed.
Lemma poll_ok l : Forall (sound log r) l -> Forall (fun x => rest_ok x = true) (map record_of l).
Proof.
  intros Hl. apply List.Forall_map. eapply Forall_impl; [exact Hl|]. intros [x|f t d] Hx; [|apply drop_record_ok]. cbn [record_of]. unfold rows_ok in Hrows. rewrite Forall_forall in Hrows. by apply Hrows.
Qed.
Lemma poll_cursor c k : cursor_of c (poll c k) = cursor_of c (map Row (batch c k)).
Proof. unfold poll, gaps. rewrite cursor_of_app. by destruct (_ && _). Qed.

(** Up to the cursor it leaves, a poll misses nothing it does not report, but
    for the rows nobody reports. *)
Lemma poll_covers c k x : 0 <= c -> x ∈ log -> c < er_Seq x <= cursor_of c (poll c k) ->
  (exists it, it ∈ poll c k /\ covers it x) \/ unreported r k x.
Proof.
  intros Hc Hx Hb. rewrite poll_cursor in Hb. unfold poll.
  destruct (Z.le_gt_cases (head_seq (rows_at r (S k))) (er_Seq x)) as [Hle|Hlt].
  - left. exists (Row x). split; [|done]. apply elem_of_app. right. apply (list_elem_of_fmap_2 Row).
    assert (Hy : exists y, y ∈ batch c k /\ er_Seq x <= er_Seq y).
    { destruct (batch c k) as [|y l] eqn:El; [cbn in Hb; lia|].
      rewrite <- (rows_bound y l c c) in Hb.
      assert (Hlast : exists z, z ∈ y :: l /\ bound c (map Row (y :: l)) = er_Seq z).
      { clear. revert c y. induction l as [|z l IH]; intros c y; [exists y; split; [by left|done]|].
        destruct (IH (er_Seq y) z) as (w & Hw & E). exists w. split; [by right|exact E]. }
      destruct Hlast as (z & Hz & E). exists z. split; [done|lia]. }
    destruct Hy as (y & Hy & Hxy). apply batch_elem in Hy as [Hy _].
    assert (Hin : x ∈ rows_at r (S k)) by by eapply rows_dense.
    unfold batch in *. eapply take_upto; [apply filter_ascending, rows_ascending|apply elem_above; split; [done|lia]|apply Hb|lia].
  - destruct (is_ok (et_Stats None (rd_fault r k) (rd_table r k))) eqn:Es; [|right; split; [exact Hlt|left; exact Es]].
    destruct (Z.le_gt_cases (head_seq (rows_at r k)) (er_Seq x)) as [Hk|Hk]; [right; split; [exact Hlt|right; exact Hk]|].
    left. exists (Gap (c + 1) (head_seq (rows_at r k) - 1) (et_dropped (rd_table r k))). split; [|cbn; lia].
    apply elem_of_app. left. unfold gaps. rewrite Es, (proj2 (Z.ltb_lt _ _)) by lia. by left.
Qed.

Lemma above_fewer c c' x l : c <= c' -> x ∈ l -> c < er_Seq x <= c' -> (length (above er_Seq c' l) < length (above er_Seq c l))%nat.
Proof.
  intros Hc Hx Hb. assert (Hle : forall l, (length (above er_Seq c' l) <= length (above er_Seq c l))%nat).
  { clear -Hc. intros l. unfold above. induction l as [|y l IH]; [done|]. cbn.
    destruct (Z.ltb_spec c' (er_Seq y)), (Z.ltb_spec c (er_Seq y)); cbn; lia. }
  revert Hx. unfold above in *. induction l as [|y l IH]; [by intros ?%not_elem_of_nil|]. specialize (Hle l). cbn.
  intros [<-|Hx]%elem_of_cons.
  - rewrite (proj2 (Z.ltb_ge _ _)), (proj2 (Z.ltb_lt _ _)) by lia. cbn. lia.
  - specialize (IH Hx). destruct (Z.ltb_spec c' (er_Seq y)), (Z.ltb_spec c (er_Seq y)); cbn; lia.
Qed.

(** A full poll leaves its cursor on a row, which it passed. *)
Lemma poll_full c k : 0 <= c -> (500 <= length (poll c k))%nat ->
  bound c (poll c k) = cursor_of c (poll c k)
  /\ exists x, x ∈ log /\ c < er_Seq x <= cursor_of c (poll c k).
Proof.
  intros Hc Hl. pose proof (gaps_length c k) as Hg. pose proof (poll_order c k Hc) as Ho.
  pose proof (poll_cursor c k) as Ec. unfold poll in *.
  rewrite length_app, length_map in Hl. rewrite Ec, bound_app. destruct (batch c k) as [|x l] eqn:El; [cbn in Hl; lia|].
  split; [apply rows_bound|]. exists x. assert (Hx : x ∈ batch c k) by (rewrite El; by left).
  apply batch_elem in Hx as [Hx Hcx]. split; [by eapply rows_log|]. split; [done|].
  rewrite <- (rows_bound x l c c). apply in_order_app in Ho as [_ Ho].
  destruct (in_order_cursor (map Row l) (er_Seq x) (er_Seq x) ltac:(lia)) as [_ H]; [apply Ho|].
  change (bound c (map Row (x :: l))) with (bound (er_Seq x) (map Row l)). lia.
Qed.

(** A drain, from whatever cursor, over a ring that moves. *)
Definition missed_at (reads last : nat) (x : EventRecord) : Prop :=
  exists j, (reads + 2 * j < last)%nat /\ unreported r (reads + 2 * j) x.
Definition accounted (c : Z) (l : list item) (reads last : nat) : Prop :=
  forall x, x ∈ log -> c < er_Seq x <= cursor_of c l -> (exists it, it ∈ l /\ covers it x) \/ missed_at reads last x.

Lemma accounted_poll c k last : 0 <= c -> (S (S k) <= last)%nat -> accounted c (poll c k) k last.
Proof.
  intros Hc Hl x Hx Hb. destruct (poll_covers c k x Hc Hx Hb) as [Hcov|Hu]; [by left|]. right. exists 0%nat.
  rewrite Nat.mul_0_r, Nat.add_0_r. split; [lia|done].
Qed.
Lemma accounted_app c l1 l2 k last : 0 <= c -> accounted c l1 k last -> accounted (cursor_of c l1) l2 (S (S k)) last ->
  accounted c (l1 ++ l2) k last.
Proof.
  intros Hc H1 H2 x Hx Hb. rewrite cursor_of_app in Hb.
  destruct (Z.le_gt_cases (er_Seq x) (cursor_of c l1)).
  - destruct (H1 x Hx ltac:(lia)) as [(it & Hin & Hcov)|Hm]; [left|by right]. exists it. split; [|done]. apply elem_of_app. by left.
  - destruct (H2 x Hx ltac:(lia)) as [(it & Hin & Hcov)|(j & Hj & Hu)].
    + left. exists it. split; [|done]. apply elem_of_app. by right.
    + right. exists (S j). replace (k + 2 * S j)%nat with (S (S k) + 2 * j)%nat by lia. by split.
Qed.

Definition caught_up (tl : sseTail) : Prop :=
  Forall (fun x => er_Seq x <= t_cursor tl) (rows_at r (pred (t_reads tl))).

Lemma cursor_upto c l x : 0 <= c -> in_order c (map Row l) -> x ∈ l -> er_Seq x <= cursor_of c (map Row l).
Proof.
  revert c. induction l as [|y l IH]; intros c Hc Ho; [by intros ?%not_elem_of_nil|]. destruct Ho as (H1 & H2 & H3).
  cbn in H1, H2, H3. intros [->|Hx]%elem_of_cons; [|apply (IH (er_Seq y)); [lia|done..]].
  destruct (in_order_cursor (map Row l) (er_Seq y) (er_Seq y) ltac:(lia) H3) as [_ H]. apply H.
Qed.
Lemma poll_caught_up c k : 0 <= c -> (length (poll c k) < 500)%nat ->
  Forall (fun x => er_Seq x <= cursor_of c (poll c k)) (rows_at r (S k)).
Proof.
  intros Hc. pose proof (poll_order c k Hc) as Ho. destruct (in_order_cursor _ c c ltac:(lia) Ho) as [_ Hcc].
  rewrite poll_cursor in *. unfold poll in *. rewrite length_app, length_map. intros Hl.
  apply in_order_app in Ho as [_ Ho]. apply Forall_forall. intros x Hx.
  destruct (Z.le_gt_cases (er_Seq x) c); [lia|].
  assert (Hin : x ∈ batch c k).
  { unfold batch in *. rewrite length_take in Hl. rewrite take_ge by lia. apply elem_above. split; [done|lia]. }
  assert (Hb : in_order c (map Row (batch c k))).
  { apply rows_in_order; [|apply take_ascending, filter_ascending, rows_ascending].
    apply Forall_forall. by intros y [_ Hy]%batch_elem. }
  by apply cursor_upto.
Qed.

Lemma cursor_small c l : c < 2 ^ 63 - 1 -> Forall (sound log r) l -> cursor_of c l < 2 ^ 63 - 1.
Proof.
  intros Hc Hl. assert (Hle : cursor_of c l <= 2 ^ 63 - 2); [|lia]. apply cursor_of_le; [lia|].
  eapply Forall_impl; [exact Hl|]. intros [x|f t d]; [|done]. cbn. intros Hx%log_number. lia.
Qed.

Lemma emit_spec fuel : forall tl, let c := t_cursor tl in
  0 <= c < 2 ^ 63 - 1 -> (length (above er_Seq c log) < fuel)%nat ->
  exists ok tl' items, emit fuel r tl = Some (ok, tl')
  /\ wrote ok (frames (map record_of items)) (t_w tl) (t_w tl')
  /\ in_order c items /\ Forall (sound log r) items /\ (t_reads tl < t_reads tl')%nat
  /\ accounted c items (t_reads tl) (t_reads tl')
  /\ (ok = true -> t_cursor tl' = cursor_of c items /\ caught_up tl')
  /\ (wire_up -> (forall k, rd_fault r k = None) -> ok = true).
Proof.
  induction fuel as [|fuel IH]; intros tl c Hc Hf; [lia|]. cbn [emit]. fold c. rewrite shim_poll by done.
  set (k := t_reads tl) in *.
  destruct (fails_at (rd_fault r (S k)) SQuery) as [e|] eqn:Ef.
  { eexists _, _, []. split; [reflexivity|]. cbn [t_w t_reads map frames]. split_and!; try done; [|lia| |].
    - destruct (t_w tl) as [b n]. apply (wrote_nothing false (mkReply b n)).
    - intros x _ Hb. cbn in Hb. lia.
    - intros _ Hn. by rewrite Hn in Ef. }
  pose proof (poll_order c k ltac:(lia)) as Ho. pose proof (poll_sound c k) as Hs. pose proof (poll_ok _ Hs) as Hok.
  pose proof (in_order_cursor _ c c ltac:(lia) Ho) as [Ecur Hcur].
  destruct (map record_of (poll c k)) as [|rec recs] eqn:Er.
  { apply map_eq_nil in Er. eexists _, _, []. split; [reflexivity|]. cbn [t_w t_reads map frames t_cursor].
    split_and!; try done; [|lia| |].
    - destruct (t_w tl) as [b n]. apply (wrote_nothing true (mkReply b n)).
    - intros x _ Hb. cbn in Hb. lia.
    - intros _. split; [done|]. unfold caught_up. cbn [t_reads t_cursor pred].
      pose proof (poll_caught_up c k ltac:(lia)) as Hu. rewrite Er in Hu. apply Hu. cbn. lia. }
  rewrite <- Er in *. pose proof (emit_batch_spec _ Hok c (t_w tl)) as Hb.
  assert (Hlen : length (map record_of (poll c k)) = length (poll c k)) by apply length_map.
  clear Er recs rec. destruct (emit_batch _ c (t_w tl)) as [[ok c1] w1], Hb as (Hw & Hc1 & Hup).
  destruct ok; cbn [negb].
  2: { eexists _, _, (poll c k). split; [reflexivity|]. cbn [t_w t_reads]. split_and!; try done; try lia.
       - apply accounted_poll; lia.
       - intros Hu _. by apply Hup. }
  specialize (Hc1 eq_refl). rewrite Ecur in Hc1. subst c1. rewrite Hlen.
  destruct (Z.ltb_spec (Z.of_nat (length (poll c k))) sseReplayBatch) as [Hlt|Hge]; unfold sseReplayBatch in *.
  { eexists _, _, (poll c k). split; [reflexivity|]. cbn [t_w t_reads t_cursor]. split_and!; try done; try lia.
    - apply accounted_poll; lia.
    - intros _. split; [done|]. apply poll_caught_up; lia. }
  destruct (poll_full c k ltac:(lia) ltac:(lia)) as (Hbd & x & Hx & Hcx).
  pose proof (cursor_small c _ ltac:(lia) Hs) as Hsm.
  destruct (IH (mkTail (cursor_of c (poll c k)) (S (S k)) w1)) as (ok & tl' & items & He & Hw' & Ho' & Hs' & Hr' & Ha' & Hok' & Hup').
  { cbn [t_cursor]. lia. }
  { cbn [t_cursor]. pose proof (above_fewer c (cursor_of c (poll c k)) x log ltac:(lia) Hx Hcx). lia. }
  cbn [t_cursor t_w t_reads] in *. exists ok, tl', (poll c k ++ items). split; [exact He|].
  rewrite map_app, frames_app. split_and!; [by eapply wrote_seq| | |lia| |by rewrite cursor_of_app|done].
  - apply in_order_app. by rewrite Hbd.
  - by apply Forall_app.
  - apply accounted_app; [lia| |done]. apply accounted_poll; lia.
Qed.

End Moving.

(** ** The cursor a client sends back *)

Lemma resume_itoa z since newest : 0 <= z < 2 ^ 63 -> resumeCursor (itoa z) since newest = Ok z.
Proof.
  intros Hz. unfold resumeCursor. destruct (str_empty (itoa z)) eqn:E.
  - pose proof (ParseInt_itoa z Hz) as Hp. by destruct (itoa z).
  - rewrite E, ParseInt_itoa by done. by rewrite (proj2 (Z.ltb_ge _ _)) by lia.
Qed.

Lemma str_drop_past n s : (String.length s <= n)%nat -> str_drop n s = "".
Proof. intros H. pose proof (str_drop_length n s) as Hl. destruct (str_drop n s); [done|]. cbn in Hl. lia. Qed.


(** ** The producer keeps the table readable *)

Section Pump.
Context {jt : JsonTime}.
Hypothesis json_time_ok : forall t, nums_ok (json_time t) = true.

Lemma jint_ok z : nums_ok (jint z) = true.
Proof. apply itoa_one_line. Qed.

Lemma obj_app l1 l2 : nums_ok (JObj (l1 ++ l2)) = nums_ok (JObj l1) && nums_ok (JObj l2).
Proof. apply forallb_app. Qed.
Lemma omit_str_ok k s : nums_ok (JObj (omit_str k s)) = true.
Proof. unfold omit_str. by destruct (str_empty s). Qed.
Lemma omit_int_ok k z : nums_ok (JObj (omit_int k z)) = true.
Proof. unfold omit_int. destruct (z =? 0); [done|]. cbn [nums_ok forallb snd]. by rewrite jint_ok. Qed.
Lemma omit_strs_ok k l : nums_ok (JObj (omit_strs k l)) = true.
Proof.
  destruct l as [|x l]; [done|]. cbn. rewrite andb_true_r.
  induction l as [|y l IH]; cbn; [done|exact IH].
Qed.
Lemma obj_cons k v l : nums_ok (JObj ((k, v) :: l)) = nums_ok v && nums_ok (JObj l).
Proof. done. Qed.

Lemma payload_nums_ok p : nums_ok (payload_json p) = true.
Proof.
  destruct p as [p|p|p|p|p|e]; cbn [payload_json]; unfold message_json;
    rewrite ?obj_app, ?obj_cons, ?obj_app, ?omit_str_ok, ?omit_int_ok, ?omit_strs_ok, ?obj_cons, ?jint_ok; try done.
  - destruct (sm_Interactive p) as [i|]; destruct (sm_IsForwarded p);
      rewrite ?obj_app, ?obj_cons, ?obj_app, ?omit_strs_ok; done.
  - destruct e; cbn [verbatim_json]; rewrite ?obj_cons, ?jint_ok, ?json_time_ok; done.
Qed.

Lemma row_insert_elem r l l' x : row_insert r l = Some l' -> x ∈ l' <-> x = r \/ x ∈ l.
Proof.
  revert l'. induction l as [|y l IH]; intros l'; cbn; [intros [= <-]; set_solver|].
  destruct (er_Seq r <? er_Seq y); [intros [= <-]; set_solver|].
  destruct (er_Seq r =? er_Seq y); [done|]. destruct (row_insert r l) as [k|]; [|done].
  intros [= <-]. specialize (IH k eq_refl). set_solver.
Qed.

Lemma row_insert_ascending r l l' : ascending_rows l -> row_insert r l = Some l' -> ascending_rows l'.
Proof.
  revert l'. induction l as [|y l IH]; intros l' Hs; cbn; [intros [= <-]; repeat constructor|].
  inversion Hs as [|? ? Hs' Hy]; subst. destruct (Z.ltb_spec (er_Seq r) (er_Seq y)).
  - intros [= <-]. constructor; [done|]. constructor; [done|]. eapply Forall_impl; [exact Hy|]. cbn. lia.
  - destruct (Z.eqb_spec (er_Seq r) (er_Seq y)); [done|]. destruct (row_insert r l) as [k|] eqn:Ek; [|done].
    intros [= <-]. constructor; [by apply IH|]. apply Forall_forall. intros x Hx.
    apply (row_insert_elem _ _ _ _ Ek) in Hx as [->|Hx]; [lia|]. rewrite Forall_forall in Hy. auto.
Qed.

Lemma evict_rows f rows t rows' d : evict f rows t = Ok (rows', d) -> exists n, rows' = drop n rows.
Proof.
  unfold evict. destruct (_ <? _); [|intros [= <- <-]; by exists 0%nat].
  destruct (fails_in f ADropOldest), (fails_in f ABumpDropped); try done. intros [= <- <-]. eauto.
Qed.

Lemma pump_row_ok now e : ae_Type e <> "" -> one_line (ae_Type e) = true -> 0 < ae_Seq e ->
  rest_ok (rest_of (stored now (pump_record e))) = true.
Proof.
  intros Ht Hl Hs. unfold rest_ok. cbn [rest_of stored pump_record rr2_Seq rr2_Kind rr2_Data er_Seq er_Kind er_TrustedJSON].
  rewrite (proj2 (Z.leb_le _ _)), Hl by lia. pose proof (json_text_one_line _ (payload_nums_ok (ae_Payload e))) as Hj.
  destruct (str_empty (json_text (payload_json (ae_Payload e)))) eqn:E; rewrite ?Hj, ?E; by destruct (ae_Type e).
Qed.

(** Appending in whatever order keeps the rows ordered and readable. *)
Lemma pump_keeps_table f now e t : ascending_rows (et_rows t) -> rows_ok (et_rows t) ->
  ae_Type e <> "" -> one_line (ae_Type e) = true -> 0 < ae_Seq e < 2 ^ 63 - 1 ->
  ascending_rows (et_rows (pump_event f now e t)) /\ rows_ok (et_rows (pump_event f now e t)).
Proof.
  intros Hs Hr Ht Hl Hseq. unfold pump_event, et_Append. rewrite (proj2 (str_empty_false _)) by done.
  repeat (case_match; try done). cbn [et_rows].
  match goal with H : et_insert _ _ _ = Some _ |- _ => rename H into Hi end.
  match goal with H : evict _ _ _ = Ok _ |- _ => apply evict_rows in H as [n ->] end.
  unfold et_insert in Hi. cbn [er_Seq pump_record] in Hi.
  rewrite (proj2 (Z.eqb_neq _ _)) in Hi by lia.
  apply fmap_Some in Hi as (rows & Hins & [= -> ->]).
  split; [apply ascending_drop; by eapply row_insert_ascending|].
  unfold rows_ok. apply Forall_drop, Forall_forall. intros x Hx.
  apply (row_insert_elem _ _ _ _ Hins) in Hx as [->|Hx].
  - split; [exact Hseq|]. apply pump_row_ok; [done|done|lia].
  - unfold rows_ok in Hr. rewrite Forall_forall in Hr. auto.
Qed.

End Pump.

Lemma translate_type_ok `{UnicodeTables} e :
  ae_Type (translateDomainEvent e) <> "" /\ one_line (ae_Type (translateDomainEvent e)) = true.
Proof.
  destruct e as [| | | | | | | |e|]; try done. cbn [translateDomainEvent ae_Type]. unfold Health_String.
  repeat match goal with |- context [if ?b then _ else _] => destruct b; [done|] end. done.
Qed.

(** ** An event that is never sent *)

Definition fixed_reads (t : EventTable) : ring_reads := mkReads (fun _ => t) (fun _ => None).

(** A cursor at or past every row reads nothing, ever. *)
Lemma emit_past_rows {wire : Wire} t fuel tl : Forall (fun x => er_Seq x <= t_cursor tl) (et_rows t) ->
  head_seq (et_rows t) <= t_cursor tl < 2 ^ 63 - 1 ->
  0 <= t_cursor tl ->
  emit (S fuel) (fixed_reads t) tl = Some (true, mkTail (t_cursor tl) (S (S (t_reads tl))) (t_w tl)).
Proof.
  intros Hle Hh Hc. cbn [emit]. unfold shim_Replay, fixed_reads, shim_gap, et_Stats. cbn [rd_table rd_fault fails_at].
  unfold SyntheticDrop. cbn [bs_OldestSeq]. rewrite (wrap64_id (t_cursor tl + 1)) by lia.
  rewrite (proj2 (Z.leb_le (head_seq (et_rows t)) (t_cursor tl + 1))) by lia. rewrite orb_true_r.
  assert (E : List.filter (newer (t_cursor tl)) (et_rows t) = []).
  { clear Hh. induction Hle as [|x l Hx _ IH]; [done|]. cbn. unfold newer at 1.
    by rewrite (proj2 (Z.ltb_ge _ _) Hx). }
  unfold et_Range. cbn [guard sseReplayBatch Z.leb Z.compare fails_at]. rewrite E. done.
Qed.

(** Two dispatchers can cost a subscriber an event, silently.  The stream's
    and the watchdog's calls can leave their events in the pump's channel in
    the opposite order of their numbers; the pump appends them as they come; a
    client that is up to date reads the later number first, and from then on
    its cursor is past the earlier one: the row is in the ring, no drain ever
    sends it, and no drop is reported. *)
Theorem overtaken_event_lost {wire : Wire} `{JsonTime} (e1 e2 : AppEvent) (now : time) (x : EventRecord) (fuel reads : nat) :
  wire_up -> (forall t, nums_ok (json_time t) = true) ->
  ae_Type e1 <> "" -> ae_Type e2 <> "" -> one_line (ae_Type e2) = true -> er_Seq x = 1 ->
  exists tr s, sys_run (bridge_init 1) tr s
  /\ content (Some 0%nat) (sy_bridge s) = [with_Seq 3 e2; with_Seq 2 e1]
  /\ let t0 := mkEventTable [x] 1 0 DefaultCapacity in
     let t1 := pump_event None now (with_Seq 3 e2) t0 in
     let t2 := pump_event None now (with_Seq 2 e1) t1 in
     map er_Seq (et_rows t2) = [1; 2; 3]
     /\ exists tl, emit (S (S fuel)) (fixed_reads t1) (mkTail 1 reads (mkReply "" 0)) = Some (true, tl)
        /\ map (fun ev => ev.1.1) (read_stream "1" (rp_body (t_w tl))).1 = ["3"]
        /\ emit (S fuel) (fixed_reads t2) tl = Some (true, mkTail 3 (S (S (t_reads tl))) (t_w tl)).
Proof.
  intros Hup Hjt Ht1 Ht2 Hl2 Hx. destruct (dispatchers_reorder e1 e2) as (tr & s & E & Hr & Hch & _).
  exists tr, s. split; [exact Hr|]. split.
  { vm_compute in E. injection E as <- <-. reflexivity. }
  set (r3 := stored now (pump_record (with_Seq 3 e2))). set (r2 := stored now (pump_record (with_Seq 2 e1))).
  assert (E1 : pump_event None now (with_Seq 3 e2) (mkEventTable [x] 1 0 DefaultCapacity)
               = mkEventTable [x; r3] 3 0 DefaultCapacity).
  { unfold pump_event, et_Append. rewrite (proj2 (str_empty_false _)) by done.
    unfold et_insert. cbn. rewrite Hx. done. }
  assert (E2 : pump_event None now (with_Seq 2 e1) (mkEventTable [x; r3] 3 0 DefaultCapacity)
               = mkEventTable [x; r2; r3] 3 0 DefaultCapacity).
  { unfold pump_event, et_Append. rewrite (proj2 (str_empty_false _)) by done.
    unfold et_insert. cbn. rewrite Hx. done. }
  cbn zeta. rewrite E1, E2. split; [cbn; by rewrite Hx|].
  assert (Hok : rest_ok (rest_of r3) = true)
    by exact (pump_row_ok Hjt now (with_Seq 3 e2) Ht2 Hl2 eq_refl).
  pose proof (write_spec (rest_of r3) (mkReply "" 0) Hok) as Hw.
  assert (Eem : emit (S (S fuel)) (fixed_reads (mkEventTable [x; r3] 3 0 DefaultCapacity)) (mkTail 1 reads (mkReply "" 0))
    = let '(ok, w) := writeReplayEvent (rest_of r3) (mkReply "" 0) in
      Some (ok, mkTail (if ok then 3 else 1) (S (S reads)) w)).
  { assert (Esh : shim_Replay (fixed_reads (mkEventTable [x; r3] 3 0 DefaultCapacity)) reads 1 sseReplayBatch
                  = Ok [rest_of r3]).
    { unfold shim_Replay, shim_gap, et_Range, et_Stats, newer, fixed_reads.
      cbn [rd_table rd_fault fails_at et_rows head_seq bs_OldestSeq bs_DroppedTotal List.filter].
      unfold SyntheticDrop. rewrite Hx. reflexivity. }
    cbn [emit t_reads t_cursor t_w]. rewrite Esh. cbn [emit_batch length].
    by destruct (writeReplayEvent (rest_of r3) (mkReply "" 0)) as [[|] w]. }
  rewrite Eem. destruct (writeReplayEvent (rest_of r3) (mkReply "" 0)) as [ok w], Hw as [Hw Hu]. rewrite (Hu Hup) in *.
  eexists. split; [reflexivity|]. cbn [t_w]. split.
  - destruct Hw as (p & q & Hb & Hf & Hq). rewrite (Hq eq_refl), str_app_nil_r in Hf. subst p.
    rewrite Hb. change (rp_body (mkReply "" 0) +:+ frame_of (rest_of r3)) with (frame_of (rest_of r3)).
    destruct (read_prefix "1" [rest_of r3] (frame_of (rest_of r3)) "") as (n & Hn & ->).
    + constructor; [exact Hok|constructor].
    + reflexivity.
    + rewrite (Hn eq_refl). reflexivity.
  - apply (emit_past_rows (mkEventTable [x; r2; r3] 3 0 DefaultCapacity) fuel (mkTail 3 (S (S reads)) w)).
    + cbn. repeat constructor; cbn; lia.
    + cbn. lia.
    + cbn. lia.
Qed.

(** ** A ring, read while it moves, over a connection that breaks *)

(** The table, read at the moments [at] of one history of appends and trims. *)
Definition reads_of (cap : nat) (h : list ring_op) (moment : nat -> nat) (f : nat -> fault) : ring_reads :=
  mkReads (fun k => foldl sql_step (events_Open (Z.of_nat cap)) (take (moment k) h)) f.

Lemma spec_log_grows cap h : forall s, exists l, rs_log (foldl (spec_step cap) s h) = rs_log s ++ l
  /\ (rs_base s <= rs_base (foldl (spec_step cap) s h))%nat.
Proof.
  induction h as [|o h IH]; intros s; cbn [foldl]; [exists []; rewrite app_nil_r; split; [done|lia]|].
  destruct (IH (spec_step cap s o)) as (l & -> & Hb). destruct o as [now rec|seq]; cbn in *; eexists; rewrite <- ?app_assoc;
    (split; [reflexivity|lia]).
Qed.
Lemma ops_ok_take cap h : forall s n, ops_ok cap s h -> ops_ok cap s (take n h).
Proof. induction h as [|o h IH]; intros s [|n]; cbn; try done. intros [Ho Hh]. by split; [|apply IH]. Qed.

(** The rows numbered past the first [a] and up to the first [b] are those. *)
Lemma window_cut l a b : ascending_rows l -> Forall (fun x => 0 < er_Seq x) l -> (a <= b)%nat ->
  List.filter (fun x => (last_seq 0 (take a l) + 1 <=? er_Seq x) && (er_Seq x <? last_seq 0 (take b l) + 1)) l = drop a (take b l).
Proof.
  intros Hs Hp Hab.
  assert (Hcut : forall n l, ascending_rows l -> Forall (fun x => 0 < er_Seq x) l ->
    above er_Seq (last_seq 0 (take n l)) l = drop n l).
  { intros n k Hk Hkp. pose proof (above_after n 0 k Hk) as H. by rewrite (proj1 (above_all er_Seq 0 k Hkp)) in H. }
  assert (Hupto : upto er_Seq (last_seq 0 (take b l)) l = take b l).
  { pose proof (ascending_cut er_Seq (last_seq 0 (take b l)) l Hs) as E. rewrite (Hcut b l Hs Hp) in E.
    rewrite <- (take_drop b l) in E at 1. by apply app_inv_tail in E. }
  pose proof (Hcut a (take b l) (take_ascending b l Hs) (Forall_take _ b _ Hp)) as E.
  rewrite take_take, Nat.min_l in E by done.
  transitivity (above er_Seq (last_seq 0 (take a l)) (upto er_Seq (last_seq 0 (take b l)) l)); [|by rewrite Hupto].
  generalize (last_seq 0 (take a l)) (last_seq 0 (take b l)). clear. intros u v. unfold above, upto.
  induction l as [|x l IH]; [done|]. cbn [List.filter].
  replace (er_Seq x <? v + 1) with (er_Seq x <=? v) by (apply eq_true_iff_eq; rewrite Z.leb_le, Z.ltb_lt; lia).
  replace (u + 1 <=? er_Seq x) with (u <? er_Seq x) by (apply eq_true_iff_eq; rewrite Z.leb_le, Z.ltb_lt; lia).
  destruct (er_Seq x <=? v); cbn [List.filter]; rewrite ?andb_true_r, ?andb_false_r, IH; done.
Qed.

(** Rows appended with rising numbers, evicted and trimmed from the old end:
    such a table moves the way [evolving] says, whenever it is read. *)
Lemma ring_evolves (cap : nat) (h : list ring_op) (moment : nat -> nat) (f : nat -> fault) :
  (0 < cap)%nat -> Z.of_nat cap < 2 ^ 62 -> ops_ok cap (mkRingSpec [] 0 0) h -> (forall k, (moment k <= moment (S k))%nat) ->
  evolving (stored_rows (rs_log (spec_run cap h))) (reads_of cap h moment f).
Proof.
  intros Hc Hc' Hh Hm. set (s k := spec_run cap (take (moment k) h)).
  set (L := stored_rows (rs_log (spec_run cap h))).
  assert (Hsim : forall n, simulates cap (spec_run cap (take n h)) (foldl mem_step (NewEventBuffer (Z.of_nat cap)) (take n h))
                             (foldl sql_step (events_Open (Z.of_nat cap)) (take n h))).
  { intros n. apply sim_run; [done|done|by apply sim_init|by apply ops_ok_take]. }
  assert (Hgrow : forall n m, (n <= m)%nat -> exists l, rs_log (spec_run cap (take m h)) = rs_log (spec_run cap (take n h)) ++ l
    /\ (rs_base (spec_run cap (take n h)) <= rs_base (spec_run cap (take m h)))%nat).
  { intros n m Hnm. unfold spec_run. rewrite <- (take_drop n (take m h)), take_take, Nat.min_l, foldl_app by done.
    apply spec_log_grows. }
  assert (Hlog : forall k, rs_log (s k) = take (length (rs_log (s k))) (rs_log (spec_run cap h))).
  { intros k. destruct (Hgrow (moment k) (Nat.max (moment k) (length h)) ltac:(lia)) as (l & E & _).
    rewrite (take_ge h) in E by lia. rewrite E. symmetry. apply take_app_length. }
  assert (HL : ascending_rows L /\ Forall (fun x => 0 < er_Seq x) L).
  { pose proof (Hsim (length h)) as [_ _ _ _ _ _ _ Hs Hp _ _ _]. rewrite (take_ge h) in Hs, Hp by lia. split.
    - unfold L, stored_rows. by apply ascending_map.
    - unfold L, stored_rows. apply List.Forall_map. eapply Forall_impl; [exact Hp|]. cbn. lia. }
  exists (fun k => last_seq 0 (take (rs_base (s k)) L) + 1), (fun k => last_seq 0 (take (length (rs_log (s k))) L) + 1). split.
  - intros k. destruct (Hgrow _ _ (Hm k)) as (_ & _ & Hb). fold (s k) (s (S k)) in Hb.
    rewrite <- (Nat.min_l (rs_base (s k)) (rs_base (s (S k)))), <- take_take by done.
    pose proof (take_drop (rs_base (s k)) (take (rs_base (s (S k))) L)) as E. rewrite <- E at 2. rewrite last_seq_app.
    pose proof (last_seq_ge (last_seq 0 (take (rs_base (s k)) (take (rs_base (s (S k))) L)))
      (drop (rs_base (s k)) (take (rs_base (s (S k))) L))) as [Hle _]. lia.
  - intros k. cbn [reads_of rd_table]. pose proof (Hsim (moment k)) as [_ Hrow _ _ _ _ _ _ _ Hbase _ _].
    fold (s k) in Hrow, Hbase. rewrite Hrow, window_cut by (apply HL || done).
    unfold rs_retained. rewrite (Hlog k) at 1. unfold L, stored_rows. by rewrite firstn_map, skipn_map.
Qed.

Definition flaky : Wire := mkWire (fun n => negb (n =? 7)%nat) (fun _ => 4%nat).
Definition demo_row (seq : Z) : EventRecord := mkEventRecord seq "message" "{}" "" 0.
Definition demo_appends : list ring_op := map (fun z => OpAppend 0 (demo_row z)) [3; 4; 6; 7].
Definition demo_reads : ring_reads := reads_of 3 demo_appends (fun k => if (k =? 0)%nat then 3%nat else 4%nat) (fun _ => None).


(** A poll reads the oldest number first and the rows second.  A row evicted in
    between is neither sent nor reported, and the cursor passes it. *)
Theorem eviction_slips_by : exists t0 t1,
  t1 = (et_Append None None 0 (demo_row 7) t0).2 /\ demo_row 3 ∈ et_rows t0
  /\ shim_Replay (mkReads (fun k => if (k =? 0)%nat then t0 else t1) (fun _ => None)) 0 2 sseReplayBatch
     = Ok (map rest_of [demo_row 4; demo_row 6; demo_row 7]).
Proof. exists (mkEventTable (map demo_row [3; 4; 6]) 6 2 3). eexists. split; [reflexivity|]. split; [by left|reflexivity]. Qed.

#[local] Existing Instance ascii_only_tables.
#[local] Instance sse_json_time : JsonTime := fun t => JStr "1970-01-01T00:00:00Z".
Definition always_up : Wire := mkWire (fun _ => true) (fun _ => 0%nat).

Lemma overtaken_event_lost_witness : exists tr s, sys_run (bridge_init 1) tr s
  /\ content (Some 0%nat) (sy_bridge s) = [with_Seq 3 (demo_status 1); with_Seq 2 demo_receipt].
Proof.
  destruct (overtaken_event_lost (wire := always_up) demo_receipt (demo_status 1) 0 (demo_row 1) 0 0
    ltac:(intros n; reflexivity) ltac:(intros t; reflexivity) ltac:(discriminate) ltac:(discriminate)
    ltac:(reflexivity) ltac:(reflexivity)) as (tr & s & Hr & Hc & _).
  exists tr, s. split; [exact Hr | exact Hc].
Defined.
