(* ===== verification/Webhook.v ===== *)
(** * Outbound webhooks

    [internal/app/webhooks.go] (fan-out and the delivery loop),
    [internal/app/webhook_methods.go] and the tables of
    [internal/adapters/secondary/sqlitewebhooks/webhooks.go].  A table is a map
    from its primary key (profile, id); the order in which SQL lists rows that
    tie is the arbitrary order of [MapRange].  Every statement can fail
    ([wfault]).  The signed POST (net/http and the standard-webhooks library)
    is an outcome per delivery. *)
From S2P Require Import Prelude GoStd Errors Jid Policy Message Values Json Idem Draft EventRing Envelope Projection Bridge EventStream Sse.

#[local] Open Scope string_scope.
#[local] Open Scope list_scope.
#[local] Open Scope Z_scope.

Abbreviation wkey := (string * string)%type.     (* profile, id *)

Record WebhookEndpoint := mkEndpoint {
  wep_ID : string; wep_Profile : string; wep_URL : string; wep_Secret : string; wep_Topics : string;
  wep_Disabled : bool; wep_DisableReason : string; wep_FailureStreak : Z; wep_CreatedAt : Z }.
Inductive wstate := WPending | WDelivered | WDead.
#[global] Instance wstate_eq_dec : EqDecision wstate.
Proof. solve_decision. Defined.
Record WebhookDelivery := mkDelivery {
  wd_ID : string; wd_Profile : string; wd_EndpointID : string; wd_Topic : string; wd_Payload : string;
  wd_State : wstate; wd_Attempts : Z; wd_NextAttemptAt : Z; wd_LastError : string;
  wd_CreatedAt : Z; wd_UpdatedAt : Z }.
Record WebhookDue := mkDue {
  du_ID : string; du_Profile : string; du_EndpointID : string; du_Topic : string; du_Payload : string;
  du_Attempts : Z; du_URL : string; du_Secret : string }.
Record WebhookFailure := mkFailure {
  wf_Profile : string; wf_ID : string; wf_EndpointID : string; wf_Attempts : Z; wf_NextAt : Z;
  wf_LastErr : string; wf_Dead : bool; wf_At : Z }.

Record wstore := mkWStore { ws_endpoints : gmap wkey WebhookEndpoint; ws_deliveries : gmap wkey WebhookDelivery }.
Definition set_endpoints (m : gmap wkey WebhookEndpoint) (s : wstore) : wstore := mkWStore m (ws_deliveries s).
Definition set_deliveries (m : gmap wkey WebhookDelivery) (s : wstore) : wstore := mkWStore (ws_endpoints s) m.

(** The failure of the [n]th statement of a call. *)
Abbreviation wfault := (nat -> option goerr).
Definition no_fault : wfault := fun _ => None.

Definition disableAfterDeadStreak : Z := 5.
Definition webhookBackoffSec : list Z := [30; 120; 600; 1800; 3600; 10800; 21600; 43200].

(** What the receivers answer during one scan. *)
(** When each delivery of a scan is tried, and how the receiver answers. *)
Abbreviation posts := (wkey -> time * check goerr).

Section Store.
Context {ep_order : MapRange wkey WebhookEndpoint} {del_order : MapRange wkey WebhookDelivery}.

(** ** sqlitewebhooks/webhooks.go *)

Definition AddEndpoint (f : wfault) (ep : WebhookEndpoint) (s : wstore) : check goerr * wstore :=
  let bad e := (Err (wrapc "sqlitewebhooks: add endpoint" e), s) in
  match f 0%nat, ws_endpoints s !! (wep_Profile ep, wep_ID ep) with
  | Some e, _ => bad e
  | None, Some _ => bad (ENew "constraint failed")
  | None, None =>
    let row := mkEndpoint (wep_ID ep) (wep_Profile ep) (wep_URL ep) (wep_Secret ep) (wep_Topics ep)
                 false "" 0 (wep_CreatedAt ep) in
    (Ok tt, set_endpoints (<[(wep_Profile ep, wep_ID ep) := row]> (ws_endpoints s)) s)
  end.

Definition newest_ep (a b : WebhookEndpoint) : Prop := wep_CreatedAt b <= wep_CreatedAt a.
#[global] Instance newest_ep_dec : RelDecision newest_ep.
Proof. intros a b. unfold newest_ep. apply Z_le_dec. Defined.

Definition ListEndpoints (f : wfault) (profile : string) (s : wstore) : result (list WebhookEndpoint) :=
  match f 0%nat with
  | Some e => Err (wrapc "sqlitewebhooks: list endpoints" e)
  | None => Ok (merge_sort newest_ep
                  (List.filter (fun ep => String.eqb (wep_Profile ep) profile) (map snd (range (ws_endpoints s)))))
  end.

Definition EnabledEndpoints (f : wfault) (profile : string) (s : wstore) : result (list WebhookEndpoint) :=
  let* eps := ListEndpoints f profile s in Ok (List.filter (fun ep => negb (wep_Disabled ep)) eps).

Definition RemoveEndpoint (f : wfault) (profile id : string) (s : wstore) : check goerr * wstore :=
  match f 0%nat with
  | Some e => (Err (wrapc "sqlitewebhooks: remove endpoint" e), s)
  | None =>
    match ws_endpoints s !! (profile, id) with
    | None => (Err (ERpc app.ErrWebhookNotFound), s)
    | Some _ =>
      let s := set_endpoints (delete (profile, id) (ws_endpoints s)) s in
      match f 1%nat with
      | Some e => (Err (wrapc "sqlitewebhooks: remove deliveries" e), s)
      | None =>
        (Ok tt, set_deliveries (filter (fun kd => ~ (wd_Profile kd.2 = profile /\ wd_EndpointID kd.2 = id))
                                  (ws_deliveries s)) s)
      end
    end
  end.

Definition Enqueue (f : wfault) (d : WebhookDelivery) (s : wstore) : check goerr * wstore :=
  let bad e := (Err (wrapc "sqlitewebhooks: enqueue" e), s) in
  match f 0%nat, ws_deliveries s !! (wd_Profile d, wd_ID d) with
  | Some e, _ => bad e
  | None, Some _ => bad (ENew "constraint failed")
  | None, None =>
    let row := mkDelivery (wd_ID d) (wd_Profile d) (wd_EndpointID d) (wd_Topic d) (wd_Payload d)
                 WPending 0 (wd_NextAttemptAt d) "" (wd_CreatedAt d) (wd_CreatedAt d) in
    (Ok tt, set_deliveries (<[(wd_Profile d, wd_ID d) := row]> (ws_deliveries s)) s)
  end.

(** The rows [Due] selects, with the endpoint each is joined to. *)
Definition eligible (profile : string) (now : Z) (s : wstore) (d : WebhookDelivery) : bool :=
  String.eqb (wd_Profile d) profile && bool_decide (wd_State d = WPending) && (wd_NextAttemptAt d <=? now)
  && match ws_endpoints s !! (wd_Profile d, wd_EndpointID d) with
     | Some ep => negb (wep_Disabled ep)
     | None => false
     end.
Definition soonest (a b : WebhookDelivery) : Prop := wd_NextAttemptAt a <= wd_NextAttemptAt b.
#[global] Instance soonest_dec : RelDecision soonest.
Proof. intros a b. unfold soonest. apply Z_le_dec. Defined.

Definition due_row (s : wstore) (d : WebhookDelivery) : WebhookDue :=
  let ep := ws_endpoints s !! (wd_Profile d, wd_EndpointID d) in
  mkDue (wd_ID d) (wd_Profile d) (wd_EndpointID d) (wd_Topic d) (wd_Payload d) (wd_Attempts d)
    (default "" (wep_URL <$> ep)) (default "" (wep_Secret <$> ep)).

Definition due_rows (profile : string) (now limit : Z) (s : wstore) : list WebhookDelivery :=
  take (Z.to_nat limit)
    (merge_sort soonest (List.filter (eligible profile now s) (map snd (range (ws_deliveries s))))).

Definition Due (f : wfault) (profile : string) (now limit : Z) (s : wstore) : result (list WebhookDue) :=
  match f 0%nat with
  | Some e => Err (wrapc "sqlitewebhooks: due" e)
  | None => Ok (map (due_row s) (due_rows profile now limit s))
  end.

Definition delivered_row (at_ : Z) (d : WebhookDelivery) : WebhookDelivery :=
  mkDelivery (wd_ID d) (wd_Profile d) (wd_EndpointID d) (wd_Topic d) (wd_Payload d)
    WDelivered (wd_Attempts d) (wd_NextAttemptAt d) "" (wd_CreatedAt d) at_.
Definition reset_streak (ep : WebhookEndpoint) : WebhookEndpoint :=
  mkEndpoint (wep_ID ep) (wep_Profile ep) (wep_URL ep) (wep_Secret ep) (wep_Topics ep)
    (wep_Disabled ep) (wep_DisableReason ep) 0 (wep_CreatedAt ep).

Definition MarkDelivered (f : wfault) (profile id endpointID : string) (at_ : Z) (s : wstore)
    : check goerr * wstore :=
  match f 0%nat with
  | Some e => (Err (wrapc "sqlitewebhooks: mark delivered" e), s)
  | None =>
    let s := set_deliveries (alter (delivered_row at_) (profile, id) (ws_deliveries s)) s in
    match f 1%nat with
    | Some e => (Err (wrapc "sqlitewebhooks: reset streak" e), s)
    | None => (Ok tt, set_endpoints (alter reset_streak (profile, endpointID) (ws_endpoints s)) s)
    end
  end.

Definition failed_row (f : WebhookFailure) (d : WebhookDelivery) : WebhookDelivery :=
  mkDelivery (wd_ID d) (wd_Profile d) (wd_EndpointID d) (wd_Topic d) (wd_Payload d)
    (if wf_Dead f then WDead else WPending) (wf_Attempts f) (wf_NextAt f) (wf_LastErr f)
    (wd_CreatedAt d) (wf_At f).
Definition bump_streak (ep : WebhookEndpoint) : WebhookEndpoint :=
  let n := wep_FailureStreak ep + 1 in
  let off := disableAfterDeadStreak <=? n in
  mkEndpoint (wep_ID ep) (wep_Profile ep) (wep_URL ep) (wep_Secret ep) (wep_Topics ep)
    (if off then true else wep_Disabled ep)
    (if off then "auto-disabled: 5 consecutive dead deliveries" else wep_DisableReason ep)
    n (wep_CreatedAt ep).

Definition MarkFailed (f : wfault) (fl : WebhookFailure) (s : wstore) : check goerr * wstore :=
  match f 0%nat with
  | Some e => (Err (wrapc "sqlitewebhooks: mark failed" e), s)
  | None =>
    let s := set_deliveries (alter (failed_row fl) (wf_Profile fl, wf_ID fl) (ws_deliveries s)) s in
    if negb (wf_Dead fl) then (Ok tt, s)
    else match f 1%nat with
         | Some e => (Err (wrapc "sqlitewebhooks: bump streak" e), s)
         | None => (Ok tt, set_endpoints (alter bump_streak (wf_Profile fl, wf_EndpointID fl) (ws_endpoints s)) s)
         end
  end.

Definition newest_del (a b : WebhookDelivery) : Prop := wd_CreatedAt b <= wd_CreatedAt a.
#[global] Instance newest_del_dec : RelDecision newest_del.
Proof. intros a b. unfold newest_del. apply Z_le_dec. Defined.

Definition Deliveries (f : wfault) (profile : string) (state : option wstate) (limit : Z) (s : wstore)
    : result (list WebhookDelivery) :=
  match f 0%nat with
  | Some e => Err (wrapc "sqlitewebhooks: deliveries" e)
  | None =>
    Ok (take (Z.to_nat limit)
          (merge_sort newest_del
             (List.filter (fun d => String.eqb (wd_Profile d) profile
                && match state with Some st => bool_decide (wd_State d = st) | None => true end)
                (map snd (range (ws_deliveries s))))))
  end.

Definition rearmed_row (now : Z) (d : WebhookDelivery) : WebhookDelivery :=
  mkDelivery (wd_ID d) (wd_Profile d) (wd_EndpointID d) (wd_Topic d) (wd_Payload d)
    WPending (wd_Attempts d) now (wd_LastError d) (wd_CreatedAt d) now.

Definition Replay (f : wfault) (profile id : string) (now : Z) (s : wstore) : check goerr * wstore :=
  match f 0%nat with
  | Some e => (Err (wrapc "sqlitewebhooks: replay" e), s)
  | None =>
    match ws_deliveries s !! (profile, id) with
    | None => (Err (ERpc app.ErrWebhookNotFound), s)
    | Some _ => (Ok tt, set_deliveries (alter (rearmed_row now) (profile, id) (ws_deliveries s)) s)
    end
  end.

(** ** webhooks.go: the worker *)

Definition topicMatch (topics eventType : string) : bool :=
  existsb (fun t => let t := trim_space t in String.eqb t "*" || String.eqb t eventType)
    (split_byte "," topics).

(** [rnd] is what [rand.Read] filled, [nano] the clock of the fallback. *)
Definition newWebhookID (prefix : string) (rnd : option string) (nano : Z) : string :=
  match rnd with
  | Some b => prefix +:+ "-" +:+ hex_encode b
  | None => prefix +:+ "-" +:+ itoa nano
  end.

Definition webhookEnvelope `{JsonTime} (deliveryID : string) (evt : AppEvent) (now : Z) : json :=
  JObj [("schema", jstr "wa.webhook/v1"); ("deliveryId", jstr deliveryID); ("topic", jstr (ae_Type evt));
        ("ts", jint now); ("data", payload_json (ae_Payload evt))].

Definition new_delivery `{JsonTime} (profile deliveryID : string) (ep : WebhookEndpoint) (evt : AppEvent) (now : Z)
    : WebhookDelivery :=
  mkDelivery deliveryID profile (wep_ID ep) (ae_Type evt) (json_text (webhookEnvelope deliveryID evt now))
    WPending 0 now "" now 0.

(** One delivery per matching endpoint; [ids] are the new ids in order, and
    the [n]th insert fails as [ef n] says (the failure is logged). *)
Fixpoint fan_loop `{JsonTime} (profile : string) (now : time) (evt : AppEvent) (ids : nat -> string)
    (ef : nat -> wfault) (n : nat) (eps : list WebhookEndpoint) (s : wstore) : wstore :=
  match eps with
  | [] => s
  | ep :: eps =>
    if negb (topicMatch (wep_Topics ep) (ae_Type evt)) then fan_loop profile now evt ids ef n eps s
    else
      let d := new_delivery profile (ids n) ep evt (unix now) in
      fan_loop profile now evt ids ef (S n) eps (Enqueue (ef n) d s).2
  end.

Definition fanOut `{JsonTime} (profile : string) (lf : wfault) (ef : nat -> wfault) (now : time)
    (ids : nat -> string) (evt : AppEvent) (s : wstore) : wstore :=
  match EnabledEndpoints lf profile s with
  | Err _ => s
  | Ok eps => fan_loop profile now evt ids ef 0 eps s
  end.

(** [attempt]: [posted] is the outcome of the signed POST.  [None] when the
    backoff table has no entry for the attempt, where Go would panic. *)
Definition attempt (mf : wfault) (now : time) (posted : check goerr) (d : WebhookDue) (s : wstore) : option wstore :=
  match posted with
  | Ok _ => Some (MarkDelivered mf (du_Profile d) (du_ID d) (du_EndpointID d) (unix now) s).2
  | Err e =>
    let attempts := du_Attempts d + 1 in
    let dead := Z.of_nat (length webhookBackoffSec) <=? attempts in
    nextAt ← (if dead then Some 0
              else if attempts - 1 <? 0 then None
              else b ← webhookBackoffSec !! Z.to_nat (attempts - 1); Some (unix now + b));
    Some (MarkFailed mf (mkFailure (du_Profile d) (du_ID d) (du_EndpointID d) attempts nextAt (Error e) dead
                           (unix now)) s).2
  end.

Fixpoint attempt_all (mf : wkey -> wfault) (outs : posts) (due : list WebhookDue) (s : wstore)
    : option wstore :=
  match due with
  | [] => Some s
  | d :: due =>
    let k := (du_Profile d, du_ID d) in
    s ← attempt (mf k) (outs k).1 (outs k).2 d s; attempt_all mf outs due s
  end.

Definition deliverDue (profile : string) (df : wfault) (mf : wkey -> wfault) (now : time) (outs : posts) (s : wstore)
    : option wstore :=
  match Due df profile (unix now) 32 s with
  | Err _ => Some s
  | Ok due => attempt_all mf outs due s
  end.

End Store.

(** ** webhook_methods.go *)

(** [net/url.Parse]: the scheme and the host. *)
Class UrlParser := url_parse : string -> option (string * string).

Definition b64_char (n : Z) : ascii :=
  if n <? 26 then chr (65 + n) else if n <? 52 then chr (71 + n) else if n <? 62 then chr (n - 4)
  else if n =? 62 then "+"%char else "/"%char.
(** [base64.StdEncoding.EncodeToString] of whole triples, as 24 bytes are. *)
Fixpoint b64_triples (s : string) : string :=
  match s with
  | String a (String b (String c r)) =>
    let x := bz a * 65536 + bz b * 256 + bz c in
    String (b64_char (x / 262144)) (String (b64_char ((x / 4096) mod 64))
      (String (b64_char ((x / 64) mod 64)) (String (b64_char (x mod 64)) (b64_triples r))))
  | _ => ""
  end.

Definition NewWebhookSecret (rnd : option string) : result string :=
  match rnd with
  | None => Err (ENew "webhook secret: %w")
  | Some b => Ok ("whsec_" +:+ b64_triples b)
  end.

Definition dec_webhookAdd (m : list (string * json)) : option (string * string) :=
  url ← field dec_str "" "url" m; topics ← field dec_str "" "topics" m; Some (url, topics).

Definition webhook_note : string :=
  "store this secret now — it is not shown again; verify deliveries with any standard-webhooks library".

Section Methods.
Context {ep_order : MapRange wkey WebhookEndpoint} {del_order : MapRange wkey WebhookDelivery}.
Context {urls : UrlParser}.

Definition url_ok (s : string) : bool :=
  match url_parse s with
  | Some (scheme, host) => (String.eqb scheme "https" || String.eqb scheme "http") && negb (str_empty host)
  | None => false
  end.

Definition no_webhooks {A} : result A := Err (ERpc app.ErrMethodNotFound).

Definition handleWebhookAdd (profile : string) (f : wfault) (now : time) (secret id : option string)
    (raw : RawMessage) (st : option wstore) : result json * option wstore :=
  match st with
  | None => (no_webhooks, None)
  | Some s =>
    match parseParams dec_webhookAdd raw with
    | Err e => (Err e, st)
    | Ok (url, topics) =>
      if negb (url_ok url) then (Err (ERpc app.ErrInvalidParams), st)
      else
        let topics := trim_space topics in
        let topics := if str_empty topics then "message" else topics in
        match NewWebhookSecret secret with
        | Err e => (Err (wrapc "webhook.add" e), st)
        | Ok sec =>
          let ep := mkEndpoint (newWebhookID "whe" id now) profile url sec topics false "" 0 (unix now) in
          let '(r, s) := AddEndpoint f ep s in
          (match r with
           | Err e => Err (wrapc "webhook.add" e)
           | Ok _ => Ok (JObj [("id", jstr (wep_ID ep)); ("url", jstr url); ("topics", jstr topics);
                               ("secret", jstr sec); ("note", jstr webhook_note)])
           end, Some s)
        end
    end
  end.

Definition endpoint_view (ep : WebhookEndpoint) : json :=
  JObj ([("id", jstr (wep_ID ep)); ("url", jstr (wep_URL ep)); ("topics", jstr (wep_Topics ep))]
    ++ (if wep_Disabled ep then [("disabled", JBool true)] else [])
    ++ omit_str "disableReason" (wep_DisableReason ep) ++ omit_int "failureStreak" (wep_FailureStreak ep)
    ++ [("createdAt", jint (wep_CreatedAt ep))]).

Definition handleWebhookList (profile : string) (f : wfault) (st : option wstore) : result json :=
  match st with
  | None => no_webhooks
  | Some s =>
    match ListEndpoints f profile s with
    | Err e => Err (wrapc "webhook.list" e)
    | Ok eps => Ok (JObj [("endpoints", JArr (map endpoint_view eps))])
    end
  end.

Definition handleWebhookRemove (profile : string) (f : wfault) (raw : RawMessage) (st : option wstore)
    : result json * option wstore :=
  match st with
  | None => (no_webhooks, None)
  | Some s =>
    match parseParams (field dec_str "" "id") raw with
    | Err e => (Err e, st)
    | Ok id =>
      if str_empty id then (Err (ERpc app.ErrInvalidParams), st)
      else let '(r, s) := RemoveEndpoint f profile id s in
           (let* _ := r in Ok (JObj [("removed", jstr id)]), Some s)
    end
  end.

Definition wstate_string (st : wstate) : string :=
  match st with WPending => "pending" | WDelivered => "delivered" | WDead => "dead" end.
Definition delivery_view (d : WebhookDelivery) : json :=
  JObj ([("id", jstr (wd_ID d)); ("endpointId", jstr (wd_EndpointID d)); ("topic", jstr (wd_Topic d));
         ("state", jstr (wstate_string (wd_State d))); ("attempts", jint (wd_Attempts d))]
    ++ omit_int "nextAttemptAt" (wd_NextAttemptAt d) ++ omit_str "lastError" (wd_LastError d)
    ++ [("createdAt", jint (wd_CreatedAt d)); ("updatedAt", jint (wd_UpdatedAt d))]).

Definition parse_wstate (s : string) : option (option wstate) :=
  if str_empty s then Some None
  else if String.eqb s "pending" then Some (Some WPending)
  else if String.eqb s "delivered" then Some (Some WDelivered)
  else if String.eqb s "dead" then Some (Some WDead) else None.

Definition handleWebhookDeliveries (profile : string) (f : wfault) (raw : wait_raw) (st : option wstore)
    : result json :=
  match st with
  | None => no_webhooks
  | Some s =>
    let bad := Err (ERpc app.ErrInvalidParams) in
    let dec m : option (string * Z) := state ← field dec_str "" "state" m; limit ← field dec_int 50 "limit" m; Some (state, limit) in
    let p : result (string * Z) :=
      match raw with
      | WAbsent | WJson JNull => Ok ("", 50)
      | WMalformed => bad
      | WJson (JObj m) => match dec m with Some p => Ok p | None => bad end
      | WJson _ => bad
      end in
    let* p := p in
    let limit := if (p.2 <=? 0) || (200 <? p.2) then 50 else p.2 in
    match parse_wstate p.1 with
    | None => Err (ERpc app.ErrInvalidParams)
    | Some state =>
      match Deliveries f profile state limit s with
      | Err e => Err (wrapc "webhook.deliveries" e)
      | Ok rows => Ok (JObj [("deliveries", JArr (map delivery_view rows))])
      end
    end
  end.

Definition handleWebhookReplay (profile : string) (f : wfault) (now : time) (raw : RawMessage) (st : option wstore)
    : result json * option wstore :=
  match st with
  | None => (no_webhooks, None)
  | Some s =>
    match parseParams (field dec_str "" "id") raw with
    | Err e => (Err e, st)
    | Ok id =>
      if str_empty id then (Err (ERpc app.ErrInvalidParams), st)
      else let '(r, s) := Replay f profile id (unix now) s in
           (let* _ := r in Ok (JObj [("replayed", jstr id)]), Some s)
    end
  end.

End Methods.

(** ** Histories of the store *)

Inductive wstep :=
| WAdd (f : wfault) (ep : WebhookEndpoint)
| WRemove (f : wfault) (profile id : string)
| WFanOut (profile : string) (lf : wfault) (ef : nat -> wfault) (now : time) (ids : nat -> string) (evt : AppEvent)
| WTick (profile : string) (df : wfault) (mf : wkey -> wfault) (now : time) (outs : posts)
| WReplay (f : wfault) (profile id : string) (now : Z).

Section History.
Context {ep_order : MapRange wkey WebhookEndpoint} {del_order : MapRange wkey WebhookDelivery} {jt : JsonTime}.

Definition wexec (o : wstep) (s : wstore) : option wstore :=
  match o with
  | WAdd f ep => Some (AddEndpoint f ep s).2
  | WRemove f profile id => Some (RemoveEndpoint f profile id s).2
  | WFanOut profile lf ef now ids evt => Some (fanOut profile lf ef now ids evt s)
  | WTick profile df mf now outs => deliverDue profile df mf now outs s
  | WReplay f profile id now => Some (Replay f profile id now s).2
  end.
Fixpoint wrun (l : list wstep) (s : wstore) : option wstore :=
  match l with [] => Some s | o :: l => s ← wexec o s; wrun l s end.

End History.

(** ** Rows and keys *)

Definition row_inv (k : wkey) (d : WebhookDelivery) : Prop :=
  k = (wd_Profile d, wd_ID d) /\ 0 <= wd_Attempts d.
Definition ep_inv (k : wkey) (ep : WebhookEndpoint) : Prop := k = (wep_Profile ep, wep_ID ep).

Record wstore_inv (s : wstore) : Prop := {
  wi_rows : map_Forall row_inv (ws_deliveries s);
  wi_eps : map_Forall ep_inv (ws_endpoints s) }.

(** What an attempt does to its row. *)
Definition failure_of (now : time) (e : goerr) (d : WebhookDelivery) : WebhookFailure :=
  let attempts := wd_Attempts d + 1 in
  mkFailure (wd_Profile d) (wd_ID d) (wd_EndpointID d) attempts
    (if 8 <=? attempts then 0 else unix now + nth (Z.to_nat (wd_Attempts d)) webhookBackoffSec 0)
    (Error e) (8 <=? attempts) (unix now).
Definition settle (now : time) (posted : check goerr) (d : WebhookDelivery) : WebhookDelivery :=
  match posted with Ok _ => delivered_row (unix now) d | Err e => failed_row (failure_of now e d) d end.

Lemma alter_row {B} (P : wkey -> B -> Prop) (f : B -> B) (i : wkey) (m : gmap wkey B) : map_Forall P m ->
  (forall x, P i x -> P i (f x)) -> map_Forall P (alter f i m).
Proof.
  intros Hm Hf k x. rewrite lookup_alter_Some. intros [(<- & y & Hy & ->)|[_ Hk]]; [apply Hf|]; by apply Hm.
Qed.

Section Attempts.
Context {ep_order : MapRange wkey WebhookEndpoint} {del_order : MapRange wkey WebhookDelivery} {jt : JsonTime}.

Lemma attempt_due mf now posted s0 s d : 0 <= wd_Attempts d ->
  attempt mf now posted (due_row s0 d) s
  = Some (match posted with
          | Ok _ => (MarkDelivered mf (wd_Profile d) (wd_ID d) (wd_EndpointID d) (unix now) s).2
          | Err e => (MarkFailed mf (failure_of now e d) s).2
          end).
Proof.
  intros Ha. unfold attempt, due_row. cbn [du_Profile du_ID du_EndpointID du_Attempts].
  destruct posted as [|e]; [done|]. change (Z.of_nat (length webhookBackoffSec)) with 8.
  unfold failure_of. destruct (Z.leb_spec 8 (wd_Attempts d + 1)); [done|].
  rewrite (proj2 (Z.ltb_ge _ _)) by lia. rewrite Z.add_simpl_r.
  destruct (lookup_lt_is_Some_2 webhookBackoffSec (Z.to_nat (wd_Attempts d))) as [b Hb]; [cbn; lia|].
  rewrite Hb. cbn [mbind option_bind]. rewrite (nth_lookup_Some _ _ _ _ Hb). done.
Qed.

Lemma attempt_row now posted s d : 0 <= wd_Attempts d ->
  exists s', attempt no_fault now posted (due_row s d) s = Some s'
  /\ ws_deliveries s' = match posted with
       | Ok _ => alter (delivered_row (unix now)) (wd_Profile d, wd_ID d) (ws_deliveries s)
       | Err e => alter (failed_row (failure_of now e d)) (wd_Profile d, wd_ID d) (ws_deliveries s)
       end.
Proof.
  intros Ha. eexists. split; [by apply attempt_due|]. destruct posted as [|e]; [done|].
  unfold MarkFailed, no_fault. by destruct (wf_Dead (failure_of now e d)).
Qed.

Lemma attempt_lookup now posted s k d : row_inv k d -> ws_deliveries s !! k = Some d ->
  exists s', attempt no_fault now posted (due_row s d) s = Some s'
  /\ ws_deliveries s' !! k = Some (settle now posted d).
Proof.
  intros [-> Ha] Hk. destruct (attempt_row now posted s d Ha) as (s' & E & Hd). exists s'. split; [done|].
  rewrite Hd. by destruct posted; rewrite lookup_alter_eq, Hk.
Qed.

(** ** The attempts of one delivery *)

Lemma backoff_range a : 0 <= a < 7 -> 30 <= nth (Z.to_nat a) webhookBackoffSec 0 <= 21600.
Proof.
  intros Ha. assert (Hc : a ∈ [0; 1; 2; 3; 4; 5; 6]) by (change [0; 1; 2; 3; 4; 5; 6] with (seqZ 0 7); apply elem_of_seqZ; lia).
  revert Hc. generalize a. apply Forall_forall.
  repeat (apply Forall_cons_2; [vm_compute; split; discriminate|]). apply Forall_nil_2.
Qed.

Lemma settle_state now posted d : 0 <= wd_Attempts d ->
  let d' := settle now posted d in
  match posted with
  | Ok _ => wd_State d' = WDelivered /\ wd_Attempts d' = wd_Attempts d
  | Err e => wd_Attempts d' = wd_Attempts d + 1 /\ wd_LastError d' = Error e
             /\ if 8 <=? wd_Attempts d + 1 then wd_State d' = WDead
                else wd_State d' = WPending
                     /\ unix now + 30 <= wd_NextAttemptAt d' <= unix now + 21600
  end.
Proof.
  intros Ha. destruct posted as [|e]; [done|]. cbn -[nth webhookBackoffSec Z.add Z.leb]. destruct (Z.leb_spec 8 (wd_Attempts d + 1)); [done|].
  pose proof (backoff_range (wd_Attempts d) ltac:(lia)). split_and!; done || lia.
Qed.

Lemma settle_inv k now posted d : row_inv k d -> row_inv k (settle now posted d).
Proof. intros [-> Ha]. destruct posted; (split; [done|]); cbn; lia. Qed.

(** Tried when it falls due, a delivery that always fails is dead 38550
    seconds after its first attempt: the last entry of the table, 43200, is
    not used. *)
Fixpoint on_time (n : nat) (t : time) (e : goerr) (d : WebhookDelivery) : time * WebhookDelivery :=
  match n with
  | O => (t, d)
  | S n => let d := settle t (Err e) d in
           if bool_decide (wd_State d = WPending) then on_time n (of_unix (wd_NextAttemptAt d)) e d else (t, d)
  end.

Lemma unix_of_unix s : unix (of_unix s) = s.
Proof. unfold unix, of_unix, second. by rewrite Z.div_mul. Qed.

Definition total (l : list Z) : Z := foldr Z.add 0 l.

Lemma on_time_span e n : forall a t d, wd_Attempts d = Z.of_nat a -> (a + S n = 8)%nat ->
  let '(t', d') := on_time (S n) (of_unix t) e d in
  wd_State d' = WDead /\ unix t' = t + total (take n (drop a webhookBackoffSec)).
Proof.
  induction n as [|n IH]; intros a t d Ha Hn; cbn [on_time];
    destruct (settle_state (of_unix t) (Err e) d ltac:(lia)) as (Hat & _ & Hs); rewrite Ha in Hs.
  - rewrite (proj2 (Z.leb_le 8 _)) in Hs by lia.
    rewrite bool_decide_eq_false_2 by (rewrite Hs; discriminate). rewrite unix_of_unix. split; [done|]. change (total (take 0 ?l)) with 0. lia.
  - rewrite (proj2 (Z.leb_gt 8 _)) in Hs by lia. destruct Hs as [Hs _].
    rewrite bool_decide_eq_true_2 by done.
    assert (Hnext : wd_NextAttemptAt (settle (of_unix t) (Err e) d) = t + nth a webhookBackoffSec 0).
    { cbn -[nth webhookBackoffSec Z.add Z.leb]. rewrite Ha, unix_of_unix, Nat2Z.id.
      by rewrite (proj2 (Z.leb_gt 8 _)) by lia. }
    rewrite Hnext. specialize (IH (S a) (t + nth a webhookBackoffSec 0) (settle (of_unix t) (Err e) d)).
    cbn [on_time] in IH. destruct (if bool_decide _ then _ else _) as [t' d'].
    destruct IH as [IH1 IH2]; [lia|lia|]. split; [done|]. rewrite IH2.
    assert (Hd : drop a webhookBackoffSec = nth a webhookBackoffSec 0 :: drop (S a) webhookBackoffSec).
    { apply drop_S. assert (Hlt : (a < length webhookBackoffSec)%nat) by (cbn; lia).
      apply lookup_lt_is_Some_2 in Hlt as [b Hb]. by rewrite Hb, (nth_lookup_Some _ _ _ _ Hb). }
    rewrite Hd, firstn_cons. change (total (?x :: ?l)) with (x + total l). lia.
Qed.

Lemma retry_span t0 e d : wd_Attempts d = 0 ->
  let '(t, d') := on_time 8 (of_unix t0) e d in wd_State d' = WDead /\ unix t = t0 + 38550.
Proof. intros Ha. by apply (on_time_span e 7 0 t0 d). Qed.

End Attempts.

(** ** One scan of the queue *)

Definition key_of (d : WebhookDelivery) : wkey := (wd_Profile d, wd_ID d).
(** The endpoints of a later store: the same, and none is enabled again. *)
Definition ep_later (ep ep' : WebhookEndpoint) : Prop := wep_Disabled ep = true -> wep_Disabled ep' = true.
Definition eps_later (m m' : gmap wkey WebhookEndpoint) : Prop :=
  forall ek, option_Forall2 ep_later (m !! ek) (m' !! ek).

Lemma eps_later_refl m : eps_later m m.
Proof. intros ek. destruct (m !! ek); constructor. by unfold ep_later. Qed.
Lemma eps_later_trans m1 m2 m3 : eps_later m1 m2 -> eps_later m2 m3 -> eps_later m1 m3.
Proof.
  intros H12 H23 ek. specialize (H12 ek). specialize (H23 ek). unfold ep_later in *.
  inversion H12 as [x y Hxy Ex Ey|Ex Ey]; rewrite <- Ey in H23; inversion H23; constructor; auto.
Qed.
Lemma eps_later_alter f i m : (forall ep, ep_later ep (f ep)) -> eps_later m (alter f i m).
Proof.
  intros Hf ek. destruct (decide (i = ek)) as [->|Hne].
  - rewrite lookup_alter_eq. destruct (m !! ek); constructor. apply Hf.
  - rewrite lookup_alter_ne by done. apply eps_later_refl.
Qed.

Lemma bump_disabled ep : ep_later ep (bump_streak ep).
Proof. unfold ep_later. cbn. by destruct (_ <=? _). Qed.

Section Scan.
Context {ep_order : MapRange wkey WebhookEndpoint} {del_order : MapRange wkey WebhookDelivery} {jt : JsonTime}.

(** What any outcome, failed statements included, does to the rest. *)
Record touches (d : WebhookDelivery) (s s' : wstore) : Prop := {
  to_rows : forall k, k <> key_of d -> ws_deliveries s' !! k = ws_deliveries s !! k;
  to_eps : eps_later (ws_endpoints s) (ws_endpoints s');
  to_inv : wstore_inv s -> wstore_inv s' }.

Lemma touches_refl d s : touches d s s.
Proof. constructor; [done|apply eps_later_refl|done]. Qed.

Lemma touches_alter d s s' f : ws_deliveries s' = alter f (key_of d) (ws_deliveries s) ->
  (forall x, row_inv (key_of d) x -> row_inv (key_of d) (f x)) ->
  eps_later (ws_endpoints s) (ws_endpoints s') ->
  (map_Forall ep_inv (ws_endpoints s) -> map_Forall ep_inv (ws_endpoints s')) -> touches d s s'.
Proof.
  intros Hd Hf He Hei. constructor; [|done|].
  - intros k Hk. rewrite Hd. by rewrite lookup_alter_ne.
  - intros [Hr Hep]. constructor; [rewrite Hd; by apply alter_row|auto].
Qed.

Lemma MarkDelivered_touches f at_ d s :
  touches d s (MarkDelivered f (wd_Profile d) (wd_ID d) (wd_EndpointID d) at_ s).2.
Proof.
  unfold MarkDelivered. destruct (f 0%nat); [apply touches_refl|].
  destruct (f 1%nat); cbn [snd]; apply (touches_alter _ _ _ (delivered_row at_)); try done;
    try (by intros x [? ?]); [apply eps_later_refl | apply eps_later_alter; by intros ep Hep |].
  intros He. apply alter_row; [done|]. done.
Qed.

Lemma MarkFailed_touches f now e d s : 0 <= wd_Attempts d ->
  touches d s (MarkFailed f (failure_of now e d) s).2.
Proof.
  intros Ha. unfold MarkFailed. destruct (f 0%nat); [apply touches_refl|].
  assert (Hf : forall x, row_inv (key_of d) x -> row_inv (key_of d) (failed_row (failure_of now e d) x)).
  { intros x [Hx _]. split; [done|]. cbn. lia. }
  destruct (negb (wf_Dead (failure_of now e d))), (f 1%nat); cbn [snd];
    apply (touches_alter _ _ _ (failed_row (failure_of now e d))); try done;
    try apply eps_later_refl; [apply eps_later_alter, bump_disabled|].
  intros He. apply alter_row; [done|]. done.
Qed.

Lemma attempt_touches mf now posted s0 s d : 0 <= wd_Attempts d ->
  exists s', attempt mf now posted (due_row s0 d) s = Some s' /\ touches d s s'.
Proof.
  intros Ha. eexists. split; [by apply attempt_due|].
  destruct posted; [apply MarkDelivered_touches | by apply MarkFailed_touches].
Qed.

Lemma attempt_all_spec mf outs s0 ds : Forall (fun d => 0 <= wd_Attempts d) ds -> forall s,
  exists s', attempt_all mf outs (map (due_row s0) ds) s = Some s'
  /\ (forall k, k ∉ map key_of ds -> ws_deliveries s' !! k = ws_deliveries s !! k)
  /\ eps_later (ws_endpoints s) (ws_endpoints s') /\ (wstore_inv s -> wstore_inv s')
  /\ ((forall k, mf k = no_fault) -> NoDup (map key_of ds) ->
      Forall (fun d => ws_deliveries s !! key_of d = Some d) ds ->
      Forall (fun d => ws_deliveries s' !! key_of d = Some (settle (outs (key_of d)).1 (outs (key_of d)).2 d)) ds).
Proof.
  induction 1 as [|d ds Ha _ IH]; intros s; cbn [map attempt_all].
  { exists s. split_and!; try done. apply eps_later_refl. }
  change (du_Profile (due_row s0 d), du_ID (due_row s0 d)) with (key_of d).
  destruct (attempt_touches (mf (key_of d)) (outs (key_of d)).1 (outs (key_of d)).2 s0 s d Ha) as (s1 & E1 & T1).
  rewrite E1. cbn [mbind option_bind]. destruct (IH s1) as (s' & E' & Hrows & Heps & Hinv & Hset).
  exists s'. split; [done|]. split_and!.
  - intros k [Hk1 Hk2]%not_elem_of_cons. rewrite Hrows by done. by apply (to_rows _ _ _ T1).
  - by eapply eps_later_trans; [apply T1|].
  - intros Hi. by apply Hinv, T1.
  - intros Hmf [Hd Hnd]%NoDup_cons Hall. inversion Hall as [|? ? Hk Hks]; subst. constructor.
    + rewrite Hrows by done. rewrite Hmf in E1.
      destruct (attempt_lookup (outs (key_of d)).1 (outs (key_of d)).2 s (key_of d) d ltac:(by split) Hk) as (s2 & E2 & H2).
      rewrite attempt_due in E1, E2 by done. rewrite E1 in E2. by injection E2 as ->.
    + apply Hset; [done|done|]. apply Forall_forall. intros x Hx.
      rewrite (to_rows _ _ _ T1); [rewrite Forall_forall in Hks; by apply Hks|].
      intros Heq. apply Hd. rewrite <- Heq. by apply list_elem_of_fmap_2.
Qed.

(** What a scan leaves of one of the rows it read, whatever statement fails. *)
Lemma attempt_all_row mf outs s0 ds d : Forall (fun d => 0 <= wd_Attempts d) ds -> NoDup (map key_of ds) -> d ∈ ds ->
  forall s s', ws_deliveries s !! key_of d = Some d -> attempt_all mf outs (map (due_row s0) ds) s = Some s' ->
  ws_deliveries s' !! key_of d
  = Some (match mf (key_of d) 0%nat with
          | Some _ => d
          | None => settle (outs (key_of d)).1 (outs (key_of d)).2 d
          end).
Proof.
  induction 1 as [|x ds Ha Hall IH]; intros Hnd Hin s s' Hd E; [by apply not_elem_of_nil in Hin|].
  cbn [map] in *. apply NoDup_cons in Hnd as [Hx Hnd]. cbn [attempt_all] in E.
  change (du_Profile (due_row s0 x), du_ID (due_row s0 x)) with (key_of x) in E.
  destruct (attempt_touches (mf (key_of x)) (outs (key_of x)).1 (outs (key_of x)).2 s0 s x Ha) as (s1 & E1 & T1).
  rewrite E1 in E. cbn [mbind option_bind] in E. apply elem_of_cons in Hin as [<-|Hin].
  - destruct (attempt_all_spec mf outs s0 ds Hall s1) as (s2 & E2 & Hrows & _).
    rewrite E in E2. injection E2 as <-. rewrite Hrows by done. rewrite attempt_due in E1 by done. injection E1 as <-.
    destruct (outs (key_of d)).2 as [u|e]; unfold MarkDelivered, MarkFailed; cbn [wf_Profile wf_ID failure_of];
      fold (key_of d); destruct (mf (key_of d) 0%nat); [done| |done|].
    + destruct (mf (key_of d) 1%nat); cbn; by rewrite lookup_alter_eq, Hd.
    + destruct (negb _); [|destruct (mf (key_of d) 1%nat)]; cbn [snd set_deliveries set_endpoints ws_deliveries];
        by rewrite lookup_alter_eq, Hd.
  - apply (IH Hnd Hin s1); [|done]. rewrite (to_rows _ _ _ T1); [done|].
    intros Heq. apply Hx. rewrite <- Heq. by apply list_elem_of_fmap_2.
Qed.

Lemma rows_in s x : x ∈ map snd (range (ws_deliveries s)) <-> exists k, ws_deliveries s !! k = Some x.
Proof.
  rewrite list_elem_of_fmap. split.
  - intros ([k d] & -> & Hin). exists k. rewrite range_perm in Hin. by apply elem_of_map_to_list.
  - intros [k Hk]. exists (k, x). split; [done|]. rewrite range_perm. by apply elem_of_map_to_list.
Qed.

Definition candidates (profile : string) (now : Z) (s : wstore) : list WebhookDelivery :=
  List.filter (eligible profile now s) (map snd (range (ws_deliveries s))).

Lemma due_in profile now limit s d : d ∈ due_rows profile now limit s ->
  (exists k, ws_deliveries s !! k = Some d) /\ eligible profile now s d = true.
Proof.
  unfold due_rows. intros Ht.
  assert (Hin : d ∈ merge_sort soonest (candidates profile now s)).
  { rewrite <- (take_drop (Z.to_nat limit) (merge_sort _ _)). apply elem_of_app. by left. }
  rewrite merge_sort_Permutation in Hin. apply list_elem_of_In, filter_In in Hin as [Hin He].
  split; [|done]. by apply rows_in, list_elem_of_In.
Qed.

Lemma keys_rows s : wstore_inv s -> NoDup (map key_of (map snd (range (ws_deliveries s)))).
Proof.
  intros [Hi _]. rewrite map_map.
  assert (E : map (fun x => key_of x.2) (range (ws_deliveries s)) = (range (ws_deliveries s)).*1).
  { apply map_ext_in. intros [k d] Hin%list_elem_of_In. rewrite range_perm in Hin.
    apply elem_of_map_to_list, Hi in Hin as [Hk _]. by rewrite Hk. }
  rewrite E, range_perm. apply NoDup_fst_map_to_list.
Qed.

Lemma NoDup_map_filter {A B} (f : A -> B) p l : NoDup (map f l) -> NoDup (map f (List.filter p l)).
Proof.
  induction l as [|x l IH]; cbn; [done|]. rewrite NoDup_cons. intros [Hx Hnd].
  destruct (p x); [|auto]. cbn. apply NoDup_cons. split; [|auto]. intros Hin. apply Hx.
  apply list_elem_of_fmap in Hin as (y & Hy & Hin). apply list_elem_of_In, filter_In in Hin as [Hin _].
  apply list_elem_of_fmap. exists y. split; [done|]. by apply list_elem_of_In.
Qed.

Lemma due_keys profile now limit s : wstore_inv s -> NoDup (map key_of (due_rows profile now limit s)).
Proof.
  intros Hi. unfold due_rows. rewrite <- firstn_map. eapply sublist_NoDup; [|apply sublist_take].
  rewrite merge_sort_Permutation. by apply NoDup_map_filter, keys_rows.
Qed.

Lemma due_rows_ok profile now limit s : wstore_inv s ->
  Forall (fun d => 0 <= wd_Attempts d) (due_rows profile now limit s)
  /\ Forall (fun d => ws_deliveries s !! key_of d = Some d) (due_rows profile now limit s).
Proof.
  intros [Hi _]. split; apply Forall_forall; intros d [[k Hk] _]%due_in; destruct (Hi _ _ Hk) as [-> ?]; done.
Qed.

(** A scan: it returns, touches only the rows it read, enables no endpoint;
    without failing statements every row it read is settled. *)
Lemma deliverDue_spec profile df mf now outs s : wstore_inv s ->
  exists s', deliverDue profile df mf now outs s = Some s'
  /\ wstore_inv s' /\ eps_later (ws_endpoints s) (ws_endpoints s')
  /\ (forall k, k ∉ map key_of (due_rows profile (unix now) 32 s) -> ws_deliveries s' !! k = ws_deliveries s !! k)
  /\ (df 0%nat = None -> (forall k, mf k = no_fault) ->
      Forall (fun d => ws_deliveries s' !! key_of d = Some (settle (outs (key_of d)).1 (outs (key_of d)).2 d))
        (due_rows profile (unix now) 32 s)).
Proof.
  intros Hi. unfold deliverDue, Due. destruct (due_rows_ok profile (unix now) 32 s Hi) as [Ha Hk].
  destruct (df 0%nat).
  { exists s. split_and!; try done. apply eps_later_refl. }
  destruct (attempt_all_spec mf outs s _ Ha s) as (s' & E & Hrows & Heps & Hinv & Hset).
  exists s'. split_and!; try done; [by apply Hinv|]. intros _ Hmf. apply Hset; [done|by apply due_keys|done].
Qed.

(** A row that can be read and is not has 32 rows at least as old before it. *)
Lemma due_or_full profile now s d : (exists k, ws_deliveries s !! k = Some d) -> eligible profile now s d = true ->
  d ∈ due_rows profile now 32 s
  \/ length (due_rows profile now 32 s) = 32%nat
     /\ Forall (fun x => wd_NextAttemptAt x <= wd_NextAttemptAt d) (due_rows profile now 32 s).
Proof.
  intros Hd He. unfold due_rows. fold (candidates profile now s).
  assert (Hin : d ∈ merge_sort soonest (candidates profile now s)).
  { rewrite merge_sort_Permutation. apply list_elem_of_In, filter_In. split; [|done].
    by apply list_elem_of_In, rows_in. }
  assert (Hs : StronglySorted soonest (merge_sort soonest (candidates profile now s))).
  { apply StronglySorted_merge_sort; [intros x y z; unfold soonest; lia|].
    intros x y. unfold soonest. lia. }
  change (Z.to_nat 32) with 32%nat. revert Hin Hs. generalize (merge_sort soonest (candidates profile now s)).
  intros l Hin Hs. rewrite <- (take_drop 32 l) in Hin. apply elem_of_app in Hin as [Hin|Hin]; [by left|right].
  assert (Hlen : (32 < length l)%nat).
  { destruct (decide (32 < length l)%nat) as [|Hn]; [done|]. rewrite drop_ge in Hin by lia. by apply not_elem_of_nil in Hin. }
  split; [rewrite length_take; lia|]. rewrite <- (take_drop 32 l) in Hs.
  apply Forall_forall. intros x Hx. revert Hs Hx Hin. generalize (take 32 l), (drop 32 l). clear.
  induction l as [|y l IH]; intros l2 Hs Hx Hin; [by apply not_elem_of_nil in Hx|].
  cbn in Hs. inversion Hs as [|? ? Hs' Hy]; subst. apply elem_of_cons in Hx as [->|Hx]; [|by apply IH with l2].
  rewrite Forall_forall in Hy. apply Hy. set_solver.
Qed.

End Scan.

(** ** Any history *)

Section Histories.
Context {ep_order : MapRange wkey WebhookEndpoint} {del_order : MapRange wkey WebhookDelivery} {jt : JsonTime}.

Lemma Enqueue_inv f d s : wstore_inv s -> wstore_inv (Enqueue f d s).2.
Proof.
  intros Hi. unfold Enqueue. destruct (f 0%nat); [done|]. destruct (ws_deliveries s !! _) eqn:E; [done|].
  destruct Hi as [Hr He]. constructor; [|done]. by apply map_Forall_insert_2.
Qed.

(** An insert takes a new key, with the time it was made as its due time. *)
Lemma Enqueue_rows f d s k x : ws_deliveries (Enqueue f d s).2 !! k = Some x ->
  ws_deliveries s !! k = Some x \/ (ws_deliveries s !! k = None /\ wd_NextAttemptAt x = wd_NextAttemptAt d).
Proof.
  unfold Enqueue. destruct (f 0%nat); [by left|]. destruct (ws_deliveries s !! _) eqn:E; [by left|].
  cbn. rewrite lookup_insert_Some. intros [[<- <-]|[_ Hk]]; [by right|by left].
Qed.
Lemma Enqueue_keeps f d s k x : ws_deliveries s !! k = Some x -> ws_deliveries (Enqueue f d s).2 !! k = Some x.
Proof.
  unfold Enqueue. destruct (f 0%nat); [done|]. destruct (ws_deliveries s !! (_, _)) eqn:E; [done|].
  cbn. intros Hk. rewrite lookup_insert_ne; [done|]. intros <-. by rewrite E in Hk.
Qed.
Lemma Enqueue_eps f d s : ws_endpoints (Enqueue f d s).2 = ws_endpoints s.
Proof. unfold Enqueue. destruct (f 0%nat); [done|]. by destruct (ws_deliveries s !! _). Qed.

Lemma fan_loop_spec profile now evt ids ef eps : forall n s,
  let s' := fan_loop profile now evt ids ef n eps s in
  (wstore_inv s -> wstore_inv s') /\ ws_endpoints s' = ws_endpoints s
  /\ (forall k x, ws_deliveries s !! k = Some x -> ws_deliveries s' !! k = Some x)
  /\ (forall k x, ws_deliveries s' !! k = Some x ->
      ws_deliveries s !! k = Some x \/ (ws_deliveries s !! k = None /\ wd_NextAttemptAt x = unix now)).
Proof.
  induction eps as [|ep eps IH]; intros n s; cbn [fan_loop]; [split_and!; auto|].
  destruct (negb _); [apply IH|].
  set (d := new_delivery profile (ids n) ep evt (unix now)).
  destruct (IH (S n) (Enqueue (ef n) d s).2) as (H1 & H2 & H3 & H4). split_and!.
  - intros Hi. by apply H1, Enqueue_inv.
  - by rewrite H2, Enqueue_eps.
  - intros k x Hk. by apply H3, Enqueue_keeps.
  - intros k x Hk. destruct (H4 k x Hk) as [Hk'|[Hk' Hn]].
    + by apply Enqueue_rows in Hk'.
    + right. split; [|done]. destruct (ws_deliveries s !! k) as [y|] eqn:E; [|done].
      apply (Enqueue_keeps (ef n) d) in E. by rewrite E in Hk'.
Qed.

Lemma fanOut_spec profile lf ef now ids evt s :
  let s' := fanOut profile lf ef now ids evt s in
  (wstore_inv s -> wstore_inv s') /\ ws_endpoints s' = ws_endpoints s
  /\ (forall k x, ws_deliveries s !! k = Some x -> ws_deliveries s' !! k = Some x)
  /\ (forall k x, ws_deliveries s' !! k = Some x ->
      ws_deliveries s !! k = Some x \/ (ws_deliveries s !! k = None /\ wd_NextAttemptAt x = unix now)).
Proof.
  unfold fanOut. destruct (EnabledEndpoints lf profile s); [apply fan_loop_spec|]. cbn. split_and!; auto.
Qed.

Lemma fan_loop_keys p now evt ids ef eps k : (forall n, (p, ids n) <> k) -> forall n s,
  ws_deliveries (fan_loop p now evt ids ef n eps s) !! k = ws_deliveries s !! k.
Proof.
  intros Hne. induction eps as [|ep eps IH]; intros n s; cbn [fan_loop]; [done|]. destruct (negb _); [apply IH|].
  rewrite IH. unfold Enqueue. destruct (ef n 0%nat); [done|]. destruct (ws_deliveries s !! (_, _)); [done|].
  cbn. by rewrite lookup_insert_ne.
Qed.
Lemma fanOut_keys p lf ef now ids evt s k : (forall n, (p, ids n) <> k) ->
  ws_deliveries (fanOut p lf ef now ids evt s) !! k = ws_deliveries s !! k.
Proof. intros Hne. unfold fanOut. destruct (EnabledEndpoints lf p s); [by apply fan_loop_keys|done]. Qed.

Lemma wexec_inv o s : wstore_inv s -> exists s', wexec o s = Some s' /\ wstore_inv s'.
Proof.
  intros Hi. destruct o as [f ep|f p id|p lf ef now ids evt|p df mf now outs|f p id now]; cbn [wexec].
  - eexists. split; [done|]. unfold AddEndpoint. destruct (f 0%nat); [done|].
    destruct (ws_endpoints s !! _); [done|]. destruct Hi. constructor; [done|]. by apply map_Forall_insert_2.
  - eexists. split; [done|]. unfold RemoveEndpoint. destruct (f 0%nat); [done|].
    destruct (ws_endpoints s !! _); [|done]. destruct Hi.
    destruct (f 1%nat); (constructor; [|by apply map_Forall_delete]); [done|].
    cbn. intros k d [Hk _]%map_lookup_filter_Some. by apply wi_rows0.
  - eexists. split; [done|]. by apply fanOut_spec.
  - destruct (deliverDue_spec p df mf now outs s Hi) as (s' & E & Hi' & _). eauto.
  - eexists. split; [done|]. unfold Replay. destruct (f 0%nat); [done|].
    destruct (ws_deliveries s !! _); [|done]. destruct Hi. constructor; [|done].
    apply alter_row; [done|]. by intros x [? ?].
Qed.

Lemma wrun_inv l : forall s, wstore_inv s -> exists s', wrun l s = Some s' /\ wstore_inv s'.
Proof.
  induction l as [|o l IH]; intros s Hi; cbn [wrun]; [eauto|].
  destruct (wexec_inv o s Hi) as (s1 & -> & Hi1). cbn [mbind option_bind]. by apply IH.
Qed.

(** ** Nothing waits forever *)

(** Scans of [profile] from [n] on and events enqueued after it, with the
    store answering. *)
Definition undisturbed (profile : string) (n : Z) (o : wstep) : Prop :=
  match o with
  | WTick p df mf now outs => p = profile /\ df 0%nat = None /\ (forall k, mf k = no_fault) /\ n <= unix now
    /\ forall k, n <= unix (outs k).1
  | WFanOut _ _ _ now _ _ => n < unix now
  | _ => False
  end.
Definition is_tick (o : wstep) : bool := match o with WTick _ _ _ _ _ => true | _ => false end.
Definition ticks (l : list wstep) : nat := length (List.filter is_tick l).

Definition ep_enabled (s : wstore) (k : wkey) : bool :=
  match ws_endpoints s !! k with Some ep => negb (wep_Disabled ep) | None => false end.
Definition ep_key (d : WebhookDelivery) : wkey := (wd_Profile d, wd_EndpointID d).

(** The row has been tried since it was [d]. *)
Definition progressed (d : WebhookDelivery) (s : wstore) : Prop :=
  exists d', ws_deliveries s !! key_of d = Some d'
  /\ (wd_Attempts d < wd_Attempts d' \/ wd_State d' = WDelivered).

(** The rows in line up to [n], the row itself included. *)
Definition queue (profile : string) (n : Z) (s : wstore) : gset wkey :=
  dom (filter (fun kd => eligible profile n s kd.2 = true) (ws_deliveries s)).

Lemma queue_elem profile n s k :
  k ∈ queue profile n s <-> exists d, ws_deliveries s !! k = Some d /\ eligible profile n s d = true.
Proof.
  unfold queue. rewrite elem_of_dom. unfold is_Some. setoid_rewrite map_lookup_filter_Some. done.
Qed.

Lemma eligible_split profile now s d : eligible profile now s d = true <->
  wd_Profile d = profile /\ wd_State d = WPending /\ wd_NextAttemptAt d <= now /\ ep_enabled s (ep_key d) = true.
Proof.
  unfold eligible, ep_enabled, ep_key.
  rewrite !andb_true_iff, String.eqb_eq, bool_decide_eq_true, Z.leb_le. tauto.
Qed.

Lemma enabled_later s s' k : eps_later (ws_endpoints s) (ws_endpoints s') ->
  ep_enabled s' k = true -> ep_enabled s k = true.
Proof.
  intros He. unfold ep_enabled. destruct (He k) as [ep ep' Hl|]; [|done]. unfold ep_later in Hl.
  destruct (wep_Disabled ep); [|done]. by rewrite Hl.
Qed.

Lemma settle_progress now p d : 0 <= wd_Attempts d ->
  wd_Attempts d < wd_Attempts (settle now p d) \/ wd_State (settle now p d) = WDelivered.
Proof. destruct p; cbn; [by right|]. intros. left. lia. Qed.

Lemma undisturbed_later profile n o s s' : wstore_inv s -> undisturbed profile n o -> wexec o s = Some s' ->
  eps_later (ws_endpoints s) (ws_endpoints s')
  /\ (forall d, progressed d s -> progressed d s').
Proof.
  intros Hi Hu He. destruct o as [| |p lf ef now ids evt|p df mf now outs|]; try done; cbn [wexec] in He.
  - injection He as <-. destruct (fanOut_spec p lf ef now ids evt s) as (_ & -> & Hk & _).
    split; [apply eps_later_refl|]. intros d (d' & Hd & Hp). exists d'. split; [by apply Hk|done].
  - destruct Hu as (-> & Hdf & Hmf & _).
    destruct (deliverDue_spec profile df mf now outs s Hi) as (s1 & E & _ & Heps & Hrows & Hset).
    rewrite E in He. injection He as ->. split; [done|]. intros d (d' & Hd & Hp).
    destruct (decide (key_of d ∈ map key_of (due_rows profile (unix now) 32 s))) as [Hin|Hn];
      [|exists d'; by rewrite Hrows].
    apply list_elem_of_fmap in Hin as (x & Hkey & Hin). specialize (Hset Hdf Hmf).
    rewrite Forall_forall in Hset. specialize (Hset x Hin).
    destruct (due_rows_ok profile (unix now) 32 s Hi) as [Hatt Hlook].
    rewrite Forall_forall in Hatt, Hlook. specialize (Hatt x Hin). specialize (Hlook x Hin).
    rewrite <- Hkey in Hset, Hlook. rewrite Hd in Hlook. injection Hlook as ->.
    exists (settle (outs (key_of d)).1 (outs (key_of d)).2 x). split; [done|].
    apply due_in in Hin as [_ (_ & Hpend & _)%eligible_split].
    destruct Hp as [Hp|Hp]; [|by rewrite Hp in Hpend].
    destruct (settle_progress (outs (key_of d)).1 (outs (key_of d)).2 x Hatt) as [|]; [left; lia|by right].
Qed.

(** One tick: the row is tried, or 32 rows leave the line before it. *)
Lemma tick_progress profile df mf now outs s s' d :
  let n := wd_NextAttemptAt d in
  wstore_inv s -> undisturbed profile n (WTick profile df mf now outs) ->
  ws_deliveries s !! key_of d = Some d -> eligible profile n s d = true ->
  deliverDue profile df mf now outs s = Some s' ->
  progressed d s' \/ (ws_deliveries s' !! key_of d = Some d
                      /\ (size (queue profile n s') + 32 <= size (queue profile n s))%nat).
Proof.
  intros n Hi (_ & Hdf & Hmf & Hnow & Hlater) Hd He E.
  destruct (deliverDue_spec profile df mf now outs s Hi) as (s1 & E1 & _ & Heps & Hrows & Hset).
  rewrite E in E1. injection E1 as <-. specialize (Hset Hdf Hmf). rewrite Forall_forall in Hset.
  destruct (due_rows_ok profile (unix now) 32 s Hi) as [Hatt Hlook]. rewrite Forall_forall in Hatt, Hlook.
  set (L := due_rows profile (unix now) 32 s) in *.
  destruct (decide (key_of d ∈ map key_of L)) as [Hin|Hn].
  - left. apply list_elem_of_fmap in Hin as (x & Hkey & Hin). pose proof (Hlook x Hin) as Hx.
    rewrite <- Hkey, Hd in Hx. injection Hx as <-. eexists. split; [by apply Hset|].
    by apply settle_progress, Hatt.
  - right. split; [by rewrite Hrows|].
    assert (He' : eligible profile (unix now) s d = true).
    { apply eligible_split in He as (? & ? & ? & ?). apply eligible_split. split_and!; (done || lia). }
    destruct (due_or_full profile (unix now) s d ltac:(eauto) He') as [Hin|[Hlen Hold]].
    { exfalso. by apply Hn, list_elem_of_fmap_2. }
    fold L in Hlen, Hold. rewrite Forall_forall in Hold.
    assert (Hsub : list_to_set (map key_of L) ⊆ queue profile n s).
    { intros k Hk%elem_of_list_to_set%list_elem_of_fmap. destruct Hk as (x & -> & Hx).
      apply queue_elem. exists x. split; [by apply Hlook|].
      pose proof (Hold x Hx). apply due_in in Hx as [_ (? & ? & ? & ?)%eligible_split].
      apply eligible_split. done. }
    assert (Hsz : size (list_to_set (C := gset wkey) (map key_of L)) = 32%nat).
    { rewrite size_list_to_set by (by apply due_keys). rewrite length_map. exact Hlen. }
    assert (Hsub' : queue profile n s' ⊆ queue profile n s ∖ list_to_set (map key_of L)).
    { intros k Hk. apply queue_elem in Hk as (x & Hx & Hel). apply eligible_split in Hel as (Hp & Hs & Hnx & Hen).
      apply elem_of_difference. rewrite elem_of_list_to_set.
      assert (Hkn : k ∉ map key_of L).
      { intros (y & -> & Hy)%list_elem_of_fmap. rewrite (Hset y Hy) in Hx. injection Hx as <-.
        pose proof (settle_state (outs (key_of y)).1 (outs (key_of y)).2 y (Hatt y Hy)) as Hst.
        destruct (outs (key_of y)).2 as [u|e]; [by rewrite (proj1 Hst) in Hs|].
        destruct Hst as (_ & _ & Hst). destruct (8 <=? _); [by rewrite Hst in Hs|]. specialize (Hlater (key_of y)). lia. }
      split; [|done]. rewrite Hrows in Hx by done. apply queue_elem. exists x. split; [done|].
      apply eligible_split. split_and!; try done. by eapply enabled_later. }
    pose proof (subseteq_size _ _ Hsub') as Hle. rewrite size_difference in Hle by done.
    pose proof (subseteq_size _ _ Hsub). lia.
Qed.

(** No delivery starves.  While scans of the profile run from the time a
    delivery is due, however many others are queued and whatever is enqueued
    later or answered by the receivers, one scan for every 32 deliveries in
    line up to that time is enough: then the delivery has been tried again, or
    is delivered, unless its endpoint was disabled meanwhile. *)
Theorem delivery_attempted (d : WebhookDelivery) (l : list wstep) (s : wstore) :
  let profile := wd_Profile d in let n := wd_NextAttemptAt d in
  wstore_inv s -> ws_deliveries s !! key_of d = Some d -> eligible profile n s d = true ->
  Forall (undisturbed profile n) l -> (size (queue profile n s) <= 32 * ticks l)%nat ->
  exists s', wrun l s = Some s' /\ (progressed d s' \/ ep_enabled s' (ep_key d) = false).
Proof.
  intros profile n Hi Hd He Hl Hq.
  assert (Hpres : forall l s, wstore_inv s -> Forall (undisturbed profile n) l ->
    progressed d s \/ ep_enabled s (ep_key d) = false ->
    exists s', wrun l s = Some s' /\ (progressed d s' \/ ep_enabled s' (ep_key d) = false)).
  { clear. induction l as [|o l IH]; intros s Hi Hl Hor; cbn [wrun]; [eauto|]. inversion Hl; subst.
    destruct (wexec_inv o s Hi) as (s1 & E1 & Hi1). rewrite E1. cbn [mbind option_bind].
    destruct (undisturbed_later profile n o s s1 Hi ltac:(done) E1) as [Heps Hpr].
    apply IH; [done|done|]. destruct Hor as [Hp|Hd]; [left; auto|right].
    apply not_true_is_false. intros Hen. rewrite (enabled_later _ _ _ Heps Hen) in Hd. done. }
  revert s Hi Hd He Hq. induction l as [|o l IH]; intros s Hi Hd He Hq.
  { exfalso. assert (Hin : key_of d ∈ queue profile n s) by (apply queue_elem; eauto).
    cbn in Hq. assert (Hz : size (queue profile n s) = 0%nat) by lia.
    apply size_empty_inv in Hz. set_solver. }
  inversion Hl as [|? ? Ho Hl']; subst. cbn [wrun].
  destruct (wexec_inv o s Hi) as (s1 & E1 & Hi1). rewrite E1. cbn [mbind option_bind].
  destruct (undisturbed_later profile n o s s1 Hi Ho E1) as [Heps _].
  destruct (ep_enabled s1 (ep_key d)) eqn:Hen; [|by apply Hpres; [..|right]].
  assert (He1 : forall P : Prop, (eligible profile n s1 d = true -> P) -> P).
  { intros P HP. apply HP. apply eligible_split in He as (? & ? & ? & _). by apply eligible_split. }
  destruct o as [| |p lf ef now ids evt|p df mf now outs|]; try done; cbn [wexec] in E1.
  - injection E1 as <-. destruct (fanOut_spec p lf ef now ids evt s) as (_ & Heq & Hk & Hback).
    apply He1. intros Hel. apply IH; [done|done|by apply Hk|done|].
    etrans; [|exact Hq]. apply subseteq_size. intros k (x & Hx & Hex)%queue_elem.
    apply queue_elem. exists x. apply eligible_split in Hex as (? & ? & Hnx & Henx).
    destruct (Hback _ _ Hx) as [Hx'|[_ Hnew]].
    + split; [done|]. apply eligible_split. split_and!; try done. unfold ep_enabled in *. by rewrite <- Heq.
    + exfalso. cbn in Ho. unfold n in *. lia.
  - assert (p = profile) as -> by (by destruct Ho).
    destruct (tick_progress profile df mf now outs s s1 d Hi Ho Hd He E1) as [Hp|[Hd1 Hsz]];
      [by apply Hpres; [..|left]|].
    apply He1. intros Hel. apply IH; [done|done|done|done|]. fold n in Hsz. unfold ticks in *. cbn in Hq. lia.
Qed.

End Histories.

(** ** A delivery settles *)

Section Settling.
Context {ep_order : MapRange wkey WebhookEndpoint} {del_order : MapRange wkey WebhookDelivery} {jt : JsonTime}.

(** The POST a step makes for the delivery under [k]: whether the receiver
    accepted it, and whether the statement that records the outcome worked. *)
Definition posts_to (k : wkey) (o : wstep) (s : wstore) : list (bool * bool) :=
  match o with
  | WTick profile df mf now outs =>
    match Due df profile (unix now) 32 s with
    | Err _ => []
    | Ok due => if bool_decide (k ∈ map (fun d => (du_Profile d, du_ID d)) due)
                then [(is_ok (outs k).2, match mf k 0%nat with Some _ => false | None => true end)] else []
    end
  | _ => []
  end.
Fixpoint posts_of (k : wkey) (l : list wstep) (s : wstore) : list (bool * bool) :=
  match l with
  | [] => []
  | o :: l => posts_to k o s ++ match wexec o s with Some s => posts_of k l s | None => [] end
  end.
Definition recorded (l : list (bool * bool)) : list bool := map fst (List.filter snd l).

(** Nothing re-arms the delivery, and no new one takes its random id. *)
Definition leaves_alone (k : wkey) (o : wstep) : Prop :=
  match o with
  | WReplay _ p id _ => (p, id) <> k
  | WFanOut p _ _ _ ids _ => forall n, (p, ids n) <> k
  | _ => True
  end.

(** The failures a delivery survives from [a] attempts on, and one. *)
Definition budget (a : Z) : nat := Z.to_nat (Z.max 1 (8 - a)).

(** What the POSTs since it had [a] attempts have made of a delivery. *)
Definition outcome (a : Z) (posts : list (bool * bool)) (d : WebhookDelivery) : Prop :=
  exists n, wd_Attempts d = a + Z.of_nat n /\
  match wd_State d with
  | WPending => recorded posts = repeat false n /\ (n < budget a)%nat
  | WDelivered => exists before, posts = before ++ [(true, true)] /\ recorded before = repeat false n /\ (n < budget a)%nat
  | WDead => exists before, posts = before ++ [(false, true)] /\ recorded before = repeat false (n - 1) /\ n = budget a
  end.

Lemma recorded_app l1 l2 : recorded (l1 ++ l2) = recorded l1 ++ recorded l2.
Proof. unfold recorded. by rewrite List.filter_app, map_app. Qed.

Lemma wrun_app l1 l2 s : wrun (l1 ++ l2) s = s1 ← wrun l1 s; wrun l2 s1.
Proof. revert s. induction l1 as [|o l1 IH]; intros s; [done|]. cbn. destruct (wexec o s); [apply IH|done]. Qed.
Lemma posts_of_snoc k l o : forall s s1, wrun l s = Some s1 -> posts_of k (l ++ [o]) s = posts_of k l s ++ posts_to k o s1.
Proof.
  induction l as [|p l IH]; intros s s1 E; cbn [app posts_of]; [injection E as ->; destruct (wexec o s1); by rewrite app_nil_r|].
  cbn in E. destruct (wexec p s) as [s2|]; [|done]. cbn in E. by rewrite (IH _ _ E), app_assoc.
Qed.

(** One step, seen from a row: it is posted only when pending, and then
    settled by the outcome if that is recorded; otherwise it stays, or goes
    with its endpoint. *)
Lemma step_row k o s s1 : wstore_inv s -> leaves_alone k o -> wexec o s = Some s1 ->
  match ws_deliveries s !! k with
  | None => ws_deliveries s1 !! k = None
  | Some d =>
    match posts_to k o s with
    | [] => ws_deliveries s1 !! k = Some d
            \/ ws_deliveries s1 !! k = None /\ exists f, o = WRemove f (wd_Profile d) (wd_EndpointID d)
    | p :: ps => ps = [] /\ wd_State d = WPending /\ exists now r, p.1 = is_ok r
            /\ ws_deliveries s1 !! k = Some (if p.2 then settle now r d else d)
    end
  end.
Proof.
  intros Hi Ho E. destruct o as [f ep|f p id|p lf ef now ids evt|p df mf now outs|f p id now]; cbn [wexec posts_to] in *.
  - injection E as <-. unfold AddEndpoint. destruct (f 0%nat); [cbn; by destruct (ws_deliveries s !! k); auto|].
    destruct (ws_endpoints s !! _); cbn; by destruct (ws_deliveries s !! k); auto.
  - injection E as <-. unfold RemoveEndpoint. destruct (f 0%nat); [cbn; by destruct (ws_deliveries s !! k); auto|].
    destruct (ws_endpoints s !! _); [|cbn; by destruct (ws_deliveries s !! k); auto].
    destruct (f 1%nat); cbn; [cbn; by destruct (ws_deliveries s !! k); auto|].
    destruct (ws_deliveries s !! k) as [d|] eqn:Ed; [|by rewrite map_lookup_filter, Ed].
    rewrite map_lookup_filter, Ed. cbn. case_guard as Hg; [by left|right]. split; [done|]. exists f.
    by destruct Hg as [-> ->].
  - injection E as <-. rewrite (fanOut_keys p lf ef now ids evt s k Ho). by destruct (ws_deliveries s !! k); auto.
  - destruct (deliverDue_spec p df mf now outs s Hi) as (s' & E' & _ & _ & Hrows & _). rewrite E in E'. injection E' as <-.
    destruct (ws_deliveries s !! k) as [d|] eqn:Ed.
    2: { rewrite Hrows; [done|]. intros (x & -> & Hx)%list_elem_of_fmap.
         pose proof (proj2 (due_rows_ok p (unix now) 32 s Hi)) as Hl. rewrite Forall_forall in Hl. by rewrite (Hl x Hx) in Ed. }
    unfold deliverDue, Due in *. destruct (df 0%nat); [injection E as <-; by left|]. rewrite map_map.
    case_bool_decide as Hin; cbn in Hin.
    + apply list_elem_of_fmap in Hin as (x & -> & Hx). destruct (due_rows_ok p (unix now) 32 s Hi) as [Ha Hl].
      rewrite Forall_forall in Hl. fold (key_of x) in *. rewrite (Hl x Hx) in Ed. injection Ed as <-.
      pose proof (due_in _ _ _ _ _ Hx) as [_ Hel]. apply eligible_split in Hel as (_ & Hp & _).
      split; [done|]. split; [done|]. exists (outs (key_of x)).1, (outs (key_of x)).2. split; [done|].
      rewrite (attempt_all_row mf outs s _ x Ha (due_keys _ _ _ _ Hi) Hx s s1 (Hl x Hx) E). cbn.
      by destruct (mf (key_of x) 0%nat).
    + left. rewrite Hrows; [done|]. intros Hin'. apply Hin. exact Hin'.
  - injection E as <-. unfold Replay. destruct (f 0%nat); [cbn; by destruct (ws_deliveries s !! k); auto|].
    destruct (ws_deliveries s !! (p, id)); [|cbn; by destruct (ws_deliveries s !! k); auto].
    cbn. rewrite lookup_alter_ne by done. by destruct (ws_deliveries s !! k); auto.
Qed.

(** A POST of a pending row and its outcome. *)
Lemma outcome_step a posts d now r ok : 0 <= a -> outcome a posts d -> wd_State d = WPending ->
  outcome a (posts ++ [(is_ok r, ok)]) (if ok then settle now r d else d).
Proof.
  intros Ha (n & Hn & Ho) Hp. rewrite Hp in Ho. destruct Ho as [Hr Hlt]. destruct ok.
  2: { exists n. rewrite Hp, recorded_app. cbn. by rewrite app_nil_r. }
  pose proof (settle_state now r d ltac:(lia)) as Hs. cbn zeta in Hs. destruct r as [u|e].
  - destruct Hs as [Hs Hat]. exists n. rewrite Hs, Hat. split; [done|]. by exists posts.
  - destruct Hs as (Hat & _ & Hs). exists (S n). rewrite Hat. split; [lia|]. unfold budget in *.
    destruct (Z.leb_spec 8 (wd_Attempts d + 1)) as [H8|H8].
    + rewrite Hs. exists posts. split; [done|]. split; [by rewrite Nat.sub_1_r|lia].
    + destruct Hs as [-> _]. rewrite recorded_app, Hr. cbn [recorded map List.filter snd fst].
      split; [|lia]. change [is_ok (Err e)] with (repeat false 1). rewrite <- repeat_app. f_equal. lia.
Qed.

(** C23. Every delivery settles, by its own attempts.  From a pending row, new or
    re-armed, over any history of scans, new events, endpoints added and
    removed, and replays of other deliveries, with any statement failing: the
    history always runs (the retry table is never read out of range), and the
    row is pending as long as fewer than its budget of POSTs have failed and
    been recorded and none has succeeded (eight, less the attempts it had, one
    at least); it is delivered exactly by a recorded success, dead exactly by
    the last recorded failure of the budget, with the attempts counted; after
    the POST that settles it, it is never posted again; and it goes away only
    with its endpoint. *)
Theorem delivery_settles (k : wkey) (l : list wstep) (s : wstore) (d : WebhookDelivery) :
  wstore_inv s -> ws_deliveries s !! k = Some d -> wd_State d = WPending -> Forall (leaves_alone k) l ->
  exists s', wrun l s = Some s'
  /\ match ws_deliveries s' !! k with
     | None => exists f, WRemove f (wd_Profile d) (wd_EndpointID d) ∈ l
     | Some d' => ep_key d' = ep_key d /\ outcome (wd_Attempts d) (posts_of k l s) d'
     end.
Proof.
  intros Hi Hk Hp Hl. induction l as [|o l IH] using rev_ind.
  { exists s. split; [done|]. rewrite Hk. split; [done|]. exists 0%nat. rewrite Hp. cbn. unfold budget. split_and!; [lia|done|lia]. }
  apply Forall_app in Hl as [Hl Ho]. apply Forall_cons in Ho as [Ho _]. destruct (IH Hl) as (s1 & E1 & Hrow). clear IH.
  destruct (wrun_inv l s Hi) as (s1' & E1' & Hi1). rewrite E1 in E1'. injection E1' as <-.
  destruct (wexec_inv o s1 Hi1) as (s2 & E2 & _). exists s2.
  rewrite wrun_app, E1, (posts_of_snoc k l o s s1 E1). cbn. rewrite E2. split; [done|].
  pose proof (step_row k o s1 s2 Hi1 Ho E2) as Hs. destruct (ws_deliveries s1 !! k) as [d1|] eqn:Ed1.
  2: { rewrite Hs. destruct Hrow as [f Hin]. exists f. set_solver. }
  destruct Hrow as [Hep Hout]. destruct (posts_to k o s1) as [|p ps].
  - destruct Hs as [->|[-> [f ->]]]; [by rewrite app_nil_r|]. exists f. injection Hep as -> ->. set_solver.
  - destruct Hs as (-> & Hp1 & now & r & Hpr & ->). destruct p as [b ok]. cbn in Hpr. subst b. cbn [snd].
    split; [by destruct ok, r|]. apply outcome_step; [|done|done]. destruct (wi_rows s Hi k d Hk). done.
Qed.

End Settling.

(** ** A disabled endpoint stays disabled *)

Section Disabled.
Context {ep_order : MapRange wkey WebhookEndpoint} {del_order : MapRange wkey WebhookDelivery} {jt : JsonTime}.

(** Everything but the removal of the endpoint. *)
Definition keeps_endpoint (ek : wkey) (o : wstep) : Prop :=
  match o with WRemove _ p id => (p, id) <> ek | _ => True end.

Record stuck (d : WebhookDelivery) (s : wstore) : Prop := {
  sk_ep : exists ep, ws_endpoints s !! ep_key d = Some ep /\ wep_Disabled ep = true;
  sk_row : exists d', ws_deliveries s !! key_of d = Some d' /\ ep_key d' = ep_key d
           /\ wd_State d' = WPending /\ wd_Attempts d' = wd_Attempts d }.

Lemma stuck_rows d s s' : stuck d s -> ws_endpoints s' = ws_endpoints s ->
  (forall x, ws_deliveries s !! key_of d = Some x -> ws_deliveries s' !! key_of d = Some x) -> stuck d s'.
Proof. intros [He (d' & Hd & Hr)] Hep Hk. constructor; [by rewrite Hep|]. eauto. Qed.

Lemma stuck_step d o s s' : wstore_inv s -> keeps_endpoint (ep_key d) o -> stuck d s ->
  wexec o s = Some s' -> stuck d s'.
Proof.
  intros Hi Hk Hst He. pose proof Hst as [(ep & Hep & Hdis) (d' & Hd & Hke & Hp & Ha)].
  destruct o as [f ep0|f p id|p lf ef now ids evt|p df mf now outs|f p id now]; cbn [wexec] in He.
  - injection He as <-. unfold AddEndpoint. destruct (f 0%nat); [done|].
    destruct (ws_endpoints s !! (wep_Profile ep0, wep_ID ep0)) eqn:E; [done|].
    constructor; [|eauto]. exists ep. split; [|done]. cbn. rewrite lookup_insert_ne; [done|].
    intros Heq. by rewrite Heq, Hep in E.
  - injection He as <-. cbn in Hk. unfold RemoveEndpoint. destruct (f 0%nat); [done|].
    destruct (ws_endpoints s !! (p, id)); [|done].
    assert (Hep' : delete (p, id) (ws_endpoints s) !! ep_key d = Some ep) by (by rewrite lookup_delete_ne).
    destruct (f 1%nat); (constructor; [eauto|]); [by exists d'|]. exists d'. split; [|done]. cbn.
    apply map_lookup_filter_Some. split; [done|]. cbn. intros [H1 H2]. apply Hk. by rewrite <- Hke, <- H1, <- H2.
  - injection He as <-. destruct (fanOut_spec p lf ef now ids evt s) as (_ & Heq & Hkeep & _).
    apply (stuck_rows d s); [done|done|]. intros x Hx. by apply Hkeep.
  - destruct (deliverDue_spec p df mf now outs s Hi) as (s1 & E & _ & Heps & Hrows & _).
    rewrite E in He. injection He as ->. constructor.
    + specialize (Heps (ep_key d)). rewrite Hep in Heps. inversion Heps as [x y Hl Hx Hy|]; subst.
      exists y. split; [done|]. by apply Hl.
    + exists d'. split; [|done]. rewrite Hrows; [done|]. intros (x & Hkey & Hin)%list_elem_of_fmap.
      pose proof (due_rows_ok p (unix now) 32 s Hi) as [_ Hlook]. rewrite Forall_forall in Hlook.
      specialize (Hlook x Hin). rewrite <- Hkey, Hd in Hlook. injection Hlook as <-.
      apply due_in in Hin as [_ (_ & _ & _ & Hen)%eligible_split].
      unfold ep_enabled in Hen. by rewrite Hke, Hep, Hdis in Hen.
  - injection He as <-. unfold Replay. destruct (f 0%nat); [done|].
    destruct (ws_deliveries s !! (p, id)); [|done]. constructor; [by exists ep|]. cbn.
    destruct (decide ((p, id) = key_of d)) as [Heq|Hne].
    + rewrite Heq, lookup_alter_eq, Hd. by exists (rearmed_row now d').
    + rewrite lookup_alter_ne by done. by exists d'.
Qed.

Lemma stuck_run d l : forall s, wstore_inv s -> Forall (keeps_endpoint (ep_key d)) l -> stuck d s ->
  exists s', wrun l s = Some s' /\ stuck d s'.
Proof.
  induction l as [|o l IH]; intros s Hi Hl Hst; cbn [wrun]; [eauto|]. inversion Hl; subst.
  destruct (wexec_inv o s Hi) as (s1 & E & Hi1). rewrite E. cbn [mbind option_bind].
  apply IH; [done|done|]. by apply (stuck_step d o s s1).
Qed.

(** A replay to a disabled endpoint is accepted and does nothing.  The
    delivery is re-armed and the call succeeds, but nothing enables the
    endpoint again: until the endpoint is removed, whatever else happens, the
    delivery is pending and has not been tried once more. *)
Theorem replay_of_disabled_is_idle (d : WebhookDelivery) (ep : WebhookEndpoint) (now : Z) (l : list wstep) (s : wstore) :
  wstore_inv s -> ws_deliveries s !! key_of d = Some d ->
  ws_endpoints s !! ep_key d = Some ep -> wep_Disabled ep = true ->
  Forall (keeps_endpoint (ep_key d)) l ->
  let '(r, s1) := Replay no_fault (wd_Profile d) (wd_ID d) now s in
  r = Ok tt /\ exists s', wrun l s1 = Some s'
  /\ exists d', ws_deliveries s' !! key_of d = Some d' /\ wd_State d' = WPending
     /\ wd_Attempts d' = wd_Attempts d.
Proof.
  intros Hi Hd Hep Hdis Hl. destruct (wexec_inv (WReplay no_fault (wd_Profile d) (wd_ID d) now) s Hi) as (s1 & E & Hi1).
  cbn [wexec] in E. injection E as E. unfold Replay in *. cbn [no_fault] in *. fold (key_of d) in *.
  rewrite Hd in *. cbn in E. split; [done|].
  destruct (stuck_run d l s1 Hi1 Hl) as (s' & Er & [_ (d' & Hd' & _ & Hp & Ha)]).
  - rewrite <- E. constructor; [eauto|]. cbn. rewrite lookup_alter_eq, Hd. by exists (rearmed_row now d).
  - exists s'. rewrite E. split; [done|]. exists d'. done.
Qed.

(** ** The dead-letter streak *)

(** A settled outcome at the endpoint: the delivery it was, and whether it got
    through. *)
Definition settle_ep (profile eid : string) (o : string * bool) (s : wstore) : wstore :=
  if o.2 then (MarkDelivered no_fault profile o.1 eid 0 s).2
  else (MarkFailed no_fault (mkFailure profile o.1 eid 8 0 "" true 0) s).2.

Definition five_dead (os : list bool) : Prop := exists pre post, os = pre ++ repeat false 5 ++ post.

(** The outcomes at the end that did not get through. *)
Fixpoint dead_tail (l : list bool) (n : nat) : nat :=
  match l with [] => n | b :: l => dead_tail l (if b then 0 else S n)%nat end.
Lemma dead_tail_snoc l b n : dead_tail (l ++ [b]) n = (if b then 0 else S (dead_tail l n))%nat.
Proof. revert n. induction l as [|c l IH]; intros n; cbn; [done|]. apply IH. Qed.

Lemma dead_tail_split os : exists pre, os = pre ++ repeat false (dead_tail os 0).
Proof.
  induction os as [|b os (pre & Hpre)] using rev_ind; [by exists []|]. rewrite dead_tail_snoc.
  destruct b; [exists (os ++ [true]); by rewrite app_nil_r|].
  exists pre. rewrite Hpre at 1. cbn [repeat]. rewrite repeat_cons, app_assoc. done.
Qed.

Lemma dead_tail_repeat pre n : (n <= dead_tail (pre ++ repeat false n) 0)%nat.
Proof.
  induction n as [|n IH]; [lia|]. cbn [repeat]. rewrite repeat_cons, app_assoc, dead_tail_snoc. lia.
Qed.

Lemma five_dead_snoc os b : five_dead (os ++ [b]) <-> five_dead os \/ (b = false /\ (4 <= dead_tail os 0)%nat).
Proof.
  split.
  - intros (pre & post & E). destruct post as [|c post] using rev_ind.
    + right. rewrite app_nil_r in E. change (repeat false 5) with (repeat false 4 ++ [false]) in E.
      rewrite app_assoc in E. apply app_inj_tail in E as [-> ->]. split; [done|]. apply dead_tail_repeat.
    + left. rewrite !app_assoc in E. apply app_inj_tail in E as [-> _]. exists pre, post. by rewrite app_assoc.
  - intros [(pre & post & ->)|[-> H]].
    + exists pre, (post ++ [b]). by rewrite <- !app_assoc.
    + destruct (dead_tail_split os) as (pre & E).
      exists (pre ++ repeat false (dead_tail os 0 - 4)), []. rewrite E at 1.
      replace (dead_tail os 0) with (dead_tail os 0 - 4 + 4)%nat at 1 by lia.
      rewrite repeat_app, <- !app_assoc. done.
Qed.

(** An endpoint is disabled exactly when five deliveries in a row have died
    on it.  From an enabled endpoint with no failure, after any sequence of
    settled deliveries, the streak counts the deaths since the last success,
    and the endpoint is disabled if and only if the sequence contains five
    consecutive deaths: a success resets the count, and does not enable the
    endpoint again. *)
Theorem dead_streak_disables (profile eid : string) (ep : WebhookEndpoint) (os : list (string * bool)) (s : wstore) :
  ws_endpoints s !! (profile, eid) = Some ep -> wep_Disabled ep = false -> wep_FailureStreak ep = 0 ->
  exists ep', ws_endpoints (foldl (flip (settle_ep profile eid)) s os) !! (profile, eid) = Some ep'
  /\ wep_FailureStreak ep' = Z.of_nat (dead_tail (map snd os) 0)
  /\ (wep_Disabled ep' = true <-> five_dead (map snd os)).
Proof.
  intros Hep Hdis Hstr. induction os as [|o os (ep' & Hep' & Hstr' & Hiff)] using rev_ind.
  - exists ep. split; [done|]. split; [done|]. rewrite Hdis. split; [done|]. intros (pre & post & E).
    apply (f_equal length) in E. rewrite !length_app in E. cbn in E. lia.
  - rewrite foldl_app, map_app. cbn [foldl map]. rewrite dead_tail_snoc.
    set (s1 := foldl _ _ os) in *. destruct o as [i b]. cbn [snd].
    destruct b; unfold flip, settle_ep; cbn [fst snd].
    + exists (reset_streak ep'). unfold MarkDelivered, no_fault. cbn [snd set_endpoints ws_endpoints].
      rewrite lookup_alter_eq. unfold set_deliveries. cbn [ws_endpoints]. rewrite Hep'.
      split_and!; [done|done|]. rewrite five_dead_snoc, <- Hiff. cbn [reset_streak wep_Disabled]. naive_solver.
    + exists (bump_streak ep'). unfold MarkFailed, no_fault. cbn [snd set_endpoints ws_endpoints wf_Dead negb].
      rewrite lookup_alter_eq. unfold set_deliveries. cbn [ws_endpoints wf_Profile wf_EndpointID]. rewrite Hep'.
      split_and!; [done|cbn; lia|]. rewrite five_dead_snoc, <- Hiff. cbn [bump_streak wep_Disabled]. unfold disableAfterDeadStreak.
      destruct (Z.leb_spec 5 (wep_FailureStreak ep' + 1)).
      * split; [|done]. intros _. right. split; [done|lia].
      * split; [by left|]. intros [|[_ ?]]; [done|lia].
Qed.

End Disabled.

(** ** A queue *)

#[local] Instance demo_ep_order : MapRange wkey WebhookEndpoint := {| range := map_to_list; range_perm := fun m => reflexivity _ |}.
#[local] Instance demo_del_order : MapRange wkey WebhookDelivery := {| range := map_to_list; range_perm := fun m => reflexivity _ |}.
#[local] Instance demo_wjson : JsonTime := fun t => JStr "1970-01-01T00:00:00Z".

Definition demo_wep (off : bool) : WebhookEndpoint := mkEndpoint "e" "p" "https://x" "whsec_" "*" off "" 0 0.
Definition demo_del (a : Z) : WebhookDelivery := mkDelivery "d" "p" "e" "message" "{}" WPending a 10 "" 0 0.
Definition demo_wstore (off : bool) (a : Z) : wstore :=
  mkWStore {[("p", "e") := demo_wep off]} {[("p", "d") := demo_del a]}.
Definition refused : check goerr := Err (ENew "receiver returned 500").

Lemma demo_wstore_inv off a : 0 <= a -> wstore_inv (demo_wstore off a).
Proof. intros Ha. constructor; apply map_Forall_singleton; by repeat split. Qed.

Definition demo_tick (sec : Z) (answer : check goerr) : wstep :=
  WTick "p" no_fault (fun _ => no_fault) (sec * second) (fun _ => (sec * second, answer)).

(** Six attempts behind it: refused, replay of another, refused again, and
    dead; the last scan does not post. *)
Lemma delivery_settles_witness :
  let l := [demo_tick 10 refused; WReplay no_fault "p" "other" 5; demo_tick 99999 refused; demo_tick 999999 (Ok tt)] in
  posts_of ("p", "d") l (demo_wstore false 6) = [(false, true); (false, true)]
  /\ exists s', wrun l (demo_wstore false 6) = Some s'
  /\ match ws_deliveries s' !! ("p", "d") with
     | None => exists f, WRemove f "p" "e" ∈ l
     | Some d' => ep_key d' = ("p", "e") /\ outcome 6 (posts_of ("p", "d") l (demo_wstore false 6)) d'
     end.
Proof.
  cbv zeta. split; [vm_compute; reflexivity|].
  refine (delivery_settles ("p", "d") _ (demo_wstore false 6) (demo_del 6) _ _ _ _).
  - apply demo_wstore_inv. lia.
  - reflexivity.
  - reflexivity.
  - repeat (apply Forall_cons; split; [cbn; first [exact I|discriminate]|]). constructor.
Defined.

Lemma delivery_attempted_witness : exists s',
  wrun [WTick "p" no_fault (fun _ => no_fault) (10 * second) (fun _ => (10 * second, refused))] (demo_wstore false 0) = Some s'
  /\ (progressed (demo_del 0) s' \/ ep_enabled s' ("p", "e") = false).
Proof.
  apply (delivery_attempted (demo_del 0) [WTick "p" no_fault (fun _ => no_fault) (10 * second) (fun _ => (10 * second, refused))]
    (demo_wstore false 0)).
  - apply demo_wstore_inv. lia.
  - reflexivity.
  - vm_compute. reflexivity.
  - constructor; [|constructor]. split; [reflexivity|]. split; [reflexivity|]. split; [reflexivity|].
    split; [|intros k]; vm_compute; discriminate.
  - vm_compute. lia.
Defined.

Lemma replay_of_disabled_is_idle_witness :
  (Replay no_fault "p" "d" 99 (demo_wstore true 8)).1 = Ok tt.
Proof.
  pose proof (replay_of_disabled_is_idle (demo_del 8) (demo_wep true) 99 [] (demo_wstore true 8)
    ltac:(apply demo_wstore_inv; lia) ltac:(reflexivity) ltac:(reflexivity) ltac:(reflexivity) ltac:(constructor)) as H.
  cbn [wd_Profile wd_ID demo_del] in H. destruct (Replay _ _ _ _ _) as [r s1]. exact (proj1 H).
Defined.

Lemma dead_streak_disables_witness : exists ep',
  ws_endpoints (foldl (flip (settle_ep "p" "e")) (demo_wstore false 0)
    [("a", false); ("b", true); ("c", false); ("d", false)]) !! ("p", "e") = Some ep'
  /\ wep_FailureStreak ep' = 2.
Proof.
  destruct (dead_streak_disables "p" "e" (demo_wep false) [("a", false); ("b", true); ("c", false); ("d", false)]
    (demo_wstore false 0) ltac:(reflexivity) ltac:(reflexivity) ltac:(reflexivity)) as (ep' & H1 & H2 & _).
  exists ep'. split; [exact H1 | exact H2].
Defined.
