(* ===== verification/Watchdog.v ===== *)
(** * The soft-stale watchdog

    [cmd/wad/watchdog.go]: the parsing of its settings, the state machine of
    one tick and the rate-limited forced reconnect.  A tick reads the bridge's
    two clocks and the websocket probe, and emits through the bridge of
    Bridge.v.  The reconnect runs on its own goroutine: a tick only says
    whether it was started. *)
From S2P Require Import Prelude GoStd Errors Jid Policy Message Values Json Idem Draft EventRing Envelope Projection Bridge EventStream Sse.

#[local] Open Scope string_scope.
#[local] Open Scope list_scope.
#[local] Open Scope Z_scope.

Definition softStaleMinSec : Z := 30.
Definition softStaleMaxSec : Z := 3600.
Definition softStaleTickCapSec : Z := 60.
Definition recoverCooldownDefaultSec : Z := 300.
Definition backoffCapDefaultSec : Z := 3600.
Definition backoffCapMaxSec : Z := 86400.
Definition backoffShiftMax : Z := 16.

(** ** Settings *)

Definition ParseSoftStaleThresholdSec (raw : string) : Z :=
  if str_empty raw then 0
  else match ParseInt raw with
       | None => 0
       | Some n =>
         if n <=? 0 then 0
         else if n <? softStaleMinSec then softStaleMinSec
         else if softStaleMaxSec <? n then softStaleMaxSec
         else n
       end.

Definition ParseSoftStaleBackoffCapSec (raw : string) (thresholdSec : Z) : Z :=
  let capSec :=
    if str_empty raw then backoffCapDefaultSec
    else match ParseInt raw with
         | None => backoffCapDefaultSec
         | Some n =>
           if n <=? 0 then backoffCapDefaultSec
           else if backoffCapMaxSec <? n then backoffCapMaxSec
           else n
         end in
  if capSec <? thresholdSec then thresholdSec else capSec.

Definition ascii_lower (c : ascii) : ascii := if is_upper c then chr (bz c + 32) else c.
(** [strings.ToLower] yields one of the tokens only from their own letters. *)
Definition parseSoftStaleBool (raw : string) : bool :=
  let s := str_flat_map (fun c => String (ascii_lower c) "") (trim_space raw) in
  existsb (String.eqb s) ["1"; "true"; "yes"; "on"].

(** [thresholdSec/3] truncates; the period is in seconds. *)
Definition softStaleTickFor (thresholdSec : Z) : Z :=
  Z.min (Z.max (Z.quot thresholdSec 3) 1) softStaleTickCapSec.

Record SoftStaleDeps := mkDeps {
  dp_ThresholdSec : Z; dp_Recover : bool; dp_RecoverCooldownSec : Z; dp_BackoffCapSec : Z }.

(** [softStaleArm], with the bridge and the probe present or not. *)
Definition softStaleArm (deps : SoftStaleDeps) (bridge probe : bool) : bool :=
  if dp_ThresholdSec deps <=? 0 then false else bridge && probe.

(** ** The state machine *)

Inductive softStale := Healthy | Stale | Unknown.
#[global] Instance softStale_eq_dec : EqDecision softStale.
Proof. solve_decision. Defined.

Record recoverState := mkRecover { rv_lastRecoverUnix : Z; rv_quietStreak : Z }.
Record watchdog := mkWatchdog { wg_current : softStale; wg_seq : Z; wg_rec : recoverState }.
Definition watchdog_init : watchdog := mkWatchdog Unknown 0 (mkRecover 0 0).

Definition softStaleEmit `{UnicodeTables} (deps : SoftStaleDeps) (next : softStale) (stale : Z) (seq : Z)
    (now : time) (b : EventBridge) : EventBridge :=
  let state := if bool_decide (next = Stale) then HealthSoftStale else HealthRestored in
  let detail := "staleSeconds=" +:+ itoa stale +:+ " thresholdSec=" +:+ itoa (dp_ThresholdSec deps) in
  EmitSynthetic now (Some (DHealth (mkHealthEvent ("softstale-" +:+ itoa seq) now state detail))) b.

(** The next state, the event counter and the bridge. *)
Definition softStaleStep `{UnicodeTables} (deps : SoftStaleDeps) (connected : bool) (now : time)
    (current : softStale) (seq : Z) (b : EventBridge) : softStale * Z * EventBridge :=
  let lastEvent := br_lastEventUnix b in
  if lastEvent =? 0 then (current, seq, b)
  else if negb connected then (Unknown, seq, b)
  else
    let stale := wrap64 (unix now - lastEvent) in
    let next := if dp_ThresholdSec deps <=? stale then Stale else Healthy in
    if bool_decide (next = current) then (current, seq, b)
    else if bool_decide (current = Unknown) then (next, seq, b)
    else let seq := seq + 1 in (next, seq, softStaleEmit deps next stale seq now b).

(** [int64(threshold) << shift], at its width. *)
Definition recoverGapSec (deps : SoftStaleDeps) (streak : Z) : Z :=
  let cooldown := if dp_RecoverCooldownSec deps <=? 0 then recoverCooldownDefaultSec
                  else dp_RecoverCooldownSec deps in
  if streak <? 1 then cooldown
  else
    let shift := Z.min (streak - 1) backoffShiftMax in
    let b := wrap64 (Z.shiftl (dp_ThresholdSec deps) shift) in
    let gap := if cooldown <? b then b else cooldown in
    let capSec := if dp_BackoffCapSec deps <=? 0 then backoffCapDefaultSec else dp_BackoffCapSec deps in
    let capSec := if capSec <? dp_ThresholdSec deps then dp_ThresholdSec deps else capSec in
    if capSec <? gap then capSec else gap.

(** Whether the reconnect is started, and the bookkeeping. *)
Definition maybeRecover (deps : SoftStaleDeps) (lastTraffic : Z) (now : time) (edge : bool) (st : recoverState)
    : bool * recoverState :=
  if negb edge && (rv_lastRecoverUnix st =? 0) then (false, st)
  else
    let st := if negb (rv_lastRecoverUnix st =? 0) && (rv_lastRecoverUnix st <? lastTraffic)
              then mkRecover (rv_lastRecoverUnix st) 0 else st in
    let gap := recoverGapSec deps (rv_quietStreak st) in
    if negb (rv_lastRecoverUnix st =? 0) && (wrap64 (unix now - rv_lastRecoverUnix st) <? gap) then (false, st)
    else (true, mkRecover (unix now) (rv_quietStreak st + 1)).

(** One turn of the loop of [runSoftStaleWatchdog]. *)
Definition watchdog_tick `{UnicodeTables} (deps : SoftStaleDeps) (connected : bool) (now : time)
    (w : watchdog) (b : EventBridge) : bool * watchdog * EventBridge :=
  let prev := wg_current w in
  let '(current, seq, b) := softStaleStep deps connected now prev (wg_seq w) b in
  if negb (dp_Recover deps) || negb (bool_decide (current = Stale)) then (false, mkWatchdog current seq (wg_rec w), b)
  else
    match prev with
    | Unknown => (false, mkWatchdog current seq (wg_rec w), b)
    | Healthy => let '(fired, r) := maybeRecover deps (br_lastTrafficUnix b) now true (wg_rec w) in
                 (fired, mkWatchdog current seq r, b)
    | Stale => let '(fired, r) := maybeRecover deps (br_lastTrafficUnix b) now false (wg_rec w) in
               (fired, mkWatchdog current seq r, b)
    end.

(** What happens to the daemon between and at the ticks: inbound events and
    the ticker, in time order. *)
Inductive moment :=
| MEvent (now : time) (e : AppEvent)
| MTick (now : time) (connected : bool).

(** The reconnects started, in order, as (time, streak after). *)
Fixpoint run_watchdog `{UnicodeTables} (deps : SoftStaleDeps) (ms : list moment) (w : watchdog) (b : EventBridge)
    : list (Z * Z) * watchdog * EventBridge :=
  match ms with
  | [] => ([], w, b)
  | MEvent now e :: ms => run_watchdog deps ms w (dispatch now true e b)
  | MTick now connected :: ms =>
    let '(fired, w, b) := watchdog_tick deps connected now w b in
    let '(fs, w', b') := run_watchdog deps ms w b in
    ((if fired then (unix now, rv_quietStreak (wg_rec w)) :: fs else fs), w', b')
  end.

Definition moment_time (m : moment) : time := match m with MEvent now _ | MTick now _ => now end.

(** ** Gaps *)

Definition cooldown_of (deps : SoftStaleDeps) : Z :=
  if dp_RecoverCooldownSec deps <=? 0 then recoverCooldownDefaultSec else dp_RecoverCooldownSec deps.
Definition cap_of (deps : SoftStaleDeps) : Z :=
  Z.max (if dp_BackoffCapSec deps <=? 0 then backoffCapDefaultSec else dp_BackoffCapSec deps) (dp_ThresholdSec deps).
Definition longest_gap (deps : SoftStaleDeps) : Z := Z.max (cooldown_of deps) (cap_of deps).

Lemma shift_exact threshold shift : 0 < threshold <= softStaleMaxSec -> 0 <= shift <= backoffShiftMax ->
  wrap64 (Z.shiftl threshold shift) = threshold * 2 ^ shift.
Proof.
  unfold softStaleMaxSec, backoffShiftMax. intros Ht Hs. rewrite Z.shiftl_mul_pow2 by lia. apply wrap64_id.
  assert (0 < 2 ^ shift <= 2 ^ 16) by (split; [lia|apply Z.pow_le_mono_r; lia]).
  change (2 ^ 16) with 65536 in *. change (2 ^ 63) with 9223372036854775808. nia.
Qed.

(** The gap as the comments state it. *)
Lemma recoverGap_formula deps streak : 0 < dp_ThresholdSec deps <= softStaleMaxSec -> 
  recoverGapSec deps streak
  = if streak <? 1 then cooldown_of deps
    else Z.min (cap_of deps)
           (Z.max (cooldown_of deps) (dp_ThresholdSec deps * 2 ^ Z.min (streak - 1) backoffShiftMax)).
Proof.
  intros Ht. unfold recoverGapSec. fold (cooldown_of deps). destruct (Z.ltb_spec streak 1) as [|Hs]; [done|].
  rewrite shift_exact by (unfold backoffShiftMax in *; lia). unfold cap_of.
  set (p := dp_ThresholdSec deps * _). set (c := if dp_BackoffCapSec deps <=? 0 then _ else _).
  destruct (Z.ltb_spec (cooldown_of deps) p), (Z.ltb_spec c (dp_ThresholdSec deps));
    match goal with |- (if ?a <? ?b then _ else _) = _ => destruct (Z.ltb_spec a b) end; lia.
Qed.

Lemma recoverGap_bounds deps streak : 0 < dp_ThresholdSec deps <= softStaleMaxSec ->
  Z.min (cooldown_of deps) (cap_of deps) <= recoverGapSec deps streak <= longest_gap deps.
Proof.
  intros Ht. rewrite recoverGap_formula by done. unfold longest_gap. destruct (streak <? 1); lia.
Qed.

Lemma recoverGap_grows deps s s' : 0 < dp_ThresholdSec deps <= softStaleMaxSec -> 1 <= s <= s' ->
  recoverGapSec deps s <= recoverGapSec deps s'.
Proof.
  intros Ht Hs. rewrite !recoverGap_formula by done.
  rewrite !(proj2 (Z.ltb_ge _ _)) by lia.
  assert (dp_ThresholdSec deps * 2 ^ Z.min (s - 1) backoffShiftMax <= dp_ThresholdSec deps * 2 ^ Z.min (s' - 1) backoffShiftMax);
    [|lia].
  apply Z.mul_le_mono_nonneg_l; [lia|]. apply Z.pow_le_mono_r; lia.
Qed.

(** The comment's promise, that two reconnects are [RecoverCooldownSec]
    apart, fails under a smaller cap: these settings are accepted as they are. *)
Lemma cap_undercuts_cooldown :
  let threshold := ParseSoftStaleThresholdSec "30" in
  let deps := mkDeps threshold true 300 (ParseSoftStaleBackoffCapSec "60" threshold) in
  recoverGapSec deps 0 = 300 /\ recoverGapSec deps 1 = 60 /\ recoverGapSec deps 9 = 60.
Proof. vm_compute. done. Qed.

Section Watch.
Context `{UnicodeTables} (deps : SoftStaleDeps).
Hypothesis Hthreshold : 0 < dp_ThresholdSec deps <= softStaleMaxSec.

Definition sane (t : time) : Prop := 0 < unix t < 2 ^ 62.

(** The watchdog's own events move neither clock. *)
Lemma EmitSynthetic_clocks now e b : br_lastEventUnix (EmitSynthetic now e b) = br_lastEventUnix b
  /\ br_lastTrafficUnix (EmitSynthetic now e b) = br_lastTrafficUnix b.
Proof.
  destruct e as [e|]; [|done]. unfold EmitSynthetic, dispatch, stamp. cbn -[deliver].
  edestruct deliver_all_frame as (_ & _ & _ & -> & ->). done.
Qed.

Lemma step_clocks connected now current seq b :
  let r := softStaleStep deps connected now current seq b in
  br_lastEventUnix r.2 = br_lastEventUnix b /\ br_lastTrafficUnix r.2 = br_lastTrafficUnix b.
Proof.
  unfold softStaleStep. repeat case_match; try done; cbn [snd]; apply EmitSynthetic_clocks.
Qed.

Lemma tick_clocks connected now w b :
  let r := watchdog_tick deps connected now w b in
  br_lastEventUnix r.2 = br_lastEventUnix b /\ br_lastTrafficUnix r.2 = br_lastTrafficUnix b.
Proof.
  unfold watchdog_tick. pose proof (step_clocks connected now (wg_current w) (wg_seq w) b) as Hc.
  destruct (softStaleStep _ _ _ _ _ _) as [[c s] b']. cbn [snd] in Hc.
  destruct (negb _ || negb _); [done|]. destruct (wg_current w); try done; by destruct (maybeRecover _ _ _ _ _).
Qed.

(** A reconnect that starts comes after the gap, and counts up or afresh. *)
Lemma maybeRecover_spec lastTraffic now edge st : sane now -> 0 <= rv_lastRecoverUnix st <= unix now ->
  let '(fired, st') := maybeRecover deps lastTraffic now edge st in
  if fired then
    rv_lastRecoverUnix st' = unix now
    /\ (edge = true \/ rv_lastRecoverUnix st <> 0)
    /\ (rv_quietStreak st' = rv_quietStreak st + 1 \/ rv_quietStreak st' = 1)
    /\ (rv_lastRecoverUnix st <> 0 ->
        rv_lastRecoverUnix st + recoverGapSec deps (rv_quietStreak st' - 1) <= unix now)
  else rv_lastRecoverUnix st' = rv_lastRecoverUnix st
       /\ (rv_quietStreak st' = rv_quietStreak st \/ rv_quietStreak st' = 0)
       /\ (rv_lastRecoverUnix st <> 0 -> unix now < rv_lastRecoverUnix st + longest_gap deps).
Proof.
  intros Hnow Hlast. unfold maybeRecover, sane in *.
  set (st1 := if negb (rv_lastRecoverUnix st =? 0) && (rv_lastRecoverUnix st <? lastTraffic) then _ else st).
  assert (Hst1 : rv_lastRecoverUnix st1 = rv_lastRecoverUnix st
    /\ (rv_quietStreak st1 = rv_quietStreak st \/ rv_quietStreak st1 = 0)).
  { unfold st1. destruct (_ && _); cbn; auto. }
  destruct Hst1 as [Hl Hq]. rewrite Hl.
  assert (Hw : wrap64 (unix now - rv_lastRecoverUnix st) = unix now - rv_lastRecoverUnix st) by (apply wrap64_id; lia).
  pose proof (recoverGap_bounds deps (rv_quietStreak st1) Hthreshold) as Hg.
  destruct (Z.eqb_spec (rv_lastRecoverUnix st) 0) as [E|E]; cbn [negb andb].
  - destruct edge; cbn [rv_lastRecoverUnix rv_quietStreak negb andb]; split_and!; try done; try (by left); lia.
  - rewrite andb_false_r, Hw. destruct (Z.ltb_spec (unix now - rv_lastRecoverUnix st) (recoverGapSec deps (rv_quietStreak st1))).
    + split_and!; [done|done|]. intros _. lia.
    + cbn [rv_lastRecoverUnix rv_quietStreak]. split_and!; try done; [by right|lia|]. intros _. rewrite Z.add_simpl_r. lia.
Qed.

Lemma tick_spec connected now w b : sane now -> 0 <= rv_lastRecoverUnix (wg_rec w) <= unix now ->
  let '(fired, w', b') := watchdog_tick deps connected now w b in
  let st := wg_rec w in let st' := wg_rec w' in
  if fired then
    rv_lastRecoverUnix st' = unix now
    /\ (wg_current w = Healthy /\ wg_current w' = Stale \/ rv_lastRecoverUnix st <> 0)
    /\ (rv_quietStreak st' = rv_quietStreak st + 1 \/ rv_quietStreak st' = 1)
    /\ (rv_lastRecoverUnix st <> 0 ->
        rv_lastRecoverUnix st + recoverGapSec deps (rv_quietStreak st' - 1) <= unix now)
  else rv_lastRecoverUnix st' = rv_lastRecoverUnix st
       /\ (rv_quietStreak st' = rv_quietStreak st \/ rv_quietStreak st' = 0).
Proof.
  intros Hnow Hlast. unfold watchdog_tick. destruct (softStaleStep _ _ _ _ _ _) as [[c s] b'].
  destruct (negb (dp_Recover deps) || negb (bool_decide (c = Stale))) eqn:E; [by auto|].
  apply orb_false_iff in E as [_ E]. apply negb_false_iff, bool_decide_eq_true in E. subst c.
  destruct (wg_current w) eqn:Ec; [| |by auto].
  - pose proof (maybeRecover_spec (br_lastTrafficUnix b') now true (wg_rec w) Hnow Hlast) as Hm.
    destruct (maybeRecover _ _ _ _ _) as [[|] st']; cbn [wg_rec wg_current]; [|tauto].
    destruct Hm as (H1 & _ & H3 & H4). tauto.
  - pose proof (maybeRecover_spec (br_lastTrafficUnix b') now false (wg_rec w) Hnow Hlast) as Hm.
    destruct (maybeRecover _ _ _ _ _) as [[|] st']; cbn [wg_rec wg_current]; [|tauto].
    destruct Hm as (H1 & [?|H2] & H3 & H4); [done|]. tauto.
Qed.

(** Successive reconnects, given the last one and the streak it left; a
    streak that was reset is not below one. *)
Fixpoint spaced (last streak : Z) (fs : list (Z * Z)) : Prop :=
  match fs with
  | [] => True
  | (t, s) :: fs =>
    (last <> 0 -> last + recoverGapSec deps (s - 1) <= t /\ last + Z.min (cooldown_of deps) (cap_of deps) <= t)
    /\ (1 <= s <= streak + 1) /\ spaced t s fs
  end.

Lemma spaced_weaken last s s' fs : s <= s' -> spaced last s fs -> spaced last s' fs.
Proof. destruct fs as [|[t x] fs]; [done|]. intros Hs (? & ? & ?). cbn. split_and!; try done; lia. Qed.

Lemma run_spaced ms : forall w b,
  Forall (fun m => sane (moment_time m) /\ rv_lastRecoverUnix (wg_rec w) <= unix (moment_time m)) ms ->
  StronglySorted (fun m m' => unix (moment_time m) <= unix (moment_time m')) ms ->
  0 <= rv_lastRecoverUnix (wg_rec w) -> 0 <= rv_quietStreak (wg_rec w) ->
  let '(fs, _, _) := run_watchdog deps ms w b in
  spaced (rv_lastRecoverUnix (wg_rec w)) (rv_quietStreak (wg_rec w)) fs.
Proof.
  induction ms as [|m ms IH]; intros w b Hall Hs Hl Hq; [done|].
  inversion Hall as [|? ? [Hm Hml] Hms]; subst. inversion Hs as [|? ? Hs' Hle]; subst.
  destruct m as [now e|now connected]; cbn [run_watchdog moment_time] in *; [by apply IH|].
  pose proof (tick_spec connected now w b Hm ltac:(lia)) as Ht.
  destruct (watchdog_tick deps connected now w b) as [[fired w1] b1]. cbn zeta in Ht.
  assert (Hw1 : rv_lastRecoverUnix (wg_rec w1) <= unix now).
  { destruct fired; destruct Ht as [-> _]; lia. }
  specialize (IH w1 b1).
  destruct (run_watchdog deps ms w1 b1) as [[fs w2] b2].
  assert (Hms1 : Forall (fun m => sane (moment_time m) /\ rv_lastRecoverUnix (wg_rec w1) <= unix (moment_time m)) ms).
  { rewrite Forall_forall in Hms, Hle |- *. intros m Hin. destruct (Hms m Hin). split; [done|].
    specialize (Hle m Hin). cbn in Hle. lia. }
  destruct fired.
  - destruct Ht as (H1 & _ & H3 & H4). rewrite H1 in IH. cbn [spaced].
    pose proof (recoverGap_bounds deps (rv_quietStreak (wg_rec w1) - 1) Hthreshold) as Hg.
    unfold sane in Hm. split_and!; [|lia|lia|apply IH; [by rewrite <- H1|done|lia|lia]].
    intros Hne. specialize (H4 Hne). lia.
  - destruct Ht as (H1 & H2). rewrite H1 in IH.
    apply (spaced_weaken _ (rv_quietStreak (wg_rec w1))); [lia|]. apply IH; [by rewrite <- H1|done|lia|lia].
Qed.

(** Forced reconnects are spaced.  Whatever arrives and whatever the probe
    says, each reconnect comes at least the gap for its streak after the one
    before it, hence the smaller of the cooldown and the cap after it; the
    streak grows by at most one from one reconnect to the next, and the gap
    does not shrink as it grows; the shift does not overflow. *)
Theorem recovers_are_spaced (ms : list moment) (b : EventBridge) (s s' : Z) :
  Forall (fun m => sane (moment_time m)) ms ->
  StronglySorted (fun m m' => unix (moment_time m) <= unix (moment_time m')) ms ->
  1 <= s <= s' ->
  let '(fs, _, _) := run_watchdog deps ms watchdog_init b in
  spaced 0 0 fs
  /\ recoverGapSec deps s <= recoverGapSec deps s'
  /\ recoverGapSec deps s = Z.min (cap_of deps)
       (Z.max (cooldown_of deps) (dp_ThresholdSec deps * 2 ^ Z.min (s - 1) backoffShiftMax)).
Proof.
  intros Hall Hs Hss. pose proof (run_spaced ms watchdog_init b) as Hr.
  destruct (run_watchdog deps ms watchdog_init b) as [[fs w] b']. split_and!.
  - apply Hr; [|done|done|done]. eapply Forall_impl; [exact Hall|]. cbn. intros m Hm. unfold sane in Hm. split; [done|lia].
  - by apply recoverGap_grows.
  - rewrite recoverGap_formula by done. by rewrite (proj2 (Z.ltb_ge s 1)) by lia.
Qed.

(** ** Liveness *)

(** The link is up and nothing has arrived for the threshold. *)
Definition silent_tick (lastEvent : Z) (m : moment) : Prop :=
  match m with
  | MTick now connected => connected = true /\ sane now /\ lastEvent + dp_ThresholdSec deps <= unix now
  | MEvent _ _ => False
  end.

Lemma step_silent now current seq b : sane now -> 0 < br_lastEventUnix b ->
  br_lastEventUnix b + dp_ThresholdSec deps <= unix now ->
  (softStaleStep deps true now current seq b).1.1 = Stale.
Proof.
  intros Hn Hb Hst. unfold softStaleStep, sane in *. rewrite (proj2 (Z.eqb_neq (br_lastEventUnix b) 0)) by lia.
  cbn [negb]. rewrite wrap64_id by lia. rewrite (proj2 (Z.leb_le _ _)) by lia. by destruct current.
Qed.

Lemma tick_current connected now w b :
  wg_current (watchdog_tick deps connected now w b).1.2
  = (softStaleStep deps connected now (wg_current w) (wg_seq w) b).1.1.
Proof.
  unfold watchdog_tick. destruct (softStaleStep _ _ _ _ _ _) as [[c s] b'].
  destruct (negb _ || negb _); [done|]. destruct (wg_current w); try done; by destruct (maybeRecover _ _ _ _ _).
Qed.

Lemma silent_step m w b : 0 < br_lastEventUnix b -> silent_tick (br_lastEventUnix b) m ->
  match m with
  | MTick now connected =>
    let '(_, w', b') := watchdog_tick deps connected now w b in
    wg_current w' = Stale /\ br_lastEventUnix b' = br_lastEventUnix b
  | MEvent _ _ => False
  end.
Proof.
  intros Hb Hm. destruct m as [|now connected]; [done|]. destruct Hm as (-> & Hn & Hst).
  pose proof (tick_clocks true now w b) as [Hc _]. pose proof (tick_current true now w b) as Hw.
  rewrite step_silent in Hw by done. by destruct (watchdog_tick deps true now w b) as [[f w'] b'].
Qed.

Lemma stale_tick_fires now w b : dp_Recover deps = true -> sane now -> wg_current w <> Unknown ->
  0 < br_lastEventUnix b -> br_lastEventUnix b + dp_ThresholdSec deps <= unix now ->
  0 < rv_lastRecoverUnix (wg_rec w) -> rv_lastRecoverUnix (wg_rec w) + longest_gap deps <= unix now ->
  (watchdog_tick deps true now w b).1.1 = true.
Proof.
  intros Hr Hn Hc Hb Hst Hl Hgap. unfold watchdog_tick.
  pose proof (step_silent now (wg_current w) (wg_seq w) b Hn Hb Hst) as Hs.
  destruct (softStaleStep _ _ _ _ _ _) as [[c s] b']. cbn in Hs. subst c. rewrite Hr. cbn [negb orb].
  rewrite bool_decide_eq_true_2 by done. cbn [negb].
  assert (Hcap : 0 < longest_gap deps) by (unfold longest_gap, cap_of; lia).
  pose proof (maybeRecover_spec (br_lastTrafficUnix b') now true (wg_rec w) Hn ltac:(lia)) as H1.
  pose proof (maybeRecover_spec (br_lastTrafficUnix b') now false (wg_rec w) Hn ltac:(lia)) as H2.
  destruct (wg_current w); [| |done].
  - destruct (maybeRecover _ _ _ true _) as [[|] st]; [done|]. destruct H1 as (_ & _ & H1). lia.
  - destruct (maybeRecover _ _ _ false _) as [[|] st]; [done|]. destruct H2 as (_ & _ & H2). lia.
Qed.

(** A silent link keeps being reconnected.  From any state in which one
    reconnect has been made, if the link stays up with no event for the
    threshold or more, then over any two or more ticks reaching the longest
    gap (the larger of the cooldown and the cap) after that reconnect another
    one is started: the backoff never stops the watchdog. *)
Theorem silent_link_recovers (pre : list moment) (now : time) (w : watchdog) (b : EventBridge) :
  dp_Recover deps = true -> pre <> [] -> 0 < br_lastEventUnix b ->
  Forall (silent_tick (br_lastEventUnix b)) (pre ++ [MTick now true]) ->
  StronglySorted (fun m m' => unix (moment_time m) <= unix (moment_time m')) (pre ++ [MTick now true]) ->
  0 < rv_lastRecoverUnix (wg_rec w) <= unix (moment_time (hd (MTick now true) pre)) ->
  rv_lastRecoverUnix (wg_rec w) + longest_gap deps <= unix now ->
  (run_watchdog deps (pre ++ [MTick now true]) w b).1.1 <> [].
Proof.
  intros Hr Hne. revert w b. induction pre as [|m pre IH]; intros w b Hb Hall Hs Hl Hgap; [done|].
  cbn [app hd] in *. inversion Hall as [|? ? Hm Hms]; subst. inversion Hs as [|? ? Hs' Hle]; subst.
  destruct m as [|t connected]; [by destruct Hm|].
  pose proof (silent_step _ w b Hb Hm) as Hstep. destruct Hm as (-> & Hn & Hthr). cbn [run_watchdog moment_time] in *.
  pose proof (tick_spec true t w b Hn ltac:(lia)) as Ht.
  destruct (watchdog_tick deps true t w b) as [[[|] w1] b1].
  { by destruct (run_watchdog deps (pre ++ _) w1 b1) as [[fs w2] b2]. }
  destruct Ht as [Hlast _]. destruct Hstep as [Hc Hb1].
  destruct pre as [|m' pre].
  - cbn [app run_watchdog] in *. inversion Hms as [|? ? Hnow _]; subst. destruct Hnow as (_ & Hnow & Hthr').
    pose proof (stale_tick_fires now w1 b1 Hr Hnow ltac:(by rewrite Hc) ltac:(lia) ltac:(lia) ltac:(lia) ltac:(lia)) as Hf.
    destruct (watchdog_tick deps true now w1 b1) as [[f w2] b2]. cbn in Hf. by subst f.
  - specialize (IH ltac:(done) w1 b1). rewrite Hb1, Hlast in IH.
    destruct (run_watchdog deps ((m' :: pre) ++ _) w1 b1) as [[fs w2] b2]. cbn [fst] in *.
    apply IH; [done|done|done| |done]. cbn [hd]. split; [lia|].
    inversion Hle as [|? ? Hm' _]; subst. cbn in Hm'. lia.
Qed.

End Watch.

(** ** A quiet night *)

#[local] Existing Instance ascii_only_tables.

Definition demo_deps : SoftStaleDeps := mkDeps 60 true 300 600.
Definition night : list moment :=
  MEvent (1000 * second) (translateDomainEvent (DConnection (mkConnectionEvent "c" 0 3)))
  :: map (fun t => MTick (t * second) true) [1020; 1080; 1400; 1700; 2000; 2300; 2600; 2900; 3200].

Lemma recovers_are_spaced_witness :
  (run_watchdog demo_deps night watchdog_init (new_bridge 0)).1.1
    = [(1080, 1); (1400, 2); (1700, 3); (2000, 4); (2600, 5); (3200, 6)]
  /\ let '(fs, _, _) := run_watchdog demo_deps night watchdog_init (new_bridge 0) in spaced demo_deps 0 0 fs.
Proof.
  split; [vm_compute; reflexivity|].
  pose proof (recovers_are_spaced demo_deps ltac:(vm_compute; split; [reflexivity|discriminate]) night (new_bridge 0) 1 2
    ltac:(repeat constructor) ltac:(unfold night; cbn [map]; repeat constructor; vm_compute; discriminate) ltac:(lia)) as Hp.
  destruct (run_watchdog demo_deps night watchdog_init (new_bridge 0)) as [[fs w] b]. exact (proj1 Hp).
Defined.

Definition demo_watchdog : watchdog := mkWatchdog Unknown 3 (mkRecover 1080 1).
Definition demo_bridge : EventBridge := mkBridge 7 [] ∅ [] 1000 900 0 0.

Lemma silent_link_recovers_witness :
  (run_watchdog demo_deps [MTick (1700 * second) true; MTick (1720 * second) true] demo_watchdog demo_bridge).1.1 <> [].
Proof.
  apply (silent_link_recovers demo_deps ltac:(vm_compute; split; [reflexivity|discriminate])
    [MTick (1700 * second) true] (1720 * second) demo_watchdog demo_bridge).
  - reflexivity.
  - discriminate.
  - reflexivity.
  - repeat constructor; vm_compute; discriminate.
  - repeat constructor; vm_compute; discriminate.
  - vm_compute. split; [reflexivity|discriminate].
  - vm_compute. discriminate.
Defined.
