(* ===== verification/Profile.v ===== *)
(** * Profiles: names, paths, and which one a process uses

    [cmd/wad/profile.go], [cmd/wad/profile_resolve.go], [cmd/wa/profile.go] and
    [internal/pairpath].  A profile is a name; everything it owns lives under
    directories called after it, so what keeps two profiles apart is which
    names are accepted.  The environment's directories are parameters; they are
    taken as [filepath.Join] leaves them, so that joining a component adds a
    slash and the component. *)
From S2P Require Import Prelude GoStd.

#[local] Open Scope string_scope.
#[local] Open Scope list_scope.
#[local] Open Scope Z_scope.

(** ** Names *)

Inductive profile_error :=
| EShape (name : string)       (* ErrInvalidProfileName: the regexp *)
| EHyphens (name : string)     (* ErrInvalidProfileName: two hyphens in a row *)
| EReserved (name : string)    (* ErrReservedProfileName *)
| ENotLocal (name : string).   (* ErrInvalidProfileName: not a local path *)

Definition name_byte (c : ascii) : bool := is_lower c || is_digit c || Ascii.eqb c "-".

(** [^[a-z][a-z0-9-]{0,30}[a-z0-9]$]. *)
Fixpoint name_tail (s : string) : bool :=
  match s with
  | EmptyString => false
  | String c EmptyString => is_lower c || is_digit c
  | String c s => name_byte c && name_tail s
  end.
Definition profileNameRegex (s : string) : bool :=
  match s with
  | EmptyString => false
  | String c s => is_lower c && name_tail s && (len s <=? 31)
  end.

Definition reservedProfileNames : list string :=
  ["."; "..";
   "con"; "prn"; "aux"; "nul";
   "com0"; "com1"; "com2"; "com3"; "com4"; "com5"; "com6"; "com7"; "com8"; "com9";
   "lpt0"; "lpt1"; "lpt2"; "lpt3"; "lpt4"; "lpt5"; "lpt6"; "lpt7"; "lpt8"; "lpt9";
   "conin$"; "conout$";
   "wa"; "wad"; "root"; "system";
   "dbus"; "systemd"; "user"; "session";
   "list"; "use"; "create"; "rm"; "show"; "new"; "delete"; "current"; "switch";
   "all"; "none"; "self"; "me"; "migrate";
   "service"; "socket"; "target"; "timer"; "mount"; "path"; "slice"; "scope"; "device"; "swap"].

(** [filepath.IsLocal]: no component leaves the directory it starts in. *)
Fixpoint stays_in (depth : nat) (comps : list string) : bool :=
  match comps with
  | [] => true
  | c :: comps =>
    if String.eqb c ".." then match depth with O => false | S d => stays_in d comps end
    else if String.eqb c "." || str_empty c then stays_in depth comps
    else stays_in (S depth) comps
  end.
Definition IsLocal (path : string) : bool :=
  negb (str_empty path) && negb (has_prefix "/" path) && stays_in 0 (split_byte "/" path).

Definition ValidateProfileName (name : string) : check profile_error :=
  fail_if negb (profileNameRegex name) with EShape name ;;
  fail_if str_contains name "--" with EHyphens name ;;
  fail_if existsb (String.eqb (to_lower_ascii name)) reservedProfileNames with EReserved name ;;
  fail_if negb (IsLocal name) with ENotLocal name ;;
  Ok tt.

Definition DefaultProfile : string := "default".

(** ** Paths *)

Class Xdg := mkXdg {
  DataHome : string; ConfigHome : string; StateHome : string; CacheHome : string;
  TempDir : string;
  socketDir : res string string    (* the runtime directory, or why there is none *)
}.

Definition join (dir name : string) : string := dir +:+ "/" +:+ name.

Section Paths.
Context `{Xdg}.

(** A [PathResolver] is the name it was built with. *)
Abbreviation PathResolver := string.

Definition NewPathResolver (profile : string) : res profile_error PathResolver :=
  let* _ := ValidateProfileName profile in Ok profile.

Definition DataDir (r : PathResolver) : string := join (join DataHome "wa") r.
Definition ConfigDir (r : PathResolver) : string := join (join ConfigHome "wa") r.
Definition StateDir (r : PathResolver) : string := join (join StateHome "wa") r.
Definition CacheDir : string := join CacheHome "wa".
Definition SessionDB (r : PathResolver) : string := join (DataDir r) "session.db".
Definition HistoryDB (r : PathResolver) : string := join (DataDir r) "messages.db".
Definition DraftsDB (r : PathResolver) : string := join (DataDir r) "drafts.db".
Definition ScheduleDB (r : PathResolver) : string := join (DataDir r) "scheduled.db".
Definition WebhooksDB (r : PathResolver) : string := join (DataDir r) "webhooks.db".
Definition ContactsDB (r : PathResolver) : string := join (DataDir r) "contacts.db".
Definition EventsDB (r : PathResolver) : string := join (DataDir r) "events.db".
Definition AllowlistTOML (r : PathResolver) : string := join (ConfigDir r) "allowlist.toml".
Definition ConfigTOML (r : PathResolver) : string := join (ConfigDir r) "config.toml".
Definition AuditLog (r : PathResolver) : string := join (StateDir r) "audit.log".
Definition WadLog (r : PathResolver) : string := join (StateDir r) "wad.log".
Definition BackupsDir (r : PathResolver) : string := join (StateDir r) "backups".
Definition CrashesDir (r : PathResolver) : string := join (StateDir r) "crashes".
Definition MediaRoot : string := join (join CacheDir "media") "sha256".
Definition AvatarRoot : string := join (join (join CacheDir "media") "avatars") "sha256".
Definition ActiveProfileFile : string := join (join ConfigHome "wa") "active-profile".
Definition SchemaVersionFile : string := join (join ConfigHome "wa") ".schema-version".
Definition MigratingMarkerFile : string := join (join ConfigHome "wa") ".migrating".

(** [socket.PathFor]. *)
Definition PathFor (profile : string) : res string string :=
  let* dir := socketDir in Ok (join dir (profile +:+ ".sock")).
Definition SocketPath (r : PathResolver) : res string string := PathFor r.
Definition LockPath (r : PathResolver) : res string string :=
  let* s := SocketPath r in Ok (s +:+ ".lock").
Definition SocketParentDir (r : PathResolver) : res string string :=
  let* _ := SocketPath r in socketDir.

(** [pairpath.Path]. *)
Definition pairpath_Path (profile : string) : string :=
  join TempDir ("wa-pair-" +:+ (if str_empty profile then "default" else profile) +:+ ".html").
Definition PairHTMLPath (r : PathResolver) : string := pairpath_Path r.

End Paths.

(** ** Which profile *)

(** [resolveDaemonProfile], from the arguments after the program's name. *)
Fixpoint profile_flag (args : list string) : option string :=
  match args with
  | [] => None
  | arg :: rest =>
    let next := if String.eqb arg "--profile"
                then match rest with v :: _ => trim_space v | [] => "" end else "" in
    if negb (str_empty next) then Some next
    else
      let inline := if has_prefix "--profile=" arg then trim_space (str_drop 10 arg) else "" in
      if negb (str_empty inline) then Some inline else profile_flag rest
  end.
Definition resolveDaemonProfile (args : list string) (env : string) : string :=
  match profile_flag args with
  | Some name => name
  | None => if str_empty (trim_space env) then DefaultProfile else trim_space env
  end.

Inductive ProfileSource := SourceFlag | SourceEnv | SourceActiveFile | SourceSingleton | SourceDefault.
Definition ProfileSource_String (s : ProfileSource) : string :=
  match s with
  | SourceFlag => "flag" | SourceEnv => "env" | SourceActiveFile => "active-profile-file"
  | SourceSingleton => "singleton" | SourceDefault => "default"
  end.
Record ResolvedProfile := mkResolved { rp_Name : string; rp_Source : ProfileSource }.

Inductive resolve_error :=
| EName (source : ProfileSource) (e : profile_error)
| EMultiple (found : list string).    (* ErrMultipleProfiles *)

Definition is_valid (name : string) : bool := is_ok (ValidateProfileName name).

(** The directories that hold a [session.db], as the glob lists them; [None]
    when it fails. *)
Definition enumerateProfiles (globbed : option (list string)) : option (list string) :=
  List.filter is_valid <$> globbed.

Definition byte_order_mark : string := encode_rune 65279.

Definition named (source : ProfileSource) (name : string) : res resolve_error ResolvedProfile :=
  match ValidateProfileName name with
  | Ok _ => Ok (mkResolved name source)
  | Err e => Err (EName source e)
  end.

(** [active]: the contents of the pointer file, [None] when it cannot be read. *)
Definition ResolveProfile (flagValue env : string) (active : option string) (globbed : option (list string))
    : res resolve_error ResolvedProfile :=
  let flag := trim_space flagValue in
  if negb (str_empty flag) then named SourceFlag flag else
  let env := trim_space env in
  if negb (str_empty env) then named SourceEnv env else
  let s := match active with Some data => trim_space (trim_prefix byte_order_mark data) | None => "" end in
  if negb (str_empty s) then named SourceActiveFile s else
  match enumerateProfiles globbed with
  | None | Some [] => Ok (mkResolved DefaultProfile SourceDefault)
  | Some [p] => Ok (mkResolved p SourceSingleton)
  | Some ps => Err (EMultiple ps)
  end.

(** [sanitizeProfileName]: what may be printed, and whether it was altered or
    is not a name. *)
Definition hex_digit (z : Z) : ascii := chr (if z <? 10 then 48 + z else 87 + z).
Definition hex_byte (c : ascii) : string :=
  "\x" +:+ String (hex_digit (bz c / 16)) (String (hex_digit (bz c mod 16)) "").
Definition sanitize_byte (c : ascii) : string :=
  if (bz c <? 32) || (bz c =? 127) || (128 <=? bz c) then hex_byte c else String c "".
Definition sanitizeProfileName (raw : string) : string * bool :=
  if is_valid raw then (raw, false) else (str_flat_map sanitize_byte raw, true).

(** ** What a valid name is *)

Lemma name_tail_bytes s : name_tail s = true -> s <> "" /\ str_forallb name_byte s = true.
Proof.
  induction s as [|c s IH]; [done|]. cbn [name_tail str_forallb]. intros Ht. split; [done|]. destruct s as [|d s].
  - unfold name_byte. by rewrite Ht.
  - apply andb_true_iff in Ht as [-> Ht]. by apply IH.
Qed.

Lemma valid_name_spec name : ValidateProfileName name = Ok tt ->
  str_forallb name_byte name = true /\ 2 <= len name <= 32
  /\ existsb (String.eqb (to_lower_ascii name)) reservedProfileNames = false.
Proof.
  unfold ValidateProfileName. intros H. peel H. bprop. split_and!; try done.
  1: destruct name as [|c s]; [done|]; cbn in *; bprop; unfold name_byte at 1.
  2-3: destruct name as [|c s]; [done|]; unfold profileNameRegex in *; bprop.
  all: match goal with H : name_tail _ = true |- _ => apply name_tail_bytes in H as [Hne Hs] end.
  - by match goal with H : is_lower c = true |- _ => rewrite H end.
  - apply str_empty_false in Hne. unfold len in *. cbn [String.length].
    destruct s; [done|]. cbn [String.length]. lia.
  - unfold len in *. cbn [String.length]. lia.
Qed.

Lemma name_byte_lower c : name_byte c = true -> is_upper c = false.
Proof.
  unfold name_byte, is_lower, is_digit, is_upper, in_range. intros Hc.
  apply orb_prop in Hc as [Hc|Hc]; [apply orb_prop in Hc as [Hc|Hc]|].
  1,2: bprop; apply andb_false_iff; (left; apply Z.leb_gt; lia) || (right; apply Z.leb_gt; lia).
  apply Ascii.eqb_eq in Hc as ->. reflexivity.
Qed.

Lemma to_lower_name s : str_forallb name_byte s = true -> to_lower_ascii s = s.
Proof.
  unfold to_lower_ascii. induction s as [|c s IH]; [done|]. cbn. rewrite andb_true_iff. intros [Hc Hs].
  rewrite name_byte_lower by done. cbn. by rewrite IH.
Qed.

Lemma valid_not_reserved name r : ValidateProfileName name = Ok tt -> r ∈ reservedProfileNames -> name <> r.
Proof.
  intros (Hb & _ & Hr)%valid_name_spec Hin ->. rewrite to_lower_name in Hr by done.
  apply not_true_iff_false in Hr. apply Hr, existsb_exists. exists r. split; [by apply list_elem_of_In|].
  apply String.eqb_refl.
Qed.

Lemma valid_no_byte name b : ValidateProfileName name = Ok tt -> name_byte b = false -> no_byte b name = true.
Proof.
  intros (Hb & _ & _)%valid_name_spec Hn. eapply str_forallb_impl; [|exact Hb].
  intros c Hc. cbn. destruct (Ascii.eqb_spec c b) as [->|]; [congruence|done].
Qed.

(** ** Places *)

(** [b] is [a], or inside it. *)
Definition under (a b : string) : Prop := b = a \/ exists rest, b = join a rest.

Lemma split_join a b : split_byte "/" (join a b) = split_byte "/" a ++ split_byte "/" b.
Proof.
  unfold join. change ("/" +:+ b) with (String "/" b).
  induction a as [|c a IH]; [done|]. cbn. rewrite IH.
  destruct (Ascii.eqb c "/"); [done|]. pose proof (split_byte_nonempty "/" a) as Hne.
  by destruct (split_byte "/" a).
Qed.

Lemma split_inj a b : split_byte "/" a = split_byte "/" b -> a = b.
Proof. intros E. rewrite <- (join_split "/" a), <- (join_split "/" b). by rewrite E. Qed.

Lemma under_split a b : under a b <-> exists l, split_byte "/" b = split_byte "/" a ++ l.
Proof.
  split.
  - intros [->|[r ->]]; [exists []; by rewrite app_nil_r|]. exists (split_byte "/" r). apply split_join.
  - intros [l E]. destruct l as [|w l]; [left; rewrite app_nil_r in E; by apply split_inj|right].
    exists (join_byte "/" (w :: l)). apply split_inj. rewrite split_join, E. f_equal.
    assert (Hl : Forall (fun w => no_byte "/" w = true) (w :: l)).
    { pose proof (split_byte_no "/" b) as Hb. rewrite E in Hb. by apply Forall_app in Hb as [_ Hb]. }
    clear E. revert w Hl. induction l as [|v l IH]; intros w Hl; inversion Hl; subst.
    + symmetry. by apply split_byte_none.
    + cbn [join_byte]. rewrite split_byte_one by done. f_equal. by apply IH.
Qed.

Lemma split_dir home name : no_byte "/" name = true ->
  split_byte "/" (join (join home "wa") name) = split_byte "/" home ++ ["wa"; name].
Proof.
  intros Hn. rewrite !split_join, (split_byte_none "/" name) by done. cbn. by rewrite <- app_assoc.
Qed.

(** Two homes with a component called [wa] and a last one each: what it takes
    for one directory to be inside the other. *)
Lemma under_dir home home' name name' :
  no_byte "/" name = true -> no_byte "/" name' = true ->
  under (join (join home "wa") name) (join (join home' "wa") name') ->
  (home = home' /\ name = name') \/ name = "wa" \/ under (join home "wa") home'.
Proof.
  intros Hn Hn' [l E]%under_split. rewrite !split_dir in E by done. rewrite <- app_assoc in E.
  symmetry in E. apply app_eq_app in E as (m & [[E1 E2]|[E1 E2]]).
  - destruct m as [|x m]; [|apply (f_equal length) in E2; cbn in E2; rewrite length_app in E2; cbn in E2; lia].
    left. cbn in E2. rewrite app_nil_r in E1. apply split_inj in E1 as ->. by injection E2 as ->.
  - destruct m as [|x [|y m]]; cbn in E2.
    + left. rewrite app_nil_r in E1. apply split_inj in E1 as ->. by injection E2 as ->.
    + injection E2 as <- -> _. right. by left.
    + right. right. injection E2 as <- <- E2. apply under_split. exists (name :: m).
      rewrite split_join, E1. cbn. by rewrite <- app_assoc.
Qed.

Lemma common_under a b x : under a x -> under b x -> under a b \/ under b a.
Proof.
  intros [l1 E1]%under_split [l2 E2]%under_split. rewrite E1 in E2.
  apply app_eq_app in E2 as (m & [[E _]|[E _]]); [right|left]; apply under_split; eauto.
Qed.

Section Isolation.
Context `{Xdg}.

(** What a profile owns, and what all profiles share. *)
Definition roots (p : string) : list string := [DataDir p; ConfigDir p; StateDir p].
Definition shared_files : list string := [ActiveProfileFile; SchemaVersionFile; MigratingMarkerFile].
Definition owned_files (p : string) : list string :=
  [SessionDB p; HistoryDB p; DraftsDB p; ScheduleDB p; WebhooksDB p; ContactsDB p; EventsDB p;
   AllowlistTOML p; ConfigTOML p; AuditLog p; WadLog p; BackupsDir p; CrashesDir p].

(** No home is inside another's [wa] directory. *)
Definition homes_apart : Prop :=
  forall h h', h ∈ [DataHome; ConfigHome; StateHome] -> h' ∈ [DataHome; ConfigHome; StateHome] ->
  ~ under (join h "wa") h'.

Lemma root_home p a : a ∈ roots p -> exists h, h ∈ [DataHome; ConfigHome; StateHome] /\ a = join (join h "wa") p.
Proof.
  unfold roots. rewrite !elem_of_cons, elem_of_nil. intros [->|[->|[->|[]]]]; eexists; (split; [|reflexivity]); set_solver.
Qed.

Lemma root_under p a h' name : homes_apart -> ValidateProfileName p = Ok tt -> a ∈ roots p ->
  h' ∈ [DataHome; ConfigHome; StateHome] -> no_byte "/" name = true ->
  under a (join (join h' "wa") name) -> p = name.
Proof.
  intros Hap Hp (h & Hh & ->)%root_home Hh' Hn Hu.
  apply under_dir in Hu as [[_ E]|[E|E]]; [done| | |by apply valid_no_byte|done].
  - exfalso. eapply (valid_not_reserved p "wa"); [done| |done]. set_solver.
  - exfalso. exact (Hap _ _ Hh Hh' E).
Qed.

Lemma owned_under p : Forall (fun f => exists a, a ∈ roots p /\ under a f) (owned_files p).
Proof.
  assert (Hin : forall d name, d ∈ roots p -> exists a, a ∈ roots p /\ under a (join d name)).
  { intros d name Hd. exists d. split; [done|]. right. by exists name. }
  unfold owned_files. repeat first [apply Forall_nil_2 | apply Forall_cons_2; [apply Hin; unfold roots; set_solver|]].
Qed.

(** C37. Profiles are kept apart by their names.  For two different accepted
    names, on homes that are not nested in each other's data, nothing at all
    lies under a directory of both; every file of a profile lies under one of
    its own directories; the one file all profiles share that can lie under a
    profile's directory is the pointer to the active profile, and only under
    that of a profile called active-profile, a name the rule accepts; and the
    two have different sockets, locks and pairing pages. *)
Theorem profiles_isolated (p q d : string) :
  homes_apart -> ValidateProfileName p = Ok tt -> ValidateProfileName q = Ok tt -> p <> q ->
  socketDir = Ok d ->
  (forall a b x, a ∈ roots p -> b ∈ roots q -> under a x -> under b x -> False)
  /\ Forall (fun f => exists a, a ∈ roots p /\ under a f) (owned_files p)
  /\ (forall a f, a ∈ roots p -> f ∈ shared_files -> under a f -> p = "active-profile" /\ f = ActiveProfileFile)
  /\ SocketPath p <> SocketPath q /\ LockPath p <> LockPath q /\ LockPath p <> SocketPath q
  /\ PairHTMLPath p <> PairHTMLPath q.
Proof.
  intros Hap Hp Hq Hne Hd. split_and!.
  - intros a b x Ha Hb Hax Hbx.
    pose proof (root_home p a Ha) as (h & Hh & Ea). pose proof (root_home q b Hb) as (h' & Hh' & Eb).
    destruct (common_under a b x Hax Hbx) as [Hu|Hu].
    + rewrite Eb in Hu. apply Hne. eapply (root_under p a h' q); try done. by apply valid_no_byte.
    + rewrite Ea in Hu. apply Hne. symmetry. eapply (root_under q b h p); try done. by apply valid_no_byte.
  - apply owned_under.
  - intros a f Ha Hf Hu. unfold shared_files in Hf. rewrite !elem_of_cons, elem_of_nil in Hf.
    assert (Hp' : forall name, no_byte "/" name = true -> under a (join (join ConfigHome "wa") name) -> p = name)
      by (intros name Hn; apply (root_under p a ConfigHome); (done || set_solver)).
    apply valid_name_spec in Hp as (Hb & _).
    destruct Hf as [->|[->|[->|[]]]]; apply Hp' in Hu as ->; done.
  - unfold SocketPath, PathFor. rewrite Hd. cbn. intros [= E]. apply append_inj_l in E.
    injection E as E. by apply str_app_inj_r in E.
  - unfold LockPath, SocketPath, PathFor. rewrite Hd. cbn. intros [= E]. apply str_app_inj_r, append_inj_l in E.
    injection E as E. by apply str_app_inj_r in E.
  - unfold LockPath, SocketPath, PathFor. rewrite Hd. cbn. intros [= E]. unfold join in E.
    rewrite <- !str_app_assoc in E. apply append_inj_l in E. injection E as E.
    assert (Hdot : no_byte "." p = true) by by apply valid_no_byte.
    assert (Hdot' : no_byte "." q = true) by by apply valid_no_byte.
    pose proof (split_byte_one "." p ("sock" +:+ ".lock") Hdot) as S1.
    pose proof (split_byte_one "." q "sock" Hdot') as S2.
    cbn in E, S1, S2. rewrite E in S1. rewrite S1 in S2. discriminate S2.
  - unfold PairHTMLPath, pairpath_Path.
    apply valid_name_spec in Hp as (_ & Hlp & _). apply valid_name_spec in Hq as (_ & Hlq & _).
    assert (str_empty p = false) as -> by (apply str_empty_false; intros ->; unfold len in Hlp; cbn in Hlp; lia).
    assert (str_empty q = false) as -> by (apply str_empty_false; intros ->; unfold len in Hlq; cbn in Hlq; lia).
    intros E. apply append_inj_l in E. injection E as E. by apply str_app_inj_r in E.
Qed.

(** The name the rule forgot: its configuration directory is the pointer file. *)
Lemma active_profile_collides :
  is_valid "active-profile" = true /\ ConfigDir "active-profile" = ActiveProfileFile.
Proof. by vm_compute is_valid. Qed.

End Isolation.

(** ** Resolution *)

(** The first of the three hints that is not blank. *)
Definition hint (flagValue env : string) (active : option string) : option (ProfileSource * string) :=
  let nonblank (s : ProfileSource) (v : string) := if str_empty v then None else Some (s, v) in
  match nonblank SourceFlag (trim_space flagValue), nonblank SourceEnv (trim_space env) with
  | Some x, _ => Some x
  | None, Some x => Some x
  | None, None => data ← active; nonblank SourceActiveFile (trim_space (trim_prefix byte_order_mark data))
  end.

Lemma default_valid : is_valid DefaultProfile = true.
Proof. reflexivity. Qed.

Lemma filter_one p l : List.filter is_valid l = [p] -> is_valid p = true.
Proof. intros E. eapply (proj2 (A := In p l)), filter_In. rewrite E. by left. Qed.

(** Which profile a command uses.  Whatever the flag, the environment, the
    pointer file and the disk hold, the name that comes out is an accepted
    one; the first hint that is not blank decides alone, and a bad one is an
    error, never passed over; without a hint a profile is picked only when the
    disk leaves no choice, and otherwise the error lists every candidate; and
    a daemon given the same flag or environment uses the same profile. *)
Theorem profile_resolution (flagValue env : string) (active : option string) (globbed : option (list string)) :
  match ResolveProfile flagValue env active globbed with
  | Ok r =>
    is_valid (rp_Name r) = true
    /\ match hint flagValue env active with
       | Some (source, name) =>
         r = mkResolved name source
         /\ (source = SourceFlag -> resolveDaemonProfile ["--profile"; flagValue] env = name)
         /\ (source = SourceEnv -> resolveDaemonProfile [] env = name)
       | None =>
         match enumerateProfiles globbed with
         | Some (p :: ps) => r = mkResolved p SourceSingleton /\ ps = []
         | _ => r = mkResolved DefaultProfile SourceDefault
         end
       end
  | Err (EName source e) => exists name, hint flagValue env active = Some (source, name)
                            /\ ValidateProfileName name = Err e
  | Err (EMultiple ps) => hint flagValue env active = None /\ enumerateProfiles globbed = Some ps
                          /\ (2 <= length ps)%nat
  end.
Proof.
  unfold ResolveProfile, hint, named.
  destruct (str_empty (trim_space flagValue)) eqn:Ef; cbn [negb].
  2: { destruct (ValidateProfileName _) as [[]|e] eqn:Ev; [|by eexists]. cbn [rp_Name]. unfold is_valid. rewrite Ev.
       split_and!; try done. intros _. unfold resolveDaemonProfile, profile_flag. cbn [String.eqb Ascii.eqb Bool.eqb].
       by rewrite Ef. }
  destruct (str_empty (trim_space env)) eqn:Ee; cbn [negb].
  2: { destruct (ValidateProfileName _) as [[]|e] eqn:Ev; [|by eexists]. cbn [rp_Name]. unfold is_valid. rewrite Ev.
       split_and!; try done. intros _. unfold resolveDaemonProfile. cbn [profile_flag]. by rewrite Ee. }
  set (a := match active with Some data => _ | None => _ end).
  destruct (str_empty a) eqn:Ea; cbn [negb].
  - assert (Hh : (data ← active;
      (if str_empty (trim_space (trim_prefix byte_order_mark data)) then None
       else Some (SourceActiveFile, trim_space (trim_prefix byte_order_mark data)))) = None).
    { subst a. destruct active as [data|]; cbn [mbind option_bind]; [by rewrite Ea|done]. }
    rewrite Hh. unfold enumerateProfiles.
    destruct globbed as [l|]; cbn [fmap option_fmap option_map]; [|cbn [rp_Name]; by rewrite default_valid].
    destruct (List.filter is_valid l) as [|p [|q ps]] eqn:El; cbn [rp_Name]; rewrite ?default_valid; [done| |].
    + apply filter_one in El as ->. done.
    + split_and!; try done. cbn. lia.
  - subst a. destruct active as [data|]; [|done]. cbn [mbind option_bind]. rewrite Ea.
    destruct (ValidateProfileName _) as [[]|e] eqn:Ev; [|by eexists]. cbn [rp_Name]. unfold is_valid. by rewrite Ev.
Qed.

(** A name from the disk cannot drive the terminal it is printed on. *)
Definition printable (c : ascii) : bool := (32 <=? bz c) && (bz c <? 127).

Lemma bz_chr z : 0 <= z < 256 -> bz (chr z) = z.
Proof. intros Hz. unfold bz, chr. rewrite N_ascii_embedding; [lia|]. change 256%N with (Z.to_N 256). lia. Qed.

Lemma hex_digit_printable z : 0 <= z < 16 -> printable (hex_digit z) = true.
Proof.
  intros Hz. unfold hex_digit, printable. destruct (Z.ltb_spec z 10); rewrite bz_chr by lia;
    by rewrite (proj2 (Z.leb_le _ _)), (proj2 (Z.ltb_lt _ _)) by lia.
Qed.

Lemma bz_range c : 0 <= bz c < 256.
Proof. unfold bz. pose proof (N_ascii_bounded c). lia. Qed.

Lemma sanitize_bytes raw : str_forallb printable (str_flat_map sanitize_byte raw) = true.
Proof.
  induction raw as [|c s IH]; [done|]. cbn [str_flat_map]. rewrite str_forallb_app, IH, andb_true_r.
  pose proof (bz_range c) as Hc. unfold sanitize_byte.
  destruct ((bz c <? 32) || (bz c =? 127) || (128 <=? bz c)) eqn:E.
  - unfold hex_byte. rewrite str_forallb_app. cbn [str_forallb].
    pose proof (Z.mod_pos_bound (bz c) 16). assert (0 <= bz c / 16 < 16) by (split; [apply Z.div_pos|apply Z.div_lt_upper_bound]; lia).
    by rewrite !hex_digit_printable by lia.
  - bprop. cbn [str_forallb]. unfold printable. by rewrite (proj2 (Z.leb_le _ _)), (proj2 (Z.ltb_lt _ _)) by lia.
Qed.

Lemma sanitized_printable raw : str_forallb printable (sanitizeProfileName raw).1 = true.
Proof.
  unfold sanitizeProfileName. destruct (is_valid raw) eqn:Hv; cbn [fst]; [|apply sanitize_bytes].
  unfold is_valid in Hv. destruct (ValidateProfileName raw) as [[]|] eqn:E; [|done].
  apply valid_name_spec in E as (Hb & _ & _). eapply str_forallb_impl; [|exact Hb].
  intros c. unfold name_byte, is_lower, is_digit, in_range, printable. intros Hc.
  apply andb_true_iff. rewrite Z.leb_le, Z.ltb_lt.
  apply orb_prop in Hc as [Hc|Hc]; [apply orb_prop in Hc as [Hc|Hc]; bprop; lia|].
  apply Ascii.eqb_eq in Hc as ->. by vm_compute.
Qed.

(** ** Two profiles of one user *)

Definition demo_xdg : Xdg :=
  mkXdg "/home/u/.local/share" "/home/u/.config" "/home/u/.local/state" "/home/u/.cache" "/tmp"
    (Ok "/run/user/1000/wa").

Lemma demo_apart : @homes_apart demo_xdg.
Proof.
  intros h h' Hh Hh' Hu. apply under_split in Hu as [l E].
  rewrite !elem_of_cons, elem_of_nil in Hh, Hh'.
  destruct Hh as [->|[->|[->|[]]]], Hh' as [->|[->|[->|[]]]]; vm_compute in E; discriminate E.
Qed.

Lemma profiles_isolated_witness :
  @homes_apart demo_xdg /\ @SocketPath demo_xdg "work" <> @SocketPath demo_xdg "default".
Proof.
  split; [exact demo_apart|].
  apply (@profiles_isolated demo_xdg "work" "default" "/run/user/1000/wa" demo_apart
    ltac:(vm_compute; reflexivity) ltac:(vm_compute; reflexivity) ltac:(discriminate) ltac:(reflexivity)).
Defined.
