(* ===== verification/FileSys.v ===== *)
(** * A file system, programs over it, and crashes

    The calls of Go's [os] package that the daemon's migration makes, as
    operations on a map from paths to nodes; programs as sequences of such
    calls, any of which may fail for a reason of the system's own, and between
    any two of which the process may be killed; and the triples the programs
    are proved with.  [hoare G P m Q]: from a state in [P], [m] ends with a
    value and a state in [Q], or the system kills the process, and then leaves
    a state in [G].  Killing the process keeps what it wrote; losing power is not
    modelled.  Symbolic links are followed at the last component only. *)
From S2P Require Import Prelude GoStd Errors Profile.

#[local] Open Scope string_scope.
#[local] Open Scope list_scope.
#[local] Open Scope Z_scope.

(** ** Nodes and paths *)

Inductive node := NDir | NFile (content : string) | NLink (target : string).
Abbreviation fs := (gmap string node).

Inductive errno := ENOENT | EEXIST | ENOTDIR | EISDIR | ENOTEMPTY | ELOOP | EIO (why : string).
#[global] Instance errno_eq_dec : EqDecision errno.
Proof. solve_decision. Defined.

(** As errors of package os. *)
Definition ErrNotExist : goerr := ENew "file does not exist".
Definition is_not_exist (e : goerr) : bool := bool_decide (leaf e = ErrNotExist).
Definition os_error (e : errno) : goerr :=
  match e with
  | ENOENT => ErrNotExist
  | EEXIST => ENew "file exists"
  | ENOTDIR => ENew "not a directory"
  | EISDIR => ENew "is a directory"
  | ENOTEMPTY => ENew "directory not empty"
  | ELOOP => ENew "too many levels of symbolic links"
  | EIO why => ENew why
  end.

(** [filepath.Dir] and [filepath.Base], of a path with at least one slash. *)
Definition dir_of (p : string) : string := join_byte "/" (removelast (split_byte "/" p)).
Definition base_of (p : string) : string := List.last (split_byte "/" p) "".

(** Paths are put together with [join]. *)
Lemma split_last a b : no_byte "/" b = true -> split_byte "/" (join a b) = split_byte "/" a ++ [b].
Proof. intros Hb. by rewrite split_join, (split_byte_none "/" b). Qed.

Lemma base_join a b : no_byte "/" b = true -> base_of (join a b) = b.
Proof. intros Hb. unfold base_of. by rewrite split_last, last_last. Qed.

Lemma dir_join a b : no_byte "/" b = true -> dir_of (join a b) = a.
Proof. intros Hb. unfold dir_of. by rewrite split_last, removelast_last, join_split. Qed.

(** ** Operations *)

Fixpoint follow (n : nat) (f : fs) (p : string) : res errno node :=
  match f !! p with
  | None => Err ENOENT
  | Some (NLink t) => match n with O => Err ELOOP | S n => follow n f t end
  | Some x => Ok x
  end.
Definition fs_stat (p : string) (f : fs) : res errno node := follow 40 f p.
Definition is_dir (p : string) (f : fs) : bool :=
  match fs_stat p f with Ok NDir => true | _ => false end.
Definition parent_ok (p : string) (f : fs) : bool := str_empty (dir_of p) || is_dir (dir_of p) f.

Definition fs_lstat (p : string) (f : fs) : res errno node :=
  match f !! p with None => Err ENOENT | Some x => Ok x end.
Definition fs_read (p : string) (f : fs) : res errno string :=
  match fs_stat p f with Ok (NFile c) => Ok c | Ok _ => Err EISDIR | Err e => Err e end.
Definition fs_mkdir (p : string) (f : fs) : res errno unit * fs :=
  if bool_decide (is_Some (f !! p)) then (Err EEXIST, f)
  else if negb (parent_ok p f) then (Err ENOENT, f)
  else (Ok tt, <[p := NDir]> f).

Definition children (p : string) (f : fs) : list string :=
  List.filter (fun k => String.eqb (dir_of k) p) (map fst (map_to_list f)).

(** The tree below [a], moved below [b]. *)
Definition rebase (a b k : string) : string :=
  if String.eqb k a then b
  else if has_prefix (a +:+ "/") k then b +:+ str_drop (String.length a) k else k.
Definition move_tree (a b : string) (f : fs) : fs :=
  list_to_map (map (fun kv => (rebase a b kv.1, kv.2)) (map_to_list f)).

Definition fs_rename (a b : string) (f : fs) : res errno unit * fs :=
  match f !! a with
  | None => (Err ENOENT, f)
  | Some x =>
    if negb (parent_ok b f) then (Err ENOENT, f)
    else match x, f !! b with
         | NDir, Some NDir => match children b f with
                              | [] => (Ok tt, move_tree a b (delete b f))
                              | _ => (Err ENOTEMPTY, f)
                              end
         | NDir, Some _ => (Err ENOTDIR, f)
         | NDir, None => (Ok tt, move_tree a b f)
         | _, Some NDir => (Err EISDIR, f)
         | _, _ => (Ok tt, <[b := x]> (delete a f))
         end
  end.

Definition fs_remove (p : string) (f : fs) : res errno unit * fs :=
  match f !! p with
  | None => (Err ENOENT, f)
  | Some NDir => match children p f with [] => (Ok tt, delete p f) | _ => (Err ENOTEMPTY, f) end
  | Some _ => (Ok tt, delete p f)
  end.

(** [O_CREATE|O_EXCL], and what is written to the open file. *)
Definition fs_create (p : string) (f : fs) : res errno unit * fs :=
  if bool_decide (is_Some (f !! p)) then (Err EEXIST, f)
  else if negb (parent_ok p f) then (Err ENOENT, f)
  else (Ok tt, <[p := NFile ""]> f).
Definition fs_append (p data : string) (f : fs) : fs :=
  match f !! p with Some (NFile c) => <[p := NFile (c +:+ data)]> f | _ => f end.

Definition fs_readdir (p : string) (f : fs) : res errno (list (string * node)) :=
  match fs_stat p f with
  | Ok NDir => Ok (List.filter (fun kv => String.eqb (dir_of kv.1) p) (map_to_list f))
  | Ok _ => Err ENOTDIR
  | Err e => Err e
  end.

(** ** Programs *)

Inductive sysop :=
| SStat | SLstat | SRead | SMkdir | SChmod | SCreate | SWrite | SSync | SClose | SRename | SRemove
| SReadDir | SOpen | SSQL | SChtimes.
#[global] Instance sysop_eq_dec : EqDecision sysop.
Proof. solve_decision. Defined.

(** What the system does to one run: at which call it kills the process,
    which calls fail for a reason of its own, and how many bytes of a write
    that fails, or is killed, are in the file all the same. *)
Class Os := mkOs {
  os_crash : nat -> bool; os_fault : nat -> sysop -> option string; os_short : nat -> nat }.

(** What does not change: owners and devices, and the name [os.CreateTemp]
    finds, a free one with the prefix it is given. *)
Class Machine := {
  device : string -> Z; owner : string -> Z; euid : Z;
  temp_name : string -> fs -> string;
  temp_free : forall pre f, f !! temp_name pre f = None;
  temp_shape : forall pre f, exists suf, temp_name pre f = pre +:+ suf /\ no_byte "/" suf = true
}.

Inductive outcome (A : Type) :=
| Done (a : A) (k : nat) (f : fs)
| Crashed (f : fs).
Arguments Done {A} a k f.
Arguments Crashed {A} f.

Definition prog (A : Type) : Type := nat -> fs -> outcome A.
Definition ret {A} (a : A) : prog A := fun k f => Done a k f.
Definition bind {A B} (m : prog A) (g : A -> prog B) : prog B :=
  fun k f => match m k f with Done a k f => g a k f | Crashed f => Crashed f end.

Declare Scope prog_scope.
Delimit Scope prog_scope with prog.
Notation "'let!' x ':=' m 'in' k" := (bind m (fun x => k))
  (at level 10, x pattern, m at level 100, k at level 200) : prog_scope.
#[local] Open Scope prog_scope.

Section Calls.
Context `{Os, Machine}.

Definition call {A} (o : sysop) (op : fs -> res errno A * fs) : prog (res errno A) :=
  fun k f =>
    if os_crash k then Crashed f
    else match os_fault k o with
         | Some why => Done (Err (EIO why)) (S k) f
         | None => let '(r, f) := op f in Done r (S k) f
         end.
Definition ask {A} (o : sysop) (q : fs -> res errno A) : prog (res errno A) := call o (fun f => (q f, f)).

Definition Stat (p : string) := ask SStat (fs_stat p).
Definition Lstat (p : string) := ask SLstat (fs_lstat p).
Definition ReadFile (p : string) := ask SRead (fs_read p).
Definition ReadDir (p : string) := ask SReadDir (fs_readdir p).
Definition Open (p : string) := ask SOpen (fun f => res_map (fun _ => tt) (fs_stat p f)).
Definition Chmod (p : string) := ask SChmod (fun f => res_map (fun _ => tt) (fs_stat p f)).
Definition Sync : prog (res errno unit) := ask SSync (fun _ => Ok tt).
Definition Close : prog (res errno unit) := ask SClose (fun _ => Ok tt).
Definition Mkdir (p : string) := call SMkdir (fs_mkdir p).
Definition Rename (a b : string) := call SRename (fs_rename a b).
Definition Remove (p : string) := call SRemove (fs_remove p).
Definition Create (p : string) := call SCreate (fs_create p).
(** The bytes go in one after the other: a write that does not end well leaves
    the first of them. *)
Definition Write (p data : string) : prog (res errno unit) :=
  fun k f =>
    if os_crash k then Crashed (fs_append p (str_take (os_short k) data) f)
    else match os_fault k SWrite with
         | Some why => Done (Err (EIO why)) (S k) (fs_append p (str_take (os_short k) data) f)
         | None => Done (Ok tt) (S k) (fs_append p data f)
         end.
(** [os.CreateTemp(dir, pattern)] *)
Definition CreateTemp (pre : string) : prog (res errno string) :=
  call SCreate (fun f => let name := temp_name pre f in
                         let '(r, f) := fs_create name f in (res_map (fun _ => name) r, f)).

(** [os.MkdirAll]; [n] bounds the depth of the path. *)
Fixpoint mkdir_all (n : nat) (p : string) : prog (res errno unit) :=
  match n with
  | O => ret (Err ELOOP)
  | S n =>
    let! st := Stat p in
    match st with
    | Ok NDir => ret (Ok tt)
    | Ok _ => ret (Err ENOTDIR)
    | Err _ =>
      let! up := (if str_empty (dir_of p) then ret (Ok tt) else mkdir_all n (dir_of p)) in
      match up with
      | Err e => ret (Err e)
      | Ok _ =>
        let! r := Mkdir p in
        match r with
        | Ok _ => ret (Ok tt)
        | Err e => let! l := Lstat p in
                   match l with Ok NDir => ret (Ok tt) | _ => ret (Err e) end
        end
      end
    end
  end.
Definition MkdirAll (p : string) : prog (res errno unit) := mkdir_all (S (String.length p)) p.

End Calls.

(** ** What the operations answer *)

Lemma stat_none p f : f !! p = None -> fs_stat p f = Err ENOENT.
Proof. intros E. unfold fs_stat. cbn [follow]. by rewrite E. Qed.
Lemma stat_some p f x : f !! p = Some x -> (forall t, x <> NLink t) -> fs_stat p f = Ok x.
Proof. intros E Hx. unfold fs_stat. cbn [follow]. rewrite E. destruct x; try done. by destruct (Hx target). Qed.
Lemma is_dir_intro p f : f !! p = Some NDir -> is_dir p f = true.
Proof. intros E. unfold is_dir. by rewrite (stat_some p f NDir). Qed.

(** ** Triples *)

Section Rules.
Context {os : Os}.

Definition kills : Prop := exists k, os_crash k = true.
Definition hoare {A} (G P : fs -> Prop) (m : prog A) (Q : A -> fs -> Prop) : Prop :=
  forall k f, P f -> match m k f with Done a _ f => Q a f | Crashed f => G f /\ kills end.

Context {G : fs -> Prop}.

Lemma h_ret {A} (a : A) (P : fs -> Prop) (Q : A -> fs -> Prop) : (forall f, P f -> Q a f) -> hoare G P (ret a) Q.
Proof. intros HQ k f Hf. by apply HQ. Qed.

Lemma h_bind {A B} (m : prog A) (g : A -> prog B) P Q R :
  hoare G P m Q -> (forall a, hoare G (Q a) (g a) R) -> hoare G P (bind m g) R.
Proof.
  intros Hm Hg k f Hf. unfold bind. specialize (Hm k f Hf). destruct (m k f) as [a k' f'|f']; [|done].
  by apply Hg.
Qed.

Lemma h_conseq {A} (m : prog A) (P P' : fs -> Prop) (Q Q' : A -> fs -> Prop) :
  hoare G P' m Q' -> (forall f, P f -> P' f) -> (forall a f, Q' a f -> Q a f) -> hoare G P m Q.
Proof. intros Hm HP HQ k f Hf. specialize (Hm k f (HP f Hf)). destruct (m k f); auto. Qed.

Lemma h_pre {A} (m : prog A) (P : fs -> Prop) Q : (forall f, P f -> hoare G (eq f) m Q) -> hoare G P m Q.
Proof. intros Hm k f Hf. by apply (Hm f Hf). Qed.

(** A fact about no state. *)
Lemma h_pure {A} (m : prog A) (P : fs -> Prop) (X : Prop) Q Q' :
  hoare G P m Q -> (forall a f, Q a f -> X -> Q' a f) -> hoare G (fun f => P f /\ X) m Q'.
Proof. intros Hm HQ k f [Hf HX]. specialize (Hm k f Hf). destruct (m k f); auto. Qed.

Lemma h_if {A} (b : bool) (m1 m2 : prog A) P Q :
  (b = true -> hoare G P m1 Q) -> (b = false -> hoare G P m2 Q) -> hoare G P (if b then m1 else m2) Q.
Proof. destruct b; auto. Qed.

(** A call that may fail on its own account. *)
Lemma h_call {A} (o : sysop) (op : fs -> res errno A * fs) P (Q : res errno A -> fs -> Prop) :
  (forall f, P f -> G f) -> (forall f, P f -> Q (op f).1 (op f).2) ->
  (forall f k why, os_fault k o = Some why -> P f -> Q (Err (EIO why)) f) ->
  hoare G P (call o op) Q.
Proof.
  intros HG Hop Hf k f HP. unfold call. destruct (os_crash k) eqn:K; [split; [by apply HG|by exists k]|].
  destruct (os_fault k o) eqn:E; [by eapply Hf|]. specialize (Hop f HP). by destruct (op f).
Qed.

Lemma h_write p data P (Q : res errno unit -> fs -> Prop) :
  (forall f n, P f -> G (fs_append p (str_take n data) f)) -> (forall f, P f -> Q (Ok tt) (fs_append p data f)) ->
  (forall f k why n, os_fault k SWrite = Some why -> P f -> Q (Err (EIO why)) (fs_append p (str_take n data) f)) ->
  hoare G P (Write p data) Q.
Proof.
  intros HG Hop Hf k f HP. unfold Write. destruct (os_crash k) eqn:K; [split; [by apply HG|by exists k]|].
  destruct (os_fault k SWrite) eqn:E; [by eapply Hf|by apply Hop].
Qed.

(** A call that does not. *)
Lemma h_call_sound {A} (o : sysop) (op : fs -> res errno A * fs) P (Q : res errno A -> fs -> Prop) :
  (forall k, os_fault k o = None) -> (forall f, P f -> G f) -> (forall f, P f -> Q (op f).1 (op f).2) ->
  hoare G P (call o op) Q.
Proof.
  intros Hs HG Hop k f HP. unfold call. destruct (os_crash k) eqn:K; [split; [by apply HG|by exists k]|].
  rewrite Hs. specialize (Hop f HP). by destruct (op f).
Qed.

Lemma h_ask {A} (o : sysop) (q : fs -> res errno A) P (Q : res errno A -> fs -> Prop) :
  (forall f, P f -> G f) -> (forall r f, P f -> (r = q f \/ exists k why, os_fault k o = Some why /\ r = Err (EIO why)) -> Q r f) ->
  hoare G P (ask o q) Q.
Proof. intros HG HQ. apply h_call; [done| |]; intros f; cbn; eauto 6. Qed.

Lemma h_ask_sound {A} (o : sysop) (q : fs -> res errno A) P (Q : res errno A -> fs -> Prop) :
  (forall k, os_fault k o = None) -> (forall f, P f -> G f) -> (forall f, P f -> Q (q f) f) ->
  hoare G P (ask o q) Q.
Proof. intros Hs HG HQ. by apply h_call_sound. Qed.

End Rules.

Definition end_of {A} (o : outcome A) : fs := match o with Done _ _ f => f | Crashed f => f end.

(** ** A machine, and some of the things that happen to a run *)

Definition longest (f : fs) : nat := list_max (map (fun kv => String.length kv.1) (map_to_list f)).
Fixpoint zeros (n : nat) : string := match n with O => "" | S n => String "0" (zeros n) end.
Definition demo_temp (pre : string) (f : fs) : string := pre +:+ zeros (S (longest f)).

Lemma zeros_length n : String.length (zeros n) = n.
Proof. induction n; cbn; congruence. Qed.
Lemma demo_temp_free pre f : f !! demo_temp pre f = None.
Proof.
  destruct (f !! demo_temp pre f) as [x|] eqn:E; [|done]. exfalso. apply elem_of_map_to_list, list_elem_of_In in E.
  pose proof (proj1 (list_max_le (map (fun kv : string * node => String.length kv.1) (map_to_list f)) (longest f)) (le_n _)) as Hm.
  rewrite List.Forall_forall in Hm. apply (in_map (fun kv : string * node => String.length kv.1)), Hm in E. cbn [fst] in E.
  unfold demo_temp in E. rewrite str_app_length, zeros_length in E. lia.
Qed.
Lemma demo_temp_shape pre f : exists suf, demo_temp pre f = pre +:+ suf /\ no_byte "/" suf = true.
Proof.
  exists (zeros (S (longest f))). split; [done|]. generalize (S (longest f)). intros n. induction n as [|n IH]; [done|exact IH].
Qed.

Definition demo_machine : Machine :=
  {| device := fun _ => 1; owner := fun _ => 1000; euid := 1000; temp_name := demo_temp;
     temp_free := demo_temp_free; temp_shape := demo_temp_shape |}.

Definition calm : Os := mkOs (fun _ => false) (fun _ _ => None) (fun _ => 0%nat).
Definition killed_at (n : nat) : Os := mkOs (fun k => Nat.eqb k n) (fun _ _ => None) (fun _ => 1%nat).
Definition failing_at (n : nat) : Os := mkOs (fun _ => false) (fun k _ => if Nat.eqb k n then Some "EINTR" else None) (fun _ => 1%nat).
