(* ===== verification/MediaCas.v ===== *)
(** * The content-addressed media cache

    [internal/adapters/secondary/mediafs/write.go], [adapter_media.go] of the
    whatsmeow adapter.  A file of the cache is named after the hash
    of what it holds, and its modification time says when it was last wanted;
    the cache is a tree of [FileSys], the times a map beside it.  SHA-256,
    [http.DetectContentType], [mime.ExtensionsByType], the history store, the
    protobuf decoder and the download itself are parameters. *)
From S2P Require Import Prelude GoStd Errors Jid Limiter Values Profile FileSys.

#[local] Open Scope string_scope.
#[local] Open Scope list_scope.
#[local] Open Scope Z_scope.
#[local] Open Scope prog_scope.

(** ** Parameters *)

Class MediaEnv := {
  sha256 : string -> string;
  sha256_length : forall s, String.length (sha256 s) = 32%nat;
  DetectContentType : string -> string;
  ExtensionsByType : string -> list string }.

(** The fields of a [*waE2E.Message] that are read here. *)
Record media_msg := mkMediaMsg {
  FileSHA256 : string; Mimetype : string; FileLength : Z; Seconds : Z; PTT : bool }.
Record Message := mkMessage {
  ImageMessage : option media_msg; VideoMessage : option media_msg; AudioMessage : option media_msg;
  DocumentMessage : option media_msg; StickerMessage : option media_msg }.

Class Upstream := {
  GetRawProto : string -> string -> result (string * string);
  proto_Unmarshal : string -> result Message;
  DownloadAny : Message -> result string }.

(** When each file was last modified. *)
Abbreviation times := (gmap string Z).
Definition mtime (t : times) (p : string) : Z := default zero_time (t !! p).

Record DownloadReport := mkDownload {
  dr_Object : MediaObject; dr_Cached : bool; dr_BytesFetched : Z; dr_Chat : JID; dr_MessageID : string }.
Record GCCandidate := mkCandidate { gc_SHA256 : string; gc_Path : string; gc_Size : Z; gc_AgeSeconds : Z }.
Record GCReport := mkGCReport {
  gr_Candidates : Z; gr_Deleted : Z; gr_BytesFreed : Z; gr_DryRun : bool; gr_Files : list GCCandidate }.

Definition is_NDir (x : node) : bool := match x with NDir => true | _ => false end.
Definition size_of (x : node) : Z := match x with NFile c => len c | _ => 0 end.
Definition temp_prefix : string := ".tmp-".
Definition is_temp_name (p : string) : bool := has_prefix temp_prefix (base_of p).

(** [filepath.Ext] of a file name. *)
Definition filepath_Ext (base : string) : string :=
  match str_last_index "." base with Some i => str_drop i base | None => "" end.

#[local] Definition path_le (a b : string) : Prop := String.leb a b = true.
#[local] Instance path_le_dec : RelDecision path_le.
Proof. intros a b. unfold path_le. apply bool_eq_dec. Defined.
Definition sort_paths (l : list string) : list string := merge_sort path_le l.

Section Store.
Context `{Os, Machine, MediaEnv}.

(** ** mediafs/write.go *)

Definition ValidateWrite (ctx : check goerr) (ref : MediaRef) (payload errPrefix : string) : check goerr :=
  (let* _ := ctx in
   let* _ := MediaRef_Validate ref in
   fail_if negb (String.eqb (sha256 payload) (mr_SHA256 ref)) with ENew (errPrefix +:+ ": sha256 mismatch on write") ;;
   Ok tt)%wa.

(** From the open temporary file to its place. *)
Definition place_temp (tmp full payload errPrefix : string) : prog (check goerr) :=
  let! w := Write tmp payload in
  match w with
  | Err e => let! _ := Close in ret (Err (wrapc (errPrefix +:+ ": write tmp") (os_error e)))
  | Ok _ =>
  let! c := Chmod tmp in
  match c with
  | Err e => let! _ := Close in ret (Err (wrapc (errPrefix +:+ ": chmod tmp") (os_error e)))
  | Ok _ =>
  let! c := Close in
  match c with
  | Err e => ret (Err (wrapc (errPrefix +:+ ": close tmp") (os_error e)))
  | Ok _ =>
  let! r := Rename tmp full in
  match r with
  | Err e => ret (Err (wrapc (errPrefix +:+ ": rename") (os_error e)))
  | Ok _ => ret (Ok tt)
  end end end end.

(** [wall] is what the kernel stamps on what is written. *)
Definition WriteObject (root errPrefix : string) (ref : MediaRef) (payload advertisedMime : string)
    (duration now wall : Z) (t : times) : prog (result MediaObject * times) :=
  let full := join root (RelativePath ref) in
  let! mk := MkdirAll (dir_of full) in
  match mk with
  | Err e => ret (Err (wrapc (errPrefix +:+ ": mkdir") (os_error e)), t)
  | Ok _ =>
  let! c := CreateTemp (join (dir_of full) temp_prefix) in
  match c with
  | Err e => ret (Err (wrapc (errPrefix +:+ ": tmp") (os_error e)), t)
  | Ok tmp =>
  let! r := place_temp tmp full payload errPrefix in
  let! _ := Remove tmp in
  match r with
  | Err e => ret (Err e, t)
  | Ok _ => ret (Ok (mkMediaObject ref full advertisedMime (DetectContentType payload) duration "" now now),
                 <[full := wall]> t)
  end end end.

(** ** adapter_media.go *)

Definition stripMimeParams (s : string) : string :=
  match str_index ";" s with Some (S i) => trim_space (str_take (S i) s) | _ => s end.
Definition sniffMime (payload advertised : string) : string :=
  let detected := DetectContentType payload in
  if negb (str_empty detected) && negb (has_prefix "application/octet-stream" detected) then detected
  else if negb (str_empty advertised) then advertised
  else "application/octet-stream".
Definition sniffExt (payload advertisedMime : string) : string :=
  match ExtensionsByType (stripMimeParams (DetectContentType payload)) with
  | x :: _ => trim_prefix "." x
  | [] => match ExtensionsByType (stripMimeParams advertisedMime) with
          | x :: _ => trim_prefix "." x
          | [] => "bin"
          end
  end.

Definition copyShaBytes (dst src : string) : string := if len src =? 32 then src else dst.

Record hints := mkHints {
  h_sha : string; h_mime : string; h_size : Z; h_duration : Z }.
(** [None]: no media is present. *)
Definition extractMediaHints (msg : Message) : option hints :=
  let one m duration := mkHints (copyShaBytes zero_sha (FileSHA256 m)) (Mimetype m) (wrap64 (FileLength m)) duration in
  match ImageMessage msg, VideoMessage msg, AudioMessage msg, DocumentMessage msg, StickerMessage msg with
  | Some m, _, _, _, _ => Some (one m 0)
  | _, Some m, _, _, _ => Some (one m (Seconds m))
  | _, _, Some m, _, _ => Some (one m (Seconds m))
  | _, _, _, Some m, _ => Some (one m 0)
  | _, _, _, _, Some m => Some (one m 0)
  | _, _, _, _, _ => None
  end.

(** [filepath.Glob], of a pattern whose only star is its last byte: what cannot
    be read does not match. *)
Definition Glob (dir pre : string) : prog (list string) :=
  let! st := Stat dir in
  match st with
  | Ok NDir =>
    let! o := Open dir in
    match o with
    | Err _ => ret []
    | Ok _ =>
      let! l := ReadDir dir in
      let! _ := Close in
      ret (match l with
           | Err _ => []
           | Ok l => sort_paths (List.filter (fun p => has_prefix pre (base_of p)) (map fst l))
           end)
    end
  | _ => ret []
  end.

Section Adapter.
Context (root : string) (nowFn wall : Z).

Definition findBySHA (sha : string) : prog (result string) :=
  if String.eqb sha zero_sha then ret (Err (wrapc "mediaadapter: zero sha256" ErrNotExist))
  else
    let h := hex_encode sha in
    let! matches := Glob (join root (str_take 2 h)) (str_drop 2 h +:+ ".") in
    ret (match List.find (fun p => negb (is_temp_name p)) matches with
         | Some p => Ok p
         | None => Err (wrapc ("mediaadapter: " +:+ h) ErrNotExist)
         end).

Definition readHead (path : string) : prog (result string) :=
  let! o := Open path in
  match o with
  | Err e => ret (Err (wrapc "mediaadapter: open" (os_error e)))
  | Ok _ =>
    let! r := ReadFile path in
    let! _ := Close in
    ret (match r with
         | Err e => Err (wrapc "mediaadapter: read" (os_error e))
         | Ok c => Ok (str_take 512 c)
         end)
  end.

(** [os.Chtimes(path, now, now)] *)
Definition Chtimes (path : string) (t : times) : prog times :=
  let! r := ask SChtimes (fun f => res_map (fun _ => tt) (fs_stat path f)) in
  ret (match r with Ok _ => <[path := nowFn]> t | Err _ => t end).

Definition loadObject (path sha advertisedMime : string) (duration : Z) (t : times)
    : prog (result MediaObject * times) :=
  let! st := Stat path in
  match st with
  | Err e => ret (Err (wrapc "mediaadapter: stat" (os_error e)), t)
  | Ok info =>
    let! head := readHead path in
    match head with
    | Err e => ret (Err e, t)
    | Ok head =>
      let detected := DetectContentType head in
      let ext := trim_prefix "." (filepath_Ext (base_of path)) in
      let ext := if str_empty ext then "bin" else ext in
      let! t' := Chtimes path t in
      ret (Ok (mkMediaObject (mkMediaRef sha detected (size_of info) ext) path advertisedMime detected
                 duration "" (unix (mtime t path)) (unix nowFn)), t')
    end
  end.

Definition MediaAdapter_Resolve (ctx : check goerr) (sha : string) (t : times) : prog (result MediaObject * times) :=
  match ctx with
  | Err e => ret (Err e, t)
  | Ok _ =>
    let! p := findBySHA sha in
    match p with
    | Err e => ret (Err e, t)
    | Ok path => loadObject path sha "" 0 t
    end
  end.

Definition MediaAdapter_Write (ctx : check goerr) (ref : MediaRef) (payload advertisedMime : string)
    (duration : Z) (t : times) : prog (result MediaObject * times) :=
  match ValidateWrite ctx ref payload "mediaadapter" with
  | Err e => ret (Err e, t)
  | Ok _ =>
    let! p := findBySHA (mr_SHA256 ref) in
    match p with
    | Ok existingPath => loadObject existingPath (mr_SHA256 ref) advertisedMime duration t
    | Err _ => WriteObject root "mediaadapter" ref payload advertisedMime duration (unix nowFn) wall t
    end
  end.

Section Fetch.
Context `{Upstream}.

Definition errMedia (messageID : string) (e : goerr) : goerr := wrapc ("mediaadapter: " +:+ messageID) e.

Definition loadAdvertisedProto (chat : JID) (messageID : string) : result (JID * Message) :=
  match GetRawProto (JID_String chat) messageID with
  | Err e => if is_not_exist e then Err (errMedia messageID (ERpc app.ErrMessageNotFound))
             else Err (wrapc "mediaadapter: lookup proto" e)
  | Ok (selectedChat, rawProto) =>
    match Parse selectedChat with
    | Err e => Err (wrapc "mediaadapter: selected chat" e)
    | Ok selected =>
      if str_empty rawProto then Err (errMedia messageID (EDom domain.ErrMediaNotCached))
      else match proto_Unmarshal rawProto with
           | Err e => Err (wrapc "mediaadapter: unmarshal proto" e)
           | Ok msg => Ok (selected, msg)
           end
    end
  end.

Definition cachedDownloadReport (sha advertisedMime : string) (duration : Z) (selected : JID) (messageID : string)
    (t : times) : prog (option DownloadReport * times) :=
  if String.eqb sha zero_sha then ret (None, t)
  else
    let! p := findBySHA sha in
    match p with
    | Err _ => ret (None, t)
    | Ok path =>
      let! (o, t') := loadObject path sha advertisedMime duration t in
      ret (match o with
           | Err _ => None
           | Ok obj => Some (mkDownload obj true 0 selected messageID)
           end, t')
    end.

Definition fetchVerifiedPayload (msg : Message) (sha : string) (advertisedSize : Z) : result (string * string) :=
  if (0 <? advertisedSize) && (MaxInboundMediaBytes <? advertisedSize)
  then Err (wrapc ("mediaadapter: advertised size " +:+ itoa advertisedSize +:+ " exceeds "
                   +:+ itoa MaxInboundMediaBytes) (EDom domain.ErrMessageTooLarge))
  else match DownloadAny msg with
       | Err e => Err (wrapc "mediaadapter: download" e)
       | Ok payload =>
         if MaxInboundMediaBytes <? len payload
         then Err (wrapc ("mediaadapter: payload " +:+ itoa (len payload) +:+ " exceeds "
                          +:+ itoa MaxInboundMediaBytes) (EDom domain.ErrMessageTooLarge))
         else
           let gotSHA := sha256 payload in
           if negb (String.eqb sha zero_sha) && negb (String.eqb gotSHA sha)
           then Err (ENew ("mediaadapter: sha256 mismatch: want " +:+ hex_encode sha +:+ " got " +:+ hex_encode gotSHA))
           else Ok (payload, gotSHA)
       end.

(** The message as the download reads it: where it is, and what it advertises. *)
Definition advertised (chat : JID) (messageID : string) : result (JID * Message * hints) :=
  match loadAdvertisedProto chat messageID with
  | Err e => Err e
  | Ok (selected, msg) =>
    match extractMediaHints msg with
    | None => Err (errMedia messageID (EDom domain.ErrMediaUnsupported))
    | Some h => Ok (selected, msg, h)
    end
  end.

Definition MediaAdapter_Download (ctx : check goerr) (chat : JID) (messageID : string) (transcribe : bool) (t : times)
    : prog (result DownloadReport * times) :=
  match ctx with
  | Err e => ret (Err e, t)
  | Ok _ =>
    if str_empty messageID then ret (Err (ENew "mediaadapter: empty messageID"), t)
    else
    match advertised chat messageID with
    | Err e => ret (Err e, t)
    | Ok (selected, msg, h) =>
      let! (cached, t) := cachedDownloadReport (h_sha h) (h_mime h) (h_duration h) selected messageID t in
      match cached with
      | Some report => ret (Ok report, t)
      | None =>
        match fetchVerifiedPayload msg (h_sha h) (h_size h) with
        | Err e => ret (Err e, t)
        | Ok (payload, gotSHA) =>
          let ref := mkMediaRef gotSHA (sniffMime payload (h_mime h)) (len payload) (sniffExt payload (h_mime h)) in
          let! (o, t) := MediaAdapter_Write ctx ref payload (h_mime h) (h_duration h) t in
          ret (match o with
               | Err e => Err e
               | Ok obj => Ok (mkDownload obj false (len payload) selected messageID)
               end, t)
        end
      end
    end
  end.

Record MediaInfo := mkMediaInfo {
  mi_MessageID : string; mi_SHA256 : string; mi_AdvertisedMime : string; mi_AdvertisedSize : Z;
  mi_DurationSeconds : Z; mi_PTT : bool; mi_Cached : bool; mi_Path : string; mi_CachedSize : Z }.

Definition statBySHA (sha : string) : prog (option (string * Z)) :=
  let! p := findBySHA sha in
  match p with
  | Err _ => ret None
  | Ok p =>
    let! st := Stat p in
    ret (match st with Err _ => None | Ok info => Some (p, size_of info) end)
  end.

(** [Ok None]: nothing to download. *)
Definition InspectMedia (ctx : check goerr) (chatJID messageID : string) : prog (result (option MediaInfo)) :=
  match ctx with
  | Err e => ret (Err e)
  | Ok _ =>
    match GetRawProto chatJID messageID with
    | Err e => ret (if is_not_exist e then Ok None else Err (wrapc "mediaadapter: inspect proto" e))
    | Ok (_, raw) =>
      if str_empty raw then ret (Ok None)
      else match proto_Unmarshal raw with
           | Err e => ret (Err (wrapc "mediaadapter: inspect unmarshal" e))
           | Ok msg =>
             match extractMediaHints msg with
             | None => ret (Ok None)
             | Some h =>
               let info := mkMediaInfo messageID (hex_encode (h_sha h)) (h_mime h) (h_size h) (h_duration h)
                             (match AudioMessage msg with Some a => PTT a | None => false end) false "" 0 in
               if String.eqb (h_sha h) zero_sha then ret (Ok (Some info))
               else
                 let! s := statBySHA (h_sha h) in
                 ret (Ok (Some (match s with
                   | None => info
                   | Some (p, n) => mkMediaInfo messageID (mi_SHA256 info) (mi_AdvertisedMime info)
                                      (mi_AdvertisedSize info) (mi_DurationSeconds info) (mi_PTT info) true p n
                   end)))
             end
           end
    end
  end.

End Fetch.

(** ** The sweep *)

Definition shaFromPath (path : string) : string :=
  let base := match cut_byte "." (base_of path) with Some (b, _) => b | None => base_of path end in
  let h := base_of (dir_of path) +:+ base in
  if len h =? 64 then h else "".

Definition count (rep : GCReport) (size : Z) : GCReport :=
  mkGCReport (gr_Candidates rep + 1) (gr_Deleted rep) (wrap64 (gr_BytesFreed rep + size)) (gr_DryRun rep) (gr_Files rep).
Definition listed (rep : GCReport) (c : GCCandidate) : GCReport :=
  mkGCReport (gr_Candidates rep) (gr_Deleted rep) (gr_BytesFreed rep) (gr_DryRun rep) (gr_Files rep ++ [c]).
Definition deleted (rep : GCReport) : GCReport :=
  mkGCReport (gr_Candidates rep) (gr_Deleted rep + 1) (gr_BytesFreed rep) (gr_DryRun rep) (gr_Files rep).

Section Sweep.
Context (cutoff : Z) (dryRun : bool) (t : times).

Definition gc_remove (path : string) (rep : GCReport) : prog (GCReport * option goerr) :=
  let! r := Remove path in
  ret (match r with
       | Err ENOENT | Ok _ => (deleted rep, None)
       | Err e => (rep, Some (wrapc ("mediaadapter: remove " +:+ path) (os_error e)))
       end).

Definition gc_visit (path : string) (d : node) (rep : GCReport) : prog (GCReport * option goerr) :=
  if is_NDir d || is_temp_name path then ret (rep, None)
  else
    let! info := Lstat path in
    match info with
    | Err _ => ret (rep, None)
    | Ok info =>
      if negb (mtime t path <? cutoff) then ret (rep, None)
      else
        let rep := count rep (size_of info) in
        if dryRun
        then ret (listed rep (mkCandidate (shaFromPath path) path (size_of info)
                                (Z.quot (time_sub nowFn (mtime t path)) second)), None)
        else gc_remove path rep
    end.

(** [filepath.WalkDir] with this visitor; [n] bounds the depth. *)
Definition walk_entries (go : string -> node -> GCReport -> prog (GCReport * option goerr))
    : list (string * node) -> GCReport -> prog (GCReport * option goerr) :=
  fix walk l rep :=
    match l with
    | [] => ret (rep, None)
    | (path, d) :: l =>
      let! (rep, err) := go path d rep in
      match err with
      | Some e => ret (rep, Some e)
      | None => walk l rep
      end
    end.

Definition entry_le (a b : string * node) : Prop := path_le a.1 b.1.
#[local] Instance entry_le_dec : RelDecision entry_le.
Proof. intros a b. unfold entry_le. apply _. Defined.

Fixpoint walkDir (n : nat) (path : string) (d : node) (rep : GCReport) : prog (GCReport * option goerr) :=
  match n with
  | O => ret (rep, None)
  | S n =>
    let! (rep, err) := gc_visit path d rep in
    match err with
    | Some e => ret (rep, Some e)
    | None =>
      if negb (is_NDir d) then ret (rep, None)
      else
        let! l := ReadDir path in
        match l with
        | Err ENOENT => ret (rep, None)
        | Err e => ret (rep, Some (os_error e))
        | Ok l => walk_entries (walkDir n) (merge_sort entry_le l) rep
        end
    end
  end.

(** A path is deeper than it is long in no tree. *)

Definition walk_root (rep : GCReport) : prog (GCReport * option goerr) := fun k f =>
  (let! info := Lstat root in
   match info with
   | Err ENOENT => ret (rep, None)
   | Err e => ret (rep, Some (os_error e))
   | Ok d => walkDir (S (longest f)) root d rep
   end) k f.

Definition MediaAdapter_GC (ctx : check goerr) : prog (GCReport * option goerr) :=
  match ctx with
  | Err e => ret (mkGCReport 0 0 0 false [], Some e)
  | Ok _ =>
    let! (rep, err) := walk_root (mkGCReport 0 0 0 dryRun []) in
    ret (rep, match err with
              | Some e => if is_not_exist e then None else Some (wrapc "mediaadapter: walk" e)
              | None => None
              end)
  end.

End Sweep.
End Adapter.
End Store.

(** ** Names in the cache *)

Lemma hex_length s : String.length (hex_encode s) = (2 * String.length s)%nat.
Proof. induction s as [|c s IH]; [done|]. cbn [hex_encode str_flat_map]. fold (hex_encode s). rewrite str_app_length. cbn. lia. Qed.

Lemma take_drop_str n s : str_take n s +:+ str_drop n s = s.
Proof. revert s. induction n as [|n IH]; intros [|c s]; cbn; [done..|]. by rewrite IH. Qed.
Lemma take_length n s : (n <= String.length s)%nat -> String.length (str_take n s) = n.
Proof. revert s. induction n as [|n IH]; intros [|c s]; cbn; [done|done|lia|]. intros Hn. by rewrite IH by lia. Qed.

(** The file that holds what hashes to [s], with extension [e]. *)
Definition object_name (s e : string) : string := str_drop 2 (hex_encode s) +:+ "." +:+ e.
Definition object_path (root s e : string) : string := join (join root (str_take 2 (hex_encode s))) (object_name s e).

Lemma RelativePath_object root r : join root (RelativePath r) = object_path root (mr_SHA256 r) (mr_Ext r).
Proof. unfold object_path, object_name, RelativePath, HexSHA256, join. by rewrite <- !str_app_assoc. Qed.

Lemma object_name_no_slash s e : no_byte "/" e = true -> no_byte "/" (object_name s e) = true.
Proof. intros He. unfold object_name. rewrite !no_byte_app, He, no_byte_drop; [done|]. apply hex_encode_no. Qed.
Lemma dir_object root s e : no_byte "/" e = true -> dir_of (object_path root s e) = join root (str_take 2 (hex_encode s)).
Proof. intros He. apply dir_join. by apply object_name_no_slash. Qed.
Lemma base_object root s e : no_byte "/" e = true -> base_of (object_path root s e) = object_name s e.
Proof. intros He. apply base_join. by apply object_name_no_slash. Qed.

Lemma object_not_temp s e u : String.length s = 32%nat -> object_name s e <> temp_prefix +:+ u.
Proof.
  intros Hl E. pose proof (proj2 (hex_encode_no s)) as Hn. apply (no_byte_drop "." 2) in Hn.
  pose proof (drop_length 2 (hex_encode s)) as Hd. rewrite hex_length, Hl in Hd. unfold object_name, temp_prefix in E.
  destruct (str_drop 2 (hex_encode s)) as [|c d]; [done|]. injection E as -> _. done.
Qed.

Lemma split_join_list l : l <> [] -> Forall (fun w => no_byte "/" w = true) l -> split_byte "/" (join_byte "/" l) = l.
Proof.
  induction l as [|w [|v r] IH]; intros Hn Hf; [done|..]; inversion Hf; subst; [by apply split_byte_none|].
  change (join_byte "/" (w :: v :: r)) with (w +:+ String "/" (join_byte "/" (v :: r))).
  rewrite split_byte_one by done. f_equal. by apply IH.
Qed.
Lemma dir_base p : dir_of p <> "" -> p = join (dir_of p) (base_of p).
Proof.
  intros Hd. apply split_inj. rewrite split_join.
  pose proof (split_byte_nonempty "/" p) as Hne. pose proof (split_byte_no "/" p) as Hno.
  pose proof (app_removelast_last "" Hne) as E. rewrite E in Hno. apply Forall_app in Hno as [Hr Hb].
  inversion Hb as [|? ? Hb1 _]; subst. unfold base_of. rewrite (split_byte_none "/" (List.last _ "")) by done.
  unfold dir_of in *. rewrite split_join_list; [done| |done]. intros E'. by rewrite E' in Hd.
Qed.

(** ** The cache is honest *)

Section Honest.
Context {os : Os} {mach : Machine} {env : MediaEnv} (root : string).

(** What a file of the cache holds hashes to its name; no object is a link. *)
Definition honest (f : fs) : Prop := forall s e, String.length s = 32%nat -> no_byte "/" e = true ->
  match f !! object_path root s e with
  | Some (NFile c) => sha256 c = s
  | Some (NLink _) => False
  | _ => True
  end.

Lemma honest_dir f p : f !! p = None -> honest f -> honest (<[p := NDir]> f).
Proof.
  intros Hp Hf s e Hs He. destruct (decide (p = object_path root s e)) as [->|Hn]; [by rewrite lookup_insert_eq|].
  rewrite lookup_insert_ne by done. by apply Hf.
Qed.
Lemma honest_delete f p : honest f -> honest (delete p f).
Proof.
  intros Hf s e Hs He. destruct (decide (p = object_path root s e)) as [->|Hn]; [by rewrite lookup_delete_eq|].
  rewrite lookup_delete_ne by done. by apply Hf.
Qed.
Definition temp_path (t : string) : Prop := exists u, base_of t = temp_prefix +:+ u.
Lemma honest_temp f t x : temp_path t -> honest f -> honest (<[t := x]> f).
Proof.
  intros [u Hu] Hf s e Hs He. rewrite lookup_insert_ne; [by apply Hf|]. intros ->.
  rewrite base_object in Hu by done. by apply (object_not_temp s e u).
Qed.
Lemma object_inj s e s' e' : String.length s = 32%nat -> String.length s' = 32%nat -> no_byte "/" e = true -> no_byte "/" e' = true ->
  object_path root s e = object_path root s' e' -> s = s'.
Proof.
  intros Hs Hs' He He' E. pose proof (f_equal dir_of E) as Ed. pose proof (f_equal base_of E) as Eb.
  rewrite !dir_object in Ed by done. rewrite !base_object in Eb by done. unfold join in Ed. apply append_inj_l in Ed.
  injection Ed as Ed. apply hex_encode_inj, (take_drop_inj 2); [done|].
  apply (f_equal (cut_byte ".")) in Eb. unfold object_name in Eb.
  cbn [String.append] in Eb. rewrite !cut_byte_app in Eb by (apply no_byte_drop, hex_encode_no). congruence.
Qed.
Lemma honest_object f s e c : String.length s = 32%nat -> no_byte "/" e = true -> sha256 c = s ->
  honest f -> honest (<[object_path root s e := NFile c]> f).
Proof.
  intros Hs He Hc Hf s' e' Hs' He'. destruct (decide (object_path root s e = object_path root s' e')) as [E|Hn].
  - rewrite <- E, lookup_insert_eq. rewrite Hc. by apply (object_inj s e s' e').
  - rewrite lookup_insert_ne by done. by apply Hf.
Qed.

Definition quietly : Prop := forall k o, os_fault k o = None.
Abbreviation keeps m Q := (hoare honest honest m (fun a f => honest f /\ Q a f)).

Lemma h_query {A} o (q : fs -> res errno A) (P : fs -> Prop) : (forall f, P f -> honest f) ->
  hoare honest P (ask o q) (fun r f => P f /\ forall a, r = Ok a -> q f = Ok a).
Proof.
  intros HP. apply h_ask; [done|]. intros r f Hf [->|(k & why & _ & ->)]; (split; [done|]); congruence.
Qed.

Lemma h_MkdirAll n p : hoare honest honest (mkdir_all n p) (fun _ => honest).
Proof.
  revert p. induction n as [|n IH]; intros p; cbn [mkdir_all]; [by apply h_ret|].
  assert (Hq : forall A o (q : fs -> res errno A), hoare honest honest (ask o q) (fun _ => honest)).
  { intros A o q. eapply h_conseq; [by apply h_query|done|]. by intros r f [? _]. }
  eapply h_bind; [apply Hq|]. intros [[| |]|e]; try by apply h_ret.
  apply (h_bind _ _ _ (fun _ => honest)); [destruct (str_empty (dir_of p)); [by apply h_ret|apply IH]|].
  intros [u|e']; [|by apply h_ret].
  apply (h_bind _ _ _ (fun _ => honest)).
  - apply h_call; [done| |done]. intros f Hf. unfold fs_mkdir. case_bool_decide as Hp; [done|].
    destruct (negb _); [done|]. apply honest_dir; [by apply eq_None_not_Some|done].
  - intros [u'|e']; [by apply h_ret|]. eapply h_bind; [apply Hq|]. intros [[| |]|e'']; by apply h_ret.
Qed.

Lemma find_object f sha l p dir pre :
  String.length sha = 32%nat -> dir = join root (str_take 2 (hex_encode sha)) -> pre = str_drop 2 (hex_encode sha) +:+ "." ->
  fs_readdir dir f = Ok l ->
  p ∈ sort_paths (List.filter (fun p => has_prefix pre (base_of p)) (map fst l)) ->
  exists e, p = object_path root sha e /\ no_byte "/" e = true.
Proof.
  intros Hs -> -> Hl Hp. unfold sort_paths in Hp. rewrite merge_sort_Permutation in Hp.
  apply list_elem_of_In, filter_In in Hp as [Hp Hb]. apply in_map_iff in Hp as ([p' x] & <- & Hin). cbn [fst] in *.
  unfold fs_readdir in Hl. destruct (fs_stat _ f) as [[| |]|]; try done. injection Hl as <-.
  apply filter_In in Hin as [_ Hd]. cbn [fst] in Hd. apply String.eqb_eq in Hd.
  apply has_prefix_spec in Hb as [e Hb]. exists e.
  assert (Hdb : dir_of p' <> "") by (rewrite Hd; unfold join; by destruct root).
  split.
  - rewrite (dir_base p' Hdb), Hd, Hb. unfold object_path, object_name. by rewrite <- str_app_assoc.
  - pose proof (split_byte_no "/" p') as Hn. pose proof (split_byte_nonempty "/" p') as Hne.
    rewrite (app_removelast_last "" Hne) in Hn. apply Forall_app in Hn as [_ Hn]. inversion Hn as [|? ? Hn1 _]; subst.
    change (List.last _ _) with (base_of p') in Hn1. rewrite Hb, !no_byte_app in Hn1. bprop. done.
Qed.

Definition found (sha : string) (r : result string) : Prop :=
  match r with Ok p => exists e, p = object_path root sha e /\ no_byte "/" e = true | Err _ => True end.

Lemma h_Glob dir pre : keeps (Glob dir pre) (fun l _ => forall p, p ∈ l ->
  exists f es, fs_readdir dir f = Ok es /\ p ∈ sort_paths (List.filter (fun p => has_prefix pre (base_of p)) (map fst es))).
Proof.
  unfold Glob. eapply h_bind; [by apply h_query|]. intros st.
  assert (Hnil : forall P : fs -> Prop, (forall f, P f -> honest f) -> hoare honest P (ret (@nil string)) (fun l f => honest f /\ forall p, p ∈ l ->
    exists f es, fs_readdir dir f = Ok es /\ p ∈ sort_paths (List.filter (fun p => has_prefix pre (base_of p)) (map fst es)))).
  { intros P HP. apply h_ret. intros f Hf. split; [by apply HP|]. intros p Hp. by apply not_elem_of_nil in Hp. }
  destruct st as [[| |]|e]; try (apply Hnil; by intros f [? _]).
  eapply h_bind; [apply h_query; by intros f [? _]|]. intros o. destruct o as [u|e]; [|apply Hnil; by intros f [[? _] _]].
  eapply h_bind; [apply h_query; by intros f [[? _] _]|]. intros l.
  eapply h_bind; [apply h_query; by intros f [[[? _] _] _]|]. intros c.
  apply h_ret. intros f [[[[Hf _] _] Hl] _]. split; [done|]. intros p Hp. destruct l as [l|e]; [|by apply not_elem_of_nil in Hp].
  exists f, l. split; [by apply Hl|done].
Qed.

Lemma h_findBySHA sha : String.length sha = 32%nat -> keeps (findBySHA root sha) (fun r _ => found sha r).
Proof.
  intros Hs. unfold findBySHA. destruct (String.eqb sha zero_sha); [by apply h_ret|].
  eapply h_bind; [apply h_Glob|]. intros l. apply h_ret. intros f [Hf Hl]. split; [done|].
  destruct (List.find _ l) as [p|] eqn:E; [|done]. apply find_some in E as [Hin _]. apply list_elem_of_In in Hin.
  destruct (Hl p Hin) as (f' & es & Hes & Hp). by eapply find_object.
Qed.

(** What a reader is handed: the file is there, it has the hash and the size. *)
Definition served (o : MediaObject) (f : fs) : Prop := exists c, f !! mo_Path o = Some (NFile c)
  /\ sha256 c = mr_SHA256 (mo_Ref o) /\ len c = mr_Size (mo_Ref o) /\ (exists e, no_byte "/" e = true /\ mo_Path o = object_path root (mr_SHA256 (mo_Ref o)) e).

Lemma served_here f s e c info : honest f -> String.length s = 32%nat -> no_byte "/" e = true ->
  fs_stat (object_path root s e) f = Ok info -> fs_read (object_path root s e) f = Ok c ->
  f !! object_path root s e = Some (NFile c) /\ info = NFile c /\ sha256 c = s.
Proof.
  intros Hf Hs He Hst Hrd. specialize (Hf s e Hs He). unfold fs_read in Hrd. rewrite Hst in Hrd.
  destruct (f !! object_path root s e) as [[|c'|t]|] eqn:E; try done.
  - rewrite (stat_some _ f NDir E) in Hst by done. injection Hst as <-. done.
  - rewrite (stat_some _ f (NFile c') E) in Hst by done. injection Hst as <-. injection Hrd as <-. done.
  - rewrite stat_none in Hst by done. done.
Qed.

Lemma h_loadObject now path sha mime dur t e : String.length sha = 32%nat -> no_byte "/" e = true -> path = object_path root sha e ->
  keeps (loadObject now path sha mime dur t) (fun r f => match r.1 with
    | Ok o => served o f /\ mr_SHA256 (mo_Ref o) = sha /\ (quietly -> mtime r.2 (mo_Path o) = now)
    | Err _ => True end).
Proof.
  intros Hs He ->. unfold loadObject. eapply h_bind; [by apply h_query|]. intros [info|err].
  2: { apply h_ret. intros f [Hf _]. done. }
  unfold readHead. eapply (h_bind _ _ _ (fun r f => honest f /\ (forall a, Ok info = Ok a -> fs_stat (object_path root sha e) f = Ok a)
     /\ match r with Ok head => exists c, fs_read (object_path root sha e) f = Ok c /\ head = str_take 512 c | Err _ => True end)).
  { eapply h_bind; [apply h_query; by intros f [? _]|]. intros [u|err]; [|apply h_ret; by intros f [[? ?] _]].
    eapply h_bind; [apply h_query; by intros f [[? _] _]|]. intros r.
    eapply h_bind; [apply h_query; by intros f [[[? _] _] _]|]. intros c. apply h_ret. intros f [[[[Hf Hst] _] Hr] _].
    split_and!; [done|done|]. destruct r as [c'|]; [|done]. exists c'. split; [by apply Hr|done]. }
  intros [head|err]; [|apply h_ret; by intros f [? _]].
  unfold Chtimes. eapply (h_bind _ _ _ (fun t' f => (honest f /\ (forall a, Ok info = Ok a -> fs_stat (object_path root sha e) f = Ok a)
     /\ exists c, fs_read (object_path root sha e) f = Ok c /\ head = str_take 512 c) /\ (quietly -> mtime t' (object_path root sha e) = now))).
  { eapply (h_bind _ _ _ (fun r f => (honest f /\ (forall a, Ok info = Ok a -> fs_stat (object_path root sha e) f = Ok a)
     /\ exists c, fs_read (object_path root sha e) f = Ok c /\ head = str_take 512 c) /\ (quietly -> is_ok r = true))).
    { apply h_ask; [by intros f [? _]|]. intros r f Hf [->|(k & why & Hw & ->)]; (split; [done|]).
      - intros _. destruct Hf as (_ & Hst & _). by rewrite (Hst info eq_refl).
      - intros Hq. by rewrite Hq in Hw. }
    intros r. apply h_ret. intros f [Hf Hr]. split; [done|]. intros Hq. specialize (Hr Hq). destruct r; [|done].
    unfold mtime. by rewrite lookup_insert_eq. }
  intros t'. apply h_ret. intros f ((Hf & Hst & c & Hc & ->) & Ht). split; [done|]. cbn [fst snd mo_Ref mr_SHA256 mo_Path].
  destruct (served_here f sha e c info Hf Hs He (Hst _ eq_refl) Hc) as (E & -> & Hsha). split_and!; [|done|done].
  exists c. cbn. split_and!; try done. by exists e.
Qed.

Lemma h_place_temp tmp s e payload prefix : temp_path tmp -> String.length s = 32%nat -> no_byte "/" e = true -> sha256 payload = s ->
  hoare honest (fun f => honest f /\ f !! tmp = Some (NFile "")) (place_temp tmp (object_path root s e) payload prefix)
    (fun r f => honest f /\ (r = Ok tt -> f !! object_path root s e = Some (NFile payload))).
Proof.
  intros Ht Hs He Hp. unfold place_temp.
  assert (Hfail : forall P err (Q : fs -> Prop), (forall f, P f -> honest f) ->
    hoare honest P (let! _ := Close in ret (@Err goerr unit err)) (fun r f => honest f /\ (r = Ok tt -> Q f))).
  { intros P err Q HP. eapply h_bind; [by apply h_query|]. intros c. apply h_ret. intros f [? _]. split; [auto|done]. }
  set (F := fun f => honest f /\ f !! tmp = Some (NFile payload)).
  eapply (h_bind _ _ _ (fun r f => match r with Ok _ => F f | Err _ => honest f end)).
  { assert (Hap : forall u f, honest f /\ f !! tmp = Some (NFile "") -> honest (fs_append tmp u f) /\ fs_append tmp u f !! tmp = Some (NFile u)).
    { intros u f [Hf E]. unfold fs_append. rewrite E. split; [by apply honest_temp|by rewrite lookup_insert_eq]. }
    apply h_write; [intros f n Hf; by apply Hap|apply Hap|intros f k why n _ Hf; by apply Hap]. }
  intros [u|err]; [|by apply Hfail].
  eapply h_bind; [apply h_query; by intros f [? _]|]. intros [u'|err]; [|apply Hfail; by intros f [[? _] _]].
  eapply h_bind; [apply h_query; by intros f [[? _] _]|]. intros [u''|err]; [|apply h_ret; by intros f [[[? _] _] _]].
  eapply (h_bind _ _ _ (fun r f => honest f /\ (is_ok r = true -> f !! object_path root s e = Some (NFile payload)))).
  { apply h_call; [by intros f [[[? _] _] _]| |by intros f k why _ [[[? _] _] _]].
    intros f [[[Hf E] _] _]. unfold fs_rename. rewrite E. destruct (negb _); [done|].
    assert (Hin : honest (<[object_path root s e := NFile payload]> (delete tmp f))).
    { apply honest_object; try done. by apply honest_delete. }
    destruct (f !! object_path root s e) as [[| |]|]; cbn; try done; (split; [done|]); intros _; by rewrite lookup_insert_eq. }
  intros [u3|err]; apply h_ret; intros f [Hf Hd]; (split; [done|]); [auto|done].
Qed.

Lemma h_CreateTemp dir : keeps (CreateTemp (join dir temp_prefix)) (fun r f => match r with
  | Ok t => temp_path t /\ f !! t = Some (NFile "") | Err _ => True end).
Proof.
  apply h_call; [done| |by intros f k why _ ?]. intros f Hf.
  destruct (temp_shape (join dir temp_prefix) f) as (suf & Es & Hsuf). set (t := temp_name _ f) in *.
  assert (Ht : temp_path t).
  { exists suf. rewrite Es. unfold join. rewrite <- !str_app_assoc. change (dir +:+ "/" +:+ temp_prefix +:+ suf) with (join dir (temp_prefix +:+ suf)).
    apply base_join. by rewrite no_byte_app, Hsuf. }
  unfold fs_create. case_bool_decide; [done|]. destruct (negb _); [done|]. cbn.
  split; [by apply honest_temp|]. split; [done|]. by rewrite lookup_insert_eq.
Qed.

Lemma h_Remove P p : (forall f, P f -> honest f) -> (forall f, P f -> P (delete p f)) -> hoare honest P (Remove p) (fun _ => P).
Proof.
  intros HP Hd. apply h_call; [done| |done]. intros f Hf. unfold fs_remove.
  destruct (f !! p) as [[| |]|]; [destruct (children p f)|..]; cbn; auto.
Qed.

Lemma h_WriteObject prefix ref payload mime dur now wall t : MediaRef_Validate ref = Ok tt -> sha256 payload = mr_SHA256 ref ->
  keeps (WriteObject root prefix ref payload mime dur now wall t) (fun r f => match r.1 with
    | Ok o => f !! mo_Path o = Some (NFile payload) /\ mo_Path o = object_path root (mr_SHA256 ref) (mr_Ext ref) /\ mo_Ref o = ref
    | Err _ => True end).
Proof.
  intros Hv Hp. destruct (valid_ext ref Hv) as [He _]. pose proof (sha256_length payload) as Hl. rewrite Hp in Hl.
  unfold WriteObject. rewrite RelativePath_object. eapply h_bind; [apply h_MkdirAll|]. intros [u|err]; [|by apply h_ret].
  eapply h_bind; [apply h_CreateTemp|]. intros [tmp|err]; [|apply h_ret; by intros f [? _]].
  apply h_pre. intros f1 [Hf1 [Ht Ef]].
  eapply (h_conseq _ _ (fun f => honest f /\ f !! tmp = Some (NFile ""))); [|by intros f <-|by intros a f Ha; exact Ha].
  set (P := fun (r : check goerr) f => honest f /\ (r = Ok tt -> f !! object_path root (mr_SHA256 ref) (mr_Ext ref) = Some (NFile payload))).
  apply (h_bind _ _ _ P); [by apply h_place_temp|]. intros r.
  apply (h_bind _ _ _ (fun _ => P r)).
  - apply h_Remove; [by intros f [? _]|]. intros f [Hf Hr]. split; [by apply honest_delete|]. intros E. rewrite lookup_delete_ne; [auto|].
    intros ->. destruct Ht as [v Hv']. rewrite base_object in Hv' by done. by apply (object_not_temp _ _ _ Hl Hv').
  - intros _. destruct r as [[]|err]; apply h_ret; intros f [Hf Hr]; (split; [done|]); cbn; [|done]. split_and!; [auto|done..].
Qed.

(** What a write leaves: the payload is behind the path it answers. *)
Definition stored (ref : MediaRef) (payload : string) (o : MediaObject) (f : fs) : Prop :=
  (exists c, f !! mo_Path o = Some (NFile c) /\ sha256 c = mr_SHA256 (mo_Ref o))
  /\ mr_SHA256 (mo_Ref o) = mr_SHA256 ref /\ (len payload = mr_Size ref -> served o f).

Lemma h_MediaAdapter_Write now wall ctx ref payload mime dur t :
  keeps (MediaAdapter_Write root now wall ctx ref payload mime dur t) (fun r f => match r.1 with
    | Ok o => stored ref payload o f | Err _ => True end).
Proof.
  unfold MediaAdapter_Write. destruct (ValidateWrite ctx ref payload "mediaadapter") as [[]|err] eqn:E; [|by apply h_ret].
  unfold ValidateWrite in E. apply res_bind_ok in E as (? & _ & E). apply res_bind_ok in E as ([] & Hv & E).
  apply guard_ok in E as [E _]. bprop. apply String.eqb_eq in E.
  pose proof (sha256_length payload) as Hl. rewrite E in Hl. destruct (valid_ext ref Hv) as [He _].
  eapply h_bind; [by apply h_findBySHA|]. intros [p|err].
  - apply h_pre. intros f [Hf (e & -> & Hne)]. eapply h_conseq; [by eapply h_loadObject|by intros ? <-|].
    intros [[o|err] t'] f'; [|done]. intros (Hf' & Hs & Hsha & _). split; [done|]. cbn [fst] in *. split_and!; [|done|done].
    destruct Hs as (c & ? & ? & _). by exists c.
  - eapply h_conseq; [by apply h_WriteObject|by intros f [? _]|]. intros [[o|err'] t'] f'; [|done]. cbn [fst].
    intros (Hf & Hc & Hp & <-). split; [done|]. split_and!; [by exists payload|done|]. intros Hlen.
    exists payload. split_and!; try done. by exists (mr_Ext (mo_Ref o)).
Qed.

Lemma h_MediaAdapter_Resolve now ctx sha t : String.length sha = 32%nat ->
  keeps (MediaAdapter_Resolve root now ctx sha t) (fun r f => match r.1 with
    | Ok o => served o f /\ mr_SHA256 (mo_Ref o) = sha /\ (quietly -> mtime r.2 (mo_Path o) = now) | Err _ => True end).
Proof.
  intros Hs. unfold MediaAdapter_Resolve. destruct ctx; [|by apply h_ret].
  eapply h_bind; [by apply h_findBySHA|]. intros [p|err]; [|apply h_ret; by intros f [? _]].
  apply h_pre. intros f [Hf (e & -> & Hne)]. eapply h_conseq; [by eapply h_loadObject|by intros ? <-|done].
Qed.

Lemma hints_length msg h : extractMediaHints msg = Some h -> String.length (h_sha h) = 32%nat.
Proof.
  assert (Hc : forall s, String.length (copyShaBytes zero_sha s) = 32%nat).
  { intros s. unfold copyShaBytes. destruct (len s =? 32) eqn:E; [|done]. bprop. unfold len in E. lia. }
  unfold extractMediaHints. intros E. repeat split_match_in E; simplify_eq; apply Hc.
Qed.

Section Download.
Context `{Upstream}.

Lemma advertised_hints chat id selected msg h : advertised chat id = Ok (selected, msg, h) -> extractMediaHints msg = Some h.
Proof. unfold advertised. intros E. repeat split_match_in E; by simplify_eq. Qed.

Lemma h_cached now sha mime dur selected id t : String.length sha = 32%nat ->
  keeps (cachedDownloadReport root now sha mime dur selected id t) (fun r f => match r.1 with
    | Some rep => served (dr_Object rep) f /\ mr_SHA256 (mo_Ref (dr_Object rep)) = sha | None => True end).
Proof.
  intros Hs. unfold cachedDownloadReport. destruct (String.eqb sha zero_sha); [by apply h_ret|].
  eapply h_bind; [by apply h_findBySHA|]. intros [p|err]; [|apply h_ret; by intros f [? _]].
  apply h_pre. intros f [Hf (e & -> & Hne)]. eapply h_bind.
  - eapply h_conseq; [by eapply (h_loadObject now _ sha mime dur t)|by intros ? <-|]. intros a g Ha. exact Ha.
  - intros [[o|err] t']; apply h_ret; intros g [? Ho]; split; try done. cbn in *. by destruct Ho as (? & ? & _).
Qed.

Lemma fetched msg sha size payload got : fetchVerifiedPayload msg sha size = Ok (payload, got) ->
  got = sha256 payload /\ (sha = zero_sha \/ got = sha) /\ len payload <= MaxInboundMediaBytes.
Proof.
  unfold fetchVerifiedPayload. intros E. destruct (_ && _); [done|]. destruct (DownloadAny msg) as [p|]; [|done].
  destruct (MaxInboundMediaBytes <? len p) eqn:El; [done|]. destruct (_ && _) eqn:Es; [done|]. simplify_eq. bprop.
  split_and!; [done| |done]. apply andb_false_iff in Es as [Es|Es]; apply negb_false_iff, String.eqb_eq in Es; auto.
Qed.

Lemma h_MediaAdapter_Download now wall ctx chat id tr t :
  keeps (MediaAdapter_Download root now wall ctx chat id tr t) (fun r f => match r.1 with
    | Ok rep => served (dr_Object rep) f /\ exists selected msg h, advertised chat id = Ok (selected, msg, h)
        /\ (h_sha h = zero_sha \/ mr_SHA256 (mo_Ref (dr_Object rep)) = h_sha h)
    | Err _ => True end).
Proof.
  unfold MediaAdapter_Download. destruct ctx as [u|err]; [|by apply h_ret].
  destruct (str_empty id); [by apply h_ret|]. destruct (advertised chat id) as [[[selected msg] h]|err] eqn:Ea; [|by apply h_ret].
  pose proof (hints_length msg h (advertised_hints _ _ _ _ _ Ea)) as Hl.
  eapply h_bind; [by apply h_cached|]. intros [[rep|] t1].
  - apply h_ret. cbn [fst]. intros f [Hf [Hs Hsha]]. split; [done|]. split; [done|]. exists selected, msg, h. auto.
  - destruct (fetchVerifiedPayload msg (h_sha h) (h_size h)) as [[payload got]|err] eqn:Ef; [|apply h_ret; by intros f [? _]].
    apply fetched in Ef as (-> & Hadv & _). eapply h_bind.
    + eapply h_conseq; [apply h_MediaAdapter_Write|by intros f [? _]|]. intros a f Ha. exact Ha.
    + intros [[o|err] t2]; apply h_ret; cbn [fst]; intros f [Hf Ho]; (split; [done|]); [|done].
      destruct Ho as (_ & Hsha & Hser). split; [by apply Hser|]. exists selected, msg, h. split; [done|]. cbn in Hsha |- *.
      rewrite Hsha. destruct Hadv; auto.
Qed.
End Download.

(** ** The sweep *)

Section Sweep.
Context (now cutoff : Z) (dryRun : bool) (t : times) (f0 : fs).
Hypothesis root_ne : root <> "".

(** What a sweep may delete. *)
Definition collectable (p : string) : Prop := (exists x, f0 !! p = Some x /\ is_NDir x = false) /\ under root p
  /\ is_temp_name p = false /\ mtime t p < cutoff.
Definition swept (f : fs) : Prop := forall p, f !! p = f0 !! p \/ (dryRun = false /\ collectable p /\ f !! p = None).

Lemma swept_delete f p : dryRun = false -> collectable p -> swept f -> swept (delete p f).
Proof.
  intros Hd Hc Hf q. destruct (decide (p = q)) as [->|Hn].
  - right. by rewrite lookup_delete_eq.
  - rewrite lookup_delete_ne by done. apply Hf.
Qed.

Section Keep.
(** Paths that are gone stay gone. *)
Context (S : string -> Prop).
Definition gone (f : fs) : Prop := forall p, S p -> f !! p = None.
Definition both (f : fs) : Prop := swept f /\ gone f.

Lemma both_delete f p : dryRun = false -> collectable p -> both f -> both (delete p f).
Proof.
  intros Hd Hc [Hs Hg]. split; [by apply swept_delete|]. intros q Hq. destruct (decide (p = q)) as [->|Hn]; [by rewrite lookup_delete_eq|].
  rewrite lookup_delete_ne by done. by apply Hg.
Qed.

Lemma h_gc_visit path d rep : f0 !! path = Some d -> under root path ->
  hoare swept both (gc_visit now cutoff dryRun t path d rep)
    (fun r f => both f /\ (quietly -> dryRun = false -> r.2 = None /\ (collectable path -> f !! path = None))).
Proof.
  intros Hd Hu. unfold gc_visit.
  assert (HP : forall f, both f -> swept f) by (by intros f [? _]).
  destruct (is_NDir d || is_temp_name path) eqn:E.
  { apply h_ret. intros f Hf. split; [done|]. intros _ _. split; [done|]. intros ((x & Hx & Hn) & _ & Ht & _).
    rewrite Hd in Hx. simplify_eq. rewrite Hn, Ht in E. done. }
  apply orb_false_iff in E as [End Et].
  eapply (h_bind _ _ _ (fun r f => both f /\ (quietly -> f !! path <> None -> is_ok r = true))).
  { apply h_ask; [done|]. intros r f Hf [->|(k & why & Hw & ->)]; (split; [done|]).
    - intros _ Hn. unfold fs_lstat. by destruct (f !! path).
    - intros Hq. by rewrite Hq in Hw. }
  intros [info|err].
  2: { apply h_ret. intros f [Hf Hr]. split; [done|]. intros Hq _. split; [done|]. intros _. specialize (Hr Hq).
    destruct (f !! path); [by discriminate Hr|done]. }
  destruct (mtime t path <? cutoff) eqn:Em; cbn [negb].
  2: { apply h_ret. intros f [Hf _]. split; [done|]. intros _ _. split; [done|]. intros (_ & _ & _ & Hm). bprop. lia. }
  bprop. assert (Hc : collectable path) by (split_and!; eauto).
  destruct dryRun eqn:Edry; [apply h_ret; intros f [Hf _]; by split|].
  unfold gc_remove. eapply (h_bind _ _ _ (fun r f => both f /\ (quietly -> f !! path = None /\ (r = Ok tt \/ r = Err ENOENT)))).
  { apply h_call; [by intros f [? _]; apply HP| |].
    - intros f [Hf _]. unfold fs_remove. destruct (proj1 Hf path) as [Ep|(_ & _ & Ep)]; rewrite Ep; [rewrite Hd|].
      + destruct d; [done|..]; cbn; (split; [by apply both_delete|]); intros _; rewrite lookup_delete_eq; auto.
      + cbn. split; [done|]. auto.
    - intros f k why Hw [Hf _]. split; [done|]. intros Hq. by rewrite Hq in Hw. }
  intros r. apply h_ret. intros f [Hf Hr]. split; [done|]. intros Hq _. specialize (Hr Hq) as [Hn Hr].
  split; [|done]. by destruct Hr as [->| ->].
Qed.
End Keep.

(** The files a walk of [n] levels from [d] comes to. *)
Inductive below : nat -> string -> string -> Prop :=
| below_here n p : below (S n) p p
| below_in n d k p x : f0 !! d = Some NDir -> f0 !! k = Some x -> dir_of k = d -> below n k p -> below (S n) d p.

Lemma under_child d k : d <> "" -> dir_of k = d -> under root d -> under root k.
Proof.
  intros Hd <- Hu. rewrite (dir_base k Hd). destruct Hu as [E|[rest E]].
  - rewrite E. by right; exists (base_of k).
  - right. exists (join rest (base_of k)). rewrite E at 1. unfold join. by rewrite <- !str_app_assoc.
Qed.
Lemma under_ne d : under root d -> d <> "".
Proof. intros [->|[rest ->]]; [done|]. unfold join. by destruct root. Qed.

(** What a walk of [n] levels from [path] does, whatever was gone before. *)
Definition walks (n : nat) (path : string) (m : prog (GCReport * option goerr)) : Prop :=
  forall gone0, hoare swept (both gone0) m
    (fun r f => both gone0 f /\ (quietly -> dryRun = false -> r.2 = None /\ forall p, below n path p -> collectable p -> f !! p = None)).

Lemma h_walk_entries n l : forall rep gone0, (forall k x, (k, x) ∈ l -> forall rep, walks n k (walkDir now cutoff dryRun t n k x rep)) ->
  hoare swept (both gone0) (walk_entries (walkDir now cutoff dryRun t n) l rep)
    (fun r f => both gone0 f /\ (quietly -> dryRun = false -> r.2 = None /\
       forall k x p, (k, x) ∈ l -> below n k p -> collectable p -> f !! p = None)).
Proof.
  induction l as [|[k x] l IH]; intros rep gone0 Hl; cbn [walk_entries].
  { apply h_ret. intros f Hf. split; [done|]. intros _ _. split; [done|]. intros k x p Hin. by apply not_elem_of_nil in Hin. }
  eapply h_bind; [apply (Hl k x); by left|]. intros [rep1 [e|]].
  { apply h_ret. cbn. intros f [Hf Hq]. split; [done|]. intros H1 H2. by destruct (Hq H1 H2) as [? _]. }
  assert (Hl' : forall k x, (k, x) ∈ l -> forall rep, walks n k (walkDir now cutoff dryRun t n k x rep)).
  { intros k' x' Hin. apply Hl. by right. }
  cbn [snd].
  destruct (decide (dryRun = false)) as [Edry|Edry].
  2: { eapply h_conseq; [apply (IH rep1 gone0 Hl')|by intros f [? _]|]. intros a f [Hf _]. split; [done|]. by intros _ ?. }
  (* what this walk swept joins what is gone *)
  apply h_pre. intros f1 [Hb1 Hq1].
  eapply (h_conseq _ _ (both (fun p => gone0 p \/ (quietly /\ below n k p /\ collectable p)))); [apply (IH rep1 _ Hl')| |].
  - intros f <-. split; [apply Hb1|]. intros p [Hp|(Hq & Hp & Hc)]; [by apply Hb1|]. by apply Hq1.
  - intros a f [[Hs Hg] Hq]. split; [split; [done|]; intros p Hp; apply Hg; by left|].
    intros H1 H2. destruct (Hq H1 H2) as [-> Hrest]. split; [done|]. intros k' x' p Hin Hp Hc.
    apply elem_of_cons in Hin as [[= -> ->]|Hin]; [apply Hg; by right|by eapply Hrest].
Qed.

Lemma h_walkDir n : forall path d rep, f0 !! path = Some d -> under root path -> walks n path (walkDir now cutoff dryRun t n path d rep).
Proof.
  induction n as [|n IH]; intros path d rep Hd Hu gone0; cbn [walkDir].
  { apply h_ret. intros f Hf. split; [done|]. intros _ _. split; [done|]. intros p Hp. inversion Hp. }
  eapply h_bind; [by apply h_gc_visit|]. intros [rep1 [e|]].
  { apply h_ret. cbn. intros f [Hf Hq]. split; [done|]. intros H1 H2. by destruct (Hq H1 H2) as [? _]. }
  cbn [snd]. destruct (is_NDir d) eqn:Ed; cbn [negb].
  2: { apply h_ret. intros f [Hf Hq]. split; [done|]. intros H1 H2. split; [done|]. intros p Hp.
       inversion Hp as [? ?|? ? k ? x Hdir]; subst; [by apply Hq|]. rewrite Hd in Hdir. by simplify_eq. }
  destruct d; try done.
  assert (Hdir : forall f, both gone0 f -> fs_stat path f = Ok NDir).
  { intros f [Hs _]. apply stat_some; [|done]. destruct (Hs path) as [->|(_ & ((x & Hx & Hn) & _) & _)]; [done|].
    rewrite Hd in Hx. by simplify_eq. }
  eapply (h_bind _ _ _ (fun r f => both gone0 f /\ (r = fs_readdir path f \/ (is_ok r = false /\ ~ quietly /\ r <> Err ENOENT)))).
  { apply h_ask; [by intros f [[? _] _]|]. intros r f [Hf _] [->|(k & why & Hw & ->)]; (split; [done|]); [by left|].
    right. split_and!; [done| |done]. intros Hq. by rewrite Hq in Hw. }
  intros r. apply h_pre. intros f1 [Hb1 Hr]. unfold fs_readdir in Hr. rewrite (Hdir f1 Hb1) in Hr.
  destruct r as [l|e].
  2: { destruct Hr as [Hr|(_ & Hr & Hne)]; [done|]. destruct e; [done|..]; apply h_ret; intros f <-; (split; [done|]); by intros ?%Hr. }
  destruct Hr as [[= Hr]|[? _]]; [|done]. subst l.
  set (l := merge_sort entry_le _).
  assert (Hin : forall k x, (k, x) ∈ l <-> f1 !! k = Some x /\ dir_of k = path).
  { intros k x. unfold l. rewrite merge_sort_Permutation, list_elem_of_In, filter_In, <- list_elem_of_In, elem_of_map_to_list.
    cbn [fst]. by rewrite String.eqb_eq. }
  assert (Hin0 : forall k x, (k, x) ∈ l -> f0 !! k = Some x /\ dir_of k = path).
  { intros k x Hk. apply Hin in Hk as [Hk Hkd]. destruct (proj1 Hb1 k) as [E|(_ & _ & E)]; rewrite E in Hk; done. }
  clearbody l.
  eapply h_conseq; [eapply (h_walk_entries n l rep1 (fun p => gone0 p \/ f1 !! p = None))| |].
  - intros k x Hk rep'. destruct (Hin0 k x Hk) as [Hk0 Hkd]. apply IH; [done|]. eapply under_child; [by apply under_ne|done|done].
  - intros f <-. split; [apply Hb1|]. intros p [Hp|Hp]; [by apply Hb1|done].
  - intros a f [[Hs Hg] Hq]. split; [split; [done|]; intros p Hp; apply Hg; by left|].
    intros H1 H2. destruct (Hq H1 H2) as [-> Hrest]. split; [done|].
    intros p Hp. inversion Hp as [? ?|? ? k ? x Hdir' Hk Hkd Hb]; subst.
    + intros ((x & Hx & Hn) & _). rewrite Hd in Hx. by simplify_eq.
    + intros Hc. destruct (f1 !! k) as [y|] eqn:Ey; [by eapply (Hrest k y); [apply Hin|..]|].
      (* the entry was gone already: it was a file *)
      inversion Hb as [? ?|? ? k2 ? x2 Hkdir]; subst; [apply Hg; by right|].
      exfalso. destruct (proj1 Hb1 (dir_of k2)) as [E|(_ & ((z & Hz & Hn) & _) & _)]; [congruence|]. rewrite Hkdir in Hz. by simplify_eq.
Qed.

Lemma below_snoc n d q p x : below n d q -> f0 !! q = Some NDir -> f0 !! p = Some x -> dir_of p = q -> below (S n) d p.
Proof.
  induction 1 as [n q|n d k q x' Hd Hk Hkd Hb IH]; intros Hq Hp Hpq.
  - eapply below_in; [exact Hq|exact Hp|done|constructor].
  - eapply below_in; [exact Hd|exact Hk|done|by apply IH].
Qed.
Lemma below_mono n m d p : below n d p -> (n <= m)%nat -> below m d p.
Proof.
  intros Hb. revert m. induction Hb as [n p|n d k p x Hd Hk Hkd Hb IH]; intros [|m] Hm; try lia; [constructor|].
  eapply below_in; [exact Hd|exact Hk|done|]. apply IH. lia.
Qed.

(** Every path of the tree hangs from the root. *)
Definition rooted : Prop := forall p x, f0 !! p = Some x -> under root p -> p <> root -> f0 !! dir_of p = Some NDir /\ under root (dir_of p).

Lemma dir_shorter p : dir_of p <> "" -> (String.length (dir_of p) < String.length p)%nat.
Proof. intros Hp. rewrite (dir_base p Hp) at 2. unfold join. rewrite !str_app_length. cbn. lia. Qed.

Lemma rooted_below n : forall p x, rooted -> (String.length p < n)%nat -> f0 !! p = Some x -> under root p -> below n root p.
Proof.
  induction n as [|n IH]; intros p x Hr Hl Hp Hu; [lia|].
  destruct (decide (p = root)) as [->|Hn]; [constructor|]. destruct (Hr p x Hp Hu Hn) as [Hd Hdu].
  eapply below_snoc; [|exact Hd|exact Hp|done]. eapply IH; [done| |exact Hd|done].
  pose proof (dir_shorter p (under_ne _ Hdu)). lia.
Qed.

Lemma longest_bound p x : f0 !! p = Some x -> (String.length p <= longest f0)%nat.
Proof.
  intros E. apply elem_of_map_to_list, list_elem_of_In in E. unfold longest.
  pose proof (proj1 (list_max_le (map (fun kv : string * node => String.length kv.1) (map_to_list f0)) _) (le_n _)) as Hm.
  rewrite List.Forall_forall in Hm. by apply (in_map (fun kv : string * node => String.length kv.1)), Hm in E.
Qed.

Lemma h_GC ctx : hoare swept (eq f0) (MediaAdapter_GC root now cutoff dryRun t ctx)
  (fun r f => swept f /\ (quietly -> dryRun = false -> ctx = Ok tt -> rooted -> r.2 = None /\ forall p, collectable p -> f !! p = None)).
Proof.
  assert (H0 : swept f0) by (intros p; by left).
  unfold MediaAdapter_GC. destruct ctx as [[]|e]; [|apply h_ret; intros f <-; by split].
  set (P := fun (r : GCReport * option goerr) f => swept f /\ (quietly -> dryRun = false -> rooted ->
      (r.2 = None \/ exists e, r.2 = Some e /\ is_not_exist e = true) /\ forall p, collectable p -> f !! p = None)).
  apply (h_bind _ _ _ P).
  - unfold walk_root.
    enough (Hw : hoare swept (eq f0) (let! info := Lstat root in match info with
      | Err ENOENT => ret (mkGCReport 0 0 0 dryRun [], None) | Err e => ret (mkGCReport 0 0 0 dryRun [], Some (os_error e))
      | Ok d => walkDir now cutoff dryRun t (S (longest f0)) root d (mkGCReport 0 0 0 dryRun []) end) P).
    { intros k f <-. by apply Hw. }
    assert (Hroot : forall p, collectable p -> rooted -> below (S (longest f0)) root p /\ exists x, f0 !! root = Some x).
    { intros p ((x & Hx & _) & Hu & _) Hr. assert (Hb : below (S (longest f0)) root p).
      { eapply rooted_below; [done| |exact Hx|done]. pose proof (longest_bound p x Hx). lia. }
      split; [done|]. inversion Hb as [? ?|? ? ? ? ? Hd]; subst; eauto. }
    eapply (h_bind _ _ _ (fun r f => f = f0 /\ (r = fs_lstat root f0 \/ (is_ok r = false /\ ~ quietly)))).
    { apply h_ask; [by intros f <-|]. intros r f <- [->|(k & why & Hw & ->)]; (split; [done|]); [by left|].
      right. split; [done|]. intros Hq. by rewrite Hq in Hw. }
    intros r. apply h_pre. intros f [-> Hr]. destruct r as [d|e].
    + destruct Hr as [Hr|[? _]]; [|done]. unfold fs_lstat in Hr. destruct (f0 !! root) as [d'|] eqn:Ed; [|done].
      injection Hr as ->. eapply h_conseq; [eapply (h_walkDir _ root d' _ Ed (or_introl eq_refl) (fun _ => False))|..].
      * intros f <-. split; [done|]. by intros p [].
      * intros a f [[Hs _] Hq]. split; [done|]. intros H1 H2 H3. destruct (Hq H1 H2) as [-> Hg]. split; [by left|].
        intros p Hc. apply Hg; [|done]. by apply Hroot.
    + destruct Hr as [Hr|[_ Hr]].
      * unfold fs_lstat in Hr. destruct (f0 !! root) as [d'|] eqn:Ed; [done|]. injection Hr as ->.
        apply h_ret. intros f <-. split; [done|]. intros _ _ H3. split; [by left|]. intros p Hc.
        destruct (Hroot p Hc H3) as [_ [x Hx]]. congruence.
      * destruct e; apply h_ret; intros f <-; (split; [done|]); by intros ?%Hr.
  - intros [rep err]. apply h_ret. intros f [Hs Hq]. split; [done|]. intros H1 H2 _ H4. destruct (Hq H1 H2 H4) as [He Hg].
    split; [|done]. cbn [snd] in *. destruct He as [->|(e & -> & ->)]; done.
Qed.
End Sweep.
End Honest.

(** ** Histories of the cache *)

Inductive media_call :=
| CallResolve (sha : string)
| CallWrite (ref : MediaRef) (payload mime : string) (duration : Z)
| CallDownload (chat : JID) (messageID : string) (transcribe : bool)
| CallGC (cutoff : Z) (dryRun : bool).
Definition wf_call (c : media_call) : Prop := match c with CallResolve sha => String.length sha = 32%nat | _ => True end.

Section Histories.
Context {mach : Machine} {env : MediaEnv} (root : string).
Hypothesis root_ne : root <> "".

Definition run_call (os : Os) (up : Upstream) (now wall : Z) (t : times) (ctx : check goerr) (c : media_call) : prog unit :=
  match c with
  | CallResolve sha => let! _ := MediaAdapter_Resolve root now ctx sha t in ret tt
  | CallWrite ref payload mime dur => let! _ := MediaAdapter_Write root now wall ctx ref payload mime dur t in ret tt
  | CallDownload chat id tr => let! _ := MediaAdapter_Download root now wall ctx chat id tr t in ret tt
  | CallGC cutoff dry => let! _ := MediaAdapter_GC root now cutoff dry t ctx in ret tt
  end.

(** Calls one after another, each with its clock, its faults and, perhaps, its
    kill; upstream answers as it likes. *)
Inductive uses : fs -> fs -> Prop :=
| uses_none f : uses f f
| uses_call f0 f os up now wall t ctx c k : uses f0 f -> wf_call c ->
    uses f0 (end_of (run_call os up now wall t ctx c k f)).

Lemma swept_honest f0 f cutoff dry t : honest root f0 -> @swept root cutoff dry t f0 f -> honest root f.
Proof.
  intros Hf Hs s e Hl He. specialize (Hf s e Hl He). destruct (Hs (object_path root s e)) as [->|(_ & _ & ->)]; done.
Qed.

Lemma run_call_honest os up now wall t ctx c k f : wf_call c -> honest root f ->
  honest root (end_of (run_call os up now wall t ctx c k f)).
Proof.
  intros Hc Hf.
  assert (Hk : forall A (m : prog A) Q, hoare (honest root) (honest root) m (fun a f => honest root f /\ Q a f) ->
    honest root (end_of (bind m (fun _ => ret tt) k f))).
  { intros A m Q Hm. specialize (Hm k f Hf). unfold bind. destruct (m k f); cbn; by destruct Hm. }
  destruct c as [sha|ref payload mime dur|chat id tr|cutoff dry]; cbn [run_call].
  - eapply Hk. by apply h_MediaAdapter_Resolve.
  - eapply Hk. apply h_MediaAdapter_Write.
  - eapply Hk. apply h_MediaAdapter_Download.
  - pose proof (h_GC root now cutoff dry t f root_ne ctx k f eq_refl) as Hg. unfold bind.
    destruct (MediaAdapter_GC root now cutoff dry t ctx k f) as [r k' f'|f']; cbn; destruct Hg as [Hg _]; by eapply swept_honest.
Qed.

Lemma uses_honest f0 f : uses f0 f -> honest root f0 -> honest root f.
Proof. intros Hu Hf. induction Hu; [done|]. apply run_call_honest; auto. Qed.

(** C26. The media cache never hands out bytes that are not what they are named
    after: start from a cache whose files hash to their names and let any calls
    run, each of which may fail at any system call or be killed before one,
    with any answers from upstream; then every file of the cache still hashes
    to its name, and an object that a download or a resolve answers is there,
    has the size and the hash of its reference, and, when the message
    advertised a hash, has that hash. *)
Theorem media_store_honest (f0 f : fs) : honest root f0 -> uses f0 f ->
  honest root f
  /\ (forall os up now wall ctx chat id tr t k rep t' k' f',
        @MediaAdapter_Download os mach env root now wall up ctx chat id tr t k f = Done (Ok rep, t') k' f' ->
        served root (dr_Object rep) f'
        /\ exists selected msg h, @advertised up chat id = Ok (selected, msg, h)
           /\ (h_sha h = zero_sha \/ mr_SHA256 (mo_Ref (dr_Object rep)) = h_sha h))
  /\ (forall os now ctx sha t k o t' k' f', String.length sha = 32%nat ->
        @MediaAdapter_Resolve os env root now ctx sha t k f = Done (Ok o, t') k' f' ->
        served root o f' /\ mr_SHA256 (mo_Ref o) = sha).
Proof.
  intros H0 Hu. apply uses_honest in Hu; [|done]. split_and!; [done| |].
  - intros os up now wall ctx chat id tr t k rep t' k' f' E.
    pose proof (@h_MediaAdapter_Download os mach env root up now wall ctx chat id tr t k f Hu) as Hd. rewrite E in Hd. apply Hd.
  - intros os now ctx sha t k o t' k' f' Hs E.
    pose proof (@h_MediaAdapter_Resolve os env root now ctx sha t Hs k f Hu) as Hd. rewrite E in Hd. cbn in Hd. naive_solver.
Qed.

(** The sweep deletes exactly what it should: whatever fails, and wherever
    it is killed, a path changes only if it was a file below the root, not a
    temporary one, older than the cutoff, and the run is not a dry one, and
    then it is gone; and undisturbed, on a tree whose directories are all
    there, the sweep ends without an error and every such file is gone.  An
    object just resolved is spared by every later sweep whose cutoff is not
    after the moment it was resolved at. *)
Theorem media_gc_exact (os : Os) (now cutoff : Z) (dry : bool) (t : times) (ctx : check goerr) (k : nat) (f : fs) :
  let o := MediaAdapter_GC root now cutoff dry t ctx k f in
  (forall p, end_of o !! p = f !! p \/ (dry = false /\ collectable root cutoff t f p /\ end_of o !! p = None))
  /\ (quietly -> (forall j, os_crash j = false) -> dry = false -> ctx = Ok tt -> rooted root f ->
      exists rep k' f', o = Done (rep, None) k' f' /\ forall p, collectable root cutoff t f p -> f' !! p = None)
  /\ (quietly -> honest root f -> forall sha obj t' k' f', String.length sha = 32%nat -> cutoff <= now ->
      MediaAdapter_Resolve root now ctx sha t k f = Done (Ok obj, t') k' f' ->
      ~ collectable root cutoff t' f' (mo_Path obj)).
Proof.
  pose proof (h_GC root now cutoff dry t f root_ne ctx k f eq_refl) as Hg. cbv zeta.
  destruct (MediaAdapter_GC root now cutoff dry t ctx k f) as [r k' f'|f'].
  all: destruct Hg as [Hs Hq].
  all: split; [exact Hs|]; split; [|].
  2, 4: intros Hqu Hho sha obj t' k2 f2 Hl Hc E (_ & _ & _ & Hm);
    pose proof (h_MediaAdapter_Resolve root now ctx sha t Hl k f Hho) as Hr; rewrite E in Hr; cbn in Hr;
    destruct Hr as (_ & _ & _ & Hr); rewrite Hr in Hm by done; lia.
  - intros H1 _ H2 H3 H4. destruct (Hq H1 H2 H3 H4) as [Hr Hgone]. destruct r as [rep err]. cbn in Hr. subst. by exists rep, k', f'.
  - intros _ Hk. destruct Hq as [j Hj]. by rewrite Hk in Hj.
Qed.
End Histories.

(** ** A demonstration *)

Definition demo_pad (s : string) : string := str_take 32 (s +:+ zero_sha).
Lemma demo_pad_length s : String.length (demo_pad s) = 32%nat.
Proof. unfold demo_pad. apply take_length. rewrite str_app_length. change (String.length zero_sha) with 32%nat. lia. Qed.
Definition demo_media : MediaEnv :=
  {| sha256 := demo_pad; sha256_length := demo_pad_length; DetectContentType := fun _ => "image/png";
     ExtensionsByType := fun _ => [".png"] |}.
Definition demo_image : Message := mkMessage (Some (mkMediaMsg (demo_pad "picture") "image/png" 7 0 false)) None None None None.
Definition demo_upstream : Upstream :=
  {| GetRawProto := fun _ _ => Ok ("5511999990000@s.whatsapp.net", "proto"); proto_Unmarshal := fun _ => Ok demo_image;
     DownloadAny := fun _ => Ok "picture" |}.
Definition demo_cache : fs := list_to_map [("/c", NDir)].
Definition demo_download (os : Os) (f : fs) : outcome (result DownloadReport * times) :=
  @MediaAdapter_Download os demo_machine demo_media "/c" 1000 1000 demo_upstream (Ok tt) zeroJID "ID" false ∅ 0%nat f.
Definition demo_used : fs := end_of (@run_call demo_machine demo_media "/c" (killed_at 9) demo_upstream 1000 1000 ∅ (Ok tt) (CallDownload zeroJID "ID" false) 0%nat demo_cache).

Lemma demo_uses : @uses demo_machine demo_media "/c" demo_cache demo_used.
Proof. apply (@uses_call demo_machine demo_media "/c" demo_cache demo_cache); [constructor|done]. Qed.

Lemma demo_honest : @honest demo_media "/c" demo_cache.
Proof.
  intros s e Hs He. unfold demo_cache. rewrite list_to_map_cons, lookup_insert_ne; [done|]. intros E.
  apply (f_equal (String.length)) in E. unfold object_path, join in E. rewrite !str_app_length in E. cbn in E. lia.
Qed.

Lemma media_store_honest_witness : @honest demo_media "/c" demo_used
  /\ exists rep t k f, demo_download calm demo_used = Done (Ok rep, t) k f /\ @served demo_media "/c" (dr_Object rep) f.
Proof.
  destruct (@media_store_honest demo_machine demo_media "/c" ltac:(done) demo_cache demo_used demo_honest demo_uses) as (Hh & Hd & _).
  split; [exact Hh|].
  assert (Hok : match demo_download calm demo_used with Done (Ok _, _) _ _ => true | _ => false end = true) by (vm_compute; reflexivity).
  destruct (demo_download calm demo_used) as [[[rep|e] t] k f|f] eqn:E; [|discriminate Hok..].
  exists rep, t, k, f. split; [reflexivity|]. exact (proj1 (Hd _ _ _ _ _ _ _ _ _ _ _ _ _ _ E)).
Defined.

(** A file a month old, one a kill left behind, and one of today. *)
Definition demo_name (s e : string) : string := object_path "/c" (demo_pad s) e.
Definition demo_old : fs := list_to_map
  [("/c", NDir); ("/c/70", NDir); (demo_name "picture" "png", NFile "picture"); ("/c/70/.tmp-000000", NFile "pic");
   (demo_name "pier" "png", NFile "pier")].
Definition demo_times : times := list_to_map [(demo_name "pier" "png", 5000)].
Definition demo_sweep (os : Os) : outcome (GCReport * option goerr) :=
  @MediaAdapter_GC os "/c" 5000 2000 false demo_times (Ok tt) 0%nat demo_old.

Lemma demo_rooted : rooted "/c" demo_old.
Proof.
  intros p x E Hu Hn. unfold demo_old in E. apply elem_of_list_to_map_2 in E.
  rewrite !elem_of_cons, elem_of_nil in E.
  destruct E as [[= -> ->]|[[= -> ->]|[[= -> ->]|[[= -> ->]|[[= -> ->]|[]]]]]]; [done|..];
    (split; [vm_compute; reflexivity|]); [left|right; exists "70"..]; vm_compute; reflexivity.
Qed.

Lemma media_gc_exact_witness : exists rep k f, demo_sweep calm = Done (rep, None) k f
  /\ f !! demo_name "picture" "png" = None /\ f !! demo_name "pier" "png" = Some (NFile "pier")
  /\ f !! "/c/70/.tmp-000000" = Some (NFile "pic").
Proof.
  destruct (@media_gc_exact demo_media "/c" ltac:(done) calm 5000 2000 false demo_times (Ok tt) 0%nat demo_old) as (_ & Hc & _).
  destruct Hc as (rep & k & f & E & Hg); [done..|exact demo_rooted|].
  exists rep, k, f. split; [exact E|]. split.
  - apply Hg. split_and!; [eexists; split; [vm_compute; reflexivity|done]|right; exists (str_drop 3 (demo_name "picture" "png")); vm_compute; reflexivity
      |vm_compute; reflexivity|vm_compute; reflexivity].
  - assert (Hf : end_of (demo_sweep calm) = f) by (unfold demo_sweep; by rewrite E). rewrite <- Hf. split; vm_compute; reflexivity.
Defined.

(** What a killed write leaves behind no sweep removes, however old it grows. *)
Lemma killed_write_stays (os : Os) (root : string) (now cutoff : Z) (dry : bool) (t : times) (ctx : check goerr) (k : nat)
    (f : fs) (p : string) : root <> "" -> is_temp_name p = true ->
  end_of (MediaAdapter_GC root now cutoff dry t ctx k f) !! p = f !! p.
Proof.
  intros Hr Hp. pose proof (h_GC root now cutoff dry t f Hr ctx k f eq_refl) as Hg.
  assert (Hs : @swept root cutoff dry t f (end_of (MediaAdapter_GC root now cutoff dry t ctx k f))).
  { destruct (MediaAdapter_GC root now cutoff dry t ctx k f) as [r k' f'|f']; apply Hg. }
  destruct (Hs p) as [E|(_ & (_ & _ & Ht & _) & _)]; [done|]. by rewrite Ht in Hp.
Qed.
Lemma killed_write_leaks : demo_used !! "/c/70/.tmp-000000" = Some (NFile "picture").
Proof. vm_compute. reflexivity. Qed.
