(* ===== verification/AllowFile.v ===== *)
(** * The allowlist file

    [cmd/wad/allowlist.go]: the allowlist loaded from, saved to and reloaded
    from a TOML file, its watcher and debouncer; [methods.go] and
    [reload_handler.go]: the methods [allow], [panic], [config.features] and
    [admin.reload].  The file system is the one of [FileSys], whose calls fail
    and whose process is killed; the TOML library is the class [Toml]; a Go map
    is iterated in any order ([MapRange]).  [allowlistMu] makes each of its
    critical sections one step; the allowlist has a lock of its own, which is
    the only one a reader of the policy takes. *)
From S2P Require Import Prelude GoStd Errors Jid Policy Limiter Json Profile FileSys.

#[local] Open Scope string_scope.
#[local] Open Scope list_scope.
#[local] Open Scope Z_scope.
#[local] Open Scope prog_scope.

(** ** The TOML library *)

Record allowlistRule := mkRule { rl_JID : string; rl_Actions : list string }.

Definition printable (s : string) : bool := str_forallb (fun c => (32 <=? bz c) && (bz c <? 127)) s.
Definition plain_rule (r : allowlistRule) : Prop :=
  printable (rl_JID r) = true /\ Forall (fun a => printable a = true) (rl_Actions r).

(** [toml.Unmarshal] into the rules of the file, and the writes [Encode] makes
    of them; what was encoded decodes to the same. *)
Class Toml := {
  toml_read : string -> result (list allowlistRule);
  toml_writes : list allowlistRule -> list string;
  toml_roundtrip : forall l, Forall plain_rule l -> toml_read (str_concat (toml_writes l)) = Ok l }.

(** ** Opening for overwriting: [O_CREATE|O_WRONLY|O_TRUNC] *)

(** Where a path leads once its links are followed. *)
Fixpoint final (n : nat) (f : fs) (p : string) : option string :=
  match f !! p with
  | Some (NLink t) => match n with O => None | S n => final n f t end
  | _ => Some p
  end.
Definition fs_trunc (p : string) (f : fs) : res errno string * fs :=
  match final 40 f p with
  | None => (Err ELOOP, f)
  | Some q =>
    match f !! q with
    | Some NDir => (Err EISDIR, f)
    | Some _ => (Ok q, <[q := NFile ""]> f)
    | None => if parent_ok q f then (Ok q, <[q := NFile ""]> f) else (Err ENOENT, f)
    end
  end.

(** ** Loading and saving *)

Section File.
Context `{Os, Toml} {mr : MapRange JID (list Z)}.

Definition OpenTrunc (p : string) : prog (res errno string) := call SCreate (fs_trunc p).

Fixpoint parse_actions (l : list string) : result (list Z) :=
  match l with
  | [] => Ok []
  | s :: l =>
    let* a := ParseAction s in
    let* acts := parse_actions l in
    Ok (a :: acts)
  end.

Fixpoint grant_rules (rules : list allowlistRule) (al : Allowlist) : result Allowlist :=
  match rules with
  | [] => Ok al
  | r :: rules =>
    match Parse (rl_JID r) with
    | Err e => Err (wrapc "loadAllowlist: invalid JID %q" e)
    | Ok jid =>
      match parse_actions (rl_Actions r) with
      | Err e => Err (wrapc "loadAllowlist: JID %q" e)
      | Ok actions => grant_rules rules (Allowlist_Grant al jid actions)
      end
    end
  end.

Definition parseAllowlistBytes (data : string) (al : Allowlist) : result Allowlist :=
  match toml_read data with
  | Err e => Err (wrapc "loadAllowlist: parse" e)
  | Ok rules => grant_rules rules al
  end.

Definition loadAllowlist (path : string) : prog (result Allowlist) :=
  let! r := ReadFile path in
  ret (match r with
       | Err ENOENT => Ok NewAllowlist
       | Err e => Err (wrapc ("loadAllowlist: read " +:+ path) (os_error e))
       | Ok data => parseAllowlistBytes data NewAllowlist
       end).

Definition rules_of (al : Allowlist) : list allowlistRule :=
  map (fun '(jid, actions) => mkRule (JID_String jid) (map Action_String actions)) (range (Allowlist_Entries al)).

Fixpoint write_all (name : string) (pieces : list string) : prog (res errno unit) :=
  match pieces with
  | [] => ret (Ok tt)
  | s :: pieces =>
    let! w := Write name s in
    match w with Err e => ret (Err e) | Ok _ => write_all name pieces end
  end.

Definition saveAllowlist (path : string) (al : Allowlist) : prog (check goerr) :=
  let tmp := path +:+ ".tmp" in
  let! f := OpenTrunc tmp in
  match f with
  | Err e => ret (Err (wrapc "saveAllowlist: create tmp" (os_error e)))
  | Ok name =>
    let! w := write_all name (toml_writes (rules_of al)) in
    match w with
    | Err e =>
      let! _ := Close in
      let! _ := Remove tmp in
      ret (Err (wrapc "saveAllowlist: encode" (os_error e)))
    | Ok _ =>
      let! c := Close in
      match c with
      | Err e => let! _ := Remove tmp in ret (Err (wrapc "saveAllowlist: close tmp" (os_error e)))
      | Ok _ =>
        let! r := Rename tmp path in
        ret (match r with
             | Err e => Err (wrapc "saveAllowlist: rename" (os_error e))
             | Ok _ => Ok tt
             end)
      end
    end
  end.

(** ** The daemon's allowlist and its audit log *)

Record policy := mkPolicy { po_al : Allowlist; po_audit : list AuditEvent }.
Definition with_al (al : Allowlist) (s : policy) : policy := mkPolicy al (po_audit s).

(** [audit.Record]: [r] is whether the log takes it. *)
Definition audit_Record (r : check goerr) (e : AuditEvent) (s : policy) : policy :=
  match r with Ok _ => mkPolicy (po_al s) (po_audit s ++ [e]) | Err _ => s end.

(** What [reloadAllowlist] does to the allowlist, one call at a time. *)
Definition revoke_entries (l : list (JID * list Z)) (al : Allowlist) : Allowlist :=
  foldl (fun al e => Allowlist_Revoke al e.1 e.2) al l.
Definition grant_entries (l : list (JID * list Z)) (al : Allowlist) : Allowlist :=
  foldl (fun al e => Allowlist_Grant al e.1 e.2) al l.
Definition swap (newAL al : Allowlist) : Allowlist :=
  grant_entries (range (Allowlist_Entries newAL)) (revoke_entries (range (Allowlist_Entries al)) al).

Definition reload_failed : string := "allowlist reload failed; previous policy kept".
Definition reloadAllowlist (now : time) (rec : check goerr) (source path : string) (s : policy) : prog (result nat * policy) :=
  let! r := loadAllowlist path in
  ret (match r with
       | Err e =>
         (Err e, audit_Record rec (NewAuditEventFrom source "wad" AuditReload zeroJID "refused" reload_failed now) s)
       | Ok newAL =>
         let s := with_al (swap newAL (po_al s)) s in
         let entries := Allowlist_Size (po_al s) in
         (Ok entries, audit_Record rec (NewAuditEventFrom source "wad" AuditReload zeroJID "granted"
                        ("allowlist reloaded: " +:+ itoa (Z.of_nat entries) +:+ " entries") now) s)
       end).

(** ** The methods *)

Record allowParams := mkAllowParams { ap_Op : string; ap_JID : string; ap_Actions : list string }.
Definition dec_allowParams (m : list (string * json)) : option allowParams :=
  op ← field dec_str "" "op" m; jid ← field dec_str "" "jid" m; actions ← field dec_strs [] "actions" m;
  Some (mkAllowParams op jid actions).

Abbreviation method A := (policy -> prog (result A * policy)).

(** [fmt.Sprintf("actions=%v", actions)] *)
Definition sprint_actions (l : list string) : string :=
  "actions=[" +:+ str_concat (List.tl (flat_map (fun a => [" "; a]) l)) +:+ "]".

Definition entries_of (al : Allowlist) (jid : JID) : list Z := default [] (Allowlist_Entries al !! jid).

(** The parts of [handleAllowAdd] after its parameters are read: the grant,
    its reversal, and what follows the grant. *)
Definition add_revert (jid : JID) (actions prior : list Z) (s : policy) : policy :=
  let al := Allowlist_Revoke (po_al s) jid actions in
  with_al (match prior with [] => al | _ => Allowlist_Grant al jid prior end) s.
Definition add_settle (now : time) (rec : check goerr) (path : string) (jid : JID) (names : list string) (actions prior : list Z)
    : method json := fun s =>
  let evt := NewAuditEvent "wa allow add" AuditGrant jid "granted" (sprint_actions names) now in
  match rec with
  | Err e => ret (Err (wrapc "audit grant" e), add_revert jid actions prior s)
  | Ok _ =>
    let s := audit_Record rec evt s in
    let! r := saveAllowlist path (po_al s) in
    ret (match r with
         | Err e => (Err (wrapc "persist allowlist" e), add_revert jid actions prior s)
         | Ok _ => (Ok (JObj [("actions", JArr (map JStr names)); ("added", JBool true); ("jid", JStr (JID_String jid))]), s)
         end)
  end.

Definition handleAllowAdd (now : time) (rec : check goerr) (path : string) (p : allowParams) : method json := fun s =>
  if str_empty (ap_JID p) || bool_decide (ap_Actions p = []) then ret (Err (ERpc app.ErrInvalidParams), s)
  else
    match Parse (ap_JID p) with
    | Err _ => ret (Err (ERpc app.ErrInvalidJID), s)
    | Ok jid =>
      match parse_actions (ap_Actions p) with
      | Err _ => ret (Err (ERpc app.ErrInvalidParams), s)
      | Ok actions =>
        let prior := entries_of (po_al s) jid in
        let s := with_al (Allowlist_Grant (po_al s) jid actions) s in
        add_settle now rec path jid (ap_Actions p) actions prior s
      end
    end.

Definition remove_revert (jid : JID) (removed : list Z) (s : policy) : policy :=
  match removed with [] => s | _ => with_al (Allowlist_Grant (po_al s) jid removed) s end.
Definition handleAllowRemove (now : time) (rec : check goerr) (path : string) (p : allowParams) : method json := fun s =>
  if str_empty (ap_JID p) then ret (Err (ERpc app.ErrInvalidParams), s)
  else
    match Parse (ap_JID p) with
    | Err _ => ret (Err (ERpc app.ErrInvalidJID), s)
    | Ok jid =>
      let removed := entries_of (po_al s) jid in
      let s := match removed with [] => s | _ => with_al (Allowlist_Revoke (po_al s) jid removed) s end in
      let evt := NewAuditEvent "wa allow remove" AuditRevoke jid "revoked" "all actions" now in
      match rec with
      | Err e => ret (Err (wrapc "audit revoke" e), remove_revert jid removed s)
      | Ok _ =>
        let s := audit_Record rec evt s in
        let! r := saveAllowlist path (po_al s) in
        ret (match r with
             | Err e => (Err (wrapc "persist allowlist" e), remove_revert jid removed s)
             | Ok _ => (Ok (JObj [("jid", JStr (JID_String jid)); ("removed", JBool true)]), s)
             end)
      end
    end.

Definition handleAllowList : method json := fun s =>
  ret (Ok (JObj [("rules", JArr (map (fun '(jid, actions) =>
    JObj [("jid", JStr (JID_String jid)); ("actions", JArr (map (fun a => JStr (Action_String a)) actions))])
    (range (Allowlist_Entries (po_al s)))))]), s).

Definition handleAllow (now : time) (rec : check goerr) (path : string) (raw : RawMessage) : method json := fun s =>
  match parseParams dec_allowParams raw with
  | Err e => ret (Err e, s)
  | Ok p =>
    if (ap_Op p =? "add")%string then handleAllowAdd now rec path p s
    else if (ap_Op p =? "remove")%string then handleAllowRemove now rec path p s
    else if (ap_Op p =? "list")%string then handleAllowList s
    else ret (Err (ERpc app.ErrInvalidParams), s)
  end.

(** [elapsed] is what the clock says the reload took. *)
Definition handleAdminReload (now : time) (rec : check goerr) (path : string) (elapsed : Z) : method json := fun s =>
  let! (r, s) := reloadAllowlist now rec "internal" path s in
  ret (match r with
       | Err e => Err (wrapc "allowlist reload" e)
       | Ok entries => Ok (JObj [("schema", JStr "wa.admin.reload/v1"); ("entries", JNum (itoa (Z.of_nat entries)));
                                 ("reloadMs", JNum (itoa elapsed)); ("path", JStr path)])
       end, s).

(** [wiped] is what the adapter's [Panic] answers. *)
Definition handlePanic (now : time) (rec : check goerr) (wiped : check goerr) : method json := fun s =>
  ret (Ok (JObj [("unlinked", JBool true)]),
       audit_Record rec (NewAuditEvent "wa panic" AuditPanic zeroJID "wiped" "rpc" now) s).

End File.

(** ** The watcher *)

(** The timer: when it is armed to expire, and whether an expiry waits in its
    channel. *)
Record allowlistDebouncer := mkDebouncer { deb_armed : option time; deb_full : bool }.
(** 100 ms *)
Definition debounce : Z := 100 * 1000000.
Definition newAllowlistDebouncer : allowlistDebouncer := mkDebouncer None false.
(** [if !t.Stop() { drain }] *)
Definition deb_Stop (b : allowlistDebouncer) : allowlistDebouncer :=
  match deb_armed b with
  | Some _ => mkDebouncer None (deb_full b)
  | None => mkDebouncer None false
  end.
Definition Trigger (now : time) (b : allowlistDebouncer) : allowlistDebouncer :=
  mkDebouncer (Some (now + debounce)) (deb_full (deb_Stop b)).
(** The runtime: a timer whose moment has come is disarmed and sends. *)
Definition expire (now : time) (b : allowlistDebouncer) : allowlistDebouncer :=
  match deb_armed b with
  | Some t => if t <=? now then mkDebouncer None true else b
  | None => b
  end.

Inductive wake :=
| WDone | WEvent (name : string) | WEventsClosed | WTimer | WHangup | WError | WErrorsClosed.

Record watching := mkWatching { wa_deb : allowlistDebouncer; wa_policy : policy }.

Section Watch.
Context `{Os, Toml} {mr : MapRange JID (list Z)} (rec : check goerr) (path : string).

Definition watch_reload (now : time) (b : allowlistDebouncer) (s : policy) : prog (option watching) :=
  let! (_, s) := reloadAllowlist now rec "watchAllowlist" path s in
  ret (Some (mkWatching b s)).

(** One turn of the loop; [None]: it returns. *)
Definition watch_turn (now : time) (w : wake) (st : watching) : prog (option watching) :=
  match w with
  | WDone | WEventsClosed | WErrorsClosed => ret None
  | WEvent name =>
    if negb (base_of name =? base_of path)%string then ret (Some st)
    else ret (Some (mkWatching (Trigger now (wa_deb st)) (wa_policy st)))
  | WTimer =>
    if deb_full (wa_deb st)
    then watch_reload now (mkDebouncer (deb_armed (wa_deb st)) false) (wa_policy st)
    else ret (Some st)
  | WHangup => watch_reload now (wa_deb st) (wa_policy st)
  | WError => ret (Some st)
  end.
End Watch.

(** ** What a policy file holds *)

Lemma elem_of_list_actions s a : a ∈ actionSet_list s <-> actionSet_get s a = true.
Proof.
  unfold actionSet_list. rewrite merge_sort_Permutation. rewrite list_elem_of_In, filter_In, <- list_elem_of_In.
  split; [tauto|]. intros Hs. split; [|done]. unfold actionSet_get in Hs. destruct (Action_IsValid a) eqn:Ha; [|done].
  by apply valid_enum, Action_IsValid_range.
Qed.

(** The policy the pairs of a list of entries give. *)
Definition listed (l : list (JID * list Z)) (j : JID) (a : Z) : bool :=
  existsb (fun e => bool_decide (e.1 = j) && bool_decide (a ∈ e.2)) l.

Lemma Allows_grant_entries l : forall al j a,
  Allows (grant_entries l al) j a = Allows al j a || (Action_IsValid a && listed l j a).
Proof.
  induction l as [|[j' acts] l IH]; intros al j a; cbn; [by rewrite andb_false_r, orb_false_r|].
  change (foldl _ _ _) with (grant_entries l (Allowlist_Grant al j' acts)). rewrite IH, Allows_Grant.
  fold (listed l j a). by destruct (Allows al j a), (Action_IsValid a), (bool_decide (j' = j)), (bool_decide (a ∈ acts)).
Qed.

Lemma Allows_revoke_entries l : forall al j a, Allows (revoke_entries l al) j a = Allows al j a && negb (listed l j a).
Proof.
  induction l as [|[j' acts] l IH]; intros al j a; cbn; [by rewrite andb_true_r|].
  change (foldl _ _ _) with (revoke_entries l (Allowlist_Revoke al j' acts)). rewrite IH, Allows_Revoke.
  fold (listed l j a). by destruct (Allows al j a), (bool_decide (j' = j)), (bool_decide (a ∈ acts)).
Qed.

Lemma grant_entries_wf l al : Allowlist_wf al -> Allowlist_wf (grant_entries l al).
Proof. revert al. induction l as [|e l IH]; intros al Hw; cbn; [done|]. by apply IH, Allowlist_Grant_wf. Qed.
Lemma revoke_entries_wf l al : Allowlist_wf al -> Allowlist_wf (revoke_entries l al).
Proof. revert al. induction l as [|e l IH]; intros al Hw; cbn; [done|]. by apply IH, Allowlist_Revoke_wf. Qed.
Lemma Allows_empty j a : Allows NewAllowlist j a = false.
Proof. unfold Allows, NewAllowlist. rewrite lookup_empty. by destruct (Action_IsValid a). Qed.
Lemma empty_al_wf : Allowlist_wf NewAllowlist.
Proof. apply map_Forall_empty. Qed.

Section Entries.
Context {mr : MapRange JID (list Z)}.

Lemma elem_of_entries al e : e ∈ range (Allowlist_Entries al) <-> Allowlist_Entries al !! e.1 = Some e.2.
Proof. destruct e as [j acts]. by rewrite range_perm, elem_of_map_to_list. Qed.

Lemma listed_entries al j a : Allows al j a = Action_IsValid a && listed (range (Allowlist_Entries al)) j a.
Proof.
  unfold Allows. destruct (Action_IsValid a) eqn:Ha; [|done]. cbn.
  apply eq_bool_prop_intro. unfold Is_true.
  assert (E : (match al !! j with Some s => actionSet_get s a | None => false end) = true
              <-> listed (range (Allowlist_Entries al)) j a = true).
  { unfold listed. rewrite existsb_exists. split.
    - destruct (al !! j) as [s|] eqn:Es; [|done]. intros Hg. exists (j, actionSet_list s).
      split; [|by rewrite !bool_decide_eq_true_2; [|by apply elem_of_list_actions|done]].
      apply list_elem_of_In, elem_of_entries. cbn [fst snd]. unfold Allowlist_Entries. by rewrite lookup_fmap, Es.
    - intros ([j' acts] & Hin & Hb). apply list_elem_of_In, elem_of_entries in Hin. cbn [fst snd] in Hin, Hb. bprop. subst j'.
      apply lookup_fmap_Some in Hin as (s & <- & ->).
      by apply elem_of_list_actions. }
  destruct (match al !! j with Some s => _ | None => _ end), (listed _ j a); naive_solver.
Qed.

(** Every entry revoked leaves nothing; every entry granted to nothing gives
    the policy itself. *)
Lemma revoke_all al : Allowlist_wf al -> revoke_entries (range (Allowlist_Entries al)) al = NewAllowlist.
Proof.
  intros Hw. apply al_equiv_eq; [by apply revoke_entries_wf|apply empty_al_wf|]. intros j a.
  rewrite Allows_revoke_entries, Allows_empty, listed_entries. by destruct (Action_IsValid a), (listed _ j a).
Qed.

Lemma grant_all al : Allowlist_wf al -> grant_entries (range (Allowlist_Entries al)) NewAllowlist = al.
Proof.
  intros Hw. apply al_equiv_eq; [apply grant_entries_wf, empty_al_wf|done|]. intros j a.
  by rewrite Allows_grant_entries, (listed_entries al), Allows_empty.
Qed.

Lemma swap_new newAL al : Allowlist_wf al -> Allowlist_wf newAL -> swap newAL al = newAL.
Proof. intros H1 H2. unfold swap. by rewrite revoke_all, grant_all. Qed.
End Entries.

(** *** The file reads back *)

(** Every recipient was parsed. *)
Definition parsed (al : Allowlist) : Prop := forall j, is_Some (al !! j) -> wf_jid j = true.

Lemma printable_weaken (q : ascii -> bool) s : (forall c, q c = true -> (32 <=? bz c) && (bz c <? 127) = true) ->
  str_forallb q s = true -> printable s = true.
Proof. intros Hq. by apply str_forallb_impl. Qed.

Lemma digit_printable c : is_digit c = true -> (32 <=? bz c) && (bz c <? 127) = true.
Proof. unfold is_digit, in_range. intros H. bprop. apply andb_true_iff. split; [apply Z.leb_le|apply Z.ltb_lt]; lia. Qed.

Lemma printable_app s t : printable (s +:+ t) = printable s && printable t.
Proof. apply str_forallb_app. Qed.

Lemma jid_printable j : wf_jid j = true -> printable (JID_String j) = true.
Proof.
  intros Hw. unfold JID_String. rewrite (wf_not_zero j Hw). rewrite !printable_app.
  assert (Hs : printable (server j) = true).
  { unfold wf_jid in Hw. destruct (phone_server (server j)) eqn:E; [unfold phone_server in E|clear E; apply andb_true_iff in Hw as [E _]; unfold group_server in E].
    all: rewrite !orb_true_iff, !String.eqb_eq in E; destruct_or! E; rewrite E; reflexivity. }
  rewrite Hs, andb_true_r.
  unfold wf_jid in Hw. destruct (phone_server _).
  - unfold allDigits in Hw. destruct (str_empty _); [done|]. revert Hw. apply printable_weaken, digit_printable.
  - apply andb_true_iff in Hw as [_ Hg]. unfold groupUserOK in Hg. destruct (str_empty _); [done|].
    destruct (str_forallb _ (user j)) eqn:F; [|done]. revert F. apply printable_weaken. intros c Hc.
    apply orb_true_iff in Hc as [Hc|Hc]; [by apply digit_printable|]. apply Ascii.eqb_eq in Hc. by subst.
Qed.

Lemma action_printable a : Action_IsValid a = true -> printable (Action_String a) = true.
Proof.
  intros Ha%Action_IsValid_range%valid_enum.
  assert (F : Forall (fun a => printable (Action_String a) = true) AllActions).
  { apply forallb_Forall_iff. vm_compute. reflexivity. }
  rewrite Forall_forall in F. by apply F.
Qed.

Lemma parse_action_names acts : Forall (fun a => Action_IsValid a = true) acts -> parse_actions (map Action_String acts) = Ok acts.
Proof. induction 1 as [|a acts Ha _ IH]; [done|]. cbn [map parse_actions]. rewrite ParseAction_String by done. cbn. by rewrite IH. Qed.

Lemma grant_rules_app r1 : forall r2 al, grant_rules (r1 ++ r2) al = (let* al := grant_rules r1 al in grant_rules r2 al).
Proof.
  induction r1 as [|r r1 IH]; intros r2 al; [done|]. cbn [app grant_rules].
  destruct (Parse (rl_JID r)); [|done]. destruct (parse_actions (rl_Actions r)); [apply IH|done].
Qed.

Lemma grant_rules_entries l : forall al, Forall (fun e : JID * list Z => wf_jid e.1 = true /\ Forall (fun a => Action_IsValid a = true) e.2) l ->
  grant_rules (map (fun '(jid, actions) => mkRule (JID_String jid) (map Action_String actions)) l) al = Ok (grant_entries l al).
Proof.
  induction l as [|[j acts] l IH]; intros al Hl; [done|]. apply Forall_cons in Hl as [[Hj Ha] Hl].
  cbn [map grant_rules rl_JID rl_Actions]. rewrite Parse_String, parse_action_names by done. by apply IH.
Qed.

Section Roundtrip.
Context {mr : MapRange JID (list Z)}.

Lemma entries_ok al : parsed al ->
  Forall (fun e : JID * list Z => wf_jid e.1 = true /\ Forall (fun a => Action_IsValid a = true) e.2) (range (Allowlist_Entries al)).
Proof.
  intros Hp. apply Forall_forall. intros [j acts] Hin. apply elem_of_entries in Hin. cbn [fst snd] in *.
  apply lookup_fmap_Some in Hin as (s & <- & Es).
  split; [apply Hp; eauto|]. apply Forall_forall. intros a Ha. apply elem_of_list_actions in Ha.
  unfold actionSet_get in Ha. by destruct (Action_IsValid a).
Qed.

Lemma rules_plain al : parsed al -> Forall plain_rule (rules_of al).
Proof.
  intros Hp. unfold rules_of. apply List.Forall_map. pose proof (entries_ok al Hp) as He.
  eapply Forall_impl; [exact He|]. intros [j acts] [Hj Ha]. split; [by apply jid_printable|].
  cbn [rl_Actions]. apply List.Forall_map. eapply Forall_impl; [exact Ha|]. apply action_printable.
Qed.

(** What is saved is read back as the same policy. *)
Definition encoded `{Toml} (al : Allowlist) : string := str_concat (toml_writes (rules_of al)).
Lemma parse_encoded `{Toml} al : Allowlist_wf al -> parsed al -> parseAllowlistBytes (encoded al) NewAllowlist = Ok al.
Proof.
  intros Hw Hp. unfold parseAllowlistBytes, encoded. rewrite toml_roundtrip by by apply rules_plain.
  unfold rules_of. rewrite grant_rules_entries by by apply entries_ok. by rewrite grant_all.
Qed.
End Roundtrip.

(** What a file parses to is a policy over parsed recipients. *)
Lemma parsed_grant al j acts : wf_jid j = true -> parsed al -> parsed (Allowlist_Grant al j acts).
Proof.
  intros Hj Hp j' Hs. unfold Allowlist_Grant in Hs. destruct (actionSet_empty _); [by apply Hp|].
  destruct (decide (j = j')) as [<-|Hn]; [done|]. rewrite lookup_insert_ne in Hs by done. by apply Hp.
Qed.
Lemma parsed_revoke al j acts : parsed al -> parsed (Allowlist_Revoke al j acts).
Proof.
  intros Hp j' Hs. unfold Allowlist_Revoke in Hs. destruct (al !! j) as [s|] eqn:E; [|by apply Hp].
  destruct (decide (j = j')) as [<-|Hn]; [by apply Hp; rewrite E|].
  destruct (actionSet_empty _); [rewrite lookup_delete_ne in Hs by done|rewrite lookup_insert_ne in Hs by done]; by apply Hp.
Qed.

Definition good (al : Allowlist) : Prop := Allowlist_wf al /\ parsed al.
Lemma good_empty : good NewAllowlist.
Proof. split; [apply empty_al_wf|]. intros j [s Hs]. unfold NewAllowlist in Hs. by rewrite lookup_empty in Hs. Qed.
Lemma grant_rules_good rules : forall al al', good al -> grant_rules rules al = Ok al' -> good al'.
Proof.
  induction rules as [|r rules IH]; intros al al' [Hw Hp] E; cbn in E; [by injection E as <-|].
  destruct (Parse (rl_JID r)) as [j|] eqn:Ej; [|done]. destruct (parse_actions _) as [acts|]; [|done].
  eapply IH; [|exact E]. split; [by apply Allowlist_Grant_wf|]. apply parsed_grant; [by eapply Parse_wf|done].
Qed.
Lemma parse_good `{Toml} data al : parseAllowlistBytes data NewAllowlist = Ok al -> good al.
Proof.
  unfold parseAllowlistBytes. destruct (toml_read data) as [rules|]; [|done]. apply grant_rules_good, good_empty.
Qed.

(** *** Saving *)

Lemma final_here n f p : (forall t, f !! p <> Some (NLink t)) -> final n f p = Some p.
Proof. intros Hn. destruct n; cbn [final]; (destruct (f !! p) as [[| |t]|] eqn:E; [done..| |done]); by destruct (Hn t). Qed.

Section Save.
Context {os : Os} {tl : Toml} {mr : MapRange JID (list Z)} (path : string) (f0 : fs).
Abbreviation tmp := (path +:+ ".tmp").

(** Nothing but the two files changed, and the temporary one is no link. *)
Definition elsewhere (f : fs) : Prop := forall p, p <> path -> p <> tmp -> f !! p = f0 !! p.
Definition no_link (f : fs) : Prop := forall t, f !! tmp <> Some (NLink t).
Definition kept (f : fs) : Prop := elsewhere f /\ f !! path = f0 !! path.
Definition held (c : string) (f : fs) : Prop := f !! path = Some (NFile c).
(** What a killed run leaves: the file as it was or the new one, whole. *)
Definition old_or (c : string) (f : fs) : Prop := elsewhere f /\ (f !! path = f0 !! path \/ held c f).
Definition filled (c : string) (f : fs) : Prop := kept f /\ f !! tmp = Some (NFile c).

Lemma tmp_ne : tmp <> path.
Proof. intros E. apply (f_equal String.length) in E. rewrite str_app_length in E. cbn in E. lia. Qed.

Lemma kept_tmp x f : kept f -> kept (<[tmp := x]> f).
Proof.
  intros [H1 H2]. split.
  - intros p Hp Ht. rewrite lookup_insert_ne by done. by apply H1.
  - rewrite lookup_insert_ne by apply tmp_ne. done.
Qed.
Lemma kept_no_tmp f : kept f -> kept (delete tmp f).
Proof.
  intros [H1 H2]. split.
  - intros p Hp Ht. rewrite lookup_delete_ne by done. by apply H1.
  - rewrite lookup_delete_ne by apply tmp_ne. done.
Qed.

Section Run.
Context (c : string).
Notation triple P m Q := (hoare (old_or c) P m Q).

Lemma kept_old f : kept f -> old_or c f.
Proof. intros [H1 H2]. split; [done|by left]. Qed.
Lemma filled_old d f : filled d f -> old_or c f.
Proof. intros [H _]. by apply kept_old. Qed.

Lemma h_OpenTrunc : no_link f0 -> triple (eq f0) (OpenTrunc tmp) (fun r f => match r with Ok q => q = tmp /\ filled "" f | Err _ => kept f end).
Proof.
  intros Hn. apply h_call.
  - intros f <-. by apply kept_old.
  - intros f <-. unfold fs_trunc. rewrite (final_here 40 f0 tmp Hn). assert (Hk : kept f0) by done.
    assert (Hf : filled "" (<[tmp := NFile ""]> f0)) by (split; [by apply kept_tmp|by rewrite lookup_insert_eq]).
    destruct (f0 !! tmp) as [[| |]|]; [done|done|done|]. by destruct (parent_ok tmp f0).
  - by intros f k why _ <-.
Qed.

Lemma h_write_all pieces : forall d, triple (filled d) (write_all tmp pieces)
  (fun r f => match r with Ok _ => filled (d +:+ str_concat pieces) f | Err _ => kept f end).
Proof.
  induction pieces as [|s pieces IH]; intros d; cbn [write_all].
  - apply h_ret. intros f Hf. cbn. by rewrite str_app_nil_r.
  - eapply h_bind.
    { assert (Hap : forall u f, filled d f -> filled (d +:+ u) (fs_append tmp u f)).
      { intros u f [Hk E]. unfold fs_append. rewrite E. split; [by apply kept_tmp|by rewrite lookup_insert_eq]. }
      apply (h_write _ _ _ (fun r f => match r with Ok _ => filled (d +:+ s) f | Err _ => kept f end)).
      - intros f n Hf. eapply filled_old. by apply Hap.
      - intros f Hf. by apply Hap.
      - intros f k why n _ Hf. by apply (Hap (str_take n s)). }
    intros [u|e]; [|by apply h_ret].
    eapply h_conseq; [apply (IH (d +:+ s))|done|]. intros [u'|e] f; [|done].
    cbn [str_concat fold_right]. by rewrite str_app_assoc.
Qed.

Lemma h_quiet_step {A} o (q : fs -> res errno A) (P : fs -> Prop) : (forall f, P f -> old_or c f) -> triple P (FileSys.ask o q) (fun _ => P).
Proof. intros HP. by apply h_ask. Qed.

Lemma h_drop P : (forall f, P f -> kept f) -> triple P (Remove tmp) (fun _ => kept).
Proof.
  intros HP. apply h_call.
  - intros f Hf. by apply kept_old, HP.
  - intros f Hf. apply HP in Hf. unfold fs_remove. destruct (f !! tmp) as [[]|]; [|by apply kept_no_tmp..|done].
    destruct (children _ _); [by apply kept_no_tmp|done].
  - intros f k why _ Hf. by apply HP.
Qed.

Lemma h_place : triple (filled c) (Rename tmp path) (fun r f => match r with Ok _ => elsewhere f /\ held c f | Err _ => kept f end).
Proof.
  apply h_call.
  - apply filled_old.
  - intros f [Hk E]. unfold fs_rename. rewrite E. destruct (negb (parent_ok path f)); [done|].
    assert (Hd : elsewhere (<[path := NFile c]> (delete tmp f)) /\ held c (<[path := NFile c]> (delete tmp f))).
    { split; [|unfold held; by rewrite lookup_insert_eq]. intros p Hp Ht. rewrite lookup_insert_ne, lookup_delete_ne by done. by apply Hk. }
    by destruct (f !! path) as [[]|].
  - by intros f k why _ [Hk _].
Qed.
End Run.

(** Saving is all or nothing. *)
Lemma h_saveAllowlist al : no_link f0 ->
  hoare (old_or (encoded al)) (eq f0) (saveAllowlist path al)
    (fun r f => match r with Ok _ => elsewhere f /\ held (encoded al) f | Err _ => kept f end).
Proof.
  intros Hn. unfold saveAllowlist. cbv zeta. eapply h_bind; [by apply h_OpenTrunc|].
  intros [q|e]; [|by apply h_ret].
  intros k f [-> Hf]. revert k f Hf. change (hoare (old_or (encoded al)) (filled "") (let! w := write_all tmp (toml_writes (rules_of al)) in
    match w with
    | Err e => let! _ := Close in let! _ := Remove tmp in ret (Err (wrapc "saveAllowlist: encode" (os_error e)))
    | Ok _ =>
      let! c := Close in
      match c with
      | Err e => let! _ := Remove tmp in ret (Err (wrapc "saveAllowlist: close tmp" (os_error e)))
      | Ok _ => let! r := Rename tmp path in
                ret (match r with Err e => Err (wrapc "saveAllowlist: rename" (os_error e)) | Ok _ => Ok tt end)
      end
    end) (fun r f => match r with Ok _ => elsewhere f /\ held (encoded al) f | Err _ => kept f end)).
  eapply h_bind; [apply h_write_all|]. cbn [String.append]. intros [u|e].
  - eapply h_bind; [apply h_quiet_step, filled_old|]. intros [u'|e].
    + eapply h_bind; [apply h_place|]. intros [u2|e]; by apply h_ret.
    + eapply h_bind; [apply h_drop; by intros f [Hk _]|]. intros r. by apply h_ret.
  - eapply h_bind; [apply h_quiet_step, kept_old|]. intros r.
    eapply h_bind; [by apply h_drop|]. intros r'. by apply h_ret.
Qed.
End Save.

(** ** Changing the allowlist *)

(** What a request asks for: nothing, or another policy. *)
Definition allow_spec (p : allowParams) (al : Allowlist) : result (option Allowlist) :=
  let op := ap_Op p in
  if (op =? "list")%string then Ok None
  else if negb ((op =? "add")%string || (op =? "remove")%string) then Err (ERpc app.ErrInvalidParams)
  else if str_empty (ap_JID p) || ((op =? "add")%string && bool_decide (ap_Actions p = [])) then Err (ERpc app.ErrInvalidParams)
  else
    match Parse (ap_JID p) with
    | Err _ => Err (ERpc app.ErrInvalidJID)
    | Ok jid =>
      if (op =? "remove")%string then Ok (Some (delete jid al))
      else match parse_actions (ap_Actions p) with
           | Err _ => Err (ERpc app.ErrInvalidParams)
           | Ok actions => Ok (Some (Allowlist_Grant al jid actions))
           end
    end.

Lemma parse_actions_valid l : forall acts, parse_actions l = Ok acts -> Forall (fun a => Action_IsValid a = true) acts.
Proof.
  induction l as [|s l IH]; intros acts E; cbn in E; [injection E as <-; by apply Forall_nil_2|].
  apply res_bind_ok in E as (a & Ha & E). apply res_bind_ok in E as (acts' & E & [= <-]).
  apply Forall_cons_2; [|by apply IH]. unfold ParseAction in Ha.
  destruct (find_name actionNames s 0) as [i|] eqn:Ef; [|done]. injection Ha as <-.
  assert (Hall : forallb (fun s => match find_name actionNames s 0 with Some i => Action_IsValid i | None => true end) actionNames = true)
    by (vm_compute; reflexivity).
  rewrite forallb_forall in Hall.
  destruct (decide (s ∈ actionNames)) as [Hin|Hin].
  { apply list_elem_of_In, Hall in Hin. by rewrite Ef in Hin. }
  exfalso. clear Hall IH. revert Ef. generalize 0 as z. revert Hin. generalize actionNames as names.
  induction names as [|n names IH]; intros Hin z Ef; cbn in Ef; [done|]. apply not_elem_of_cons in Hin as [Hn Hin].
  destruct (_ && _) eqn:Eb; [bprop; apply String.eqb_eq in H0; congruence|]. by eapply IH.
Qed.

Lemma entries_of_none al jid : al !! jid = None -> entries_of al jid = [].
Proof. intros E. unfold entries_of, Allowlist_Entries. rewrite lookup_fmap, E. reflexivity. Qed.
Lemma elem_of_entries_of al jid a : a ∈ entries_of al jid <-> Allows al jid a = true.
Proof.
  unfold entries_of, Allowlist_Entries, Allows. rewrite lookup_fmap. destruct (al !! jid) as [s|].
  - change (default [] (actionSet_list <$> Some s)) with (actionSet_list s). rewrite elem_of_list_actions.
    unfold actionSet_get. by destruct (Action_IsValid a).
  - change (default [] (actionSet_list <$> None)) with (@nil Z). rewrite elem_of_nil. by destruct (Action_IsValid a).
Qed.

(** Reverting a grant restores the policy. *)
Lemma add_reverts al jid actions : Allowlist_wf al ->
  (let gone := Allowlist_Revoke (Allowlist_Grant al jid actions) jid actions in
   match entries_of al jid with [] => gone | _ => Allowlist_Grant gone jid (entries_of al jid) end) = al.
Proof.
  intros Hw. cbv zeta. assert (Hl : forall l, l = entries_of al jid ->
    Allowlist_Grant (Allowlist_Revoke (Allowlist_Grant al jid actions) jid actions) jid l = al).
  { intros l ->. apply al_equiv_eq; [by apply Allowlist_Grant_wf, Allowlist_Revoke_wf, Allowlist_Grant_wf|done|]. intros j a.
    rewrite Allows_Grant, Allows_Revoke, Allows_Grant. destruct (Action_IsValid a) eqn:Ha.
    2: { unfold Allows. by rewrite Ha. }
    case_bool_decide as Hj; [subst j|by destruct (Allows al j a)].
    case_bool_decide as Hin; cbn; rewrite ?andb_true_r, ?orb_false_r, ?orb_true_r.
    - cbn. pose proof (elem_of_entries_of al jid a) as He. destruct (Allows al jid a); case_bool_decide; naive_solver.
    - pose proof (elem_of_entries_of al jid a) as He. destruct (Allows al jid a); case_bool_decide; naive_solver. }
  destruct (entries_of al jid) as [|a l] eqn:El; [|by apply Hl].
  rewrite <- (Hl [] eq_refl) at 2. symmetry. apply al_equiv_eq.
  - by apply Allowlist_Grant_wf, Allowlist_Revoke_wf, Allowlist_Grant_wf.
  - by apply Allowlist_Revoke_wf, Allowlist_Grant_wf.
  - intros j a. rewrite (Allows_Grant _ jid []). rewrite (bool_decide_eq_false_2 (a ∈ [])) by apply not_elem_of_nil.
    by rewrite andb_false_r, orb_false_r.
Qed.

(** Removing revokes exactly the entry, and reverting grants it again. *)
Lemma remove_deletes al jid : Allowlist_wf al -> Allowlist_Revoke al jid (entries_of al jid) = delete jid al.
Proof.
  intros Hw. apply al_equiv_eq; [by apply Allowlist_Revoke_wf|by apply map_Forall_delete|]. intros j a.
  rewrite Allows_Revoke. case_bool_decide as Hj; cbn.
  - subst j. unfold Allows at 2. rewrite lookup_delete_eq. pose proof (elem_of_entries_of al jid a) as He.
    destruct (Action_IsValid a) eqn:Ha; [|unfold Allows; by rewrite Ha]. cbn.
    destruct (Allows al jid a); [|done]. rewrite bool_decide_eq_true_2 by by apply He. done.
  - rewrite andb_true_r. unfold Allows. by rewrite lookup_delete_ne.
Qed.
Lemma remove_reverts al jid : Allowlist_wf al -> Allowlist_Grant (delete jid al) jid (entries_of al jid) = al.
Proof.
  intros Hw. apply al_equiv_eq; [apply Allowlist_Grant_wf; by apply map_Forall_delete|done|]. intros j a.
  rewrite Allows_Grant. pose proof (elem_of_entries_of al jid a) as He. case_bool_decide as Hj.
  - subst j. unfold Allows at 1. rewrite lookup_delete_eq. destruct (Action_IsValid a) eqn:Ha; [|unfold Allows; by rewrite Ha].
    cbn. destruct (Allows al jid a); case_bool_decide; naive_solver.
  - rewrite andb_false_r, orb_false_r. unfold Allows. by rewrite lookup_delete_ne.
Qed.
Lemma remove_nothing al jid : Allowlist_wf al -> entries_of al jid = [] -> delete jid al = al.
Proof.
  intros Hw E. rewrite <- remove_deletes by done. rewrite E. apply al_equiv_eq; [by apply Allowlist_Revoke_wf|done|].
  intros j a. rewrite Allows_Revoke, (bool_decide_eq_false_2 (a ∈ [])) by apply not_elem_of_nil. by rewrite andb_false_r, andb_true_r.
Qed.

Section Atomic.
Context {os : Os} {tl : Toml} {mr : MapRange JID (list Z)} (rec : check goerr) (path : string) (f0 : fs).

(** The file holds a policy. *)
Definition reads (f : fs) (al : Allowlist) : Prop := exists c, f !! path = Some (NFile c) /\ parseAllowlistBytes c NewAllowlist = Ok al.

(** How a change from [s] to the policy [al] may end. *)
Definition settled (s : policy) (al : Allowlist) (o : outcome (result json * policy)) : Prop :=
  match o with
  | Done (Ok _, s') _ f => rec = Ok tt /\ po_al s' = al /\ (exists row, po_audit s' = po_audit s ++ [row])
                           /\ elsewhere path f0 f /\ reads f al
  | Done (Err _, s') _ f => po_al s' = po_al s /\ (po_audit s' = po_audit s \/ rec = Ok tt) /\ kept path f0 f
  | Crashed f => elsewhere path f0 f /\ (f !! path = f0 !! path \/ reads f al)
  end.

Lemma save_settles (s s1 : policy) (al : Allowlist) (ctx : goerr -> goerr) (v : json) (back : policy -> policy) (evt : AuditEvent) k :
  no_link path f0 -> good al -> po_al s1 = al -> po_audit s1 = po_audit s ->
  (forall t, po_al t = al -> po_al (back t) = po_al s /\ po_audit (back t) = po_audit t) ->
  settled s al ((match rec with
     | Err e => ret (Err (ctx e), back s1)
     | Ok _ =>
       let s := audit_Record rec evt s1 in
       let! r := saveAllowlist path (po_al s) in
       ret (match r with Err e => (Err (wrapc "persist allowlist" e), back s) | Ok _ => (Ok v, s) end)
     end) k f0).
Proof.
  intros Hn [Hw Hp] Hal Ha Hb. destruct rec as [[]|e] eqn:Er.
  2: { cbn. destruct (Hb s1 Hal) as [H1 H2]. split; [done|]. split; [left; congruence|done]. }
  cbv zeta. unfold audit_Record. cbn [po_al]. rewrite Hal. set (s2 := mkPolicy al (po_audit s1 ++ [evt])).
  pose proof (h_saveAllowlist path f0 al Hn k f0 eq_refl) as Hs. unfold bind.
  assert (Hread : forall f, held path (encoded al) f -> reads f al).
  { intros f Hf. exists (encoded al). split; [done|by apply parse_encoded]. }
  destruct (saveAllowlist path al k f0) as [r k' f|f]; cbn [settled].
  - destruct r as [[]|e]; cbn.
    + destruct Hs as [He Hh]. split_and!; [done|done|exists evt; by rewrite <- Ha|done|by apply Hread].
    + destruct (Hb s2 eq_refl) as [H1 H2]. split; [done|]. split; [by right|done].
  - destruct Hs as [[He [Hs|Hs]] _]; (split; [done|]); [by left|right; by apply Hread].
Qed.
End Atomic.

(** C5. A change of the allowlist over the socket is all or nothing, and
    recorded.  [allow] does what [allow_spec] says: a request that is refused
    changes nothing; one that succeeds has left its row in the audit log, and
    the policy asked for in memory and in the file, which reads back as it; one
    that fails, because the audit log or any call of the system did, leaves
    the policy and the file exactly as they were; and one the system kills
    leaves the file as it was or holding the new policy, whole. *)
Theorem allow_changes_whole {os : Os} {tl : Toml} {mr : MapRange JID (list Z)}
    (now : time) (rec : check goerr) (path : string) (raw : RawMessage) (s : policy) (k : nat) (f : fs) :
  good (po_al s) -> no_link path f ->
  let o := handleAllow now rec path raw s k f in
  match parseParams dec_allowParams raw with
  | Err e => o = Done (Err e, s) k f
  | Ok p =>
    match allow_spec p (po_al s) with
    | Err e => o = Done (Err e, s) k f
    | Ok None => exists listing, o = Done (Ok listing, s) k f
    | Ok (Some al) => good al /\ settled rec path f s al o
    end
  end.
Proof.
  intros [Hw Hp] Hn. cbv zeta. unfold handleAllow. destruct (parseParams dec_allowParams raw) as [p|e]; [|done].
  unfold allow_spec. destruct (String.eqb_spec (ap_Op p) "list") as [->|Hl]; [by eexists|].
  destruct (String.eqb_spec (ap_Op p) "add") as [->|Ha]; cbn [negb orb andb String.eqb Ascii.eqb Bool.eqb].
  - unfold handleAllowAdd. destruct (str_empty (ap_JID p) || bool_decide (ap_Actions p = [])) eqn:Eb; [done|].
    destruct (Parse (ap_JID p)) as [jid|e] eqn:Ej; [|done]. cbn.
    destruct (parse_actions (ap_Actions p)) as [acts|e]; [|done].
    assert (Hg : good (Allowlist_Grant (po_al s) jid acts)).
    { split; [by apply Allowlist_Grant_wf|]. apply parsed_grant; [by eapply Parse_wf|done]. }
    split; [done|]. unfold add_settle.
    apply (save_settles rec path f s (with_al (Allowlist_Grant (po_al s) jid acts) s) _ (wrapc "audit grant") _
             (add_revert jid acts (entries_of (po_al s) jid))); try done.
    intros t Ht. split; [|done]. unfold add_revert. cbn [po_al with_al]. rewrite Ht. by apply (add_reverts (po_al s) jid acts).
  - destruct (String.eqb_spec (ap_Op p) "remove") as [Hr|Hr]; [|done]. cbn.
    unfold handleAllowRemove. rewrite orb_false_r. destruct (str_empty (ap_JID p)); [done|].
    destruct (Parse (ap_JID p)) as [jid|e] eqn:Ej; [|done]. cbn.
    assert (Hg : good (delete jid (po_al s))).
    { split; [by apply map_Forall_delete|]. intros j Hj. apply Hp. destruct (decide (j = jid)) as [->|Hne].
      - rewrite lookup_delete_eq in Hj. by destruct Hj.
      - by rewrite lookup_delete_ne in Hj. }
    split; [done|].
    apply (save_settles rec path f s _ _ (wrapc "audit revoke") _ (remove_revert jid (entries_of (po_al s) jid))); try done.
    + destruct (entries_of (po_al s) jid) as [|a l] eqn:El; cbn [po_al with_al]; [by rewrite remove_nothing|].
      rewrite <- El. by apply remove_deletes.
    + by destruct (entries_of (po_al s) jid).
    + intros t Ht. unfold remove_revert. destruct (entries_of (po_al s) jid) as [|a l] eqn:El.
      * split; [|done]. rewrite Ht. by apply remove_nothing.
      * split; [|done]. cbn [po_al with_al]. rewrite Ht, <- El. by apply remove_reverts.
Qed.

(** ** Reloading *)

Section Reload.
Context {os : Os} {tl : Toml} {mr : MapRange JID (list Z)}.

(** The policies a reader can see while [swap] runs: the allowlist's own lock
    is held for one call at a time. *)
Definition swap_states (newAL al : Allowlist) : list Allowlist :=
  let old := range (Allowlist_Entries al) in
  let new := range (Allowlist_Entries newAL) in
  map (fun n => revoke_entries (take n old) al) (seq 0 (S (length old)))
  ++ map (fun n => grant_entries (take n new) (revoke_entries old al)) (seq 0 (S (length new))).

Lemma listed_take n l j a : listed (take n l) j a = true -> listed l j a = true.
Proof.
  unfold listed. rewrite !existsb_exists. intros (e & Hin & He). exists e. split; [|done].
  apply list_elem_of_In. apply list_elem_of_In in Hin. by eapply subseteq_take.
Qed.

Lemma seen_bounded newAL al seen j a : good al -> seen ∈ swap_states newAL al -> Allows seen j a = true ->
  Allows al j a = true \/ Allows newAL j a = true.
Proof.
  intros [Hw _] Hs Ha. apply elem_of_app in Hs as [Hs|Hs]; apply list_elem_of_fmap in Hs as (n & -> & _).
  - left. rewrite Allows_revoke_entries in Ha. by apply andb_true_iff in Ha as [Ha _].
  - right. rewrite revoke_all, Allows_grant_entries, Allows_empty in Ha by done. cbn [orb] in Ha. bprop.
    rewrite listed_entries. apply andb_true_iff. split; [done|]. by eapply listed_take.
Qed.

(** C6. Reloading the allowlist fails safe.  When the file cannot be read or
    does not parse, the policy stays as it is and one refused row says so; when
    it does, the policy becomes the file's, no file meaning nobody is allowed,
    with one granted row.  And while the entries are being exchanged, in
    whatever order the maps are iterated, no reader of the policy is allowed
    anything that neither the old nor the new one allows. *)
Theorem reload_fails_safe (now : time) (rec : check goerr) (source path : string) (s s' : policy) (r : result nat) (k k' : nat) (f f' : fs) :
  good (po_al s) -> reloadAllowlist now rec source path s k f = Done (r, s') k' f' ->
  f' = f
  /\ (rec = Ok tt -> exists row, po_audit s' = po_audit s ++ [row] /\ ae_Action row = AuditReload
        /\ ae_Decision row = (match r with Ok _ => "granted" | Err _ => "refused" end))
  /\ match r with
     | Err _ => po_al s' = po_al s
     | Ok n => good (po_al s') /\ n = Allowlist_Size (po_al s')
         /\ (match fs_read path f with
             | Ok data => parseAllowlistBytes data NewAllowlist = Ok (po_al s')
             | Err e => e = ENOENT /\ po_al s' = NewAllowlist
             end)
         /\ forall seen j a, seen ∈ swap_states (po_al s') (po_al s) -> Allows seen j a = true ->
              Allows (po_al s) j a = true \/ Allows (po_al s') j a = true
     end.
Proof.
  intros Hg E. unfold reloadAllowlist, loadAllowlist, bind, ReadFile, FileSys.ask, call in E.
  destruct (os_crash k); [done|].
  set (row r n := NewAuditEventFrom source "wad" AuditReload zeroJID r n now) in *.
  assert (Hrow : forall al d t, rec = Ok tt -> exists row, po_audit (audit_Record rec (NewAuditEventFrom source "wad" AuditReload zeroJID d t now) (mkPolicy al (po_audit s)))
      = po_audit s ++ [row] /\ ae_Action row = AuditReload /\ ae_Decision row = d).
  { intros al d t ->. by eexists. }
  assert (Hkeep : forall d t, po_al (audit_Record rec (NewAuditEventFrom source "wad" AuditReload zeroJID d t now) s) = po_al s) by by destruct rec.
  assert (Hload : forall al, good al ->
    let al' := swap al (po_al s) in let s1 := with_al al' s in
    let s2 := audit_Record rec (NewAuditEventFrom source "wad" AuditReload zeroJID "granted"
                ("allowlist reloaded: " +:+ itoa (Z.of_nat (Allowlist_Size (po_al s1))) +:+ " entries") now) s1 in
    po_al s2 = al /\ Allowlist_Size (po_al s1) = Allowlist_Size al
    /\ forall seen j a, seen ∈ swap_states al (po_al s) -> Allows seen j a = true -> Allows (po_al s) j a = true \/ Allows al j a = true).
  { intros al Hal. cbv zeta. assert (Hs : swap al (po_al s) = al) by (apply swap_new; [apply Hg|apply Hal]).
    split_and!; [destruct rec; by cbn; rewrite Hs|cbn; by rewrite Hs|]. intros seen j a. by apply seen_bounded. }
  destruct s as [al0 rows]. cbn [po_al po_audit] in *.
  destruct (os_fault k SRead) as [why|].
  - cbn in E. injection E as <- <- <- <-. split; [done|]. split; [by apply (Hrow al0)|apply Hkeep].
  - destruct (fs_read path f) as [data|e].
    + destruct (parseAllowlistBytes data NewAllowlist) as [al|e] eqn:Ep.
      * unfold ret in E. injection E as <- Es <- <-. pose proof (parse_good data al Ep) as Hal.
        destruct (Hload al Hal) as (E1 & E2 & E3). assert (Ea : po_al s' = al) by (rewrite <- Es; exact E1).
        split; [done|]. split; [rewrite <- Es; by apply Hrow|]. rewrite Ea. by split_and!.
      * unfold ret in E. injection E as <- <- <- <-. split; [done|]. split; [by apply (Hrow al0)|apply Hkeep].
    + destruct (decide (e = ENOENT)) as [->|He].
      { unfold ret in E. injection E as <- Es <- <-. destruct (Hload NewAllowlist good_empty) as (E1 & E2 & E3).
        assert (Ea : po_al s' = NewAllowlist) by (rewrite <- Es; exact E1).
        split; [done|]. split; [rewrite <- Es; by apply Hrow|]. rewrite Ea. split_and!; try done. apply good_empty. }
      destruct e; [done|..]; unfold ret in E; injection E as <- <- <- <-.
      all: split; [done|]; split; [by apply (Hrow al0)|apply Hkeep].
Qed.

(** A reload of the very same policy passes through a moment in which nobody is
    allowed anything. *)
Lemma reload_denies_meanwhile (al : Allowlist) : good al -> NewAllowlist ∈ swap_states al al.
Proof.
  intros [Hw _]. apply elem_of_app. left. apply list_elem_of_fmap. exists (length (range (Allowlist_Entries al))).
  rewrite firstn_all, revoke_all by done. split; [done|]. apply elem_of_seq. lia.
Qed.
End Reload.

Lemma last_cons {A} (l : list A) : forall x d, List.last (x :: l) d = List.last l x.
Proof. induction l as [|y l IH]; intros x d; [done|]. change (List.last (x :: y :: l) d) with (List.last (y :: l) d). by rewrite !IH. Qed.

(** A burst of events is one reload: while each comes within the interval of
    the one before, nothing waits in the channel, and the timer is set for the
    interval after the last. *)
Lemma burst_expires_once (ts : list time) : forall t0,
  Forall2 (fun a b => a <= b < a + debounce) (removelast (t0 :: ts)) ts ->
  foldl (fun b t => Trigger t (expire t b)) (Trigger t0 newAllowlistDebouncer) ts
  = mkDebouncer (Some (List.last ts t0 + debounce)) false.
Proof.
  induction ts as [|t ts IH]; intros t0 Hf; [done|].
  cbn [foldl]. change (removelast (t0 :: t :: ts)) with (t0 :: removelast (t :: ts)) in Hf.
  inversion Hf as [|? ? ? ? Ht Hf']; subst.
  assert (E : Trigger t (expire t (Trigger t0 newAllowlistDebouncer)) = Trigger t newAllowlistDebouncer).
  { unfold expire, Trigger. cbn [deb_armed deb_full deb_Stop newAllowlistDebouncer].
    destruct (Z.leb_spec (t0 + debounce) t); [lia|]. done. }
  by rewrite E, (IH t Hf'), last_cons.
Qed.

(** ** A demonstration *)

#[local] Instance demo_order : MapRange JID (list Z) :=
  {| range := map_to_list; range_perm := fun m => reflexivity (map_to_list m) |}.

(** A codec that is not TOML but meets the law. *)
Definition demo_pack (l : list allowlistRule) : positive := encode (map (fun r => (rl_JID r, rl_Actions r)) l).
Definition demo_unpack (s : string) : result (list allowlistRule) :=
  match digits_val 0 s with
  | Some (Zpos p) =>
    match (decode p : option (list (string * list string))) with
    | Some l => Ok (map (fun x => mkRule x.1 x.2) l)
    | None => Err (ENew "toml: not a table")
    end
  | _ => Err (ENew "toml: expected a value")
  end.
Lemma demo_codec l : demo_unpack (str_concat [pretty (Npos (demo_pack l))]) = Ok l.
Proof.
  cbn [str_concat fold_right]. rewrite str_app_nil_r. unfold demo_unpack. unfold pretty, pretty_N.
  destruct (decide _) as [E|_]; [done|]. rewrite digits_val_pretty. cbn [digits_val Z.of_N].
  unfold demo_pack. rewrite decode_encode, map_map. f_equal. rewrite <- (map_id l) at 2. apply map_ext. by intros [].
Qed.
Definition demo_toml : Toml :=
  {| toml_read := demo_unpack; toml_writes := fun l => [pretty (Npos (demo_pack l))]; toml_roundtrip := fun l _ => demo_codec l |}.

Definition demo_ana : JID := mkJID "5511999990000" serverUser.
Definition demo_bia : JID := mkJID "5511888880000" serverUser.
Definition demo_config : fs := list_to_map [("/c", NDir)].
Definition demo_policy : policy := mkPolicy (Allowlist_Grant NewAllowlist demo_bia [ActionRead]) [].
Definition demo_request (op jid : string) (acts : list string) : RawMessage :=
  Some (JObj [("op", JStr op); ("jid", JStr jid); ("actions", JArr (map JStr acts))]).
Definition demo_allow (os : Os) (rec : check goerr) (raw : RawMessage) (s : policy) (f : fs) : outcome (result json * policy) :=
  @handleAllow os demo_toml demo_order 0 rec "/c/allow.toml" raw s 0%nat f.

Lemma demo_policy_good : good (po_al demo_policy).
Proof. split; [apply Allowlist_Grant_wf, empty_al_wf|]. apply parsed_grant; [done|apply good_empty]. Qed.

(** An addition whose file cannot be renamed into place, and one that can. *)
Lemma allow_changes_whole_witness :
  (exists e s k f, demo_allow (failing_at 3) (Ok tt) (demo_request "add" "5511999990000" ["send"]) demo_policy demo_config = Done (Err e, s) k f
     /\ po_al s = po_al demo_policy /\ f !! "/c/allow.toml" = None)
  /\ exists v s k f, demo_allow calm (Ok tt) (demo_request "add" "5511999990000" ["send"]) demo_policy demo_config = Done (Ok v, s) k f
     /\ Allows (po_al s) demo_ana ActionSend = true /\ @reads demo_toml "/c/allow.toml" f (po_al s).
Proof.
  assert (Hn : no_link "/c/allow.toml" demo_config) by (intros t; vm_compute; discriminate).
  split.
  - pose proof (@allow_changes_whole (failing_at 3) demo_toml demo_order 0 (Ok tt) "/c/allow.toml"
      (demo_request "add" "5511999990000" ["send"]) demo_policy 0%nat demo_config demo_policy_good Hn) as [_ H].
    fold (demo_allow (failing_at 3) (Ok tt) (demo_request "add" "5511999990000" ["send"]) demo_policy demo_config) in H.
    assert (Hr : match demo_allow (failing_at 3) (Ok tt) (demo_request "add" "5511999990000" ["send"]) demo_policy demo_config with
      | Done (Err _, _) _ _ => true | _ => false end = true) by (vm_compute; reflexivity).
    destruct (demo_allow (failing_at 3) _ _ _ _) as [[[v|e] s] k f|f]; [discriminate Hr| |discriminate Hr].
    destruct H as (H1 & _ & _ & H2). exists e, s, k, f. split; [reflexivity|]. split; [exact H1|]. rewrite H2. reflexivity.
  - pose proof (@allow_changes_whole calm demo_toml demo_order 0 (Ok tt) "/c/allow.toml"
      (demo_request "add" "5511999990000" ["send"]) demo_policy 0%nat demo_config demo_policy_good Hn) as [_ H].
    fold (demo_allow calm (Ok tt) (demo_request "add" "5511999990000" ["send"]) demo_policy demo_config) in H.
    assert (Hr : match demo_allow calm (Ok tt) (demo_request "add" "5511999990000" ["send"]) demo_policy demo_config with
      | Done (Ok _, _) _ _ => true | _ => false end = true) by (vm_compute; reflexivity).
    destruct (demo_allow calm _ _ _ _) as [[[v|e] s] k f|f]; [|discriminate Hr..].
    destruct H as (_ & H1 & _ & _ & H2). exists v, s, k, f. split; [reflexivity|]. rewrite H1 in *. split; [reflexivity|exact H2].
Defined.

(** A file that does not parse is refused. *)
Lemma reload_fails_safe_witness : exists e s k, @reloadAllowlist calm demo_toml demo_order 0 (Ok tt) "internal" "/c/allow.toml" demo_policy 0%nat
    (<["/c/allow.toml" := NFile "rules = ?"]> demo_config) = Done (Err e, s) k (<["/c/allow.toml" := NFile "rules = ?"]> demo_config)
  /\ po_al s = po_al demo_policy.
Proof.
  set (f := <["/c/allow.toml" := NFile "rules = ?"]> demo_config).
  assert (Hr : match @reloadAllowlist calm demo_toml demo_order 0 (Ok tt) "internal" "/c/allow.toml" demo_policy 0%nat f with
      | Done (Err _, _) _ _ => true | _ => false end = true) by (vm_compute; reflexivity).
  destruct (@reloadAllowlist calm demo_toml demo_order 0 (Ok tt) "internal" "/c/allow.toml" demo_policy 0%nat f) as [[[n|e] s] k f'|f'] eqn:E;
    [discriminate Hr| |discriminate Hr].
  destruct (reload_fails_safe _ _ _ _ _ _ _ _ _ _ _ demo_policy_good E) as (-> & _ & H). exists e, s, k. split; [reflexivity|exact H].
Defined.

(** Two additions at once: the first has granted and is about to write its audit
    row, the second runs from beginning to end, and then the log fails the
    first, which reverts its grant and answers an error.  The file the second
    one saved holds the grant all the same, and the next reload brings it back,
    with no row for it anywhere. *)
Definition demo_second : policy * fs :=
  match demo_allow calm (Ok tt) (demo_request "add" "5511777770000" ["send"])
          (with_al (Allowlist_Grant (po_al demo_policy) demo_ana [ActionSend]) demo_policy) demo_config with
  | Done (_, s) _ f => (s, f)
  | Crashed f => (demo_policy, f)
  end.
Definition demo_first : policy :=
  match @add_settle calm demo_toml demo_order 0 (Err (ENew "disk full")) "/c/allow.toml" demo_ana ["send"] [ActionSend] []
          demo_second.1 0%nat demo_second.2 with
  | Done (_, s) _ _ => s
  | Crashed _ => demo_policy
  end.
Definition demo_reloaded : policy :=
  match @reloadAllowlist calm demo_toml demo_order 0 (Ok tt) "watchAllowlist" "/c/allow.toml" demo_first 0%nat demo_second.2 with
  | Done (_, s) _ _ => s
  | Crashed _ => demo_policy
  end.
Lemma unaudited_grant_returns :
  Allows (po_al demo_first) demo_ana ActionSend = false /\ Allows (po_al demo_reloaded) demo_ana ActionSend = true
  /\ List.filter (fun row => bool_decide (ae_Subject row = demo_ana)) (po_audit demo_reloaded) = [].
Proof. split_and!; vm_compute; reflexivity. Qed.
