(* ===== verification/Migrate.v ===== *)
(** * The migration from one profile to several

    [cmd/wad/migrate.go], with [ensureDirs] of [cmd/wad/dirs.go] and the exit
    codes of [cmd/wad/migrate_cmd.go].  Before the daemon opens anything it
    moves the files of an installation that knew one profile into the
    directory of a profile, under a marker that a later start finds if this one
    dies on the way.  Files and their paths are a state of [FileSys]; log lines
    are left out.  The clock's text and the hash in the marker, and SQLite's
    checkpoint, are parameters. *)
From S2P Require Import Prelude GoStd Profile FileSys.

#[local] Open Scope string_scope.
#[local] Open Scope list_scope.
#[local] Open Scope Z_scope.
#[local] Open Scope prog_scope.

Inductive mig_sentinel := ErrMigrationAborted | ErrCrossFilesystem.
#[global] Instance mig_sentinel_eq_dec : EqDecision mig_sentinel.
Proof. solve_decision. Defined.

Inductive merr :=
| MErrno (e : errno)                        (* an error of package os *)
| MNew (msg : string)
| MIs (s : mig_sentinel) (detail : merr)    (* fmt.Errorf("%w: ...", s, ...) *)
| MCtx (ctx : string) (e : merr).           (* fmt.Errorf("ctx: %w", e) *)

Fixpoint merr_is (s : mig_sentinel) (e : merr) : bool :=
  match e with
  | MErrno _ | MNew _ => false
  | MIs s' e => bool_decide (s = s') || merr_is s e
  | MCtx _ e => merr_is s e
  end.
(** [os.IsNotExist]: it does not look inside a wrapped error. *)
Definition IsNotExist (e : merr) : bool := match e with MErrno ENOENT => true | _ => false end.
Definition not_exist (e : errno) : bool := bool_decide (e = ENOENT).

Record MigrationStep := mkStep { ms_From : string; ms_To : string; ms_Kind : string }.
Record sourceFile := mkSource { sf_Src : string; sf_Dst : string; sf_Required : bool; sf_IsSidecar : bool }.

Class MarkerText := { marker_time : string; sha256_hex : string -> string }.
Class Sqlite := { checkpoint : string -> fs -> res errno unit * fs }.

Definition SchemaVersion : Z := 2.
Definition newline : string := String (chr 10) "".
Definition tab : ascii := chr 9.

Abbreviation mprog A := (prog (res merr A)).
Definition lift_errno {A} (r : res errno A) : res merr A :=
  match r with Ok a => Ok a | Err e => Err (MErrno e) end.

Section Migrate.
Context `{Xdg, Os, Machine, MarkerText, Sqlite}.

(** ** Helpers *)

Definition ok {A} (r : res errno A) : bool := is_ok r.

Definition fsyncDir (path : string) : mprog unit :=
  let! f := Open path in
  match f with
  | Err e => ret (Err (MErrno e))
  | Ok _ => let! r := Sync in let! _ := Close in ret (lift_errno r)
  end.

Definition write_temp (tmp path content : string) : mprog unit :=
  let! r := Write tmp content in
  match r with Err e => let! _ := Close in ret (Err (MErrno e)) | Ok _ =>
  let! r := Chmod tmp in
  match r with Err e => let! _ := Close in ret (Err (MErrno e)) | Ok _ =>
  let! r := Sync in
  match r with Err e => let! _ := Close in ret (Err (MErrno e)) | Ok _ =>
  let! r := Close in
  match r with Err e => ret (Err (MErrno e)) | Ok _ =>
  let! r := Rename tmp path in
  match r with Err e => ret (Err (MErrno e)) | Ok _ =>
  fsyncDir (dir_of path)
  end end end end end.

(** The deferred removal. *)
Definition drop_temp (tmp : string) : prog unit :=
  let! st := Stat tmp in
  if ok st then let! _ := Remove tmp in ret tt else ret tt.

Definition atomicWriteFile (path content : string) : mprog unit :=
  let! r := MkdirAll (dir_of path) in
  match r with
  | Err e => ret (Err (MErrno e))
  | Ok _ =>
    let! t := CreateTemp (join (dir_of path) (".tmp-" +:+ base_of path +:+ "-")) in
    match t with
    | Err e => ret (Err (MErrno e))
    | Ok tmp =>
      let! r := write_temp tmp path content in
      let! _ := drop_temp tmp in ret r
    end
  end.

Definition writeSchemaVersion (path : string) (version : Z) : mprog unit :=
  atomicWriteFile path (itoa version +:+ newline).
Definition writeActiveProfile (path name : string) : mprog unit := atomicWriteFile path (name +:+ newline).

Definition readSchemaVersion (path : string) : mprog Z :=
  let! data := ReadFile path in
  ret match data with
      | Ok c => Ok (default 1 (ParseInt (trim_space c)))
      | Err e => if not_exist e then Ok 1 else Err (MCtx "read schema version" (MErrno e))
      end.

Definition is_copy (s : MigrationStep) : bool := String.eqb (ms_Kind s) "copy".
Definition marker_line (s : MigrationStep) : string :=
  ms_Kind s +:+ String tab (ms_From s +:+ String tab (ms_To s +:+ newline)).
Definition marker_body (plan : list MigrationStep) : string :=
  "# wa migration write-ahead marker (schema v1 → v2)" +:+ newline
  +:+ "ts=" +:+ marker_time +:+ newline
  +:+ str_concat (map marker_line (List.filter is_copy plan)).
Definition marker_text (plan : list MigrationStep) : string :=
  marker_body plan +:+ "sha256=" +:+ sha256_hex (marker_body plan) +:+ newline.
Definition writeMarker (path : string) (plan : list MigrationStep) : mprog unit :=
  atomicWriteFile path (marker_text plan).

Definition parse_line (line : string) : option MigrationStep :=
  let line := trim_space line in
  if str_empty line || has_prefix "#" line || has_prefix "ts=" line || has_prefix "sha256=" line then None
  else
    '(kind, rest) ← cut_byte tab line;
    '(from, to) ← cut_byte tab rest;
    Some (mkStep from to kind).
Definition parse_marker (data : string) : list MigrationStep := omap parse_line (split_byte (chr 10) data).
Definition readMarker (path : string) : mprog (list MigrationStep) :=
  let! data := ReadFile path in ret (res_map parse_marker (lift_errno data)).

Definition refuseSymlink (p : string) : mprog unit :=
  let! fi := Lstat p in
  ret match fi with
      | Err e => Err (MErrno e)
      | Ok (NLink _) => Err (MNew (p +:+ " is a symlink; refusing to migrate it"))
      | Ok _ => Ok tt
      end.

(** ** dirs.go *)

Fixpoint ensure_top (dirs : list string) : mprog unit :=
  match dirs with
  | [] => ret (Ok tt)
  | d :: dirs =>
    let! r := MkdirAll d in
    match r with
    | Err e => ret (Err (MCtx ("ensureDirs: top-level " +:+ d) (MErrno e)))
    | Ok _ => ensure_top dirs
    end
  end.
Fixpoint ensure_profile (dirs : list string) : mprog unit :=
  match dirs with
  | [] => ret (Ok tt)
  | d :: dirs =>
    let! r := Mkdir d in
    if match r with Err e => negb (bool_decide (e = EEXIST)) | Ok _ => false end
    then ret (Err (MCtx ("ensureDirs: " +:+ d) (MNew "mkdir")))
    else
      let! c := Chmod d in
      match c with
      | Err e => ret (Err (MCtx ("ensureDirs: chmod " +:+ d) (MErrno e)))
      | Ok _ => ensure_profile dirs
      end
  end.
Definition ensureDirs (r : string) : mprog unit :=
  let! t := ensure_top [dir_of (DataDir r); dir_of (ConfigDir r); dir_of (StateDir r)] in
  match t with Err e => ret (Err e) | Ok _ =>
  let! t := ensure_profile [DataDir r; ConfigDir r; StateDir r] in
  match t with Err e => ret (Err e) | Ok _ =>
  match SocketParentDir r with Err e => ret (Err (MCtx "ensureDirs: socket parent" (MNew e))) | Ok sockDir =>
  let! t := MkdirAll sockDir in
  match t with Err e => ret (Err (MCtx ("ensureDirs: " +:+ sockDir) (MErrno e))) | Ok _ =>
  let! t := Chmod sockDir in
  ret match t with Err e => Err (MCtx ("ensureDirs: chmod " +:+ sockDir) (MErrno e)) | Ok _ => Ok tt end
  end end end end.

(** ** The plan *)

Definition legacyWa : string := join DataHome "wa".
Definition legacyCfg : string := join ConfigHome "wa".
Definition legacyState : string := join StateHome "wa".

Definition srcPaths (r : string) : list sourceFile :=
  [mkSource (join legacyWa "session.db") (SessionDB r) true false;
   mkSource (join legacyWa "session.db-wal") (SessionDB r +:+ "-wal") false true;
   mkSource (join legacyWa "session.db-shm") (SessionDB r +:+ "-shm") false true;
   mkSource (join legacyWa "messages.db") (HistoryDB r) false false;
   mkSource (join legacyWa "messages.db-wal") (HistoryDB r +:+ "-wal") false true;
   mkSource (join legacyWa "messages.db-shm") (HistoryDB r +:+ "-shm") false true;
   mkSource (join legacyCfg "allowlist.toml") (AllowlistTOML r) false false;
   mkSource (join legacyState "audit.log") (AuditLog r) false false;
   mkSource (join legacyState "wad.log") (WadLog r) false false].

Fixpoint preflight_required (l : list sourceFile) : mprog unit :=
  match l with
  | [] => ret (Ok tt)
  | s :: l =>
    if negb (sf_Required s) then preflight_required l
    else
      let! st := Stat (sf_Src s) in
      match st with
      | Err e => ret (Err (MIs ErrMigrationAborted (MErrno e)))
      | Ok _ => preflight_required l
      end
  end.
Fixpoint preflight_absent (l : list sourceFile) : mprog unit :=
  match l with
  | [] => ret (Ok tt)
  | s :: l =>
    let! st := Stat (sf_Dst s) in
    if ok st then ret (Err (MIs ErrMigrationAborted (MNew ("destination " +:+ sf_Dst s +:+ " already exists"))))
    else preflight_absent l
  end.
(** [sameFilesystem] *)
Definition checkSameFilesystem (srcParent dstParent : string) : mprog unit :=
  let! src := Stat srcParent in
  match src with
  | Err e => ret (Err (MCtx ("stat src " +:+ srcParent) (MErrno e)))
  | Ok _ =>
    let! dst := Stat dstParent in
    ret match dst with
        | Err e => if not_exist e then Ok tt else Err (MCtx ("stat dst " +:+ dstParent) (MErrno e))
        | Ok _ => if device srcParent =? device dstParent then Ok tt else Err (MNew "different devices")
        end
  end.
Fixpoint preflight_owned (l : list sourceFile) : mprog unit :=
  match l with
  | [] => ret (Ok tt)
  | s :: l =>
    let! st := Stat (sf_Src s) in
    if ok st && negb (owner (sf_Src s) =? euid) then ret (Err (MIs ErrMigrationAborted (MNew "owned by another user")))
    else preflight_owned l
  end.
Fixpoint plan_steps (l : list sourceFile) : mprog (list MigrationStep) :=
  match l with
  | [] => ret (Ok [])
  | s :: l =>
    let! st := Stat (sf_Src s) in
    match st with
    | Err e =>
      if sf_IsSidecar s || negb (sf_Required s)
      then let! rest := plan_steps l in
           ret (res_map (cons (mkStep (sf_Src s) (sf_Dst s) "skip")) rest)
      else ret (Err (MIs ErrMigrationAborted (MErrno e)))
    | Ok _ => let! rest := plan_steps l in
              ret (res_map (cons (mkStep (sf_Src s) (sf_Dst s) "copy")) rest)
    end
  end.

Definition Plan (r : string) : mprog (list MigrationStep) :=
  let l := srcPaths r in
  let! c := preflight_required l in
  match c with Err e => ret (Err e) | Ok _ =>
  let! c := preflight_absent l in
  match c with Err e => ret (Err e) | Ok _ =>
  let! c := checkSameFilesystem (dir_of (join legacyWa "session.db")) (dir_of (SessionDB r)) in
  match c with Err e => ret (Err (MIs ErrCrossFilesystem e)) | Ok _ =>
  let! c := preflight_owned l in
  match c with Err e => ret (Err e) | Ok _ =>
  let! steps := plan_steps l in
  ret (res_map (fun steps => steps ++ [mkStep "" SchemaVersionFile "schema-write";
                                       mkStep "" ActiveProfileFile "schema-write"]) steps)
  end end end end.

(** ** Moving the files *)

Definition sqlite_magic : string := "SQLite format 3" +:+ String (chr 0) "".
Definition walCheckpointTruncate (dbPath : string) : prog unit :=
  let! header := ReadFile dbPath in
  match header with
  | Ok c => if has_prefix sqlite_magic c then let! _ := call SSQL (checkpoint dbPath) in ret tt else ret tt
  | Err _ => ret tt
  end.
Fixpoint checkpointSources (l : list sourceFile) : prog unit :=
  match l with
  | [] => ret tt
  | s :: l =>
    if sf_IsSidecar s || negb (has_suffix (sf_Src s) ".db") then checkpointSources l
    else
      let! st := Stat (sf_Src s) in
      if ok st then let! _ := walCheckpointTruncate (sf_Src s) in checkpointSources l
      else checkpointSources l
  end.

(** Whether every completed move was undone. *)
Fixpoint rollbackRenames (plan : list MigrationStep) (failingSrc : string) (complete : bool) : prog bool :=
  match plan with
  | [] => ret complete
  | step :: plan =>
    if negb (is_copy step) then rollbackRenames plan failingSrc complete
    else if String.eqb (ms_From step) failingSrc then ret complete
    else
      let! st := Stat (ms_To step) in
      if negb (ok st) then rollbackRenames plan failingSrc complete
      else
        let! st := Stat (ms_From step) in
        if ok st then rollbackRenames plan failingSrc complete
        else
          let! l := refuseSymlink (ms_To step) in
          match l with
          | Err _ => rollbackRenames plan failingSrc false
          | Ok _ =>
            let! r := Rename (ms_To step) (ms_From step) in
            rollbackRenames plan failingSrc (complete && ok r)
          end
  end.

Definition abortRenames (plan : list MigrationStep) (failingSrc markerPath : string) : prog unit :=
  let! complete := rollbackRenames plan failingSrc true in
  if negb complete then ret tt else let! _ := Remove markerPath in ret tt.

(** [renamePlan]: [whole] is the plan, [plan] what is left of it. *)
Fixpoint renamePlan (whole plan : list MigrationStep) (markerPath : string) : mprog unit :=
  match plan with
  | [] => ret (Ok tt)
  | step :: plan =>
    if negb (is_copy step) then renamePlan whole plan markerPath
    else
      let! l := refuseSymlink (ms_From step) in
      match l with
      | Err e =>
        if IsNotExist e then
          let! r := Rename (ms_From step) (ms_To step) in
          match r with
          | Err e => let! _ := abortRenames whole (ms_From step) markerPath in
                     ret (Err (MCtx "migrate: rename" (MErrno e)))
          | Ok _ => renamePlan whole plan markerPath
          end
        else let! _ := abortRenames whole (ms_From step) markerPath in ret (Err (MCtx "migrate" e))
      | Ok _ =>
        let! r := Rename (ms_From step) (ms_To step) in
        match r with
        | Err e => let! _ := abortRenames whole (ms_From step) markerPath in
                   ret (Err (MCtx "migrate: rename" (MErrno e)))
        | Ok _ => renamePlan whole plan markerPath
        end
      end
  end.

Fixpoint cleanupResidualSources (plan : list MigrationStep) : prog unit :=
  match plan with
  | [] => ret tt
  | step :: plan =>
    if negb (is_copy step) then cleanupResidualSources plan
    else
      let! st := Stat (ms_From step) in
      if negb (ok st) then cleanupResidualSources plan
      else let! _ := Remove (ms_From step) in cleanupResidualSources plan
  end.

Definition Apply (dryRun : bool) (r : string) : mprog unit :=
  let! plan := Plan r in
  match plan with Err e => ret (Err e) | Ok plan =>
  if dryRun then ret (Ok tt) else
  let! _ := checkpointSources (srcPaths r) in
  let markerPath := MigratingMarkerFile in
  let! w := writeMarker markerPath plan in
  match w with Err e => ret (Err (MCtx "migrate: write marker" e)) | Ok _ =>
  let! d := ensureDirs r in
  match d with Err e => let! _ := Remove markerPath in ret (Err (MCtx "migrate: ensureDirs" e)) | Ok _ =>
  let! m := renamePlan plan plan markerPath in
  match m with Err e => ret (Err e) | Ok _ =>
  let! _ := fsyncDir (DataDir r) in
  let! w := writeSchemaVersion SchemaVersionFile SchemaVersion in
  match w with Err e => ret (Err (MCtx "migrate: write schema version" e)) | Ok _ =>
  let! w := writeActiveProfile ActiveProfileFile DefaultProfile in
  match w with Err e => ret (Err (MCtx "migrate: write active profile" e)) | Ok _ =>
  let! _ := cleanupResidualSources plan in
  let! _ := Remove markerPath in
  ret (Ok tt)
  end end end end end end.

(** ** Recovery *)

Fixpoint planHasAnyDestination (plan : list MigrationStep) : prog bool :=
  match plan with
  | [] => ret false
  | step :: plan =>
    if negb (is_copy step) then planHasAnyDestination plan
    else let! st := Stat (ms_To step) in
         if ok st then ret true else planHasAnyDestination plan
  end.

Fixpoint finishPartialRenames (plan : list MigrationStep) : mprog unit :=
  match plan with
  | [] => ret (Ok tt)
  | step :: plan =>
    if negb (is_copy step) then finishPartialRenames plan
    else
      let! st := Stat (ms_To step) in
      if ok st then finishPartialRenames plan
      else
        let! st := Stat (ms_From step) in
        if negb (ok st) then finishPartialRenames plan
        else
          let! l := refuseSymlink (ms_From step) in
          match l with Err e => ret (Err (MCtx "recover" e)) | Ok _ =>
          let! d := MkdirAll (dir_of (ms_To step)) in
          match d with Err e => ret (Err (MCtx "recover: mkdir" (MErrno e))) | Ok _ =>
          let! m := Rename (ms_From step) (ms_To step) in
          match m with Err e => ret (Err (MCtx "recover: rename" (MErrno e))) | Ok _ =>
          finishPartialRenames plan
          end end end
  end.

Definition Recover : mprog unit :=
  let markerPath := MigratingMarkerFile in
  let! plan := readMarker markerPath in
  match plan with Err e => ret (Err (MCtx "recover: read marker" e)) | Ok plan =>
  let! any := planHasAnyDestination plan in
  if negb any then let! r := Remove markerPath in ret (lift_errno r)
  else
    let! m := finishPartialRenames plan in
    match m with Err e => ret (Err e) | Ok _ =>
    let! w := writeSchemaVersion SchemaVersionFile SchemaVersion in
    match w with Err e => ret (Err (MCtx "recover: write schema version" e)) | Ok _ =>
    let! w := writeActiveProfile ActiveProfileFile DefaultProfile in
    match w with Err e => ret (Err (MCtx "recover: write active profile" e)) | Ok _ =>
    let! _ := cleanupResidualSources plan in
    let! x := Remove markerPath in
    ret match x with
        | Err e => if not_exist e then Ok tt else Err (MCtx "recover: remove marker" (MErrno e))
        | Ok _ => Ok tt
        end
    end end end
  end.

(** ** At startup *)

Definition autoMigrate (r : string) : mprog unit :=
  let! m := Stat MigratingMarkerFile in
  match m with
  | Ok _ => Recover
  | Err e =>
    if negb (not_exist e) then ret (Err (MCtx "autoMigrate: probe migration marker" (MErrno e)))
    else
      let! version := readSchemaVersion SchemaVersionFile in
      match version with Err e => ret (Err (MCtx "autoMigrate" e)) | Ok version =>
      if SchemaVersion <=? version then ret (Ok tt)
      else
        let! fi := Stat (join legacyWa "session.db") in
        match fi with
        | Ok (NFile _) | Ok (NLink _) =>
          let! d := Stat (DataDir r) in
          if ok d then ret (Ok tt) else Apply false r
        | Err e =>
          if negb (not_exist e) then ret (Err (MCtx "autoMigrate: probe legacy layout" (MErrno e)))
          else let! w := writeSchemaVersion SchemaVersionFile SchemaVersion in
               ret match w with Err e => Err (MCtx "autoMigrate: write schema version" e) | Ok _ => Ok tt end
        | Ok NDir =>
          let! w := writeSchemaVersion SchemaVersionFile SchemaVersion in
          ret match w with Err e => Err (MCtx "autoMigrate: write schema version" e) | Ok _ => Ok tt end
        end
      end
  end.

(** ** Back to one profile *)

Definition copyFileWithFsync (src dst : string) : mprog unit :=
  let! st := Stat src in
  match st with Err e => ret (Err (MErrno e)) | Ok _ =>
  let! i := Open src in
  match i with Err e => ret (Err (MErrno e)) | Ok _ =>
  let! o := Create dst in
  match o with Err e => ret (Err (MErrno e)) | Ok _ =>
  let! data := ReadFile src in
  match data with Err e => let! _ := Close in let! _ := Remove dst in ret (Err (MErrno e)) | Ok c =>
  let! w := Write dst c in
  match w with Err e => let! _ := Close in let! _ := Remove dst in ret (Err (MErrno e)) | Ok _ =>
  let! s := Sync in
  match s with Err e => let! _ := Close in let! _ := Remove dst in ret (Err (MErrno e)) | Ok _ =>
  let! x := Close in
  match x with Err e => let! _ := Remove dst in ret (Err (MErrno e)) | Ok _ => ret (Ok tt) end
  end end end end end end.

(** The moves of a rollback, from the profile's path to the legacy one. *)
Fixpoint move_back (l : list sourceFile) : mprog unit :=
  match l with
  | [] => ret (Ok tt)
  | s :: l =>
    let! st := Stat (sf_Dst s) in
    if negb (ok st) then move_back l
    else
      let! y := refuseSymlink (sf_Dst s) in
      match y with Err e => ret (Err (MCtx "rollback" e)) | Ok _ =>
      let! c := copyFileWithFsync (sf_Dst s) (sf_Src s) in
      match c with Err e => ret (Err (MCtx "rollback" e)) | Ok _ =>
      let! _ := Remove (sf_Dst s) in move_back l
      end end
  end.

Fixpoint remove_all (l : list string) : prog unit :=
  match l with
  | [] => ret tt
  | p :: l => let! _ := Remove p in remove_all l
  end.

Definition is_NDir (x : node) : bool := match x with NDir => true | _ => false end.

Definition ApplyRollback (dryRun : bool) (r : string) : mprog unit :=
  let! v := readSchemaVersion SchemaVersionFile in
  match v with Err e => ret (Err (MIs ErrMigrationAborted e)) | Ok v =>
  if negb (v =? SchemaVersion) then ret (Err (MIs ErrMigrationAborted (MNew ("schema version is " +:+ itoa v)))) else
  let! entries := ReadDir legacyWa in
  match entries with Err e => ret (Err (MIs ErrMigrationAborted (MCtx "read data dir" (MErrno e)))) | Ok entries =>
  if negb (length (List.filter (fun kv => is_NDir kv.2) entries) =? 1)%nat
  then ret (Err (MIs ErrMigrationAborted (MNew "cannot rollback with several profiles"))) else
  let! st := Stat (SessionDB r) in
  match st with Err e => ret (Err (MIs ErrMigrationAborted (MErrno e))) | Ok _ =>
  let! m := Stat MigratingMarkerFile in
  if ok m then ret (Err (MIs ErrMigrationAborted (MNew "migration marker present"))) else
  if dryRun then ret (Ok tt) else
  let! b := move_back (srcPaths r) in
  match b with Err e => ret (Err e) | Ok _ =>
  let! _ := remove_all [DataDir r; ConfigDir r; StateDir r; SchemaVersionFile; ActiveProfileFile] in
  ret (Ok tt)
  end end end end.

(** [classifyMigrateError]: the exit code of [wad migrate]. *)
Definition classifyMigrateError (e : merr) : Z :=
  if merr_is ErrCrossFilesystem e then 78 else if merr_is ErrMigrationAborted e then 78 else 1.

End Migrate.
