(* ===== verification/Marker.v ===== *)
(** * The text of the migration's marker

    [writeMarker] and [readMarker] of [cmd/wad/migrate.go] agree: a marker
    read back names the steps it was written with that are moves. *)
From S2P Require Import Prelude GoStd Profile FileSys Migrate.

#[local] Open Scope string_scope.
#[local] Open Scope list_scope.
#[local] Open Scope Z_scope.

(** ** Trimming a text that begins and ends with a letter *)

Definition ascii_byte (c : ascii) : bool := (bz c <? 128)%Z.

Lemma decode_tail s c : s <> "" -> ascii_byte c = true -> decode_rune (s +:+ String c "") = decode_rune s.
Proof.
  intros Hs Hc. unfold ascii_byte in Hc. apply Z.ltb_lt in Hc.
  assert (Hr : forall lo hi, 128 <= lo -> in_range lo hi (bz c) = false).
  { intros lo hi Hlo. unfold in_range. destruct (Z.leb_spec lo (bz c)); [lia|done]. }
  assert (Hk : is_cont (bz c) = false) by by apply Hr.
  destruct s as [|a s]; [done|]. cbn [String.append decode_rune].
  destruct (bz a <? 128); [done|]. destruct (negb (in_range 194 244 (bz a))); [done|].
  destruct s as [|b s]; cbn [String.append].
  { rewrite Hr; [done|]. destruct (bz a =? 224), (bz a =? 240); lia. }
  set (bad1 := negb (in_range _ _ (bz b))). destruct bad1; [done|]. destruct (bz a <? 224); [done|].
  destruct s as [|d s]; cbn [String.append]; [by rewrite Hk|]. destruct (negb (is_cont (bz d))); [done|].
  destruct (bz a <? 240); [done|]. destruct s as [|e s]; cbn [String.append]; [by rewrite Hk|done].
Qed.

Lemma decode_width s : s <> "" -> (1 <= (decode_rune s).2 <= String.length s)%nat.
Proof.
  destruct s as [|a s]; [done|]. intros _. cbn [decode_rune String.length].
  destruct (bz a <? 128); [cbn; lia|]. destruct (negb _); [cbn; lia|].
  destruct s as [|b s]; [cbn; lia|]. cbn [String.length]. destruct (negb _); [cbn; lia|]. destruct (bz a <? 224); [cbn; lia|].
  destruct s as [|d s]; [cbn; lia|]. cbn [String.length]. destruct (negb _); [cbn; lia|]. destruct (bz a <? 240); [cbn; lia|].
  destruct s as [|e s]; [cbn; lia|]. cbn [String.length]. destruct (negb _); cbn; lia.
Qed.

Lemma take_app n s t : (n <= String.length s)%nat -> str_take n (s +:+ t) = str_take n s.
Proof. revert s; induction n as [|n IH]; intros [|c s] Hn; cbn in *; try done; try lia;
  try (by destruct t); try (by rewrite IH by lia). Qed.
Lemma drop_app n s t : (n <= String.length s)%nat -> str_drop n (s +:+ t) = str_drop n s +:+ t.
Proof. revert s; induction n as [|n IH]; intros [|c s] Hn; cbn in *; try done; try lia. by rewrite IH by lia. Qed.
Lemma take_drop n s : str_take n s +:+ str_drop n s = s.
Proof. revert s; induction n as [|n IH]; intros [|c s]; cbn; try done. by rewrite IH. Qed.
Lemma segments_snoc n s c : ascii_byte c = true -> (String.length s <= n)%nat ->
  segments_fuel (S n) (s +:+ String c "") = segments_fuel n s ++ [(bz c, String c "")].
Proof.
  intros Hc. revert s. induction n as [|n IH]; intros s Hn.
  - destruct s; cbn in Hn; [|lia]. cbn. unfold ascii_byte in Hc. by rewrite Hc.
  - destruct (decide (s = "")) as [->|Hs].
    + cbn. unfold ascii_byte in Hc. by rewrite Hc.
    + pose proof (decode_width s Hs) as Hw. set (n' := S n). cbn [segments_fuel]. unfold n'. clear n'.
      destruct (s +:+ String c "") as [|x y] eqn:E; [by destruct s|]. rewrite <- E. clear x y E.
      rewrite decode_tail by done. destruct s as [|a s']; [done|]. set (s := String a s') in *.
      change (segments_fuel (S n) s) with (let '(r, w) := decode_rune s in (r, str_take w s) :: segments_fuel n (str_drop w s)).
      destruct (decode_rune s) as [r w]. cbn [snd] in Hw. rewrite take_app, drop_app by lia.
      rewrite IH; [done|]. rewrite drop_length. lia.
Qed.

Lemma segments_concat n s : (String.length s <= n)%nat -> str_concat (segments_fuel n s).*2 = s.
Proof.
  revert s. induction n as [|n IH]; intros s Hn; [by destruct s; cbn in *; [|lia]|].
  destruct s as [|a s']; [done|]. set (s := String a s') in *. pose proof (decode_width s ltac:(done)) as Hw.
  change (segments_fuel (S n) s) with (let '(r, w) := decode_rune s in (r, str_take w s) :: segments_fuel n (str_drop w s)).
  destruct (decode_rune s) as [r w]. cbn [snd fmap list_fmap] in *.
  change (str_take w s +:+ str_concat (segments_fuel n (str_drop w s)).*2 = s). rewrite IH; [apply take_drop|].
  rewrite drop_length. lia.
Qed.

Definition solid (c : ascii) : bool := ascii_byte c && negb (is_space (bz c)).

Lemma trim_solid a s c : solid a = true -> solid c = true -> trim_space (String a (s +:+ String c "")) = String a (s +:+ String c "").
Proof.
  unfold solid. rewrite !andb_true_iff, !negb_true_iff. intros [Ha Ha'] [Hc Hc']. unfold trim_space.
  set (t := String a s). change (String a (s +:+ String c "")) with (t +:+ String c "").
  assert (E : segments (t +:+ String c "") = segments t ++ [(bz c, String c "")]).
  { unfold segments. rewrite str_app_length, Nat.add_comm. by apply segments_snoc. }
  assert (E' : segments t = (bz a, String a "") :: segments_fuel (String.length s) s).
  { unfold segments, t. cbn [String.length]. set (n := String.length s). cbn [segments_fuel decode_rune].
    unfold ascii_byte in Ha. rewrite Ha. cbn. by destruct s. }
  assert (Ed : drop_while (fun rs => is_space rs.1) (segments (t +:+ String c "")) = segments (t +:+ String c "")).
  { rewrite E, E'. cbn. by rewrite Ha'. }
  rewrite Ed.
  assert (Er : drop_while (fun rs => is_space rs.1) (reverse (segments (t +:+ String c ""))) = reverse (segments (t +:+ String c ""))).
  { rewrite E, reverse_app. cbn. by rewrite Hc'. }
  rewrite Er, reverse_involutive. by apply segments_concat.
Qed.

(** ** Lines *)

(** A text of one line that does not end in white space. *)
Definition plain (t : string) : Prop :=
  no_byte (chr 10) t = true /\ exists u c, t = u +:+ String c "" /\ solid c = true.

Lemma plain_app s t : no_byte (chr 10) s = true -> plain t -> plain (s +:+ t).
Proof.
  intros Hs (Ht & u & c & -> & Hc). split; [by rewrite no_byte_app, Hs|]. exists (s +:+ u), c.
  by rewrite str_app_assoc.
Qed.
Lemma trim_plain a t : solid a = true -> plain t -> trim_space (String a t) = String a t.
Proof. intros Ha (_ & u & c & -> & Hc). by apply trim_solid. Qed.

Lemma parse_marker_cons w rest : no_byte (chr 10) w = true ->
  parse_marker (w +:+ newline +:+ rest) = match parse_line w with Some s => s :: parse_marker rest | None => parse_marker rest end.
Proof. intros Hw. unfold parse_marker, newline. cbn [String.append]. by rewrite split_byte_one. Qed.

(** A move whose paths a line of the marker can carry. *)
Definition writable (s : MigrationStep) : Prop :=
  no_byte tab (ms_From s) = true /\ no_byte (chr 10) (ms_From s) = true /\ plain (ms_To s).

Definition line_of (s : MigrationStep) : string := ms_Kind s +:+ String tab (ms_From s +:+ String tab (ms_To s)).
Lemma marker_line_of s : marker_line s = line_of s +:+ newline.
Proof. unfold marker_line, line_of. rewrite <- str_app_assoc. cbn. by rewrite <- str_app_assoc. Qed.

Lemma line_plain s : is_copy s = true -> writable s -> plain (line_of s) /\ parse_line (line_of s) = Some s.
Proof.
  intros Hk (H1 & H2 & H3). destruct s as [from to kind]. unfold is_copy in Hk. cbn [ms_Kind ms_From ms_To] in *. apply String.eqb_eq in Hk as ->.
  assert (Hp : plain (String tab (from +:+ String tab to))).
  { change (plain ((String tab "") +:+ (from +:+ (String tab "") +:+ to))).
    apply plain_app; [done|]. apply plain_app; [done|]. by apply plain_app. }
  assert (Hl : plain (line_of (mkStep from to "copy"))) by by apply (plain_app "copy").
  split; [done|].
  assert (E : trim_space (line_of (mkStep from to "copy")) = line_of (mkStep from to "copy")).
  { apply (trim_plain "c" ("opy" +:+ _)); [done|]. by apply (plain_app "opy"). }
  change (parse_line (line_of (mkStep from to "copy"))) with (let line := trim_space (line_of (mkStep from to "copy")) in
    if str_empty line || has_prefix "#" line || has_prefix "ts=" line || has_prefix "sha256=" line then None
    else '(kind, rest) ← cut_byte tab line; '(from, to) ← cut_byte tab rest; Some (mkStep from to kind)).
  rewrite E. change (str_empty _ || _ || _ || _) with false. cbv zeta iota. unfold line_of. cbn [ms_Kind ms_From ms_To].
  rewrite cut_byte_app by done. cbn [mbind option_bind]. by rewrite cut_byte_app.
Qed.

Lemma parse_lines l rest : Forall (fun s => is_copy s = true /\ writable s) l ->
  parse_marker (str_concat (map marker_line l) +:+ rest) = l ++ parse_marker rest.
Proof.
  induction 1 as [|s l [Hk Hs] _ IH]; [done|]. cbn [map]. unfold str_concat. cbn [foldr].
  change (foldr String.append "" (map marker_line l)) with (str_concat (map marker_line l)).
  destruct (line_plain s Hk Hs) as [[Hp _] E]. rewrite marker_line_of, <- !str_app_assoc, parse_marker_cons, E, IH; done.
Qed.

Section Text.
Context `{MarkerText}.
Hypothesis time_plain : plain marker_time.
Hypothesis hash_plain : forall s, plain (sha256_hex s).

Lemma ignored pre t : has_prefix "#" pre || has_prefix "ts=" pre || has_prefix "sha256=" pre = true ->
  (exists a u, pre = String a u /\ solid a = true) -> no_byte (chr 10) pre = true -> plain t ->
  parse_line (pre +:+ t) = None.
Proof.
  intros Hp (a & u & -> & Ha) Hn Ht. unfold parse_line. cbn [String.append].
  assert (Hu : no_byte (chr 10) u = true) by (cbn in Hn; by apply andb_true_iff in Hn as [_ ?]).
  rewrite trim_plain by (done || by apply plain_app). rewrite <- !orb_assoc in *.
  apply orb_true_iff in Hp. rewrite orb_true_iff in Hp.
  assert (Hpre : forall p, has_prefix p (String a u) = true -> has_prefix p (String a (u +:+ t)) = true).
  { intros p (v & E)%has_prefix_spec. apply has_prefix_spec. exists (v +:+ t). rewrite str_app_assoc, <- E. done. }
  destruct Hp as [E|[E|E]]; apply Hpre in E; rewrite E; rewrite ?orb_true_r; done.
Qed.

Lemma parse_marker_text plan : Forall (fun s => is_copy s = true -> writable s) plan ->
  parse_marker (marker_text plan) = List.filter is_copy plan.
Proof.
  intros Hw. unfold marker_text. unfold marker_body at 1. rewrite <- !str_app_assoc.
  rewrite parse_marker_cons by reflexivity.
  change (parse_line "# wa migration write-ahead marker (schema v1 → v2)") with (@None MigrationStep). cbv iota.
  destruct time_plain as [Ht _].
  rewrite (str_app_assoc "ts="), parse_marker_cons by (by rewrite no_byte_app).
  rewrite ignored by (done || by eexists _, _). cbv iota. rewrite parse_lines.
  - rewrite (str_app_assoc "sha256="), <- (str_app_nil_r ((_ +:+ _) +:+ newline)), <- str_app_assoc.
    rewrite parse_marker_cons by (rewrite no_byte_app; by rewrite (proj1 (hash_plain _))).
    rewrite ignored by (done || by eexists _, _). cbn. by rewrite app_nil_r.
  - apply Forall_forall. intros s Hs. apply list_elem_of_In, filter_In in Hs as [Hs Hk]. split; [done|].
    rewrite Forall_forall in Hw. by apply Hw; [apply list_elem_of_In|].
Qed.
End Text.
