(* ===== verification/MigrateSafe.v ===== *)
(** * What the migration never loses

    The invariant of [Migrate]'s programs and their triples: between any two
    calls every file of the installation is at its old path or at its new one,
    and a tree with files at both kinds of path has a marker that names every
    file that moved. *)
From S2P Require Import Prelude GoStd Profile FileSys Migrate Marker.

#[local] Open Scope string_scope.
#[local] Open Scope list_scope.
#[local] Open Scope Z_scope.
#[local] Open Scope prog_scope.

(** ** Paths *)

Definition key_of_path (p : string) : string * string := (base_of (dir_of p), base_of p).

Lemma key_join a b c : no_byte "/" b = true -> no_byte "/" c = true -> key_of_path (join (join a b) c) = (b, c).
Proof. intros Hb Hc. unfold key_of_path. by rewrite base_join, dir_join, base_join. Qed.

Lemma join_app a b c : join a b +:+ c = join a (b +:+ c).
Proof. unfold join. by rewrite <- !str_app_assoc. Qed.

Lemma dir_under p : dir_of p <> "" -> under (dir_of p) p.
Proof.
  intros Hd. apply under_split. exists [base_of p]. unfold dir_of, base_of in *.
  pose proof (split_byte_nonempty "/" p) as Hne. pose proof (split_byte_no "/" p) as Hno.
  rewrite (app_removelast_last "" Hne) at 1. f_equal.
  set (l := removelast (split_byte "/" p)) in *.
  assert (Hl : Forall (fun w => no_byte "/" w = true) l).
  { rewrite (app_removelast_last "" Hne) in Hno. by apply Forall_app in Hno as [? _]. }
  clearbody l. clear Hno Hne. destruct l as [|w l]; [done|]. clear Hd. revert w Hl.
  induction l as [|v l IH]; intros w Hl; inversion Hl; subst; [by apply eq_sym, split_byte_none|].
  cbn [join_byte]. rewrite split_byte_one by done. f_equal. by apply IH.
Qed.

Lemma under_trans a b c : under a b -> under b c -> under a c.
Proof.
  rewrite !under_split. intros [l1 E1] [l2 E2]. exists (l1 ++ l2). by rewrite E2, E1, <- app_assoc.
Qed.
Lemma under_join a b : under a (join a b).
Proof. right. by exists b. Qed.
Lemma under_refl a : under a a.
Proof. by left. Qed.

(** ** What SQLite promises *)

Definition fileopt (x : option node) : Prop := x = None \/ exists c, x = Some (NFile c).
Abbreviation dbfiles := (option node * option node * option node)%type.
(** A database and the two files beside it. *)
Definition trio (db : string) : list string := [db; db +:+ "-wal"; db +:+ "-shm"].

(** A checkpoint touches the three files of its database, makes none and keeps
    what they hold together. *)
Definition checkpoint_keeps `{Sqlite} (same_db : relation dbfiles) : Prop :=
  forall db f c, f !! db = Some (NFile c) -> (forall x, x ∈ trio db -> fileopt (f !! x)) ->
    let f' := (checkpoint db f).2 in
    (forall p, p ∉ trio db -> f' !! p = f !! p)
    /\ (forall p, p ∈ trio db -> fileopt (f' !! p) /\ (f !! p = None -> f' !! p = None))
    /\ same_db (f !! db, f !! (db +:+ "-wal"), f !! (db +:+ "-shm"))
               (f' !! db, f' !! (db +:+ "-wal"), f' !! (db +:+ "-shm")).

(** ** The places of one migration *)

Section Places.
Context `{Xdg} (r : string).

Definition homes : list string := [DataHome; ConfigHome; StateHome].
Definition pairs : list (string * string) := map (fun s => (sf_Src s, sf_Dst s)) (srcPaths r).
Definition names : list string :=
  ["session.db"; "session.db-wal"; "session.db-shm"; "messages.db"; "messages.db-wal"; "messages.db-shm";
   "allowlist.toml"; "audit.log"; "wad.log"].
Definition specials : list string := [MigratingMarkerFile; SchemaVersionFile; ActiveProfileFile].
Lemma special_member x : x = MigratingMarkerFile \/ x = SchemaVersionFile \/ x = ActiveProfileFile -> x ∈ specials.
Proof. unfold specials. rewrite !elem_of_cons. tauto. Qed.
Definition tracked : list string := map fst pairs ++ map snd pairs ++ specials.
Definition wa_dirs : list string := map (fun h => join h "wa") homes.
Definition profile_dirs : list string := map (fun h => join (join h "wa") r) homes.

Definition is_temp (t : string) : Prop := exists suf, base_of t = ".tmp-" +:+ suf.
(** A directory no file of the migration is, or contains. *)
Definition safe_dir (p : string) : Prop := Forall (fun t => ~ under t p) tracked.

Hypothesis r_valid : ValidateProfileName r = Ok tt.
Hypothesis r_not_pointer : r <> "active-profile".

Lemma pairs_shape : exists hs, Forall (fun h => h ∈ homes) hs
  /\ pairs = zip_with (fun h n => (join (join h "wa") n, join (join (join h "wa") r) n)) hs names.
Proof.
  exists [DataHome; DataHome; DataHome; DataHome; DataHome; DataHome; ConfigHome; StateHome; StateHome].
  split; [unfold homes; repeat (apply Forall_cons_2; [set_solver|]); by apply Forall_nil_2|].
  unfold pairs, srcPaths, names. cbn [map zip_with sf_Src sf_Dst].
  unfold SessionDB, HistoryDB. rewrite !join_app. reflexivity.
Qed.

Lemma r_no_slash : no_byte "/" r = true.
Proof. by apply valid_no_byte. Qed.
Lemma r_not_wa : r <> "wa".
Proof. apply valid_not_reserved; [done|]. set_solver. Qed.

Definition all_names : list string := names ++ [".migrating"; ".schema-version"; "active-profile"].
Lemma name_not_r n : n ∈ all_names -> n <> r.
Proof.
  intros Hn ->. assert (Hd : no_byte "." r = true) by by apply valid_no_byte.
  assert (Hin : forallb (fun n => negb (no_byte "." n) || String.eqb n "active-profile") all_names = true) by reflexivity.
  rewrite forallb_forall in Hin. apply list_elem_of_In, Hin in Hn. rewrite Hd in Hn. cbn in Hn.
  by apply String.eqb_eq in Hn.
Qed.
Lemma name_no_slash n : n ∈ all_names -> no_byte "/" n = true.
Proof.
  intros Hn. assert (Hin : forallb (no_byte "/") all_names = true) by reflexivity.
  rewrite forallb_forall in Hin. by apply Hin, list_elem_of_In.
Qed.

(** Every tracked path is a home, [wa], and one or two components. *)
Lemma tracked_shape t : t ∈ tracked -> exists h n, h ∈ homes /\ n ∈ all_names
  /\ (t = join (join h "wa") n \/ t = join (join (join h "wa") r) n).
Proof.
  unfold tracked. destruct pairs_shape as (hs & Hhs & Ep). rewrite !elem_of_app.
  assert (Hz : forall p, p ∈ pairs -> exists h n, h ∈ homes /\ n ∈ names
    /\ p = (join (join h "wa") n, join (join (join h "wa") r) n)).
  { rewrite Ep. intros p (i & Hi)%list_elem_of_lookup. rewrite lookup_zip_with in Hi.
    apply bind_Some in Hi as (h & Hh & Hi). apply fmap_Some in Hi as (n & Hn & ->). exists h, n.
    split_and!; [|by eapply list_elem_of_lookup_2|done]. rewrite Forall_forall in Hhs. apply Hhs. by eapply list_elem_of_lookup_2. }
  intros [Ht|[Ht|Ht]].
  1,2: apply list_elem_of_fmap in Ht as (p & -> & Hp); apply Hz in Hp as (h & n & Hh & Hn & ->); exists h, n;
    (split; [done|]); (split; [apply elem_of_app; by left|]); cbn [fst snd]; first [left; reflexivity | right; reflexivity].
  exists ConfigHome. unfold specials, MigratingMarkerFile, SchemaVersionFile, ActiveProfileFile in Ht.
  rewrite !elem_of_cons, elem_of_nil in Ht.
  destruct Ht as [->|[->|[->|[]]]]; eexists;
    (split_and!; [unfold homes; set_solver| |by left]); apply elem_of_app; right; set_solver.
Qed.

Lemma pair_shape s d : (s, d) ∈ pairs -> exists n, n ∈ names /\ key_of_path s = ("wa", n) /\ key_of_path d = (r, n)
  /\ dir_of d ∈ profile_dirs.
Proof.
  destruct pairs_shape as (hs & Hhs & ->). intros (i & Hi)%list_elem_of_lookup. rewrite lookup_zip_with in Hi.
  apply bind_Some in Hi as (h & Hh & Hi). apply fmap_Some in Hi as (n & Hn & [= -> ->]).
  assert (Hin : n ∈ names) by by eapply list_elem_of_lookup_2.
  assert (Hs : no_byte "/" n = true) by (apply name_no_slash, elem_of_app; by left).
  exists n. rewrite !key_join, dir_join by (done || apply r_no_slash). split_and!; try done.
  unfold profile_dirs. apply (list_elem_of_fmap_2 (fun h => join (join h "wa") r)). rewrite Forall_forall in Hhs. apply Hhs. by eapply list_elem_of_lookup_2.
Qed.

Lemma tracked_base t : t ∈ tracked -> base_of t ∈ all_names.
Proof.
  intros (h & n & _ & Hn & [->| ->])%tracked_shape; (rewrite base_join; [done|by apply name_no_slash]).
Qed.

Lemma tracked_not_temp t : t ∈ tracked -> ~ is_temp t.
Proof.
  intros Ht%tracked_base [suf E]. rewrite E in Ht.
  assert (Hin : forallb (fun n => negb (has_prefix ".tmp-" n)) all_names = true) by reflexivity.
  rewrite forallb_forall in Hin. apply list_elem_of_In, Hin in Ht. by rewrite has_prefix_app in Ht.
Qed.

Lemma keys_tracked : map key_of_path tracked
  = map (pair "wa") names ++ map (pair r) names ++ map (pair "wa") [".migrating"; ".schema-version"; "active-profile"].
Proof.
  unfold tracked. rewrite !map_app. f_equal; [|f_equal].
  1,2: destruct pairs_shape as (hs & Hhs & Ep); unfold pairs, srcPaths; cbn [map sf_Src sf_Dst fst snd];
    unfold SessionDB, HistoryDB; rewrite ?join_app; cbn [map names];
    repeat f_equal; apply key_join; (done || apply r_no_slash).
  cbn. unfold MigratingMarkerFile, SchemaVersionFile, ActiveProfileFile. rewrite !key_join by done. done.
Qed.

Lemma tracked_NoDup : NoDup tracked.
Proof.
  apply (NoDup_fmap_1 key_of_path). change (NoDup (map key_of_path tracked)). rewrite keys_tracked.
  rewrite Permutation_app_swap_app, <- map_app. fold all_names.
  assert (Hnd : forall x : string, NoDup (map (pair (B := string) x) all_names) /\ NoDup (map (pair (B := string) x) names)).
  { intros x. split; apply NoDup_fmap_2; try (by intros ? ? [= ->]); apply (bool_decide_unpack _); by vm_compute. }
  apply NoDup_app. split_and!; [apply Hnd| |apply Hnd].
  intros x (n & -> & _)%list_elem_of_fmap (n' & [= E _] & _)%list_elem_of_fmap. by apply r_not_wa.
Qed.

Hypothesis apart : homes_apart.

Lemma home_apart h h' : h ∈ homes -> h' ∈ homes -> ~ under (join h "wa") h'.
Proof. intros Hh Hh'. by apply apart. Qed.

(** Components below [home/wa]. *)
Lemma tracked_split t : t ∈ tracked -> exists h m, h ∈ homes /\ split_byte "/" t = split_byte "/" h ++ "wa" :: m
  /\ m <> [] /\ forall l, m ++ l <> [r].
Proof.
  intros (h & n & Hh & Hn & Ht)%tracked_shape. exists h.
  pose proof (name_no_slash n Hn) as Hs. pose proof (name_not_r n Hn) as Hr.
  destruct Ht as [-> | ->]; rewrite !split_last by (done || apply r_no_slash); [exists [n]|exists [r; n]];
    rewrite <- !app_assoc; split_and!; try done; intros l [= ?]; done.
Qed.

Lemma safe_below h' m' : h' ∈ homes -> m' = [] \/ m' = [r] ->
  forall p, split_byte "/" p = split_byte "/" h' ++ "wa" :: m' -> safe_dir p.
Proof.
  intros Hh' Hm' p Ep. apply Forall_forall. intros t Ht [l E]%under_split.
  apply tracked_split in Ht as (h & m & Hh & Et & Hne & Hr). rewrite Ep, Et, <- app_assoc in E. cbn [app] in E.
  apply app_eq_app in E as (k & [[E1 E2]|[E1 E2]]).
  - destruct k as [|x k]; cbn in E2.
    + injection E2 as <-. destruct Hm' as [E|E]; [apply app_nil in E as [? _]; done|by apply Hr in E].
    + injection E2 as <- _. apply (home_apart h h' Hh Hh'), under_split. exists k.
      rewrite split_join, E1, <- app_assoc. done.
  - destruct k as [|x k]; cbn in E2.
    + injection E2 as ->. destruct Hm' as [E|E]; [apply app_nil in E as [? _]; done|by apply Hr in E].
    + injection E2 as <- E2. apply (home_apart h' h Hh' Hh), under_split. exists k.
      rewrite split_join, E1, <- app_assoc. done.
Qed.

Lemma wa_dirs_safe : Forall safe_dir wa_dirs.
Proof.
  apply Forall_forall. intros p (h & -> & Hh)%list_elem_of_fmap. apply (safe_below h []); [done|by left|].
  by rewrite split_join.
Qed.
Lemma profile_dirs_safe : Forall safe_dir profile_dirs.
Proof.
  apply Forall_forall. intros p (h & -> & Hh)%list_elem_of_fmap. apply (safe_below h [r]); [done|by right|].
  rewrite !split_last by (done || apply r_no_slash). by rewrite <- app_assoc.
Qed.

Lemma safe_not_tracked p : safe_dir p -> p ∉ tracked.
Proof. intros Hs Ht. unfold safe_dir in Hs. rewrite Forall_forall in Hs. by apply (Hs p Ht), under_refl. Qed.
Lemma safe_up p : safe_dir p -> dir_of p <> "" -> safe_dir (dir_of p).
Proof.
  intros Hs Hd. eapply Forall_impl; [exact Hs|]. cbn. intros t Ht Hu. apply Ht. eapply under_trans; [exact Hu|].
  by apply dir_under.
Qed.

(** ** States *)

Definition pairs_ok (f : fs) : Prop := forall s d, (s, d) ∈ pairs ->
  fileopt (f !! s) /\ fileopt (f !! d) /\ (f !! s = None \/ f !! d = None).
(** Where a file is. *)
Definition held (f : fs) (p : string * string) : option node :=
  match f !! p.1 with Some x => Some x | None => f !! p.2 end.
Definition held_all (f : fs) : list (option node) := map (held f) pairs.

Context (same_db : relation dbfiles) {db_refl : Reflexive same_db} {db_trans : Transitive same_db}.

(** The two databases hold the same data, the other files the same bytes. *)
Definition same_files (l l' : list (option node)) : Prop :=
  match l, l' with
  | [a1; a2; a3; b1; b2; b3; c; d; e], [a1'; a2'; a3'; b1'; b2'; b3'; c'; d'; e'] =>
    same_db (a1, a2, a3) (a1', a2', a3') /\ same_db (b1, b2, b3) (b1', b2', b3') /\ c = c' /\ d = d' /\ e = e'
  | _, _ => False
  end.

Definition wf (f : fs) : Prop :=
  (forall p, p ∈ wa_dirs -> f !! p = Some NDir)
  /\ (forall p, p ∈ profile_dirs -> f !! p = None \/ f !! p = Some NDir)
  /\ fileopt (f !! SchemaVersionFile) /\ fileopt (f !! ActiveProfileFile).

Definition copies (plan : list MigrationStep) : list (string * string) :=
  map (fun s => (ms_From s, ms_To s)) (List.filter is_copy plan).
Definition plan_ok (plan : list MigrationStep) (f : fs) : Prop :=
  (forall p, p ∈ copies plan -> p ∈ pairs) /\ (forall p, p ∈ pairs -> held f p <> None -> p ∈ copies plan)
  /\ NoDup (copies plan).*1.

Section Invariant.
Context (f0 : fs).

Definition base (f : fs) : Prop := pairs_ok f /\ same_files (held_all f0) (held_all f) /\ wf f.
Definition unmarked (f : fs) : Prop := f !! MigratingMarkerFile = None.
Definition all_legacy (f : fs) : Prop := forall p, p ∈ pairs -> f !! p.2 = None.
Definition all_new (f : fs) : Prop := forall p, p ∈ pairs -> f !! p.1 = None.
Definition marked (plan : list MigrationStep) (f : fs) : Prop :=
  base f /\ (exists c, f !! MigratingMarkerFile = Some (NFile c) /\ copies (parse_marker c) = copies plan)
  /\ plan_ok plan f.
Definition settled (f : fs) : Prop := base f /\ unmarked f /\ (all_legacy f \/ all_new f).
(** Between any two calls. *)
Definition safe (f : fs) : Prop := settled f \/ exists plan, marked plan f.

(** *** Changes elsewhere *)

Definition stable (R : fs -> Prop) : Prop :=
  (forall f p, safe_dir p -> f !! p = None -> R f -> R (<[p := NDir]> f))
  /\ (forall f t x, is_temp t -> R f -> R (<[t := x]> f))
  /\ (forall f t, is_temp t -> R f -> R (delete t f)).

Definition tracked_only (R : fs -> Prop) : Prop :=
  forall f f', (forall t, t ∈ tracked -> f !! t = f' !! t) -> R f -> R f'.

Lemma stable_tracked R : tracked_only R -> stable R.
Proof.
  intros HR. split_and!.
  - intros f p Hp _. apply HR. intros t Ht. rewrite lookup_insert_ne; [done|]. intros ->. by apply (safe_not_tracked t).
  - intros f t x Ht. apply HR. intros t' Ht'. rewrite lookup_insert_ne; [done|]. intros ->. by apply (tracked_not_temp t').
  - intros f t Ht. apply HR. intros t' Ht'. rewrite lookup_delete_ne; [done|]. intros ->. by apply (tracked_not_temp t').
Qed.
Lemma stable_and R1 R2 : stable R1 -> stable R2 -> stable (fun f => R1 f /\ R2 f).
Proof. intros (A1 & A2 & A3) (B1 & B2 & B3). split_and!; naive_solver. Qed.
Lemma stable_or R1 R2 : stable R1 -> stable R2 -> stable (fun f => R1 f \/ R2 f).
Proof. intros (A1 & A2 & A3) (B1 & B2 & B3). split_and!; naive_solver. Qed.
Lemma stable_ex {A} (R : A -> fs -> Prop) : (forall a, stable (R a)) -> stable (fun f => exists a, R a f).
Proof.
  intros HR. split_and!; [intros f p Hp Hn [a Ha]|intros f t x Ht [a Ha]|intros f t Ht [a Ha]];
    destruct (HR a) as (H1 & H2 & H3); eauto.
Qed.

Lemma stable_all {A} (P : A -> Prop) (R : A -> fs -> Prop) : (forall a, P a -> stable (R a)) ->
  stable (fun f => forall a, P a -> R a f).
Proof.
  intros HR. split_and!; [intros f p Hp Hn Ha a HP|intros f t x Ht Ha a HP|intros f t Ht Ha a HP];
    destruct (HR a HP) as (H1 & H2 & H3); eauto.
Qed.

Lemma dir_not_temp p : p ∈ wa_dirs ++ profile_dirs -> ~ is_temp p.
Proof.
  intros Hp [suf E]. rewrite elem_of_app in Hp.
  destruct Hp as [(h & -> & _)%list_elem_of_fmap|(h & -> & _)%list_elem_of_fmap];
    rewrite base_join in E by (done || apply r_no_slash); [done|].
  assert (Hd : no_byte "." r = true) by by apply valid_no_byte. by rewrite E in Hd.
Qed.

Lemma stable_dir p : p ∈ wa_dirs ++ profile_dirs -> stable (fun f => f !! p = Some NDir).
Proof.
  intros Hp. pose proof (dir_not_temp p Hp) as Ht. split_and!.
  - intros f q _ Hq HR. destruct (decide (q = p)) as [->|]; [by rewrite lookup_insert_eq|by rewrite lookup_insert_ne].
  - intros f t x Hx HR. rewrite lookup_insert_ne; [done|]. by intros ->.
  - intros f t Hx HR. rewrite lookup_delete_ne; [done|]. by intros ->.
Qed.
Lemma stable_dir_opt p : p ∈ wa_dirs ++ profile_dirs -> stable (fun f => f !! p = None \/ f !! p = Some NDir).
Proof.
  intros Hp. pose proof (dir_not_temp p Hp) as Ht. split_and!.
  - intros f q _ Hq HR. destruct (decide (q = p)) as [->|]; [rewrite lookup_insert_eq; by right|by rewrite lookup_insert_ne].
  - intros f t x Hx HR. rewrite lookup_insert_ne; [done|]. by intros ->.
  - intros f t Hx HR. rewrite lookup_delete_ne; [done|]. by intros ->.
Qed.

Lemma pair_tracked s d : (s, d) ∈ pairs -> s ∈ tracked /\ d ∈ tracked.
Proof.
  intros Hp. unfold tracked. rewrite !elem_of_app. split; [left|right; left].
  - by apply (list_elem_of_fmap_2 fst) in Hp.
  - by apply (list_elem_of_fmap_2 snd) in Hp.
Qed.
Lemma special_tracked p : p ∈ specials -> p ∈ tracked.
Proof. intros Hp. unfold tracked. rewrite !elem_of_app. by right; right. Qed.

Lemma held_eq f f' : (forall p, p ∈ pairs -> f !! p.1 = f' !! p.1 /\ f !! p.2 = f' !! p.2) -> held_all f' = held_all f.
Proof.
  intros E. apply map_ext_in. intros p Hp%list_elem_of_In. unfold held. destruct (E p Hp) as [-> ->]. done.
Qed.
Lemma held_tracked f f' : (forall t, t ∈ tracked -> f !! t = f' !! t) -> held_all f' = held_all f.
Proof. intros E. apply held_eq. intros [s d] Hp. apply pair_tracked in Hp as [Hs Hd]. by rewrite !E. Qed.

Lemma pairs_ok_tracked : tracked_only pairs_ok.
Proof. intros f f' E Hf s d Hp. destruct (pair_tracked s d Hp). rewrite <- !E by done. by apply Hf. Qed.

Lemma stable_wf : stable wf.
Proof.
  repeat apply stable_and.
  - apply stable_all. intros p Hp. apply stable_dir. set_solver.
  - apply stable_all. intros p Hp. apply stable_dir_opt. set_solver.
  - apply stable_tracked. intros f f' E. rewrite E; [done|]. apply special_tracked. unfold specials. set_solver.
  - apply stable_tracked. intros f f' E. rewrite E; [done|]. apply special_tracked. unfold specials. set_solver.
Qed.

Lemma stable_base : stable base.
Proof.
  apply stable_and; [apply stable_tracked, pairs_ok_tracked|]. apply stable_and; [|apply stable_wf].
  apply stable_tracked. intros f f' E. by rewrite (held_tracked f f').
Qed.
Lemma marker_tracked : MigratingMarkerFile ∈ tracked.
Proof. apply special_tracked. unfold specials. set_solver. Qed.

Lemma plan_ok_tracked plan : tracked_only (plan_ok plan).
Proof.
  intros f f' E (H1 & H2 & H3). split_and!; [done| |done]. intros [s d] Hp Hh. apply H2; [done|].
  intros Hn. apply Hh. destruct (pair_tracked s d Hp) as [Hs Hd]. unfold held in *. cbn [fst snd] in *.
  by rewrite <- !E.
Qed.
Lemma all_legacy_tracked : tracked_only all_legacy.
Proof. intros f f' E Hf [s d] Hp. destruct (pair_tracked s d Hp). rewrite <- E by done. by apply Hf. Qed.
Lemma all_new_tracked : tracked_only all_new.
Proof. intros f f' E Hf [s d] Hp. destruct (pair_tracked s d Hp). rewrite <- E by done. by apply Hf. Qed.
Lemma stable_unmarked : stable unmarked.
Proof. apply stable_tracked. intros f f' E. unfold unmarked. by rewrite E by apply marker_tracked. Qed.
Lemma stable_marked plan : stable (marked plan).
Proof.
  apply stable_and; [apply stable_base|]. apply stable_and; [|apply stable_tracked, plan_ok_tracked].
  apply stable_tracked. intros f f' E. by rewrite E by apply marker_tracked.
Qed.
Lemma stable_settled : stable settled.
Proof.
  apply stable_and; [apply stable_base|]. apply stable_and; [apply stable_unmarked|].
  apply stable_or; apply stable_tracked; [apply all_legacy_tracked|apply all_new_tracked].
Qed.
Lemma stable_safe : stable safe.
Proof. apply stable_or; [apply stable_settled|]. apply stable_ex, stable_marked. Qed.

(** ** Programs that stay away from the files *)

Section Runs.
Context {os : Os} {mach : Machine} {mt : MarkerText} {sq : Sqlite}.
Hypothesis stat_sound : forall k, os_fault k SStat = None.
Definition no_faults : Prop := forall k o, os_fault k o = None.

Lemma stat_file p f : fileopt (f !! p) -> fs_stat p f = match f !! p with Some x => Ok x | None => Err ENOENT end.
Proof. intros [E|[c E]]; rewrite E; [by apply stat_none|by eapply stat_some]. Qed.
Lemma stat_file_ok p f : fileopt (f !! p) -> ok (fs_stat p f) = false <-> f !! p = None.
Proof. intros Hf. rewrite stat_file by done. by destruct (f !! p). Qed.
Lemma h_stat G (P : fs -> Prop) (Q : res errno node -> fs -> Prop) p :
  (forall f, P f -> G f) -> (forall f, P f -> Q (fs_stat p f) f) -> hoare G P (Stat p) Q.
Proof. intros HG HQ. by apply h_ask_sound. Qed.

(** A call that changes nothing, and may fail. *)
Lemma h_quiet {A} G (P : fs -> Prop) o (q : fs -> res errno A) :
  (forall f, P f -> G f) -> hoare G P (ask o q) (fun _ => P).
Proof. intros HG. apply h_ask; auto. Qed.

Section Stable.
Context (G R : fs -> Prop) (HR : stable R) (HG : forall f, R f -> G f).

Lemma h_mkdir p : safe_dir p -> hoare G R (Mkdir p) (fun _ => R).
Proof.
  intros Hp. apply h_call; [done| |done]. intros f Hf. unfold fs_mkdir.
  case_bool_decide as Hn; [done|]. destruct (negb _); [done|]. cbn. apply (proj1 HR); [done| |done].
  apply eq_None_not_Some. done.
Qed.

Lemma h_mkdir_all n p : safe_dir p -> hoare G R (mkdir_all n p) (fun _ => R).
Proof.
  revert p. induction n as [|n IH]; intros p Hp; cbn [mkdir_all]; [by apply h_ret|].
  apply (h_bind _ _ _ (fun _ => R)); [by apply h_stat|]. intros st.
  destruct st as [[| |]|e]; try by apply h_ret.
  apply (h_bind _ _ _ (fun _ => R)).
  { destruct (str_empty (dir_of p)) eqn:E; [by apply h_ret|]. apply IH, safe_up; [done|]. by apply str_empty_false. }
  intros [u|e']; [|by apply h_ret].
  apply (h_bind _ _ _ (fun _ => R)); [by apply h_mkdir|]. intros [u'|e']; [by apply h_ret|].
  apply (h_bind _ _ _ (fun _ => R)); [by apply h_quiet|]. intros [[| |]|e'']; by apply h_ret.
Qed.


(** What a call that cannot fail by itself answers. *)
Definition sound {A} (ok_if : fs -> Prop) (R : fs -> Prop) (x : res errno A) (f : fs) : Prop :=
  R f /\ (no_faults -> ok_if f -> is_ok x = true).

Lemma h_ask_ok {A} o (q : fs -> res errno A) (ok_if : fs -> Prop) :
  (forall f, R f -> ok_if f -> is_ok (q f) = true) -> hoare G R (ask o q) (sound ok_if R).
Proof.
  intros Hq. apply h_ask; [done|]. intros x f Hf [->|(k & why & Hw & ->)]; (split; [done|]); [auto|].
  intros Hn. by rewrite Hn in Hw.
Qed.

Lemma h_sync : hoare G R Sync (sound (fun _ => True) R).
Proof. by apply h_ask_ok. Qed.
Lemma h_close : hoare G R Close (sound (fun _ => True) R).
Proof. by apply h_ask_ok. Qed.
Lemma is_ok_stat (p : string) f x : f !! p = Some x -> (forall t, x <> NLink t) ->
  is_ok (res_map (fun _ => tt) (fs_stat p f)) = true.
Proof. intros E Hx. by rewrite (stat_some p f x). Qed.

Lemma h_fsyncDir p : hoare G R (fsyncDir p)
  (fun x f => R f /\ (no_faults -> f !! p = Some NDir -> is_ok x = true)).
Proof.
  unfold fsyncDir.
  apply (h_bind _ _ _ (sound (fun f => f !! p = Some NDir) R)).
  { apply h_ask_ok. intros f _ Hd. by eapply is_ok_stat. }
  intros [u|e]; [|apply h_ret; intros f [Hf Hx]; split; [done|]; intros Hn Hd; by specialize (Hx Hn Hd)].
  apply (h_bind _ _ _ (sound (fun _ => True) R)); [eapply h_conseq; [apply h_sync|by intros f [? _]|done]|].
  intros x. apply (h_bind _ _ _ (fun _ => sound (fun _ => True) R x)).
  { apply h_ask; [by intros f [? _]; auto|]. done. }
  intros _. apply h_ret. intros f [Hf Hx]. split; [done|]. intros Hn _. specialize (Hx Hn I). by destruct x.
Qed.

Lemma h_drop_temp t : is_temp t -> hoare G R (drop_temp t) (fun _ => R).
Proof.
  intros Ht. unfold drop_temp. apply (h_bind _ _ _ (fun _ => R)); [by apply h_stat|]. intros st.
  destruct (ok st); [|by apply h_ret].
  apply (h_bind _ _ _ (fun _ => R)); [|intros _; by apply h_ret].
  apply h_call; [done| |done]. intros f Hf. unfold fs_remove.
  destruct (f !! t) as [[| |]|]; [destruct (children t f)|..]; cbn; try done; by apply HR.
Qed.

End Stable.

Lemma stable_const (P : Prop) : stable (fun _ => P).
Proof. by split_and!. Qed.

Section Atomic.
Context (G R R' : fs -> Prop) (path content : string).
Context (HR : stable R) (HR' : stable R') (HG : forall f, R f -> G f) (HG' : forall f, R' f -> G f).
Let parent : string := join ConfigHome "wa".
Hypothesis Hpath : path ∈ specials.
Hypothesis Hput : forall f, R f -> R' (<[path := NFile content]> f).
Hypothesis Hdirs : forall f, R f -> f !! parent = Some NDir /\ fileopt (f !! path).
Hypothesis Hdirs' : forall f, R' f -> f !! parent = Some NDir.

Lemma path_dir : dir_of path = parent /\ no_byte "/" (base_of path) = true.
Proof.
  clear -Hpath. unfold specials, MigratingMarkerFile, SchemaVersionFile, ActiveProfileFile in Hpath.
  rewrite !elem_of_cons, elem_of_nil in Hpath.
  destruct Hpath as [->|[->|[->|[]]]]; rewrite dir_join, base_join; done.
Qed.

(** The temporary file, with what has been written to it. *)
Definition temp_file (t c : string) (f : fs) : Prop := R f /\ f !! t = Some (NFile c).
Definition landed (x : res merr unit) (f : fs) : Prop :=
  match x with Ok _ => R' f | Err _ => R f \/ R' f end.
Definition written (x : res merr unit) (f : fs) : Prop := landed x f /\ (no_faults -> is_ok x = true).

Lemma temp_not_tracked t p : is_temp t -> p ∈ tracked -> t <> p.
Proof. intros Ht Hp ->. by apply (tracked_not_temp p). Qed.

Lemma h_failed t c e : hoare G (temp_file t c) (let! _ := Close in ret (Err (MErrno e))) landed.
Proof.
  apply (h_bind _ _ _ (fun _ => temp_file t c)).
  - apply h_quiet. by intros f [? _]; auto.
  - intros _. apply h_ret. intros f [Hf _]. by left.
Qed.

(** A call on the temporary file that changes nothing. *)
Lemma h_temp_step {A} t c o (q : fs -> res errno A) (k : res errno A -> prog (res merr unit)) :
  (forall f, f !! t = Some (NFile c) -> is_ok (q f) = true) ->
  (forall a, hoare G (temp_file t c) (k (Ok a)) written) ->
  (forall e, hoare G (temp_file t c) (k (Err e)) landed) ->
  hoare G (temp_file t c) (bind (ask o q) k) written.
Proof.
  intros Hq Hok Herr. apply (h_bind _ _ _ (fun x f => temp_file t c f /\ (no_faults -> is_ok x = true))).
  { apply h_ask; [by intros f [? _]; auto|]. intros x f Hf [->|(j & why & Hw & ->)]; (split; [done|]).
    - intros _. apply Hq, Hf.
    - intros Hn. by rewrite Hn in Hw. }
  intros [a|e].
  - eapply h_conseq; [apply Hok|by intros f [? _]|done].
  - eapply h_pure; [apply Herr|]. intros x f Hx Hn. split; [done|]. intros Hn'. by specialize (Hn Hn').
Qed.

Lemma h_write_temp t : is_temp t -> dir_of t = parent -> hoare G (temp_file t "") (write_temp t path content) written.
Proof.
  intros Ht Hdt. destruct path_dir as [Hpd _]. unfold write_temp.
  assert (HGt : forall c f, temp_file t c f -> G f) by (intros c f [? _]; auto).
  apply (h_bind _ _ _ (fun (x : res errno unit) f => (if x then temp_file t content f else exists c, temp_file t c f) /\ (no_faults -> is_ok x = true))).
  { assert (Hap : forall u f, temp_file t "" f -> temp_file t u (fs_append t u f)).
    { intros u f [Hf Hc]. unfold fs_append. rewrite Hc. split; [by apply HR|by rewrite lookup_insert_eq]. }
    apply h_write.
    - intros f n Hf. eapply HGt. by apply Hap.
    - intros f Hf. split; [by apply Hap|done].
    - intros f j why n Hw Hf. split; [eexists; by apply Hap|]. intros Hn. by rewrite Hn in Hw. }
  intros [u|e].
  2: { eapply h_pure; [apply h_pre; intros f [c Hc]; eapply h_conseq; [apply (h_failed t c)|by intros f' <-|done]|].
       intros x f Hx Hn. split; [done|]. intros Hn'. by specialize (Hn Hn'). }
  eapply h_conseq; [|by intros f [? _]|done].
  apply (h_temp_step t content); [by intros f Hc; eapply is_ok_stat| |intros e; apply h_failed]. intros _.
  apply (h_temp_step t content); [done| |intros e; apply h_failed]. intros _.
  apply (h_temp_step t content); [done| |intros e; apply h_ret; intros f [? _]; by left]. intros _.
  apply (h_bind _ _ _ (fun (x : res errno unit) f => (if x then R' f else R f) /\ (no_faults -> is_ok x = true))).
  { apply h_call; [apply HGt| |].
    - intros f [Hf Hc]. destruct (Hdirs f Hf) as [Hp Ho]. unfold fs_rename. rewrite Hc. unfold parent_ok.
      rewrite Hpd, (is_dir_intro _ _ Hp), orb_true_r. cbn [negb].
      assert (HR1 : R' (<[path := NFile content]> (delete t f))) by (apply Hput; by apply HR).
      destruct Ho as [->|[c ->]]; done.
    - intros f j why Hw [Hf _]. split; [done|]. intros Hn. by rewrite Hn in Hw. }
  intros [u'|e].
  - rewrite Hpd. eapply h_conseq; [apply (h_fsyncDir G R' HG')|by intros f [? _]|].
    intros x f [Hf Hx]. split; [destruct x; cbn; auto|]. intros Hn. by apply Hx, Hdirs'.
  - apply h_ret. intros f [Hf Hx]. split; [by left|]. intros Hn. by specialize (Hx Hn).
Qed.

Lemma h_atomicWriteFile : hoare G R (atomicWriteFile path content) written.
Proof.
  destruct path_dir as [Hpd Hpb]. unfold atomicWriteFile. rewrite Hpd.
  apply (h_bind _ _ _ (fun (x : res errno unit) f => R f /\ x = Ok tt)).
  { unfold MkdirAll. cbn [mkdir_all]. apply (h_bind _ _ _ (fun (x : res errno node) f => R f /\ x = Ok NDir)).
    - apply h_stat; [done|]. intros f Hf. split; [done|]. apply (stat_some _ _ NDir); [|done]. by apply Hdirs.
    - intros x. apply h_pre. intros f [Hf ->]. apply h_ret. by intros f' <-. }
  intros x. apply h_pre. intros f1 [Hf1 ->]. eapply (h_conseq _ _ R _ written); [|by intros f <-|done].
  apply (h_bind _ _ _ (fun (x : res errno string) f => match x with
     | Ok t => (is_temp t /\ dir_of t = parent) /\ temp_file t "" f
     | Err _ => R f /\ ~ no_faults end)).
  { apply h_call; [done| |].
    - intros f Hf. unfold fs_create. set (pre := join parent (".tmp-" +:+ base_of path +:+ "-")).
      destruct (temp_shape pre f) as (suf & Es & Hs). rewrite temp_free.
      assert (Et : temp_name pre f = join parent (".tmp-" +:+ base_of path +:+ "-" +:+ suf)).
      { rewrite Es. unfold pre. rewrite join_app, <- !str_app_assoc. done. }
      assert (Hns : no_byte "/" (".tmp-" +:+ base_of path +:+ "-" +:+ suf) = true).
      { rewrite !no_byte_app, Hpb, Hs. done. }
      rewrite bool_decide_eq_false_2 by (by intros [? ?]). unfold parent_ok.
      rewrite Et, dir_join, (is_dir_intro _ _ (proj1 (Hdirs f Hf))), orb_true_r by done. cbn [negb].
      assert (Ht : is_temp (join parent (".tmp-" +:+ base_of path +:+ "-" +:+ suf))).
      { exists (base_of path +:+ "-" +:+ suf). by rewrite base_join. }
      cbn [fst snd res_map]. split; [split; [done|by rewrite dir_join]|]. split; [by apply HR|by rewrite lookup_insert_eq].
    - intros f j why Hw Hf. split; [done|]. intros Hn. by rewrite Hn in Hw. }
  intros [t|e]; [|apply h_ret; intros f [Hf Hn]; split; [by left|done]].
  apply h_pre. intros f2 [[Ht Hdt] Hf2]. eapply (h_conseq _ _ (temp_file t "") _ written); [|by intros f <-|done].
  apply (h_bind _ _ _ written); [by apply h_write_temp|]. intros x.
  apply (h_bind _ _ _ (fun _ => written x)).
  - apply h_drop_temp; [|by intros f [Hf _]; destruct x; [|destruct Hf]; auto|done].
    apply stable_and; [destruct x; [done|by apply stable_or]|apply stable_const].
  - intros _. by apply h_ret.
Qed.

End Atomic.

(** ** One file moves *)

Definition swapped (a b : string) (f f' : fs) : Prop :=
  (forall x, x <> a -> x <> b -> f' !! x = f !! x) /\ f' !! a = f !! b /\ f' !! b = f !! a.
Lemma swapped_sym a b f f' : swapped a b f f' -> swapped b a f f'.
Proof. intros (H1 & H2 & H3). split_and!; auto. Qed.

Lemma pair_ends p q : p ∈ pairs -> q ∈ pairs -> p = q \/ (p.1 <> q.1 /\ p.2 <> q.2).
Proof.
  intros [i Hi]%list_elem_of_lookup [j Hj]%list_elem_of_lookup.
  destruct (decide (i = j)) as [->|Hn]; [left; congruence|right].
  pose proof tracked_NoDup as Hd. unfold tracked in Hd. apply NoDup_app in Hd as (H1 & _ & H2).
  apply NoDup_app in H2 as (H2 & _ & _). change (map fst pairs) with (fst <$> pairs) in H1. change (map snd pairs) with (snd <$> pairs) in H2.
  split; intros E; apply Hn; [apply (NoDup_lookup _ _ _ p.1 H1)|apply (NoDup_lookup _ _ _ p.2 H2)];
    rewrite list_lookup_fmap; rewrite ?Hi, ?Hj; cbn; congruence.
Qed.
Lemma pair_cross p q : p ∈ pairs -> q ∈ pairs -> p.1 <> q.2.
Proof.
  intros Hp Hq E. pose proof tracked_NoDup as Hd. unfold tracked in Hd. apply NoDup_app in Hd as (_ & Hd & _).
  apply (Hd p.1); [by apply (list_elem_of_fmap_2 fst)|]. rewrite E, elem_of_app. left. by apply (list_elem_of_fmap_2 snd).
Qed.
Lemma pair_special p x : p ∈ pairs -> x ∈ specials -> x <> p.1 /\ x <> p.2.
Proof.
  intros Hp Hx. pose proof tracked_NoDup as Hd. unfold tracked in Hd. apply NoDup_app in Hd as (_ & H1 & Hd).
  apply NoDup_app in Hd as (_ & H2 & _). split; intros ->.
  - apply (H1 p.1); [by apply (list_elem_of_fmap_2 fst)|]. rewrite elem_of_app. by right.
  - by apply (H2 p.2); [apply (list_elem_of_fmap_2 snd)|].
Qed.
Lemma pair_dir p x : p ∈ pairs -> x ∈ wa_dirs ++ profile_dirs -> x <> p.1 /\ x <> p.2.
Proof.
  intros Hp Hx. assert (Hs : safe_dir x).
  { pose proof wa_dirs_safe as H1. pose proof profile_dirs_safe as H2. rewrite Forall_forall in H1, H2.
    apply elem_of_app in Hx as [Hx|Hx]; auto. }
  destruct p as [s d]. destruct (pair_tracked s d Hp). by split; intros ->; apply (safe_not_tracked _ Hs).
Qed.

Lemma swapped_other p q f f' : p ∈ pairs -> q ∈ pairs -> p <> q -> swapped p.1 p.2 f f' ->
  f' !! q.1 = f !! q.1 /\ f' !! q.2 = f !! q.2.
Proof.
  intros Hp Hq Hne (Hf & _). destruct (pair_ends q p Hq Hp) as [->|[H1 H2]]; [done|].
  split; apply Hf; try done.
  all: first [by apply pair_cross | by apply not_eq_sym, pair_cross].
Qed.

Lemma swapped_held p f f' : p ∈ pairs -> pairs_ok f -> swapped p.1 p.2 f f' -> forall q, q ∈ pairs -> held f' q = held f q.
Proof.
  intros Hp Hok Hs q Hq. unfold held. destruct (decide (p = q)) as [<-|Hn].
  - destruct p as [s d], Hs as (_ & E1 & E2). cbn [fst snd] in *. rewrite E1, E2.
    destruct (Hok s d Hp) as (_ & _ & [-> | ->]); by repeat case_match.
  - by destruct (swapped_other p q f f') as [-> ->].
Qed.

Lemma swapped_pairs_ok p f f' : p ∈ pairs -> pairs_ok f -> swapped p.1 p.2 f f' -> pairs_ok f'.
Proof.
  intros Hp Hok Hs s d Hq. destruct (decide (p = (s, d))) as [->|Hn].
  - destruct Hs as (_ & E1 & E2). cbn [fst snd] in *. rewrite E1, E2. destruct (Hok s d Hq) as (H1 & H2 & H3).
    split_and!; [done|done|]. by destruct H3; [right|left].
  - destruct (swapped_other p (s, d) f f') as [E1 E2]; try done. cbn [fst snd] in *. rewrite E1, E2. by apply Hok.
Qed.

Lemma swapped_wf p f f' : p ∈ pairs -> swapped p.1 p.2 f f' -> wf f -> wf f'.
Proof.
  intros Hp Hs (H1 & H2 & H3 & H4).
  assert (E : forall x, x ∈ wa_dirs ++ profile_dirs \/ x ∈ specials -> f' !! x = f !! x).
  { intros x [Hx|Hx]; [destruct (pair_dir p x Hp Hx)|destruct (pair_special p x Hp Hx)]; by apply Hs. }
  split_and!.
  - intros x Hx. rewrite E; [by apply H1|]. left. apply elem_of_app. by left.
  - intros x Hx. rewrite E; [by apply H2|]. left. apply elem_of_app. by right.
  - rewrite E; [done|]. right. apply special_member; auto.
  - rewrite E; [done|]. right. apply special_member; auto.
Qed.

Lemma swapped_base p f f' : p ∈ pairs -> swapped p.1 p.2 f f' -> base f -> base f'.
Proof.
  intros Hp Hs (H1 & H2 & H3). split_and!; [by apply (swapped_pairs_ok p f)| |by apply (swapped_wf p f)].
  replace (held_all f') with (held_all f); [done|]. apply map_ext_in. intros q Hq%list_elem_of_In.
  symmetry. by apply (swapped_held p).
Qed.

Lemma swapped_marked plan p f f' : p ∈ pairs -> swapped p.1 p.2 f f' -> marked plan f -> marked plan f'.
Proof.
  intros Hp Hs (Hb & (c & Hm & Hc) & (P1 & P2 & P3)). split_and!; [by apply (swapped_base p f)| |].
  - exists c. split; [|done]. rewrite <- Hm. destruct (pair_special p MigratingMarkerFile Hp); [unfold specials; set_solver|]. by apply Hs.
  - split_and!; [done| |done]. intros q Hq. rewrite (swapped_held p f f') by (try done; apply Hb). by apply P2.
Qed.

Lemma marked_plan plan plan' f : copies plan = copies plan' -> marked plan f -> marked plan' f.
Proof. intros E (H1 & (c & H2 & H3) & H4). unfold marked, plan_ok in *. rewrite E in *. eauto. Qed.

(** A plan names every file there is. *)
Lemma marked_outside plan f p : marked plan f -> p ∈ pairs -> p ∉ copies plan -> f !! p.1 = None /\ f !! p.2 = None.
Proof.
  intros (_ & _ & (_ & P2 & _)) Hp Hn. assert (E : held f p = None).
  { destruct (held f p) eqn:E; [|done]. destruct Hn. apply P2; [done|]. by rewrite E. }
  unfold held in E. by destruct (f !! p.1).
Qed.
Lemma marked_legacy plan f : marked plan f -> (forall p, p ∈ copies plan -> f !! p.2 = None) -> all_legacy f.
Proof.
  intros Hm Hc p Hp. destruct (decide (p ∈ copies plan)) as [Hi|Hi]; [by apply Hc|]. by eapply marked_outside.
Qed.
Lemma marked_new plan f : marked plan f -> (forall p, p ∈ copies plan -> f !! p.1 = None) -> all_new f.
Proof.
  intros Hm Hc p Hp. destruct (decide (p ∈ copies plan)) as [Hi|Hi]; [by apply Hc|]. by eapply marked_outside.
Qed.
Lemma marked_pair plan f p : marked plan f -> p ∈ copies plan -> p ∈ pairs.
Proof. intros (_ & _ & (P1 & _)). apply P1. Qed.
Lemma marked_pairs_ok plan f : marked plan f -> pairs_ok f.
Proof. by intros ((H1 & _) & _). Qed.
Lemma marked_safe plan f : marked plan f -> safe f.
Proof. right. by exists plan. Qed.
Lemma settled_safe f : settled f -> safe f.
Proof. by left. Qed.

(** The rename of a file to a place that is free. *)
Lemma h_rename G a b f1 : G f1 -> fileopt (f1 !! a) -> f1 !! a = None \/ f1 !! b = None -> a <> b ->
  hoare G (eq f1) (Rename a b) (fun x f => match x with
    | Ok _ => swapped a b f1 f /\ f1 !! b = None
    | Err _ => f = f1 /\ (no_faults -> f1 !! a <> None -> is_dir (dir_of b) f1 = true -> False)
    end).
Proof.
  intros HG Ha Hab Hne. apply h_call; [by intros f <-| |].
  - intros f <-. unfold fs_rename. destruct Ha as [Ea|[c Ea]]; rewrite Ea.
    + cbn. split; [done|]. intros _ Hn. done.
    + destruct Hab as [E|Eb]; [congruence|]. unfold parent_ok.
      destruct (str_empty (dir_of b) || is_dir (dir_of b) f1) eqn:Ep; cbn [negb].
      * rewrite Eb. cbn [fst snd]. split; [|done]. split_and!.
        -- intros x H1 H2. rewrite lookup_insert_ne by done. by rewrite lookup_delete_ne.
        -- rewrite lookup_insert_ne, lookup_delete_eq by done. by rewrite Eb.
        -- by rewrite lookup_insert_eq.
      * cbn. split; [done|]. intros _ _ Hd. rewrite Hd, orb_true_r in Ep. done.
  - intros f k why Hw <-. split; [done|]. intros Hn. by rewrite Hn in Hw.
Qed.

Lemma h_stat_eq G p f1 : G f1 -> hoare G (eq f1) (Stat p) (fun x f => f = f1 /\ x = fs_stat p f1).
Proof. intros HG. apply h_stat; by intros f <-. Qed.

(** [os.Lstat] answers, and nothing is a link. *)
Lemma h_refuse G p f1 : G f1 -> hoare G (eq f1) (refuseSymlink p) (fun x f => f = f1
  /\ (no_faults -> f1 !! p <> None -> fileopt (f1 !! p) -> is_ok x = true)).
Proof.
  intros HG. unfold refuseSymlink.
  apply (h_bind _ _ _ (fun x f => f = f1 /\ (no_faults -> x = fs_lstat p f1))).
  { apply h_ask; [by intros f <-|]. intros x f <- [->|(k & why & Hw & ->)]; split; try done. intros Hn. by rewrite Hn in Hw. }
  intros x. apply h_ret. intros f [-> Hx]. split; [done|]. intros Hn Hne Hfo. rewrite (Hx Hn). unfold fs_lstat.
  by destruct Hfo as [E|[c E]]; rewrite E in *.
Qed.

(** ** Writing beside the files *)

Definition has_file (p c : string) (f : fs) : Prop := f !! p = Some (NFile c).
Lemma has_file_stable p c : p ∈ specials -> stable (has_file p c).
Proof. intros Hp. apply stable_tracked. intros f f' E. unfold has_file. by rewrite E by by apply special_tracked. Qed.

Lemma special_parent f : base f -> f !! join ConfigHome "wa" = Some NDir.
Proof. intros (_ & _ & (H1 & _)). apply H1. unfold wa_dirs, homes. cbn. set_solver. Qed.
Lemma wa_special h p : h ∈ wa_dirs -> p ∈ specials -> h <> p.
Proof.
  intros Hh Hp ->. pose proof wa_dirs_safe as Hs. rewrite Forall_forall in Hs.
  by apply (safe_not_tracked p (Hs p Hh)), special_tracked.
Qed.
Lemma profile_special h p : h ∈ profile_dirs -> p ∈ specials -> h <> p.
Proof.
  intros Hh Hp ->. pose proof profile_dirs_safe as Hs. rewrite Forall_forall in Hs.
  by apply (safe_not_tracked p (Hs p Hh)), special_tracked.
Qed.

(** Changes to the three files beside the installation. *)
Lemma put_pairs p (x : node) (f : fs) q : p ∈ specials -> q ∈ pairs -> <[p := x]> f !! q.1 = f !! q.1 /\ <[p := x]> f !! q.2 = f !! q.2.
Proof. intros Hp Hq. destruct (pair_special q p Hq Hp). by rewrite !lookup_insert_ne. Qed.
Lemma del_pairs p (f : fs) q : p ∈ specials -> q ∈ pairs -> delete p f !! q.1 = f !! q.1 /\ delete p f !! q.2 = f !! q.2.
Proof. intros Hp Hq. destruct (pair_special q p Hq Hp). by rewrite !lookup_delete_ne. Qed.

Lemma base_frame (f f' : fs) : (forall q, q ∈ pairs -> f' !! q.1 = f !! q.1 /\ f' !! q.2 = f !! q.2) -> wf f' -> base f -> base f'.
Proof.
  intros E Hw (H1 & H2 & _). split_and!; [| |done].
  - intros s d Hp. destruct (E (s, d) Hp) as [E1 E2]. cbn [fst snd] in *. rewrite E1, E2. by apply H1.
  - rewrite (held_eq f f'); [done|]. intros q Hq. by destruct (E q Hq) as [-> ->].
Qed.

Lemma base_put p c f : p ∈ specials -> base f -> base (<[p := NFile c]> f).
Proof.
  intros Hp Hb. apply (base_frame f); [by intros q; apply put_pairs| |done]. destruct Hb as (_ & _ & (H1 & H2 & H3 & H4)).
  split_and!.
  - intros h Hh. rewrite lookup_insert_ne; [auto|]. by apply not_eq_sym, wa_special.
  - intros h Hh. rewrite lookup_insert_ne; [auto|]. by apply not_eq_sym, profile_special.
  - destruct (decide (p = SchemaVersionFile)) as [->|]; [rewrite lookup_insert_eq; right; by eexists|by rewrite lookup_insert_ne].
  - destruct (decide (p = ActiveProfileFile)) as [->|]; [rewrite lookup_insert_eq; right; by eexists|by rewrite lookup_insert_ne].
Qed.
Lemma base_unmark f : base f -> base (delete MigratingMarkerFile f).
Proof.
  assert (Hm : MigratingMarkerFile ∈ specials) by (unfold specials; set_solver).
  assert (Hd : forall x, x ∈ [SchemaVersionFile; ActiveProfileFile] -> MigratingMarkerFile <> x).
  { intros x Hx E. apply (f_equal base_of) in E. unfold MigratingMarkerFile, SchemaVersionFile, ActiveProfileFile in *.
    rewrite !elem_of_cons, elem_of_nil in Hx. destruct Hx as [->|[->|[]]]; by rewrite !base_join in E. }
  intros Hb. apply (base_frame f); [by intros q; apply del_pairs| |done]. destruct Hb as (_ & _ & (H1 & H2 & H3 & H4)).
  split_and!.
  - intros h Hh. rewrite lookup_delete_ne; [auto|]. by apply not_eq_sym, wa_special.
  - intros h Hh. rewrite lookup_delete_ne; [auto|]. by apply not_eq_sym, profile_special.
  - rewrite lookup_delete_ne; [done|]. apply Hd. set_solver.
  - rewrite lookup_delete_ne; [done|]. apply Hd. set_solver.
Qed.

Lemma marker_other p : p ∈ [SchemaVersionFile; ActiveProfileFile] -> p ∈ specials /\ p <> MigratingMarkerFile.
Proof.
  intros Hp. split; [unfold specials; set_solver|].
  rewrite !elem_of_cons, elem_of_nil in Hp. intros E. apply (f_equal base_of) in E.
  unfold MigratingMarkerFile, SchemaVersionFile, ActiveProfileFile in *.
  destruct Hp as [->|[->|[]]]; by rewrite !base_join in E.
Qed.
Lemma plan_ok_frame plan (f f' : fs) : (forall q, q ∈ pairs -> f' !! q.1 = f !! q.1 /\ f' !! q.2 = f !! q.2) ->
  plan_ok plan f -> plan_ok plan f'.
Proof.
  intros E (H1 & H2 & H3). split_and!; [done| |done]. intros q Hq Hh. apply H2; [done|].
  unfold held in *. by destruct (E q Hq) as [<- <-].
Qed.
Lemma marked_put plan p c f : p ∈ [SchemaVersionFile; ActiveProfileFile] -> marked plan f -> marked plan (<[p := NFile c]> f).
Proof.
  intros [Hs Hp]%marker_other (Hb & (m & Hm & Hc) & Hk). split_and!; [by apply base_put| |].
  - exists m. by rewrite lookup_insert_ne.
  - eapply plan_ok_frame; [|done]. by intros q; apply put_pairs.
Qed.
Lemma new_put p c f : p ∈ specials -> all_new f -> all_new (<[p := NFile c]> f).
Proof. intros Hp Hn q Hq. destruct (put_pairs p (NFile c) f q Hp Hq) as [-> _]. by apply Hn. Qed.
Lemma legacy_put p c f : p ∈ specials -> all_legacy f -> all_legacy (<[p := NFile c]> f).
Proof. intros Hp Hn q Hq. destruct (put_pairs p (NFile c) f q Hp Hq) as [_ ->]. by apply Hn. Qed.

(** The marker goes when all the files are on one side. *)
Lemma marker_special : MigratingMarkerFile ∈ specials.
Proof. unfold specials. set_solver. Qed.
Lemma new_unmark f : all_new f -> all_new (delete MigratingMarkerFile f).
Proof. intros Hn q Hq. destruct (del_pairs _ f q marker_special Hq) as [-> _]. by apply Hn. Qed.
Lemma legacy_unmark f : all_legacy f -> all_legacy (delete MigratingMarkerFile f).
Proof. intros Hn q Hq. destruct (del_pairs _ f q marker_special Hq) as [_ ->]. by apply Hn. Qed.

Lemma h_unmark plan (T : fs -> Prop) :
  (forall f, T f -> T (delete MigratingMarkerFile f)) -> (forall f, T f -> all_legacy f \/ all_new f) ->
  hoare safe (fun f => marked plan f /\ T f) (Remove MigratingMarkerFile)
    (fun x f => match x with Ok _ => settled f /\ T f | Err _ => marked plan f /\ ~ no_faults end).
Proof.
  intros HT Hside. apply h_call; [by intros f [Hf _]; apply (marked_safe plan)| |].
  - intros f [(Hb & (c & Hm & Hc) & Hk) Ht]. unfold fs_remove. rewrite Hm. cbn [fst snd].
    split; [|by apply HT]. split_and!; [by apply base_unmark|apply lookup_delete_eq|by apply Hside, HT].
  - intros f k why Hw [Hf _]. split; [done|]. intros Hn. by rewrite Hn in Hw.
Qed.
Lemma unmark_safe plan (T : fs -> Prop) (x : res errno unit) f :
  match x with Ok _ => settled f /\ T f | Err _ => marked plan f /\ ~ no_faults end -> safe f.
Proof. destruct x; intros [Hf _]; [by apply settled_safe|by eapply marked_safe]. Qed.

(** ** The end of a migration *)

Definition arrived (plan : list MigrationStep) (f : fs) : Prop := marked plan f /\ all_new f.
Definition versioned (plan : list MigrationStep) (f : fs) : Prop :=
  arrived plan f /\ has_file SchemaVersionFile (itoa SchemaVersion +:+ newline) f.
Definition finished (f : fs) : Prop :=
  (all_new f /\ has_file SchemaVersionFile (itoa SchemaVersion +:+ newline) f)
  /\ has_file ActiveProfileFile (DefaultProfile +:+ newline) f.

Lemma stable_arrived plan : stable (arrived plan).
Proof. apply stable_and; [apply stable_marked|apply stable_tracked, all_new_tracked]. Qed.
Lemma stable_finished : stable finished.
Proof.
  repeat apply stable_and; [apply stable_tracked, all_new_tracked|apply has_file_stable|apply has_file_stable];
    unfold specials; set_solver.
Qed.
Lemma special_dirs f : base f -> f !! join ConfigHome "wa" = Some NDir
  /\ fileopt (f !! SchemaVersionFile) /\ fileopt (f !! ActiveProfileFile).
Proof. intros Hb. split; [by apply special_parent|]. apply Hb. Qed.

Lemma h_schema plan : hoare safe (arrived plan) (writeSchemaVersion SchemaVersionFile SchemaVersion)
  (fun x f => match x with Ok _ => versioned plan f | Err _ => safe f /\ ~ no_faults end).
Proof.
  eapply h_conseq; [apply (h_atomicWriteFile safe (arrived plan) (versioned plan))|done|].
  - apply stable_arrived.
  - apply stable_and; [apply stable_arrived|]. apply has_file_stable. unfold specials; set_solver.
  - by intros f [Hf _]; eapply marked_safe.
  - by intros f [[Hf _] _]; eapply marked_safe.
  - unfold specials; set_solver.
  - intros f [Hm Hn]. split; [split|].
    + apply marked_put; [set_solver|done].
    + apply new_put; [unfold specials; set_solver|done].
    + unfold has_file. by rewrite lookup_insert_eq.
  - intros f [[Hb _] _]. by destruct (special_dirs f Hb) as (? & ? & ?).
  - intros f [[[Hb _] _] _]. by apply special_parent.
  - intros x f [Hl Hn]. destruct x; [done|]. split; [|by intros Hn'; specialize (Hn Hn')].
    by destruct Hl as [[Hf _]|[[Hf _] _]]; eapply marked_safe.
Qed.

Lemma active_not_schema : ActiveProfileFile <> SchemaVersionFile.
Proof. intros E. apply (f_equal base_of) in E. unfold SchemaVersionFile, ActiveProfileFile in *. by rewrite !base_join in E. Qed.

Lemma h_active plan : hoare safe (versioned plan) (writeActiveProfile ActiveProfileFile DefaultProfile)
  (fun x f => match x with Ok _ => marked plan f /\ finished f | Err _ => safe f /\ ~ no_faults end).
Proof.
  eapply h_conseq; [apply (h_atomicWriteFile safe (versioned plan) (fun f => marked plan f /\ finished f))|done|].
  - apply stable_and; [apply stable_arrived|]. apply has_file_stable. unfold specials; set_solver.
  - apply stable_and; [apply stable_marked|apply stable_finished].
  - by intros f [[Hf _] _]; eapply marked_safe.
  - by intros f [Hf _]; eapply marked_safe.
  - unfold specials; set_solver.
  - intros f [[Hm Hn] Hs]. split; [by apply marked_put; [set_solver|]|]. split; [split|].
    + apply new_put; [unfold specials; set_solver|done].
    + unfold has_file. rewrite lookup_insert_ne; [done|]. apply active_not_schema.
    + unfold has_file. by rewrite lookup_insert_eq.
  - intros f [[[Hb _] _] _]. by destruct (special_dirs f Hb) as (? & ? & ?).
  - intros f [[Hb _] _]. by apply special_parent.
  - intros x f [Hl Hn]. destruct x; [done|]. split; [|by intros Hn'; specialize (Hn Hn')].
    by destruct Hl as [[[Hf _] _]|[Hf _]]; eapply marked_safe.
Qed.

(** With the sources gone there is nothing to clean. *)
Lemma h_cleanup (R : fs -> Prop) l : (forall f, R f -> safe f) ->
  (forall f, R f -> forall p, p ∈ copies l -> f !! p.1 = None) ->
  hoare safe R (cleanupResidualSources l) (fun _ => R).
Proof.
  intros HG Hl. induction l as [|s l IH]; cbn [cleanupResidualSources]; [by apply h_ret|].
  unfold copies in Hl. cbn [List.filter] in Hl. destruct (is_copy s) eqn:Ec; cbn [negb]; [|by apply IH].
  apply (h_bind _ _ _ (fun x f => R f /\ ok x = false)).
  { apply h_stat; [done|]. intros f Hf. split; [done|]. rewrite stat_none; [done|].
    apply (Hl f Hf (ms_From s, ms_To s)). cbn [map]. set_solver. }
  intros x. apply h_pre. intros f [Hf ->]. cbn [negb]. eapply h_conseq; [apply IH|by intros f' <-|done].
  intros f' Hf' p Hp. apply (Hl f' Hf'). cbn [map]. set_solver.
Qed.

Lemma finished_unmark f : finished f -> finished (delete MigratingMarkerFile f).
Proof.
  intros [[Hn Hs] Ha]. split; [split|]; [by apply new_unmark| |]; unfold has_file; rewrite lookup_delete_ne; try done;
    apply not_eq_sym, marker_other; set_solver.
Qed.

(** ** The renames *)

Lemma copies_cons s plan : copies (s :: plan) = if is_copy s then (ms_From s, ms_To s) :: copies plan else copies plan.
Proof. unfold copies. cbn [List.filter]. by destruct (is_copy s). Qed.

(** [done] has moved, and nothing else. *)
Definition progress (whole : list MigrationStep) (done : list (string * string)) (f : fs) : Prop :=
  marked whole f /\ (forall p, p ∈ pairs -> f !! p.2 <> None -> p ∈ done) /\ (forall p, p ∈ done -> f !! p.1 = None).

Fixpoint before (failing : string) (l : list (string * string)) : list (string * string) :=
  match l with
  | [] => []
  | p :: l => if String.eqb p.1 failing then [] else p :: before failing l
  end.
Lemma before_app done p rest : NoDup (done ++ p :: rest).*1 -> before p.1 (done ++ p :: rest) = done.
Proof.
  induction done as [|q done IH]; cbn; [by rewrite String.eqb_refl|]. intros [Hn Hd]%NoDup_cons.
  destruct (String.eqb_spec q.1 p.1) as [E|_]; [|by rewrite IH].
  destruct Hn. rewrite E. apply (list_elem_of_fmap_2 fst). set_solver.
Qed.

Lemma stat_ok_file p f : fileopt (f !! p) -> ok (fs_stat p f) = true <-> f !! p <> None.
Proof. intros Hf. rewrite stat_file by done. by destruct (f !! p). Qed.

(** What a rollback has undone: no file is at its new path but those of the
    steps it still has to look at. *)
Definition undone (whole : list MigrationStep) (l : list (string * string)) (c : bool) (f : fs) : Prop :=
  marked whole f /\ (c = true -> forall p, p ∈ pairs -> f !! p.2 <> None -> p ∈ l).

Lemma undone_nil whole c f : undone whole [] c f -> marked whole f /\ (c = true -> all_legacy f).
Proof.
  intros [Hm Hc]. split; [done|]. intros Ht p Hp. destruct (f !! p.2) eqn:E; [|done].
  exfalso. eapply not_elem_of_nil, (Hc Ht p Hp). by rewrite E.
Qed.
Lemma undone_skip whole p l c f : f !! p.2 = None -> undone whole (p :: l) c f -> undone whole l c f.
Proof.
  intros Hn [Hm Hc]. split; [done|]. intros Ht q Hq Hd. by destruct (proj1 (elem_of_cons _ _ _) (Hc Ht q Hq Hd)) as [->|].
Qed.
Lemma undone_false whole l l' c f : undone whole l c f -> undone whole l' false f.
Proof. by intros [Hm _]. Qed.
Lemma undone_swapped whole p l c f f' : p ∈ pairs -> f !! p.1 = None -> swapped p.2 p.1 f f' ->
  undone whole (p :: l) c f -> undone whole l c f'.
Proof.
  intros Hp Hn Hs%swapped_sym [Hm Hc]. split; [by eapply swapped_marked|]. intros Ht q Hq Hd.
  destruct (decide (p = q)) as [<-|Hne].
  - destruct Hs as (_ & _ & E). congruence.
  - destruct (swapped_other p q f f') as [_ E]; try done. rewrite E in Hd.
    by destruct (proj1 (elem_of_cons _ _ _) (Hc Ht q Hq Hd)) as [->|].
Qed.

Lemma h_rollback whole failing plan : (forall p, p ∈ copies plan -> p ∈ pairs) -> forall c,
  hoare safe (undone whole (before failing (copies plan)) c) (rollbackRenames plan failing c)
    (fun c f => marked whole f /\ (c = true -> all_legacy f)).
Proof.
  assert (HG : forall l c f, undone whole l c f -> safe f) by (intros l c f [Hf _]; by eapply marked_safe).
  induction plan as [|s plan IH]; intros Hin c; cbn [rollbackRenames].
  { apply h_ret. intros f. apply undone_nil. }
  rewrite copies_cons in *. destruct (is_copy s); cbn [negb]; [|by apply IH].
  cbn [before fst]. destruct (String.eqb (ms_From s) failing); [apply h_ret; intros f; apply undone_nil|].
  set (p := (ms_From s, ms_To s)) in *. assert (Hp : p ∈ pairs) by (apply Hin; set_solver).
  assert (Hin' : forall p, p ∈ copies plan -> p ∈ pairs) by set_solver. specialize (IH Hin').
  apply h_pre. intros f Hf. pose proof (proj1 Hf) as Hm. destruct (marked_pairs_ok _ _ Hm _ _ Hp) as (F1 & F2 & F3).
  assert (Hgo : forall c', undone whole (before failing (copies plan)) c' f ->
    hoare safe (eq f) (rollbackRenames plan failing c') (fun c f => marked whole f /\ (c = true -> all_legacy f))).
  { intros c' Hc'. eapply h_conseq; [apply IH|by intros f' <-|done]. }
  apply (h_bind _ _ _ (fun x f' => f' = f /\ x = fs_stat p.2 f)); [apply h_stat_eq, (HG _ _ _ Hf)|].
  intros x. apply h_pre. intros f' [-> ->]. destruct (ok (fs_stat p.2 f)) eqn:Ed; cbn [negb].
  2: { apply Hgo. eapply undone_skip; [|exact Hf]. by apply stat_file_ok. }
  apply (h_bind _ _ _ (fun x f' => f' = f /\ x = fs_stat p.1 f)); [apply h_stat_eq, (HG _ _ _ Hf)|].
  intros x. apply h_pre. intros f' [-> ->]. destruct (ok (fs_stat p.1 f)) eqn:Es.
  { apply stat_ok_file in Ed, Es; try done. by destruct F3. }
  apply stat_file_ok in Es; [|done].
  apply (h_bind _ _ _ (fun _ f' => f' = f)).
  { eapply h_conseq; [apply h_refuse, (HG _ _ _ Hf)|done|]. by intros ? ? [? _]. }
  intros [u|e]; apply h_pre; intros f' ->; [|apply Hgo; by eapply undone_false].
  eapply h_bind; [apply h_rename; [apply (HG _ _ _ Hf)|done|by right|by apply not_eq_sym, (pair_cross p p)]|].
  intros [u'|e]; apply h_pre; intros f'.
  - intros [Hs _]. cbn [ok is_ok]. rewrite andb_true_r. eapply h_conseq; [apply IH| |done].
    intros f'' <-. by apply (undone_swapped _ p _ _ f).
  - intros [-> _]. cbn [ok is_ok]. rewrite andb_false_r. apply Hgo. by eapply undone_false.
Qed.

Lemma h_abort whole done p rest : copies whole = done ++ p :: rest ->
  hoare safe (progress whole done) (abortRenames whole p.1 MigratingMarkerFile) (fun _ => safe).
Proof.
  intros E. unfold abortRenames. apply h_pre. intros f (Hm & H1 & H2).
  assert (Hin : forall q, q ∈ copies whole -> q ∈ pairs) by (intros q; by eapply marked_pair).
  eapply h_bind.
  { eapply h_conseq; [by apply (h_rollback whole p.1 whole Hin true)| |intros c f' Hf'; exact Hf'].
    intros f' <-. split; [done|]. intros _ q Hq Hd. rewrite E, before_app; [by apply H1|]. rewrite <- E. apply Hm. }
  intros [|]; cbn [negb].
  - eapply (h_bind _ _ _ (fun _ => safe)); [|intros _; by apply h_ret].
    eapply h_conseq; [apply (h_unmark whole all_legacy)| |].
    + apply legacy_unmark.
    + by left.
    + intros f' [Hf' Hl]. auto.
    + intros x f'. apply unmark_safe.
  - apply h_ret. intros f' [Hf' _]. by eapply marked_safe.
Qed.

Lemma progress_step whole done p f f' : (forall q, q ∈ done -> q ∈ pairs) -> p ∈ pairs -> f !! p.2 = None -> swapped p.1 p.2 f f' ->
  progress whole done f -> progress whole (done ++ [p]) f'.
Proof.
  intros Hdone Hp Hn Hs (Hm & H1 & H2). split_and!; [by eapply swapped_marked| |].
  - intros q Hq Hd. destruct (decide (p = q)) as [<-|Hne]; [by apply elem_of_app; right; apply list_elem_of_singleton|].
    destruct (swapped_other p q f f') as [_ E]; try done. rewrite E in Hd. rewrite elem_of_app. left. by apply H1.
  - intros q [Hq|Hq%list_elem_of_singleton]%elem_of_app.
    + destruct (decide (p = q)) as [<-|Hne]; [destruct Hs as (_ & E & _); congruence|].
      destruct (swapped_other p q f f') as [E _]; auto. rewrite E. by apply H2.
    + subst q. destruct Hs as (_ & E & _). congruence.
Qed.

Lemma h_renamePlan whole plan : forall done, copies whole = done ++ copies plan ->
  hoare safe (progress whole done) (renamePlan whole plan MigratingMarkerFile)
    (fun x f => match x with Ok _ => arrived whole f | Err _ => safe f end).
Proof.
  induction plan as [|s plan IH]; intros done E; cbn [renamePlan].
  { apply h_ret. intros f (Hm & _ & H2). split; [done|]. apply (marked_new whole); [done|].
    intros p Hp. apply H2. by rewrite E, app_nil_r in Hp. }
  rewrite copies_cons in E. destruct (is_copy s); cbn [negb]; [|by apply IH].
  set (p := (ms_From s, ms_To s)) in *. apply h_pre. intros f Hf. pose proof Hf as (Hm & H1 & H2).
  assert (Hin : forall q, q ∈ copies whole -> q ∈ pairs) by (intros q; by eapply marked_pair).
  assert (Hp : p ∈ pairs) by (apply Hin; rewrite E; set_solver).
  destruct (marked_pairs_ok _ _ Hm _ _ Hp) as (F1 & F2 & F3).
  assert (Hsafe : safe f) by by eapply marked_safe.
  assert (Hnd : f !! p.2 = None).
  { destruct (f !! p.2) eqn:Ed; [|done]. exfalso. assert (Hd : p ∈ done) by (apply H1; [done|by rewrite Ed]).
    destruct Hm as (_ & _ & (_ & _ & Hnd)). rewrite E, fmap_app in Hnd. apply NoDup_app in Hnd as (_ & Hnd & _).
    eapply Hnd; [by apply (list_elem_of_fmap_2 fst)|]. cbn. set_solver. }
  assert (Habort : forall e : merr, hoare safe (eq f) (let! _ := abortRenames whole (ms_From s) MigratingMarkerFile in ret (Err e))
    (fun x f => match x : res merr unit with Ok _ => arrived whole f | Err _ => safe f end)).
  { intros e. eapply (h_bind _ _ _ (fun _ => safe)); [|intros _; by apply h_ret].
    eapply h_conseq; [by apply (h_abort whole done p (copies plan))|by intros f' <-|done]. }
  assert (Hmove : hoare safe (eq f) (let! x := Rename (ms_From s) (ms_To s) in
      match x with
      | Err e => let! _ := abortRenames whole (ms_From s) MigratingMarkerFile in ret (Err (MCtx "migrate: rename" (MErrno e)))
      | Ok _ => renamePlan whole plan MigratingMarkerFile
      end) (fun x f => match x with Ok _ => arrived whole f | Err _ => safe f end)).
  { eapply h_bind; [apply h_rename; [done|done|by right|by apply (pair_cross p p)]|].
    intros [u|e]; apply h_pre; intros f'.
    - intros [Hs _]. eapply h_conseq; [apply (IH (done ++ [p])); by rewrite <- app_assoc| |done].
      intros f'' <-. apply (progress_step whole done p f); try done. intros q Hq. apply Hin. rewrite E. apply elem_of_app. by left.
    - intros [-> _]. apply Habort. }
  apply (h_bind _ _ _ (fun _ f' => f' = f)).
  { eapply h_conseq; [by apply h_refuse|done|]. by intros ? ? [? _]. }
  intros [u|e]; apply h_pre; intros f' ->; [apply Hmove|]. destruct (IsNotExist e); [apply Hmove|apply Habort].
Qed.

(** ** Recovery *)

Lemma h_any whole plan f1 : marked whole f1 -> (forall p, p ∈ copies plan -> p ∈ pairs) ->
  hoare safe (eq f1) (planHasAnyDestination plan)
    (fun x f => f = f1 /\ (x = false -> forall p, p ∈ copies plan -> f1 !! p.2 = None)
                      /\ (x = true -> ~ all_legacy f1)).
Proof.
  intros Hm. induction plan as [|s plan IH]; intros Hin; cbn [planHasAnyDestination].
  { apply h_ret. intros f <-. split_and!; [done| |done]. intros _ p Hp. by apply not_elem_of_nil in Hp. }
  rewrite copies_cons in *. destruct (is_copy s); cbn [negb]; [|by apply IH].
  set (p := (ms_From s, ms_To s)) in *. assert (Hp : p ∈ pairs) by (apply Hin; set_solver).
  destruct (marked_pairs_ok _ _ Hm _ _ Hp) as (F1 & F2 & F3).
  eapply h_bind; [apply h_stat_eq; by eapply marked_safe|]. intros x. apply h_pre. intros f [-> ->].
  destruct (ok (fs_stat (ms_To s) f1)) eqn:Ed.
  - apply h_ret. intros f <-. split_and!; [done|done|]. intros _ Hl. apply stat_ok_file in Ed; [|done].
    by apply Ed, (Hl p).
  - apply stat_file_ok in Ed; [|done]. eapply h_conseq; [apply IH; set_solver|done|].
    intros x f (-> & Hx & Hx'). split_and!; [done| |done]. intros Hfalse q Hq. apply elem_of_cons in Hq as [->|Hq]; [done|]. by apply Hx.
Qed.

(** The directory of a profile can be made, below a directory that is there. *)
Lemma profile_dir_up d : d ∈ profile_dirs -> dir_of d ∈ wa_dirs /\ d <> "".
Proof.
  intros (h & -> & Hh)%list_elem_of_fmap. rewrite dir_join by apply r_no_slash. split.
  - by apply (list_elem_of_fmap_2 (fun h => join h "wa")).
  - unfold join. intros E. apply (f_equal String.length) in E. rewrite !str_app_length in E. cbn in E. lia.
Qed.
Lemma wa_nonempty d : d ∈ wa_dirs -> str_empty d = false.
Proof.
  intros (h & -> & Hh)%list_elem_of_fmap. apply str_empty_false. unfold join.
  intros E. apply (f_equal String.length) in E. rewrite !str_app_length in E. cbn in E. lia.
Qed.

Lemma h_mkdir_profile (R : fs -> Prop) d : stable R -> (forall f, R f -> safe f) -> (forall f, R f -> wf f) -> d ∈ profile_dirs ->
  hoare safe R (MkdirAll d) (fun x f => R f /\ match x with Ok _ => f !! d = Some NDir | Err _ => ~ no_faults end).
Proof.
  intros HR HG Hwf Hd. destruct (profile_dir_up d Hd) as [Hup Hne]. unfold MkdirAll.
  destruct (String.length d) as [|n] eqn:En; [by destruct d|]. clear En.
  assert (Hsafe : safe_dir d).
  { pose proof profile_dirs_safe as Hs. rewrite Forall_forall in Hs. by apply Hs. }
  set (m := S n). cbn [mkdir_all]. unfold m. clear m.
  apply (h_bind _ _ _ (fun x f => R f /\ x = fs_stat d f)); [by apply h_stat|]. intros x. apply h_pre.
  intros f [Hf ->]. destruct (Hwf f Hf) as (W1 & W2 & _).
  destruct (W2 d Hd) as [E|E]; [rewrite stat_none by done|by rewrite (stat_some d f NDir) by done; apply h_ret; intros f' <-].
  apply (h_conseq _ _ R _ (fun x f => R f /\ match x with Ok _ => f !! d = Some NDir | Err _ => ~ no_faults end));
    [|by intros f' <-|done]. clear f Hf W1 W2 E.
  rewrite (wa_nonempty _ Hup). apply (h_bind _ _ _ (fun x f => R f /\ x = Ok tt)).
  { cbn [mkdir_all]. apply (h_bind _ _ _ (fun x f => R f /\ x = Ok NDir)).
    - apply h_stat; [done|]. intros f Hf. split; [done|]. apply stat_some; [|done]. destruct (Hwf f Hf) as (W1 & _). auto.
    - intros x. apply h_pre. intros f [Hf ->]. apply h_ret. by intros f' <-. }
  intros x. apply h_pre. intros f [Hf ->].
  apply (h_conseq _ _ R _ (fun x f => R f /\ match x with Ok _ => f !! d = Some NDir | Err _ => ~ no_faults end));
    [|by intros f' <-|done]. clear f Hf.
  apply (h_bind _ _ _ (fun x f => R f /\ match x with Ok _ => f !! d = Some NDir
                                                  | Err e => no_faults -> f !! d = Some NDir end)).
  { apply h_call; [done| |].
    - intros f Hf. destruct (Hwf f Hf) as (W1 & W2 & _). unfold fs_mkdir.
      destruct (W2 d Hd) as [E|E]; [|rewrite bool_decide_eq_true_2 by (by rewrite E); cbn; auto].
      rewrite bool_decide_eq_false_2 by (by rewrite E; intros [? ?]). unfold parent_ok.
      rewrite (is_dir_intro _ f (W1 _ Hup)), orb_true_r. cbn. split; [by apply (proj1 HR)|by rewrite lookup_insert_eq].
    - intros f k why Hw Hf. split; [done|]. intros Hn. by rewrite Hn in Hw. }
  intros [u|e]; [by apply h_ret|].
  apply (h_bind _ _ _ (fun x f => R f /\ match x with Ok NDir => f !! d = Some NDir | _ => ~ no_faults end)).
  { apply h_ask; [by intros f [? _]; auto|]. intros x f [Hf He] [->|(k & why & Hw & ->)]; (split; [done|]).
    - unfold fs_lstat. destruct (f !! d) as [[| |]|] eqn:E; try done; intros Hn; by specialize (He Hn).
    - intros Hn. by rewrite Hn in Hw. }
  intros [[| |]|e']; by apply h_ret.
Qed.

(** What recovery has finished: the sources it has passed are gone. *)
Definition passed (whole : list MigrationStep) (done : list (string * string)) (f : fs) : Prop :=
  marked whole f /\ (forall p, p ∈ done -> f !! p.1 = None).

Lemma stable_passed whole done : (forall p, p ∈ done -> p ∈ pairs) -> stable (passed whole done).
Proof.
  intros Hd. apply stable_and; [apply stable_marked|]. apply stable_tracked. intros f f' E Hf p Hp.
  destruct p as [s d]. destruct (pair_tracked s d); [by apply Hd|]. rewrite <- E by done. by apply Hf.
Qed.
Lemma passed_more whole done p f : f !! p.1 = None -> passed whole done f -> passed whole (done ++ [p]) f.
Proof. intros Hn [Hm Hd]. split; [done|]. intros q [Hq| ->%list_elem_of_singleton]%elem_of_app; auto. Qed.
Lemma passed_swapped whole done p f f' : (forall q, q ∈ done -> q ∈ pairs) -> p ∈ pairs -> f !! p.2 = None ->
  swapped p.1 p.2 f f' -> passed whole done f -> passed whole (done ++ [p]) f'.
Proof.
  intros Hdone Hp Hn Hs [Hm Hd]. split; [by eapply swapped_marked|].
  assert (Ep : f' !! p.1 = None) by (destruct Hs as (_ & E & _); congruence).
  intros q [Hq| ->%list_elem_of_singleton]%elem_of_app; [|done].
  destruct (decide (p = q)) as [<-|Hne]; [done|]. destruct (swapped_other p q f f') as [E _]; auto. rewrite E. by apply Hd.
Qed.

Lemma h_finish whole plan : forall done, copies whole = done ++ copies plan -> (forall p, p ∈ copies whole -> p ∈ pairs) ->
  hoare safe (passed whole done) (finishPartialRenames plan)
    (fun x f => match x with Ok _ => arrived whole f | Err _ => safe f /\ ~ no_faults end).
Proof.
  assert (HG : forall done f, passed whole done f -> safe f) by (intros done f [Hf _]; by eapply marked_safe).
  induction plan as [|s plan IH]; intros done E Hin; cbn [finishPartialRenames].
  { apply h_ret. intros f [Hm Hd]. split; [done|]. apply (marked_new whole); [done|]. intros p Hp. apply Hd.
    by rewrite E, app_nil_r in Hp. }
  rewrite copies_cons in E. destruct (is_copy s); cbn [negb]; [|by apply IH].
  set (p := (ms_From s, ms_To s)) in *. assert (Hp : p ∈ pairs) by (apply Hin; rewrite E; set_solver).
  assert (Hdone : forall q, q ∈ done -> q ∈ pairs) by (intros q Hq; apply Hin; rewrite E; set_solver).
  assert (E' : copies whole = (done ++ [p]) ++ copies plan) by by rewrite <- app_assoc.
  specialize (IH (done ++ [p]) E' Hin). apply h_pre. intros f Hf.
  destruct (marked_pairs_ok _ _ (proj1 Hf) _ _ Hp) as (F1 & F2 & F3).
  assert (Hgo : f !! p.1 = None -> hoare safe (eq f) (finishPartialRenames plan)
    (fun x f => match x with Ok _ => arrived whole f | Err _ => safe f /\ ~ no_faults end)).
  { intros Hn. eapply h_conseq; [apply IH| |done]. intros f' <-. by apply passed_more. }
  eapply h_bind; [by apply h_stat_eq, (HG done)|]. intros x. apply h_pre. intros f' [-> ->].
  destruct (ok (fs_stat (ms_To s) f)) eqn:Ed.
  { apply stat_ok_file in Ed; [|done]. apply Hgo. by destruct F3. }
  eapply h_bind; [by apply h_stat_eq, (HG done)|]. intros x. apply h_pre. intros f' [-> ->].
  destruct (ok (fs_stat (ms_From s) f)) eqn:Es; cbn [negb]; [|by apply stat_file_ok in Es; [apply Hgo|]].
  apply stat_file_ok in Ed; [|done]. apply stat_ok_file in Es; [|done].
  eapply h_bind; [by apply h_refuse, (HG done)|]. intros y. apply h_pre. intros f' [-> Hy].
  destruct y as [u|e]; [|apply h_ret; intros f' <-; split; [by apply (HG done)|]; intros Hn; by specialize (Hy Hn Es F1)].
  clear Hy Hgo. destruct (pair_shape _ _ Hp) as (n & _ & _ & _ & Hdir). destruct (pair_tracked _ _ Hp) as [T1 T2].
  set (R := fun f => passed whole done f /\ (f !! p.1 <> None /\ f !! p.2 = None)).
  apply (h_bind _ _ _ (fun x f => R f /\ match x with Ok _ => f !! dir_of p.2 = Some NDir | Err _ => ~ no_faults end)).
  { eapply h_conseq; [apply (h_mkdir_profile R (dir_of p.2))|by intros f' <-|done].
    - apply stable_and; [by apply stable_passed|]. apply stable_tracked. intros f1 f2 Eq. by rewrite !Eq.
    - intros f' [Hf' _]. by apply (HG done).
    - intros f' [[[(_ & _ & Hw) _] _] _]. done.
    - done. }
  intros [u'|e]; [|apply h_ret; intros f' [[Hf' _] Hn]; split; [by apply (HG done)|done]].
  apply h_pre. intros f1 [[Hf1 [N1 N2]] Hd1]. destruct (marked_pairs_ok _ _ (proj1 Hf1) _ _ Hp) as (G1 & G2 & _).
  eapply h_bind; [apply h_rename; [by apply (HG done)|done|by right|by apply (pair_cross p p)]|].
  intros [u''|e]; apply h_pre; intros f2.
  - intros [Hs _]. eapply h_conseq; [apply IH| |done]. intros f' <-. by apply (passed_swapped whole done p f1).
  - intros [-> Hn]. apply h_ret. intros f' <-. split; [by apply (HG done)|]. intros Hnf. apply Hn; [done|done|].
    by apply is_dir_intro.
Qed.

(** Reading the marker. *)
Lemma h_readMarker plan : hoare safe (marked plan) (readMarker MigratingMarkerFile)
  (fun x f => match x with Ok plan' => marked plan' f /\ copies plan' = copies plan | Err _ => safe f /\ ~ no_faults end).
Proof.
  unfold readMarker. apply (h_bind _ _ _ (fun x f => marked plan f /\ match x with
    | Ok c => copies (parse_marker c) = copies plan | Err _ => ~ no_faults end)).
  - apply h_ask; [intros f; apply marked_safe|]. intros x f Hf [->|(k & why & Hw & ->)]; (split; [done|]).
    + destruct Hf as (_ & (c & Hm & Hc) & _). unfold fs_read. rewrite (stat_some _ f _ Hm); done.
    + intros Hn. by rewrite Hn in Hw.
  - intros [c|e]; apply h_ret; intros f [Hf Hx]; cbn.
    + split; [|done]. by eapply marked_plan; [symmetry|].
    + split; [by eapply marked_safe|done].
Qed.

(** What recovery owes: the tree is never lost, and if nothing fails it ends on
    one side, on the new one if any file had got there. *)
Definition recovered (moved : Prop) (x : res merr unit) (f : fs) : Prop :=
  safe f /\ (no_faults -> x = Ok tt /\ settled f /\ (moved -> finished f)).
Lemma recovered_fault moved x f : safe f -> ~ no_faults -> recovered moved x f.
Proof. by split. Qed.

Lemma h_end plan moved (x' : res errno unit -> res merr unit) : x' (Ok tt) = Ok tt ->
  hoare safe (fun f => marked plan f /\ finished f)
    (let! x := Remove MigratingMarkerFile in ret (x' x)) (recovered moved).
Proof.
  intros Hx. eapply h_bind; [apply (h_unmark plan finished)|].
  - apply finished_unmark.
  - intros f [[Hn _] _]. by right.
  - intros x. apply h_ret. intros f Hf. destruct x as [[]|e].
    + destruct Hf as [Hs Hf]. split; [by apply settled_safe|]. auto.
    + destruct Hf as [Hs Hf]. by apply recovered_fault; [eapply marked_safe|].
Qed.

Lemma h_Recover plan f1 : marked plan f1 -> hoare safe (eq f1) Recover (recovered (~ all_legacy f1)).
Proof.
  intros Hm1. unfold Recover.
  apply (h_bind _ _ _ (fun x f => f = f1 /\ match x with Ok plan' => marked plan' f1 | Err _ => ~ no_faults end)).
  { intros k f Hk; subst f. pose proof (h_readMarker plan k f1 Hm1) as Hr. unfold readMarker, bind, ReadFile, ask, call in *.
    destruct (os_crash k) eqn:Ec; [done|]. destruct (os_fault k SRead); [by destruct Hr|].
    destruct (fs_read _ _); cbn in *; split; try done; by destruct Hr. }
  intros [plan'|e]; [|apply h_ret; intros f [-> Hn]; apply recovered_fault; [by eapply marked_safe|done]].
  apply h_pre. intros f [-> Hm]. assert (Hin : forall p, p ∈ copies plan' -> p ∈ pairs) by (intros p; by eapply marked_pair).
  eapply h_bind; [by apply (h_any plan')|]. intros [|]; cbn [negb]; apply h_pre; intros f (-> & Hl & _).
  2: { eapply h_bind; [eapply h_conseq; [apply (h_unmark plan' (fun f => all_legacy f /\ f1 = f1))| |]|].
       - intros f [Hf _]. split; [by apply legacy_unmark|done].
       - intros f [Hf _]. by left.
       - intros f <-. split; [done|]. split; [|done]. apply (marked_legacy plan'); auto.
       - intros x f Hx. exact Hx.
       - intros x. apply h_ret. intros f Hf. destruct x as [[]|e].
         + destruct Hf as [Hs [Hf _]]. split; [by apply settled_safe|]. intros _. split_and!; [done|done|].
           intros Hn. destruct Hn. apply (marked_legacy plan'); auto.
         + destruct Hf as [Hs Hf]. by apply recovered_fault; [eapply marked_safe|]. }
  eapply h_bind; [eapply h_conseq; [apply (h_finish plan' plan' []); [done|done]| |intros x f Hx; exact Hx]|].
  { intros f <-. split; [done|]. intros p Hp. by apply not_elem_of_nil in Hp. }
  intros [u|e]; [|apply h_ret; intros f [Hs Hn]; by apply recovered_fault].
  eapply h_bind; [apply h_schema|]. intros [u'|e]; [|apply h_ret; intros f [Hs Hn]; by apply recovered_fault].
  eapply h_bind; [apply h_active|]. intros [u''|e]; [|apply h_ret; intros f [Hs Hn]; by apply recovered_fault].
  eapply h_bind; [apply (h_cleanup (fun f => marked plan' f /\ finished f))|].
  - intros f [Hf _]. by eapply marked_safe.
  - intros f [_ [[Hn _] _]] p Hp. by apply Hn, Hin.
  - intros x. by apply (h_end plan').
Qed.

(** ** SQLite's checkpoint *)

Hypothesis checkpoint_laws : checkpoint_keeps same_db.

Definition dbs : list string := [join legacyWa "session.db"; join legacyWa "messages.db"].
Lemma trio_pairs db x : db ∈ dbs -> x ∈ trio db -> exists p, p ∈ pairs /\ x = p.1.
Proof.
  unfold dbs, trio, pairs, srcPaths. cbn [map sf_Src sf_Dst].
  intros Hdb Hx. rewrite !elem_of_cons, elem_of_nil in Hdb. rewrite !elem_of_cons, elem_of_nil in Hx.
  destruct Hdb as [->|[->|[]]], Hx as [->|[->|[->|[]]]]; rewrite ?join_app; eexists (_, _); cbn [fst snd];
    (split; [|reflexivity]); repeat (apply list_elem_of_here || apply list_elem_of_further).
Qed.

(** What the plan of a migration says of the tree it was made for. *)
Definition planned (plan : list MigrationStep) (f : fs) : Prop :=
  settled f /\ all_legacy f /\ plan_ok plan f.
Lemma stable_planned plan : stable (planned plan).
Proof.
  apply stable_and; [apply stable_settled|]. apply stable_tracked. intros f f' E [Hl Hp].
  split; [by apply (all_legacy_tracked f)|by apply (plan_ok_tracked plan f)].
Qed.

Lemma legacy_held f : all_legacy f -> held_all f = map (fun p => f !! p.1) pairs.
Proof.
  intros Hl. apply map_ext_in. intros p Hp%list_elem_of_In. unfold held. destruct (f !! p.1) eqn:E; [done|]. by apply Hl.
Qed.

Lemma base_neq a b x y : no_byte "/" x = true -> no_byte "/" y = true -> x <> y -> join a x <> join b y.
Proof. intros Hx Hy Hne E. apply (f_equal base_of) in E. by rewrite !base_join in E. Qed.

Lemma same_files_trans l1 l2 l3 : same_files l1 l2 -> same_files l2 l3 -> same_files l1 l3.
Proof.
  unfold same_files. repeat (destruct l1 as [|? l1]; try done); repeat (destruct l2 as [|? l2]; try done);
  repeat (destruct l3 as [|? l3]; try done).
  intros (A1 & A2 & -> & -> & ->) (B1 & B2 & -> & -> & ->). split_and!; try done; by etransitivity.
Qed.

Lemma trio_base n y : no_byte "/" n = true -> y ∈ trio (join legacyWa n) -> base_of y ∈ trio n.
Proof.
  intros Hn Hy. unfold trio in *. rewrite !elem_of_cons, elem_of_nil in Hy.
  assert (Hs : forall e, no_byte "/" e = true -> no_byte "/" (n +:+ e) = true).
  { intros e He. by rewrite no_byte_app, Hn. }
  destruct Hy as [->|[->|[->|[]]]]; rewrite ?join_app, base_join by auto; set_solver.
Qed.

Lemma held_checkpoint n (f f' : fs) : n ∈ ["session.db"; "messages.db"] ->
  let db := join legacyWa n in (forall p, p ∉ trio db -> f' !! p = f !! p) ->
  same_db (f !! db, f !! (db +:+ "-wal"), f !! (db +:+ "-shm")) (f' !! db, f' !! (db +:+ "-wal"), f' !! (db +:+ "-shm")) ->
  same_files (map (fun p => f !! p.1) pairs) (map (fun p => f' !! p.1) pairs).
Proof.
  intros Hn db E Hs.
  assert (Hns : no_byte "/" n = true) by (rewrite !elem_of_cons, elem_of_nil in Hn; by destruct Hn as [->|[->|[]]]).
  assert (Eo : forall a x, no_byte "/" x && negb (existsb (String.eqb x) (trio n)) = true -> f' !! join a x = f !! join a x).
  { intros a x [Hx Hi]%andb_true_iff. apply E. intros Hy%trio_base; [|done]. rewrite base_join in Hy by done.
    apply negb_true_iff in Hi. rewrite <- not_true_iff_false in Hi. apply Hi, existsb_exists. exists x.
    split; [by apply list_elem_of_In|apply String.eqb_refl]. }
  unfold db in Hs. rewrite !join_app in Hs. clear E Hns. clearbody db.
  unfold pairs, srcPaths. cbn [map sf_Src sf_Dst fst]. unfold same_files. rewrite !elem_of_cons, elem_of_nil in Hn.
  destruct Hn as [->|[->|[]]]; cbn [String.append] in Hs; 
    repeat match goal with |- context [f' !! join ?a ?x] => rewrite (Eo a x) by reflexivity end;
    (split_and!; [first [exact Hs | apply db_refl]..| | |]; reflexivity).
Qed.

Lemma planned_checkpoint plan db f c : db ∈ dbs -> f !! db = Some (NFile c) -> planned plan f ->
  planned plan (checkpoint db f).2.
Proof.
  intros Hdb Hc (Hset & Hl & (P1 & P2 & P3)). destruct Hset as ((Hok & Hsame & Hwf) & Hum & _).
  assert (Hfo : forall x, x ∈ trio db -> fileopt (f !! x)).
  { intros x (p & Hp & ->)%trio_pairs; [|done]. destruct p as [s d]. by apply (Hok s d). }
  destruct (checkpoint_laws db f c Hc Hfo) as (E & Ht & Hs). set (f' := (checkpoint db f).2) in *.
  assert (Eo : forall x, (forall p, p ∈ pairs -> x <> p.1) -> f' !! x = f !! x).
  { intros x Hx. apply E. intros (p & Hp & ->)%trio_pairs; [|done]. by apply (Hx p). }
  assert (Ed : forall p, p ∈ pairs -> f' !! p.2 = None).
  { intros p Hp. rewrite Eo; [by apply Hl|]. intros q Hq E'. by apply (pair_cross q p). }
  assert (Es : forall p, p ∈ pairs -> fileopt (f' !! p.1) /\ (f !! p.1 = None -> f' !! p.1 = None)).
  { intros p Hp. destruct (decide (p.1 ∈ trio db)) as [Hi|Hi]; [by apply Ht|]. rewrite E by done. split; [|done].
    destruct p as [s d]. by apply (Hok s d). }
  assert (Hl' : all_legacy f') by exact Ed.
  assert (Hb : base f').
  { split; [|split].
    - intros s d Hp. destruct (Es (s, d) Hp) as [F _]. pose proof (Ed (s, d) Hp) as Hd. cbn [fst snd] in *.
      split_and!; [done|by left|by right].
    - eapply same_files_trans; [exact Hsame|]. rewrite !legacy_held by done.
      unfold dbs in Hdb. rewrite !elem_of_cons, elem_of_nil in Hdb.
      destruct Hdb as [->|[->|[]]]; [apply (held_checkpoint "session.db" f f')|apply (held_checkpoint "messages.db" f f')];
        (done || set_solver).
    - destruct Hwf as (W1 & W2 & W3 & W4). split_and!.
      + intros x Hx. rewrite Eo; [by apply W1|]. intros p Hp. apply (pair_dir p x Hp). apply elem_of_app. by left.
      + intros x Hx. rewrite Eo; [by apply W2|]. intros p Hp. apply (pair_dir p x Hp). apply elem_of_app. by right.
      + rewrite Eo; [done|]. intros p Hp. apply (pair_special p _ Hp), special_member; auto.
      + rewrite Eo; [done|]. intros p Hp. apply (pair_special p _ Hp), special_member; auto. }
  split; [split; [done|split; [|by left]]|split; [done|split_and!; [done| |done]]].
  - unfold unmarked. rewrite Eo; [done|]. intros p Hp. apply (pair_special p _ Hp), marker_special.
  - intros p Hp Hh. apply P2; [done|]. intros Hn. apply Hh. unfold held in *. rewrite Ed by done.
    destruct (f !! p.1) eqn:E1; [done|]. by rewrite (proj2 (Es p Hp) E1).
Qed.

Lemma planned_safe plan f : planned plan f -> safe f.
Proof. intros [Hs _]. by apply settled_safe. Qed.

Lemma h_checkpoint plan l :
  Forall (fun s => sf_IsSidecar s = false -> has_suffix (sf_Src s) ".db" = true -> sf_Src s ∈ dbs) l ->
  hoare safe (planned plan) (checkpointSources l) (fun _ => planned plan).
Proof.
  induction 1 as [|s l Hs _ IH]; cbn [checkpointSources]; [by apply h_ret|].
  destruct (sf_IsSidecar s || negb (has_suffix (sf_Src s) ".db")) eqn:Ec; [done|].
  apply orb_false_iff in Ec as [Ei Ex]. apply negb_false_iff in Ex. specialize (Hs Ei Ex).
  apply (h_bind _ _ _ (fun _ => planned plan)); [apply h_stat; [apply planned_safe|done]|]. intros st.
  destruct (ok st); [|done]. apply (h_bind _ _ _ (fun _ => planned plan)); [|intros x; exact IH].
  unfold walCheckpointTruncate. apply h_pre. intros f Hf.
  apply (h_bind _ _ _ (fun x f' => f' = f /\ (forall c, x = Ok c -> exists c, f !! sf_Src s = Some (NFile c)))).
  { apply h_ask; [intros f' <-; by eapply planned_safe|]. intros x f' <- [->|(k & why & _ & ->)]; (split; [done|]); [|done].
    intros c. destruct (trio_pairs (sf_Src s) (sf_Src s) Hs) as ([s' d'] & Hp & E); [unfold trio; set_solver|].
    cbn [fst] in E. destruct Hf as (((Hok & _) & _) & _). destruct (Hok s' d' Hp) as (Hfo & _). rewrite <- E in Hfo.
    unfold fs_read. rewrite stat_file by done. destruct Hfo as [-> |[c' ->]]; [done|]. by eexists. }
  intros [c|e]; apply h_pre; intros f' [-> Hx]; [|apply h_ret; by intros f' <-].
  destruct (Hx c eq_refl) as [c' Hc'].
  destruct (has_prefix sqlite_magic c); [|apply h_ret; by intros f' <-].
  apply (h_bind _ _ _ (fun _ => planned plan)); [|intros x; by apply h_ret].
  apply h_call; [intros f' <-; by eapply planned_safe|intros f' <-; by apply (planned_checkpoint plan _ _ c')|by intros f' k why _ <-].
Qed.

(** ** Planning *)

Hypothesis homes_plain : forall h, h ∈ homes -> no_byte tab h = true /\ no_byte (chr 10) h = true.
Hypothesis time_plain : plain marker_time.
Hypothesis hash_plain : forall s, plain (sha256_hex s).

Lemma pair_writable s d k : (s, d) ∈ pairs -> writable (mkStep s d k).
Proof.
  destruct pairs_shape as (hs & Hhs & ->). intros (i & Hi)%list_elem_of_lookup. rewrite lookup_zip_with in Hi.
  apply bind_Some in Hi as (h & Hh & Hi). apply fmap_Some in Hi as (n & Hn & [= -> ->]).
  rewrite Forall_forall in Hhs. destruct (homes_plain h) as [H1 H2]; [by apply Hhs; eapply list_elem_of_lookup_2|].
  apply list_elem_of_lookup_2 in Hn.
  assert (Hp : plain n /\ no_byte tab n = true /\ no_byte (chr 10) n = true).
  { unfold names in Hn. rewrite !elem_of_cons, elem_of_nil in Hn.
    destruct Hn as [->|[->|[->|[->|[->|[->|[->|[->|[->|[]]]]]]]]]]; (split; [split; [done|]|done]);
      first [by exists "session.d", "b"%char | by exists "session.db-wa", "l"%char | by exists "session.db-sh", "m"%char
            | by exists "messages.d", "b"%char | by exists "messages.db-wa", "l"%char | by exists "messages.db-sh", "m"%char
            | by exists "allowlist.tom", "l"%char | by exists "audit.lo", "g"%char | by exists "wad.lo", "g"%char]. }
  destruct Hp as (Hp & Ht & Hl). unfold writable. cbn [ms_From ms_To].
  assert (Hr : no_byte (chr 10) r = true) by by apply valid_no_byte.
  split_and!.
  - unfold join. by rewrite !no_byte_app, H1, Ht.
  - unfold join. by rewrite !no_byte_app, H2, Hl.
  - unfold join. repeat (apply plain_app; [rewrite ?no_byte_app, ?H2, ?Hr; done|]). done.
Qed.

Section PlanOf.
Context (f : fs) (Hf : base f).
Lemma base_pairs_ok : pairs_ok f.
Proof. apply Hf. Qed.
Context (Hs : safe f).

Definition here (p : string * string) : bool := match f !! p.1 with Some _ => true | None => false end.
Definition quiet {A} (m : prog A) (Q : A -> Prop) : Prop := hoare safe (eq f) m (fun x f' => f' = f /\ Q x).

Lemma q_ret {A} (a : A) (Q : A -> Prop) : Q a -> quiet (ret a) Q.
Proof. intros HQ. apply h_ret. by intros f' <-. Qed.
Lemma q_bind {A B} (m : prog A) (k : A -> prog B) (Q : A -> Prop) (R : B -> Prop) :
  quiet m Q -> (forall a, Q a -> quiet (k a) R) -> quiet (bind m k) R.
Proof. intros Hm Hk. eapply h_bind; [exact Hm|]. intros a. apply h_pre. intros f' [-> Ha]. by apply Hk. Qed.
Lemma q_stat p : quiet (Stat p) (fun x => x = fs_stat p f).
Proof. apply h_stat_eq, Hs. Qed.
Lemma q_true {A} (m : prog A) (Q : A -> Prop) : quiet m Q -> quiet m (fun _ => True).
Proof. intros Hm. eapply h_conseq; [exact Hm|done|]. by intros a f' [? _]. Qed.

Lemma q_required l : quiet (preflight_required l) (fun _ => True).
Proof.
  induction l as [|s l IH]; cbn [preflight_required]; [by apply q_ret|]. destruct (negb (sf_Required s)); [done|].
  eapply q_bind; [apply q_stat|]. intros [x|e] _; [done|by apply q_ret].
Qed.
Lemma q_owned l : quiet (preflight_owned l) (fun _ => True).
Proof.
  induction l as [|s l IH]; cbn [preflight_owned]; [by apply q_ret|].
  eapply q_bind; [apply q_stat|]. intros st _. destruct (_ && _); [by apply q_ret|done].
Qed.
Lemma q_absent l : Forall (fun s => fileopt (f !! sf_Dst s)) l ->
  quiet (preflight_absent l) (fun x => is_ok x = true -> Forall (fun s => f !! sf_Dst s = None) l).
Proof.
  induction 1 as [|s l Hd _ IH]; cbn [preflight_absent]; [by apply q_ret|].
  eapply q_bind; [apply q_stat|]. intros st ->. destruct (ok _) eqn:E; [by apply q_ret|].
  apply stat_file_ok in E; [|done]. eapply h_conseq; [exact IH|done|]. intros x f' [-> Hx]. split; [done|]. auto.
Qed.
Lemma q_samefs a b : quiet (checkSameFilesystem a b) (fun _ => True).
Proof.
  unfold checkSameFilesystem. eapply q_bind; [apply q_stat|]. intros [x|e] _; [|by apply q_ret].
  eapply q_bind; [apply q_stat|]. intros y _. by apply q_ret.
Qed.
Lemma q_steps l : Forall (fun s => fileopt (f !! sf_Src s)) l ->
  quiet (plan_steps l) (fun x => match x with
    | Ok steps => copies steps = List.filter here (map (fun s => (sf_Src s, sf_Dst s)) l)
    | Err _ => True end).
Proof.
  induction 1 as [|s l Hd _ IH]; cbn [plan_steps map List.filter]; [by apply q_ret|].
  eapply q_bind; [apply q_stat|]. intros st ->. 
  assert (Eh : here (sf_Src s, sf_Dst s) = match f !! sf_Src s with Some _ => true | None => false end) by done.
  rewrite stat_file, Eh by done. destruct (f !! sf_Src s).
  - eapply q_bind; [exact IH|]. intros [steps|e] Hx; apply q_ret; cbn [res_map]; [|done]. rewrite copies_cons. cbn. by rewrite Hx.
  - destruct (_ || _); [|by apply q_ret].
    eapply q_bind; [exact IH|]. intros [steps|e] Hx; apply q_ret; cbn [res_map]; [|done]. by rewrite copies_cons.
Qed.

Lemma copies_app a b : copies (a ++ b) = copies a ++ copies b.
Proof. unfold copies. by rewrite List.filter_app, map_app. Qed.
Lemma filter_fst_NoDup (b : string * string -> bool) l : NoDup l.*1 -> NoDup (List.filter b l).*1.
Proof.
  induction l as [|p l IH]; [done|]. intros [Hn Hd]%NoDup_cons. cbn [List.filter].
  destruct (b p); [|by apply IH]. apply NoDup_cons. split; [|by apply IH]. intros (q & E & Hq)%list_elem_of_fmap.
  apply Hn, list_elem_of_fmap. exists q. split; [done|]. apply list_elem_of_In, filter_In in Hq as [Hq _]. by apply list_elem_of_In.
Qed.

Lemma pairs_sources (P : string -> string -> Prop) : (forall s d, (s, d) ∈ pairs -> P s d) ->
  Forall (fun s => P (sf_Src s) (sf_Dst s)) (srcPaths r).
Proof.
  intros HP. apply Forall_forall. intros s Hin. apply HP. unfold pairs.
  by apply (list_elem_of_fmap_2 (fun s => (sf_Src s, sf_Dst s))).
Qed.

Lemma h_Plan : quiet (Plan r) (fun x => match x with
  | Ok plan => plan_ok plan f /\ all_legacy f /\ Forall (fun s => is_copy s = true -> writable s) plan
  | Err _ => True end).
Proof.
  unfold Plan. eapply q_bind; [apply q_required|]. intros [u|e] _; [|by apply q_ret].
  eapply q_bind; [apply q_absent, (pairs_sources (fun _ d => fileopt (f !! d))); intros s d Hp; by destruct (base_pairs_ok s d Hp) as (_ & H2 & _)|].
  intros [u'|e] Habs; [|by apply q_ret]. specialize (Habs eq_refl).
  eapply q_bind; [apply q_samefs|]. intros [u''|e] _; [|by apply q_ret].
  eapply q_bind; [apply q_owned|]. intros [u3|e] _; [|by apply q_ret].
  eapply q_bind; [apply q_steps, (pairs_sources (fun s _ => fileopt (f !! s))); intros s d Hp; by destruct (base_pairs_ok s d Hp)|].
  intros [steps|e] Hst; apply q_ret; cbn [res_map]; [|done]. fold pairs in Hst.
  assert (Hl : all_legacy f).
  { intros p (s & -> & Hp)%list_elem_of_fmap. rewrite Forall_forall in Habs. by apply Habs. }
  assert (Ec : copies (steps ++ [mkStep "" SchemaVersionFile "schema-write"; mkStep "" ActiveProfileFile "schema-write"])
    = List.filter here pairs) by by rewrite copies_app, Hst, app_nil_r.
  split_and!; [|done|].
  - unfold plan_ok. rewrite Ec. split_and!.
    + intros p Hp. apply list_elem_of_In, filter_In in Hp as [Hp _]. by apply list_elem_of_In.
    + intros p Hp Hh. apply list_elem_of_In, filter_In. split; [by apply list_elem_of_In|]. unfold here, held in *.
      destruct (f !! p.1); [done|]. by rewrite Hl in Hh.
    + apply filter_fst_NoDup. pose proof tracked_NoDup as Hd. unfold tracked in Hd. by apply NoDup_app in Hd as (Hd & _).
  - apply Forall_forall. intros s Hin Hk. destruct s as [from to kind]. apply (pair_writable from to kind).
    assert (Hc : (from, to) ∈ copies (steps ++ [mkStep "" SchemaVersionFile "schema-write"; mkStep "" ActiveProfileFile "schema-write"])).
    { apply (list_elem_of_fmap_2 (fun s => (ms_From s, ms_To s)) _ (mkStep from to kind)).
      apply list_elem_of_In, filter_In. split; [by apply list_elem_of_In|done]. }
    rewrite Ec in Hc. apply list_elem_of_In, filter_In in Hc as [Hc _]. by apply list_elem_of_In.
Qed.
End PlanOf.

(** ** The directories *)

Hypothesis socket_apart : forall d, SocketParentDir r = Ok d -> safe_dir d.

Lemma h_ensure_top (R : fs -> Prop) l : stable R -> (forall f, R f -> safe f) -> Forall safe_dir l ->
  hoare safe R (ensure_top l) (fun _ => R).
Proof.
  intros HR HG. induction 1 as [|d l Hd _ IH]; cbn [ensure_top]; [by apply h_ret|].
  eapply h_bind; [by apply h_mkdir_all|]. intros [u|e]; [done|by apply h_ret].
Qed.
Lemma h_ensure_profile (R : fs -> Prop) l : stable R -> (forall f, R f -> safe f) -> Forall safe_dir l ->
  hoare safe R (ensure_profile l) (fun _ => R).
Proof.
  intros HR HG. induction 1 as [|d l Hd _ IH]; cbn [ensure_profile]; [by apply h_ret|].
  eapply h_bind; [by apply h_mkdir|]. intros x. apply h_if; intros _; [by apply h_ret|].
  eapply h_bind; [by apply h_quiet|]. intros [u|e]; [done|by apply h_ret].
Qed.

Lemma h_ensureDirs (R : fs -> Prop) : stable R -> (forall f, R f -> safe f) -> hoare safe R (ensureDirs r) (fun _ => R).
Proof.
  intros HR HG. unfold ensureDirs. pose proof wa_dirs_safe as Hw. pose proof profile_dirs_safe as Hp.
  assert (Ew : [dir_of (DataDir r); dir_of (ConfigDir r); dir_of (StateDir r)] = wa_dirs).
  { unfold wa_dirs, homes, DataDir, ConfigDir, StateDir. cbn [map]. by rewrite !dir_join by apply r_no_slash. }
  rewrite Ew. eapply h_bind; [by apply h_ensure_top|]. intros [u|e]; [|by apply h_ret].
  change [DataDir r; ConfigDir r; StateDir r] with profile_dirs.
  eapply h_bind; [by apply h_ensure_profile|]. intros [u'|e]; [|by apply h_ret].
  destruct (SocketParentDir r) as [sock|e] eqn:Es; [|by apply h_ret].
  eapply h_bind; [by apply h_mkdir_all; [| |apply socket_apart]|]. intros [u''|e]; [|by apply h_ret].
  eapply h_bind; [by apply h_quiet|]. intros x. by apply h_ret.
Qed.

(** ** A whole run *)

Lemma h_writeMarker plan : Forall (fun s => is_copy s = true -> writable s) plan ->
  hoare safe (planned plan) (writeMarker MigratingMarkerFile plan)
    (fun x f => match x with Ok _ => progress plan [] f | Err _ => safe f end).
Proof.
  intros Hw. assert (Hm : MigratingMarkerFile ∈ specials) by apply marker_special.
  eapply h_conseq; [apply (h_atomicWriteFile safe (planned plan) (fun f => marked plan f /\ all_legacy f))|done|].
  - apply stable_planned.
  - apply stable_and; [apply stable_marked|apply stable_tracked, all_legacy_tracked].
  - apply planned_safe.
  - by intros f [Hf _]; eapply marked_safe.
  - done.
  - intros f ((Hb & _) & Hl & Hp). split; [|by apply legacy_put]. split; [by apply base_put|]. split.
    + eexists. split; [by rewrite lookup_insert_eq|]. rewrite parse_marker_text by done. unfold copies. f_equal.
      apply forallb_filter_id, forallb_forall. intros s Hs. by apply filter_In in Hs as [_ ?].
    + eapply plan_ok_frame; [|exact Hp]. by intros q; apply put_pairs.
  - intros f ((Hb & Hu & _) & _). split; [by apply special_parent|]. by left.
  - intros f [[Hb _] _]. by apply special_parent.
  - intros x f [Hl _]. destruct x.
    + destruct Hl as [Hmk Hl]. split; [done|]. split; [intros p Hp Hn; by destruct Hn; apply Hl|].
      intros p Hp. by apply not_elem_of_nil in Hp.
    + by destruct Hl as [Hf|[Hf _]]; [eapply planned_safe|eapply marked_safe].
Qed.

Lemma suffix_join a n : (3 <= String.length n)%nat -> has_suffix (join a n) ".db" = has_suffix n ".db".
Proof.
  intros Hn. unfold has_suffix, join. rewrite !str_app_length. cbn [String.length].
  rewrite (proj2 (Nat.leb_le 3 (String.length n)) Hn), (proj2 (Nat.leb_le 3 (String.length a + (1 + String.length n)))) by lia.
  f_equal. f_equal. rewrite (str_app_assoc a "/" n).
  replace (String.length a + (1 + String.length n) - 3)%nat with (String.length (a +:+ "/") + (String.length n - 3))%nat
    by (rewrite str_app_length; cbn; lia).
  generalize (a +:+ "/"). intros u. by induction u.
Qed.

Lemma sources_dbs : Forall (fun s => sf_IsSidecar s = false -> has_suffix (sf_Src s) ".db" = true -> sf_Src s ∈ dbs) (srcPaths r).
Proof.
  unfold srcPaths, dbs.
  repeat apply Forall_cons_2; try apply Forall_nil_2; cbn [sf_IsSidecar sf_Src]; intros Hk Hx; try discriminate Hk;
    try (rewrite suffix_join in Hx by (cbn; lia); discriminate Hx).
  - apply list_elem_of_here.
  - apply list_elem_of_further, list_elem_of_here.
Qed.

Lemma h_Apply f : settled f -> hoare safe (eq f) (Apply false r) (fun _ => safe).
Proof.
  intros Hset. assert (Hs : safe f) by by apply settled_safe. unfold Apply.
  eapply h_bind; [apply (h_Plan f (proj1 Hset) Hs)|]. intros [plan|e]; [|apply h_ret; by intros f' [-> _]].
  apply h_pre. intros f' (-> & Hp & Hl & Hw).
  eapply h_bind; [eapply h_conseq; [apply (h_checkpoint plan)| |]|].
  { apply sources_dbs. }
  { by intros f' <-. }
  { intros x f' Hx. exact Hx. }
  intros x. eapply h_bind; [by apply h_writeMarker|]. intros [u|e]; [|by apply h_ret].
  eapply h_bind; [apply (h_ensureDirs (progress plan []))|].
  { apply stable_and; [apply stable_marked|]. apply stable_and; apply stable_tracked.
    - intros f1 f2 E H1 p Hpp. destruct p as [s d]. destruct (pair_tracked s d Hpp). rewrite <- E by done. by apply H1.
    - intros f1 f2 E H1 p Hpp. by apply not_elem_of_nil in Hpp. }
  { intros f' [Hf' _]. by eapply marked_safe. }
  intros [u'|e].
  2: { eapply (h_bind _ _ _ (fun _ => safe)); [|intros y; by apply h_ret].
       eapply h_conseq; [apply (h_unmark plan all_legacy); [apply legacy_unmark|by left]| |intros y f'; apply unmark_safe].
       intros f' (Hm & H1 & _). split; [done|]. intros p Hpp. destruct (f' !! p.2) eqn:E; [|done].
       exfalso. eapply not_elem_of_nil, (H1 p Hpp). by rewrite E. }
  eapply h_bind; [by apply (h_renamePlan plan plan [])|]. intros [u''|e]; [|by apply h_ret].
  eapply h_bind; [eapply h_conseq; [apply (h_fsyncDir safe (arrived plan)); intros f' [Hf' _]; by eapply marked_safe|done|]|].
  { intros y f' [Hf' _]. exact Hf'. }
  intros y. eapply h_bind; [apply h_schema|]. intros [u3|e]; [|apply h_ret; by intros f' [? _]].
  eapply h_bind; [apply h_active|]. intros [u4|e]; [|apply h_ret; by intros f' [? _]].
  eapply h_bind; [apply (h_cleanup (fun f => marked plan f /\ finished f))|].
  { intros f' [Hf' _]. by eapply marked_safe. }
  { intros f' [Hf' [[Hn _] _]] p Hpp. apply Hn. by eapply marked_pair. }
  intros z. eapply h_conseq; [by apply (h_end plan True (fun _ => Ok tt))|done|]. by intros w f' [? _].
Qed.

Lemma h_schema_settled (T : res merr unit -> res merr unit) : hoare safe settled
  (let! w := writeSchemaVersion SchemaVersionFile SchemaVersion in ret (T w)) (fun _ => safe).
Proof.
  eapply h_bind; [apply (h_atomicWriteFile safe settled settled)|].
  - apply stable_settled.
  - apply stable_settled.
  - apply settled_safe.
  - apply settled_safe.
  - unfold specials. set_solver.
  - intros f (Hb & Hu & Hside). assert (Hsp : SchemaVersionFile ∈ specials) by (unfold specials; set_solver).
    destruct (marker_other SchemaVersionFile) as [_ Hne]; [set_solver|]. split; [by apply base_put|]. split.
    + unfold unmarked. by rewrite lookup_insert_ne.
    + destruct Hside; [left; by apply legacy_put|right; by apply new_put].
  - intros f [Hb _]. by destruct (special_dirs f Hb) as (? & ? & _).
  - intros f [Hb _]. by apply special_parent.
  - intros x. apply h_ret. intros f [Hl _]. apply settled_safe. by destruct x; [|destruct Hl].
Qed.

Lemma h_autoMigrate f : safe f -> hoare safe (eq f) (autoMigrate r)
  (fun x f' => safe f' /\ (f !! MigratingMarkerFile <> None -> recovered (~ all_legacy f) x f')).
Proof.
  intros Hs. unfold autoMigrate. eapply h_bind; [by apply h_stat_eq|]. intros x. apply h_pre. intros f1 [-> ->].
  destruct Hs as [Hset|[plan Hm]].
  2: { destruct Hm as (Hb & (c & Hc & Hx) & Hp). rewrite (stat_some _ f _ Hc) by done.
       eapply h_conseq; [apply (h_Recover plan f); split_and!; eauto|done|]. intros x f' Hr. split; [apply Hr|]. by intros _. }
  pose proof Hset as (_ & Hu & _). rewrite stat_none by done. cbn [not_exist negb bool_decide].
  assert (Hs : safe f) by by apply settled_safe.
  apply (h_conseq _ _ (eq f) _ (fun _ => safe)); [|done|intros x f' Hx; split; [done|]; by intros Hn; destruct Hn].
  cut (hoare safe (eq f) (let! version := readSchemaVersion SchemaVersionFile in
    match version with
    | Ok version => if SchemaVersion <=? version then ret (Ok tt) else
        let! fi := Stat (join legacyWa "session.db") in
        match fi with
        | Ok (NFile _) | Ok (NLink _) => let! d := Stat (DataDir r) in if ok d then ret (Ok tt) else Apply false r
        | Err e => if negb (not_exist e) then ret (Err (MCtx "autoMigrate: probe legacy layout" (MErrno e)))
          else let! w := writeSchemaVersion SchemaVersionFile SchemaVersion in
               ret match w with Err e => Err (MCtx "autoMigrate: write schema version" e) | Ok _ => Ok tt end
        | Ok NDir => let! w := writeSchemaVersion SchemaVersionFile SchemaVersion in
               ret match w with Err e => Err (MCtx "autoMigrate: write schema version" e) | Ok _ => Ok tt end
        end
    | Err e => ret (Err (MCtx "autoMigrate" e))
    end) (fun _ => safe)); [done|].
  apply (h_bind _ _ _ (fun _ f' => f' = f)).
  { unfold readSchemaVersion. apply (h_bind _ _ _ (fun _ f' => f' = f)); [apply h_ask; by intros; subst|].
    intros y. by apply h_ret. }
  intros [v|e]; apply h_pre; intros f' ->; [|apply h_ret; by intros f' <-].
  destruct (SchemaVersion <=? v); [apply h_ret; by intros f' <-|].
  eapply h_bind; [by apply h_stat_eq|]. intros fi. apply h_pre. intros f' [-> _].
  assert (Hw : forall T : res merr unit -> res merr unit, hoare safe (eq f) (let! w := writeSchemaVersion SchemaVersionFile SchemaVersion in ret (T w)) (fun _ => safe)).
  { intros T. eapply h_conseq; [apply (h_schema_settled T)|by intros f' <-|done]. }
  assert (Hgo : hoare safe (eq f) (let! d := Stat (DataDir r) in if ok d then ret (Ok tt) else Apply false r) (fun _ => safe)).
  { eapply h_bind; [by apply h_stat_eq|]. intros d. apply h_pre. intros f' [-> _].
    destruct (ok d); [apply h_ret; by intros f' <-|by apply h_Apply]. }
  destruct fi as [[| |]|e]; [apply Hw|exact Hgo|exact Hgo|]. destruct (negb (not_exist e)); [apply h_ret; by intros f' <-|apply Hw].
Qed.

End Runs.
End Invariant.
End Places.
(** ** Starts, one after another *)

Section Boots.
Context {X : Xdg} {mach : Machine} {mt : MarkerText} {sq : Sqlite}.
Context (r : string) (same_db : relation dbfiles) {db_refl : Reflexive same_db} {db_trans : Transitive same_db}.

(** What the theorems ask of the place: a profile the daemon accepts, homes
    apart from one another and from the socket's, texts a line can hold, and a
    SQLite that keeps its promise. *)
Record site : Prop := {
  site_valid : ValidateProfileName r = Ok tt;
  site_pointer : r <> "active-profile";
  site_apart : homes_apart;
  site_checkpoint : checkpoint_keeps same_db;
  site_homes : forall h, h ∈ homes -> no_byte tab h = true /\ no_byte (chr 10) h = true;
  site_time : plain marker_time;
  site_hash : forall s, plain (sha256_hex s);
  site_socket : forall d, SocketParentDir r = Ok d -> safe_dir r d
}.
Context (S : site).

(** Some starts of the daemon, each of them killed or failing wherever the
    system likes, but for [stat], which is right about files that are there. *)
Inductive boots : fs -> fs -> Prop :=
| boots_none f : boots f f
| boots_more f f' (os : Os) : boots f f' -> (forall k, os_fault k SStat = None) -> boots f (end_of (autoMigrate r O f')).

(** A tree no migration is under way in. *)
Definition intact (f : fs) : Prop := pairs_ok r f /\ wf r f /\ unmarked f /\ (all_legacy r f \/ all_new r f).

Lemma intact_settled f : intact f -> settled r same_db f f.
Proof.
  intros (H1 & H2 & H3 & H4). split; [split; [done|split; [|done]]|done].
  cbn. split_and!; (reflexivity || apply db_refl).
Qed.
Lemma settled_intact f0 f : settled r same_db f0 f -> intact f /\ same_files same_db (held_all r f0) (held_all r f).
Proof. by intros ((H1 & H2 & H3) & H4 & H5). Qed.

Lemma boot_triple (os : Os) f0 f : (forall k, os_fault k SStat = None) -> safe r same_db f0 f ->
  hoare (safe r same_db f0) (eq f) (autoMigrate r) (fun x f' => safe r same_db f0 f'
    /\ (f !! MigratingMarkerFile <> None -> recovered r same_db f0 (~ all_legacy r f) x f')).
Proof.
  intros Hst Hs. destruct S. by apply h_autoMigrate.
Qed.

Lemma boots_safe f0 f : boots f0 f -> intact f0 -> safe r same_db f0 f.
Proof.
  induction 1 as [f|f f' os _ IH Hst]; intros Hi; [by left; apply intact_settled|].
  pose proof (boot_triple os f f' Hst (IH Hi) O f' eq_refl) as Hb.
  destruct (autoMigrate r O f') as [x k f''|f'']; [by destruct Hb|by destruct Hb].
Qed.

Lemma safe_seen f0 f : safe r same_db f0 f ->
  same_files same_db (held_all r f0) (held_all r f)
  /\ (forall p, p ∈ pairs r -> f !! p.1 = None \/ f !! p.2 = None)
  /\ ((exists p, p ∈ pairs r /\ f !! p.1 <> None) -> (exists p, p ∈ pairs r /\ f !! p.2 <> None) ->
      exists c, f !! MigratingMarkerFile = Some (NFile c)
        /\ forall p, p ∈ pairs r -> held f p <> None -> p ∈ copies (parse_marker c)).
Proof.
  intros Hs. assert (Hb : base r same_db f0 f) by (destruct Hs as [[? _]|[plan [? _]]]; done).
  split_and!; [apply Hb|intros [s d] Hp; by destruct (proj1 Hb s d Hp) as (_ & _ & ?)|].
  intros (p & Hp & Np) (q & Hq & Nq). destruct Hs as [(_ & _ & [Hl|Hn])|(plan & _ & (c & Hc & Hx) & (_ & P2 & _))].
  - by destruct Nq; apply Hl.
  - by destruct Np; apply Hn.
  - exists c. split; [done|]. rewrite Hx. exact P2.
Qed.

(** C24. No run of the daemon's migration loses a file.  Start the daemon any
    number of times on a tree that is in order, let the system kill each run
    at any call and fail any call but [stat] (one failed stat in a recovery
    deletes a file: [recovery_deletes_unmoved]): every file is still there, at
    its old path or at its new one and never at both, with the bytes it had
    (the databases, with the data they held); and if some files have moved and
    others have not, the marker is on disk and the text in it names every
    file, so the next start can finish. *)
Theorem migration_crash_safe f0 f : intact f0 -> boots f0 f ->
  same_files same_db (held_all r f0) (held_all r f)
  /\ (forall p, p ∈ pairs r -> f !! p.1 = None \/ f !! p.2 = None)
  /\ ((exists p, p ∈ pairs r /\ f !! p.1 <> None) -> (exists p, p ∈ pairs r /\ f !! p.2 <> None) ->
      exists c, f !! MigratingMarkerFile = Some (NFile c)
        /\ forall p, p ∈ pairs r -> held f p <> None -> p ∈ copies (parse_marker c)).
Proof. intros Hi Hb. by apply safe_seen, boots_safe. Qed.

(** C25. A start that finds the marker finishes what an earlier one began: from
    any state that killed runs may leave, a run nothing interrupts ends
    without error and without marker, all files on one side and nothing lost;
    and if any file had moved, that side is the profile's, the schema file
    says 2 and the active profile is written. *)
Theorem recovery_completes f0 f (os : Os) : intact f0 -> boots f0 f -> f !! MigratingMarkerFile <> None ->
  (forall k, os_crash k = false) -> (forall k o, os_fault k o = None) ->
  exists k f', autoMigrate r O f = Done (Ok tt) k f'
    /\ intact f' /\ same_files same_db (held_all r f0) (held_all r f')
    /\ (~ all_legacy r f -> all_new r f' /\ f' !! SchemaVersionFile = Some (NFile ("2" +:+ newline))
                            /\ f' !! ActiveProfileFile = Some (NFile ("default" +:+ newline))).
Proof.
  intros Hi Hb Hm Hk Hf. pose proof (boot_triple os f0 f (fun k => Hf k SStat) (boots_safe f0 f Hb Hi) O f eq_refl) as Ht.
  destruct (autoMigrate r O f) as [x k f'|f'].
  - destruct Ht as [_ Hr]. destruct (Hr Hm) as [_ Hd]. destruct (Hd (fun k o => Hf k o)) as (-> & Hs & Hfin).
    apply settled_intact in Hs as [Hi' Hsame]. exists k, f'. split_and!; [done|done|done|].
    intros Hn. by destruct (Hfin Hn) as [[? ?] ?].
  - destruct Ht as [_ [j Hj]]. by rewrite Hk in Hj.
Qed.

End Boots.

(** ** A demonstration *)

Definition demo_marker : MarkerText := {| marker_time := "2026-04-18T09:00:00Z"; sha256_hex := fun _ => "e3b0c442" |}.

(** A SQLite that writes the log into the database and removes it. *)
Definition content (x : option node) : string := match x with Some (NFile c) => c | _ => "" end.
Definition demo_checkpoint (db : string) (f : fs) : res errno unit * fs :=
  (Ok tt, delete (db +:+ "-wal") (delete (db +:+ "-shm") (<[db := NFile (content (f !! db) +:+ content (f !! (db +:+ "-wal")))]> f))).
Definition demo_sqlite : Sqlite := {| checkpoint := demo_checkpoint |}.
Definition demo_same (a b : dbfiles) : Prop :=
  content a.1.1 +:+ content a.1.2 = content b.1.1 +:+ content b.1.2.
#[global] Instance demo_same_refl : Reflexive demo_same.
Proof. by intros [[??]?]. Qed.
#[global] Instance demo_same_trans : Transitive demo_same.
Proof. intros [[??]?] [[??]?] [[??]?] E1 E2. unfold demo_same in *. congruence. Qed.

Lemma demo_checkpoint_keeps : @checkpoint_keeps demo_sqlite demo_same.
Proof.
  intros db f c Hc Hfo f'.
  assert (Hne : forall e, e <> "" -> db +:+ e <> db).
  { intros e He E. apply (f_equal String.length) in E. rewrite str_app_length in E. destruct e; [done|cbn in E; lia]. }
  assert (Hws : db +:+ "-wal" <> db +:+ "-shm") by (intros E; apply (f_equal (str_drop (String.length db))) in E; by rewrite !str_drop_app in E).
  pose proof (Hne "-wal" ltac:(done)) as H1. pose proof (Hne "-shm" ltac:(done)) as H2.
  assert (Ef : f' = delete (db +:+ "-wal") (delete (db +:+ "-shm") (<[db := NFile (content (f !! db) +:+ content (f !! (db +:+ "-wal")))]> f))) by done.
  assert (Ew : f' !! (db +:+ "-wal") = None) by (rewrite Ef; apply lookup_delete_eq).
  assert (Es : f' !! (db +:+ "-shm") = None) by (rewrite Ef, lookup_delete_ne by done; apply lookup_delete_eq).
  assert (Ed : f' !! db = Some (NFile (content (f !! db) +:+ content (f !! (db +:+ "-wal"))))).
  { rewrite Ef, !lookup_delete_ne by auto. apply lookup_insert_eq. }
  clearbody f'. split_and!.
  - intros p Hp. unfold trio in Hp. rewrite !elem_of_cons in Hp. rewrite Ef, !lookup_delete_ne, lookup_insert_ne by naive_solver. done.
  - intros p Hp. unfold trio in Hp. rewrite !elem_of_cons, elem_of_nil in Hp.
    destruct Hp as [->|[->|[->|[]]]]; rewrite ?Ew, ?Es, ?Ed; (split; [first [by left|right; by eexists]|]); [congruence|done|done].
  - unfold demo_same. cbn [fst snd]. rewrite Ed, Ew. cbn [content]. by rewrite str_app_nil_r.
Qed.

Definition start (os : Os) (f : fs) : outcome (res merr unit) :=
  @autoMigrate demo_xdg os demo_machine demo_marker demo_sqlite "default" O f.

Definition demo_dirs : list string :=
  ["/home/u/.local/share/wa"; "/home/u/.config/wa"; "/home/u/.local/state/wa"; "/run/user/1000"].
Definition demo_files : list (string * string) :=
  [("/home/u/.local/share/wa/session.db", sqlite_magic +:+ "keys"); ("/home/u/.local/share/wa/messages.db", sqlite_magic +:+ "talk");
   ("/home/u/.config/wa/allowlist.toml", "[]"); ("/home/u/.local/state/wa/audit.log", "{}")].
Definition demo_tree : fs :=
  list_to_map (map (fun d => (d, NDir)) demo_dirs ++ map (fun kc => (kc.1, NFile kc.2)) demo_files).

Lemma demo_safe_socket : @safe_dir demo_xdg "default" "/run/user/1000/wa".
Proof.
  unfold safe_dir. apply Forall_forall. intros t Ht [l E]%under_split.
  assert (Hall : forallb (fun t => match split_byte "/" t with
    | [_; w; _; _; _] | [_; w; _; _; _; _] | [_; w; _; _; _; _; _] | [_; w; _; _; _; _; _; _] | [_; w; _; _; _; _; _; _; _] => String.eqb w "home"
    | _ => false end) (@tracked demo_xdg "default") = true) by (vm_compute; reflexivity).
  rewrite forallb_forall in Hall. apply list_elem_of_In, Hall in Ht. clear Hall.
  change (split_byte "/" "/run/user/1000/wa") with ["" ; "run"; "user"; "1000"; "wa"] in E.
  destruct (split_byte "/" t) as [|a [|w m]]; [done|cbn in Ht; done|]. injection E as -> <- _. cbn in Ht. by repeat case_match.
Qed.

Lemma plain_dec t c u : no_byte (chr 10) t = true -> t = u +:+ String c "" -> solid c = true -> plain t.
Proof. intros H1 H2 H3. split; eauto. Qed.

Lemma demo_site : @site demo_xdg demo_marker demo_sqlite "default" demo_same.
Proof.
  constructor.
  - by vm_compute.
  - discriminate.
  - apply demo_apart.
  - apply demo_checkpoint_keeps.
  - intros h Hh. unfold homes in Hh. rewrite !elem_of_cons, elem_of_nil in Hh. by destruct Hh as [->|[->|[->|[]]]].
  - by apply (plain_dec _ "Z" "2026-04-18T09:00:00").
  - intros s. by apply (plain_dec _ "2" "e3b0c44").
  - intros d [= <-]. apply demo_safe_socket.
Qed.

Lemma demo_intact : @intact demo_xdg "default" demo_tree.
Proof.
  split_and!.
  - assert (Hall : Forall (fun p : string * string => fileopt (demo_tree !! p.1) /\ demo_tree !! p.2 = None) (@pairs demo_xdg "default")).
    { repeat (apply Forall_cons_2; [split; [first [by left | right; eexists; reflexivity]|reflexivity]|]). by apply Forall_nil_2. }
    intros s d Hp. rewrite Forall_forall in Hall. destruct (Hall _ Hp) as [H1 H2]. cbn [fst snd] in *.
    split_and!; [done|by left|by right].
  - split_and!.
    + intros p Hp. unfold wa_dirs, homes in Hp. cbn [map] in Hp. rewrite !elem_of_cons, elem_of_nil in Hp.
      by destruct Hp as [->|[->|[->|[]]]].
    + intros p Hp. unfold profile_dirs, homes in Hp. cbn [map] in Hp. rewrite !elem_of_cons, elem_of_nil in Hp. left.
      by destruct Hp as [->|[->|[->|[]]]].
    + by left.
    + by left.
  - reflexivity.
  - left. assert (Hall : Forall (fun p : string * string => demo_tree !! p.2 = None) (@pairs demo_xdg "default")).
    { repeat (apply Forall_cons_2; [reflexivity|]). by apply Forall_nil_2. }
    intros p Hp. rewrite Forall_forall in Hall. by apply Hall.
Qed.

(** A run the system kills between two renames. *)
Definition demo_half : fs := end_of (start (killed_at 68) demo_tree).
Lemma demo_half_boots : @boots demo_xdg demo_machine demo_marker demo_sqlite "default" demo_tree demo_half.
Proof. unfold demo_half, start. apply (boots_more _ _ demo_tree (killed_at 68)); [apply boots_none|done]. Qed.

Lemma migration_crash_safe_witness :
  demo_half !! "/home/u/.local/share/wa/default/session.db" = Some (NFile (sqlite_magic +:+ "keys"))
  /\ demo_half !! "/home/u/.local/state/wa/audit.log" = Some (NFile "{}")
  /\ same_files demo_same (@held_all demo_xdg "default" demo_tree) (@held_all demo_xdg "default" demo_half).
Proof.
  split_and!; [reflexivity|reflexivity|].
  apply (@migration_crash_safe demo_xdg demo_machine demo_marker demo_sqlite "default" demo_same _ _ demo_site
    demo_tree demo_half demo_intact demo_half_boots).
Defined.

Lemma demo_half_marked : demo_half !! @MigratingMarkerFile demo_xdg <> None.
Proof. by vm_compute. Qed.

Lemma recovery_completes_witness : demo_half !! @MigratingMarkerFile demo_xdg <> None
  /\ exists k f', start calm demo_half = Done (Ok tt) k f' /\ @intact demo_xdg "default" f'.
Proof.
  split; [exact demo_half_marked|].
  destruct (@recovery_completes demo_xdg demo_machine demo_marker demo_sqlite "default" demo_same _ _ demo_site
    demo_tree demo_half calm demo_intact demo_half_boots demo_half_marked (fun k => eq_refl) (fun k o => eq_refl))
    as (k & f' & H1 & H2 & _).
  exists k, f'. split; [exact H1|exact H2].
Defined.

(** A run nothing interrupts moves everything. *)
Example demo_migrates : match start calm demo_tree with
  | Done (Ok _) _ f =>
    f !! "/home/u/.local/share/wa/default/session.db" = Some (NFile (sqlite_magic +:+ "keys"))
    /\ f !! "/home/u/.local/state/wa/default/audit.log" = Some (NFile "{}")
    /\ f !! "/home/u/.config/wa/.migrating" = None
    /\ f !! "/home/u/.config/wa/.schema-version" = Some (NFile ("2" +:+ newline))
  | _ => False end.
Proof. vm_compute. auto. Qed.

(** ** What goes wrong *)

(** One failed [stat] while recovery looks at a file that has not moved: it is
    taken for missing, and then deleted as a leftover. *)
Lemma recovery_deletes_unmoved :
  demo_half !! "/home/u/.local/state/wa/audit.log" = Some (NFile "{}")
  /\ match start (failing_at 11) demo_half with
     | Done (Ok _) _ f => f !! "/home/u/.local/state/wa/audit.log" = None
                          /\ f !! "/home/u/.local/state/wa/default/audit.log" = None
                          /\ f !! "/home/u/.config/wa/.migrating" = None
     | _ => False end.
Proof. vm_compute. auto. Qed.

(** A run killed once the directories are made, before the first rename: the
    next start takes the marker away, and every start after that finds the
    profile's directory and does nothing. *)
Definition demo_early : fs := end_of (start calm (end_of (start (killed_at 57) demo_tree))).
Lemma early_kill_strands :
  demo_early !! "/home/u/.config/wa/.migrating" = None
  /\ demo_early !! "/home/u/.local/share/wa/session.db" = Some (NFile (sqlite_magic +:+ "keys"))
  /\ match start calm demo_early with
     | Done (Ok _) _ f => map_to_list f = map_to_list demo_early
     | _ => False end.
Proof. vm_compute. auto. Qed.

(** SQLite removes the log when the last connection closes; the plan still
    names it, its rename fails, and the migration is given up for good. *)
Definition demo_logged : fs := <["/home/u/.local/share/wa/session.db-wal" := NFile "pages"]> demo_tree.
Lemma checkpointed_log_aborts : match start calm demo_logged with
  | Done (Err (MCtx _ (MErrno e))) _ f =>
    e = ENOENT /\ f !! "/home/u/.local/share/wa/session.db" = Some (NFile (sqlite_magic +:+ "keyspages"))
    /\ match start calm f with Done (Ok _) _ f' => map_to_list f' = map_to_list f | _ => False end
  | _ => False end.
Proof. vm_compute. auto. Qed.

(** A migration into another profile leaves [default] active. *)
Lemma active_profile_is_default :
  match @autoMigrate demo_xdg calm demo_machine demo_marker demo_sqlite "work" O demo_tree with
  | Done (Ok _) _ f =>
    f !! "/home/u/.local/share/wa/work/session.db" = Some (NFile (sqlite_magic +:+ "keys"))
    /\ f !! "/home/u/.config/wa/active-profile" = Some (NFile ("default" +:+ newline))
  | _ => False end.
Proof. vm_compute. auto. Qed.

(** A rollback killed between two files: the next start is content with the
    schema file, and the rollback cannot be run again. *)
Definition back (os : Os) (f : fs) : outcome (res merr unit) :=
  @ApplyRollback demo_xdg os false "default" O f.
Definition demo_back : fs := end_of (back (killed_at 20) (end_of (start calm demo_tree))).
Lemma interrupted_rollback_stuck :
  demo_back !! "/home/u/.local/share/wa/session.db" = Some (NFile (sqlite_magic +:+ "keys"))
  /\ demo_back !! "/home/u/.local/state/wa/default/audit.log" = Some (NFile "{}")
  /\ match start calm demo_back with Done (Ok _) _ f => map_to_list f = map_to_list demo_back | _ => False end
  /\ match back calm demo_back with Done (Err e) _ f => merr_is ErrMigrationAborted e = true /\ map_to_list f = map_to_list demo_back | _ => False end.
Proof. vm_compute. auto. Qed.

