(* ===== verification/History.v ===== *)
(** * The message history

    Package [sqlitehistory] over its table of messages: [store.go],
    [query.go], [query_list.go], [thread.go], [moderator.go], [anchor.go],
    [quoted.go], [sanitize.go], [fold.go] and [stored_message.go].  The table
    is the list of its rows in the order of their rowid.  [ORDER BY] leaves
    rows with equal keys in an order of SQLite's choosing, which the class
    [SqlOrder] keeps arbitrary; the full-text index and the Unicode fold of
    golang.org/x/text are parameters.  Opening the file, its pragmas, backups
    and schema migrations are input and output. *)
From S2P Require Import Prelude GoStd Errors Jid Policy Profile Message Values Json Idem Draft Envelope Projection MediaCas FileSys.
From stdpp Require Import sorting.

#[local] Open Scope string_scope.
#[local] Open Scope list_scope.
#[local] Open Scope Z_scope.

(** ** SQL *)

(** [ORDER BY k ASC]. *)
Class SqlOrder := {
  order_by : forall A : Type, (A -> Z) -> list A -> list A;
  order_perm : forall A k l, order_by A k l ≡ₚ l;
  order_sorted : forall A k l, StronglySorted (fun a b => k a <= k b) (order_by A k l) }.
Arguments order_by {_ A} k l.

(** [text LIKE pattern], with the escape byte if one is given: the percent
    sign stands for any text, the underscore for one character, and ASCII
    letters match in either case. *)
Definition ascii_fold (c : ascii) : ascii := if is_upper c then chr (bz c + 32) else c.
Definition like_byte (a b : ascii) : bool := Ascii.eqb (ascii_fold a) (ascii_fold b).
Fixpoint skip_cont (s : string) : string :=
  match s with
  | "" => ""
  | String c s' => if in_range 128 191 (bz c) then skip_cont s' else s
  end.
Fixpoint like (esc : option ascii) (p : string) : string -> bool :=
  match p with
  | "" => str_empty
  | String c p' =>
    let rest := like esc p' in
    if bool_decide (esc = Some c) then
      match p' with
      | "" => fun _ => false
      | String d p'' =>
        let rest := like esc p'' in
        fun s => match s with "" => false | String x s' => like_byte d x && rest s' end
      end
    else if Ascii.eqb c "%" then
      fix star (s : string) : bool := rest s || match s with "" => false | String _ s' => star s' end
    else if Ascii.eqb c "_" then
      fun s => match s with "" => false | String _ s' => rest (skip_cont s') end
    else fun s => match s with "" => false | String x s' => like_byte c x && rest s' end
  end.

(** ** stored_message.go *)

(** NULL in a nullable column is the zero value, as the queries read it. *)
Record StoredMessage := mkStored {
  hm_ChatJID : string; hm_SenderJID : string; hm_MessageID : string; hm_Timestamp : Z;
  hm_Body : string; hm_MediaType : string; hm_Caption : string; hm_IsFromMe : bool;
  hm_RawProto : string; hm_PushName : string; hm_RevokedAt : Z; hm_SenderAltJID : string;
  hm_AddressingMode : string; hm_InteractiveJSON : string }.

(** A row: the message, and the columns the queries do not return. *)
Record row := mkRow {
  r_rowid : Z; r_msg : StoredMessage; r_captionFolded : string; r_previousBody : string; r_editedAt : Z }.

(** The table of messages, the next rowid, and the receipts by chat, message,
    reader and kind. *)
Record history := mkHistory {
  h_rows : list row; h_next : Z; h_receipts : gmap (string * string * string * Z) Z }.
Definition emptyHistory : history := mkHistory [] 1 ∅.

(** ** sanitize.go, fold.go *)

(** [strings.Map]; an invalid byte becomes U+FFFD. *)
Definition strip_rune (r : Z) : bool :=
  negb ((r =? 9) || (r =? 10) || (r =? 13)) && in_range 0 31 r.
Definition SanitizeBody (s : string) : string :=
  str_concat (map (fun rs => if strip_rune rs.1 then "" else encode_rune rs.1) (segments s)).

(** NFD, the combining marks removed, NFC, in lower case. *)
Class TextFold := { foldNFD : string -> option string; fold_ToLower : string -> string }.

Definition foldText `{TextFold} (s : string) : string :=
  if str_empty s then ""
  else match foldNFD s with
       | None => fold_ToLower s
       | Some folded => fold_ToLower folded
       end.

(** [strings.NewReplacer] of one-byte strings. *)
Definition escape_like (c : ascii) : string :=
  if Ascii.eqb c "\" then "\\" else if Ascii.eqb c "%" then "\%" else if Ascii.eqb c "_" then "\_" else String c "".
Definition captionLikePattern `{TextFold} (sub : string) : string :=
  if str_empty sub then "" else "%" +:+ str_flat_map escape_like (foldText sub) +:+ "%".

(** ** store.go *)

Definition row_key (r : row) : string * string := (hm_ChatJID (r_msg r), hm_MessageID (r_msg r)).
Definition is_key (chat id : string) (r : row) : bool :=
  (hm_ChatJID (r_msg r) =? chat)%string && (hm_MessageID (r_msg r) =? id)%string.
(** [WHERE chat_jid = ? AND message_id = ?] *)
Definition find_row (chat id : string) (rows : list row) : option row := find (is_key chat id) rows.
Definition in_chat (chat : string) (r : row) : bool := (hm_ChatJID (r_msg r) =? chat)%string.
Definition row_ts (r : row) : Z := hm_Timestamp (r_msg r).

(** How each statement of a call fails, the [k]th execution of one at its [k]. *)
Abbreviation sfault := (stage -> nat -> option goerr).
Definition working : sfault := fun _ _ => None.

Section Store.
Context `{SqlOrder, TextFold}.

Definition newest_first (rows : list row) : list row := order_by (fun r => - row_ts r) rows.
Definition oldest_first (rows : list row) : list row := order_by row_ts rows.
Definition limited {A} (n : Z) (l : list A) : list A := take (Z.to_nat n) l.

(** The rows older than the cursor's; no row is older than a cursor that is
    not there. *)
Definition before_cursor (rows : list row) (chat before : string) (r : row) : bool :=
  str_empty before
  || match find_row chat before rows with Some c => row_ts r <? row_ts c | None => false end.
(** [messagesKeysetTail] *)
Definition keyset_page (rows : list row) (chat before : string) (limit : Z) : list row :=
  limited limit (newest_first (List.filter (fun r => in_chat chat r && before_cursor rows chat before r) rows)).

Definition query (f : fault) (ctx : string) {A} (a : A) : result A :=
  match fails_at f SQuery with Some e => Err (wrapc ctx e) | None => Ok a end.

Definition LoadMore (f : fault) (chat : JID) (before : string) (limit : Z) (h : history) : result (list Message.Message) :=
  fail_if JID_IsZero chat with wrapc "sqlitehistory.LoadMore" (EDom domain.ErrInvalidJID) ;;
  fail_if limit <=? 0 with ENew ("sqlitehistory.LoadMore: invalid limit: " +:+ itoa limit) ;;
  let* rows := query f "sqlitehistory: query" (keyset_page (h_rows h) (JID_String chat) before limit) in
  Ok (map (fun r =>
       let m := r_msg r in
       if negb (str_empty (hm_MediaType m))
       then MMedia (mkMedia chat (hm_MessageID m) (hm_MediaType m) (hm_Body m) "" "" "" false 0)
       else MText (mkText chat (hm_Body m) false [])) rows).

(** The newest incoming message; of one second, the one stored last. *)
Fixpoint latest (rows : list row) (best : option row) : option row :=
  match rows with
  | [] => best
  | r :: rows => latest rows (match best with Some b => if row_ts r <? row_ts b then best else Some r | None => Some r end)
  end.
Definition LatestIncoming (f : fault) (chat : JID) (h : history) : result (option string) :=
  fail_if JID_IsZero chat with wrapc "sqlitehistory.LatestIncoming" (EDom domain.ErrInvalidJID) ;;
  let* r := query f "sqlitehistory: latest incoming"
              (latest (List.filter (fun r => in_chat (JID_String chat) r && negb (hm_IsFromMe (r_msg r))) (h_rows h)) None) in
  Ok ((fun r => hm_MessageID (r_msg r)) <$> r).

(** One execution of the prepared [INSERT ... ON CONFLICT DO NOTHING]. *)
Definition stored_as (m : StoredMessage) : StoredMessage :=
  mkStored (hm_ChatJID m) (hm_SenderJID m) (hm_MessageID m) (hm_Timestamp m) (SanitizeBody (hm_Body m)) (hm_MediaType m)
    (SanitizeBody (hm_Caption m)) (hm_IsFromMe m) (hm_RawProto m) (hm_PushName m) 0 (hm_SenderAltJID m) (hm_AddressingMode m)
    (hm_InteractiveJSON m).
Definition insert_row (m : StoredMessage) (h : history) : history :=
  match find_row (hm_ChatJID m) (hm_MessageID m) (h_rows h) with
  | Some _ => h
  | None =>
    let s := stored_as m in
    mkHistory (h_rows h ++ [mkRow (h_next h) s (foldText (hm_Caption s)) "" 0]) (h_next h + 1) (h_receipts h)
  end.
Definition has_key (m : StoredMessage) : bool := negb (str_empty (hm_ChatJID m) || str_empty (hm_MessageID m)).

(** A transaction writes the table in place; what it began with comes back
    when it is rolled back, and when it cannot be committed. *)
Record Tx := mkTx { tx_before : history }.
Definition Rollback (tx : Tx) (h : history) : history := tx_before tx.
Definition Commit (f : sfault) (tx : Tx) (h : history) : check goerr * history :=
  match f SCommit 0%nat with Some e => (Err e, tx_before tx) | None => (Ok tt, h) end.

(** [for _, m := range msgs]; [k] executions are done. *)
Fixpoint insert_all (f : sfault) (tx : Tx) (k : nat) (msgs : list StoredMessage) (h : history) : check goerr * history :=
  match msgs with
  | [] => (Ok tt, h)
  | m :: msgs =>
    if has_key m then
      match f SExec k with
      | Some e => (Err (wrapc ("sqlitehistory: insert " +:+ hm_ChatJID m +:+ "/" +:+ hm_MessageID m) e), Rollback tx h)
      | None => insert_all f tx (S k) msgs (insert_row m h)
      end
    else insert_all f tx k msgs h
  end.
Definition Insert (f : sfault) (msgs : list StoredMessage) (h : history) : check goerr * history :=
  match msgs with
  | [] => (Ok tt, h)
  | _ =>
    match f SBegin 0%nat with
    | Some e => (Err (wrapc "sqlitehistory: begin" e), h)
    | None =>
      let tx := mkTx h in
      match f SQuery 0%nat with
      | Some e => (Err (wrapc "sqlitehistory: prepare" e), Rollback tx h)
      | None =>
        let '(r, h) := insert_all f tx 0 msgs h in
        match r with
        | Err e => (Err e, h)
        | Ok _ =>
          let '(r, h) := Commit f tx h in
          (match r with Err e => Err (wrapc "sqlitehistory: commit" e) | Ok _ => Ok tt end, h)
        end
      end
    end
  end.

(** [now]: the clock in seconds; [seq]: the counter of the store. *)
Fixpoint domain_rows (now : Z) (seq : Z) (msgs : list (option Message.Message)) : list StoredMessage * Z :=
  match msgs with
  | [] => ([], seq)
  | None :: msgs => domain_rows now seq msgs
  | Some m :: msgs =>
    let seq := seq + 1 in
    let '(rest, last) := domain_rows now seq msgs in
    let to := To m in
    if JID_IsZero to then (rest, last)
    else
      let c := Message_Content m in
      let caption := if negb (str_empty (c_Mime c)) then c_Text c else "" in
      (mkStored (JID_String to) (JID_String to) ("auto-" +:+ itoa now +:+ "-" +:+ itoa seq) (now + seq) (c_Text c) (c_Mime c)
         caption false "" "" 0 "" "" "" :: rest, last)
  end.
Definition InsertDomainMessages (f : sfault) (now seq : Z) (msgs : list (option Message.Message)) (h : history)
    : check goerr * Z * history :=
  match msgs with
  | [] => (Ok tt, seq, h)
  | _ =>
    let '(stored, seq) := domain_rows now seq msgs in
    let '(r, h) := Insert f stored h in
    (r, seq, h)
  end.

Definition InsertRawInteractive (f : sfault) (rec : StoredMessage) (h : history) : check goerr * history := Insert f [rec] h.
Definition InsertRaw (f : sfault) (rec : StoredMessage) (h : history) : check goerr * history :=
  InsertRawInteractive f
    (mkStored (hm_ChatJID rec) (hm_SenderJID rec) (hm_MessageID rec) (hm_Timestamp rec) (hm_Body rec) (hm_MediaType rec)
       (hm_Caption rec) (hm_IsFromMe rec) (hm_RawProto rec) (hm_PushName rec) (hm_RevokedAt rec) (hm_SenderAltJID rec)
       (hm_AddressingMode rec) "") h.

(** The rows of every chat with this id, in the order of their chat. *)
Definition with_id (id : string) (rows : list row) : list row := List.filter (fun r => (hm_MessageID (r_msg r) =? id)%string) rows.
Definition GetRawProto (f : fault) (chat id : string) (h : history) : result (string * string) :=
  fail_if str_empty id with ENew "sqlitehistory.GetRawProto: empty messageID" ;;
  if negb (str_empty chat) then
    match fails_at f SQuery with
    | Some e => Err (wrapc "sqlitehistory.GetRawProto: scan" e)
    | None =>
      match find_row chat id (h_rows h) with
      | None => Err (wrapc ("sqlitehistory.GetRawProto: " +:+ chat +:+ "/" +:+ id) ErrNotExist)
      | Some r => Ok (chat, hm_RawProto (r_msg r))
      end
    end
  else
    let* rows := query f "sqlitehistory.GetRawProto: query" (with_id id (h_rows h)) in
    match rows with
    | [] => Err (wrapc ("sqlitehistory.GetRawProto: " +:+ id) ErrNotExist)
    | [r] => Ok (hm_ChatJID (r_msg r), hm_RawProto (r_msg r))
    | _ => Err (wrapc ("sqlitehistory.GetRawProto: " +:+ id) (EDom domain.ErrMessageIDAmbiguous))
    end.

(** [QuotedMessageAdapter.GetRawProto], over a store that is there. *)
Definition quoted_GetRawProto (f : fault) (chat : JID) (id : string) (h : history) : result string :=
  if str_empty id then Err (ERpc app.ErrMessageNotFound)
  else match GetRawProto f (JID_String chat) id h with
       | Err e => Err (if is_not_exist e then ERpc app.ErrMessageNotFound
                       else wrapc "sqlitehistory.QuotedMessageAdapter.GetRawProto" e)
       | Ok (_, raw) => if str_empty raw then Err (ERpc app.ErrMessageNotFound) else Ok raw
       end.

(** Which row of several is SQLite's choice: the first here. *)
Definition GetSender (f : fault) (id : string) (h : history) : result string :=
  fail_if str_empty id with ENew "sqlitehistory.GetSender: empty messageID" ;;
  let* r := query f "sqlitehistory.GetSender: scan" (head (order_by (fun _ => 0) (with_id id (h_rows h)))) in
  match r with
  | None => Err (wrapc ("sqlitehistory.GetSender: " +:+ id) ErrNotExist)
  | Some r => Ok (hm_SenderJID (r_msg r))
  end.

(** ** moderator.go *)

Definition need_row (op : string) (chat : JID) (id : string) : check goerr :=
  fail_if JID_IsZero chat with wrapc op (EDom domain.ErrInvalidJID) ;;
  fail_if str_empty id with ENew (op +:+ ": empty messageID") ;; Ok tt.
Definition row_of (f : fault) (op : string) (chat : JID) (id : string) (h : history) : result row :=
  let* r := query f (op +:+ ": scan") (find_row (JID_String chat) id (h_rows h)) in
  match r with
  | None => Err (wrapc (op +:+ ": " +:+ JID_String chat +:+ "/" +:+ id) ErrNotExist)
  | Some r => Ok r
  end.

Definition GetMessageMeta (f : fault) (chat : JID) (id : string) (h : history) : result (Z * string) :=
  let* _ := need_row "sqlitehistory.GetMessageMeta" chat id in
  let* r := row_of f "sqlitehistory.GetMessageMeta" chat id h in
  Ok (row_ts r, hm_Body (r_msg r)).

Definition GetMessageIdentity (f : fault) (chat : JID) (id : string) (h : history) : result (string * bool * Z) :=
  let* _ := need_row "sqlitehistory.GetMessageIdentity" chat id in
  let* r := row_of f "sqlitehistory.GetMessageIdentity" chat id h in
  Ok (hm_SenderJID (r_msg r), hm_IsFromMe (r_msg r), row_ts r).

(** [UPDATE messages SET ... WHERE chat_jid = ? AND message_id = ?]: the rows
    and how many were changed. *)
Definition update_key (chat id : string) (g : row -> row) (rows : list row) : list row :=
  map (fun r => if is_key chat id r then g r else r) rows.
Definition with_rows (rows : list row) (h : history) : history := mkHistory rows (h_next h) (h_receipts h).
Definition set_revoked (stamp : Z) (r : row) : row :=
  let m := r_msg r in
  mkRow (r_rowid r)
    (mkStored (hm_ChatJID m) (hm_SenderJID m) (hm_MessageID m) (hm_Timestamp m) (hm_Body m) (hm_MediaType m) (hm_Caption m)
       (hm_IsFromMe m) (hm_RawProto m) (hm_PushName m) stamp (hm_SenderAltJID m) (hm_AddressingMode m) (hm_InteractiveJSON m))
    (r_captionFolded r) (r_previousBody r) (r_editedAt r).
Definition set_body (body : string) (at_ : Z) (r : row) : row :=
  let m := r_msg r in
  mkRow (r_rowid r)
    (mkStored (hm_ChatJID m) (hm_SenderJID m) (hm_MessageID m) (hm_Timestamp m) body (hm_MediaType m) (hm_Caption m)
       (hm_IsFromMe m) (hm_RawProto m) (hm_PushName m) (hm_RevokedAt m) (hm_SenderAltJID m) (hm_AddressingMode m)
       (hm_InteractiveJSON m))
    (r_captionFolded r) (hm_Body m) at_.

Definition StampRevoke (f : fault) (chat : JID) (id : string) (scope revokedAt : Z) (h : history) : check goerr * history :=
  match need_row "sqlitehistory.StampRevoke" chat id with
  | Err e => (Err e, h)
  | Ok _ =>
    if negb ((scope =? RevokeSelf) || (scope =? RevokeEveryone))
    then (Err (ENew ("sqlitehistory.StampRevoke: invalid scope " +:+ itoa scope)), h)
    else
      let stamp := if scope =? RevokeSelf then - revokedAt else revokedAt in
      match fails_at f SExec with
      | Some e => (Err (wrapc "sqlitehistory.StampRevoke" e), h)
      | None => (Ok tt, with_rows (update_key (JID_String chat) id (set_revoked stamp) (h_rows h)) h)
      end
  end.

Definition StampEdit (f : fault) (chat : JID) (id newBody : string) (editedAt : Z) (h : history) : check goerr * history :=
  match need_row "sqlitehistory.StampEdit" chat id with
  | Err e => (Err e, h)
  | Ok _ =>
    match fails_at f SExec with
    | Some e => (Err (wrapc "sqlitehistory.StampEdit" e), h)
    | None =>
      let h' := with_rows (update_key (JID_String chat) id (set_body (SanitizeBody newBody) editedAt) (h_rows h)) h in
      match find_row (JID_String chat) id (h_rows h) with
      | None => (Err (wrapc ("sqlitehistory.StampEdit: " +:+ JID_String chat +:+ "/" +:+ id) ErrNotExist), h')
      | Some _ => (Ok tt, h')
      end
    end
  end.

(** ** query.go *)

(** The columns a query selects; [scanStoredMessages] reads fourteen. *)
Definition storedMessageSelect : list string :=
  ["message_id"; "chat_jid"; "sender_jid"; "ts"; "body"; "media_type"; "caption"; "is_from_me"; "push_name"; "sender_alt_jid";
   "addressing_mode"; "interactive_json"; "raw_proto"; "revoked_at"].
Definition searchSelect : list string :=
  ["message_id"; "chat_jid"; "sender_jid"; "ts"; "body"; "media_type"; "caption"; "is_from_me"; "push_name"; "sender_alt_jid";
   "addressing_mode"; "interactive_json"; "raw_proto"].
Definition scan_destinations : Z := 14.

(** [rows.Scan] refuses a row whose columns are not as many as its
    destinations. *)
Definition scanStoredMessages (cols : list string) (rows : list row) : result (list StoredMessage) :=
  let n := Z.of_nat (length cols) in
  match rows with
  | [] => Ok []
  | _ =>
    if n =? scan_destinations then Ok (map r_msg rows)
    else Err (wrapc "sqlitehistory: scan" (ENew ("sql: expected " +:+ itoa n +:+ " destination arguments in Scan, not "
                                                  +:+ itoa scan_destinations)))
  end.

Definition QueryHistory (f : fault) (chat before : string) (limit : Z) (h : history) : result (list StoredMessage) :=
  fail_if str_empty chat with ENew "sqlitehistory.QueryHistory: empty chat JID" ;;
  fail_if limit <=? 0 with ENew ("sqlitehistory.QueryHistory: invalid limit: " +:+ itoa limit) ;;
  let limit := if 200 <? limit then 200 else limit in
  let* rows := query f "sqlitehistory: query history" (keyset_page (h_rows h) chat before limit) in
  scanStoredMessages storedMessageSelect rows.

Definition QueryMessages (f : fault) (limit : Z) (h : history) : result (list StoredMessage) :=
  fail_if limit <=? 0 with ENew ("sqlitehistory.QueryMessages: invalid limit: " +:+ itoa limit) ;;
  let limit := if 200 <? limit then 200 else limit in
  let* rows := query f "sqlitehistory: query messages" (limited limit (newest_first (h_rows h))) in
  scanStoredMessages storedMessageSelect rows.

(** [matches]: the rows the index finds for a quoted phrase, by rank. *)
Definition QuerySearch (matches : string -> list row -> list row) (f : fault) (q : string) (limit : Z) (h : history)
    : result (list StoredMessage) :=
  fail_if str_empty q with ENew "sqlitehistory.QuerySearch: empty query" ;;
  fail_if limit <=? 0 with ENew ("sqlitehistory.QuerySearch: invalid limit: " +:+ itoa limit) ;;
  let limit := if 100 <? limit then 100 else limit in
  let safeQuery := dq +:+ str_flat_map (fun c => if Ascii.eqb c quote_byte then dq +:+ dq else String c "") q +:+ dq in
  let* rows := query f "sqlitehistory: search" (limited limit (matches safeQuery (h_rows h))) in
  scanStoredMessages searchSelect rows.

(** [DELETE FROM messages WHERE ...]: what is left, and how many went. *)
Definition delete_rows (p : row -> bool) (rows : list row) : list row * Z :=
  (List.filter (fun r => negb (p r)) rows, Z.of_nat (length (List.filter p rows))).

Definition PurgeChat (f : fault) (chat : string) (h : history) : result Z * history :=
  if str_empty chat then (Err (ENew "sqlitehistory.PurgeChat: empty chat JID"), h)
  else
    match fails_at f SExec with
    | Some e => (Err (wrapc ("sqlitehistory: purge " +:+ chat) e), h)
    | None => let '(rows, n) := delete_rows (in_chat chat) (h_rows h) in (Ok n, with_rows rows h)
    end.

Definition CountChat (f : fault) (chat : string) (h : history) : result Z :=
  fail_if str_empty chat with ENew "sqlitehistory.CountChat: empty chat JID" ;;
  query f ("sqlitehistory: count " +:+ chat) (Z.of_nat (length (List.filter (in_chat chat) (h_rows h)))).

(** [olderThan] is a [time.Duration]. *)
Definition CleanupRetention (f : fault) (now : time) (olderThan : Z) (h : history) : result Z * history :=
  let cutoff := unix (now - olderThan) in
  match fails_at f SExec with
  | Some e => (Err (wrapc "sqlitehistory: retention cleanup" e), h)
  | None => let '(rows, n) := delete_rows (fun r => row_ts r <? cutoff) (h_rows h) in (Ok n, with_rows rows h)
  end.

Definition maxExportRows : Z := 100000.
Definition ExportChatFiltered (f : fault) (chat : string) (since until limit : Z) (h : history) : result (list StoredMessage) :=
  fail_if str_empty chat with ENew "sqlitehistory.ExportChat: empty chat JID" ;;
  let limit := if (limit <=? 0) || (maxExportRows <? limit) then maxExportRows else limit in
  let* rows := query f "sqlitehistory: export"
                 (limited limit (oldest_first (List.filter (fun r => in_chat chat r && ((since =? 0) || (since <=? row_ts r))
                                                                     && ((until =? 0) || (row_ts r <=? until))) (h_rows h)))) in
  scanStoredMessages storedMessageSelect rows.
Definition ExportChat (f : fault) (chat : string) (h : history) : result (list StoredMessage) := ExportChatFiltered f chat 0 0 0 h.

(** ** query_list.go *)

Record ChatSummary := mkChat {
  cs_ChatJID : string; cs_PushName : string; cs_LastMessageTS : Z; cs_MessageCount : Z; cs_IsGroup : bool }.

(** The chats there are, each once. *)
Definition chats_of (rows : list row) : list string := remove_dups (map (fun r => hm_ChatJID (r_msg r)) rows).
Definition max_ts (rows : list row) : Z := foldr (fun r m => Z.max (row_ts r) m) (match rows with r :: _ => row_ts r | [] => 0 end) rows.
Definition summary (rows : list row) (chat : string) : ChatSummary :=
  let here := List.filter (in_chat chat) rows in
  let named := newest_first (List.filter (fun r => negb (str_empty (hm_PushName (r_msg r)))) here) in
  mkChat chat (match named with r :: _ => hm_PushName (r_msg r) | [] => "" end) (max_ts here) (Z.of_nat (length here))
    (has_suffix "@g.us" chat).
Definition QueryChats (f : fault) (limit : Z) (h : history) : result (list ChatSummary) :=
  let limit := if limit <=? 0 then 200 else limit in
  let limit := if 1000 <? limit then 1000 else limit in
  query f "sqlitehistory: query chats"
    (limited limit (order_by (fun c => - cs_LastMessageTS c) (map (summary (h_rows h)) (chats_of (h_rows h))))).

Record MessageFilter := mkFilter {
  mf_ChatJID : string; mf_SenderJID : string; mf_MediaTypeLike : string; mf_Caption : string; mf_FromMe : option bool;
  mf_Since : Z; mf_Until : Z; mf_Limit : Z }.

(** The predicates of the WHERE clause, each there when its field is set. *)
Definition filter_row (mf : MessageFilter) (r : row) : bool :=
  let m := r_msg r in
  (str_empty (mf_ChatJID mf) || (hm_ChatJID m =? mf_ChatJID mf)%string)
  && (str_empty (mf_SenderJID mf) || ((hm_SenderJID m =? mf_SenderJID mf) || (hm_SenderAltJID m =? mf_SenderJID mf))%string)
  && (str_empty (mf_MediaTypeLike mf) || like None (mf_MediaTypeLike mf) (hm_MediaType m))
  && (let pattern := captionLikePattern (mf_Caption mf) in str_empty pattern || like (Some "\"%char) pattern (r_captionFolded r))
  && match mf_FromMe mf with None => true | Some b => Bool.eqb (hm_IsFromMe m) b end
  && ((mf_Since mf <=? 0) || (mf_Since mf <=? row_ts r))
  && ((mf_Until mf <=? 0) || (row_ts r <=? mf_Until mf)).
Definition QueryMessagesFiltered (f : fault) (mf : MessageFilter) (h : history) : result (list StoredMessage) :=
  let limit := if mf_Limit mf <=? 0 then 50 else mf_Limit mf in
  let limit := if 500 <? limit then 500 else limit in
  let* rows := query f "sqlitehistory: query messages filtered" (limited limit (newest_first (List.filter (filter_row mf) (h_rows h)))) in
  scanStoredMessages storedMessageSelect rows.

(** One contact for each incoming sender, with the name of its newest
    message; of senders that do not parse, none. *)
Definition incoming (r : row) : bool := negb (hm_IsFromMe (r_msg r)) && negb (str_empty (hm_SenderJID (r_msg r))).
Definition sender_contact (rows : list row) (sender : string) : option (JID * string) :=
  match Parse sender with
  | Err _ => None
  | Ok jid =>
    if JID_IsZero jid then None
    else Some (jid, match newest_first (List.filter (fun r => (hm_SenderJID (r_msg r) =? sender)%string) rows) with
                    | r :: _ => hm_PushName (r_msg r) | [] => "" end)
  end.
Definition DistinctSenders (f : fault) (h : history) : result (list (JID * string)) :=
  let rows := List.filter incoming (h_rows h) in
  let* senders := query f "sqlitehistory.DistinctSenders" (remove_dups (map (fun r => hm_SenderJID (r_msg r)) rows)) in
  Ok (omap (sender_contact rows) senders).

(** ** thread.go *)

Record MessageReceipt := mkReceipt { rc_MessageID : string; rc_Kind : Z; rc_TS : time; rc_ByJID : JID; rc_Chat : JID }.
Definition Receipt_Validate (r : MessageReceipt) : check goerr :=
  fail_if str_empty (rc_MessageID r) with wrapd domain.ErrReceipt "message_id is zero" ;;
  fail_if negb (ReceiptStatus_IsValid (rc_Kind r)) with wrapd domain.ErrReceipt ("kind " +:+ itoa (rc_Kind r)) ;;
  fail_if is_zero_time (rc_TS r) with wrapd domain.ErrReceipt "ts is zero" ;;
  fail_if JID_IsZero (rc_Chat r) with wrapd domain.ErrReceipt "chat is zero" ;; Ok tt.

Definition PutReceipt (f : fault) (r : MessageReceipt) (h : history) : check goerr * history :=
  match Receipt_Validate r with
  | Err e => (Err (wrapc "sqlitehistory.PutReceipt" e), h)
  | Ok _ =>
    match fails_at f SExec with
    | Some e => (Err (wrapc "sqlitehistory.PutReceipt: exec" e), h)
    | None =>
      (Ok tt, mkHistory (h_rows h) (h_next h)
                (<[(JID_String (rc_Chat r), rc_MessageID r, JID_String (rc_ByJID r), rc_Kind r) := unix (rc_TS r)]> (h_receipts h)))
    end
  end.

Record ThreadMessage := mkThreadMessage { th_ID : string; th_Sender : JID; th_TS : Z; th_FromMe : bool; th_Message : Message.Message }.
Record ThreadPage := mkPage { tp_Messages : list ThreadMessage; tp_Receipts : list MessageReceipt; tp_Next : string; tp_HasMore : bool }.

Definition thread_message (chat : JID) (r : row) : ThreadMessage :=
  let m := r_msg r in
  mkThreadMessage (hm_MessageID m)
    (match Parse (hm_SenderJID m) with
     | Ok j => j
     | Err _ => match Parse (hm_SenderAltJID m) with Ok j => j | Err _ => zeroJID end
     end)
    (hm_Timestamp m) (hm_IsFromMe m)
    (if negb (str_empty (hm_MediaType m)) then MMedia (mkMedia chat "" (hm_MediaType m) (hm_Body m) "" "" "" false 0)
     else MText (mkText chat (hm_Body m) false [])).

Definition threadMessages (f : fault) (chat : JID) (cursor : string) (limit : Z) (h : history) : result (list ThreadMessage * string) :=
  let* rows := query f "sqlitehistory.GetThread: messages" (keyset_page (h_rows h) (JID_String chat) cursor limit) in
  Ok (map (thread_message chat) rows, match last rows with Some r => hm_MessageID (r_msg r) | None => "" end).

(** A row whose kind or reader is none of the program's is left out. *)
Definition receipt_of (chat : JID) (e : string * string * string * Z * Z) : option MessageReceipt :=
  let '(_, id, jid, kind, ts) := e in
  if (kind <? 0) || (255 <? kind) || negb (ReceiptStatus_IsValid kind) then None
  else if str_empty jid then Some (mkReceipt id kind (of_unix ts) zeroJID chat)
  else match Parse jid with Err _ => None | Ok by_ => Some (mkReceipt id kind (of_unix ts) by_ chat) end.
Definition receiptsForChat (f : fault) (chat : JID) (h : history) : result (list MessageReceipt) :=
  let mine := List.filter (fun e : _ * Z => (e.1.1.1.1 =? JID_String chat)%string) (map_to_list (h_receipts h)) in
  let* rows := query f "sqlitehistory.GetThread: receipts" (order_by snd mine) in
  Ok (omap (fun e => receipt_of chat (e.1, e.2)) rows).

(** [fr]: what the second query answers. *)
Definition GetThread (f fr : fault) (chat : JID) (cursor : string) (limit : Z) (h : history) : result ThreadPage :=
  fail_if JID_IsZero chat with wrapc "sqlitehistory.GetThread" (EDom domain.ErrInvalidJID) ;;
  let limit := if limit <=? 0 then 50 else limit in
  let* ml := threadMessages f chat cursor limit h in
  let* receipts := receiptsForChat fr chat h in
  let more := Z.of_nat (length ml.1) =? limit in
  Ok (mkPage ml.1 receipts (if more then ml.2 else "") more).

(** ** anchor.go *)

Record MessageRef := mkRef { mr_Chat : JID; mr_ID : string; mr_FromMe : bool; mr_Timestamp : time }.

(** The later in time, then by id. *)
Definition beats (ascending : bool) (a b : row) : bool :=
  let lt := (row_ts a <? row_ts b) || ((row_ts a =? row_ts b) && (hm_MessageID (r_msg a) <? hm_MessageID (r_msg b))%string) in
  if ascending then lt
  else (row_ts b <? row_ts a) || ((row_ts a =? row_ts b) && (hm_MessageID (r_msg b) <? hm_MessageID (r_msg a))%string).
Fixpoint extreme (ascending : bool) (rows : list row) : option row :=
  match rows with
  | [] => None
  | r :: rows => match extreme ascending rows with Some b => if beats ascending b r then Some b else Some r | None => Some r end
  end.
Definition refByOrder (f : fault) (chat : JID) (ascending : bool) (h : history) : result (option MessageRef) :=
  let* r := query f ("sqlitehistory: " +:+ (if ascending then "ASC" else "DESC") +:+ " ref for " +:+ JID_String chat)
              (extreme ascending (List.filter (in_chat (JID_String chat)) (h_rows h))) in
  Ok ((fun r => mkRef chat (hm_MessageID (r_msg r)) (hm_IsFromMe (r_msg r)) (of_unix (row_ts r))) <$> r).
Definition NewestRef (f : fault) (chat : JID) (h : history) := refByOrder f chat false h.
Definition OldestRef (f : fault) (chat : JID) (h : history) := refByOrder f chat true h.

Definition RecentChats (f : fault) (limit : Z) (h : history) : result (list JID) :=
  let* summaries := QueryChats f limit h in
  Ok (omap (fun c => match Parse (cs_ChatJID c) with Ok j => Some j | Err _ => None end) summaries).

End Store.

#[global] Instance z_key_le_dec {A} (k : A -> Z) : RelDecision (fun a b => k a <= k b).
Proof. intros a b. apply Z_le_dec. Defined.
#[global] Instance z_key_le_total {A} (k : A -> Z) : Total (fun a b => k a <= k b).
Proof. intros a b. lia. Qed.
#[global] Instance z_key_le_trans {A} (k : A -> Z) : Transitive (fun a b => k a <= k b).
Proof. intros a b c. lia. Qed.

(** One order: equal keys as they stand. *)
Definition stable_order : SqlOrder.
Proof.
  refine {| order_by := fun A k l => merge_sort (fun a b => k a <= k b) l |}.
  - intros A k l. apply merge_sort_Permutation.
  - intros A k l. apply StronglySorted_merge_sort; apply _.
Defined.

(** ** The history is a map *)

(** The message of each chat and id. *)
Definition abs (h : history) : gmap (string * string) StoredMessage :=
  list_to_map (map (fun r => (row_key r, r_msg r)) (h_rows h)).

Lemma is_key_true c i r : is_key c i r = true <-> row_key r = (c, i).
Proof. unfold is_key, row_key. rewrite andb_true_iff, !String.eqb_eq. split; [intros [-> ->]; done|by intros [= -> ->]]. Qed.

Lemma abs_lookup rows n rc c i : abs (mkHistory rows n rc) !! (c, i) = r_msg <$> find_row c i rows.
Proof.
  unfold abs. cbn [h_rows]. induction rows as [|r rows IH]; [done|]. cbn [map list_to_map foldr]. unfold find_row in *. cbn [find].
  cbn [foldr uncurry fst snd]. destruct (is_key c i r) eqn:E.
  - apply is_key_true in E. rewrite E. by rewrite lookup_insert_eq.
  - rewrite lookup_insert_ne; [exact IH|]. intros Ek. apply is_key_true in Ek. congruence.
Qed.

Lemma find_row_Some c i rows r : find_row c i rows = Some r -> In r rows /\ row_key r = (c, i).
Proof. intros [Hin Hk]%find_some. split; [done|]. by apply is_key_true. Qed.

Lemma find_row_unique rows r : NoDup (map row_key rows) -> In r rows ->
  find_row (hm_ChatJID (r_msg r)) (hm_MessageID (r_msg r)) rows = Some r.
Proof.
  induction rows as [|x rows IH]; [done|]. cbn [map]. intros [Hnin Hnd]%NoDup_cons [->|Hin]; unfold find_row; cbn [find].
  - replace (is_key _ _ r) with true; [done|]. symmetry. by apply is_key_true.
  - destruct (is_key _ _ x) eqn:E; [|by apply IH]. apply is_key_true in E. exfalso. apply Hnin. rewrite E.
    change (row_key r ∈ map row_key rows). by apply list_elem_of_In, in_map.
Qed.

(** Text without control characters. *)
Definition clean (s : string) : bool := str_forallb (fun c => negb (strip_rune (bz c))) s.

Record row_ok `{TextFold} (r : row) : Prop := {
  ok_key : hm_ChatJID (r_msg r) <> "" /\ hm_MessageID (r_msg r) <> "";
  ok_body : clean (hm_Body (r_msg r)) = true /\ clean (r_previousBody r) = true;
  ok_caption : clean (hm_Caption (r_msg r)) = true /\ r_captionFolded r = foldText (hm_Caption (r_msg r)) }.
Record sound `{TextFold} (h : history) : Prop := {
  so_keys : NoDup (map row_key (h_rows h));
  so_rows : Forall row_ok (h_rows h);
  so_ids : Forall (fun r => r_rowid r < h_next h) (h_rows h) }.

Lemma clean_rune r : strip_rune r = false -> clean (encode_rune r) = true.
Proof.
  intros Hs. unfold encode_rune.
  assert (Hb : forall z, 128 <= z < 256 -> clean (String (chr z) "") = true).
  { intros z Hz. unfold clean. cbn [str_forallb]. rewrite bz_chr by lia. unfold strip_rune, in_range.
    replace (z <=? 31) with false by (symmetry; apply Z.leb_gt; lia). by rewrite andb_false_r, andb_false_r. }
  assert (Happ : forall a s, clean (String a "") = true -> clean s = true -> clean (String a s) = true).
  { intros a s. unfold clean. cbn [str_forallb]. rewrite andb_true_r. intros -> ->. done. }
  assert (Hdiv : forall z k n, 0 <= z -> 0 < k -> z < n * k -> 0 <= z / k < n).
  { intros z k n Hz Hk Hn. split; [by apply Z.div_pos|]. apply Z.div_lt_upper_bound; lia. }
  assert (Hmod : forall z, 128 <= 128 + z mod 64 < 256) by (intros z; pose proof (Z.mod_pos_bound z 64); lia).
  destruct (r <? 0) eqn:E0; [done|]. destruct (r <=? 127) eqn:E1.
  { bprop. unfold clean. cbn [str_forallb]. rewrite bz_chr by lia. by rewrite Hs. }
  bprop. destruct (r <=? 2047) eqn:E2.
  { bprop. pose proof (Hdiv r 64 32). apply Happ; [apply Hb; lia|apply Hb, Hmod]. }
  cbn zeta. set (r' := if in_range 55296 57343 r || (1114111 <? r) then rune_error else r).
  assert (Hr : 2048 <= r' <= 1114111).
  { unfold r', rune_error, in_range. case_match; bprop; [lia|]. rewrite ?orb_false_iff in *. lia. }
  clearbody r'. destruct (r' <=? 65535) eqn:E3; bprop.
  - pose proof (Hdiv r' 4096 16). apply Happ; [apply Hb; lia|]. apply Happ; [apply Hb, Hmod|apply Hb, Hmod].
  - pose proof (Hdiv r' 262144 8). apply Happ; [apply Hb; lia|]. apply Happ; [apply Hb, Hmod|]. apply Happ; [apply Hb, Hmod|apply Hb, Hmod].
Qed.

Lemma clean_Sanitize s : clean (SanitizeBody s) = true.
Proof.
  unfold SanitizeBody. induction (segments s) as [|[r p] l IH]; [done|]. cbn [map str_concat foldr fst].
  unfold clean in *. rewrite str_forallb_app. apply andb_true_iff. split; [|exact IH].
  destruct (strip_rune r) eqn:E; [done|by apply clean_rune].
Qed.

(** ** The operations as changes of the map *)

Definition map_insert (s : gmap (string * string) StoredMessage) (m : StoredMessage) : gmap (string * string) StoredMessage :=
  let k := (hm_ChatJID m, hm_MessageID m) in
  if has_key m then match s !! k with Some _ => s | None => <[k := stored_as m]> s end else s.
Definition revoked (stamp : Z) (m : StoredMessage) : StoredMessage := r_msg (set_revoked stamp (mkRow 0 m "" "" 0)).
Definition edited (body : string) (m : StoredMessage) : StoredMessage := r_msg (set_body body 0 (mkRow 0 m "" "" 0)).

Section Refines.
Context `{SqlOrder, TextFold}.

Lemma has_key_true m : has_key m = true <-> hm_ChatJID m <> "" /\ hm_MessageID m <> "".
Proof. unfold has_key. by rewrite negb_true_iff, orb_false_iff, !str_empty_false. Qed.

Lemma insert_row_abs m h : sound h -> has_key m = true -> sound (insert_row m h) /\ abs (insert_row m h) = map_insert (abs h) m.
Proof.
  intros [Hk Hr Hi] Hm. destruct h as [rows n rc]. cbn [h_rows h_next] in *. unfold insert_row, map_insert. rewrite Hm. cbn [h_rows].
  rewrite abs_lookup. destruct (find_row _ _ rows) as [r|] eqn:Ef; cbn [fmap option_fmap option_map]; [done|].
  assert (Hnew : forall r, In r rows -> row_key r <> (hm_ChatJID m, hm_MessageID m)).
  { intros r Hin E. unfold find_row in Ef. apply find_none with (x := r) in Ef; [|done]. apply is_key_true in E. congruence. }
  split.
  - split; cbn [h_rows h_next h_receipts].
    + rewrite map_app. apply NoDup_app. split_and!; [done| |by apply NoDup_singleton].
      intros k Hin Hk2. apply list_elem_of_singleton in Hk2. subst k. apply list_elem_of_In, in_map_iff in Hin as (r & E & Hin).
      by apply (Hnew r Hin).
    + apply Forall_app. split; [done|]. apply Forall_singleton. apply has_key_true in Hm.
      split; cbn; [done|split; [apply clean_Sanitize|done]|split; [apply clean_Sanitize|done]].
    + apply Forall_app. split; [|by apply Forall_singleton; cbn; lia].
      eapply Forall_impl; [exact Hi|]. cbn. intros r Hr2. lia.
  - apply map_eq. intros [c i]. unfold abs. cbn [h_rows].
    rewrite map_app, list_to_map_app. cbn [map list_to_map foldr uncurry fst snd].
    change (row_key (mkRow n (stored_as m) _ "" 0)) with (hm_ChatJID m, hm_MessageID m). cbn [r_msg].
    pose proof (abs_lookup rows n rc) as Ha. unfold abs in Ha. cbn [h_rows] in Ha. destruct (decide ((c, i) = (hm_ChatJID m, hm_MessageID m))) as [E|Hne].
    + injection E as -> ->. rewrite lookup_insert_eq. apply lookup_union_Some_raw. right.
      rewrite Ha, Ef. cbn. by rewrite lookup_insert_eq.
    + rewrite lookup_insert_ne by done. rewrite lookup_union, lookup_insert_ne by done. rewrite lookup_empty. by destruct (_ !! _).
Qed.

Lemma insert_all_spec f tx msgs : forall k h, sound h ->
  let '(r, h') := insert_all f tx k msgs h in
  if is_ok r then sound h' /\ abs h' = foldl map_insert (abs h) msgs else h' = tx_before tx.
Proof.
  induction msgs as [|m msgs IH]; intros k h Hs; cbn [insert_all foldl]; [done|].
  destruct (has_key m) eqn:Em.
  - destruct (f SExec k); [done|]. destruct (insert_row_abs m h Hs Em) as [Hs' Ha]. rewrite <- Ha. by apply IH.
  - replace (map_insert (abs h) m) with (abs h); [by apply IH|]. unfold map_insert. by rewrite Em.
Qed.

Lemma Insert_spec f msgs h r h' : sound h -> Insert f msgs h = (r, h') ->
  sound h' /\ (is_ok r = false -> h' = h) /\ (is_ok r = true -> abs h' = foldl map_insert (abs h) msgs).
Proof.
  intros Hs. unfold Insert. destruct msgs as [|m msgs]; [by intros [= <- <-]|].
  destruct (f SBegin 0%nat); [by intros [= <- <-]|]. cbn zeta. destruct (f SQuery 0%nat); [by intros [= <- <-]|].
  pose proof (insert_all_spec f (mkTx h) (m :: msgs) 0 h Hs) as Hi.
  destruct (insert_all f (mkTx h) 0 (m :: msgs) h) as [[[]|e] h2]; cbn [is_ok] in Hi; [|subst h2; by intros [= <- <-]].
  unfold Commit. destruct (f SCommit 0%nat); intros [= <- <-]; [done|]. by destruct Hi.
Qed.

Lemma map_insert_idem m s : map_insert (map_insert s m) m = map_insert s m.
Proof.
  unfold map_insert. destruct (has_key m); [|done]. destruct (s !! (hm_ChatJID m, hm_MessageID m)) as [y|] eqn:E; [by rewrite E|].
  by rewrite lookup_insert_eq.
Qed.

(** What is there stays as it was. *)
Lemma map_insert_keeps msgs : forall s k m, s !! k = Some m -> foldl map_insert s msgs !! k = Some m.
Proof.
  induction msgs as [|x msgs IH]; intros s k m E; [done|]. cbn [foldl]. apply IH. unfold map_insert. destruct (has_key x); [|done].
  destruct (s !! (hm_ChatJID x, hm_MessageID x)) as [y|] eqn:Ek; [done|]. rewrite lookup_insert_ne; [done|]. intros <-. congruence.
Qed.

Lemma map_insert_has msgs : forall s m, In m msgs -> has_key m = true -> is_Some (foldl map_insert s msgs !! (hm_ChatJID m, hm_MessageID m)).
Proof.
  induction msgs as [|x msgs IH]; intros s m Hin Hk; [done|]. cbn [foldl]. destruct Hin as [->|Hin]; [|by apply IH].
  unfold map_insert at 2. rewrite Hk. destruct (s !! (hm_ChatJID m, hm_MessageID m)) as [y|] eqn:E.
  - exists y. by apply map_insert_keeps.
  - eexists. apply map_insert_keeps. apply lookup_insert_eq.
Qed.

Lemma map_insert_all_idem msgs s : foldl map_insert (foldl map_insert s msgs) msgs = foldl map_insert s msgs.
Proof.
  assert (Hg : forall l t, (forall m, In m l -> has_key m = true -> is_Some (t !! (hm_ChatJID m, hm_MessageID m))) -> foldl map_insert t l = t).
  { induction l as [|m l IH]; intros t Ht; [done|]. cbn [foldl].
    assert (Em : map_insert t m = t).
    { unfold map_insert. destruct (has_key m) eqn:Ek; [|done]. destruct (Ht m (or_introl eq_refl) Ek) as [y ->]. done. }
    rewrite Em. apply IH. intros m2 Hin. apply Ht. by right. }
  apply Hg. intros m Hin Hk. by apply map_insert_has.
Qed.

Lemma Insert_again f f2 msgs h h' : sound h -> Insert f msgs h = (Ok tt, h') -> abs (Insert f2 msgs h').2 = abs h'.
Proof.
  intros Hs E. destruct (Insert_spec _ _ _ _ _ Hs E) as (Hs' & _ & Ha). specialize (Ha eq_refl).
  destruct (Insert f2 msgs h') as [r h2] eqn:E2. destruct (Insert_spec _ _ _ _ _ Hs' E2) as (_ & Hn & Ho). cbn [snd].
  destruct r as [u|e]; [by rewrite Ho, Ha, map_insert_all_idem|by rewrite Hn].
Qed.

Lemma update_keys c i g rows : (forall r, row_key (g r) = row_key r) -> map row_key (update_key c i g rows) = map row_key rows.
Proof. intros Hg. unfold update_key. rewrite map_map. apply map_ext. intros r. destruct (is_key c i r); [apply Hg|done]. Qed.

Lemma update_abs c i g (up : StoredMessage -> StoredMessage) rows n rc :
  (forall r, row_key (g r) = row_key r) -> (forall r, r_msg (g r) = up (r_msg r)) ->
  abs (mkHistory (update_key c i g rows) n rc) = alter up (c, i) (abs (mkHistory rows n rc)).
Proof.
  intros Hg Hu. apply map_eq. intros [c2 i2].
  assert (Hf : find_row c2 i2 (update_key c i g rows)
               = (fun r => if decide ((c2, i2) = (c, i)) then g r else r) <$> find_row c2 i2 rows).
  { induction rows as [|r rows IH]; [done|]. unfold find_row, update_key in *. cbn [map find].
    destruct (is_key c i r) eqn:E.
    - apply is_key_true in E. destruct (is_key c2 i2 (g r)) eqn:E2.
      + apply is_key_true in E2. rewrite Hg, E in E2. injection E2 as <- <-.
        replace (is_key c i r) with true by (symmetry; by apply is_key_true). cbn. by rewrite decide_True.
      + destruct (is_key c2 i2 r) eqn:E3; [|exact IH]. apply is_key_true in E3. rewrite E in E3. injection E3 as <- <-.
        assert (is_key c i (g r) = true) by (apply is_key_true; by rewrite Hg). congruence.
    - destruct (is_key c2 i2 r) eqn:E2; [|exact IH]. cbn. case_decide as Ed; [|done]. injection Ed as -> ->. congruence. }
  rewrite abs_lookup, Hf. destruct (decide ((c2, i2) = (c, i))) as [E|Hne].
  - injection E as -> ->. rewrite lookup_alter_eq, abs_lookup. destruct (find_row c i rows); cbn; [by rewrite Hu|done].
  - rewrite lookup_alter_ne by done. rewrite abs_lookup. by destruct (find_row c2 i2 rows).
Qed.

Lemma update_sound c i g rows n rc : (forall r, row_key (g r) = row_key r) -> (forall r, row_ok r -> row_ok (g r)) ->
  (forall r, r_rowid (g r) = r_rowid r) -> sound (mkHistory rows n rc) -> sound (mkHistory (update_key c i g rows) n rc).
Proof.
  intros Hg Hok Hid [Hk Hr Hi]. split; cbn [h_rows h_next] in *.
  - by rewrite update_keys.
  - unfold update_key. apply Forall_map. eapply Forall_impl; [exact Hr|]. cbn. intros r Hro. destruct (is_key c i r); auto.
  - unfold update_key. apply Forall_map. eapply Forall_impl; [exact Hi|]. cbn. intros r Hro. destruct (is_key c i r); [by rewrite Hid|done].
Qed.

Lemma delete_abs p rows n rc (q : (string * string) * StoredMessage -> Prop) `{!forall x, Decision (q x)} :
  NoDup (map row_key rows) -> (forall r, q (row_key r, r_msg r) <-> p r = false) ->
  abs (mkHistory (delete_rows p rows).1 n rc) = filter q (abs (mkHistory rows n rc)).
Proof.
  intros Hnd Hq. unfold delete_rows. cbn [fst]. apply map_eq. intros [c i]. rewrite abs_lookup.
  induction rows as [|r rows IH]; [done|]. cbn [map] in Hnd. apply NoDup_cons in Hnd as [Hnin Hnd]. specialize (IH Hnd).
  assert (Hone : abs (mkHistory (r :: rows) n rc) = <[row_key r := r_msg r]> (abs (mkHistory rows n rc))) by done.
  assert (Hno : abs (mkHistory rows n rc) !! row_key r = None).
  { unfold abs. cbn [h_rows]. apply not_elem_of_list_to_map_1. intros Hin. apply Hnin.
    rewrite <- list_fmap_compose in Hin. exact Hin. }
  rewrite Hone. cbn [List.filter]. destruct (p r) eqn:Ep; cbn [negb].
  - rewrite map_filter_insert_False; [|by rewrite Hq, Ep]. rewrite delete_id by done. exact IH.
  - rewrite map_filter_insert_True; [|by apply Hq]. unfold find_row. cbn [find]. destruct (is_key c i r) eqn:E.
    + apply is_key_true in E. rewrite E. by rewrite lookup_insert_eq.
    + rewrite lookup_insert_ne; [exact IH|]. intros Ek. apply is_key_true in Ek. congruence.
Qed.

Lemma delete_sound p rows n rc : sound (mkHistory rows n rc) -> sound (mkHistory (delete_rows p rows).1 n rc).
Proof.
  intros [Hk Hr Hi]. unfold delete_rows. cbn [fst]. split; cbn [h_rows h_next] in *.
  - assert (Hsub : map row_key (List.filter (fun r => negb (p r)) rows) `sublist_of` map row_key rows).
    { apply fmap_sublist. clear. induction rows as [|r rows IH]; [constructor|]. cbn [List.filter]. destruct (negb (p r)); by constructor. }
    by eapply sublist_NoDup.
  - apply Forall_forall. intros r Hin%list_elem_of_In%filter_In. rewrite Forall_forall in Hr. apply Hr, list_elem_of_In. tauto.
  - apply Forall_forall. intros r Hin%list_elem_of_In%filter_In. rewrite Forall_forall in Hi. apply Hi, list_elem_of_In. tauto.
Qed.

Lemma size_abs rows n rc : NoDup (map row_key rows) -> size (abs (mkHistory rows n rc)) = length rows.
Proof.
  intros Hnd. unfold abs. cbn [h_rows]. rewrite map_size_list_to_map; [by rewrite length_map|]. by rewrite <- list_fmap_compose.
Qed.
Lemma delete_count p rows : Z.of_nat (length rows) = (delete_rows p rows).2 + Z.of_nat (length (delete_rows p rows).1).
Proof.
  unfold delete_rows. cbn [fst snd]. induction rows as [|r rows IH]; [done|]. cbn [length List.filter]. destruct (p r); cbn [negb length]; lia.
Qed.

(** A deletion by a condition on the message. *)
Lemma delete_spec p rows n rc (q : (string * string) * StoredMessage -> Prop) `{!forall x, Decision (q x)} rest k :
  sound (mkHistory rows n rc) -> (forall r, q (row_key r, r_msg r) <-> p r = false) -> delete_rows p rows = (rest, k) ->
  sound (mkHistory rest n rc) /\ abs (mkHistory rest n rc) = filter q (abs (mkHistory rows n rc))
  /\ Z.of_nat (size (abs (mkHistory rows n rc))) = k + Z.of_nat (size (abs (mkHistory rest n rc))).
Proof.
  intros Hs Hq E. pose proof (delete_sound p rows n rc Hs) as Hsd. pose proof (delete_count p rows) as Hc.
  pose proof (delete_abs p rows n rc q (so_keys _ Hs) Hq) as Ha. rewrite E in Hsd, Hc, Ha. cbn [fst snd] in Hsd, Hc, Ha.
  split_and!; [done|done|]. rewrite !size_abs; [lia|apply Hsd|apply Hs].
Qed.

End Refines.

(** C27. The table is a map from chats and ids to messages, and keeps it.  From
    a well-formed table, whatever statement fails, the begin, the preparation,
    any execution of the insert or the commit: an insertion that fails
    changes nothing, the rows it had already written rolled back, and one that succeeds adds the messages that have a chat
    and an id of which nothing was known, with their control characters taken
    out, so that the first delivery stays and doing it again changes nothing;
    a revocation and an edit change the stamp and the body of the one message
    they name, and an edit of a message that is not there says so; a purge and
    the retention take out exactly the messages of the chat, and those before
    the cutoff, and count them; and the table stays well formed: one row to a
    key, no control characters, and captions folded as the filter folds. *)
Theorem history_refines_map {so : SqlOrder} {tf : TextFold} (f : fault) (sf : sfault) (h : history) :
  sound h ->
  (forall msgs, let '(r, h') := Insert sf msgs h in
     sound h' /\ (is_ok r = false -> h' = h)
     /\ (is_ok r = true -> abs h' = foldl map_insert (abs h) msgs /\ forall f2, abs (Insert f2 msgs h').2 = abs h'))
  /\ (forall chat id scope at_, let '(r, h') := StampRevoke f chat id scope at_ h in
        sound h' /\ (is_ok r = false -> h' = h)
        /\ (is_ok r = true -> abs h' = alter (revoked (if scope =? RevokeSelf then - at_ else at_)) (JID_String chat, id) (abs h)))
  /\ (forall chat id body at_, let '(r, h') := StampEdit f chat id body at_ h in
        sound h' /\ (is_ok r = false -> abs h' = abs h)
        /\ (is_ok r = true -> abs h' = alter (edited (SanitizeBody body)) (JID_String chat, id) (abs h)
                              /\ is_Some (abs h !! (JID_String chat, id))))
  /\ (forall chat, let '(r, h') := PurgeChat f chat h in
        sound h' /\ match r with
                    | Err _ => h' = h
                    | Ok n => abs h' = filter (fun kv => kv.1.1 <> chat) (abs h) /\ Z.of_nat (size (abs h)) = n + Z.of_nat (size (abs h'))
                    end)
  /\ (forall now older, let '(r, h') := CleanupRetention f now older h in
        sound h' /\ match r with
                    | Err _ => h' = h
                    | Ok n => abs h' = filter (fun kv => unix (now - older) <= hm_Timestamp kv.2) (abs h)
                              /\ Z.of_nat (size (abs h)) = n + Z.of_nat (size (abs h'))
                    end).
Proof.
  intros Hs. destruct h as [rows n rc]. split_and!.
  - intros msgs. destruct (Insert sf msgs (mkHistory rows n rc)) as [r h'] eqn:E.
    destruct (Insert_spec _ _ _ _ _ Hs E) as (H1 & H2 & H3). split_and!; [done|done|]. intros Hok. split; [by apply H3|].
    intros f2. destruct r as [[]|e]; [exact (Insert_again sf f2 msgs _ h' Hs E)|done].
  - intros chat id scope at_. unfold StampRevoke. destruct (need_row _ chat id); [|by split_and!]. destruct (negb _); [by split_and!|].
    destruct (fails_at f SExec); [by split_and!|]. unfold with_rows. cbn [h_rows h_next h_receipts].
    split_and!; [|done|intros _; by apply update_abs].
    apply update_sound; try done. intros r [H1 H2 H3]. by split.
  - intros chat id body at_. unfold StampEdit. destruct (need_row _ chat id); [|by split_and!].
    destruct (fails_at f SExec); [by split_and!|]. unfold with_rows. cbn [h_rows h_next h_receipts].
    assert (Hu : abs (mkHistory (update_key (JID_String chat) id (set_body (SanitizeBody body) at_) rows) n rc)
                 = alter (edited (SanitizeBody body)) (JID_String chat, id) (abs (mkHistory rows n rc))) by by apply update_abs.
    assert (Hsd : sound (mkHistory (update_key (JID_String chat) id (set_body (SanitizeBody body) at_) rows) n rc)).
    { apply update_sound; try done. intros r [H1 [H2 H2'] H3]. split; [done| |done]. split; [apply clean_Sanitize|done]. }
    destruct (find_row (JID_String chat) id rows) as [r|] eqn:Ef; split_and!; try done; intros _.
    + split; [done|]. rewrite abs_lookup, Ef. by eexists.
    + rewrite Hu. apply map_eq. intros k. destruct (decide (k = (JID_String chat, id))) as [->|Hne];
        [by rewrite lookup_alter_eq, abs_lookup, Ef|by rewrite lookup_alter_ne].
  - intros chat. unfold PurgeChat. destruct (str_empty chat); [done|]. destruct (fails_at f SExec); [done|].
    destruct (delete_rows (in_chat chat) rows) as [rest k] eqn:Ed. unfold with_rows. cbn [h_rows h_next h_receipts].
    cbn [h_rows] in Ed. rewrite Ed. apply delete_spec with (p := in_chat chat); [done| |done].
    intros r. unfold in_chat, row_key. cbn. by rewrite String.eqb_neq.
  - intros now older. unfold CleanupRetention. destruct (fails_at f SExec); [done|]. cbn zeta.
    set (p := fun r => row_ts r <? unix (now - older)).
    destruct (delete_rows p rows) as [rest k] eqn:Ed. unfold with_rows. cbn [h_rows h_next h_receipts].
    cbn [h_rows] in Ed. rewrite Ed. apply delete_spec with (p := p); [done| |done]. intros r. unfold p, row_ts. cbn. by rewrite Z.ltb_ge.
Qed.

(** ** The caption filter *)

Fixpoint fold_ascii (s : string) : string := match s with "" => "" | String c s => String (ascii_fold c) (fold_ascii s) end.

Lemma like_star esc p s : esc <> Some "%"%char ->
  like esc (String "%" p) s = true <-> exists u w, s = u +:+ w /\ like esc p w = true.
Proof.
  intros He. cbn [like]. rewrite bool_decide_eq_false_2 by done. change (Ascii.eqb "%" "%") with true. cbn iota.
  induction s as [|c s IH].
  - rewrite orb_false_r. split; [intros Hp; by exists "", ""|]. intros (u & w & E & Hp). destruct u; [|done]. cbn in E. by subst w.
  - rewrite orb_true_iff, IH. split.
    + intros [Hp|(u & w & -> & Hp)]; [by exists "", (String c s)|by exists (String c u), w].
    + intros ([|a u] & w & E & Hp); [left; cbn in E; by subst w|right]. injection E as -> ->. by exists u, w.
Qed.

Lemma like_literal t p s :
  like (Some "\"%char) (str_flat_map escape_like t +:+ p) s = true
  <-> exists v w, s = v +:+ w /\ fold_ascii v = fold_ascii t /\ like (Some "\"%char) p w = true.
Proof.
  revert s. induction t as [|c t IH]; intros s.
  - cbn [str_flat_map]. split; [intros Hp; by exists "", s|]. intros (v & w & -> & Hv & Hp). by destruct v.
  - assert (Hstep : forall g : string -> bool, (forall s, g s = true <-> exists v w, s = v +:+ w /\ fold_ascii v = fold_ascii t /\ like (Some "\"%char) p w = true) ->
      forall s, match s with "" => false | String x s' => like_byte c x && g s' end = true
      <-> exists v w, s = v +:+ w /\ fold_ascii v = fold_ascii (String c t) /\ like (Some "\"%char) p w = true).
    { intros g Hg [|x s']; [split; [done|]; intros ([|] & w & E & Hv & _); done|]. rewrite andb_true_iff, Hg. unfold like_byte. rewrite Ascii.eqb_eq. split.
      - intros (Ec & v & w & -> & Hv & Hp). exists (String x v), w. cbn [fold_ascii]. by rewrite Hv, Ec.
      - intros ([|y v] & w & E & Hv & Hp); [done|]. injection E as -> ->. cbn [fold_ascii] in Hv. injection Hv as Hc Hv. split; [done|]. by exists v, w. }
    cbn [str_flat_map]. unfold escape_like at 1.
    destruct (Ascii.eqb_spec c "\") as [->|H1]; [|destruct (Ascii.eqb_spec c "%") as [->|H2]; [|destruct (Ascii.eqb_spec c "_") as [->|H3]]].
    1-3: cbn [String.append like]; rewrite bool_decide_eq_true_2 by done; apply Hstep, IH.
    cbn [String.append like]. rewrite bool_decide_eq_false_2 by congruence. rewrite (proj2 (Ascii.eqb_neq _ _) H2), (proj2 (Ascii.eqb_neq _ _) H3).
    apply Hstep, IH.
Qed.

(** A caller's words that fold to nothing, a lone accent, match everything. *)
Lemma empty_fold_matches_all {tf : TextFold} (sub c : string) :
  sub <> "" -> foldText sub = "" -> like (Some "\"%char) (captionLikePattern sub) c = true.
Proof.
  intros Hs Hf. unfold captionLikePattern. rewrite (proj2 (str_empty_false sub) Hs), Hf.
  change ("%" +:+ str_flat_map escape_like "" +:+ "%") with (String "%" (String "%" "")). apply like_star; [done|]. exists c, "".
  split; [by rewrite str_app_nil_r|done].
Qed.

(** C29. The caption filter is a search for plain text, with one exception.  The
    pattern that the store makes of the words of a caller matches a caption
    exactly when the folded caption contains the folded words somewhere,
    letter for letter but for the case of ASCII letters: no percent sign,
    underscore or backslash in them widens it.  The exception: words that fold
    to nothing (combining marks alone) are contained in every caption, so the
    filter they ask for is none. *)
Theorem caption_filter_exact {tf : TextFold} (sub caption : string) :
  sub <> "" ->
  (like (Some "\"%char) (captionLikePattern sub) (foldText caption) = true
   <-> exists u v w, foldText caption = u +:+ v +:+ w /\ fold_ascii v = fold_ascii (foldText sub))
  /\ (foldText sub = "" -> like (Some "\"%char) (captionLikePattern sub) (foldText caption) = true)
  /\ (foldText sub <> "" -> foldText caption = "" ->
      like (Some "\"%char) (captionLikePattern sub) (foldText caption) = false).
Proof.
  intros Hs.
  assert (Hiff : like (Some "\"%char) (captionLikePattern sub) (foldText caption) = true
    <-> exists u v w, foldText caption = u +:+ v +:+ w /\ fold_ascii v = fold_ascii (foldText sub)).
  { unfold captionLikePattern. rewrite (proj2 (str_empty_false sub) Hs).
    change ("%" +:+ str_flat_map escape_like (foldText sub) +:+ "%") with (String "%" (str_flat_map escape_like (foldText sub) +:+ "%")).
    rewrite like_star by done. split.
    - intros (u & w & E & Hl). apply like_literal in Hl as (v & w' & -> & Hv & _). by exists u, v, w'.
    - intros (u & v & w & E & Hv). exists u, (v +:+ w). split; [done|]. apply like_literal. exists v, w. split_and!; [done|done|].
      apply like_star; [done|]. exists w, "". split; [by rewrite str_app_nil_r|done]. }
  split; [exact Hiff|]. split; [by apply empty_fold_matches_all|]. intros Hne Hc. apply not_true_is_false. rewrite Hiff, Hc.
  intros (u & v & w & E & Hv). destruct u; [|done]. destruct v; [|done]. by destruct (foldText sub).
Qed.

(** ** Pages *)

Section Pages.
Context `{SqlOrder, TextFold}.

Lemma same_ts rows r1 r2 : NoDup (map row_ts rows) -> In r1 rows -> In r2 rows -> row_ts r1 = row_ts r2 -> r1 = r2.
Proof.
  induction rows as [|x rows IH]; [done|]. cbn [map]. intros [Hnin Hnd]%NoDup_cons [->|H1] [->|H2] E; [done| | |by apply IH].
  - exfalso. apply Hnin. rewrite E. by apply list_elem_of_In, in_map.
  - exfalso. apply Hnin. rewrite <- E. by apply list_elem_of_In, in_map.
Qed.

Lemma newest_perm rows : newest_first rows ≡ₚ rows.
Proof. apply order_perm. Qed.
Lemma newest_sorted rows : StronglySorted (fun a b => row_ts b <= row_ts a) (newest_first rows).
Proof.
  pose proof (order_sorted row (fun r => - row_ts r) rows) as Hs. unfold newest_first. induction Hs as [|x l _ IH Hx]; constructor; [done|].
  eapply Forall_impl; [exact Hx|]. cbn. intros y. lia.
Qed.

(** Two ways of putting messages of different times in order are one. *)
Lemma newest_unique rows l : NoDup (map row_ts rows) -> l ≡ₚ rows -> StronglySorted (fun a b => row_ts b <= row_ts a) l -> newest_first rows = l.
Proof.
  intros Hnd Hp Hs. apply (StronglySorted_unique_strong (fun a b => row_ts b <= row_ts a)).
  - intros a b Ha Hb H1 H2. apply (same_ts rows); [done| | |lia].
    + apply list_elem_of_In. by rewrite <- newest_perm.
    + apply list_elem_of_In. by rewrite <- Hp.
  - apply newest_sorted.
  - done.
  - by rewrite newest_perm, Hp.
Qed.

Lemma List_filter_perm {A} (p : A -> bool) (l k : list A) : l ≡ₚ k -> List.filter p l ≡ₚ List.filter p k.
Proof.
  induction 1 as [|x l k E IH|x y l|l k m _ IH1 _ IH2]; cbn [List.filter]; [done| | |by rewrite IH1].
  - destruct (p x); by rewrite ?IH.
  - destruct (p x), (p y); try done. apply Permutation_swap.
Qed.
Lemma List_filter_filter {A} (p q : A -> bool) (l : list A) : List.filter p (List.filter q l) = List.filter (fun x => q x && p x) l.
Proof. induction l as [|x l IH]; [done|]. cbn [List.filter]. destruct (q x); cbn [List.filter andb]; by rewrite ?IH. Qed.
Lemma List_filter_all {A} (p : A -> bool) (l : list A) (b : bool) : Forall (fun x => p x = b) l -> List.filter p l = if b then l else [].
Proof. induction 1 as [|x l E Hl IH]; [by destruct b|]. cbn [List.filter]. rewrite E, IH. by destruct b. Qed.

(** In a strictly ordered list, what is older than an element is what follows
    it. *)
Lemma older_is_rest pre x post : StronglySorted (fun a b => row_ts b <= row_ts a) (pre ++ x :: post) ->
  NoDup (map row_ts (pre ++ x :: post)) -> List.filter (fun r => row_ts r <? row_ts x) (pre ++ x :: post) = post.
Proof.
  intros Hs Hnd. rewrite List.filter_app. cbn [List.filter]. rewrite Z.ltb_irrefl.
  rewrite (List_filter_all _ pre false), (List_filter_all _ post true); [done| |].
  - apply Forall_forall. intros r Hin. apply Z.ltb_lt. apply StronglySorted_app in Hs as (_ & _ & Hs).
    apply StronglySorted_inv in Hs as [_ Hs]. rewrite Forall_forall in Hs. specialize (Hs r Hin).
    rewrite map_app in Hnd. apply NoDup_app in Hnd as (_ & _ & Hnd). cbn [map] in Hnd. apply NoDup_cons in Hnd as [Hnin _].
    assert (row_ts r <> row_ts x); [|lia]. intros E. apply Hnin. rewrite <- E. apply list_elem_of_In, in_map. by apply list_elem_of_In.
  - apply Forall_forall. intros r Hin. apply Z.ltb_ge. apply StronglySorted_app in Hs as (Hs & _ & _). apply Hs; [done|by left].
Qed.

Lemma page_first rows chat limit : keyset_page rows chat "" limit = limited limit (newest_first (List.filter (in_chat chat) rows)).
Proof.
  unfold keyset_page, before_cursor. cbn [str_empty orb]. do 2 f_equal. clear. induction rows as [|r rows IH]; [done|].
  cbn [List.filter]. rewrite IH. by rewrite andb_true_r.
Qed.

Lemma page_after h chat limit pre x post : sound h -> NoDup (map row_ts (List.filter (in_chat chat) (h_rows h))) ->
  newest_first (List.filter (in_chat chat) (h_rows h)) = pre ++ x :: post ->
  keyset_page (h_rows h) chat (hm_MessageID (r_msg x)) limit = limited limit post.
Proof.
  intros Hs Hnd E. pose proof (newest_perm (List.filter (in_chat chat) (h_rows h))) as Hp. rewrite E in Hp.
  assert (Hx : In x (h_rows h) /\ in_chat chat x = true).
  { apply filter_In, list_elem_of_In. rewrite <- Hp. apply elem_of_app. right. by left. }
  destruct Hx as [Hin Hc]. pose proof Hc as Hc2. unfold in_chat in Hc2. apply String.eqb_eq in Hc2.
  pose proof (find_row_unique _ _ (so_keys _ Hs) Hin) as Hf. rewrite Hc2 in Hf.
  assert (Hid : str_empty (hm_MessageID (r_msg x)) = false).
  { apply str_empty_false. pose proof (so_rows _ Hs) as Hr. rewrite Forall_forall in Hr. apply (ok_key _ (Hr x (proj2 (list_elem_of_In _ _) Hin))). }
  unfold keyset_page. f_equal.
  assert (Hflt : List.filter (fun r => in_chat chat r && before_cursor (h_rows h) chat (hm_MessageID (r_msg x)) r) (h_rows h)
                 = List.filter (fun r => row_ts r <? row_ts x) (List.filter (in_chat chat) (h_rows h))).
  { rewrite List_filter_filter. apply filter_ext. intros r. unfold before_cursor. by rewrite Hid, Hf. }
  rewrite Hflt. pose proof (newest_sorted (List.filter (in_chat chat) (h_rows h))) as Hsort. rewrite E in Hsort.
  assert (Hnd2 : NoDup (map row_ts (pre ++ x :: post))) by (change (NoDup (row_ts <$> (pre ++ x :: post))); by rewrite Hp).
  apply newest_unique.
  - clear -Hnd. induction (List.filter (in_chat chat) (h_rows h)) as [|r l IH]; [constructor|]. cbn [map List.filter] in *.
    apply NoDup_cons in Hnd as [Hnin Hnd]. destruct (row_ts r <? row_ts x); [|by apply IH]. cbn [map]. constructor; [|by apply IH].
    intros Hin. apply Hnin. apply list_elem_of_In, in_map_iff in Hin as (y & <- & Hin). apply list_elem_of_In, in_map.
    by apply filter_In in Hin as [Hin _].
  - rewrite <- (older_is_rest pre x post) by done. by apply List_filter_perm.
  - apply StronglySorted_app in Hsort as (_ & _ & Hsort). by apply StronglySorted_inv in Hsort as [Hsort _].
Qed.

(** Reading a chat page by page, each from the last id of the one before,
    until a page is empty. *)
Fixpoint walk (fuel : nat) (chat before : string) (limit : Z) (h : history) : list StoredMessage :=
  match fuel with
  | O => []
  | S fuel =>
    match QueryHistory None chat before limit h with
    | Ok (m :: ms) => (m :: ms) ++ walk fuel chat (hm_MessageID (default m (last ms))) limit h
    | _ => []
    end
  end.

Lemma query_page h chat before limit : str_empty chat = false -> 0 < limit ->
  QueryHistory None chat before limit h = Ok (map r_msg (keyset_page (h_rows h) chat before (if 200 <? limit then 200 else limit))).
Proof.
  intros Hc Hl. unfold QueryHistory, guard. rewrite Hc. replace (limit <=? 0) with false by (symmetry; apply Z.leb_gt; lia).
  cbn [query fails_at res_bind]. unfold scanStoredMessages. by destruct (keyset_page _ _ _ _).
Qed.

Lemma walk_rest h chat limit : sound h -> NoDup (map row_ts (List.filter (in_chat chat) (h_rows h))) -> str_empty chat = false -> 0 < limit ->
  forall fuel post pre before,
    newest_first (List.filter (in_chat chat) (h_rows h)) = pre ++ post ->
    (before = "" /\ pre = [] \/ exists pre' x, pre = pre' ++ [x] /\ before = hm_MessageID (r_msg x)) ->
    (length post < fuel)%nat -> walk fuel chat before limit h = map r_msg post.
Proof.
  intros Hs Hnd Hc Hl. induction fuel as [|fuel IH]; intros post pre before E Hb Hf; [lia|]. cbn [walk].
  rewrite query_page by done. set (k := Z.to_nat (if 200 <? limit then 200 else limit)).
  assert (Hk : (0 < k)%nat) by (unfold k; case_match; lia).
  assert (Hpage : keyset_page (h_rows h) chat before (if 200 <? limit then 200 else limit) = take k post).
  { destruct Hb as [[-> ->]|(pre' & x & -> & ->)].
    - rewrite page_first, E. done.
    - rewrite <- app_assoc in E. by rewrite (page_after h chat _ pre' x post) by done. }
  rewrite Hpage. destruct post as [|r post]; [by rewrite take_nil|]. destruct k as [|k]; [lia|]. cbn [take map].
  set (page := take k post). transitivity (map r_msg (r :: page ++ drop k post)); [|unfold page; by rewrite take_drop].
  assert (Hlast : default (r_msg r) (last (map r_msg page)) = r_msg (default r (last page))).
  { change (map r_msg page) with (r_msg <$> page). rewrite fmap_last. by destruct (last page). }
  rewrite Hlast. rewrite (IH (drop k post) (pre ++ r :: page)).
  - cbn [map]. by rewrite map_app.
  - rewrite E. unfold page. rewrite <- app_assoc. cbn [app]. by rewrite take_drop.
  - right. destruct (last page) as [y|] eqn:El; cbn [default].
    + apply last_Some in El as [l ->]. exists (pre ++ r :: l), y. split; [by rewrite <- app_assoc|done].
    + apply last_None in El. rewrite El. by exists pre, r.
  - rewrite length_drop. cbn [length] in Hf. lia.
Qed.

End Pages.

(** C28. Paging loses nothing and repeats nothing, as long as no two messages
    of the chat are of the same second: reading page after page, each from the
    last id of the one before, whatever the size that is asked for, ends and
    gives every message of the chat once, newest first. *)
Theorem history_pages_cover {so : SqlOrder} {tf : TextFold} (h : history) (chat : string) (limit : Z) (fuel : nat) :
  sound h -> NoDup (map row_ts (List.filter (in_chat chat) (h_rows h))) -> chat <> "" -> 0 < limit -> (length (h_rows h) < fuel)%nat ->
  walk fuel chat "" limit h = map r_msg (newest_first (List.filter (in_chat chat) (h_rows h)))
  /\ walk fuel chat "" limit h ≡ₚ map r_msg (List.filter (in_chat chat) (h_rows h))
  /\ StronglySorted (fun a b => hm_Timestamp b <= hm_Timestamp a) (walk fuel chat "" limit h).
Proof.
  intros Hs Hnd Hc%str_empty_false Hl Hf. set (L := newest_first (List.filter (in_chat chat) (h_rows h))).
  assert (Hw : walk fuel chat "" limit h = map r_msg L).
  { eapply (walk_rest h chat limit Hs Hnd Hc Hl fuel L []); [done|by left|]. unfold L. rewrite (Permutation_length (newest_perm _)).
    pose proof (filter_length_le (in_chat chat) (h_rows h)). lia. }
  rewrite Hw. split_and!; [done|by apply fmap_Permutation, newest_perm|].
  pose proof (newest_sorted (List.filter (in_chat chat) (h_rows h))) as Hsort. fold L in Hsort. clear -Hsort.
  induction Hsort as [|x l _ IH Hx]; [constructor|]. cbn [map]. constructor; [done|]. by apply Forall_map.
Qed.

(** ** Where the store falls short of its comments *)

#[local] Existing Instance stable_order.
#[local] Instance demo_fold : TextFold := {| foldNFD := fun s => Some s; fold_ToLower := fold_ascii |}.

Definition demo_message (id : string) (ts : Z) (fromMe : bool) (body push : string) : StoredMessage :=
  mkStored "551199@s.whatsapp.net" "551199@s.whatsapp.net" id ts body "" "" fromMe "" push 0 "" "" "".
Definition demo_history : history :=
  (Insert working [demo_message "A" 10 false "one" "Ana"; demo_message "B" 20 false "two" "Ana"; demo_message "C" 30 true "three" ""]
     emptyHistory).2.

(** Two messages of one second: the page after the first skips the second. *)
Lemma page_skips_ties :
  let h := (Insert working [demo_message "A" 10 false "one" ""; demo_message "B" 10 false "two" ""] emptyHistory).2 in
  length (h_rows h) = 2%nat /\ map hm_MessageID (walk 9 "551199@s.whatsapp.net" "" 1 h) = ["A"].
Proof. vm_compute. auto. Qed.

(** [QuerySearch] selects one column less than is scanned: whatever the index
    finds, the answer is an error. *)
Lemma search_always_fails (matches : string -> list row -> list row) (q : string) (limit : Z) (h : history) (ms : list StoredMessage) :
  QuerySearch matches None q limit h = Ok ms -> ms = [].
Proof.
  unfold QuerySearch, guard. destruct (str_empty q); [done|]. destruct (limit <=? 0); [done|]. cbn [query fails_at res_bind].
  unfold scanStoredMessages. destruct (limited _ _); [by intros [= <-]|done].
Qed.

(** A thread still shows the text of a message that was revoked for all. *)
Lemma thread_reads_revoked :
  match GetThread None None (mkJID "551199" "s.whatsapp.net") "" 50 (StampRevoke None (mkJID "551199" "s.whatsapp.net") "A" RevokeEveryone 40 demo_history).2 with
  | Ok p => existsb (fun m => (th_ID m =? "A")%string && (c_Text (Message_Content (th_Message m)) =? "one")%string) (tp_Messages p)
  | Err _ => false
  end = true.
Proof. vm_compute. reflexivity. Qed.

(** ** A demonstration *)

Lemma demo_sound : sound demo_history.
Proof.
  split.
  - apply (bool_decide_unpack _). vm_compute. exact I.
  - repeat (apply Forall_cons_2; [split; vm_compute; repeat split; discriminate|]). apply Forall_nil_2.
  - repeat (apply Forall_cons_2; [vm_compute; reflexivity|]). apply Forall_nil_2.
Qed.

(** The second execution fails: the first row does not stay. *)
Definition second_fails : sfault := fun st k => match st, k with SExec, 1%nat => Some (ENew "disk I/O error") | _, _ => None end.

Lemma history_refines_map_witness :
  hm_Body <$> (abs (Insert working [demo_message "A" 99 false "again" "Eve"] demo_history).2 !! ("551199@s.whatsapp.net", "A")) = Some "one"
  /\ (Insert second_fails [demo_message "X" 99 false "x" ""; demo_message "Y" 99 false "y" ""] demo_history).2 = demo_history.
Proof.
  split.
  - destruct (history_refines_map None working demo_history demo_sound) as [Hi _].
    specialize (Hi [demo_message "A" 99 false "again" "Eve"]).
    destruct (Insert working [demo_message "A" 99 false "again" "Eve"] demo_history) as [[[]|e] h'] eqn:E; [|discriminate E].
    destruct Hi as (_ & _ & Hok). destruct (Hok eq_refl) as [Ha _]. cbn [snd]. rewrite Ha. vm_compute. reflexivity.
  - destruct (history_refines_map None second_fails demo_history demo_sound) as [Hi _].
    specialize (Hi [demo_message "X" 99 false "x" ""; demo_message "Y" 99 false "y" ""]).
    assert (Hr : is_ok (Insert second_fails [demo_message "X" 99 false "x" ""; demo_message "Y" 99 false "y" ""] demo_history).1 = false)
      by (vm_compute; reflexivity).
    destruct (Insert second_fails _ demo_history) as [r h']. destruct Hi as (_ & Hn & _). exact (Hn Hr).
Defined.

Lemma caption_filter_exact_witness :
  like (Some "\"%char) (captionLikePattern "100%") (foldText "Sale: 100% OFF") = true.
Proof.
  destruct (caption_filter_exact "100%" "Sale: 100% OFF") as (Hiff & _); [discriminate|]. apply Hiff.
  exists "sale: ", "100%", " off". split; reflexivity.
Defined.

Lemma history_pages_cover_witness :
  map hm_MessageID (walk 4 "551199@s.whatsapp.net" "" 2 demo_history) = ["C"; "B"; "A"].
Proof.
  destruct (history_pages_cover demo_history "551199@s.whatsapp.net" 2 4 demo_sound) as [-> _].
  - apply (bool_decide_unpack _). vm_compute. exact I.
  - discriminate.
  - reflexivity.
  - vm_compute. lia.
  - vm_compute. reflexivity.
Defined.
