(* ===== verification/RestMedia.v ===== *)
(** * The media routes of the REST server, and when it listens

    [rest/server.go] ([handleMediaFetch], [handleMediaUpload] and what they
    share), [problem.go], and the decisions of [cmd/wad/rest_http.go] on
    starting.  The routes are over the tokens and the authenticators of [Rest]
    and the store of [MediaCas]; [http.ServeContent], which sends the file
    whole or the range asked for, is the end of the model: an answer holds the
    bytes it is given.  [mime.ExtensionsByType], [http.DetectContentType],
    [net.SplitHostPort] and [net.ParseIP] are parameters. *)
From S2P Require Import Prelude GoStd Errors Jid Limiter Message Values Json Idem Draft Rest Profile FileSys MediaCas Envelope MediaApi.

#[local] Open Scope string_scope.
#[local] Open Scope list_scope.
#[local] Open Scope Z_scope.
#[local] Open Scope prog_scope.

(** ** problem.go *)

Record problemDetails := mkProblem { pd_Type : string; pd_Title : string; pd_Status : Z; pd_Detail : string; pd_Code : Z }.

(** The catalog: code, name and message of each row; a later row wins. *)
Definition problemCatalog (rows : list (Z * (string * string))) : gmap Z (string * string) :=
  foldl (fun m row => <[row.1 := row.2]> m) ∅ rows.
Definition newProblem (catalog : gmap Z (string * string)) (status code : Z) (detail : string) : problemDetails :=
  match catalog !! code with
  | Some (name, message) => mkProblem ("/v1/errors#" +:+ name) message status detail code
  | None => mkProblem "/v1/errors" "error" status detail code
  end.

(** ** The routes *)

Inductive media_reply :=
| Refused (status code : Z) (msg : string)
| Streamed (mime etag : string) (body : res errno string)
| Uploaded (sha : string) (size : Z).

(** The writing half of the store, [rest.MediaWriter]. *)
Class MediaWriter (M : Type) := {
  write_object : check goerr -> MediaRef -> string -> string -> Z -> M -> prog (result MediaObject * M) }.
Definition adapter_writer `{Os, Machine, MediaEnv} (root : string) (now wall : Z) : MediaWriter times :=
  {| write_object := MediaAdapter_Write root now wall |}.

Definition mediaUploadMethod : string := "media.upload".


(** What a client sends: bytes, and why the connection broke after them. *)
Record raw_body := mkBody { rb_bytes : string; rb_broken : option string }.
Inductive body_read := ReadOver | ReadBroken (why : string) | ReadAll (payload : string).
(** [io.ReadAll(http.MaxBytesReader(w, r.Body, limit))] *)
Definition read_body (limit : Z) (b : raw_body) : body_read :=
  if limit <? len (rb_bytes b) then ReadOver
  else match rb_broken b with Some why => ReadBroken why | None => ReadAll (rb_bytes b) end.

Section Routes.
Context `{Os, MediaEnv} {M : Type} `{MediaStore M} `{MediaWriter M} (hash : string -> string).

Fixpoint bare_ext (exts : list string) : option string :=
  match exts with
  | [] => None
  | e :: exts =>
    let bare := trim_prefix "." e in
    if negb (str_empty bare) && negb (str_existsb (fun c => Ascii.eqb c "/" || Ascii.eqb c "\" || Ascii.eqb c ".") bare)
    then Some bare else bare_ext exts
  end.
Definition extForMime (mt : string) : string := default "bin" (bare_ext (ExtensionsByType mt)).

Definition parseHexSHA256 (s : string) : result string :=
  if negb (len s =? 64) then Err (ENew "rest: sha256 must be 64 hex characters")
  else match hex_decode s with
       | Some raw => if len raw =? 32 then Ok raw else Err (ENew "rest: sha256 is not valid hex")
       | None => Err (ENew "rest: sha256 is not valid hex")
       end.

(** [mediaRouteEntry]: the scope the token grants, or the refusal. *)
Definition mediaRouteEntry (flt : fault) (now : time) (a : Authenticator) (hdr : string) (t : TokenStore)
    : res media_reply (option string) * TokenStore :=
  let '(v, t) := auth_Verify hash flt now a hdr t in
  (match v with Err _ => Err (Refused 401 (-32099) "unauthorized") | Ok scope => Ok scope end, t).

(** [wired]: a media store was given to the server. *)
Definition handleMediaFetch (ctx : check goerr) (flt : fault) (now : time) (a : Authenticator) (wired : bool)
    (hdr shaHex : string) (s : TokenStore * M) : prog (media_reply * (TokenStore * M)) :=
  let '(entry, t) := mediaRouteEntry flt now a hdr s.1 in
  match entry with
  | Err r => ret (r, (t, s.2))
  | Ok _ =>
    if negb wired then ret (Refused 503 (-32601) "media fetch route not enabled on this daemon", (t, s.2))
    else
      match parseHexSHA256 shaHex with
      | Err _ => ret (Refused 400 (-32602) "sha256 must be 64 lowercase hex characters", (t, s.2))
      | Ok sha =>
        let! (obj, m) := Resolve ctx sha s.2 in
        match obj with
        | Err e =>
          ret (if is_not_exist e then Refused 404 (-32099) "media not found" else Refused 500 (-32603) "internal error", (t, m))
        | Ok obj =>
          let! f := Open (mo_Path obj) in
          match f with
          | Err ENOENT => ret (Refused 404 (-32099) "media not found", (t, m))
          | Err _ => ret (Refused 500 (-32603) "internal error", (t, m))
          | Ok _ =>
            let! info := Stat (mo_Path obj) in
            match info with
            | Err _ | Ok NDir => let! _ := Close in ret (Refused 500 (-32603) "internal error", (t, m))
            | Ok _ =>
              let! body := ReadFile (mo_Path obj) in
              let! _ := Close in
              ret (Streamed (mo_MimeDetected obj) (String (chr 34) "" +:+ shaHex +:+ String (chr 34) "") body, (t, m))
            end
          end
        end
      end
  end.

Definition handleMediaUpload (ctx : check goerr) (flt : fault) (now : time) (a : Authenticator) (wired : bool)
    (hdr : string) (body : raw_body) (s : TokenStore * M) : prog (media_reply * (TokenStore * M)) :=
  let '(entry, t) := mediaRouteEntry flt now a hdr s.1 in
  match entry with
  | Err r => ret (r, (t, s.2))
  | Ok granted =>
    if is_scoped a && negb (AllowedScope mediaUploadMethod None (Scope_MethodScope (scopeFromContext granted true)))
    then ret (Refused 403 (-32099) "scope insufficient for media.upload", (t, s.2))
    else if negb wired then ret (Refused 503 (-32601) "media upload route not enabled on this daemon", (t, s.2))
    else
      match read_body MaxMediaBytes body with
      | ReadOver => ret (Refused 413 (-32004) "media upload exceeds 16 MiB", (t, s.2))
      | ReadBroken why => ret (Refused 400 (-32700) ("read body: " +:+ why), (t, s.2))
      | ReadAll payload =>
        if len payload =? 0 then ret (Refused 400 (-32602) "media upload body is empty", (t, s.2))
        else
          let detected := DetectContentType payload in
          let ref := mkMediaRef (sha256 payload) detected (len payload) (extForMime detected) in
          let! (obj, m) := write_object ctx ref payload detected 0 s.2 in
          ret (match obj with
               | Err _ => Refused 500 (-32603) "internal error"
               | Ok obj => Uploaded (HexSHA256 (mo_Ref obj)) (mr_Size (mo_Ref obj))
               end, (t, m))
      end
  end.

End Routes.

(** ** rest_http.go: whether the server starts *)

Section Start.
Context `{UnicodeTables} (SplitHostPort : string -> option string) (ip_loopback : string -> bool) (hash : string -> string).

(** [strings.ToLower] of a host. *)
Context (ToLower : string -> string).

Definition isLoopback (host : string) : bool :=
  let l := ToLower host in
  if (l =? "")%string || (l =? "0.0.0.0")%string || (l =? "::")%string then false
  else if (l =? "127.0.0.1")%string || (l =? "::1")%string || (l =? "localhost")%string then true
  else ip_loopback host.

Definition warnIfPublicBind (addr trustProxy : string) : check goerr :=
  let host := default "" (SplitHostPort addr) in
  if isLoopback host then Ok tt
  else if negb (trustProxy =? "1")%string
  then Err (ENew ("WAD_REST_HTTP_ADDR=" +:+ go_quote addr +:+ " binds non-loopback (host=" +:+ go_quote host
                  +:+ "); set WAD_REST_TRUST_PROXY=1 to acknowledge that a TLS-terminating reverse proxy sits in front of the daemon"))
  else Ok tt.

(** [open_db]: what opening the token store at the path answers. *)
Definition buildAuthenticator (tokenDB token : string) (open_db : string -> check goerr) : result Authenticator :=
  if negb (str_empty tokenDB)
  then match open_db tokenDB with
       | Err e => Err (wrapc "rest tokens db" e)
       | Ok _ => Ok (ScopedAuth true)
       end
  else if str_empty token
  then Err (ENew "WAD_REST_HTTP_ADDR is set but neither WAD_REST_TOKEN nor WAD_REST_TOKEN_DB is configured; refusing to start REST adapter (would expose unauthenticated daemon)")
  else let* _ := ValidateTokenStrength token in Ok (NewEnvTokenAuth hash token).

(** [None]: no listener was asked for.  [options] is what [buildRESTOptions]
    answers, [listen] what binding does. *)
Definition startRESTHTTP (addr trustProxy tokenDB token : string) (open_db : string -> check goerr) (options : check goerr)
    (listen : string -> check goerr)
    : result (option Authenticator) :=
  if str_empty addr then Ok None
  else
    let* _ := warnIfPublicBind addr trustProxy in
    let* auth := buildAuthenticator tokenDB token open_db in
    let* _ := options in
    match listen addr with
    | Err e => Err (wrapc "rest" e)
    | Ok _ => Ok (Some auth)
    end.

End Start.

(** ** What the routes guarantee *)

Lemma parseHex_length s sha : parseHexSHA256 s = Ok sha -> String.length sha = 32%nat.
Proof.
  unfold parseHexSHA256. destruct (negb _); [done|]. destruct (hex_decode s) as [raw|]; [|done].
  destruct (len raw =? 32) eqn:E; [|done]. intros [= <-]. unfold len in E. bprop. lia.
Qed.

Lemma parseHex_hex s : String.length s = 32%nat -> parseHexSHA256 (hex_encode s) = Ok s.
Proof.
  intros Hs. unfold parseHexSHA256, len. rewrite hex_length, hex_roundtrip, Hs. reflexivity.
Qed.

Section Facts.
Context {os : Os} {mach : Machine} {env : MediaEnv} {up : Upstream} (root : string) (now wall : Z) (hash : string -> string).
#[local] Instance the_store : MediaStore times := adapter_store root now wall.
#[local] Instance the_writer : MediaWriter times := adapter_writer root now wall.

#[local] Abbreviation keeps m Q := (hoare (honest root) (honest root) m (fun a f => honest root f /\ Q a f)).

Lemma entry_refuses flt clock a hdr t r t' : mediaRouteEntry hash flt clock a hdr t = (Err r, t') -> r = Refused 401 (-32099) "unauthorized".
Proof. unfold mediaRouteEntry. destruct (auth_Verify _ _ _ _ _ _) as [[scope|e] t2]; [done|]. by intros [= <- _]. Qed.

(** Fetching leaves an honest cache honest and streams only what was asked for,
    whatever fails on the way. *)
Lemma h_handleMediaFetch ctx flt clock a wired hdr shaHex s :
  keeps (handleMediaFetch hash ctx flt clock a wired hdr shaHex s) (fun r f => match r.1 with
    | Streamed _ _ (Ok body) => parseHexSHA256 shaHex = Ok (sha256 body) | _ => True end).
Proof.
  unfold handleMediaFetch. destruct (mediaRouteEntry hash flt clock a hdr s.1) as [[scope|r] t] eqn:Ee.
  2: { apply entry_refuses in Ee as ->. by apply h_ret. }
  destruct wired; [|by apply h_ret]. cbn [negb]. destruct (parseHexSHA256 shaHex) as [sha|e] eqn:Ep; [|by apply h_ret].
  eapply h_bind; [apply (h_MediaAdapter_Resolve root now ctx sha s.2), (parseHex_length _ _ Ep)|].
  intros [[obj|e] m]; [|apply h_ret; intros f [Hf _]; split; [done|]; by destruct (is_not_exist e)].
  set (P := fun f => honest root f /\ served root obj f /\ mr_SHA256 (mo_Ref obj) = sha).
  assert (HP : forall f, P f -> honest root f) by by intros f [Hf _].
  assert (Hclose : forall (P2 : fs -> Prop) (r : media_reply) (Q : Prop), (forall f, P2 f -> honest root f /\ Q) ->
    hoare (honest root) P2 (let! _ := Close in ret (r, (t, m))) (fun x f => honest root f /\ x.1 = r /\ Q)).
  { intros P2 r Q HQ. eapply h_bind; [apply (h_query root _ _ P2); intros f Hf; by apply HQ|]. intros u. apply h_ret.
    intros f [Hf _]. destruct (HQ f Hf). done. }
  eapply h_bind; [eapply h_conseq; [apply (h_query root _ _ P HP)| |done]; intros f (H1 & H2 & H3 & _); by split_and!|].
  intros [u|e]; [|destruct e; apply h_ret; by intros f [[Hf _] _]].
  eapply h_bind; [eapply h_conseq; [apply (h_query root _ _ P HP)| |done]; by intros f [Hf _]|]. intros info.
  assert (Hbad : hoare (honest root) (fun f => P f /\ forall x, info = Ok x -> fs_stat (mo_Path obj) f = Ok x)
    (let! _ := Close in ret (Refused 500 (-32603) "internal error", (t, m)))
    (fun r f => honest root f /\ match r.1 with Streamed _ _ (Ok body) => (Ok sha : result string) = Ok (sha256 body) | _ => True end)).
  { eapply h_conseq; [apply (Hclose P _ True); by intros f [Hf _]|by intros f [Hf _]|]. by intros x f (Hf & -> & _). }
  assert (Hgood : hoare (honest root) (fun f => P f /\ forall x, info = Ok x -> fs_stat (mo_Path obj) f = Ok x)
    (let! body := ReadFile (mo_Path obj) in let! _ := Close in
     ret (Streamed (mo_MimeDetected obj) (String (chr 34) "" +:+ shaHex +:+ String (chr 34) "") body, (t, m)))
    (fun r f => honest root f /\ match r.1 with Streamed _ _ (Ok body) => (Ok sha : result string) = Ok (sha256 body) | _ => True end)).
  { eapply h_bind; [eapply h_conseq; [apply (h_query root _ _ P HP)| |done]; by intros f [Hf _]|]. intros body.
    eapply h_conseq; [apply (Hclose (fun f => P f /\ forall c, body = Ok c -> fs_read (mo_Path obj) f = Ok c) _ (forall c, body = Ok c -> sha256 c = sha))|done|].
    - intros f [(Hf & (c & Ec & Hc & _) & Hs) Hr]. split; [done|]. intros c' Eb. apply Hr in Eb. unfold fs_read in Eb.
      rewrite (stat_some _ _ (NFile c)) in Eb by done. injection Eb as <-. congruence.
    - intros x f (Hf & -> & Hb). split; [done|]. cbn [fst]. destruct body as [c|e]; [|done]. by rewrite (Hb c). }
  destruct info as [[|c|l]|e]; [exact Hbad|exact Hgood|exact Hgood|exact Hbad].
Qed.

(** Uploading stores what was sent under its hash, or nothing. *)
Lemma h_handleMediaUpload ctx flt clock a wired hdr body s :
  keeps (handleMediaUpload hash ctx flt clock a wired hdr body s) (fun r f => match r.1 with
    | Streamed _ _ _ => False
    | Uploaded sha size => sha = hex_encode (sha256 (rb_bytes body)) /\ 0 < len (rb_bytes body) <= MaxMediaBytes /\ rb_broken body = None
        /\ exists o, served root o f /\ mr_SHA256 (mo_Ref o) = sha256 (rb_bytes body) /\ size = mr_Size (mo_Ref o)
    | Refused _ _ _ => True
    end).
Proof.
  unfold handleMediaUpload. destruct (mediaRouteEntry hash flt clock a hdr s.1) as [[scope|r] t] eqn:Ee.
  2: { apply entry_refuses in Ee as ->. by apply h_ret. }
  destruct (_ && _); [by apply h_ret|]. destruct wired; [|by apply h_ret]. cbn [negb].
  unfold read_body. destruct (Z.ltb_spec MaxMediaBytes (len (rb_bytes body))) as [|Hle]; [by apply h_ret|].
  destruct (rb_broken body) as [why|]; [by apply h_ret|]. destruct (Z.eqb_spec (len (rb_bytes body)) 0) as [|Hne]; [by apply h_ret|].
  cbv zeta. eapply h_bind; [apply h_MediaAdapter_Write|]. intros [[o|e] m]; [|apply h_ret; by intros f [Hf _]].
  apply h_ret. intros f [Hf (_ & Hs & Hser)]. split; [done|]. cbn [fst mr_SHA256 mr_Size] in *.
  pose proof (len_nonneg (rb_bytes body)). split_and!; [|lia|done|done|].
  - unfold HexSHA256. by rewrite Hs.
  - exists o. split_and!; [by apply Hser|done|done].
Qed.

End Facts.

(** C18. Without authentication the media routes do nothing, in both modes.  A
    fetch needs an authenticated caller (the operator's one configured token,
    or an active token of the store, of any scope) and an upload one of scope
    send or above, which the operator has; otherwise the answer is 401, or 403
    for an upload, the store and the files are untouched and not one call of
    the system was made. *)
Theorem media_routes_gated {os : Os} {env : MediaEnv} {M} `{MediaStore M} `{MediaWriter M} (hash : string -> string) (ctx : check goerr)
    (flt : fault) (clock : time) (a : Authenticator) (wired : bool) (hdr : string) (s : TokenStore * M) (k : nat) (f : fs) :
  (forall shaHex,
     (exists who, authenticated hash clock a hdr s.1 who)
     \/ exists t', handleMediaFetch hash ctx flt clock a wired hdr shaHex s k f
                   = Done (Refused 401 (-32099) "unauthorized", (t', s.2)) k f)
  /\ (forall body,
     (exists who, authenticated hash clock a hdr s.1 who /\ ScopeSend <= grants who)
     \/ exists t' status msg, handleMediaUpload hash ctx flt clock a wired hdr body s k f
                   = Done (Refused status (-32099) msg, (t', s.2)) k f /\ (status = 401 \/ status = 403)).
Proof.
  unfold handleMediaFetch, handleMediaUpload, mediaRouteEntry.
  destruct (auth_Verify hash flt clock a hdr s.1) as [[who|e] tk] eqn:Ev.
  2: { split; [intros shaHex|intros body]; right; [by eexists|do 3 eexists; split; [reflexivity|by left]]. }
  apply auth_Verify_ok in Ev. split; [intros shaHex; left; by exists who|].
  intros body. destruct (is_scoped a && negb (AllowedScope mediaUploadMethod None _)) eqn:Ea.
  - right. do 3 eexists. split; [reflexivity|by right].
  - left. exists who. split; [done|]. destruct who as [scope|]; [|done].
    destruct Ev as (t & _ & Ev). destruct a as [|w]; [done|]. cbn [is_scoped andb scopeFromContext] in Ea.
    apply negb_false_iff in Ea. unfold AllowedScope in Ea.
    change (RequiredScope mediaUploadMethod None) with (Some ScopeSend) in Ea. by apply Z.leb_le in Ea.
Qed.

(** C34. What is uploaded can be fetched, and what is fetched is what was asked
    for.  Over an honest cache, whatever calls fail: a stream that a fetch
    sends to its end hashes to the name in the URL; an upload that is answered
    with a hash had between one byte and 16 MiB, and the hash is the one of
    what was sent; and when nothing fails, fetching that name with a token the
    server accepts streams bytes of that hash, and changes no file. *)
Theorem upload_then_fetch {mach : Machine} {env : MediaEnv} {up : Upstream} (root : string) (hash : string -> string) (f : fs) :
  honest root f ->
  (forall (os : Os) now wall ctx flt clock a wired hdr shaHex s mime etag body s' k k' f',
     handleMediaFetch (H1 := adapter_store root now wall) hash ctx flt clock a wired hdr shaHex s k f
     = Done (Streamed mime etag (Ok body), s') k' f' -> parseHexSHA256 shaHex = Ok (sha256 body))
  /\ (forall (os : Os) now wall ctx flt clock a wired hdr sent s sha size s' k k' f',
     handleMediaUpload (H2 := adapter_writer root now wall) hash ctx flt clock a wired hdr sent s k f
     = Done (Uploaded sha size, s') k' f' ->
     honest root f' /\ sha = hex_encode (sha256 (rb_bytes sent)) /\ 0 < len (rb_bytes sent) <= MaxMediaBytes
     /\ forall (os2 : Os) now2 wall2 flt2 clock2 a2 hdr2 s2 k2,
          @quietly os2 -> (forall j, @os_crash os2 j = false) -> sha256 (rb_bytes sent) <> zero_sha ->
          f' !! join root (str_take 2 sha) = Some NDir ->
          (forall e, no_byte "/" e = true -> f' !! object_path root (sha256 (rb_bytes sent)) e <> Some NDir) ->
          is_ok (auth_Verify hash flt2 clock2 a2 hdr2 s2.1).1 = true ->
          exists mime etag body s3 k3,
            handleMediaFetch (H := os2) (H1 := adapter_store root now2 wall2) hash (Ok tt) flt2 clock2 a2 true hdr2 sha s2 k2 f'
            = Done (Streamed mime etag (Ok body), s3) k3 f' /\ sha256 body = sha256 (rb_bytes sent)).
Proof.
  intros Hf. split.
  - intros os now wall ctx flt clock a wired hdr shaHex s mime etag body s' k k' f' E.
    pose proof (@h_handleMediaFetch os mach env up root now wall hash ctx flt clock a wired hdr shaHex s k f Hf) as Hh.
    unfold the_store in Hh. rewrite E in Hh. apply Hh.
  - intros os now wall ctx flt clock a wired hdr sent s sha size s' k k' f' E.
    pose proof (@h_handleMediaUpload os mach env root now wall hash ctx flt clock a wired hdr sent s k f Hf) as Hh.
    unfold the_writer in Hh. rewrite E in Hh. destruct Hh as [Hf' (-> & Hlen & _ & o & (c & Hc & Hs & _ & e & He & Hp) & Ho & _)].
    split_and!; [done|done|lia|lia|]. intros os2 now2 wall2 flt2 clock2 a2 hdr2 s2 k2 Hq Ha Hz Hdir Hnd Hok.
    pose proof (sha256_length (rb_bytes sent)) as Hl. set (sha := sha256 (rb_bytes sent)) in *.
    destruct (Resolve_quiet Hq Ha root sha f' Hl Hz Hdir Hf' Hnd e now2 He) as (p & c2 & Hp2 & Hs2 & Hr).
    { rewrite <- Ho, <- Hp. eauto. }
    unfold handleMediaFetch, mediaRouteEntry. destruct (auth_Verify hash flt2 clock2 a2 hdr2 s2.1) as [[scope|?] t2]; [|done].
    cbn [negb]. rewrite (parseHex_hex sha Hl). destruct (Hr s2.2 k2) as (obj & t3 & k3 & Er & E1 & _ & _).
    erewrite bind_done by exact Er. cbn beta iota. rewrite E1. assert (Est : fs_stat p f' = Ok (NFile c2)) by by apply stat_some.
    unfold Open, Stat, ReadFile, Close. erewrite bind_done by by apply ask_quiet. rewrite Est. cbn [res_map].
    erewrite bind_done by by apply ask_quiet. rewrite Est. erewrite bind_done by by apply ask_quiet.
    erewrite bind_done by by apply ask_quiet. unfold fs_read. rewrite Est. cbn beta iota. do 5 eexists. split; [reflexivity|done].
Qed.

(** The server listens only behind a lock.  When it starts at all, it is
    bound to a loopback address or the operator said that a proxy is in front,
    and whatever request its authenticator accepts carries a bearer token:
    an active one of the token store, or the configured one, which has at
    least 32 bytes.  Without either it refuses to start. *)
Theorem rest_listens_guarded {ut : UnicodeTables} (SplitHostPort : string -> option string) (ip_loopback : string -> bool) (hash ToLower : string -> string)
    (addr trustProxy tokenDB token : string) (open_db listen : string -> check goerr) (options : check goerr) (a : Authenticator) :
  startRESTHTTP SplitHostPort ip_loopback hash ToLower addr trustProxy tokenDB token open_db options listen = Ok (Some a) ->
  (isLoopback ip_loopback ToLower (default "" (SplitHostPort addr)) = true \/ trustProxy = "1")
  /\ forall flt now hdr s scope s', auth_Verify hash flt now a hdr s = (Ok scope, s') ->
       exists t, presented hdr = Some t
         /\ ((tokenDB = "" /\ MinTokenBytes <= len token /\ hash t = hash token /\ scope = None)
             \/ (tokenDB <> "" /\ exists sc, active_token hash now t sc s /\ scope = Some sc)).
Proof.
  unfold startRESTHTTP. destruct (str_empty addr); [done|]. intros E.
  apply res_bind_ok in E as ([] & Hw & E). apply res_bind_ok in E as (auth & Hb & E).
  apply res_bind_ok in E as ([] & _ & E). destruct (listen addr); [|done]. injection E as ->. split.
  - unfold warnIfPublicBind in Hw. destruct (isLoopback _ _ _); [by left|]. right.
    destruct (String.eqb_spec trustProxy "1"); [done|done].
  - intros flt now hdr s scope s' Ev. unfold buildAuthenticator in Hb. destruct (str_empty tokenDB) eqn:Et; cbn [negb] in Hb.
    + apply str_empty_true in Et. destruct (str_empty token) eqn:Ek; [done|].
      apply res_bind_ok in Hb as ([] & Hs & [= <-]). unfold ValidateTokenStrength in Hs. apply guard_ok in Hs as [Hs _]. bprop.
      unfold NewEnvTokenAuth in Ev. rewrite Ek in Ev. unfold auth_Verify, env_Verify in Ev. cbn [negb] in Ev.
      destruct (presented hdr) as [t|]; [|done]. destruct (String.eqb_spec (hash t) (hash token)) as [Eh|]; [|done].
      injection Ev as <- _. exists t. split; [done|]. by left.
    + apply str_empty_false in Et. destruct (open_db tokenDB); [|done]. injection Hb as <-.
      unfold auth_Verify, scoped_Verify in Ev. cbn [negb] in Ev. destruct (presented hdr) as [t|]; [|done].
      destruct (tokens_Verify hash flt now t s) as [[[sc id]|e] s2] eqn:Er; [|done]. injection Ev as <- _.
      apply tokens_Verify_ok in Er as [Hact _]. exists t. split; [done|]. right. split; [done|]. by exists sc.
Qed.

(** ** A demonstration *)

Definition demo_secret : string := "0123456789abcdef0123456789abcdef".
Definition demo_header : string := "Bearer 0123456789abcdef0123456789abcdef".
Definition demo_auth : Authenticator := NewEnvTokenAuth (fun s => s) demo_secret.
Definition demo_tokens : TokenStore := mkTokenStore ∅ ∅.
Definition demo_upload : outcome (media_reply * (TokenStore * times)) :=
  @handleMediaUpload demo_media times (@adapter_writer calm demo_machine demo_media "/c" 100 100) (fun s => s)
    (Ok tt) None 0 demo_auth true demo_header (mkBody "picture" None) (demo_tokens, ∅) 0%nat demo_cache.

Lemma rest_listens_guarded_witness : exists a,
  startRESTHTTP (H := ascii_only_tables) (fun _ => Some "127.0.0.1") (fun _ => false) (fun s => s) (fun s => s) "127.0.0.1:8080" "" "" demo_secret
    (fun _ => Ok tt) (Ok tt) (fun _ => Ok tt) = Ok (Some a) /\ exists t, presented demo_header = Some t /\ t = demo_secret.
Proof.
  destruct (startRESTHTTP (H := ascii_only_tables) (fun _ => Some "127.0.0.1") (fun _ => false) (fun s => s) (fun s => s) "127.0.0.1:8080" "" "" demo_secret
    (fun _ => Ok tt) (Ok tt) (fun _ => Ok tt)) as [[a|]|e] eqn:E; [|discriminate E..].
  exists a. split; [reflexivity|]. assert (Ha : a = demo_auth) by (vm_compute in E; injection E as <-; reflexivity). subst a.
  destruct (rest_listens_guarded _ _ _ _ _ _ _ _ _ _ _ _ E) as [_ Hv].
  destruct (Hv None 0 demo_header demo_tokens None demo_tokens eq_refl) as (t & Hp & [(_ & _ & Ht & _)|[Hn _]]); [by exists t|done].
Defined.

Lemma upload_then_fetch_witness : exists mime etag body s k f,
  handleMediaFetch (H := calm) (H1 := @adapter_store calm demo_machine demo_media demo_upstream "/c" 200 200) (fun s => s)
    (Ok tt) None 0 demo_auth true demo_header (hex_encode (demo_pad "picture")) (demo_tokens, ∅) 0%nat (end_of demo_upload)
  = Done (Streamed mime etag (Ok body), s) k f /\ demo_pad body = demo_pad "picture".
Proof.
  destruct (@upload_then_fetch demo_machine demo_media demo_upstream "/c" (fun s => s) demo_cache demo_honest) as [_ Hup].
  assert (Hr : match demo_upload with Done (Uploaded _ _, _) _ _ => true | _ => false end = true) by (vm_compute; reflexivity).
  destruct demo_upload as [[[? ? ?|? ? ?|sha size] s'] k' f'|f'] eqn:E; try discriminate Hr.
  destruct (Hup calm 100 100 (Ok tt) None 0 demo_auth true demo_header (mkBody "picture" None) (demo_tokens, ∅) sha size s' 0%nat k' f' E)
    as (_ & -> & _ & Hf).
  assert (Ef : end_of demo_upload = f') by (rewrite E; reflexivity).
  destruct (Hf calm 200 200 None 0 demo_auth demo_header (demo_tokens, ∅) 0%nat) as (mime & etag & body & s3 & k3 & Hg & Hb).
  - by intros j o.
  - by intros j.
  - vm_compute. discriminate.
  - rewrite <- Ef. vm_compute. reflexivity.
  - intros e He. rewrite <- Ef. intros Hd.
    assert (Hall : forallb (fun kv : string * node => match snd kv with NDir => String.eqb (fst kv) "/c" || String.eqb (fst kv) "/c/70" | _ => true end)
                     (map_to_list (end_of demo_upload)) = true) by (vm_compute; reflexivity).
    apply elem_of_map_to_list in Hd. rewrite forallb_forall in Hall. apply list_elem_of_In, Hall in Hd. cbn [fst snd] in Hd.
    set (n := hex_encode (demo_pad "picture")) in *.
    assert (Hlong : (String.length (join (join "/c" (str_take 2 n)) (str_drop 2 n)) <= String.length (object_path "/c" (demo_pad "picture") e))%nat).
    { unfold object_path, object_name, join. fold n. rewrite !str_app_length. lia. }
    apply orb_true_iff in Hd as [Hd|Hd]; apply String.eqb_eq in Hd.
    + change (sha256 (rb_bytes (mkBody "picture" None))) with (demo_pad "picture") in Hd. rewrite Hd in Hlong. revert Hlong. apply Nat.lt_nge. vm_compute. lia.
    + change (sha256 (rb_bytes (mkBody "picture" None))) with (demo_pad "picture") in Hd. rewrite Hd in Hlong. revert Hlong. apply Nat.lt_nge. vm_compute. lia.
  - reflexivity.
  - exists mime, etag, body, s3, k3, f'. split; [exact Hg|exact Hb].
Defined.
