(* ===== verification/Client.v ===== *)
(** * The command line client

    [cmd/wa]: the exit codes ([exitcodes.go], [run] of [main.go]), one call
    over the socket ([rpc.go]) and over HTTP ([transport_http.go]), and of the
    media commands ([cmd_media.go]) the checks of a daemon's answer and the
    loop that copies a file out of the daemon.  The connection, the HTTP client,
    [net/url] and the JSON text parser are parameters. *)
From S2P Require Import Prelude GoStd Errors Json Jid Values Envelope EventStream Transport Profile FileSys MediaCas MediaApi.

#[local] Open Scope string_scope.
#[local] Open Scope list_scope.
#[local] Open Scope Z_scope.

(** ** exitcodes.go *)

Definition exitGeneric : Z := 1.
Definition exitUnavailable : Z := 10.
Definition exitNotAllowed : Z := 11.
Definition exitRateLimited : Z := 12.
Definition exitUsage : Z := 64.
Definition exitConfig : Z := 78.

Definition rpcWaitTimeout : Z := -32003.
Definition rpcShutdownInProgress : Z := -32002.
Definition rpcOversizedMessage : Z := -32004.
Definition rpcBackpressure : Z := -32001.
Definition rpcUnauthorized : Z := -32099.
Definition rpcProtocolMismatch : Z := -32008.
Definition rpcNotPaired : Z := -32011.
Definition rpcNotAllowlisted : Z := -32012.
Definition rpcRateLimited : Z := -32013.
Definition rpcWarmupActive : Z := -32014.
Definition rpcInvalidJID : Z := -32015.
Definition rpcMessageTooLarge : Z := -32016.
Definition rpcNotOnWhatsApp : Z := -32017.
Definition rpcRecipientMoved : Z := -32020.
Definition rpcDisconnected : Z := -32018.
Definition rpcSessionWiped : Z := -32019.
Definition rpcIdempotencyKeyConflict : Z := -32108.
Definition rpcDraftState : Z := -32109.
Definition rpcMediaTooLargeUpload : Z := -32111.
Definition rpcMessageNotFound : Z := -32117.
Definition rpcWebhookNotFound : Z := -32118.
Definition rpcPolicyRefused : Z := -32100.
Definition rpcIdempotencyCollision : Z := -32101.
Definition rpcScheduleInPast : Z := -32112.
Definition rpcEmbeddingsDisabled : Z := -32113.
Definition rpcLabelsUnsupported : Z := -32114.
Definition rpcTranscriberNotConfigured : Z := -32115.
Definition rpcTranscribeFailed : Z := -32116.
Definition rpcRateLimitedHard : Z := -32200.
Definition rpcMediaTooLarge : Z := -32201.
Definition rpcUnsupportedMessageType : Z := -32300.
Definition rpcMediaNotCached : Z := -32301.
Definition rpcMessageUnknown : Z := -32302.
Definition rpcMessageIDAmbiguous : Z := -32303.
Definition rpcMethodNotFound : Z := -32601.
Definition rpcInvalidParams : Z := -32602.

Definition one_of (l : list Z) (code : Z) : bool := existsb (Z.eqb code) l.

Definition rpcCodeToExit (code : Z) : Z :=
  if one_of [rpcNotPaired; rpcDisconnected; rpcShutdownInProgress; rpcSessionWiped] code then exitUnavailable
  else if one_of [rpcNotAllowlisted; rpcPolicyRefused] code then exitNotAllowed
  else if one_of [rpcRateLimited; rpcRateLimitedHard; rpcWarmupActive; rpcWaitTimeout; rpcBackpressure] code
  then exitRateLimited
  else if one_of [rpcInvalidJID; rpcMessageTooLarge; rpcMediaTooLarge; rpcOversizedMessage; rpcInvalidParams;
                  rpcMethodNotFound; rpcScheduleInPast; rpcIdempotencyCollision; rpcUnsupportedMessageType;
                  rpcMessageUnknown; rpcMessageIDAmbiguous; rpcNotOnWhatsApp; rpcRecipientMoved; rpcMessageNotFound;
                  rpcDraftState; rpcWebhookNotFound; rpcMediaTooLargeUpload; rpcIdempotencyKeyConflict;
                  rpcUnauthorized] code then exitUsage
  else if one_of [rpcEmbeddingsDisabled; rpcLabelsUnsupported; rpcTranscriberNotConfigured; rpcProtocolMismatch] code
  then exitConfig
  else exitGeneric.

(** The keys of the map; the reasons are its values. *)
Definition deliberatelyGeneric : list Z :=
  [-32700; -32600; -32603; -32000; -32116; -32301; -32005; -32006; -32007].

Definition rpcHints : list (Z * string) :=
  [(rpcNotPaired, "link a device first: `wa pair`");
   (rpcNotAllowlisted, "grant access: `wa allow add <jid> --actions send`");
   (rpcRateLimited, "rate cap hit (per-second/minute/day); retry later");
   (rpcRateLimitedHard, "rate cap hit (per-second/minute/day); retry later");
   (rpcWarmupActive, "new-session warmup ramp active; sending opens up gradually");
   (rpcInvalidJID, "JID format: 5511999999999@s.whatsapp.net (or a group / @lid JID)");
   (rpcDisconnected, "daemon is not connected to WhatsApp; check `wa status` / `wa doctor`");
   (rpcSessionWiped, "this daemon wiped its own session; restart wad, then run `wa pair`");
   (rpcPolicyRefused, "refused by policy — check the allowlist action/scope or the edit window");
   (rpcScheduleInPast, "schedule fire-at must be in the future");
   (rpcEmbeddingsDisabled, "embeddings are off; start wad with an embedder configured");
   (rpcLabelsUnsupported, "labels require a WhatsApp Business session");
   (rpcTranscriberNotConfigured, "set WA_TRANSCRIBER=whispercpp|hear|groq on the daemon");
   (rpcTranscribeFailed, "transcription failed; the media still downloaded — check the transcriber backend");
   (rpcMediaTooLarge, "media exceeds the 16 MiB cap");
   (rpcUnsupportedMessageType, "that message has no downloadable media");
   (rpcMediaNotCached, "raw message not in the store; try `wa migrate` or re-sync the chat");
   (rpcMessageUnknown, "that message is not in the store, so delete-for-me cannot address it; re-sync the chat with `wa history --chat <jid>`");
   (rpcMessageIDAmbiguous, "that message id exists in multiple chats; retry with `--chat <jid>`");
   (rpcNotOnWhatsApp, "that number has no WhatsApp account; the pre-send deliverability gate rejected it");
   (rpcRecipientMoved, "that number is registered under a different JID (the error names it); resend to the one the server routes");
   (rpcMessageNotFound, "no such message id; list them with `wa thread get <chat>` or `wa messages list`");
   (rpcDraftState, "the draft is not in a state that allows this; check `wa draft get <id>`");
   (rpcWebhookNotFound, "no such endpoint id; list them with `wa webhook list`");
   (rpcMediaTooLargeUpload, "media exceeds the 16 MiB cap");
   (rpcIdempotencyKeyConflict, "that idempotency key was used with a different payload; reuse the original or mint a new key");
   (rpcUnauthorized, "remote auth failed; set a valid $WA_TOKEN for --remote calls");
   (rpcBackpressure, "the daemon is shedding load; back off and retry");
   (rpcProtocolMismatch, "`wa` and `wad` speak different protocol versions; upgrade whichever is older")].
Definition hintForRPCCode (code : Z) : string :=
  match List.find (fun kv => kv.1 =? code) rpcHints with Some kv => kv.2 | None => "" end.

(** ** main.go *)

Record rpcError := mkRpcError { re_Code : Z; re_Message : string }.
(** What a command returns: an error of its own, or one that ends the process
    with a code; either may wrap the daemon's. *)
Inductive cmdError :=
| CNew (msg : string)
| CRpc (e : rpcError)
| CWrap (ctx : string) (e : cmdError)
| CExit (code : Z) (e : cmdError).
Definition exitf (code : Z) (msg : string) : cmdError := CExit code (CNew msg).
Definition exiterr (code : Z) (e : cmdError) : cmdError := CExit code e.

Fixpoint as_exit (e : cmdError) : option Z :=
  match e with CExit code _ => Some code | CWrap _ e => as_exit e | _ => None end.
Fixpoint rpcErrCode (e : cmdError) : option Z :=
  match e with CRpc e => Some (re_Code e) | CWrap _ e | CExit _ e => rpcErrCode e | CNew _ => None end.
Fixpoint error_text (e : cmdError) : string :=
  match e with
  | CNew m => m
  | CRpc e => "rpc error " +:+ itoa (re_Code e) +:+ ": " +:+ re_Message e
  | CWrap ctx e => ctx +:+ ": " +:+ error_text e
  | CExit _ e => error_text e
  end.

(** [argvHasFlag] *)
Fixpoint argvHasFlag (args : list string) (name : string) : bool :=
  match args with
  | [] => false
  | a :: args =>
    if String.eqb a "--" then false
    else if String.eqb a ("--" +:+ name) then true
    else if has_prefix ("--" +:+ name +:+ "=") a
    then let val := str_drop (String.length ("--" +:+ name +:+ "=")) a in
         negb (String.eqb val "false") && negb (String.eqb val "0")
    else argvHasFlag args name
  end.

Definition appendStaleHintFor (err : option cmdError) (ver hint : string) : string :=
  match err with
  | None => ""
  | Some e =>
    let msg := error_text e in
    if negb (str_contains msg "unknown flag") && negb (str_contains msg "unknown command") then ""
    else "Build " +:+ ver +:+ ". If the flag/command is documented but unrecognized, your build may be stale."
         +:+ String nl "" +:+ "Upgrade: " +:+ hint
  end.

(** The lines [run] writes to stderr, and its exit code; [execute] is what
    cobra makes of the arguments. *)
Definition run (args : list string) (execute : option cmdError) (ver upgrade : string) : list string * Z :=
  if argvHasFlag args "version" then ([], 0)
  else match execute with
       | None => ([], 0)
       | Some err =>
         let hints := match rpcErrCode err with
                      | Some code => let h := hintForRPCCode code in if str_empty h then [] else ["hint: " +:+ h]
                      | None => match as_exit err with
                                | Some code => if code =? exitUnavailable
                                    then ["hint: is the daemon running? start it with `wad` (or `wad install-service`)"] else []
                                | None => []
                                end
                      end in
         let stale := appendStaleHintFor (Some err) ver upgrade in
         (error_text err :: hints ++ (if str_empty stale then [] else [stale]),
          match as_exit err with Some code => code | None => 1 end)
       end.

(** ** rpc.go *)

Record rpcResponse := mkResponse { rs_Result : RawMessage; rs_Error : option rpcError }.
Definition dec_rpcError (old : option rpcError) (j : json) : option (option rpcError) :=
  match j with
  | JNull => Some None
  | JObj m => code ← field dec_int 0 "code" m; msg ← field dec_str "" "message" m; Some (Some (mkRpcError code msg))
  | _ => None
  end.
Definition dec_raw_result (old : RawMessage) (j : json) : option RawMessage := Some (Some j).
Definition dec_rpcResponse (j : json) : option rpcResponse :=
  match j with
  | JObj m =>
    _ ← field dec_str "" "jsonrpc" m; _ ← field dec_int 0 "id" m;
    result ← field dec_raw_result None "result" m; err ← field dec_rpcError None "error" m;
    Some (mkResponse result err)
  | JNull => Some (mkResponse None None)
  | _ => None
  end.

(** [bufio.MaxScanTokenSize]: the buffer of a scanner, newline included. *)
Definition maxScanToken : Z := 64 * 1024.
Definition drop_cr (l : string) : string := if has_suffix l (String (chr 13) "") then str_take (String.length l - 1) l else l.
Inductive scan_end := ScanLine (l : string) | ScanTooLong | ScanClosed.
(** One [Scan] of a stream that then ends. *)
Definition scan (stream : string) : scan_end :=
  match cut_byte nl stream with
  | Some (l, _) => if maxScanToken <=? len l then ScanTooLong else ScanLine (drop_cr l)
  | None => if str_empty stream then ScanClosed
            else if maxScanToken <=? len stream then ScanTooLong else ScanLine (drop_cr stream)
  end.

Inductive called := Answer (r : RawMessage) | Refused (e : rpcError) | Broken (why : string).

Section Rpc.
Context `{Library, UnicodeTables}.

Definition unmarshal_response (line : string) : option rpcResponse := j ← json_parse line; dec_rpcResponse j.
Definition answer_of_line (line : string) : called :=
  match unmarshal_response line with
  | None => Broken "unmarshal response"
  | Some r => match rs_Error r with Some e => Refused e | None => Answer (rs_Result r) end
  end.

(** [call], once the request is written: [stream] is what the daemon sends. *)
Definition call (stream : string) : called :=
  match scan stream with
  | ScanTooLong => Broken "read response: bufio.Scanner: token too long"
  | ScanClosed => Broken "read response: connection closed"
  | ScanLine l => answer_of_line l
  end.
(** [callOn]: the first line, whatever its length, and what is left. *)
Definition callOn (stream : string) : called * string :=
  match cut_byte nl stream with
  | Some (l, rest) => (answer_of_line l, rest)
  | None => (if str_empty stream then Broken "read response: EOF" else answer_of_line stream, "")
  end.

(** [callAndClose] over the socket: what the dial, the greeting and the call
    came to; the result, or the exit code and the error. *)
Definition callAndClose (dialled : check string) (hello : string) (stream : string) : res (Z * cmdError) RawMessage :=
  match dialled with
  | Err why => Err (10, CNew why)
  | Ok _ =>
    match call hello with
    | Broken why => Err (1, CWrap "system.hello" (CNew why))
    | Refused e => Err (1, CRpc e)
    | Answer _ =>
      match call stream with
      | Broken why => Err (1, CNew why)
      | Refused e => Err (rpcCodeToExit (re_Code e), CRpc e)
      | Answer r => Ok r
      end
    end
  end.

(** ** transport_http.go *)

Record URL := mkURL { u_Scheme : string; u_Host : string; u_User : bool; u_RawQuery : string; u_Fragment : string; u_Path : string }.
Context (url_Parse : string -> option URL) (URL_String : URL -> string).

Definition trim_suffix (suf s : string) : string :=
  if has_suffix s suf then str_take (String.length s - String.length suf) s else s.

Definition normaliseRemoteURL (insecure : bool) (raw : string) : res string string :=
  let raw := trim_space raw in
  if str_empty raw then Err "--remote must be an absolute URL (https://host[/v1/rpc])"
  else match url_Parse raw with
  | None => Err "--remote URL parse"
  | Some u =>
    if str_empty (u_Host u) then Err "--remote must be an absolute URL with a host (https://host[/v1/rpc])"
    else if u_User u then Err "--remote URL must not include user:password (use $WA_TOKEN bearer auth)"
    else if negb (str_empty (u_RawQuery u)) then Err "--remote URL must not include a query string"
    else if negb (str_empty (u_Fragment u)) then Err "--remote URL must not include a fragment"
    else if negb (String.eqb (u_Scheme u) "https") && negb (String.eqb (u_Scheme u) "http")
    then Err ("--remote scheme " +:+ u_Scheme u +:+ " is not supported (use https:// or http://)")
    else if String.eqb (u_Scheme u) "http" && negb insecure
    then Err "--remote uses plaintext http://; set WA_REMOTE_INSECURE=1 to acknowledge (or use https://)"
    else let path := trim_suffix "/" (u_Path u) in
         if str_empty path || String.eqb path "/v1/rpc"
         then Ok (URL_String (mkURL (u_Scheme u) (u_Host u) false "" "" "/v1/rpc"))
         else Err ("--remote URL path must be empty or /v1/rpc (got " +:+ u_Path u +:+ ")")
  end.

Definition other_endpoint (path : string) (insecure : bool) (remoteURL : string) : res string string :=
  match normaliseRemoteURL insecure remoteURL with
  | Err e => Err e
  | Ok canonical => match url_Parse canonical with
                    | None => Err "parse remote URL"
                    | Some u => Ok (URL_String (mkURL (u_Scheme u) (u_Host u) (u_User u) (u_RawQuery u) (u_Fragment u) path))
                    end
  end.
Definition mediaUploadURL : bool -> string -> res string string := other_endpoint "/media/upload".
Definition mediaEndpointURL (sha : string) : bool -> string -> res string string := other_endpoint ("/media/" +:+ sha).

(** What comes back: no answer, or a status, the Location header and a body. *)
Inductive http_answer := NoAnswer (why : string) | HttpAnswer (status : Z) (location body : string).

Definition snippet_rune (r : Z) : Z :=
  if (r =? 10) || (r =? 9) || (r =? 32) then r else if is_control r || negb (is_print r) then 63 else r.
Definition snippet (b : string) : string :=
  map_runes snippet_rune (str_take 200 b) +:+ (if 200 <? len b then "..." else "").

Definition redirectGuidance (status : Z) (location : string) : string :=
  let loc := trim_space location in
  let plain := "remote redirected (HTTP " +:+ itoa status +:+ ") to " +:+ go_quote (snippet loc)
    +:+ "; refusing to follow — a redirected JSON-RPC POST would downgrade to GET or leak $WA_TOKEN. Point --remote at the final URL directly" in
  match url_Parse loc with
  | Some to => if String.eqb (u_Scheme to) "https" && negb (str_empty (u_Host to))
               then "remote redirected (HTTP " +:+ itoa status +:+ ") to " +:+ loc
                    +:+ " — the endpoint requires TLS; re-run with --remote https://" +:+ u_Host to
                    +:+ " (a JSON-RPC POST cannot follow a redirect without downgrading to GET or leaking $WA_TOKEN)"
               else plain
  | None => plain
  end.
Definition returned_status (status : Z) (body : string) : string :=
  "remote daemon returned HTTP " +:+ itoa status +:+ ": " +:+ snippet body.
Definition respBodyCap : Z := 2 ^ 24.
Definition tryDecodeEnvelope (body : string) : option rpcError := r ← unmarshal_response body; rs_Error r.

Definition callRemote (insecure : bool) (remoteURL : string) (reply : string -> http_answer) : res (Z * cmdError) RawMessage :=
  match normaliseRemoteURL insecure remoteURL with
  | Err e => Err (64, CNew e)
  | Ok endpoint =>
    match reply endpoint with
    | NoAnswer why => Err (10, CNew why)
    | HttpAnswer status location body =>
      if respBodyCap <? len body then Err (70, CNew ("remote response exceeds " +:+ itoa respBodyCap +:+ "-byte cap"))
      else if in_range 300 399 status then Err (64, CNew (redirectGuidance status location))
      else if status =? 401 then Err (64, CNew "remote auth failed: missing or invalid --token (or $WA_TOKEN); HTTP 401")
      else if 500 <=? status then Err (70, CNew (returned_status status body))
      else if 400 <=? status
      then match tryDecodeEnvelope body with
           | Some e => Err (rpcCodeToExit (re_Code e), CRpc e)
           | None => Err (64, CNew (returned_status status body))
           end
      else match unmarshal_response body with
           | None => Err (1, CNew ("unmarshal response (body=" +:+ go_quote (snippet body) +:+ ")"))
           | Some r => match rs_Error r with
                       | Some e => Err (rpcCodeToExit (re_Code e), CRpc e)
                       | None => Ok (rs_Result r)
                       end
           end
    end
  end.

Definition callRemoteUpload (insecure : bool) (remoteURL : string) (reply : string -> http_answer) : res (Z * cmdError) (string * Z) :=
  match mediaUploadURL insecure remoteURL with
  | Err e => Err (64, CNew e)
  | Ok endpoint =>
    match reply endpoint with
    | NoAnswer why => Err (10, CNew why)
    | HttpAnswer status location body =>
      let body := str_take (2 ^ 16) body in
      if negb (status =? 200) then
        if in_range 300 399 status then Err (64, CNew (redirectGuidance status location))
        else if status =? 401 then Err (64, CNew "remote auth failed: missing or invalid $WA_TOKEN; HTTP 401")
        else if status =? 413 then Err (64, CNew "media upload rejected: exceeds the daemon's 16 MiB ceiling; HTTP 413")
        else if 500 <=? status then Err (70, CNew (returned_status status body))
        else match tryDecodeEnvelope body with
             | Some e => Err (rpcCodeToExit (re_Code e), CRpc e)
             | None => Err (64, CNew (returned_status status body))
             end
      else match json_parse body with
           | Some (JObj m) =>
             match (_ ← field dec_str "" "schema" m; sha ← field dec_str "" "sha256" m; size ← field dec_int 0 "size" m; Some (sha, size)) with
             | Some (sha, size) => if str_empty sha then Err (1, CNew ("upload response missing sha256 (body=" +:+ go_quote (snippet body) +:+ ")")) else Ok (sha, size)
             | None => Err (1, CNew ("unmarshal upload response (body=" +:+ go_quote (snippet body) +:+ ")"))
             end
           | Some JNull => Err (1, CNew ("upload response missing sha256 (body=" +:+ go_quote (snippet body) +:+ ")"))
           | _ => Err (1, CNew ("unmarshal upload response (body=" +:+ go_quote (snippet body) +:+ ")"))
           end
    end
  end.

End Rpc.

(** ** cmd_media.go *)

Definition mediaFetchChunkBytes : Z := 512 * 1024.
Definition narrowingParams : list string := ["chat"; "sender"; "mediaType"; "caption"; "fromMe"; "since"; "until"].

Definition dec_applied (old : option (list string)) (j : json) : option (option (list string)) :=
  match j with JNull => Some None | _ => Some <$> dec_strs [] j end.
(** The members of an object, of [null] none; anything else does not decode. *)
Definition members_of (j : RawMessage) : option (list (string * json)) :=
  match j with Some (JObj m) => Some m | Some JNull => Some [] | _ => None end.
Definition comma (l : list string) : string := str_concat (List.tl (flat_map (fun x => [", "; x]) l)).

(** [sent]: the keys of the request's parameters. *)
Definition verifyFiltersApplied (result : RawMessage) (sent : list string) : check string :=
  let want := List.filter (fun k => existsb (String.eqb k) sent) narrowingParams in
  match want with
  | [] => Ok tt
  | _ =>
    match members_of result ≫= field dec_applied None "appliedFilters" with
    | None => Err ("media.list result is not a JSON object, cannot confirm the filters " +:+ comma want +:+ " were applied")
    | Some None => Err ("daemon did not confirm the filters this command sent (" +:+ comma want +:+ ")")
    | Some (Some got) =>
      match List.filter (fun k => negb (existsb (String.eqb k) got)) want with
      | [] => Ok tt
      | missing => Err ("daemon accepted but did not apply " +:+ comma missing +:+ " (sent " +:+ comma want +:+ ", applied "
                        +:+ (match got with [] => "none" | _ => comma got end) +:+ ")")
      end
    end
  end.

Definition dec_selection (old : option (string * string)) (j : json) : option (option (string * string)) :=
  match j with
  | JNull => Some None
  | JObj m =>
    let '(c0, i0) := match old with Some s => s | None => ("", "") end in
    c ← field dec_str c0 "chatJid" m; i ← field dec_str i0 "messageId" m; Some (Some (c, i))
  | _ => None
  end.
Definition validateMediaSelection (result : RawMessage) (chat messageID : string) : check string :=
  if str_empty chat then Ok tt
  else match members_of result ≫= field dec_selection None "selection" with
       | None => Err "media.download: invalid scoped response"
       | Some None => Err "media.download: daemon does not support chat-scoped responses; upgrade wad"
       | Some (Some (gotChat, gotID)) =>
         match Parse chat with
         | Err e => Err ("media.download: invalid requested chat: " +:+ Error e)
         | Ok requested =>
           if negb (String.eqb gotChat (JID_String requested)) || negb (String.eqb gotID messageID)
           then Err ("media.download: scoped response mismatch: requested " +:+ chat +:+ "/" +:+ messageID +:+ ", got "
                     +:+ gotChat +:+ "/" +:+ gotID)
           else Ok tt
         end
       end.

Record fetchMediaBytesResult := mkChunk { ck_Size : Z; ck_Offset : Z; ck_Bytes : string; ck_EOF : bool }.
Definition dec_chunk (m : list (string * json)) : option fetchMediaBytesResult :=
  size ← field dec_int 0 "size" m; offset ← field dec_int 0 "offset" m; bytes ← field dec_bytes "" "bytes" m;
  eof ← field dec_bool false "eof" m; Some (mkChunk size offset bytes eof).

Definition fetch_params (sha : string) (offset : Z) : json :=
  JObj [("length", JNum (itoa mediaFetchChunkBytes)); ("offset", JNum (itoa offset)); ("sha256", JStr sha)].

(** The flags of [media list]; the times are parsed. *)
Record listFlags := mkListFlags {
  lf_Limit : Z; lf_Chat : string; lf_Sender : string; lf_Type : string; lf_Caption : string;
  lf_FromMe : bool; lf_NotFromMe : bool; lf_Since : res cmdError Z; lf_Until : res cmdError Z }.
Definition opt_str (key v : string) : list (string * json) := if str_empty v then [] else [(key, JStr v)].
Definition opt_time (key : string) (t : Z) : list (string * json) := if 0 <? t then [(key, JNum (itoa t))] else [].
Definition media_list_body (f : listFlags) : res cmdError (list (string * json)) :=
  if lf_FromMe f && lf_NotFromMe f
  then Err (exiterr exitConfig (CNew "--from-me and --not-from-me are mutually exclusive"))
  else (let* since := lf_Since f in
        let* until := lf_Until f in
        Ok ([("limit", JNum (itoa (lf_Limit f)))]
            ++ opt_str "chat" (lf_Chat f) ++ opt_str "sender" (lf_Sender f) ++ opt_str "mediaType" (lf_Type f)
            ++ opt_str "caption" (lf_Caption f)
            ++ (if lf_FromMe f then [("fromMe", JBool true)]
                else if lf_NotFromMe f then [("fromMe", JBool false)] else [])
            ++ opt_time "since" since ++ opt_time "until" until))%wa.
(** What is printed, or the error. *)
Definition mediaListCmd (f : listFlags) (media_list : list (string * json) -> res (Z * cmdError) RawMessage) : res cmdError RawMessage :=
  match media_list_body f with
  | Err e => Err e
  | Ok body =>
    match media_list body with
    | Err (code, e) => Err (exiterr code e)
    | Ok result => match verifyFiltersApplied result (map fst body) with
                   | Err e => Err (exiterr exitConfig (CNew e))
                   | Ok _ => Ok result
                   end
    end
  end.

(** The loop of [fetchMediaSocket], over a daemon that answers [media.fetchBytes]
    and has a state: what was written to the output, and how it ended.  [None]:
    out of fuel. *)
Section Fetch.
Context {D : Type} (ask_daemon : json -> D -> called * D) (sha : string).

Fixpoint fetch_loop (n : nat) (offset : Z) (out : string) (d : D) : option (string * check (Z * cmdError) * D) :=
  match n with
  | O => None
  | S n =>
    match ask_daemon (fetch_params sha offset) d with
    | (Broken why, d) => Some (out, Err (exitGeneric, CNew why), d)
    | (Refused e, d) => Some (out, Err (rpcCodeToExit (re_Code e), CRpc e), d)
    | (Answer r, d) =>
      match members_of r ≫= dec_chunk with
      | None => Some (out, Err (exitGeneric, CNew "parse media.fetchBytes"), d)
      | Some chunk =>
        let n_bytes := len (ck_Bytes chunk) in
        if (MaxInboundMediaBytes <? ck_Size chunk) || (MaxInboundMediaBytes <? wrap64 (offset + n_bytes))
        then Some (out, Err (exitUsage, CNew ("media " +:+ sha +:+ " exceeds the " +:+ itoa MaxInboundMediaBytes +:+ "-byte inbound cap")), d)
        else
          let out := out +:+ ck_Bytes chunk in
          if ck_EOF chunk then Some (out, Ok tt, d)
          else if n_bytes =? 0
          then Some (out, Err (exitGeneric, CNew "media.fetchBytes: daemon returned an empty non-final chunk"), d)
          else fetch_loop n (wrap64 (offset + n_bytes)) out d
      end
    end
  end.

(** One turn for each byte under the cap, and one more. *)
Definition fetch_fuel (offset : Z) : nat := S (Z.to_nat (MaxInboundMediaBytes - offset)).
End Fetch.

Definition fetchMediaSocket {D} (ask_daemon : json -> D -> called * D) (sha : string) (d : D) :=
  fetch_loop ask_daemon sha (fetch_fuel 0) 0 "" d.


(** ** The daemon behind the connection *)

Section Daemon.
Context `{Os, UnicodeTables} {M : Type} `{MediaStore M}.

Record daemon := mkDaemon { dm_calls : nat; dm_files : fs; dm_state : dispatcher M }.

(** [media.fetchBytes], answered by the handler. *)
Definition serve_fetch (ctx : check goerr) (params : json) (d : daemon) : called * daemon :=
  match handleMediaFetchBytes ctx (Some params) (dm_state d) (dm_calls d) (dm_files d) with
  | Done (Ok r, st) k f => (Answer (Some (fetched_json r)), mkDaemon k f st)
  | Done (Err e, st) k f => (Refused (mkRpcError (RPCWire (Some e)).1 (RPCWire (Some e)).2), mkDaemon k f st)
  | Crashed f => (Broken "read response: EOF", mkDaemon (dm_calls d) f (dm_state d))
  end.
End Daemon.

(** ** Exit codes *)

(** The codes of [RPCWire], of an error no foreign code is in. *)
Definition wire_codes : list Z :=
  [wireMediaTooLarge; wireIdempotencyCollision; wirePolicyRefused; wireUpstreamError; wireUnsupportedMessageType;
   wireMediaNotCached; wireMessageUnknown; wireMessageIDAmbiguous; wireInternalError;
   -32011; -32012; -32013; -32200; -32014; -32015; -32016; -32017; -32020; -32018; -32019; -32112; -32113; -32114;
   -32115; -32116; -32003; -32601; -32602; -32118; -32117; -32000].

Lemma RPCWire_codes e : (forall c m, leaf e <> ECoded c m) -> one_of wire_codes (RPCWire (Some e)).1 = true.
Proof.
  intros Hf. unfold RPCWire. rewrite <- as_coded_leaf. pose proof (leaf_is_leaf e) as Hl.
  repeat match goal with |- context [if ?b then _ else _] =>
    lazymatch b with context [as_coded] => fail | _ => destruct b; [reflexivity|] end end.
  destruct (leaf e) as [m|s|r|d|rq cn|c m|pre e' post] eqn:El; try reflexivity.
  - by destruct r.
  - by destruct (Hf c m).
  - by destruct (Hl pre e' post).
Qed.

Lemma one_of_elem l c : one_of l c = true <-> c ∈ l.
Proof.
  unfold one_of. rewrite existsb_exists. setoid_rewrite Z.eqb_eq. setoid_rewrite <- list_elem_of_In. naive_solver.
Qed.

Definition exit_decided (c : Z) : bool :=
  one_of [exitGeneric; exitUnavailable; exitNotAllowed; exitRateLimited; exitUsage; exitConfig] (rpcCodeToExit c)
  && Bool.eqb (rpcCodeToExit c =? exitGeneric) (one_of deliberatelyGeneric c)
  && negb (one_of [rpcIdempotencyKeyConflict; rpcDraftState; rpcMediaTooLargeUpload] c).

(** C36. Every failure the daemon can report has a decided exit code.  For any
    code the daemon sends - of an error of its own, of the socket server, or of
    the REST server - the client gives one of its six exit codes, and the
    generic one exactly when the code is among those left generic on purpose.
    An error that carries a code of a foreign package is not covered.  The three codes that
    [errors.json] lists and the comments of the domain package promise for a
    reused key, a draft in the wrong state and an oversize upload are the code
    of no error of the daemon: their exit codes are dead. *)
Theorem exit_codes_decided (e : goerr) (c : Z) :
  (c = (RPCWire (Some e)).1 /\ (forall code m, leaf e <> ECoded code m))
    \/ c ∈ map fst errCodeName \/ c ∈ rest_codes ->
  rpcCodeToExit c ∈ [exitGeneric; exitUnavailable; exitNotAllowed; exitRateLimited; exitUsage; exitConfig]
  /\ (rpcCodeToExit c = exitGeneric <-> c ∈ deliberatelyGeneric)
  /\ c ∉ [rpcIdempotencyKeyConflict; rpcDraftState; rpcMediaTooLargeUpload].
Proof.
  intros Hc. assert (Hd : exit_decided c = true).
  { assert (Ha : forallb exit_decided (wire_codes ++ map fst errCodeName ++ rest_codes) = true) by (vm_compute; reflexivity).
    rewrite forallb_Forall_iff, Forall_forall in Ha. apply Ha. rewrite !elem_of_app.
    destruct Hc as [[-> Hf]|[Hc|Hc]]; [left; by apply one_of_elem, RPCWire_codes|auto..]. }
  unfold exit_decided in Hd. bprop. apply eqb_prop in H1. split_and!.
  - by apply one_of_elem.
  - by rewrite <- Z.eqb_eq, H1, one_of_elem.
  - rewrite <- one_of_elem. congruence.
Qed.
Lemma exit_codes_decided_witness :
  rpcCodeToExit (RPCWire (Some (wrapd domain.ErrDraftState "approve"))).1 = exitGeneric
  /\ rpcCodeToExit (-32099) <> exitGeneric.
Proof.
  destruct (exit_codes_decided (wrapd domain.ErrDraftState "approve") (-32603)) as (_ & [_ H] & _).
  { left. split; [reflexivity|]. intros code m. discriminate. }
  destruct (exit_codes_decided (wrapd domain.ErrDraftState "approve") (-32099)) as (_ & [H' _] & _).
  { right; right. apply one_of_elem. reflexivity. }
  split; [apply H, one_of_elem; reflexivity|].
  intros E. specialize (H' E). apply one_of_elem in H'. discriminate H'.
Defined.

(** ** The copy of a file *)

Lemma take_drop_length n m c : String.length (str_take n (str_drop m c)) = Nat.min n (String.length c - m).
Proof.
  rewrite <- (drop_length m c). generalize (str_drop m c). clear. induction n as [|n IH]; intros [|a s]; cbn; [done..|]. by rewrite IH.
Qed.
Lemma take_more n m c : str_take n c +:+ str_take m (str_drop n c) = str_take (n + m) c.
Proof. revert c. induction n as [|n IH]; intros [|a c]; cbn; [done|done|by destruct m|]. by rewrite IH. Qed.
Lemma take_all n c : (String.length c <= n)%nat -> str_take n c = c.
Proof. revert c. induction n as [|n IH]; intros [|a c]; cbn; try done; [lia|]. intros Hl. by rewrite IH by lia. Qed.

Lemma field_nil {A} (dec : A -> json -> option A) zero name : field dec zero name [] = Some zero.
Proof. done. Qed.
Lemma field_miss {A} (dec : A -> json -> option A) zero name k v m : key_matches name k = false ->
  field dec zero name ((k, v) :: m) = field dec zero name m.
Proof. intros E. unfold field. cbn [foldl fst]. by rewrite E. Qed.
Lemma field_hit {A} (dec : A -> json -> option A) zero name k v m a : key_matches name k = true -> dec zero v = Some a ->
  field dec zero name ((k, v) :: m) = field dec a name m.
Proof. intros E Ed. unfold field. cbn [foldl fst snd]. by rewrite E, Ed. Qed.
Ltac fields :=
  repeat first [rewrite field_nil; cbn [mbind option_bind]
               |rewrite field_miss by (vm_compute; reflexivity)
               |erewrite field_hit; [|vm_compute; reflexivity|first [by apply parse_itoa|apply b64_roundtrip|reflexivity]]].

Lemma take_all_Z z c : len c <= z -> str_take (Z.to_nat z) c = c.
Proof. unfold len. intros Hz. apply take_all. lia. Qed.

(** What the daemon prints, the client reads. *)
Lemma chunk_roundtrip (r : mediaFetchBytesResult) : 0 <= fr_Size r < 2 ^ 63 -> 0 <= fr_Offset r < 2 ^ 63 ->
  (members_of (Some (fetched_json r)) ≫= dec_chunk) = Some (mkChunk (fr_Size r) (fr_Offset r) (fr_Bytes r) (fr_EOF r)).
Proof.
  intros Hs Ho. unfold fetched_json, dec_chunk. cbn [members_of mbind option_bind]. fields. done.
Qed.
Lemma params_roundtrip sha offset : 0 <= offset < 2 ^ 63 ->
  parseParams dec_fetchParams (Some (fetch_params sha offset)) = Ok (mkFetchParams sha offset mediaFetchChunkBytes).
Proof. intros Ho. unfold parseParams, fetch_params, dec_fetchParams. fields. done. Qed.

Lemma max_media : MaxInboundMediaBytes = 52428800.
Proof. done. Qed.
Lemma chunk_bytes : MediaFetchBytesChunkBytes = 524288.
Proof. done. Qed.
Lemma same_chunk : MediaFetchBytesChunkBytes = mediaFetchChunkBytes.
Proof. done. Qed.
Lemma wrap_offset offset n : 0 <= offset <= MaxInboundMediaBytes -> 0 <= n < 2 ^ 62 -> wrap64 (offset + n) = offset + n.
Proof. rewrite max_media. intros Ho Hn. apply wrap64_id. lia. Qed.

(** However the daemon answers, the loop ends. *)
Lemma fetch_ends {D} (ask_daemon : json -> D -> called * D) sha n offset out d :
  (forall q d r d' ck, ask_daemon q d = (Answer r, d') -> (members_of r ≫= dec_chunk) = Some ck -> len (ck_Bytes ck) < 2 ^ 62) ->
  0 <= offset <= MaxInboundMediaBytes -> MaxInboundMediaBytes - offset < Z.of_nat n ->
  is_Some (fetch_loop ask_daemon sha n offset out d).
Proof.
  intros Hlen. revert offset out d. induction n as [|n IH]; intros offset out d Ho Hn; cbn [fetch_loop]; [lia|].
  destruct (ask_daemon _ d) as [[r|e|why] d'] eqn:Ea; [|done..].
  destruct (members_of r ≫= dec_chunk) as [ck|] eqn:Ec; [|done]. specialize (Hlen _ _ _ _ _ Ea Ec).
  pose proof (len_nonneg (ck_Bytes ck)). rewrite wrap_offset by lia.
  destruct (_ || _) eqn:E; [done|]. destruct (ck_EOF ck); [done|]. destruct (len (ck_Bytes ck) =? 0) eqn:E0; [done|].
  apply orb_false_iff in E as [_ E]. bprop. apply IH; lia.
Qed.

Section Rebuild.
Context {os : Os} {M : Type} {ms : MediaStore M}.
Hypothesis quiet : quietly.
Hypothesis alive : forall k, os_crash k = false.
Context (f : fs) (sha p c : string).
Hypothesis sha_length : String.length sha = 32%nat.
Hypothesis there : f !! p = Some (NFile c).
Hypothesis small : len c <= MaxInboundMediaBytes.
(** The store answers this object, as long as nothing else happens. *)
Hypothesis steady : forall m k, exists obj m' k', Resolve (Ok tt) sha m k f = Done (Ok obj, m') k' f
  /\ mo_Path obj = p /\ mr_Size (mo_Ref obj) = len c /\ mr_SHA256 (mo_Ref obj) = sha.

Definition window (offset : Z) : string := str_take (Z.to_nat MediaFetchBytesChunkBytes) (str_drop (Z.to_nat offset) c).
Definition window_answer (offset : Z) : mediaFetchBytesResult :=
  mkFetched mediaFetchBytesSchema (hex_encode sha) (len c) offset (window offset) (len c <=? offset + len (window offset)).

Lemma window_length offset : 0 <= offset <= len c -> len (window offset) = Z.min MediaFetchBytesChunkBytes (len c - offset).
Proof. intros Ho. unfold window, len in *. rewrite take_drop_length. rewrite ?chunk_bytes in *. lia. Qed.

Lemma read_quiet want offset k : exists k', readMediaAt p want offset k f = Done (Ok (str_take (Z.to_nat want) (str_drop (Z.to_nat offset) c))) k' f.
Proof.
  assert (Es : fs_stat p f = Ok (NFile c)) by by apply stat_some.
  unfold readMediaAt, Open, ReadFile, Close. rewrite (bind_done _ _ _ _ _ _ _ (ask_quiet quiet alive _ _ k f)), Es. cbn [res_map].
  rewrite !(bind_done _ _ _ _ _ _ _ (ask_quiet quiet alive _ _ _ f)). unfold fs_read. rewrite Es. eexists. reflexivity.
Qed.

Lemma serve_window offset k (st : dispatcher M) : 0 <= offset <= len c -> is_Some (d_media st) ->
  exists k' st', is_Some (d_media st') /\ serve_fetch (Ok tt) (fetch_params (hex_encode sha) offset) (mkDaemon k f st)
    = (Answer (Some (fetched_json (window_answer offset))), mkDaemon k' f st').
Proof.
  intros Ho [m Hm]. assert (Hb : 0 <= offset < 2 ^ 63) by (rewrite max_media in small; lia).
  unfold serve_fetch, handleMediaFetchBytes. cbn [dm_state dm_calls dm_files]. rewrite Hm, params_roundtrip by done.
  cbn [fp_SHA256 fp_Offset fp_Length]. rewrite parse_hex by done. rewrite (proj2 (Z.ltb_ge offset 0)) by lia. change (mediaFetchChunkBytes <? 0) with false. cbn [orb].
  destruct (steady m k) as (obj & m' & k1 & Er & Hp & Hs & Hsha). rewrite (bind_done _ _ _ _ _ _ _ Er), Hp, Hs.
  unfold HexSHA256. rewrite Hsha. rewrite (proj2 (Z.ltb_ge _ _) small). destruct (len c <=? offset) eqn:Eo.
  - bprop. exists k1, (with_media m' st). split; [done|]. unfold ret, window_answer. pose proof (window_length offset Ho) as Hw.
    rewrite chunk_bytes in Hw. assert (Ew : window offset = "") by (apply len_zero; lia). rewrite Ew. change (len "") with 0.
    rewrite (proj2 (Z.leb_le _ _)) by lia. done.
  - bprop. change ((mediaFetchChunkBytes =? 0) || (MediaFetchBytesChunkBytes <? mediaFetchChunkBytes)) with false. cbn [orb].
    set (want := if len c - offset <? mediaFetchChunkBytes then len c - offset else mediaFetchChunkBytes).
    destruct (read_quiet want offset k1) as [k2 Ek]. rewrite (bind_done _ _ _ _ _ _ _ Ek).
    assert (Ew : str_take (Z.to_nat want) (str_drop (Z.to_nat offset) c) = window offset).
    { unfold want, window. rewrite same_chunk.
      destruct (len c - offset <? mediaFetchChunkBytes) eqn:E; [|done]. bprop. unfold len in *.
      rewrite !take_all; [done|..]; rewrite drop_length; lia. }
    rewrite Ew. exists k2, (with_media m' st). split; [done|]. unfold ret, window_answer. rewrite wrap64_id; [done|].
    pose proof (len_nonneg (window offset)). pose proof (window_length offset Ho) as Hw.
    rewrite chunk_bytes in Hw. rewrite max_media in *. lia.
Qed.

Lemma take_window a m s : (a <= String.length s)%nat ->
  str_take a s +:+ str_take m (str_drop a s) = str_take (a + String.length (str_take m (str_drop a s))) s.
Proof.
  intros Ha. rewrite take_more, take_drop_length. destruct (Nat.le_gt_cases m (String.length s - a)).
  - by rewrite Nat.min_l.
  - rewrite !take_all; [done|lia..].
Qed.
Lemma window_next offset : 0 <= offset <= len c ->
  str_take (Z.to_nat offset) c +:+ window offset = str_take (Z.to_nat (offset + len (window offset))) c.
Proof.
  intros Ho. unfold window, len in *. rewrite take_window by lia. f_equal. rewrite Z2Nat.inj_add, Nat2Z.id by lia. reflexivity.
Qed.

(** As many calls as chunks. *)
Lemma loop_rebuilds n : forall offset k (st : dispatcher M), 0 <= offset <= len c -> is_Some (d_media st) ->
  (len c - offset) / MediaFetchBytesChunkBytes < Z.of_nat n ->
  exists d, fetch_loop (serve_fetch (Ok tt)) (hex_encode sha) n offset (str_take (Z.to_nat offset) c) (mkDaemon k f st) = Some (c, Ok tt, d)
    /\ dm_files d = f.
Proof.
  rewrite ?chunk_bytes. induction n as [|n IH]; intros offset k st Ho Hm Hn.
  { exfalso. assert (0 <= (len c - offset) / 524288) by (apply Z.div_pos; lia). lia. }
  cbn [fetch_loop]. destruct (serve_window offset k st Ho Hm) as (k' & st' & Hm' & ->).
  rewrite chunk_roundtrip; [|pose proof (len_nonneg c); rewrite max_media in small; cbn [fr_Size window_answer]; lia
                            |rewrite max_media in small; cbn [fr_Offset window_answer]; lia].
  cbn [fr_Size fr_Offset fr_Bytes fr_EOF window_answer ck_Size ck_Bytes ck_EOF].
  pose proof (window_length offset Ho) as Hw. rewrite chunk_bytes in Hw.
  rewrite wrap_offset by (rewrite ?max_media in *; lia). rewrite (proj2 (Z.ltb_ge _ _) small).
  rewrite (proj2 (Z.ltb_ge _ _)) by lia. cbn [orb].
  rewrite (window_next offset Ho). destruct (len c <=? offset + len (window offset)) eqn:Ee.
  - bprop. exists (mkDaemon k' f st'). split; [|done]. by rewrite take_all_Z.
  - bprop. rewrite (proj2 (Z.eqb_neq _ _)) by lia. rewrite Z.min_l in Hw by lia. rewrite Hw. apply IH; [lia|done|].
    assert (E : len c - offset = (len c - (offset + 524288)) + 1 * 524288) by lia. rewrite E, Z.div_add in Hn by lia. lia.
Qed.
End Rebuild.

(** C35. Copying a file out of the daemon: whatever answers, the client's loop
    ends, with at most one call for each byte under the cap.  And when the
    daemon is the handler over an honest cache that has an object for this
    hash, and nothing fails, the loop ends without an error, with as many calls
    as there are chunks, and what it wrote is the file, whole and in order,
    whose hash is the one asked for; the files stay as they are. *)
Theorem media_fetch_rebuilds (os : Os) (mach : Machine) (env : MediaEnv) (up : Upstream) (root sha e : string)
    (now wall : Z) (f : fs) (n k : nat) (st : dispatcher times) :
  (forall (D : Type) (ask_daemon : json -> D -> called * D) sha (d : D),
     (forall q d r d' ck, ask_daemon q d = (Answer r, d') -> (members_of r ≫= dec_chunk) = Some ck -> len (ck_Bytes ck) < 2 ^ 62) ->
     is_Some (fetchMediaSocket ask_daemon sha d))
  /\ (quietly -> (forall j, os_crash j = false) -> String.length sha = 32%nat -> sha <> zero_sha ->
      f !! join root (str_take 2 (hex_encode sha)) = Some NDir -> honest root f ->
      (forall e, no_byte "/" e = true -> f !! object_path root sha e <> Some NDir) ->
      (forall p c, f !! p = Some (NFile c) -> len c <= MaxInboundMediaBytes) ->
      no_byte "/" e = true -> is_Some (f !! object_path root sha e) -> is_Some (d_media st) ->
      let _ := adapter_store root now wall in
      exists c, sha256 c = sha /\ (exists p, f !! p = Some (NFile c))
        /\ (len c / MediaFetchBytesChunkBytes < Z.of_nat n ->
            exists d, fetch_loop (serve_fetch (Ok tt)) (hex_encode sha) n 0 "" (mkDaemon k f st) = Some (c, Ok tt, d) /\ dm_files d = f)
        /\ exists d, fetchMediaSocket (serve_fetch (Ok tt)) (hex_encode sha) (mkDaemon k f st) = Some (c, Ok tt, d) /\ dm_files d = f).
Proof.
  split.
  - intros D ask_daemon s d Hlen. apply fetch_ends; [exact Hlen|rewrite max_media; lia|]. unfold fetch_fuel. rewrite max_media. lia.
  - intros Hq Ha Hl Hz Hdir Hh Hnd Hsmall He Hx Hm. cbv zeta.
    destruct (Resolve_quiet Hq Ha root sha f Hl Hz Hdir Hh Hnd e now He Hx) as (p & c & Hp & Hc & Hr).
    assert (Hg : forall n, len c / MediaFetchBytesChunkBytes < Z.of_nat n ->
      exists d, fetch_loop (@serve_fetch _ times (adapter_store root now wall) (Ok tt)) (hex_encode sha) n 0 "" (mkDaemon k f st) = Some (c, Ok tt, d) /\ dm_files d = f).
    { intros m Hmn. change "" with (str_take (Z.to_nat 0) c).
      apply (@loop_rebuilds os times (adapter_store root now wall) Hq Ha f sha p c Hl Hp (Hsmall p c Hp)).
      - intros t j. destruct (Hr t j) as (obj & t' & k' & E & H1 & H2 & H3). exists obj, t', k'. by split_and!.
      - pose proof (len_nonneg c). lia.
      - done.
      - by rewrite Z.sub_0_r. }
    exists c. split_and!; [done|by exists p|apply Hg|]. apply Hg.
    pose proof (Hsmall p c Hp) as Hs. unfold fetch_fuel. rewrite max_media in *. rewrite ?chunk_bytes.
    assert (len c / 524288 <= len c) by (apply Z.div_le_upper_bound; pose proof (len_nonneg c); lia). lia.
Qed.

Definition demo_filled : fs := end_of (@run_call demo_machine demo_media "/c" calm demo_upstream 1000 1000 ∅ (Ok tt) (CallDownload zeroJID "ID" false) 0%nat demo_cache).
Lemma demo_filled_honest : @honest demo_media "/c" demo_filled.
Proof.
  apply (@uses_honest demo_machine demo_media "/c" ltac:(done) demo_cache); [|exact demo_honest].
  apply (@uses_call demo_machine demo_media "/c" demo_cache demo_cache); [constructor|done].
Qed.
Lemma demo_filled_files p x : demo_filled !! p = Some x -> (p, x) ∈ [(demo_name "picture" "png", NFile "picture"); ("/c/70", NDir); ("/c", NDir)].
Proof.
  intros E. apply elem_of_map_to_list in E. replace (map_to_list demo_filled) with
    [(demo_name "picture" "png", NFile "picture"); ("/c/70", NDir); ("/c", NDir)] in E by (vm_compute; reflexivity). done.
Qed.

Lemma media_fetch_rebuilds_witness : exists c, demo_pad c = demo_pad "picture" /\ (exists d,
  fetchMediaSocket (@serve_fetch calm times (@adapter_store calm demo_machine demo_media demo_upstream "/c" 2000 2000) (Ok tt))
    (hex_encode (demo_pad "picture")) (mkDaemon 0%nat demo_filled (mkDispatcher (Some ∅) None None)) = Some (c, Ok tt, d)).
Proof.
  destruct (@media_fetch_rebuilds calm demo_machine demo_media demo_upstream "/c" (demo_pad "picture") "png" 2000 2000
    demo_filled 1%nat 0%nat (mkDispatcher (Some ∅) None None)) as [_ H].
  destruct H as (c & Hc & _ & _ & d & Hd & _); [done|done|reflexivity|discriminate|vm_compute; reflexivity|exact demo_filled_honest| | |done| |done|].
  - intros e He E. apply demo_filled_files in E. rewrite !elem_of_cons, elem_of_nil in E. destruct E as [[= _ E]|[[= E]|[[= E]|[]]]]; try done;
      apply (f_equal String.length) in E; unfold object_path, join in E; rewrite !str_app_length in E; vm_compute in E; lia.
  - intros p c E. apply demo_filled_files in E. rewrite !elem_of_cons, elem_of_nil in E.
    destruct E as [[= _ ->]|[[= _ E]|[[= _ E]|[]]]]; try done; vm_compute; discriminate.
  - vm_compute. eexists. reflexivity.
  - exists c. split; [exact Hc|]. by exists d.
Defined.

(** ** The checks of an answer *)

(** The narrowing flags that were given. *)
Definition asked (f : listFlags) : list string :=
  map fst (List.filter snd
    [("chat", negb (str_empty (lf_Chat f))); ("sender", negb (str_empty (lf_Sender f)));
     ("mediaType", negb (str_empty (lf_Type f))); ("caption", negb (str_empty (lf_Caption f)));
     ("fromMe", lf_FromMe f || lf_NotFromMe f);
     ("since", match lf_Since f with Ok t => 0 <? t | Err _ => false end);
     ("until", match lf_Until f with Ok t => 0 <? t | Err _ => false end)]).

Lemma body_asks f body : media_list_body f = Ok body -> forall k, k ∈ asked f -> k ∈ map fst body /\ k ∈ narrowingParams.
Proof.
  unfold media_list_body. destruct (_ && _); [done|]. intros E. apply res_bind_ok in E as (since & Es & E).
  apply res_bind_ok in E as (until & Eu & E). injection E as <-. intros k Hk. unfold asked in Hk. rewrite Es, Eu in Hk.
  apply list_elem_of_In, in_map_iff in Hk as ([k' b] & <- & Hk). apply filter_In in Hk as [Hk Hb]. cbn [fst snd] in *. subst b.
  assert (Hopt : forall key v, negb (str_empty v) = true -> opt_str key v = [(key, JStr v)]).
  { intros key v Hv. unfold opt_str. by apply negb_true_iff in Hv as ->. }
  assert (Htime : forall key t, (0 <? t) = true -> opt_time key t = [(key, JNum (itoa t))]).
  { intros key t Ht. unfold opt_time. by rewrite Ht. }
  assert (Hdir : lf_FromMe f || lf_NotFromMe f = true -> exists b, (if lf_FromMe f then [("fromMe", JBool true)]
    else if lf_NotFromMe f then [("fromMe", JBool false)] else []) = [("fromMe", JBool b)]).
  { intros Hd. destruct (lf_FromMe f); [by eexists|]. cbn in Hd. rewrite Hd. by eexists. }
  assert (Hseg : forall (x : string * json) (l2 l3 l4 l5 l6 l7 l8 : list (string * json)), In k' (map fst l2) \/ In k' (map fst l3) \/ In k' (map fst l4)
    \/ In k' (map fst l5) \/ In k' (map fst l6) \/ In k' (map fst l7) \/ In k' (map fst l8) ->
    k' ∈ map fst (x :: l2 ++ l3 ++ l4 ++ l5 ++ l6 ++ l7 ++ l8)).
  { intros x l2 l3 l4 l5 l6 l7 l8 Hl. apply list_elem_of_In. cbn [map]. right. rewrite !List.map_app, !in_app_iff. tauto. }
  split; [apply Hseg; clear Hseg|apply list_elem_of_In; cbn in Hk |- *; intuition congruence].
  cbn [In] in Hk. destruct Hk as [[= <- Hv]|[[= <- Hv]|[[= <- Hv]|[[= <- Hv]|[[= <- Hv]|[[= <- Hv]|[[= <- Hv]|[]]]]]]]].
  - rewrite (Hopt _ _ Hv). left. by left.
  - rewrite (Hopt _ _ Hv). right; left. by left.
  - rewrite (Hopt _ _ Hv). do 2 right; left. by left.
  - rewrite (Hopt _ _ Hv). do 3 right; left. by left.
  - destruct (Hdir Hv) as [b ->]. do 4 right; left. by left.
  - rewrite (Htime _ _ Hv). do 5 right; left. by left.
  - rewrite (Htime _ _ Hv). do 6 right. by left.
Qed.

Lemma verify_confirms result sent : verifyFiltersApplied result sent = Ok tt -> forall k, k ∈ narrowingParams -> k ∈ sent ->
  exists got, members_of result ≫= field dec_applied None "appliedFilters" = Some (Some got) /\ k ∈ got.
Proof.
  intros E k Hk Hs.
  assert (Hex : forall (l : list string) k, existsb (String.eqb k) l = true <-> k ∈ l).
  { intros l q. rewrite existsb_exists. setoid_rewrite String.eqb_eq. setoid_rewrite <- list_elem_of_In. naive_solver. }
  assert (Hw : k ∈ List.filter (fun k => existsb (String.eqb k) sent) narrowingParams).
  { apply list_elem_of_In, filter_In. split; [by apply list_elem_of_In|by apply Hex]. }
  unfold verifyFiltersApplied in E. destruct (List.filter _ narrowingParams) as [|w want]; [by apply not_elem_of_nil in Hw|].
  destruct (_ ≫= _) as [[got|]|]; [|done|done]. exists got. split; [done|].
  destruct (List.filter (fun k => negb (existsb (String.eqb k) got)) (w :: want)) as [|m missing] eqn:Em; [|done].
  destruct (existsb (String.eqb k) got) eqn:Eg; [by apply Hex|]. exfalso.
  assert (Hf : k ∈ List.filter (fun k => negb (existsb (String.eqb k) got)) (w :: want)).
  { apply list_elem_of_In, filter_In. split; [by apply list_elem_of_In|by rewrite Eg]. }
  rewrite Em in Hf. by apply not_elem_of_nil in Hf.
Qed.

(** A listing of media is printed only as narrow as it was asked for:
    whatever the daemon answers, rows come out only if its answer names every
    filter that was given as applied; and an answer that a daemon without the
    guard gives is refused. *)
Theorem filters_confirmed (f : listFlags) (media_list : list (string * json) -> res (Z * cmdError) RawMessage) (result : RawMessage) :
  mediaListCmd f media_list = Ok result ->
  (exists body, media_list_body f = Ok body /\ media_list body = Ok result)
  /\ forall k, k ∈ asked f ->
       exists got, members_of result ≫= field dec_applied None "appliedFilters" = Some (Some got) /\ k ∈ got.
Proof.
  unfold mediaListCmd. destruct (media_list_body f) as [body|] eqn:Eb; [|done].
  destruct (media_list body) as [r|[code e]] eqn:El; [|done].
  destruct (verifyFiltersApplied r (map fst body)) as [[]|] eqn:Ev; [|done]. intros [= <-].
  split; [by exists body|]. intros k Hk. destruct (body_asks f body Eb k Hk) as [H1 H2]. by eapply verify_confirms.
Qed.
Definition demo_flags : listFlags := mkListFlags 50 "" "5511999990000@s.whatsapp.net" "" "" false false (Ok 0) (Ok 0).
Definition demo_listing : RawMessage := Some (JObj [("media", JArr []); ("appliedFilters", JArr [JStr "sender"])]).
Lemma filters_confirmed_witness : exists got,
  members_of demo_listing ≫= field dec_applied None "appliedFilters" = Some (Some got) /\ "sender" ∈ got.
Proof.
  destruct (filters_confirmed demo_flags (fun _ => Ok demo_listing) demo_listing) as [_ H]; [vm_compute; reflexivity|].
  apply H. vm_compute. apply elem_of_cons. by left.
Defined.

(** A scoped download is taken only for the message it asked for. *)
Lemma selection_matches result chat id : validateMediaSelection result chat id = Ok tt -> chat <> "" ->
  exists j, Parse chat = Ok j /\ members_of result ≫= field dec_selection None "selection" = Some (Some (JID_String j, id)).
Proof.
  unfold validateMediaSelection. intros E Hc. apply str_empty_false in Hc. rewrite Hc in E.
  destruct (_ ≫= _) as [[[c i]|]|]; [|done|done]. destruct (Parse chat) as [j|]; [|done].
  destruct (_ || _) eqn:Eo; [done|]. bprop. apply String.eqb_eq in H, H0. exists j. by subst.
Qed.

(** ** The transports *)

Section Remote.
Context `{Library, UnicodeTables} (url_Parse : string -> option URL) (URL_String : URL -> string).

(** A remote call trusts no more than it says: an endpoint is built only
    from an https URL, or a plaintext one when that was allowed, without
    credentials, query or fragment, and its path is the RPC path; otherwise the
    call is a usage error whatever is out there; and a result comes only from
    that endpoint, with a status below 300, within the cap, and without an
    error in it: a redirect is never followed. *)
Theorem remote_call_gated (insecure : bool) (remoteURL : string) :
  match normaliseRemoteURL url_Parse URL_String insecure remoteURL with
  | Ok endpoint => exists u, url_Parse (trim_space remoteURL) = Some u
      /\ (u_Scheme u = "https" \/ u_Scheme u = "http" /\ insecure = true)
      /\ u_Host u <> "" /\ u_User u = false /\ u_RawQuery u = "" /\ u_Fragment u = ""
      /\ endpoint = URL_String (mkURL (u_Scheme u) (u_Host u) false "" "" "/v1/rpc")
  | Err e => forall reply, callRemote url_Parse URL_String insecure remoteURL reply = Err (64, CNew e)
  end
  /\ forall reply r, callRemote url_Parse URL_String insecure remoteURL reply = Ok r ->
       exists endpoint status location body, normaliseRemoteURL url_Parse URL_String insecure remoteURL = Ok endpoint
         /\ reply endpoint = HttpAnswer status location body /\ status < 300 /\ len body <= respBodyCap
         /\ unmarshal_response body = Some (mkResponse r None).
Proof.
  split.
  - destruct (normaliseRemoteURL url_Parse URL_String insecure remoteURL) as [endpoint|e] eqn:E.
    2: { intros reply. unfold callRemote. by rewrite E. }
    unfold normaliseRemoteURL in E. cbv zeta in E.
    repeat match type of E with (if ?b then Err _ else _) = _ => destruct b eqn:?; [discriminate E|] end.
    destruct (url_Parse (trim_space remoteURL)) as [u|]; [|done].
    repeat match type of E with (if ?b then Err _ else _) = _ => destruct b eqn:?; [discriminate E|] end.
    destruct (_ || _); [|done]. injection E as <-. exists u.
    match goal with H1 : str_empty (u_Host u) = false, H2 : u_User u = false, H3 : negb (str_empty (u_RawQuery u)) = false,
      H4 : negb (str_empty (u_Fragment u)) = false, H5 : negb _ && negb _ = false, H6 : _ && negb insecure = false |- _ =>
      apply str_empty_false in H1; apply negb_false_iff, str_empty_true in H3; apply negb_false_iff, str_empty_true in H4;
      split_and!; try done;
      apply andb_false_iff in H5 as [H5|H5]; apply negb_false_iff, String.eqb_eq in H5; [by left|]; right; split; [done|];
      rewrite H5 in H6; by destruct insecure end.
  - intros reply r. unfold callRemote. destruct (normaliseRemoteURL url_Parse URL_String insecure remoteURL) as [endpoint|]; [|done].
    destruct (reply endpoint) as [why|status location body] eqn:Er; [done|].
    destruct (respBodyCap <? len body) eqn:Ec; [done|]. destruct (in_range 300 399 status) eqn:Es; [done|].
    destruct (status =? 401) eqn:E4; [done|]. destruct (500 <=? status) eqn:E5; [done|].
    destruct (400 <=? status) eqn:E6; [by destruct (tryDecodeEnvelope body)|].
    destruct (unmarshal_response body) as [[res err]|] eqn:Eu; [|done]. cbn [rs_Error rs_Result]. destruct err; [done|]. intros [= <-].
    exists endpoint, status, location, body. unfold in_range in Es. bprop. split_and!; try done.
    apply andb_false_iff in Es as [Es|Es]; bprop; lia.
Qed.

(** An answer of 64 KiB or more cannot be read by the one-shot call, although
    the connection of a copy reads lines of any length. *)
Lemma long_answer_unreadable l rest : no_byte nl l = true -> maxScanToken <= len l ->
  call (l +:+ String nl rest) = Broken "read response: bufio.Scanner: token too long"
  /\ callOn (l +:+ String nl rest) = (answer_of_line l, rest).
Proof.
  intros Hn Hl. unfold call, callOn, scan. rewrite cut_byte_app by done. by rewrite (proj2 (Z.leb_le _ _) Hl).
Qed.
End Remote.
