(* ===== verification/HistoryApi.v ===== *)
(** * The methods over the message history

    [cmd/wad/history_methods.go], [cmd/wad/media_list_method.go],
    [app/method_thread.go], [sqlitehistory/interactive.go] and the quote
    lookup of [whatsmeow/forwarded.go], over the store of [History] and the
    cache of [MediaCas].  What a stranger wrote leaves these methods only
    inside an envelope; the client's [media list] of [Client] is joined to its
    handler here.  The decoded message and the texts of decoding errors are
    parameters. *)
From S2P Require Import Prelude GoStd Errors Jid Policy Profile Message Values Json Idem Dispatch Draft DraftQueue Transport Envelope Projection EventStream Sse MediaCas MediaApi FileSys History Client.
From stdpp Require Import sorting.

#[local] Open Scope string_scope.
#[local] Open Scope list_scope.
#[local] Open Scope Z_scope.

(** ** whatsmeow/forwarded.go *)

(** [*waE2E.ContextInfo], and the context of each variant of a decoded
    message: of a variant that is there it may still be absent. *)
Record ContextInfo := mkContext { ci_StanzaID : string; ci_IsForwarded : bool; ci_ForwardingScore : Z }.
Record variants := mkVariants {
  ExtendedTextContext : option (option ContextInfo); ImageContext : option (option ContextInfo);
  VideoContext : option (option ContextInfo); AudioContext : option (option ContextInfo);
  DocumentContext : option (option ContextInfo); StickerContext : option (option ContextInfo);
  ContactContext : option (option ContextInfo); LocationContext : option (option ContextInfo) }.
(** [proto.Unmarshal]. *)
Class ProtoContext := unmarshal_contexts : string -> option variants.

Definition inboundContextInfo (msg : variants) : option ContextInfo :=
  match ExtendedTextContext msg with Some c => c | None =>
  match ImageContext msg with Some c => c | None =>
  match VideoContext msg with Some c => c | None =>
  match AudioContext msg with Some c => c | None =>
  match DocumentContext msg with Some c => c | None =>
  match StickerContext msg with Some c => c | None =>
  match ContactContext msg with Some c => c | None =>
  match LocationContext msg with Some c => c | None => None end end end end end end end end.

Definition QuotedMessageID `{ProtoContext} (raw : string) : string :=
  if str_empty raw then ""
  else match unmarshal_contexts raw with
       | None => ""
       | Some msg => match inboundContextInfo msg with Some ci => ci_StanzaID ci | None => "" end
       end.
Definition forwardInfo (msg : variants) : bool * Z :=
  match inboundContextInfo msg with
  | None => (false, 0)
  | Some ci => (ci_IsForwarded ci, ci_ForwardingScore ci)
  end.

(** ** sqlitehistory/interactive.go *)

Definition interactiveSubtypeFromString (s : string) : Z :=
  if (s =? "list")%string then 1 else if (s =? "buttons")%string then 2 else 0.

Definition option_json (o : InteractiveOption) : json := JObj [("id", jstr (io_ID o)); ("label", jstr (io_Label o))].
(** The text of the column; NULL of none. *)
Definition MarshalInteractive (p : option InteractivePayload) : string :=
  match p with
  | None => ""
  | Some p => json_text (JObj [("subtype", jstr (InteractiveSubtype_String (ip_Subtype p))); ("prompt", jstr (ip_Prompt p));
                               ("options", JArr (map option_json (ip_Options p)))])
  end.

(** An element of the slice is decoded over the one that was there. *)
Definition dec_option (old : InteractiveOption) (j : json) : option InteractiveOption :=
  match j with
  | JNull => Some old
  | JObj m => i ← field dec_str (io_ID old) "id" m; l ← field dec_str (io_Label old) "label" m; Some (mkOption i l)
  | _ => None
  end.
Definition no_option : InteractiveOption := mkOption "" "".
Fixpoint dec_options_over (old : list InteractiveOption) (l : list json) : option (list InteractiveOption) :=
  match l with
  | [] => Some []
  | j :: l =>
    o ← dec_option (default no_option (head old)) j; rest ← dec_options_over (tail old) l; Some (o :: rest)
  end.
Definition dec_options (old : list InteractiveOption) (j : json) : option (list InteractiveOption) :=
  match j with JArr l => dec_options_over old l | JNull => Some [] | _ => None end.
Definition dec_interactive (m : list (string * json)) : option InteractivePayload :=
  s ← field dec_str "" "subtype" m; p ← field dec_str "" "prompt" m; o ← field dec_options [] "options" m;
  Some (mkInteractive (interactiveSubtypeFromString s) p o).

(** [None]: the bytes do not decode; [Some None]: there are none. *)
Definition UnmarshalInteractive {library : Library} (b : string) : option (option InteractivePayload) :=
  if str_empty b then Some None
  else match json_parse b with
       | None => None
       | Some j => match j with
                   | JObj m => Some <$> dec_interactive m
                   | JNull => Some <$> dec_interactive []
                   | _ => None
                   end
       end.

(** ** history_methods.go: parameters *)

(** The text of a decoding error. *)
Class JsonErrors := unmarshal_text : RawMessage -> string.

(** [json.Unmarshal(raw, &p)], its failure as the caller's mistake. *)
Definition unmarshal_params `{JsonErrors} {P} (dec : list (string * json) -> option P) (raw : RawMessage) : result P :=
  let bad := Err (InvalidParams (unmarshal_text raw)) in
  match raw with
  | Some (JObj m) => match dec m with Some p => Ok p | None => bad end
  | Some JNull => match dec [] with Some p => Ok p | None => bad end
  | _ => bad
  end.
(** The same, of params that may be missing. *)
Definition optional_params `{JsonErrors} {P} (dec : list (string * json) -> option P) (zero : P) (raw : RawMessage) : result P :=
  match raw with None => Ok zero | Some _ => unmarshal_params dec raw end.
(** The same with the error thrown away: a member that does not decode leaves
    the field as it was. *)
Definition lenient_limit (raw : RawMessage) : Z :=
  match raw with
  | Some (JObj m) =>
    default 0 (field (fun old j => Some (default old (dec_int old j))) 0 "limit" m)
  | _ => 0
  end.

Definition decodeChatParams `{JsonErrors} {P} (dec : list (string * json) -> option P) (chat : P -> string) (raw : RawMessage) : result P :=
  let* p := unmarshal_params dec raw in
  fail_if str_empty (chat p) with InvalidParams "chat is required" ;; Ok p.

Record historyParams := mkHistoryParams { hp_Chat : string; hp_Before : string; hp_Limit : Z }.
Definition dec_historyParams (m : list (string * json)) : option historyParams :=
  c ← field dec_str "" "chat" m; b ← field dec_str "" "before" m; l ← field dec_int 0 "limit" m; Some (mkHistoryParams c b l).
Record searchParams := mkSearchParams { sq_Query : string; sq_Limit : Z }.
Definition dec_searchParams (m : list (string * json)) : option searchParams :=
  q ← field dec_str "" "query" m; l ← field dec_int 0 "limit" m; Some (mkSearchParams q l).
Definition dec_purgeParams (m : list (string * json)) : option string := field dec_str "" "chat" m.
Record exportParams := mkExportParams { xp_Chat : string; xp_Since : Z; xp_Until : Z; xp_Limit : Z }.
Definition dec_exportParams (m : list (string * json)) : option exportParams :=
  c ← field dec_str "" "chat" m; s ← field dec_int 0 "since" m; u ← field dec_int 0 "until" m; l ← field dec_int 0 "limit" m;
  Some (mkExportParams c s u l).
Definition dec_bool_ptr (old : option bool) (j : json) : option (option bool) :=
  match j with JBool b => Some (Some b) | JNull => Some None | _ => None end.
Record messagesListParams := mkMessagesList {
  ml_Chat : string; ml_MediaType : string; ml_FromMe : option bool; ml_Since : Z; ml_Until : Z; ml_Limit : Z }.
Definition dec_messagesListParams (m : list (string * json)) : option messagesListParams :=
  c ← field dec_str "" "chat" m; t ← field dec_str "" "mediaType" m; d ← field dec_bool_ptr None "fromMe" m;
  s ← field dec_int 0 "since" m; u ← field dec_int 0 "until" m; l ← field dec_int 0 "limit" m;
  Some (mkMessagesList c t d s u l).

Definition mediaTypeLikePattern (s : string) : string :=
  if str_empty s then ""
  else if (s =? "audio")%string || (s =? "video")%string || (s =? "image")%string then s +:+ "/%"
  else if (s =? "pdf")%string then "application/pdf"
  else if str_contains s "/" || str_contains s "%" then s
  else s +:+ "/%".

(** ** history_methods.go: the wire *)

Record wireInteractiveOption := mkWireOption { wo_ID : string; wo_Label : string }.
Record wireInteractive := mkWireInteractive { wi_Subtype : string; wi_Prompt : string; wi_Options : list wireInteractiveOption }.
Record wireMessage := mkWire {
  w_MessageID : string; w_ChatJID : string; w_SenderJID : string; w_Timestamp : Z; w_Body : string; w_MediaType : string;
  w_Caption : string; w_IsFromMe : bool; w_PushName : string; w_SenderAltJID : string; w_AddressingMode : string;
  w_Revoked : bool; w_RevokedAt : Z; w_QuotedMessageID : string; w_RejectedIDs : list string;
  w_Interactive : option wireInteractive; w_Channel : string }.

(** [json.Marshal] of one. *)
Definition omit_true (k : string) (b : bool) : list (string * json) := if b then [(k, JBool true)] else [].
Definition interactive_json (w : wireInteractive) : json :=
  JObj ([("subtype", jstr (wi_Subtype w))] ++ omit_str "prompt" (wi_Prompt w)
        ++ [("options", JArr (map (fun o => JObj (("id", jstr (wo_ID o)) :: omit_str "label" (wo_Label o))) (wi_Options w)))]).
Definition wire_json (w : wireMessage) : json :=
  JObj ([("messageId", jstr (w_MessageID w)); ("chatJid", jstr (w_ChatJID w)); ("senderJid", jstr (w_SenderJID w));
         ("timestamp", jint (w_Timestamp w)); ("body", jstr (w_Body w))]
        ++ omit_str "mediaType" (w_MediaType w) ++ omit_str "caption" (w_Caption w) ++ [("isFromMe", JBool (w_IsFromMe w))]
        ++ omit_str "pushName" (w_PushName w) ++ omit_str "senderAltJid" (w_SenderAltJID w)
        ++ omit_str "addressingMode" (w_AddressingMode w) ++ omit_true "revoked" (w_Revoked w) ++ omit_int "revokedAt" (w_RevokedAt w)
        ++ omit_str "quotedMessageId" (w_QuotedMessageID w) ++ omit_strs "rejectedIds" (w_RejectedIDs w)
        ++ match w_Interactive w with None => [] | Some i => [("interactive", interactive_json i)] end
        ++ omit_str "channel" (w_Channel w)).

(** [domain.Parse] with its error thrown away. *)
Definition parse_or_zero (s : string) : JID := match Parse s with Ok j => j | Err _ => zeroJID end.

Section Wire.
Context {uni : UnicodeTables} {library : Library}.

Definition interactiveToWire (b : string) : option wireInteractive :=
  match UnmarshalInteractive b with
  | Some (Some p) =>
    Some (mkWireInteractive (InteractiveSubtype_String (ip_Subtype p)) (ip_Prompt p)
            (map (fun o => mkWireOption (io_ID o) (io_Label o)) (ip_Options p)))
  | _ => None
  end.

Definition wrapStoredInbound (m : StoredMessage) : string * option wireInteractive :=
  let '(fields, iv) :=
    match UnmarshalInteractive (hm_InteractiveJSON m) with
    | Some (Some p) =>
      (mkFields (hm_Body m) (hm_Caption m) (hm_PushName m) "" "" (ip_Prompt p) (map io_Label (ip_Options p)) "" "" "" "" "",
       Some (mkWireInteractive (InteractiveSubtype_String (ip_Subtype p)) "" (map (fun o => mkWireOption (io_ID o) "") (ip_Options p))))
    | _ => (mkFields (hm_Body m) (hm_Caption m) (hm_PushName m) "" "" "" [] "" "" "" "" "", None)
    end in
  (ChannelWrapFields fields (parse_or_zero (hm_ChatJID m)) (parse_or_zero (hm_SenderJID m)) (hm_Timestamp m), iv).

(** One row. *)
Definition wire_row (m : StoredMessage) : wireMessage :=
  let w := mkWire (hm_MessageID m) (hm_ChatJID m) (hm_SenderJID m) (hm_Timestamp m) in
  if 0 <? hm_RevokedAt m then
    w "" (hm_MediaType m) "" (hm_IsFromMe m) (hm_PushName m) (hm_SenderAltJID m) (hm_AddressingMode m) true (hm_RevokedAt m) "" [] None ""
  else if hm_IsFromMe m then
    w (hm_Body m) (hm_MediaType m) (hm_Caption m) true (hm_PushName m) (hm_SenderAltJID m) (hm_AddressingMode m) false 0 "" []
      (interactiveToWire (hm_InteractiveJSON m)) ""
  else
    let '(channel, iv) := wrapStoredInbound m in
    w "" (hm_MediaType m) "" false "" (hm_SenderAltJID m) (hm_AddressingMode m) false 0 "" [] iv channel.
Definition storedToWire (msgs : list StoredMessage) : list wireMessage := map wire_row msgs.

Definition with_quote (id : string) (rejected : list string) (w : wireMessage) : wireMessage :=
  mkWire (w_MessageID w) (w_ChatJID w) (w_SenderJID w) (w_Timestamp w) (w_Body w) (w_MediaType w) (w_Caption w) (w_IsFromMe w)
    (w_PushName w) (w_SenderAltJID w) (w_AddressingMode w) (w_Revoked w) (w_RevokedAt w) id rejected (w_Interactive w) (w_Channel w).
Definition quoted (id : string) (w : wireMessage) : wireMessage := with_quote id (w_RejectedIDs w) w.
Definition rejected_quote (w : wireMessage) : wireMessage := with_quote (w_QuotedMessageID w) ["quotedMessageId"] w.

Context {proto : ProtoContext}.

(** The loop over the rows; [known]: the targets that were looked up. *)
Fixpoint quote_rows (f : fault) (h : history) (known : gmap (string * string) bool) (msgs : list StoredMessage) : result (list wireMessage) :=
  match msgs with
  | [] => Ok []
  | m :: msgs =>
    let w := wire_row m in
    let id := QuotedMessageID (hm_RawProto m) in
    let key := (hm_ChatJID m, id) in
    if MessageID_IsZero id then (let* rest := quote_rows f h known msgs in Ok (w :: rest))
    else if negb (MessageID_IsSafe id) then (let* rest := quote_rows f h known msgs in Ok (rejected_quote w :: rest))
    else
      let* present :=
        match known !! key with
        | Some b => Ok b
        | None => match GetRawProto f (hm_ChatJID m) id h with
                  | Ok _ => Ok true
                  | Err e => if is_not_exist e then Ok false else Err (wrapc "quote projection" e)
                  end
        end in
      let* rest := quote_rows f h (<[key := present]> known) msgs in
      Ok ((if present then quoted id w else rejected_quote w) :: rest)
  end.

(** Over a store that is there. *)
Definition storedToWireValidated (ctx : check goerr) (f : fault) (h : history) (msgs : list StoredMessage) : result (list wireMessage) :=
  match ctx with
  | Err e => Err e
  | Ok _ => quote_rows f h (list_to_map (map (fun m => ((hm_ChatJID m, hm_MessageID m), true)) msgs)) msgs
  end.
Definition marshalStoredMessages (ctx : check goerr) (f : fault) (h : history) (msgs : list StoredMessage) : result json :=
  let* wire := storedToWireValidated ctx f h msgs in Ok (JObj [("messages", JArr (map wire_json wire))]).

Record chatWire := mkChatWire {
  cw_JID : string; cw_PushName : string; cw_Channel : string; cw_LastMessageTS : Z; cw_MessageCount : Z; cw_IsGroup : bool }.
Definition chat_json (w : chatWire) : json :=
  JObj ([("jid", jstr (cw_JID w))] ++ omit_str "pushName" (cw_PushName w) ++ omit_str "channel" (cw_Channel w)
        ++ [("lastMessageTs", jint (cw_LastMessageTS w)); ("messageCount", jint (cw_MessageCount w)); ("isGroup", JBool (cw_IsGroup w))]).
Definition chat_row (c : ChatSummary) : chatWire :=
  let chat := parse_or_zero (cs_ChatJID c) in
  mkChatWire (cs_ChatJID c) ""
    (if str_empty (cs_PushName c) then ""
     else ChannelWrapFields (mkFields "" "" (cs_PushName c) "" "" "" [] "" "" "" "" "") chat chat (cs_LastMessageTS c))
    (cs_LastMessageTS c) (cs_MessageCount c) (cs_IsGroup c).
Definition chatsToWire (cs : list ChatSummary) : list chatWire := map chat_row cs.

(** ** history_methods.go: the handlers *)

Context {order : SqlOrder} {fold : TextFold} {errors : JsonErrors}.

(** [ctx]: the context; [f]: what the first statement answers, [fq]: those of
    the quote lookup. *)
Definition makeHistoryHandler (ctx : check goerr) (f fq : fault) (raw : RawMessage) (h : history) : result json :=
  let* p := decodeChatParams dec_historyParams hp_Chat raw in
  let limit := if hp_Limit p <=? 0 then 50 else hp_Limit p in
  let* msgs := QueryHistory f (hp_Chat p) (hp_Before p) limit h in
  marshalStoredMessages ctx fq h msgs.

Definition makeMessagesHandler (ctx : check goerr) (f fq : fault) (raw : RawMessage) (h : history) : result json :=
  let limit := lenient_limit raw in
  let limit := if limit <=? 0 then 50 else limit in
  let* msgs := QueryMessages f limit h in
  marshalStoredMessages ctx fq h msgs.

Definition makeSearchHandler (matches : string -> list row -> list row) (ctx : check goerr) (f fq : fault) (raw : RawMessage) (h : history)
    : result json :=
  let* p := unmarshal_params dec_searchParams raw in
  fail_if str_empty (sq_Query p) with InvalidParams "query is required" ;;
  let limit := if sq_Limit p <=? 0 then 20 else sq_Limit p in
  let* msgs := QuerySearch matches f (sq_Query p) limit h in
  marshalStoredMessages ctx fq h msgs.

Definition makePurgeHandler (f : fault) (raw : RawMessage) (h : history) : result json * history :=
  match decodeChatParams dec_purgeParams id raw with
  | Err e => (Err e, h)
  | Ok chat =>
    let '(r, h) := PurgeChat f chat h in
    (let* deleted := r in Ok (JObj [("deleted", jint deleted)]), h)
  end.

(** [linked]: the counterpart chat and its number of rows, if it is wired. *)
Definition makeExportHandler (linked : option (string -> string * Z)) (ctx : check goerr) (f fq : fault) (raw : RawMessage) (h : history)
    : result json :=
  let* p := decodeChatParams dec_exportParams xp_Chat raw in
  let* msgs := ExportChatFiltered f (xp_Chat p) (xp_Since p) (xp_Until p) (xp_Limit p) h in
  let* wire := storedToWireValidated ctx fq h msgs in
  let out := [("messages", JArr (map wire_json wire))] in
  Ok (JObj (match linked with
            | None => out
            | Some linked =>
              let '(jid, n) := linked (xp_Chat p) in
              if negb (str_empty jid) && (0 <? n) then ("linked", JObj [("chat", jstr jid); ("messages", jint n)]) :: out else out
            end)).

Definition makeChatListHandler (f : fault) (raw : RawMessage) (h : history) : result json :=
  let* chats := QueryChats f (lenient_limit raw) h in
  Ok (JObj [("chats", JArr (map chat_json (chatsToWire chats)))]).

Definition makeMessagesListHandler (ctx : check goerr) (f fq : fault) (raw : RawMessage) (h : history) : result json :=
  let* p := optional_params dec_messagesListParams (mkMessagesList "" "" None 0 0 0) raw in
  let* msgs := QueryMessagesFiltered f
                 (mkFilter (ml_Chat p) "" (mediaTypeLikePattern (ml_MediaType p)) "" (ml_FromMe p) (ml_Since p) (ml_Until p) (ml_Limit p)) h in
  marshalStoredMessages ctx fq h msgs.

(** The methods [registerHistoryMethods] registers. *)
Definition history_method (matches : string -> list row -> list row) (linked : option (string -> string * Z)) (method : string)
    (ctx : check goerr) (f fq : fault) (raw : RawMessage) (h : history) : option (result json * history) :=
  if (method =? "history")%string then Some (makeHistoryHandler ctx f fq raw h, h)
  else if (method =? "messages")%string then Some (makeMessagesHandler ctx f fq raw h, h)
  else if (method =? "search")%string then Some (makeSearchHandler matches ctx f fq raw h, h)
  else if (method =? "purge")%string then Some (makePurgeHandler f raw h)
  else if (method =? "export")%string then Some (makeExportHandler linked ctx f fq raw h, h)
  else if (method =? "chat.list")%string then Some (makeChatListHandler f raw h, h)
  else if (method =? "messages.list")%string then Some (makeMessagesListHandler ctx f fq raw h, h)
  else None.

End Wire.

(** ** media_list_method.go *)

Record mediaListParams := mkMediaList {
  mp_Chat : string; mp_Sender : string; mp_MediaType : string; mp_Caption : string; mp_FromMe : option bool;
  mp_Since : Z; mp_Until : Z; mp_Limit : Z }.
Definition noMediaList : mediaListParams := mkMediaList "" "" "" "" None 0 0 0.
Definition dec_mediaListParams (m : list (string * json)) : option mediaListParams :=
  c ← field dec_str "" "chat" m; s ← field dec_str "" "sender" m; t ← field dec_str "" "mediaType" m;
  cap ← field dec_str "" "caption" m; d ← field dec_bool_ptr None "fromMe" m; since ← field dec_int 0 "since" m;
  until ← field dec_int 0 "until" m; l ← field dec_int 0 "limit" m;
  Some (mkMediaList c s t cap d since until l).

Definition appliedFilterNames (f : MessageFilter) (mediaType : string) : list string :=
  map fst (List.filter snd
    [("chat", negb (str_empty (mf_ChatJID f))); ("sender", negb (str_empty (mf_SenderJID f))); ("mediaType", negb (str_empty mediaType));
     ("caption", negb (str_empty (mf_Caption f))); ("fromMe", match mf_FromMe f with Some _ => true | None => false end);
     ("since", 0 <? mf_Since f); ("until", 0 <? mf_Until f)]).

Record mediaWire := mkMediaWire {
  mw_MessageID : string; mw_ChatJID : string; mw_SenderJID : string; mw_Timestamp : Z; mw_MediaType : string; mw_Caption : string;
  mw_Channel : string; mw_SHA256 : string; mw_Size : Z; mw_DurationSeconds : Z; mw_PTT : bool; mw_FromMe : bool; mw_Cached : bool;
  mw_Path : string; mw_CachedSize : Z }.
Definition media_json (w : mediaWire) : json :=
  JObj ([("messageId", jstr (mw_MessageID w)); ("chatJid", jstr (mw_ChatJID w))] ++ omit_str "senderJid" (mw_SenderJID w)
        ++ [("timestamp", jint (mw_Timestamp w))] ++ omit_str "mediaType" (mw_MediaType w) ++ omit_str "caption" (mw_Caption w)
        ++ omit_str "channel" (mw_Channel w) ++ omit_str "sha256" (mw_SHA256 w) ++ omit_int "size" (mw_Size w)
        ++ omit_int "durationSeconds" (mw_DurationSeconds w) ++ omit_true "ptt" (mw_PTT w) ++ [("fromMe", JBool (mw_FromMe w));
        ("cached", JBool (mw_Cached w))] ++ omit_str "path" (mw_Path w) ++ omit_int "cachedSize" (mw_CachedSize w)).

Section MediaList.
Context {uni : UnicodeTables} {os : Os} {order : SqlOrder} {fold : TextFold} {errors : JsonErrors} (root : string).

Definition mediaRowBase (m : StoredMessage) : mediaWire :=
  let row := mkMediaWire (hm_MessageID m) (hm_ChatJID m) (hm_SenderJID m) (hm_Timestamp m) (hm_MediaType m) in
  if hm_IsFromMe m then row (hm_Caption m) "" "" 0 0 false true false "" 0
  else row ""
         (if str_empty (hm_Caption m) then ""
          else ChannelWrapFields (caption_field (hm_Caption m)) (parse_or_zero (hm_ChatJID m)) (parse_or_zero (hm_SenderJID m)) (hm_Timestamp m))
         "" 0 0 false false false "" 0.
Definition with_info (w : mediaWire) (i : MediaInfo) : mediaWire :=
  mkMediaWire (mw_MessageID w) (mw_ChatJID w) (mw_SenderJID w) (mw_Timestamp w) (mw_MediaType w) (mw_Caption w) (mw_Channel w)
    (mi_SHA256 i) (mi_AdvertisedSize i) (mi_DurationSeconds i) (mi_PTT i) (mw_FromMe w) (mi_Cached i) (mi_Path i) (mi_CachedSize i).

Definition media_filter (p : mediaListParams) : MessageFilter :=
  mkFilter (mp_Chat p) (mp_Sender p) (if str_empty (mp_MediaType p) then "%/%" else mediaTypeLikePattern (mp_MediaType p))
    (mp_Caption p) (mp_FromMe p) (mp_Since p) (mp_Until p) (mp_Limit p).

(** The media adapter over this history. *)
Definition over_history (up : Upstream) (h : history) : Upstream :=
  {| MediaCas.GetRawProto := fun chat id => History.GetRawProto None chat id h;
     MediaCas.proto_Unmarshal := @proto_Unmarshal up; MediaCas.DownloadAny := @DownloadAny up |}.

#[local] Open Scope prog_scope.
Fixpoint media_rows (up : Upstream) (ctx : check goerr) (msgs : list StoredMessage) : prog (result (list mediaWire)) :=
  match msgs with
  | [] => ret (Ok [])
  | m :: msgs =>
    let w := mediaRowBase m in
    let! i := @InspectMedia os root up ctx (hm_ChatJID m) (hm_MessageID m) in
    match i with
    | Err e => ret (Err e)
    | Ok i =>
      let! rest := media_rows up ctx msgs in
      ret (let* rest := rest in Ok (match i with Some i => with_info w i | None => w end :: rest))%wa
    end
  end.

Definition makeMediaListHandler (up : Upstream) (ctx : check goerr) (f : fault) (raw : RawMessage) (h : history) : prog (result json) :=
  match optional_params dec_mediaListParams noMediaList raw with
  | Err e => ret (Err e)
  | Ok p =>
    let filter := media_filter p in
    match QueryMessagesFiltered f filter h with
    | Err e => ret (Err e)
    | Ok msgs =>
      let! out := media_rows (over_history up h) ctx msgs in
      ret (let* out := out in
           Ok (JObj [("appliedFilters", JArr (map jstr (appliedFilterNames filter (mp_MediaType p)))); ("media", JArr (map media_json out))]))%wa
    end
  end.
#[local] Close Scope prog_scope.

(** ** method_thread.go *)

Record messageView := mkView { mv_ID : string; mv_Sender : string; mv_TS : Z; mv_Body : string; mv_FromMe : bool; mv_MediaMime : string }.
Record receiptView := mkReceiptView { rv_MessageID : string; rv_Kind : string; rv_By : string; rv_TS : Z }.

Definition messageViewFromThread (m : ThreadMessage) (chat : JID) : messageView :=
  let c := Message_Content (th_Message m) in
  mkView (match th_Message m with MReaction r => rm_TargetID r | _ => th_ID m end) (jidString (th_Sender m)) (th_TS m)
    (ChannelWrap (c_Text c) chat (To (th_Message m)) 0) (th_FromMe m) (c_Mime c).
Definition receipt_view (r : MessageReceipt) : receiptView :=
  mkReceiptView (rc_MessageID r) (ReceiptStatus_String (rc_Kind r)) (jidString (rc_ByJID r)) (unix (rc_TS r)).
Definition view_json (v : messageView) : json :=
  JObj ([("id", jstr (mv_ID v))] ++ omit_str "sender" (mv_Sender v) ++ [("ts", jint (mv_TS v)); ("body", jstr (mv_Body v))]
        ++ omit_true "fromMe" (mv_FromMe v) ++ omit_str "mediaMime" (mv_MediaMime v)).
Definition receipt_json (r : receiptView) : json :=
  JObj ([("messageId", jstr (rv_MessageID r)); ("kind", jstr (rv_Kind r))] ++ omit_str "by" (rv_By r) ++ [("ts", jint (rv_TS r))]).

Record threadGetParams := mkThreadGet { tg_Chat : string; tg_Cursor : string; tg_Limit : Z }.
Definition dec_threadGetParams (m : list (string * json)) : option threadGetParams :=
  c ← field dec_str "" "chat" m; b ← field dec_str "" "cursor" m; l ← field dec_int 0 "limit" m; Some (mkThreadGet c b l).

(** [reader]: the history, where it can read threads. *)
Definition handleThreadGet (reader : option (JID -> string -> Z -> result ThreadPage)) (raw : RawMessage) : result json :=
  let* p := parseParams dec_threadGetParams raw in
  fail_if str_empty (tg_Chat p) with ERpc app.ErrInvalidParams ;;
  match Parse (tg_Chat p) with
  | Err _ => Err (ERpc app.ErrInvalidJID)
  | Ok chat =>
    let limit := if tg_Limit p <=? 0 then 50 else tg_Limit p in
    let limit := if 200 <? limit then 200 else limit in
    match reader with
    | None => Err (ERpc app.ErrMethodNotFound)
    | Some GetThread =>
      match GetThread chat (tg_Cursor p) limit with
      | Err e => Err (wrapc "thread.get" e)
      | Ok page =>
        Ok (JObj ([("messages", JArr (map (fun m => view_json (messageViewFromThread m chat)) (tp_Messages page)))]
                  ++ match tp_Receipts page with
                     | [] => []
                     | l => [("receipts", JArr (map (fun r => receipt_json (receipt_view r)) l))]
                     end
                  ++ omit_str "next" (tp_Next page) ++ [("hasMore", JBool (tp_HasMore page))]))
      end
    end
  end.

End MediaList.

(** ** What a reader of the history may see *)

Lemma parse_or_zero_ok s : jid_ok (parse_or_zero s) = true.
Proof. unfold parse_or_zero, jid_ok. destruct (Parse s) as [j|e] eqn:E; [|done]. by rewrite (Parse_wf _ _ E), orb_true_r. Qed.

(** A row a stranger wrote, that is still to be read. *)
Definition from_stranger (m : StoredMessage) : bool := negb (hm_IsFromMe m) && (hm_RevokedAt m <=? 0).

Section Fence.
Context {uni : UnicodeTables} {library : Library} {proto : ProtoContext}.

(** What the sender of a row wrote. *)
Definition stored_fields (m : StoredMessage) : InboundFields :=
  match UnmarshalInteractive (hm_InteractiveJSON m) with
  | Some (Some p) => mkFields (hm_Body m) (hm_Caption m) (hm_PushName m) "" "" (ip_Prompt p) (map io_Label (ip_Options p)) "" "" "" "" ""
  | _ => mkFields (hm_Body m) (hm_Caption m) (hm_PushName m) "" "" "" [] "" "" "" "" ""
  end.
(** What is left of a row without it. *)
Definition skeleton_row (m : StoredMessage) : StoredMessage * option (Z * list string) :=
  (mkStored (hm_ChatJID m) (hm_SenderJID m) (hm_MessageID m) (hm_Timestamp m) "" (hm_MediaType m) "" (hm_IsFromMe m) (hm_RawProto m) ""
     (hm_RevokedAt m) (hm_SenderAltJID m) (hm_AddressingMode m) "",
   match UnmarshalInteractive (hm_InteractiveJSON m) with
   | Some (Some p) => Some (ip_Subtype p, map io_ID (ip_Options p))
   | _ => None
   end).
(** A row of the answer without its envelope. *)
Definition unfenced (w : wireMessage) : wireMessage :=
  mkWire (w_MessageID w) (w_ChatJID w) (w_SenderJID w) (w_Timestamp w) (w_Body w) (w_MediaType w) (w_Caption w) (w_IsFromMe w)
    (w_PushName w) (w_SenderAltJID w) (w_AddressingMode w) (w_Revoked w) (w_RevokedAt w) (w_QuotedMessageID w) (w_RejectedIDs w)
    (w_Interactive w) "".

(** The text of a stranger is in the envelope, which reads back as its fields,
    and nowhere else. *)
Record fenced (m : StoredMessage) (w : wireMessage) : Prop := {
  fenced_raw : w_Body w = "" /\ w_Caption w = "" /\ w_PushName w = "";
  fenced_labels : forall i, w_Interactive w = Some i -> wi_Prompt i = "" /\ Forall (fun o => wo_Label o = "") (wi_Options i);
  fenced_reads : forall rest, read_channel (w_Channel w +:+ rest)
    = Some (mkChannel "wa" (JID_String (parse_or_zero (hm_ChatJID m))) (JID_String (parse_or_zero (hm_SenderJID m))) (itoa (hm_Timestamp m))
              (map seen (fields_of (stored_fields m))), rest) }.
(** A message revoked for everyone has no text; its sender's name stays, and
    outside any envelope. *)
Definition blank (m : StoredMessage) (w : wireMessage) : Prop :=
  w_Body w = "" /\ w_Caption w = "" /\ w_Channel w = "" /\ w_Interactive w = None /\ w_Revoked w = true
  /\ w_PushName w = hm_PushName m.

Lemma wire_row_fenced m : from_stranger m = true -> fenced m (wire_row m).
Proof.
  unfold from_stranger. rewrite andb_true_iff, negb_true_iff, Z.leb_le. intros [Hme Hr]. unfold wire_row.
  rewrite (proj2 (Z.ltb_ge 0 (hm_RevokedAt m))), Hme by done. unfold wrapStoredInbound.
  pose proof (parse_or_zero_ok (hm_ChatJID m)) as Hc. pose proof (parse_or_zero_ok (hm_SenderJID m)) as Hs.
  destruct (UnmarshalInteractive (hm_InteractiveJSON m)) as [[p|]|] eqn:E; (split; [done| |intros rest; unfold stored_fields; rewrite E; exact (read_channel_wrap _ _ _ _ rest Hc Hs)]);
    [|done|done].
  intros i [= <-]. split; [done|]. cbn. apply Forall_map, Forall_true. done.
Qed.

Lemma wire_row_blank m : 0 < hm_RevokedAt m -> blank m (wire_row m).
Proof. intros Hr. unfold wire_row, blank. by rewrite (proj2 (Z.ltb_lt _ _)). Qed.

(** Revoked for this account alone, or not at all: served as a live message. *)
Lemma wire_row_live m : hm_RevokedAt m <= 0 -> w_Revoked (wire_row m) = false.
Proof.
  intros Hr. unfold wire_row. rewrite (proj2 (Z.ltb_ge 0 (hm_RevokedAt m))) by done. cbv zeta.
  repeat case_match; done.
Qed.

Lemma wire_row_unfenced m m' : skeleton_row m = skeleton_row m' -> from_stranger m = true -> unfenced (wire_row m) = unfenced (wire_row m').
Proof.
  unfold skeleton_row. intros [= E1 E2 E3 E4 E5 E6 E7 E8 E9 E10 E11]. unfold from_stranger. rewrite andb_true_iff, negb_true_iff, Z.leb_le.
  intros [Hme Hr]. unfold wire_row, wrapStoredInbound. rewrite <- E6, <- E8, Hme, (proj2 (Z.ltb_ge 0 (hm_RevokedAt m))) by done.
  destruct (UnmarshalInteractive (hm_InteractiveJSON m)) as [[p|]|], (UnmarshalInteractive (hm_InteractiveJSON m')) as [[p'|]|];
    try done; cbn in E11 |- *; unfold unfenced; cbn; rewrite ?E1, ?E2, ?E3, ?E4, ?E5, ?E9, ?E10; try done.
  injection E11 as Es Ei. rewrite Es.
  by rewrite <- (map_map io_ID (fun i => mkWireOption i "") (ip_Options p)), <- (map_map io_ID (fun i => mkWireOption i "") (ip_Options p')), Ei.
Qed.

Lemma wire_row_quote m : w_QuotedMessageID (wire_row m) = "" /\ w_RejectedIDs (wire_row m) = [].
Proof. unfold wire_row. destruct (0 <? _); [done|]. destruct (hm_IsFromMe m); [done|]. by destruct (wrapStoredInbound m). Qed.

(** The quote of a row: the ids shown and withheld. *)
Definition quote_of (f : fault) (h : history) (known : gmap (string * string) bool) (m : StoredMessage) : result (string * list string * option bool) :=
  let id := QuotedMessageID (hm_RawProto m) in
  if MessageID_IsZero id then Ok ("", [], None)
  else if negb (MessageID_IsSafe id) then Ok ("", ["quotedMessageId"], None)
  else
    let* present :=
      match known !! (hm_ChatJID m, id) with
      | Some b => Ok b
      | None => match GetRawProto f (hm_ChatJID m) id h with
                | Ok _ => Ok true
                | Err e => if is_not_exist e then Ok false else Err (wrapc "quote projection" e)
                end
      end in
    Ok (if present then (id, [], Some present) else ("", ["quotedMessageId"], Some present)).

Definition learn (m : StoredMessage) (q : option bool) (known : gmap (string * string) bool) : gmap (string * string) bool :=
  match q with Some b => <[(hm_ChatJID m, QuotedMessageID (hm_RawProto m)) := b]> known | None => known end.

Lemma with_quote_same w : with_quote (w_QuotedMessageID w) (w_RejectedIDs w) w = w.
Proof. by destruct w. Qed.

Lemma quote_rows_cons f h known m msgs :
  quote_rows f h known (m :: msgs)
  = (let* q := quote_of f h known m in
     let* rest := quote_rows f h (learn m q.2 known) msgs in
     Ok (with_quote q.1.1 q.1.2 (wire_row m) :: rest)).
Proof.
  destruct (wire_row_quote m) as [Hq Hr]. pose proof (with_quote_same (wire_row m)) as Hw. rewrite Hq, Hr in Hw.
  cbn [quote_rows]. unfold quote_of. destruct (MessageID_IsZero _) eqn:Ez; [cbn; by rewrite Hw|].
  destruct (negb _); [cbn; unfold rejected_quote; by rewrite Hq|].
  destruct (match known !! _ with Some _ => _ | None => _ end) as [[|]|e]; cbn [res_bind fst snd learn]; [| |done];
    unfold quoted, rejected_quote; by rewrite ?Hq, ?Hr.
Qed.
End Fence.

Section Quotes.
Context {uni : UnicodeTables} {library : Library} {proto : ProtoContext}.

(** There is a message [id] in the chat, on the page or in the table. *)
Definition message_known (h : history) (page : list StoredMessage) (chat id : string) : Prop :=
  exists q, (In q page \/ In q (map r_msg (h_rows h))) /\ hm_MessageID q = id /\ (hm_ChatJID q = chat \/ chat = "").
Definition all_known (h : history) (page : list StoredMessage) (known : gmap (string * string) bool) : Prop :=
  forall c i, known !! (c, i) = Some true -> message_known h page c i.

Lemma GetRawProto_known f h page chat id x : History.GetRawProto f chat id h = Ok x -> message_known h page chat id.
Proof.
  unfold History.GetRawProto, guard. destruct (str_empty id) eqn:Ei; [done|]. destruct (str_empty chat) eqn:Ec; cbn [negb].
  - apply str_empty_true in Ec as ->. unfold query. destruct (fails_at f SQuery); [done|]. cbn [res_bind].
    destruct (with_id id (h_rows h)) as [|r l] eqn:E; [done|]. intros _.
    assert (Hr : In r (with_id id (h_rows h))) by (rewrite E; by left). apply filter_In in Hr as [Hr He%String.eqb_eq].
    exists (r_msg r). split_and!; [right; by apply in_map|done|by right].
  - destruct (fails_at f SQuery); [done|]. destruct (find_row chat id (h_rows h)) as [r|] eqn:E; [|done]. intros _.
    apply find_row_Some in E as [Hr Hk]. injection Hk as H1 H2. exists (r_msg r). split_and!; [right; by apply in_map|done|by left].
Qed.

Lemma quote_of_known f h page known m q : all_known h page known -> quote_of f h known m = Ok q ->
  all_known h page (learn m q.2 known)
  /\ (q.1.1 <> "" -> MessageID_IsSafe q.1.1 = true /\ message_known h page (hm_ChatJID m) q.1.1).
Proof.
  intros Hk. unfold quote_of. destruct (MessageID_IsZero _); [by intros [= <-]|].
  destruct (MessageID_IsSafe (QuotedMessageID (hm_RawProto m))) eqn:Es; cbn [negb]; [|by intros [= <-]].
  intros (present & Ep & [= <-])%res_bind_ok.
  assert (Hp : present = true -> message_known h page (hm_ChatJID m) (QuotedMessageID (hm_RawProto m))).
  { intros ->. destruct (known !! _) as [b|] eqn:El; [injection Ep as ->; by apply Hk|].
    destruct (History.GetRawProto _ _ _ _) as [x|e] eqn:Eg; [by eapply GetRawProto_known|]. by destruct (is_not_exist e). }
  split.
  - intros c i. destruct present; cbn [learn fst snd]; (destruct (decide ((hm_ChatJID m, QuotedMessageID (hm_RawProto m)) = (c, i))) as [[= <- <-]|Hne];
      [rewrite lookup_insert_eq; intros Hb; first [discriminate Hb|by apply Hp]|rewrite lookup_insert_ne by done; apply Hk]).
  - destruct present; cbn [fst]; [|done]. intros _. split; [done|by apply Hp].
Qed.

Lemma quote_of_skeleton f h known m m' : skeleton_row m = skeleton_row m' ->
  quote_of f h known m = quote_of f h known m' /\ forall q, learn m q known = learn m' q known.
Proof.
  unfold skeleton_row. intros [= E1 E2 E3 E4 E5 E6 E7 E8 E9 E10 E11]. unfold quote_of, learn. by rewrite E1, E7.
Qed.

Lemma fenced_quote m w id rej : fenced m w -> fenced m (with_quote id rej w).
Proof. intros [H1 H2 H3]. by split. Qed.

(** What the answer owes to each row. *)
Record row_served (h : history) (page : list StoredMessage) (m : StoredMessage) (w : wireMessage) : Prop := {
  served_fenced : from_stranger m = true -> fenced m w;
  served_blank : 0 < hm_RevokedAt m -> blank m w;
  served_live : hm_RevokedAt m <= 0 -> w_Revoked w = false;
  served_quote : w_QuotedMessageID w <> "" -> MessageID_IsSafe (w_QuotedMessageID w) = true
                 /\ message_known h page (hm_ChatJID m) (w_QuotedMessageID w) }.

Lemma quote_rows_served f h page msgs : forall known ws, all_known h page known -> quote_rows f h known msgs = Ok ws ->
  Forall2 (row_served h page) msgs ws.
Proof.
  induction msgs as [|m msgs IH]; intros known ws Hk; [intros [= <-]; constructor|]. rewrite quote_rows_cons.
  intros (q & Eq & (rest & Er & [= <-])%res_bind_ok)%res_bind_ok. destruct (quote_of_known _ _ _ _ _ _ Hk Eq) as [Hk' Hq].
  constructor; [|by eapply IH]. split; [|by intros Hr%wire_row_blank|by intros Hr%wire_row_live|done].
  intros Hf. by apply fenced_quote, wire_row_fenced.
Qed.

(** Another row of the same structure, of which a stranger may have written
    something else. *)
Definition same_but_text (m m' : StoredMessage) : Prop := skeleton_row m = skeleton_row m' /\ (from_stranger m = true \/ m = m').

Lemma quote_rows_skeleton f h msgs msgs' : Forall2 same_but_text msgs msgs' ->
  forall known, res_map (map unfenced) (quote_rows f h known msgs) = res_map (map unfenced) (quote_rows f h known msgs').
Proof.
  induction 1 as [|m m' msgs msgs' [Hs Hf] _ IH]; intros known; [done|]. rewrite !quote_rows_cons.
  destruct (quote_of_skeleton f h known m m' Hs) as [<- Hl]. destruct (quote_of f h known m) as [q|e]; [|done]. cbn [res_bind].
  rewrite <- Hl. specialize (IH (learn m q.2 known)). assert (Hw : unfenced (wire_row m) = unfenced (wire_row m')).
  { destruct Hf as [Hf| ->]; [by apply wire_row_unfenced|done]. }
  destruct (quote_rows f h _ msgs), (quote_rows f h _ msgs'); cbn in IH |- *; try done.
  injection IH as ->. do 2 f_equal. unfold unfenced, with_quote in *. cbn. injection Hw as -> -> -> -> -> -> -> -> -> -> -> -> -> _ _ ->. done.
Qed.

(** [known] before the loop: the rows of the page. *)
Lemma page_known h page (msgs : list StoredMessage) : (forall m, In m msgs -> In m page) ->
  all_known h page (list_to_map (map (fun m => ((hm_ChatJID m, hm_MessageID m), true)) msgs)).
Proof.
  induction msgs as [|m msgs IH]; intros Hin c i; cbn; [done|].
  destruct (decide ((hm_ChatJID m, hm_MessageID m) = (c, i))) as [[= <- <-]|Hne].
  - intros _. exists m. split_and!; [left; apply Hin; by left|done|by left].
  - rewrite lookup_insert_ne by done. apply IH. intros x Hx. apply Hin. by right.
Qed.
End Quotes.

Section Served.
Context {uni : UnicodeTables} {library : Library} {proto : ProtoContext} {order : SqlOrder} {fold : TextFold} {errors : JsonErrors}.

(** What the queries answer is in the table. *)
Definition stored_in (h : history) (ms : list StoredMessage) : Prop := forall m, In m ms -> In m (map r_msg (h_rows h)).

Lemma scan_in cols rows h ms : (forall r, In r rows -> In r (h_rows h)) -> scanStoredMessages cols rows = Ok ms -> stored_in h ms.
Proof.
  intros Hin. unfold scanStoredMessages. destruct rows as [|r rows]; [by intros [= <-] m []|]. destruct (_ =? _); [|done].
  intros [= <-] m. change (r_msg r :: map r_msg rows) with (map r_msg (r :: rows)). rewrite !in_map_iff. naive_solver.
Qed.

Lemma picked_in {A} (k : A -> Z) n l x : In x (limited n (order_by k l)) -> In x l.
Proof.
  unfold limited. intros Hx. apply list_elem_of_In. rewrite <- (order_perm _ k l). apply list_elem_of_In.
  rewrite <- (take_drop (Z.to_nat n) (order_by k l)). apply in_app_iff. by left.
Qed.

Lemma filtered_in {A} (k : A -> Z) n p l x : In x (limited n (order_by k (List.filter p l))) -> In x l.
Proof. by intros [? _]%picked_in%filter_In. Qed.

Lemma QueryHistory_in f chat before limit h ms : QueryHistory f chat before limit h = Ok ms -> stored_in h ms.
Proof. unfold QueryHistory. intros E. peel E. unfold query in *. destruct (fails_at f SQuery); simplify_eq. eapply scan_in; [|done]. apply filtered_in. Qed.
Lemma QueryMessages_in f limit h ms : QueryMessages f limit h = Ok ms -> stored_in h ms.
Proof. unfold QueryMessages. intros E. peel E. unfold query in *. destruct (fails_at f SQuery); simplify_eq. eapply scan_in; [|done]. apply picked_in. Qed.
Lemma Export_in f chat since until limit h ms : ExportChatFiltered f chat since until limit h = Ok ms -> stored_in h ms.
Proof. unfold ExportChatFiltered. intros E. peel E. unfold query in *. destruct (fails_at f SQuery); simplify_eq. eapply scan_in; [|done]. apply filtered_in. Qed.
Lemma Filtered_in f mf h ms : QueryMessagesFiltered f mf h = Ok ms -> stored_in h ms.
Proof. unfold QueryMessagesFiltered. intros E. peel E. unfold query in *. destruct (fails_at f SQuery); simplify_eq. eapply scan_in; [|done]. apply filtered_in. Qed.
Lemma Search_in matches f q limit h ms : QuerySearch matches f q limit h = Ok ms -> stored_in h ms.
Proof.
  unfold QuerySearch. intros E. peel E. unfold scanStoredMessages in E. destruct x; [injection E as <-; by intros m []|done].
Qed.

(** The methods that answer messages. *)
Definition message_methods : list string := ["history"; "messages"; "search"; "export"; "messages.list"].

(** An answer made of rows of the table. *)
Definition serves (ctx : check goerr) (fq : fault) (h : history) (method : string) (j : json) : Prop :=
  exists msgs ws extra,
    j = JObj (extra ++ [("messages", JArr (map wire_json ws))])
    /\ (method = "export" \/ extra = [])
    /\ stored_in h msgs /\ storedToWireValidated ctx fq h msgs = Ok ws.

Lemma marshal_serves ctx fq h msgs ws method j : stored_in h msgs -> storedToWireValidated ctx fq h msgs = Ok ws ->
  Ok (JObj [("messages", JArr (map wire_json ws))]) = Ok j :> result json -> serves ctx fq h method j.
Proof.
  intros Hin Ews [= <-]. exists msgs, ws, []. split_and!; [done|by right|done|done].
Qed.

Lemma method_serves matches linked method ctx f fq raw h j h' :
  history_method matches linked method ctx f fq raw h = Some (Ok j, h') -> method ∈ message_methods -> h' = h /\ serves ctx fq h method j.
Proof.
  intros E Hm. unfold history_method in E.
  repeat (apply elem_of_cons in Hm as [->|Hm]); [..|by apply not_elem_of_nil in Hm]; cbn in E; injection E as E <-; (split; [done|]).
  - unfold makeHistoryHandler in E. peel E. eapply marshal_serves, E; [by eapply QueryHistory_in|done].
  - unfold makeMessagesHandler in E. peel E. eapply marshal_serves, E; [by eapply QueryMessages_in|done].
  - unfold makeSearchHandler in E. peel E. eapply marshal_serves, E; [by eapply Search_in|done].
  - unfold makeExportHandler in E. apply res_bind_ok in E as (p & _ & E). apply res_bind_ok in E as (msgs & Em & E).
    apply res_bind_ok in E as (ws & Ews & [= <-]).
    exists msgs, ws, (match linked with
                      | Some linked => let '(jid, n) := linked (xp_Chat p) in
                                       if negb (str_empty jid) && (0 <? n) then [("linked", JObj [("chat", jstr jid); ("messages", jint n)])] else []
                      | None => [] end).
    split_and!; [|by left|by eapply Export_in|done]. destruct linked as [g|]; [|done]. destruct (g _) as [jid n]. by destruct (_ && _).
  - unfold makeMessagesListHandler in E. peel E. eapply marshal_serves, E; [by eapply Filtered_in|done].
Qed.

Lemma validated_served ctx fq h msgs ws : stored_in h msgs -> storedToWireValidated ctx fq h msgs = Ok ws ->
  Forall2 (row_served h msgs) msgs ws
  /\ forall msgs', Forall2 same_but_text msgs msgs' ->
       exists ws', storedToWireValidated ctx fq h msgs' = Ok ws' /\ map unfenced ws' = map unfenced ws.
Proof.
  unfold storedToWireValidated. destruct ctx as [[]|]; [|done]. intros Hin E. split; [eapply quote_rows_served, E; by apply page_known|].
  intros msgs' Hs. assert (Ek : map (fun m => ((hm_ChatJID m, hm_MessageID m), true)) msgs = map (fun m => ((hm_ChatJID m, hm_MessageID m), true)) msgs').
  { clear -Hs. induction Hs as [|m m' ms ms' [[= E1 _ E3] _] _ IH]; cbn; [done|]. by rewrite E1, E3, IH. }
  rewrite Ek in E. pose proof (quote_rows_skeleton fq h _ _ Hs (list_to_map (map (fun m => ((hm_ChatJID m, hm_MessageID m), true)) msgs'))) as Hq.
  rewrite E in Hq. cbn [res_map] in Hq. symmetry in Hq. by apply res_map_ok in Hq.
Qed.

End Served.

(** C30. What strangers wrote leaves the five methods that answer messages
    (history, messages, search, export, messages.list) only inside an
    envelope, but for the name of a message that was revoked.  Such a method
    answers rows of the table and changes nothing.  The row of a stranger's
    message that is not revoked for everyone has no body, caption, name,
    prompt or label outside its envelope, which reads back, whatever follows
    it, to exactly the fields that were stored; had such a stranger written
    anything else, the answer would be the same but for the envelopes.  A
    message revoked for everyone has no text at all, but keeps its sender's
    name in the open; one revoked for this account alone is answered as if it
    were not.  An id given as quoted is well formed and a message of the
    table, in the same chat.  The listing of chats gives their names inside an
    envelope too. *)
Theorem history_fenced {uni : UnicodeTables} {library : Library} {proto : ProtoContext} {so : SqlOrder} {tf : TextFold} {errors : JsonErrors}
    (matches : string -> list row -> list row) (linked : option (string -> string * Z)) (method : string) (ctx : check goerr) (f fq : fault)
    (raw : RawMessage) (h h' : history) (j : json) :
  history_method matches linked method ctx f fq raw h = Some (Ok j, h') ->
  (method ∈ message_methods ->
     h' = h /\ exists msgs ws extra,
       j = JObj (extra ++ [("messages", JArr (map wire_json ws))]) /\ (method = "export" \/ extra = [])
       /\ stored_in h msgs /\ Forall2 (row_served h msgs) msgs ws
       /\ forall msgs', Forall2 same_but_text msgs msgs' ->
            exists ws', storedToWireValidated ctx fq h msgs' = Ok ws' /\ map unfenced ws' = map unfenced ws)
  /\ (method = "chat.list" ->
      h' = h /\ exists cs,
        j = JObj [("chats", JArr (map chat_json cs))]
        /\ Forall (fun c => cw_PushName c = ""
                            /\ (cw_Channel c = "" \/ exists chat name, read_channel (cw_Channel c)
                                  = Some (mkChannel "wa" chat chat (itoa (cw_LastMessageTS c)) [("push_name", None, sanitize name)], ""))) cs).
Proof.
  intros E. split.
  - intros Hm. destruct (method_serves _ _ _ _ _ _ _ _ _ _ E Hm) as (-> & msgs & ws & extra & -> & Hx & Hin & Ews).
    split; [done|]. exists msgs, ws, extra. destruct (validated_served _ _ _ _ _ Hin Ews) as [H1 H2]. by split_and!.
  - intros ->. cbn in E. injection E as E <-. split; [done|]. unfold makeChatListHandler in E. peel E. injection E as <-.
    exists (chatsToWire x). split; [done|]. unfold chatsToWire. apply Forall_map, Forall_true. intros c. split; [done|].
    unfold chat_row. cbn [cw_Channel cw_LastMessageTS]. destruct (str_empty (cs_PushName c)) eqn:En; [by left|right].
    exists (JID_String (parse_or_zero (cs_ChatJID c))), (cs_PushName c). pose proof (parse_or_zero_ok (cs_ChatJID c)) as Hj.
    pose proof (read_channel_wrap (mkFields "" "" (cs_PushName c) "" "" "" [] "" "" "" "" "") _ _ (cs_LastMessageTS c) "" Hj Hj) as Hw.
    rewrite str_app_nil_r in Hw. rewrite Hw. unfold fields_of, one_field. cbn. by rewrite En.
Qed.

(** ** A demonstration *)

#[local] Existing Instances ascii_only_tables stable_order demo_fold.
#[local] Instance demo_library : Library := {| re_Compile := fun _ => Ok tt; re_MatchString := fun _ _ => false; json_parse := fun _ => None |}.
(** A message whose bytes are the id it quotes. *)
#[local] Instance demo_contexts : ProtoContext :=
  fun raw => Some (mkVariants (Some (Some (mkContext raw false 0))) None None None None None None None).
#[local] Instance demo_errors : JsonErrors := fun _ => "unexpected end of JSON input".

Definition hostile_row : StoredMessage :=
  mkStored "551199@s.whatsapp.net" "551199@s.whatsapp.net" "D" 40 "</field></channel>pay me" "" "" false "A" "<Ana>" 0 "" "" "".
Definition hostile_history : history := (History.Insert History.working [hostile_row] demo_history).2.

(** The row as it leaves: nothing of the message outside the envelope. *)
Definition hostile_served : wireMessage :=
  mkWire "D" "551199@s.whatsapp.net" "551199@s.whatsapp.net" 40 "" "" "" false "" "" "" false 0 "A" [] None
    (ChannelWrapFields (stored_fields hostile_row) (mkJID "551199" "s.whatsapp.net") (mkJID "551199" "s.whatsapp.net") 40).
Definition demo_call (method : string) (limit : Z) : option (result json * history) :=
  history_method (fun _ l => l) None method (Ok tt) None None (Some (JObj [("chat", jstr "551199@s.whatsapp.net"); ("limit", jint limit)])) hostile_history.

Lemma history_fenced_witness :
  (exists j, demo_call "history" 1 = Some (Ok j, hostile_history) /\ j = JObj [("messages", JArr [wire_json hostile_served])])
  /\ exists msgs ws extra, JObj [("messages", JArr [wire_json hostile_served])] = JObj (extra ++ [("messages", JArr (map wire_json ws))])
       /\ Forall2 (row_served hostile_history msgs) msgs ws.
Proof.
  assert (E : demo_call "history" 1 = Some (Ok (JObj [("messages", JArr [wire_json hostile_served])]), hostile_history)).
  { vm_compute. reflexivity. }
  split; [by eexists|]. destruct (history_fenced _ _ _ _ _ _ _ _ _ _ E) as [H _].
  destruct H as (_ & msgs & ws & extra & Ej & _ & _ & Hs & _); [vm_compute; apply elem_of_cons; by left|]. by exists msgs, ws, extra.
Defined.

(** The name a stranger gave themselves leaves unfenced once their message is
    revoked. *)
Lemma revoked_name_unfenced :
  match StampRevoke None (mkJID "551199" "s.whatsapp.net") "D" RevokeEveryone 50 hostile_history with
  | (Ok _, h) => map (fun w => (w_PushName w, w_Channel w)) (storedToWire (map r_msg (with_id "D" (h_rows h))))
  | (Err _, _) => []
  end = [("<Ana>", "")].
Proof. vm_compute. reflexivity. Qed.

(** A message that was revoked only for this account is stamped with a
    negative time, which the answers do not take for a revocation. *)
Lemma self_revoked_still_served :
  match StampRevoke None (mkJID "551199" "s.whatsapp.net") "C" RevokeSelf 50 demo_history with
  | (Ok _, h) => map (fun w => (w_Body w, w_Revoked w)) (storedToWire (map r_msg (with_id "C" (h_rows h))))
  | (Err _, _) => []
  end = [("three", false)].
Proof. vm_compute. reflexivity. Qed.

(** [media.list] shows the caption of a message that was revoked for all. *)
Lemma media_list_shows_revoked :
  mw_Caption (mediaRowBase (mkStored "551199@s.whatsapp.net" "551199@s.whatsapp.net" "E" 40 "" "image/png" "secret" true "" "" 50 "" "" "")) = "secret".
Proof. reflexivity. Qed.

(** ** The client's listing, over the handler *)

Lemma field_app_str k v l : field dec_str "" k (opt_str k v ++ l) = field dec_str v k l.
Proof.
  unfold opt_str. destruct (str_empty v) eqn:E; [by apply str_empty_true in E as ->|]. cbn [app]. apply field_hit; [|done].
  unfold key_matches. apply String.eqb_refl.
Qed.
Lemma field_skip_str {A} (dec : A -> json -> option A) zero name k v l : key_matches name k = false ->
  field dec zero name (opt_str k v ++ l) = field dec zero name l.
Proof. intros E. unfold opt_str. destruct (str_empty v); [done|]. cbn [app]. by apply field_miss. Qed.
Lemma field_app_time k t l : t < 2 ^ 63 -> field dec_int 0 k (opt_time k t ++ l) = field dec_int (Z.max 0 t) k l.
Proof.
  intros Ht. unfold opt_time. destruct (Z.ltb_spec 0 t) as [Hp|Hp]; [|by rewrite Z.max_l by lia].
  rewrite Z.max_r by lia. cbn [app]. apply field_hit; [unfold key_matches; apply String.eqb_refl|]. apply parse_itoa. lia.
Qed.
Lemma field_skip_time {A} (dec : A -> json -> option A) zero name k t l : key_matches name k = false ->
  field dec zero name (opt_time k t ++ l) = field dec zero name l.
Proof. intros E. unfold opt_time. destruct (0 <? t); [|done]. cbn [app]. by apply field_miss. Qed.

Definition direction (f : listFlags) : option bool := if lf_FromMe f then Some true else if lf_NotFromMe f then Some false else None.
Definition opt_direction (f : listFlags) : list (string * json) :=
  if lf_FromMe f then [("fromMe", JBool true)] else if lf_NotFromMe f then [("fromMe", JBool false)] else [].
Lemma field_app_direction f l : field dec_bool_ptr None "fromMe" (opt_direction f ++ l) = field dec_bool_ptr (direction f) "fromMe" l.
Proof. unfold opt_direction, direction. destruct (lf_FromMe f); [done|]. by destruct (lf_NotFromMe f). Qed.
Lemma field_skip_direction {A} (dec : A -> json -> option A) zero name f l : key_matches name "fromMe" = false ->
  field dec zero name (opt_direction f ++ l) = field dec zero name l.
Proof. intros E. unfold opt_direction. destruct (lf_FromMe f); [|destruct (lf_NotFromMe f)]; cbn [app]; by rewrite ?field_miss by done. Qed.

(** What the handler decodes of the client's flags. *)
Definition params_of (f : listFlags) (since until : Z) : mediaListParams :=
  mkMediaList (lf_Chat f) (lf_Sender f) (lf_Type f) (lf_Caption f) (direction f) (Z.max 0 since) (Z.max 0 until) (lf_Limit f).

Lemma body_decodes f since until body : lf_Since f = Ok since -> lf_Until f = Ok until -> 0 <= lf_Limit f < 2 ^ 63 -> since < 2 ^ 63 -> until < 2 ^ 63 ->
  media_list_body f = Ok body -> dec_mediaListParams body = Some (params_of f since until).
Proof.
  intros Es Eu Hl Hs Hu. unfold media_list_body. destruct (_ && _); [done|]. rewrite Es, Eu. cbn [res_bind]. fold (opt_direction f).
  intros [= <-]. unfold dec_mediaListParams. cbn [app].
  rewrite <- (app_nil_r (opt_time "until" until)).
  repeat first
    [ rewrite field_app_str | rewrite field_app_time by done | rewrite field_app_direction
    | rewrite field_skip_str by (vm_compute; reflexivity) | rewrite field_skip_time by (vm_compute; reflexivity)
    | rewrite field_skip_direction by (vm_compute; reflexivity)
    | rewrite field_nil; cbn [mbind option_bind] | rewrite field_miss by (vm_compute; reflexivity)
    | erewrite field_hit; [|vm_compute; reflexivity|by apply parse_itoa] ].
  done.
Qed.

Lemma keys_opt_str k v : map fst (opt_str k v) = if negb (str_empty v) then [k] else [].
Proof. unfold opt_str. by destruct (str_empty v). Qed.
Lemma keys_opt_time k t : map fst (opt_time k t) = if 0 <? t then [k] else [].
Proof. unfold opt_time. by destruct (0 <? t). Qed.
Lemma keys_direction f : map fst (opt_direction f) = if match direction f with Some _ => true | None => false end then ["fromMe"] else [].
Proof. unfold opt_direction, direction. destruct (lf_FromMe f); [done|]. by destruct (lf_NotFromMe f). Qed.
Lemma on_cons (k : string) (b : bool) l : map fst (List.filter snd ((k, b) :: l)) = (if b then [k] else []) ++ map fst (List.filter snd l).
Proof. by destruct b. Qed.

(** The filters the handler names are the ones the client sent. *)
Lemma applied_is_sent f since until body : lf_Since f = Ok since -> lf_Until f = Ok until -> media_list_body f = Ok body ->
  map fst body = "limit" :: appliedFilterNames (media_filter (params_of f since until)) (lf_Type f).
Proof.
  intros Es Eu. unfold media_list_body. destruct (_ && _); [done|]. rewrite Es, Eu. cbn [res_bind]. fold (opt_direction f). intros [= <-].
  cbn [map fst app]. rewrite !List.map_app. f_equal. unfold appliedFilterNames. rewrite !on_cons. cbn [List.filter map].
  rewrite !keys_opt_str, !keys_opt_time, keys_direction, app_nil_r.
  assert (Hmax : forall t, (0 <? Z.max 0 t) = (0 <? t)) by (intros t; lia). cbn. by rewrite !Hmax.
Qed.

Lemma applied_reads names rest : members_of (Some (JObj (("appliedFilters", JArr (map jstr names)) :: ("media", rest) :: []))) ≫= field dec_applied None "appliedFilters"
  = Some (Some names).
Proof.
  cbn [members_of mbind option_bind]. erewrite field_hit; [|vm_compute; reflexivity|].
  - by rewrite field_miss by (vm_compute; reflexivity).
  - cbn. induction names as [|x l IH]; [done|]. cbn. destruct (mapM _ _); [|done]. cbn in IH |- *. by injection IH as ->.
Qed.

(** An answer that names every filter that was sent passes the client's check. *)
Lemma verify_passes result sent got : members_of result ≫= field dec_applied None "appliedFilters" = Some (Some got) ->
  (forall k, In k sent -> In k narrowingParams -> In k got) -> verifyFiltersApplied result sent = Ok tt.
Proof.
  intros E Hall. unfold verifyFiltersApplied. set (want := List.filter _ narrowingParams).
  assert (Hm : List.filter (fun k => negb (existsb (String.eqb k) got)) want = []).
  { destruct (List.filter _ want) as [|k l] eqn:Ef; [done|exfalso].
    assert (Hk : In k (List.filter (fun k => negb (existsb (String.eqb k) got)) want)) by (rewrite Ef; by left).
    apply filter_In in Hk as [[Hn Hs]%filter_In Hg]. apply existsb_exists in Hs as (k' & Hs & <-%String.eqb_eq).
    apply negb_true_iff, not_true_iff_false in Hg. apply Hg, existsb_exists. exists k. by rewrite String.eqb_refl; auto. }
  destruct want as [|w want]; [done|]. by rewrite E, Hm.
Qed.

(** ** What the rows of a listing are *)

Lemma fold_slash x : like_byte "/" x = true -> x = "/"%char.
Proof. destruct x as [[] [] [] [] [] [] [] []]; vm_compute; congruence. Qed.

Lemma like_slash w : like None (String "/" (String "%" "")) w = true <-> exists v, w = String "/" v.
Proof.
  change (like None (String "/" (String "%" "")) w) with (match w with "" => false | String x w' => like_byte "/" x && like None (String "%" "") w' end).
  split.
  - destruct w as [|x w]; [done|]. intros [->%fold_slash _]%andb_true_iff. by exists w.
  - intros [v ->]. apply andb_true_iff. split; [done|]. apply like_star; [done|]. exists v, "". by rewrite str_app_nil_r.
Qed.

(** A word with none of the pattern's characters matches itself, whatever the
    case of its ASCII letters. *)
Lemma like_word t p s : no_byte "%" t = true -> no_byte "_" t = true ->
  like None (t +:+ p) s = true <-> exists v w, s = v +:+ w /\ fold_ascii v = fold_ascii t /\ like None p w = true.
Proof.
  revert s. induction t as [|c t IH]; intros s H1 H2.
  - split; [intros Hp; by exists "", s|]. intros (v & w & -> & Hv & Hp). by destruct v.
  - unfold no_byte in H1, H2. cbn [str_forallb] in H1, H2. apply andb_true_iff in H1 as [Hc1 H1]. apply andb_true_iff in H2 as [Hc2 H2].
    apply negb_true_iff in Hc1, Hc2. cbn [String.append like]. rewrite bool_decide_eq_false_2, Hc1, Hc2 by done.
    destruct s as [|x s']; [split; [done|]; intros ([|] & w & E & Hv & _); done|].
    rewrite andb_true_iff, IH by done. unfold like_byte. rewrite Ascii.eqb_eq. split.
    + intros (Ec & v & w & -> & Hv & Hp). exists (String x v), w. cbn [fold_ascii]. by rewrite Hv, Ec.
    + intros ([|y v] & w & E & Hv & Hp); [done|]. injection E as -> ->. cbn [fold_ascii] in Hv. injection Hv as Hc Hv. split; [done|]. by exists v, w.
Qed.

(** A word without the characters of a pattern, and none of the code's own. *)
Definition plain_word (t : string) : bool := negb (t =? "pdf")%string && no_byte "/" t && no_byte "%" t && no_byte "_" t.
(** Media of a type: of any, of a family as in [image], or by a pattern. *)
Definition of_type (t mime : string) : Prop :=
  if str_empty t then exists u v, mime = u +:+ "/" +:+ v
  else if plain_word t then exists v w, mime = v +:+ "/" +:+ w /\ fold_ascii v = fold_ascii t
  else like None (mediaTypeLikePattern t) mime = true.

Lemma pattern_word t : str_empty t = false -> plain_word t = true -> mediaTypeLikePattern t = t +:+ "/%".
Proof.
  intros Hn. unfold plain_word. rewrite !andb_true_iff, negb_true_iff. intros [[[Hpdf Hs] Hp] _].
  unfold mediaTypeLikePattern. rewrite Hn, Hpdf, !str_contains_byte, Hs, Hp. by destruct (_ || _).
Qed.

Lemma like_type t mime : like None (if str_empty t then "%/%" else mediaTypeLikePattern t) mime = true <-> of_type t mime.
Proof.
  unfold of_type. destruct (str_empty t) eqn:En.
  - change "%/%" with (String "%" (String "/" (String "%" ""))). rewrite like_star by done. setoid_rewrite like_slash. naive_solver.
  - destruct (plain_word t) eqn:Ep; [|done]. rewrite pattern_word by done. unfold plain_word in Ep. rewrite !andb_true_iff in Ep.
    destruct Ep as [[_ Hp] Hu]. change "/%" with (String "/" (String "%" "")). rewrite like_word by done. setoid_rewrite like_slash. naive_solver.
Qed.

Section Wanted.
Context {tf : TextFold}.

(** A row the flags of the client ask for. *)
Record wanted (f : listFlags) (since until : Z) (m : StoredMessage) : Prop := {
  want_chat : lf_Chat f = "" \/ hm_ChatJID m = lf_Chat f;
  want_sender : lf_Sender f = "" \/ hm_SenderJID m = lf_Sender f \/ hm_SenderAltJID m = lf_Sender f;
  want_type : of_type (lf_Type f) (hm_MediaType m);
  want_caption : lf_Caption f = ""
                 \/ exists u v w, foldText (hm_Caption m) = u +:+ v +:+ w /\ fold_ascii v = fold_ascii (foldText (lf_Caption f));
  want_direction : match direction f with Some b => hm_IsFromMe m = b | None => True end;
  want_since : since <= 0 \/ since <= hm_Timestamp m;
  want_until : until <= 0 \/ hm_Timestamp m <= until }.

Lemma caption_wanted sub caption : (let pattern := captionLikePattern sub in str_empty pattern || like (Some "\"%char) pattern (foldText caption)) = true
  <-> sub = "" \/ exists u v w, foldText caption = u +:+ v +:+ w /\ fold_ascii v = fold_ascii (foldText sub).
Proof.
  cbn zeta. unfold captionLikePattern. destruct (str_empty sub) eqn:Es; [apply str_empty_true in Es as ->; split; [by left|done]|].
  apply str_empty_false in Es. change ("%" +:+ str_flat_map escape_like (foldText sub) +:+ "%") with (String "%" (str_flat_map escape_like (foldText sub) +:+ "%")).
  cbn [str_empty orb]. rewrite like_star by done. split.
  - intros (u & w & E & Hl). apply like_literal in Hl as (v & w' & -> & Hv & _). right. by exists u, v, w'.
  - intros [->|(u & v & w & E & Hv)]; [done|]. exists u, (v +:+ w). split; [done|]. apply like_literal. exists v, w. split_and!; [done|done|].
    apply like_star; [done|]. exists w, "". split; [by rewrite str_app_nil_r|done].
Qed.

Lemma or_empty s (p : bool) (P : Prop) : (p = true <-> P) -> (str_empty s || p = true <-> s = "" \/ P).
Proof. intros Hp. by rewrite orb_true_iff, str_empty_true, Hp. Qed.

Lemma filter_row_wanted f since until r : row_ok r ->
  filter_row (media_filter (params_of f since until)) r = true <-> wanted f since until (r_msg r).
Proof.
  intros [_ _ [_ Hfold]]. unfold filter_row, media_filter, params_of.
  cbn [mf_ChatJID mf_SenderJID mf_MediaTypeLike mf_Caption mf_FromMe mf_Since mf_Until mp_Chat mp_Sender mp_MediaType mp_Caption mp_FromMe mp_Since mp_Until].
  rewrite Hfold, !andb_true_iff, caption_wanted.
  rewrite (or_empty _ _ (hm_ChatJID (r_msg r) = lf_Chat f)) by apply String.eqb_eq.
  rewrite (or_empty _ _ (hm_SenderJID (r_msg r) = lf_Sender f \/ hm_SenderAltJID (r_msg r) = lf_Sender f)) by by rewrite orb_true_iff, !String.eqb_eq.
  assert (Ht : (str_empty (if str_empty (lf_Type f) then "%/%" else mediaTypeLikePattern (lf_Type f))
                || like None (if str_empty (lf_Type f) then "%/%" else mediaTypeLikePattern (lf_Type f)) (hm_MediaType (r_msg r))) = true
               <-> of_type (lf_Type f) (hm_MediaType (r_msg r))).
  { rewrite <- like_type, orb_true_iff. split; [|by right]. intros [He|]; [exfalso|done]. destruct (str_empty (lf_Type f)) eqn:E; [done|].
    unfold mediaTypeLikePattern in He. rewrite E in He. destruct (lf_Type f); [done|]. by repeat case_match. }
  rewrite Ht, !orb_true_iff, !Z.leb_le. unfold row_ts.
  assert (Hd : match direction f with Some b => Bool.eqb (hm_IsFromMe (r_msg r)) b | None => true end = true
               <-> match direction f with Some b => hm_IsFromMe (r_msg r) = b | None => True end).
  { destruct (direction f); [by rewrite eqb_true_iff|done]. }
  rewrite Hd. split; [intros [[[[[[]]]]]]; split; try done; lia|intros []; split_and!; try done; lia].
Qed.
End Wanted.

Section Listing.
Context {uni : UnicodeTables} {library : Library} {os : Os} {so : SqlOrder} {tf : TextFold} {errors : JsonErrors} (root : string).

(** What a row of the listing says of its message: all of what the server
    assigned, and a stranger's caption only in its envelope. *)
Record listed (m : StoredMessage) (w : mediaWire) : Prop := {
  listed_as : mw_MessageID w = hm_MessageID m /\ mw_ChatJID w = hm_ChatJID m /\ mw_SenderJID w = hm_SenderJID m
              /\ mw_Timestamp w = hm_Timestamp m /\ mw_MediaType w = hm_MediaType m /\ mw_FromMe w = hm_IsFromMe m;
  listed_caption : hm_IsFromMe m = false -> mw_Caption w = ""
                   /\ (hm_Caption m = "" \/ forall rest, read_channel (mw_Channel w +:+ rest)
                         = Some (mkChannel "wa" (JID_String (parse_or_zero (hm_ChatJID m))) (JID_String (parse_or_zero (hm_SenderJID m)))
                                   (itoa (hm_Timestamp m)) [("caption", None, sanitize (hm_Caption m))], rest)) }.

Lemma mediaRowBase_listed m : listed m (mediaRowBase m).
Proof.
  unfold mediaRowBase. destruct (hm_IsFromMe m) eqn:Eme; (split; [by split_and!|]); [by rewrite Eme|]. intros _. split; [done|]. cbn [mw_Channel].
  destruct (str_empty (hm_Caption m)) eqn:Ec; [left; by apply str_empty_true|right]. intros rest.
  rewrite read_channel_wrap by apply parse_or_zero_ok. unfold caption_field, fields_of, one_field. cbn. by rewrite Ec.
Qed.
Lemma with_info_listed m w i : listed m w -> listed m (with_info w i).
Proof. intros [H1 H2]. by split. Qed.

Lemma media_rows_listed up ctx msgs : forall k fs k' fs' out, media_rows root up ctx msgs k fs = Done (Ok out) k' fs' -> Forall2 listed msgs out.
Proof.
  induction msgs as [|m msgs IH]; intros k fs k' fs' out; [intros [= <- _ _]; constructor|]. cbn [media_rows]. unfold bind.
  destruct (InspectMedia _ _ _ _ _ _) as [[i|e] k1 fs1|fs1]; [|done|done].
  destruct (media_rows root up ctx msgs k1 fs1) as [[rest|e] k2 fs2|fs2] eqn:Er; [|done|done]. cbn. intros [= <- _ _].
  constructor; [|by eapply IH]. destruct i; [apply with_info_listed|]; apply mediaRowBase_listed.
Qed.

(** The line a daemon's JSON-RPC library sends for an outcome of a method: one
    that the client's decoder reads back as that outcome. *)
Definition line_of (r : result json) (line : string) : Prop :=
  no_byte nl line = true /\ has_suffix line (String (chr 13) "") = false
  /\ unmarshal_response line = Some (match r with
       | Ok j => mkResponse (Some j) None
       | Err e => mkResponse None (Some (mkRpcError (RPCWire (Some e)).1 (RPCWire (Some e)).2))
       end).

(** [media.list] over the socket: the greeting, and the handler's answer
    through the one-shot call and its scanner. *)
Definition serve_list (hello : string) (line : result json -> string) (up : Upstream) (ctx : check goerr) (f : fault) (h : history)
    (k : nat) (files : fs) (body : list (string * json)) : res (Z * cmdError) RawMessage :=
  callAndClose (Ok tt) hello
    (match makeMediaListHandler root up ctx f (Some (JObj body)) h k files with
     | Done r _ _ => line r +:+ String nl ""
     | Crashed _ => ""
     end).

Lemma call_line r line : line_of r line ->
  call (line +:+ String nl "")
  = if maxScanToken <=? len line then Broken "read response: bufio.Scanner: token too long"
    else match r with
         | Ok j => Answer (Some j)
         | Err e => Refused (mkRpcError (RPCWire (Some e)).1 (RPCWire (Some e)).2)
         end.
Proof.
  intros (Hn & Hcr & Hu). unfold call, scan. rewrite cut_byte_app by done. destruct (maxScanToken <=? len line); [done|].
  unfold Client.drop_cr. rewrite Hcr. unfold answer_of_line. rewrite Hu. by destruct r.
Qed.

Lemma asked_names f since until : lf_Since f = Ok since -> lf_Until f = Ok until ->
  asked f = appliedFilterNames (media_filter (params_of f since until)) (lf_Type f).
Proof.
  intros Es Eu. unfold asked, appliedFilterNames. rewrite Es, Eu. rewrite !on_cons.
  assert (Hmax : forall t, (0 <? Z.max 0 t) = (0 <? t)) by (intros t; lia). cbn. rewrite !Hmax. unfold direction.
  by destruct (lf_FromMe f), (lf_NotFromMe f).
Qed.

Lemma filtered_query f mf h : QueryMessagesFiltered f mf h
  = match fails_at f SQuery with
    | Some e => Err (wrapc "sqlitehistory: query messages filtered" e)
    | None => Ok (map r_msg (limited (if 500 <? (if mf_Limit mf <=? 0 then 50 else mf_Limit mf) then 500 else if mf_Limit mf <=? 0 then 50 else mf_Limit mf)
                               (newest_first (List.filter (filter_row mf) (h_rows h)))))
    end.
Proof. unfold QueryMessagesFiltered, query. destruct (fails_at f SQuery); [done|]. cbn [res_bind]. unfold scanStoredMessages. by destruct (limited _ _). Qed.

Lemma list_rows up ctx f h k files fl since until body j k' fs' :
  sound h -> lf_Since fl = Ok since -> lf_Until fl = Ok until -> 0 <= lf_Limit fl < 2 ^ 63 -> since < 2 ^ 63 -> until < 2 ^ 63 ->
  media_list_body fl = Ok body -> makeMediaListHandler root up ctx f (Some (JObj body)) h k files = Done (Ok j) k' fs' ->
  exists p media, (forall x, In x (h_rows h) -> p x = true <-> wanted fl since until (r_msg x))
    /\ j = JObj [("appliedFilters", JArr (map jstr (asked fl))); ("media", JArr (map media_json media))]
    /\ Forall2 listed (map r_msg (limited (if lf_Limit fl <=? 0 then 50 else Z.min 500 (lf_Limit fl)) (newest_first (List.filter p (h_rows h))))) media.
Proof.
  intros Hs Es Eu Hl Hsi Hun Hb. unfold makeMediaListHandler. unfold optional_params, unmarshal_params.
  rewrite (body_decodes _ _ _ _ Es Eu Hl Hsi Hun Hb), filtered_query. destruct (fails_at f SQuery); [done|]. unfold bind.
  destruct (media_rows _ _ _ _ _ _) as [[out|e] k2 fs2|fs2] eqn:Em; [|done|done]. cbn [res_bind ret]. intros [= <- _ _].
  exists (filter_row (media_filter (params_of fl since until))), out. split_and!.
  - intros x Hx. apply filter_row_wanted. destruct Hs as [_ Hr _]. by eapply Forall_forall, list_elem_of_In.
  - by rewrite (asked_names _ _ _ Es Eu).
  - apply media_rows_listed in Em. cbn [media_filter mf_Limit params_of mp_Limit] in Em.
    replace (if lf_Limit fl <=? 0 then 50 else Z.min 500 (lf_Limit fl))
      with (if 500 <? (if lf_Limit fl <=? 0 then 50 else lf_Limit fl) then 500 else if lf_Limit fl <=? 0 then 50 else lf_Limit fl); [done|].
    destruct (Z.leb_spec (lf_Limit fl) 0); [done|]. destruct (Z.ltb_spec 500 (lf_Limit fl)); lia.
Qed.
End Listing.

(** C31. A listing of media over the socket is exactly as narrow as it was asked
    for, when it can be read at all.  An answer whose line has 64 KiB or more
    is not read: the command fails with that error and prints nothing.  Any
    shorter answer of this daemon passes the client's own check, which never
    refuses one, and is printed; it names the filters that were given, and its
    rows are, newest first and up to the limit, exactly the messages of the
    table that match all of them: chat, sender under either of its addresses,
    type of media, the folded words of the caption (words that fold to nothing
    match every caption), direction and times.  A row says what the server
    assigned to its message, and a stranger's caption only inside an
    envelope.  An error of the daemon comes through with its exit code. *)
Theorem media_list_narrow {uni : UnicodeTables} {library : Library} {os : Os} {so : SqlOrder} {tf : TextFold} {errors : JsonErrors}
    (root hello : string) (line : result json -> string)
    (up : Upstream) (ctx : check goerr) (f : fault) (h : history) (k : nat) (files : fs) (fl : listFlags) (since until : Z)
    (body : list (string * json)) (greeting : RawMessage) (r : result json) (k' : nat) (fs' : fs) :
  sound h -> lf_Since fl = Ok since -> lf_Until fl = Ok until -> 0 <= lf_Limit fl < 2 ^ 63 -> since < 2 ^ 63 -> until < 2 ^ 63 ->
  media_list_body fl = Ok body -> call hello = Answer greeting ->
  makeMediaListHandler root up ctx f (Some (JObj body)) h k files = Done r k' fs' -> line_of r (line r) ->
  mediaListCmd fl (serve_list root hello line up ctx f h k files)
  = (if maxScanToken <=? len (line r) then Err (exiterr 1 (CNew "read response: bufio.Scanner: token too long"))
     else match r with
          | Ok j => Ok (Some j)
          | Err e => let '(code, msg) := RPCWire (Some e) in Err (exiterr (rpcCodeToExit code) (CRpc (mkRpcError code msg)))
          end)
  /\ forall j, r = Ok j ->
     exists p media, (forall x, In x (h_rows h) -> p x = true <-> wanted fl since until (r_msg x))
       /\ j = JObj [("appliedFilters", JArr (map jstr (asked fl))); ("media", JArr (map media_json media))]
       /\ Forall2 listed (map r_msg (limited (if lf_Limit fl <=? 0 then 50 else Z.min 500 (lf_Limit fl)) (newest_first (List.filter p (h_rows h)))))
            media.
Proof.
  intros Hs Es Eu Hl Hsi Hun Hb Hh Em Hline.
  assert (Hr : forall j, r = Ok j -> exists p media, (forall x, In x (h_rows h) -> p x = true <-> wanted fl since until (r_msg x))
       /\ j = JObj [("appliedFilters", JArr (map jstr (asked fl))); ("media", JArr (map media_json media))]
       /\ Forall2 listed (map r_msg (limited (if lf_Limit fl <=? 0 then 50 else Z.min 500 (lf_Limit fl)) (newest_first (List.filter p (h_rows h)))))
            media) by (intros j ->; by eapply list_rows).
  split; [|done]. unfold mediaListCmd. rewrite Hb. unfold serve_list, callAndClose. rewrite Hh, Em, (call_line _ _ Hline).
  destruct (maxScanToken <=? len (line r)); [done|]. destruct r as [j|e]; [|cbn [re_Code]; by destruct (RPCWire (Some e))].
  destruct (Hr j eq_refl) as (p & media & _ & -> & _). rewrite (verify_passes _ _ (asked fl)); [done|apply applied_reads|].
  intros q Hq Hn. rewrite (applied_is_sent _ _ _ _ Es Eu Hb), <- (asked_names _ _ _ Es Eu) in Hq. destruct Hq as [<-|Hq]; [|done].
  exfalso. revert Hn. vm_compute. intuition discriminate.
Qed.

Definition demo_picture (id : string) (ts : Z) (caption : string) : StoredMessage :=
  mkStored "551199@s.whatsapp.net" "551199@s.whatsapp.net" id ts caption "image/png" caption false "" "Ana" 0 "" "" "".
Definition picture_history : history :=
  (History.Insert History.working [demo_picture "P" 5 "the Invoice"; demo_picture "Q" 6 "a cat"] demo_history).2.
Definition picture_flags : listFlags := mkListFlags 50 "" "551199@s.whatsapp.net" "image" "INVOICE" false true (Ok 0) (Ok 0).
Definition quiet_upstream : Upstream :=
  {| MediaCas.GetRawProto := fun _ _ => Err ErrNotExist; MediaCas.proto_Unmarshal := fun _ => Err (ENew "no message");
     MediaCas.DownloadAny := fun _ => Err (ENew "offline") |}.
Definition demo_os : Os := mkOs (fun _ => false) (fun _ _ => None) (fun _ => 0%nat).

Lemma picture_sound : sound picture_history.
Proof.
  split.
  - apply (bool_decide_unpack _). vm_compute. exact I.
  - repeat (apply Forall_cons_2; [split; vm_compute; repeat split; discriminate|]). apply Forall_nil_2.
  - repeat (apply Forall_cons_2; [vm_compute; reflexivity|]). apply Forall_nil_2.
Qed.

Definition picture_body : list (string * json) :=
  [("limit", JNum "50"); ("sender", JStr "551199@s.whatsapp.net"); ("mediaType", JStr "image"); ("caption", JStr "INVOICE"); ("fromMe", JBool false)].
Definition picture_answer : result json :=
  Ok (JObj [("appliedFilters", JArr [jstr "sender"; jstr "mediaType"; jstr "caption"; jstr "fromMe"]);
            ("media", JArr [media_json (mediaRowBase (demo_picture "P" 5 "the Invoice"))])]).
(** A connection whose lines stand for a greeting and for the answer. *)
#[local] Instance picture_library : Library :=
  {| re_Compile := fun _ => Ok tt; re_MatchString := fun _ _ => false;
     json_parse := fun s => match picture_answer with
       | Ok j => if (s =? "answer")%string then Some (JObj [("result", j)]) else Some (JObj [("result", JNull)])
       | Err _ => None end |}.

Lemma media_list_narrow_witness :
  mediaListCmd picture_flags (@serve_list _ picture_library demo_os _ _ _ "/c" "hello" (fun _ => "answer") quiet_upstream (Ok tt) None picture_history 0 ∅)
  = match picture_answer with Ok j => Ok (Some j) | Err _ => Ok None end.
Proof.
  assert (Eh : exists k' fs', @makeMediaListHandler _ demo_os _ _ _ "/c" quiet_upstream (Ok tt) None (Some (JObj picture_body)) picture_history 0%nat ∅
               = Done picture_answer k' fs') by (do 2 eexists; vm_compute; reflexivity).
  destruct Eh as (k' & fs' & Eh).
  destruct (@media_list_narrow _ picture_library demo_os _ _ _ "/c" "hello" (fun _ => "answer") quiet_upstream (Ok tt) None picture_history 0 ∅ picture_flags 0 0
    picture_body (Some JNull) picture_answer k' fs' picture_sound) as [-> _]; [reflexivity|reflexivity|vm_compute; split; [discriminate|reflexivity]
    |reflexivity|reflexivity|vm_compute; reflexivity|vm_compute; reflexivity|exact Eh|split_and!; vm_compute; reflexivity|].
  vm_compute. reflexivity.
Defined.
