(* ===== verification/Contacts.v ===== *)
(** * Contacts and identities

    The contact mirror: [sqlitecontacts/contacts.go] (the table of contacts),
    [contactmirror/mirror.go] (its sources and their synchronisation), the
    directory of [whatsmeow/directory.go], and the methods of
    [app/method_contacts.go], [contact_profile.go] and [method_identity.go].
    The contact store of the client library, the trigram index and the order
    SQLite leaves open are parameters; an upsert and an annotation allocate
    their sequence number and write in one step. *)
From S2P Require Import Prelude GoStd Errors Jid Policy Profile Message Values Json Idem Draft DraftQueue Envelope Projection FileSys MediaCas History Client HistoryApi.

#[local] Open Scope string_scope.
#[local] Open Scope list_scope.
#[local] Open Scope Z_scope.

(** ** sqlitecontacts/contacts.go *)

(** The columns the code reads or writes; a NULL text is empty. *)
Record contact_row := mkContactRow {
  cr_push_name : string; cr_display_name : string; cr_is_business : bool; cr_e164 : string; cr_notes : string; cr_tags : string;
  cr_first_seen : Z; cr_updated_at : Z; cr_updated_seq : Z }.
(** The table by JID, and the last sequence number given. *)
Record contacts := mkContacts { c_rows : gmap string contact_row; c_lastSeq : Z }.

Definition sqlitecontacts_ErrNotFound : goerr := ENew "sqlitecontacts: not found".
Definition not_found (jid : JID) : goerr := EWrap "" sqlitecontacts_ErrNotFound (": " +:+ JID_String jid).

Definition Store_Lookup (f : fault) (jid : JID) (s : contacts) : result Contact :=
  fail_if JID_IsZero jid with wrapc "sqlitecontacts.Lookup" (EDom domain.ErrInvalidJID) ;;
  match fails_at f SQuery with
  | Some e => Err (wrapc "sqlitecontacts: scan" e)
  | None => match c_rows s !! JID_String jid with
            | None => Err (not_found jid)
            | Some r => Ok (mkContact jid (cr_push_name r) (cr_is_business r))
            end
  end.

Section Table.
Context {order : SqlOrder}.

Definition Store_Resolve (f : fault) (phone : string) (s : contacts) : result JID :=
  let trimmed := trim_prefix "+" (trim_space phone) in
  fail_if str_empty trimmed with ENew "sqlitecontacts.Resolve: empty phone" ;;
  match fails_at f SQuery with
  | Some e => Err (wrapc "sqlitecontacts: scan" e)
  | None =>
    match order_by (fun _ => 0) (List.filter (fun kv : string * contact_row => (cr_e164 kv.2 =? phone)%string || (cr_e164 kv.2 =? trimmed)%string)
                                   (map_to_list (c_rows s))) with
    | [] => ParsePhone phone
    | kv :: _ => Parse kv.1
    end
  end.

(** A row whose JID does not parse is left out. *)
Definition scan_contact (kv : string * contact_row) : option Contact :=
  match Parse kv.1 with Err _ => None | Ok j => Some (mkContact j (cr_push_name kv.2) (cr_is_business kv.2)) end.
Definition scanContacts (rows : list (string * contact_row)) : list Contact := omap scan_contact rows.

(** [matches]: the rows the index finds, the latest changed first. *)
Definition Store_Search (matches : string -> gmap string contact_row -> list (string * contact_row)) (f : fault) (q : string) (limit : Z)
    (s : contacts) : result (list Contact) :=
  fail_if str_empty (trim_space q) with ENew "sqlitecontacts.Search: empty query" ;;
  fail_if (limit <=? 0) || (50 <? limit) with ENew ("sqlitecontacts.Search: limit " +:+ itoa limit +:+ " out of (0,50]") ;;
  match fails_at f SQuery with
  | Some e => Err (wrapc "sqlitecontacts: search" e)
  | None => Ok (scanContacts (limited limit (order_by (fun kv => - cr_updated_seq kv.2) (matches q (c_rows s)))))
  end.

Definition dedupe_step (acc : list string) (t : string) : list string :=
  let t := trim_space t in
  if str_empty t || existsb (String.eqb t) acc then acc else acc ++ [t].
Definition dedupe (tags : list string) : list string := foldl dedupe_step [] tags.

(** [now]: the clock in seconds. *)
Definition Store_Annotate (f : fault) (now : Z) (jid : JID) (notes : string) (tags : list string) (s : contacts) : check goerr * contacts :=
  if JID_IsZero jid then (Err (EWrap "" (EDom domain.ErrInvalidJID) ""), s)
  else
    let seq := c_lastSeq s + 1 in
    match fails_at f SExec with
    | Some e => (Err (wrapc "sqlitecontacts: annotate" e), mkContacts (c_rows s) seq)
    | None =>
      (Ok tt, mkContacts (alter (fun r => mkContactRow (cr_push_name r) (cr_display_name r) (cr_is_business r) (cr_e164 r) notes
                                            (comma_join (dedupe tags)) (cr_first_seen r) now seq) (JID_String jid) (c_rows s)) seq)
    end.

Definition Store_ListChanged (f : fault) (sinceSeq limit : Z) (s : contacts) : result (list Contact) :=
  fail_if limit <=? 0 with ENew "sqlitecontacts.ListChanged: invalid limit" ;;
  match fails_at f SQuery with
  | Some e => Err (wrapc "sqlitecontacts: list" e)
  | None => Ok (scanContacts (limited limit (order_by (fun kv : string * contact_row => cr_updated_seq kv.2)
                  (List.filter (fun kv : string * contact_row => sinceSeq <? cr_updated_seq kv.2) (map_to_list (c_rows s))))))
  end.

Definition Store_Upsert (f : fault) (now : Z) (c : Contact) (s : contacts) : check goerr * contacts :=
  if JID_IsZero (ct_JID c) then (Err (EWrap "" (EDom domain.ErrInvalidJID) ""), s)
  else
    let seq := c_lastSeq s + 1 in
    let key := JID_String (ct_JID c) in
    match fails_at f SExec with
    | Some e => (Err (wrapc "sqlitecontacts: upsert" e), mkContacts (c_rows s) seq)
    | None =>
      let row := match c_rows s !! key with
                 | None => mkContactRow (ct_PushName c) (DisplayName c) (ct_Verified c) "" "" "" now now seq
                 | Some r => mkContactRow (ct_PushName c) (DisplayName c) (ct_Verified c) (cr_e164 r) (cr_notes r) (cr_tags r) (cr_first_seen r) now seq
                 end in
      (Ok tt, mkContacts (<[key := row]> (c_rows s)) seq)
    end.

End Table.

(** ** ports_017.go: SyncMode *)

Definition SyncDelta : Z := 1.
Definition SyncFull : Z := 2.
Definition SyncMode_String (m : Z) : string := if m =? SyncDelta then "delta" else if m =? SyncFull then "full" else "unknown".
Definition SyncMode_IsValid (m : Z) : bool := (m =? SyncDelta) || (m =? SyncFull).

(** ** whatsmeow/directory.go *)

(** A contact of the client library's store. *)
Record ContactInfo := mkInfo { in_PushName : string; in_FullName : string; in_BusinessName : string }.
Definition bestContactName (pushName fullName businessName : string) : string :=
  let name := if str_empty pushName then fullName else pushName in
  if str_empty name then businessName else name.

(** [for wjid, info := range all], in the order of the list. *)
Definition merge_contact (merged : gmap JID Contact) (e : string * ContactInfo) : gmap JID Contact :=
  match Parse e.1 with
  | Err _ => merged
  | Ok jid =>
    if JID_IsZero jid then merged
    else
      let name := bestContactName (in_PushName e.2) (in_FullName e.2) (in_BusinessName e.2) in
      let richer := match merged !! jid with Some c => negb (str_empty (ct_PushName c)) | None => false end in
      if richer && str_empty name then merged
      else <[jid := mkContact jid name (negb (str_empty (in_BusinessName e.2)))]> merged
  end.
(** [all]: [None] when there is no store. *)
Definition mergeStoreContacts (all : option (result (list (string * ContactInfo)))) (merged : gmap JID Contact) : result (gmap JID Contact) :=
  match all with
  | None => Ok merged
  | Some (Err e) => Err (wrapc "whatsmeow.AllContacts" e)
  | Some (Ok l) => Ok (foldl merge_contact merged l)
  end.
Definition AllContacts {mr : MapRange JID Contact} (ctx : check goerr) (seed : gmap JID Contact) (all : option (result (list (string * ContactInfo))))
    : result (list Contact) :=
  match ctx with
  | Err e => Err e
  | Ok _ => let* merged := mergeStoreContacts all seed in Ok (map snd (range merged))
  end.

Definition whatsmeow_ErrNotFound : goerr := ENew "whatsmeow: not found".
(** [get]: what the client library's store answers; [None], no store;
    [Ok None], not found. *)
Definition Adapter_Lookup (ctx : check goerr) (seed : gmap JID Contact) (get : option (JID -> result (option ContactInfo))) (jid : JID)
    : result Contact :=
  match ctx with
  | Err e => Err e
  | Ok _ =>
    fail_if JID_IsZero jid with wrapc "ContactDirectory.Lookup" (EDom domain.ErrInvalidJID) ;;
    match seed !! jid, get with
    | Some c, _ => Ok c
    | None, None => Err (EWrap "" whatsmeow_ErrNotFound (": " +:+ JID_String jid))
    | None, Some get =>
      match get jid with
      | Err e => Err (wrapc "ContactDirectory.Lookup" e)
      | Ok None => Err (EWrap "" whatsmeow_ErrNotFound (": " +:+ JID_String jid))
      | Ok (Some i) => Ok (mkContact jid (if str_empty (in_PushName i) then in_FullName i else in_PushName i) false)
      end
    end
  end.
Definition Adapter_Resolve (ctx : check goerr) (phone : string) : result JID :=
  match ctx with Err e => Err e | Ok _ => ParsePhone phone end.

(** ** contactmirror/mirror.go *)

(** [errors.Join]: the texts on lines of their own; what [errors.As] finds in
    it is in the first that has a code. *)
Definition lines_of (l : list goerr) : string := join_byte (chr 10) (map Error l).
Fixpoint errors_join (before after : list goerr) : goerr :=
  match after with
  | [] => ENew (lines_of before)
  | e :: after =>
    match as_coded e with
    | Some _ => EWrap (match before with [] => "" | _ => lines_of before +:+ String (chr 10) "" end) e
                  (match after with [] => "" | _ => String (chr 10) "" +:+ lines_of after end)
    | None => errors_join (before ++ [e]) after
    end
  end.

(** The loops over the sources and their contacts: the table, how many
    statements were made, how many contacts landed, and the errors.
    [f n] is what the n-th statement answers. *)
Record sync_state := mkSync { sy_store : contacts; sy_calls : nat; sy_upserted : Z; sy_errs : list goerr }.
Definition sync_contact (f : nat -> fault) (now : Z) (st : sync_state) (c : Contact) : sync_state :=
  if JID_IsZero (ct_JID c) then st
  else match Store_Upsert (f (sy_calls st)) now c (sy_store st) with
       | (Ok _, s) => mkSync s (S (sy_calls st)) (sy_upserted st + 1) (sy_errs st)
       | (Err e, s) => mkSync s (S (sy_calls st)) (sy_upserted st) (sy_errs st ++ [e])
       end.
Definition sync_source (f : nat -> fault) (now : Z) (st : sync_state) (src : result (list Contact)) : sync_state :=
  match src with
  | Err e => mkSync (sy_store st) (sy_calls st) (sy_upserted st) (sy_errs st ++ [e])
  | Ok l => foldl (sync_contact f now) st l
  end.
Definition Mirror_Sync (f : nat -> fault) (now : Z) (mode : Z) (sources : list (result (list Contact))) (s : contacts) : check goerr * contacts :=
  if negb (SyncMode_IsValid mode) then (Err (ENew ("contactmirror.Sync: invalid mode " +:+ SyncMode_String mode)), s)
  else
    let st := foldl (sync_source f now) (mkSync s 0 0 []) sources in
    match sy_errs st with
    | [] => (Ok tt, sy_store st)
    | errs => if sy_upserted st =? 0 then (Err (wrapc "contactmirror.Sync: all sources failed" (errors_join [] errs)), sy_store st)
              else (Ok tt, sy_store st)
    end.

(** ** The port of the dispatcher *)

(** [d.contacts]: the bare adapter, or the mirror in front of it. *)
Record directory := mkDirectory { dir_Lookup : JID -> result Contact; dir_Resolve : string -> result JID }.
Record contacts_port := mkPort { cp_dir : directory; cp_sources : option (list (result (list Contact))) }.
(** The assertion [d.contacts.(ContactSearcher)]. *)
Definition contactSearcher (p : contacts_port) : result (list (result (list Contact))) :=
  match cp_sources p with None => Err (ERpc app.ErrMethodNotFound) | Some l => Ok l end.

(** ** method_contacts.go *)

Record contactView := mkContactView { cv_JID : string; cv_PushName : string; cv_Verified : bool; cv_Channel : string }.
Definition contact_json (v : contactView) : json :=
  JObj ([("jid", jstr (cv_JID v))] ++ omit_str "pushName" (cv_PushName v) ++ omit_true "verified" (cv_Verified v) ++ omit_str "channel" (cv_Channel v)).

Section Methods.
Context {uni : UnicodeTables} {order : SqlOrder} (matches : string -> gmap string contact_row -> list (string * contact_row)).

Definition contact_name_field (name : string) : InboundFields := mkFields "" "" "" "" "" "" [] name "" "" "" "".
Definition viewContact (c : Contact) : contactView :=
  mkContactView (JID_String (ct_JID c)) "" (ct_Verified c)
    (ChannelWrapFieldsIf (ct_PushName c) (contact_name_field (ct_PushName c)) (ct_JID c) (ct_JID c) 0).
Definition marshalContacts (hits : list Contact) : json := JObj [("contacts", JArr (map (fun c => contact_json (viewContact c)) hits))].

Definition parseJIDParam {P} (dec : list (string * json) -> option P) (jid : P -> string) (raw : RawMessage) : result (P * JID) :=
  let* p := parseParams dec raw in
  fail_if str_empty (jid p) with ERpc app.ErrInvalidParams ;;
  match Parse (jid p) with Err _ => Err (ERpc app.ErrInvalidJID) | Ok j => Ok (p, j) end.

Definition dec_jid (m : list (string * json)) : option string := field dec_str "" "jid" m.
Definition handleContactsLookup (d : contacts_port) (raw : RawMessage) : result json :=
  let* pj := parseJIDParam dec_jid id raw in
  match dir_Lookup (cp_dir d) pj.2 with
  | Err e => Err (wrapc "contacts.lookup" e)
  | Ok c => Ok (JObj [("contact", contact_json (viewContact c))])
  end.

Definition dec_query (m : list (string * json)) : option (string * Z) :=
  q ← field dec_str "" "query" m; l ← field dec_int 0 "limit" m; Some (q, l).
Definition handleContactsSearch (d : contacts_port) (f : fault) (raw : RawMessage) (s : contacts) : result json :=
  let* p := parseParams dec_query raw in
  fail_if str_empty p.1 with ERpc app.ErrInvalidParams ;;
  let limit := if p.2 <=? 0 then 20 else p.2 in
  let limit := if 50 <? limit then 50 else limit in
  let* _ := contactSearcher d in
  match Store_Search matches f p.1 limit s with
  | Err e => Err (wrapc "contacts.search" e)
  | Ok hits => Ok (marshalContacts hits)
  end.

Definition dec_limit (m : list (string * json)) : option Z := field dec_int 0 "limit" m.
Definition handleContactsList (d : contacts_port) (f : fault) (raw : RawMessage) (s : contacts) : result json :=
  let* limit := match raw with None => Ok 0 | Some _ => parseParams dec_limit raw end in
  let limit := if limit <=? 0 then 100 else limit in
  let limit := if 500 <? limit then 500 else limit in
  let* _ := contactSearcher d in
  match Store_ListChanged f 0 limit s with
  | Err e => Err (wrapc "contacts.list" e)
  | Ok hits => Ok (marshalContacts hits)
  end.

Record annotateParams := mkAnnotate { an_JID : string; an_Notes : string; an_Tags : list string }.
Definition dec_annotate (m : list (string * json)) : option annotateParams :=
  j ← field dec_str "" "jid" m; n ← field dec_str "" "notes" m; t ← field dec_strs [] "tags" m; Some (mkAnnotate j n t).
Definition handleContactsAnnotate (d : contacts_port) (f : fault) (now : Z) (raw : RawMessage) (s : contacts) : result json * contacts :=
  match (let* pj := parseJIDParam dec_annotate an_JID raw in let* _ := contactSearcher d in Ok pj) with
  | Err e => (Err e, s)
  | Ok (p, jid) =>
    match Store_Annotate f now jid (an_Notes p) (an_Tags p) s with
    | (Err e, s) => (Err (wrapc "contacts.annotate" e), s)
    | (Ok _, s) => (Ok (JObj []), s)
    end
  end.

(** [mode] starts as [delta], and a null leaves it. *)
Definition dec_mode (m : list (string * json)) : option string := field dec_str "delta" "mode" m.
Definition handleContactsSync (d : contacts_port) (f : nat -> fault) (now : Z) (raw : RawMessage) (s : contacts) : result json * contacts :=
  match (let* m := match raw with None => Ok "delta" | Some _ => parseParams dec_mode raw end in
         let* mode := if str_empty m || (m =? "delta")%string then Ok SyncDelta
                      else if (m =? "full")%string then Ok SyncFull else Err (ERpc app.ErrInvalidParams) in
         let* sources := contactSearcher d in Ok (mode, sources)) with
  | Err e => (Err e, s)
  | Ok (mode, sources) =>
    match Mirror_Sync f now mode sources s with
    | (Err e, s) => (Err (wrapc "contacts.sync" e), s)
    | (Ok _, s) => (Ok (JObj [("mode", jstr (SyncMode_String mode))]), s)
    end
  end.

(** ** contact_profile.go *)

Definition dec_e164 (m : list (string * json)) : option string := field dec_str "" "e164" m.
Definition handleContactsResolveConfirm (d : contacts_port) (raw : RawMessage) : result json :=
  let* e164 := parseParams dec_e164 raw in
  fail_if str_empty e164 with ERpc app.ErrInvalidParams ;;
  match ParsePhone e164 with
  | Err _ => Err (ERpc app.ErrInvalidParams)
  | Ok _ => match dir_Resolve (cp_dir d) e164 with
            | Err e => Err (wrapc "contacts.resolve.confirm" e)
            | Ok jid => Ok (JObj [("jid", jstr (JID_String jid))])
            end
  end.

Definition RefreshPushName (d : contacts_port) (f : fault) (now : Z) (jid : JID) (pushName : string) (s : contacts) : contacts :=
  if JID_IsZero jid || str_empty pushName then s
  else match cp_sources d with
       | None => s
       | Some _ =>
         let unchanged := match dir_Lookup (cp_dir d) jid with Ok c => (ct_PushName c =? pushName)%string | Err _ => false end in
         if unchanged then s else (Store_Upsert f now (mkContact jid pushName false) s).2
       end.

(** ** method_identity.go *)

(** The two lookups of the identity resolver. *)
Record identity := mkIdentity { ResolveLID : JID -> result JID; ResolvePN : JID -> result JID }.
Definition handleContactResolve (d : option identity) (raw : RawMessage) : result json :=
  match d with
  | None => Err (ERpc app.ErrMethodNotFound)
  | Some d =>
    let* p := parseParams dec_jid raw in
    fail_if str_empty p with ERpc app.ErrInvalidParams ;;
    match Parse p with
    | Err _ => Err (ERpc app.ErrInvalidJID)
    | Ok jid =>
      let* ka := (if IsUser jid then Ok ("pn", ResolveLID d jid)
                  else if IsLID jid then Ok ("lid", ResolvePN d jid) else Err (ERpc app.ErrNotIdentity)) in
      match ka.2 with
      | Err e => Err (wrapc "contact.resolve" e)
      | Ok alt => Ok (JObj ([("input", jstr (JID_String jid))] ++ omit_str "alt" (JID_String alt)
                            ++ [("kind", jstr ka.1); ("known", JBool (negb (JID_IsZero alt)))]))
      end
    end
  end.

End Methods.

(** ** The table over time *)

Definition wf_contact (c : Contact) : bool := jid_ok (ct_JID c).
(** Every row has a number of its own, up to the last one given, and the name
    of a JID. *)
Record book_ok (s : contacts) : Prop := {
  bk_seq : forall k r, c_rows s !! k = Some r -> cr_updated_seq r <= c_lastSeq s;
  bk_distinct : forall k r k' r', c_rows s !! k = Some r -> c_rows s !! k' = Some r' -> cr_updated_seq r = cr_updated_seq r' -> k = k';
  bk_keys : forall k, is_Some (c_rows s !! k) -> exists j, wf_jid j = true /\ k = JID_String j }.

(** What was written by hand, or once, stays. *)
Definition kept (r r' : contact_row) : Prop :=
  cr_notes r' = cr_notes r /\ cr_tags r' = cr_tags r /\ cr_e164 r' = cr_e164 r /\ cr_first_seen r' = cr_first_seen r.
(** What a source said of a contact. *)
Definition says (c : Contact) (r : contact_row) : Prop :=
  cr_push_name r = ct_PushName c /\ cr_is_business r = ct_Verified c /\ cr_display_name r = DisplayName c.

Lemma kept_refl r : kept r r.
Proof. done. Qed.

(** A row at a number that is given next. *)
Lemma book_insert s k r : book_ok s -> cr_updated_seq r = c_lastSeq s + 1 -> (exists j, wf_jid j = true /\ k = JID_String j) ->
  book_ok (mkContacts (<[k := r]> (c_rows s)) (c_lastSeq s + 1)).
Proof.
  intros [H1 H2 H3] Hr Hk. split; cbn [c_rows c_lastSeq].
  - intros k' r' [[<- <-]|[_ E]]%lookup_insert_Some; [lia|]. specialize (H1 _ _ E). lia.
  - intros k1 r1 k2 r2 E1 E2 Es. apply lookup_insert_Some in E1 as [[<- <-]|[N1 E1]], E2 as [[<- <-]|[N2 E2]]; try done.
    + specialize (H1 _ _ E2). lia.
    + specialize (H1 _ _ E1). lia.
    + by eapply H2.
  - intros k' [r' [[<- <-]|[_ E]]%lookup_insert_Some]; [done|]. by apply H3; eexists.
Qed.
Lemma book_skip s n : book_ok s -> c_lastSeq s <= n -> book_ok (mkContacts (c_rows s) n).
Proof. intros [H1 H2 H3] Hn. split; [|done|done]. intros k r E. cbn in *. specialize (H1 _ _ E). lia. Qed.

(** One upsert: the row says what it was given and keeps the rest; a failing
    statement changes no row. *)
Lemma upsert_spec f now c s r s' : book_ok s -> wf_contact c = true -> Store_Upsert f now c s = (r, s') ->
  book_ok s' /\ c_lastSeq s <= c_lastSeq s'
  /\ match r with
     | Err _ => c_rows s' = c_rows s
     | Ok _ => JID_IsZero (ct_JID c) = false
               /\ exists row, c_rows s' = <[JID_String (ct_JID c) := row]> (c_rows s) /\ says c row /\ cr_updated_seq row = c_lastSeq s'
                              /\ forall old, c_rows s !! JID_String (ct_JID c) = Some old -> kept old row
     end.
Proof.
  intros Hb Hw. unfold Store_Upsert. destruct (JID_IsZero (ct_JID c)) eqn:Ez; [by intros [= <- <-]|].
  destruct (fails_at f SExec); intros [= <- <-].
  - split_and!; [apply book_skip; [done|lia]|cbn; lia|done].
  - assert (Hk : exists j, wf_jid j = true /\ JID_String (ct_JID c) = JID_String j).
    { exists (ct_JID c). split; [|done]. unfold wf_contact, jid_ok in Hw. by rewrite Ez in Hw. }
    destruct (c_rows s !! JID_String (ct_JID c)) as [old|] eqn:El; (split_and!; [by apply book_insert|cbn; lia|done|]);
      eexists; (split_and!; [done|done|done|by intros ? [= <-]]).
Qed.

Lemma alter_found {A} (g : A -> A) (m : gmap string A) k a : m !! k = Some a -> alter g k m = <[k := g a]> m.
Proof.
  intros E. apply map_eq. intros i. destruct (decide (i = k)) as [->|Hi].
  - by rewrite lookup_alter_eq, E, lookup_insert_eq.
  - by rewrite lookup_alter_ne, lookup_insert_ne by done.
Qed.
Lemma alter_missing {A} (g : A -> A) (m : gmap string A) k : m !! k = None -> alter g k m = m.
Proof.
  intros E. apply map_eq. intros i. destruct (decide (i = k)) as [->|Hi]; [by rewrite lookup_alter_eq, E|by rewrite lookup_alter_ne].
Qed.

Lemma annotate_spec f now jid notes tags s r s' : book_ok s -> Store_Annotate f now jid notes tags s = (r, s') ->
  book_ok s' /\ forall k, k <> JID_String jid -> c_rows s' !! k = c_rows s !! k.
Proof.
  intros Hb. unfold Store_Annotate. destruct (JID_IsZero jid); [by intros [= <- <-]|].
  destruct (fails_at f SExec); intros [= <- <-]; (split; [|cbn; intros k Hk; by rewrite ?lookup_alter_ne by done]).
  - apply book_skip; [done|lia].
  - destruct (c_rows s !! JID_String jid) as [old|] eqn:El.
    + rewrite (alter_found _ _ _ old) by done. apply book_insert; [done|done|]. apply (bk_keys _ Hb). by eexists.
    + rewrite (alter_missing _ _ _ El). apply book_skip; [done|lia].
Qed.

(** ** A synchronisation *)

(** The contacts of the sources that answered, in their order. *)
Definition heard (sources : list (result (list Contact))) : list Contact :=
  concat (map (fun src => match src with Ok l => l | Err _ => [] end) sources).
Definition named (k : string) (c : Contact) : bool := negb (JID_IsZero (ct_JID c)) && (JID_String (ct_JID c) =? k)%string.
(** The last contact of the list that has the name of a row. *)
Definition speaks (k : string) (l : list Contact) : option Contact := last (List.filter (named k) l).
Definition quiet_calls (f : nat -> fault) : Prop := forall n, fails_at (f n) SExec = None.
Definition from_source (l : list Contact) (k : string) (r : contact_row) : Prop := exists c, In c l /\ named k c = true /\ says c r.

Record synced (f : nat -> fault) (s : contacts) (l : list Contact) (st : sync_state) : Prop := {
  sd_book : book_ok (sy_store st);
  sd_old : forall k old, c_rows s !! k = Some old -> exists r, c_rows (sy_store st) !! k = Some r /\ kept old r /\ (r = old \/ from_source l k r);
  sd_new : forall k r, c_rows s !! k = None -> c_rows (sy_store st) !! k = Some r -> from_source l k r;
  sd_none : 0 <= sy_upserted st /\ (sy_upserted st = 0 -> c_rows (sy_store st) = c_rows s);
  sd_last : quiet_calls f -> forall k, match speaks k l with
                                        | Some c => exists r, c_rows (sy_store st) !! k = Some r /\ says c r
                                        | None => c_rows (sy_store st) !! k = c_rows s !! k
                                        end;
  sd_landed : quiet_calls f -> (sy_upserted st = 0 <-> forall c, In c l -> JID_IsZero (ct_JID c) = true) }.

Lemma speaks_snoc k l c : speaks k (l ++ [c]) = if named k c then Some c else speaks k l.
Proof. unfold speaks. rewrite List.filter_app. cbn. destruct (named k c); [by rewrite last_snoc|by rewrite app_nil_r]. Qed.

Lemma from_source_more l c k r : from_source l k r -> from_source (l ++ [c]) k r.
Proof. intros (x & Hx & H). exists x. split; [by apply in_app_iff; left|done]. Qed.

Lemma sync_contact_spec f now s l st c : synced f s l st -> wf_contact c = true -> synced f s (l ++ [c]) (sync_contact f now st c).
Proof.
  intros [Hb Ho Hn H0 Hl Hz] Hw. unfold sync_contact. destruct (JID_IsZero (ct_JID c)) eqn:Ez.
  - assert (Hnm : forall k, named k c = false) by (intros k; unfold named; by rewrite Ez). split; [done| | |done| |].
    + intros k old E. destruct (Ho k old E) as (r & E' & Hk & [->|Hs]); eauto 7 using from_source_more.
    + intros k r E E'. by apply from_source_more, Hn.
    + intros Hq k. rewrite speaks_snoc, Hnm. by apply Hl.
    + intros Hq. rewrite (Hz Hq). split; intros Hall x Hx; [apply in_app_iff in Hx as [Hx|[<-|[]]]; [by apply Hall|done]|apply Hall, in_app_iff; by left].
  - destruct (Store_Upsert (f (sy_calls st)) now c (sy_store st)) as [r s'] eqn:E.
    assert (Hq0 : quiet_calls f -> r = Ok tt).
    { intros Hq. unfold Store_Upsert in E. rewrite Ez, Hq in E. by injection E as <- _. }
    destruct (upsert_spec _ _ _ _ _ _ Hb Hw E) as (Hb' & _ & Hr). destruct r as [[]|e].
    + destruct Hr as (_ & row & Erow & Hs & _ & Hkept).
      assert (Hnm : named (JID_String (ct_JID c)) c = true) by (unfold named; by rewrite Ez, String.eqb_refl).
      assert (Hother : forall k, k <> JID_String (ct_JID c) -> named k c = false).
      { intros k Hk. unfold named. apply andb_false_iff. right. by apply String.eqb_neq. }
      assert (Hsrc : from_source (l ++ [c]) (JID_String (ct_JID c)) row).
      { exists c. split; [apply in_app_iff; right; by left|done]. }
      split; cbn [sy_store sy_upserted]; [done| | | | |].
      * intros k old Eo. rewrite Erow. destruct (decide (k = JID_String (ct_JID c))) as [->|Hk].
        -- exists row. rewrite lookup_insert_eq. destruct (Ho _ _ Eo) as (r & Er & [K1 [K2 [K3 K4]]] & _).
           destruct (Hkept r Er) as (Q1 & Q2 & Q3 & Q4). split_and!; [done|unfold kept; split_and!; congruence|by right].
        -- rewrite lookup_insert_ne by done. destruct (Ho k old Eo) as (r & E' & Hk' & [->|Hs']); eauto 7 using from_source_more.
      * intros k r0 En E0. rewrite Erow in E0. apply lookup_insert_Some in E0 as [[<- <-]|[_ E0]]; [done|by apply from_source_more, Hn].
      * split; [lia|intros; lia].
      * intros Hq k. rewrite speaks_snoc, Erow. destruct (decide (k = JID_String (ct_JID c))) as [->|Hk].
        -- rewrite Hnm, lookup_insert_eq. by exists row.
        -- rewrite Hother, lookup_insert_ne by done. by apply Hl.
      * intros Hq. split; [lia|]. intros Hall. rewrite Hall in Ez; [done|]. apply in_app_iff. right. by left.
    + split; cbn [sy_store sy_upserted]; rewrite ?Hr; [done| | |done| |].
      * intros k old Eo. destruct (Ho k old Eo) as (r & E' & Hk' & [->|Hs']); eauto 7 using from_source_more.
      * intros k r0 En E0. by apply from_source_more, Hn.
      * intros Hq. by specialize (Hq0 Hq).
      * intros Hq. by specialize (Hq0 Hq).
Qed.

Lemma sync_contacts_spec f now s l2 : Forall (fun c => wf_contact c = true) l2 -> forall l st, synced f s l st ->
  synced f s (l ++ l2) (foldl (sync_contact f now) st l2).
Proof.
  induction 1 as [|c l2 Hc _ IH]; intros l st H; [by rewrite app_nil_r|]. cbn [foldl].
  replace (l ++ c :: l2) with ((l ++ [c]) ++ l2) by by rewrite <- app_assoc. by apply IH, sync_contact_spec.
Qed.

Lemma sync_sources_spec f now s sources : Forall (fun c => wf_contact c = true) (heard sources) -> forall l st, synced f s l st ->
  synced f s (l ++ heard sources) (foldl (sync_source f now) st sources).
Proof.
  induction sources as [|src sources IH]; intros Hw l st H; [by rewrite app_nil_r|]. unfold heard in *. cbn [map concat] in *.
  apply Forall_app in Hw as [Hw1 Hw2]. rewrite app_assoc. cbn [foldl]. apply IH; [done|]. unfold sync_source.
  destruct src as [contacts|e]; [by apply sync_contacts_spec|]. rewrite app_nil_r. destruct H as [H1 H2 H3 H4 H5 H6]. by split.
Qed.

(** When no statement fails, the errors are those of the sources. *)
Lemma sync_contacts_errs f now l : quiet_calls f -> forall st, sy_errs (foldl (sync_contact f now) st l) = sy_errs st.
Proof.
  intros Hq. induction l as [|c l IH]; intros st; [done|]. cbn [foldl]. rewrite IH. unfold sync_contact, Store_Upsert.
  destruct (JID_IsZero _); [done|]. by rewrite Hq.
Qed.
Lemma sync_sources_errs f now sources : quiet_calls f -> forall st,
  sy_errs (foldl (sync_source f now) st sources) = sy_errs st ++ omap (fun src => match src with Err e => Some e | Ok _ => None end) sources.
Proof.
  intros Hq. induction sources as [|src sources IH]; intros st; [by rewrite app_nil_r|]. cbn [foldl]. rewrite IH. unfold sync_source.
  destruct src as [l|e]; cbn; [by rewrite sync_contacts_errs|by rewrite <- app_assoc].
Qed.

Lemma synced_start f s : book_ok s -> synced f s [] (mkSync s 0 0 []).
Proof. intros Hb. split; cbn; [done|intros k old E; exists old; eauto using kept_refl|congruence|done|done|done]. Qed.

(** C32. A synchronisation loses nothing of the contact book.  Whatever sources
    and statements fail: no contact goes, and the notes, tags and first sight
    of each stay; every row that is new or changed says what a source that
    answered said of it; the numbers of the rows stay distinct; and when it
    ends in an error no row was changed.  When no statement fails, each contact is as the last source that
    names it says, and the synchronisation fails exactly when a source failed
    and none of the others named a contact. *)
Theorem contacts_synced (f : nat -> fault) (now mode : Z) (sources : list (result (list Contact))) (s s' : contacts) (r : check goerr) :
  book_ok s -> Forall (fun c => wf_contact c = true) (heard sources) -> SyncMode_IsValid mode = true ->
  Mirror_Sync f now mode sources s = (r, s') ->
  book_ok s'
  /\ (forall k old, c_rows s !! k = Some old ->
        exists row, c_rows s' !! k = Some row /\ kept old row /\ (row = old \/ from_source (heard sources) k row))
  /\ (forall k row, c_rows s !! k = None -> c_rows s' !! k = Some row -> from_source (heard sources) k row)
  /\ (is_ok r = false -> c_rows s' = c_rows s)
  /\ (quiet_calls f ->
      (forall k, match speaks k (heard sources) with
                 | Some c => exists row, c_rows s' !! k = Some row /\ says c row
                 | None => c_rows s' !! k = c_rows s !! k
                 end)
      /\ (is_ok r = false <-> (exists e, In (Err e) sources) /\ forall c, In c (heard sources) -> JID_IsZero (ct_JID c) = true)).
Proof.
  intros Hb Hw Hm. unfold Mirror_Sync. rewrite Hm. cbn [negb].
  pose proof (sync_sources_spec f now s sources Hw [] _ (synced_start f s Hb)) as [H1 H2 H3 H4 H5 H6].
  pose proof (fun Hq => sync_sources_errs f now sources Hq (mkSync s 0 0 [])) as He. cbn [app sy_errs] in *.
  set (st := foldl (sync_source f now) (mkSync s 0 0 []) sources) in *.
  assert (Hsrc : forall e, In e (omap (fun src : result (list Contact) => match src with Err e => Some e | Ok _ => None end) sources)
                 <-> In (Err e) sources).
  { intros e. rewrite <- !list_elem_of_In, list_elem_of_omap. split; [intros (src & Hin & Hs); by destruct src; simplify_eq|].
    intros Hin. by exists (Err e). }
  destruct (sy_errs st) as [|e0 errs] eqn:Ee.
  - intros [= <- <-]. split_and!; [done|done|done|done|]. intros Hq. split; [by apply H5|]. split; [done|]. intros [Hex _].
    exfalso. destruct Hex as [e Hin%Hsrc]. by rewrite <- He in Hin.
  - assert (Hex : quiet_calls f -> exists e, In (Err e) sources).
    { intros Hq. exists e0. apply Hsrc. rewrite <- He by done. by left. }
    destruct (sy_upserted st =? 0) eqn:Eu; intros [= <- <-]; (split_and!; [done|done|done| |]).
    + intros _. apply H4. by apply Z.eqb_eq.
    + intros Hq. split; [by apply H5|]. split; [|done]. intros _. split; [by apply Hex|]. apply (H6 Hq). by apply Z.eqb_eq.
    + done.
    + intros Hq. split; [by apply H5|]. split; [done|]. intros [_ Hz]. apply (H6 Hq) in Hz. by apply Z.eqb_neq in Eu.
Qed.

(** ** What the methods answer *)

(** A contact's name, which it chose itself, is answered inside an envelope
    that names the contact and reads back to it. *)
Lemma contact_fenced {uni : UnicodeTables} c : wf_contact c = true ->
  cv_PushName (viewContact c) = ""
  /\ (ct_PushName c = "" /\ cv_Channel (viewContact c) = ""
      \/ forall rest, read_channel (cv_Channel (viewContact c) +:+ rest)
           = Some (mkChannel "wa" (JID_String (ct_JID c)) (JID_String (ct_JID c)) "0" [("contact_name", None, sanitize (ct_PushName c))], rest)).
Proof.
  intros Hw. split; [done|]. unfold viewContact, ChannelWrapFieldsIf. cbn [cv_Channel]. destruct (str_empty (ct_PushName c)) eqn:E.
  - left. by apply str_empty_true in E.
  - right. intros rest. rewrite read_channel_wrap by done. unfold fields_of, one_field. cbn. by rewrite E.
Qed.

(** A tag is stored once, without the spaces around it. *)
Lemma dedupe_spec tags : NoDup (dedupe tags) /\ forall t, t ∈ dedupe tags <-> t <> "" /\ exists u, u ∈ tags /\ trim_space u = t.
Proof.
  unfold dedupe. set (P := fun acc seen : list string => NoDup acc /\ forall t, t ∈ acc <-> t <> "" /\ exists u, u ∈ seen /\ trim_space u = t).
  assert (Hgo : forall l acc before, P acc before -> P (foldl dedupe_step acc l) (before ++ l)).
  { induction l as [|u l IH]; intros acc before [Hnd Hacc]; [by rewrite app_nil_r|]. cbn [foldl].
    replace (before ++ u :: l) with ((before ++ [u]) ++ l) by by rewrite <- app_assoc. apply IH. unfold dedupe_step.
    assert (Hb : existsb (String.eqb (trim_space u)) acc = true <-> trim_space u ∈ acc).
    { rewrite existsb_exists. setoid_rewrite String.eqb_eq. setoid_rewrite <- list_elem_of_In. naive_solver. }
    destruct (str_empty (trim_space u)) eqn:Eu; [|destruct (existsb _ _) eqn:Ex]; cbn [orb].
    - apply str_empty_true in Eu. split; [done|]. intros t. rewrite Hacc. setoid_rewrite elem_of_app. setoid_rewrite list_elem_of_singleton. naive_solver.
    - pose proof (proj1 Hb eq_refl) as Hin. split; [done|]. intros t. setoid_rewrite elem_of_app. setoid_rewrite list_elem_of_singleton. rewrite Hacc in *. naive_solver.
    - assert (Hx : trim_space u ∉ acc) by (by intros Hin%Hb). apply str_empty_false in Eu. split.
      + apply NoDup_app. split_and!; [done| |apply NoDup_singleton]. by intros x Hx' ->%list_elem_of_singleton.
      + intros t. rewrite elem_of_app, list_elem_of_singleton, Hacc. setoid_rewrite elem_of_app. setoid_rewrite list_elem_of_singleton. naive_solver. }
  destruct (Hgo tags [] []) as [H1 H2]; [split; [apply NoDup_nil_2|]|by split].
  intros t. split; [by intros ?%not_elem_of_nil|intros (_ & u & Hu & _)]. by apply not_elem_of_nil in Hu.
Qed.

(** ** Where the mirror falls short *)

Definition shop : JID := mkJID "551199" "s.whatsapp.net".
Definition empty_book : contacts := mkContacts ∅ 0.
(** The sources as the daemon lists them: the library's store, the history. *)
Definition daemon_sources : list (result (list Contact)) := [Ok [mkContact shop "The Shop" true]; Ok [mkContact shop "" false]].

(** The history, which is asked last, knows of no business and of no name its
    last message does not carry: a synchronisation forgets both. *)
Lemma sync_forgets_business :
  (fun r => (cr_push_name r, cr_is_business r)) <$> (c_rows (Mirror_Sync (fun _ => None) 100 SyncFull daemon_sources empty_book).2 !! JID_String shop)
  = Some ("", false).
Proof. vm_compute. reflexivity. Qed.

(** So does a new push name. *)
Lemma refresh_forgets_business :
  cr_is_business <$> (c_rows (RefreshPushName (mkPort (mkDirectory (fun _ => Err whatsmeow_ErrNotFound) ParsePhone) (Some daemon_sources)) None 101 shop "Shop"
    (Store_Upsert None 100 (mkContact shop "The Shop" true) empty_book).2) !! JID_String shop) = Some false.
Proof. vm_compute. reflexivity. Qed.

(** The name is compared with the directory of the library, not with the
    mirror it is meant for: a mirror that does not know the contact is not
    told. *)
Lemma refresh_compares_elsewhere :
  c_rows (RefreshPushName (mkPort (mkDirectory (fun j => Ok (mkContact j "Shop" false)) ParsePhone) (Some daemon_sources)) None 101 shop "Shop" empty_book)
    !! JID_String shop = None.
Proof. vm_compute. reflexivity. Qed.

(** Notes on a contact the mirror does not have are dropped and answered as
    written. *)
Lemma annotate_unknown_succeeds :
  let '(r, s) := Store_Annotate None 100 shop "pays late" ["vip"] empty_book in is_ok r = true /\ c_rows s !! JID_String shop = None.
Proof. vm_compute. split; reflexivity. Qed.

Lemma contacts_synced_witness :
  exists row, c_rows (Mirror_Sync (fun _ => None) 100 SyncFull [Err whatsmeow_ErrNotFound; Ok [mkContact shop "New" false]]
                        (Store_Upsert None 50 (mkContact shop "Old" true) empty_book).2).2 !! JID_String shop = Some row
              /\ says (mkContact shop "New" false) row.
Proof.
  destruct (Mirror_Sync (fun _ => None) 100 SyncFull [Err whatsmeow_ErrNotFound; Ok [mkContact shop "New" false]]
              (Store_Upsert None 50 (mkContact shop "Old" true) empty_book).2) as [r s'] eqn:E.
  assert (Hb : book_ok (Store_Upsert None 50 (mkContact shop "Old" true) empty_book).2).
  { refine (proj1 (upsert_spec None 50 (mkContact shop "Old" true) empty_book _ _ _ _ eq_refl)); [|reflexivity].
    split; cbn; [by intros ? ? ?%lookup_empty_Some|by intros ? ? ? ? ?%lookup_empty_Some|by intros ? [? ?%lookup_empty_Some]]. }
  apply contacts_synced in E as (_ & _ & _ & _ & Hq); [|exact Hb|by repeat constructor|reflexivity].
  destruct (Hq (fun _ => eq_refl)) as [Hlast _]. exact (Hlast (JID_String shop)).
Defined.
