(* ===== verification/Labels.v ===== *)
(** * Labels of a business account

    The port [LabelManager] of [app/ports_017.go] with its two stores,
    [memory/labels.go] and [whatsmeow/adapter_labels.go], the methods
    [labels.*] of [app/method_labels.go], the detection of a business account
    ([adapter_labels.go], [cmd/wad/main.go]) and the commands of
    [cmd/wa/cmd_labels.go].  The outcome of a push to WhatsApp, the random
    bytes of an identifier and the clock are arguments of each call; the
    iteration order of a map is arbitrary.  The theorem at the end relates
    both stores to one ledger of labels and assignments. *)
From S2P Require Import Prelude GoStd Errors Jid Values Json Draft DraftQueue MediaApi Projection Client.

#[local] Open Scope string_scope.
#[local] Open Scope list_scope.
#[local] Open Scope Z_scope.

(** ** The state both stores keep *)

(** [labelRowKey] / [labelKey], and [assignRowKey] / [assignKey]. *)
Definition labelRowKey : Type := string * string.
Definition assignRowKey : Type := string * string * Z * JID * string.
Definition assign_row_key (profile : string) (a : LabelAssignment) : assignRowKey :=
  (profile, la_labelID a, la_targetKind a, la_chat a, la_messageID a).

Record tables := mkTables {
  t_labels : gmap labelRowKey Label; t_labelOrder : gmap labelRowKey Z; t_labelSeq : Z;
  t_assigns : gmap assignRowKey LabelAssignment; t_assignOrder : gmap assignRowKey Z; t_assignSeq : Z }.
Definition no_tables : tables := mkTables ∅ ∅ 0 ∅ ∅ 0.

(** What a call finds: whether its context is done, the clock, the random
    bytes of an identifier, and how a push to WhatsApp ends. *)
Record call := mkCall { c_ctx : option goerr; c_now : time; c_rand : result string; c_send : option goerr }.

Definition num_le {V} (a b : V * Z) : Prop := a.2 <= b.2.
#[local] Instance num_le_dec {V} : RelDecision (@num_le V).
Proof. intros a b. apply Z_le_dec. Defined.
#[local] Instance num_le_total {V} : Total (@num_le V).
Proof. intros a b. unfold num_le. lia. Qed.
#[local] Instance num_le_trans {V} : Transitive (@num_le V).
Proof. intros a b c. unfold num_le. lia. Qed.

(** [sort.Slice] by the numbers, which are distinct. *)
Definition by_seq {V} (matches : list (V * Z)) : list V := map fst (merge_sort num_le matches).

Section Stores.
Context {label_range : MapRange labelRowKey Label} {assign_range : MapRange assignRowKey LabelAssignment}.

Definition list_labels (profile : string) (t : tables) : list Label :=
  by_seq (map (fun kv => (kv.2, default 0 (t_labelOrder t !! kv.1)))
              (List.filter (fun kv => (kv.1.1 =? profile)%string) (range (t_labels t)))).

Definition put_label (profile : string) (l : Label) (t : tables) : tables :=
  let seq := t_labelSeq t + 1 in
  mkTables (<[(profile, lb_id l) := l]> (t_labels t)) (<[(profile, lb_id l) := seq]> (t_labelOrder t)) seq
    (t_assigns t) (t_assignOrder t) (t_assignSeq t).

(** The body of the loop over [assigns]. *)
Definition of_label (profile labelID : string) (k : assignRowKey) : bool :=
  (k.1.1.1.1 =? profile)%string && (k.1.1.1.2 =? labelID)%string.
Definition drop_step (profile labelID : string) (mo : gmap assignRowKey LabelAssignment * gmap assignRowKey Z)
    (kv : assignRowKey * LabelAssignment) : gmap assignRowKey LabelAssignment * gmap assignRowKey Z :=
  if of_label profile labelID kv.1 then (delete kv.1 mo.1, delete kv.1 mo.2) else mo.
Definition drop_label (profile labelID : string) (t : tables) : tables :=
  let mo := foldl (drop_step profile labelID) (t_assigns t, t_assignOrder t) (range (t_assigns t)) in
  mkTables (delete (profile, labelID) (t_labels t)) (delete (profile, labelID) (t_labelOrder t)) (t_labelSeq t)
    mo.1 mo.2 (t_assignSeq t).

Definition put_assign (profile : string) (a : LabelAssignment) (t : tables) : tables :=
  let k := assign_row_key profile a in
  match t_assigns t !! k with
  | Some _ => t
  | None =>
    let seq := t_assignSeq t + 1 in
    mkTables (t_labels t) (t_labelOrder t) (t_labelSeq t) (<[k := a]> (t_assigns t)) (<[k := seq]> (t_assignOrder t)) seq
  end.

Definition drop_assign (profile : string) (a : LabelAssignment) (t : tables) : tables :=
  let k := assign_row_key profile a in
  mkTables (t_labels t) (t_labelOrder t) (t_labelSeq t) (delete k (t_assigns t)) (delete k (t_assignOrder t)) (t_assignSeq t).

Definition list_assigns (profile labelID : string) (t : tables) : list LabelAssignment :=
  by_seq (map (fun kv => (kv.2, default 0 (t_assignOrder t !! kv.1)))
              (List.filter (fun kv => of_label profile labelID kv.1) (range (t_assigns t)))).

(** ** ports_017.go: LabelManager *)

(** A call that panics gives [None]. *)
Class LabelManager (S : Type) := {
  ListLabels : call -> string -> S -> result (list Label);
  CreateLabel : call -> string -> string -> Z -> S -> option (result Label) * S;
  DeleteLabel : call -> string -> string -> S -> option (check goerr) * S;
  Assign : call -> string -> LabelAssignment -> S -> option (check goerr) * S;
  Unassign : call -> string -> LabelAssignment -> S -> option (check goerr) * S;
  ListAssignments : call -> string -> string -> S -> result (list LabelAssignment) }.

(** ** memory/labels.go *)

Record memory := mkMemory { m_tables : tables; m_idSeq : Z }.
Definition NewLabelManager : memory := mkMemory no_tables 0.

Definition mem_ListLabels (c : call) (profile : string) (s : memory) : result (list Label) :=
  match c_ctx c with Some e => Err e | None => Ok (list_labels profile (m_tables s)) end.

Definition mem_CreateLabel (c : call) (profile name : string) (colorIndex : Z) (s : memory) : option (result Label) * memory :=
  match c_ctx c with
  | Some e => (Some (Err e), s)
  | None =>
    let n := m_idSeq s + 1 in
    match NewLabel ("lbl_" +:+ itoa n) name colorIndex (c_now c) with
    | Err e => (Some (Err e), mkMemory (m_tables s) n)
    | Ok l => (Some (Ok l), mkMemory (put_label profile l (m_tables s)) n)
    end
  end.

(** The rest of the operations: refused when the context is done. *)
Definition mem_update (c : call) (f : tables -> tables) (s : memory) : option (check goerr) * memory :=
  match c_ctx c with Some e => (Some (Err e), s) | None => (Some (Ok tt), mkMemory (f (m_tables s)) (m_idSeq s)) end.
Definition mem_DeleteLabel (c : call) (profile labelID : string) (s : memory) : option (check goerr) * memory :=
  mem_update c (drop_label profile labelID) s.
Definition mem_Assign (c : call) (profile : string) (a : LabelAssignment) (s : memory) : option (check goerr) * memory :=
  mem_update c (put_assign profile a) s.
Definition mem_Unassign (c : call) (profile : string) (a : LabelAssignment) (s : memory) : option (check goerr) * memory :=
  mem_update c (drop_assign profile a) s.
Definition mem_ListAssignments (c : call) (profile labelID : string) (s : memory) : result (list LabelAssignment) :=
  match c_ctx c with Some e => Err e | None => Ok (list_assigns profile labelID (m_tables s)) end.

#[export] Instance memory_labels : LabelManager memory := {|
  ListLabels := mem_ListLabels; CreateLabel := mem_CreateLabel; DeleteLabel := mem_DeleteLabel;
  Assign := mem_Assign; Unassign := mem_Unassign; ListAssignments := mem_ListAssignments |}.

(** ** whatsmeow/adapter_labels.go *)

(** [types.ParseJID] of the client library. *)
Context {waJID : Type} (ParseWA : string -> option waJID).

(** [toWhatsmeow] panics on a zero JID and on one the library refuses. *)
Definition toWhatsmeow (j : JID) : option waJID := if JID_IsZero j then None else ParseWA (JID_String j).

(** The patches, by the builder that is called and its arguments. *)
Inductive patch :=
| LabelEdit (labelID name : string) (color : Z) (deleted : bool)
| LabelChat (chat : waJID) (labelID : string) (labeled : bool)
| LabelMessage (chat : waJID) (labelID messageID : string) (labeled : bool).

(** The conversion [int32(colorIndex)]. *)
Definition int32 (z : Z) : Z := (z + 2 ^ 31) mod 2 ^ 32 - 2 ^ 31.

(** The tables of the session, and the patches WhatsApp accepted, in order. *)
Record adapter := mkAdapter { la_tables : tables; la_sent : list patch }.
Definition NewLabelsAdapter : adapter := mkAdapter no_tables [].

(** What a call does to the tables once its patch is accepted: the critical
    section at the end of each method. *)
Inductive write :=
| WCreate (profile : string) (l : Label)
| WDelete (profile labelID : string)
| WAssign (profile : string) (a : LabelAssignment)
| WUnassign (profile : string) (a : LabelAssignment).
Definition apply_write (w : write) (t : tables) : tables :=
  match w with
  | WCreate profile l => put_label profile l t
  | WDelete profile labelID => drop_label profile labelID t
  | WAssign profile a => put_assign profile a t
  | WUnassign profile a => drop_assign profile a t
  end.

(** [SendAppState(ctx, p)] under the message [what]. *)
Definition push (c : call) (what : string) (p : patch) (w : write) : result (patch * write) :=
  match c_send c with Some e => Err (wrapc ("labels: send " +:+ what) e) | None => Ok (p, w) end.

Definition mintLabelID (c : call) : result string := res_map hex_encode (c_rand c).

(** What each method does before the critical section. *)
Definition create_send (c : call) (profile name : string) (colorIndex : Z) : result (Label * (patch * write)) :=
  match c_ctx c with
  | Some e => Err e
  | None =>
    match mintLabelID c with
    | Err e => Err (wrapc "labels: mint id" e)
    | Ok id =>
      let* l := NewLabel id name colorIndex (c_now c) in
      let* pw := push c "LabelEdit" (LabelEdit id (lb_name l) (int32 colorIndex) false) (WCreate profile l) in
      Ok (l, pw)
    end
  end.

Definition delete_send (c : call) (profile labelID : string) : result (option (patch * write)) :=
  match c_ctx c with
  | Some e => Err e
  | None =>
    if str_empty labelID then Ok None
    else res_map Some (push c "LabelEdit(delete)" (LabelEdit labelID "" 0 true) (WDelete profile labelID))
  end.

(** [LabelTargetKind] is printed by [%v]. *)
Definition sendAssignmentPatch (c : call) (a : LabelAssignment) (labeled : bool) (w : write) : option (result (patch * write)) :=
  match toWhatsmeow (la_chat a) with
  | None => None
  | Some chat =>
    if la_targetKind a =? LabelTargetChat then
      Some (push c "LabelAssoc" (LabelChat chat (la_labelID a) labeled) w)
    else if la_targetKind a =? LabelTargetMessage then
      Some (push c "LabelAssoc" (LabelMessage chat (la_labelID a) (la_messageID a) labeled) w)
    else Some (Err (ENew "labels: unsupported assignment kind unknown"))
  end.
Definition assign_send (c : call) (profile : string) (a : LabelAssignment) : option (result (patch * write)) :=
  match c_ctx c with Some e => Some (Err e) | None => sendAssignmentPatch c a true (WAssign profile a) end.
Definition unassign_send (c : call) (profile : string) (a : LabelAssignment) : option (result (patch * write)) :=
  match c_ctx c with Some e => Some (Err e) | None => sendAssignmentPatch c a false (WUnassign profile a) end.

(** A patch went out, and the critical section follows it. *)
Definition commit (pw : patch * write) (s : adapter) : adapter :=
  mkAdapter (apply_write pw.2 (la_tables s)) (la_sent s ++ [pw.1]).

Definition wm_ListLabels (c : call) (profile : string) (s : adapter) : result (list Label) :=
  match c_ctx c with Some e => Err e | None => Ok (list_labels profile (la_tables s)) end.
Definition wm_CreateLabel (c : call) (profile name : string) (colorIndex : Z) (s : adapter) : option (result Label) * adapter :=
  match create_send c profile name colorIndex with
  | Err e => (Some (Err e), s)
  | Ok (l, pw) => (Some (Ok l), commit pw s)
  end.
Definition wm_DeleteLabel (c : call) (profile labelID : string) (s : adapter) : option (check goerr) * adapter :=
  match delete_send c profile labelID with
  | Err e => (Some (Err e), s)
  | Ok None => (Some (Ok tt), s)
  | Ok (Some pw) => (Some (Ok tt), commit pw s)
  end.
Definition wm_change (sent : option (result (patch * write))) (s : adapter) : option (check goerr) * adapter :=
  match sent with
  | None => (None, s)
  | Some (Err e) => (Some (Err e), s)
  | Some (Ok pw) => (Some (Ok tt), commit pw s)
  end.
Definition wm_Assign (c : call) (profile : string) (a : LabelAssignment) (s : adapter) : option (check goerr) * adapter :=
  wm_change (assign_send c profile a) s.
Definition wm_Unassign (c : call) (profile : string) (a : LabelAssignment) (s : adapter) : option (check goerr) * adapter :=
  wm_change (unassign_send c profile a) s.
Definition wm_ListAssignments (c : call) (profile labelID : string) (s : adapter) : result (list LabelAssignment) :=
  match c_ctx c with Some e => Err e | None => Ok (list_assigns profile labelID (la_tables s)) end.

#[export] Instance whatsmeow_labels : LabelManager adapter := {|
  ListLabels := wm_ListLabels; CreateLabel := wm_CreateLabel; DeleteLabel := wm_DeleteLabel;
  Assign := wm_Assign; Unassign := wm_Unassign; ListAssignments := wm_ListAssignments |}.

End Stores.

(** ** method_labels.go *)

Definition label_json (l : Label) : json :=
  JObj [("id", jstr (lb_id l)); ("name", jstr (lb_name l)); ("colorIndex", jint (lb_colorIndex l));
        ("createdAt", jint (unix (lb_createdAt l))); ("updatedAt", jint (unix (lb_updatedAt l)))].
Definition LabelTargetKind_String (k : Z) : string :=
  if k =? LabelTargetChat then "chat" else if k =? LabelTargetMessage then "message" else "unknown".
Definition assignment_json (a : LabelAssignment) : json :=
  JObj ([("labelID", jstr (la_labelID a)); ("targetKind", jstr (LabelTargetKind_String (la_targetKind a)));
         ("chat", jstr (JID_String (la_chat a)))] ++ omit_str "messageID" (la_messageID a)
        ++ [("createdAt", jint (unix (la_createdAt a)))]).

(** The fields of the dispatcher these methods read. *)
Record labels_conf := mkConf { cf_flag : bool; cf_isBusiness : bool; cf_wired : bool; cf_profile : string }.
Definition guardLabels (d : labels_conf) : check goerr :=
  fail_if negb (cf_flag d) with ERpc app.ErrLabelsUnsupported ;;
  fail_if negb (cf_isBusiness d) with ERpc app.ErrLabelsUnsupported ;;
  fail_if negb (cf_wired d) with ERpc app.ErrLabelsUnsupported ;;
  Ok tt.

Definition dec_create (m : list (string * json)) : option (string * Z) :=
  n ← field dec_str "" "name" m; c ← field dec_int 0 "colorIndex" m; Some (n, c).
Definition dec_id (m : list (string * json)) : option string := field dec_str "" "id" m.
Record labelsAssignParams := mkAssign { as_LabelID : string; as_Chat : string; as_MessageID : string }.
Definition dec_assign (m : list (string * json)) : option labelsAssignParams :=
  l ← field dec_str "" "labelID" m; c ← field dec_str "" "chat" m; i ← field dec_str "" "messageID" m; Some (mkAssign l c i).

Definition toAssignment (p : labelsAssignParams) (at_ : time) : result LabelAssignment :=
  fail_if str_empty (as_LabelID p) || str_empty (as_Chat p) with ERpc app.ErrInvalidParams ;;
  match Parse (as_Chat p) with
  | Err _ => Err (ERpc app.ErrInvalidJID)
  | Ok chat => if str_empty (as_MessageID p) then NewChatLabelAssignment (as_LabelID p) chat at_
               else NewMessageLabelAssignment (as_LabelID p) chat (as_MessageID p) at_
  end.

Section Methods.
Context {S : Type} {LM : LabelManager S}.

(** [fmt.Errorf("method: %w", err)] around what the store answers. *)
Definition answer {A} (method : string) (view : A -> json) (r : option (result A) * S) : option (result json) * S :=
  (match r.1 with
   | None => None
   | Some (Err e) => Some (Err (wrapc method e))
   | Some (Ok a) => Some (Ok (view a))
   end, r.2).
Definition before {A} (r : result A) (s : S) (k : A -> option (result json) * S) : option (result json) * S :=
  match r with Err e => (Some (Err e), s) | Ok a => k a end.

Definition handleLabelsList (d : labels_conf) (c : call) (s : S) : option (result json) * S :=
  before (guardLabels d) s (fun _ =>
  answer "labels.list" (fun rows => JObj [("labels", JArr (map label_json rows))]) (Some (ListLabels c (cf_profile d) s), s)).

Definition handleLabelsCreate (d : labels_conf) (c : call) (raw : RawMessage) (s : S) : option (result json) * S :=
  before (let* _ := guardLabels d in
          let* p := parseParams dec_create raw in
          fail_if str_empty p.1 with ERpc app.ErrInvalidParams ;; Ok p) s (fun p =>
  answer "labels.create" (fun l => JObj [("label", label_json l)]) (CreateLabel c (cf_profile d) p.1 p.2 s)).

Definition handleLabelsDelete (d : labels_conf) (c : call) (raw : RawMessage) (s : S) : option (result json) * S :=
  before (let* _ := guardLabels d in
          let* id := parseParams dec_id raw in
          fail_if str_empty id with ERpc app.ErrInvalidParams ;; Ok id) s (fun id =>
  answer "labels.delete" (fun _ => JObj [("deleted", JBool true)]) (DeleteLabel c (cf_profile d) id s)).

Definition handleLabelsAssign (d : labels_conf) (c : call) (raw : RawMessage) (s : S) : option (result json) * S :=
  before (let* _ := guardLabels d in
          let* p := parseParams dec_assign raw in
          toAssignment p (c_now c)) s (fun a =>
  answer "labels.assign" (fun _ => JObj [("assignment", assignment_json a)]) (Assign c (cf_profile d) a s)).

Definition handleLabelsUnassign (d : labels_conf) (c : call) (raw : RawMessage) (s : S) : option (result json) * S :=
  before (let* _ := guardLabels d in
          let* p := parseParams dec_assign raw in
          toAssignment p (c_now c)) s (fun a =>
  answer "labels.unassign" (fun _ => JObj [("unassigned", JBool true)]) (Unassign c (cf_profile d) a s)).

(** The rows of the method table. *)
Inductive labels_method := MList | MCreate | MDelete | MAssign | MUnassign.
#[export] Instance labels_method_eq_dec : EqDecision labels_method.
Proof. solve_decision. Defined.
Definition handle_labels (m : labels_method) (d : labels_conf) (c : call) (raw : RawMessage) (s : S) : option (result json) * S :=
  match m with
  | MList => handleLabelsList d c s
  | MCreate => handleLabelsCreate d c raw s
  | MDelete => handleLabelsDelete d c raw s
  | MAssign => handleLabelsAssign d c raw s
  | MUnassign => handleLabelsUnassign d c raw s
  end.
End Methods.

(** ** The account: [DetectBusiness] and [cmd/wad/main.go] *)

Fixpoint containsBusinessProfileTag (s : string) : bool :=
  has_prefix "business_profile" s || match s with EmptyString => false | String _ r => containsBusinessProfileTag r end.
Definition isElementMissing (err : goerr) : bool := containsBusinessProfileTag (Error err).

(** [asked]: the answer of [GetBusinessProfile], a profile or none. *)
Definition DetectBusiness (has_device : bool) (asked : result bool) : result bool :=
  fail_if negb has_device with ENew "labels: DetectBusiness: device not paired" ;;
  match asked with
  | Err e => if isElementMissing e then Ok false else Err e
  | Ok present => Ok present
  end.
Definition startup_isBusiness (paired has_device : bool) (asked : result bool) : bool :=
  if paired then match DetectBusiness has_device asked with Ok b => b | Err _ => false end else false.

(** ** cmd/wa/cmd_labels.go *)

Definition create_params (name : string) (color : Z) : res cmdError json :=
  fail_if str_empty name with exitf 64 "wa labels create: --name is required" ;;
  Ok (JObj [("colorIndex", jint color); ("name", jstr name)]).
Definition delete_params (id : string) : res cmdError json :=
  fail_if str_empty id with exitf 64 "wa labels delete: --id is required" ;;
  Ok (JObj [("id", jstr id)]).
(** [json.Marshal] writes the keys of a map in order. *)
Definition sendLabelAssignment (method labelID chat messageID : string) : res cmdError json :=
  fail_if str_empty labelID || str_empty chat with exitf 64 ("wa " +:+ method +:+ ": --label-id and --chat are required") ;;
  Ok (JObj ([("chat", jstr chat); ("labelID", jstr labelID)]
            ++ (if str_empty messageID then [] else [("messageID", jstr messageID)]))).

(** ** Tables in order of insertion *)

Section Ordered.
Context {K V : Type} `{Countable K}.
Implicit Types (m : gmap K V) (o : gmap K Z) (l : list (K * V)).

Definition num (o : gmap K Z) (kv : K * V) : Z := default 0 (o !! kv.1).
Definition apart (k k' : K) : bool := negb (bool_decide (k' = k)).
Definition other (k : K) (kv : K * V) : bool := apart k kv.1.

(** The map and its numbers hold the entries of [l], first inserted first. *)
Record holds_in_order m o (n : Z) l : Prop := {
  ho_perm : map_to_list m ≡ₚ l;
  ho_sorted : StronglySorted (fun a b => num o a < num o b) l;
  ho_top : Forall (fun kv => num o kv <= n) l }.

Lemma holds_nothing n : holds_in_order ∅ ∅ n [].
Proof. split; [by rewrite map_to_list_empty|constructor|constructor]. Qed.

Lemma sorted_filter {A} (R : A -> A -> Prop) (p : A -> bool) (l : list A) : StronglySorted R l -> StronglySorted R (List.filter p l).
Proof.
  induction 1 as [|x l _ IH Hx]; [constructor|]. cbn [List.filter]. destruct (p x); [|done]. constructor; [done|].
  rewrite Forall_forall in *. intros y Hy. apply Hx. rewrite !list_elem_of_In, ?filter_In in *. tauto.
Qed.
Lemma sorted_impl {A} (R R' : A -> A -> Prop) (l : list A) : (forall a b, a ∈ l -> b ∈ l -> R a b -> R' a b) -> StronglySorted R l -> StronglySorted R' l.
Proof.
  intros HR. induction 1 as [|x l _ IH Hx]; [constructor|]. constructor.
  - apply IH. intros a b Ha Hb. apply HR; by right.
  - rewrite Forall_forall in *. intros y Hy. apply HR; [left|by right|auto].
Qed.
Lemma sorted_distinct {A} (f : A -> Z) (l : list A) a b : StronglySorted (fun a b => f a < f b) l -> a ∈ l -> b ∈ l -> f a = f b -> a = b.
Proof.
  induction 1 as [|x l _ IH Hx]; [set_solver|]. rewrite Forall_forall in Hx. rewrite !elem_of_cons.
  intros [->|Ha] [->|Hb] E; [done| | |auto]; [specialize (Hx b Hb)|specialize (Hx a Ha)]; lia.
Qed.

(** Some keys leave, with their numbers or without. *)
Lemma holds_restrict m o n l m' o' (p : K -> bool) : holds_in_order m o n l ->
  (forall k, m' !! k = if p k then m !! k else None) -> (forall k, p k = true -> o' !! k = o !! k) ->
  holds_in_order m' o' n (List.filter (fun kv => p kv.1) l).
Proof.
  intros [Hp Hs Ht] Hm Ho.
  assert (Hnum : forall kv, kv ∈ List.filter (fun kv => p kv.1) l -> kv ∈ l /\ num o' kv = num o kv).
  { intros kv. rewrite !list_elem_of_In, filter_In. intros [Hin Hk]. split; [done|]. unfold num. by rewrite (Ho _ Hk). }
  split.
  - apply NoDup_Permutation; [apply NoDup_map_to_list| |].
    + apply (NoDup_fmap_1 fst), filter_keys_NoDup. rewrite <- Hp. apply NoDup_fst_map_to_list.
    + intros [k v]. rewrite elem_of_map_to_list, Hm, !list_elem_of_In, filter_In, <- list_elem_of_In, <- Hp, elem_of_map_to_list.
      cbn. destruct (p k); naive_solver.
  - apply (sorted_impl (fun a b => num o a < num o b)).
    + intros a b Ha Hb. by rewrite (proj2 (Hnum a Ha)), (proj2 (Hnum b Hb)).
    + by apply sorted_filter.
  - rewrite Forall_forall in *. intros kv Hin. destruct (Hnum kv Hin) as [Hl ->]. auto.
Qed.

Lemma holds_delete m o n l k : holds_in_order m o n l -> holds_in_order (delete k m) (delete k o) n (List.filter (other k) l).
Proof.
  intros Hh. apply (holds_restrict m o n l _ _ (apart k)); [done| |]; intros k'; unfold apart; case_bool_decide; cbn; subst.
  - by rewrite lookup_delete_eq.
  - by rewrite lookup_delete_ne.
  - done.
  - by rewrite lookup_delete_ne.
Qed.

Lemma holds_insert m o n l k v : holds_in_order m o n l ->
  holds_in_order (<[k := v]> m) (<[k := n + 1]> o) (n + 1) (List.filter (other k) l ++ [(k, v)]).
Proof.
  intros Hh. destruct (holds_delete m o n l k Hh) as [Hp Hs Ht].
  assert (Hnum : forall kv, kv ∈ List.filter (other k) l -> num (<[k := n + 1]> o) kv = num (delete k o) kv).
  { intros kv. rewrite list_elem_of_In, filter_In. unfold other, apart. intros [_ Hk%negb_true_iff%bool_decide_eq_false]. unfold num.
    by rewrite lookup_insert_ne, lookup_delete_ne. }
  assert (Hlast : num (<[k := n + 1]> o) (k, v) = n + 1) by (unfold num; by rewrite lookup_insert_eq).
  split.
  - rewrite <- insert_delete_eq, map_to_list_insert by apply lookup_delete_eq. rewrite Hp. by apply Permutation_cons_append.
  - apply StronglySorted_app_2.
    + intros a b Ha ->%list_elem_of_singleton. rewrite Hlast, (Hnum a Ha). rewrite Forall_forall in Ht. specialize (Ht a Ha). lia.
    + apply (sorted_impl (fun a b => num (delete k o) a < num (delete k o) b)); [|done]. intros a b Ha Hb. by rewrite !Hnum.
    + repeat constructor.
  - apply Forall_app. split; [|constructor; [lia|constructor]]. rewrite Forall_forall in *. intros kv Hin. rewrite (Hnum kv Hin).
    specialize (Ht kv Hin). lia.
Qed.

(** What a listing answers. *)
Lemma listed `{!MapRange K V} m o n l (p : K * V -> bool) : holds_in_order m o n l ->
  by_seq (map (fun kv => (kv.2, num o kv)) (List.filter p (range m))) = map snd (List.filter p l).
Proof.
  intros [Hp Hs _]. unfold by_seq. set (g := fun kv => (kv.2, num o kv)).
  assert (Hs' : StronglySorted (fun a b => num o a < num o b) (List.filter p l)) by by apply sorted_filter.
  replace (merge_sort num_le (map g (List.filter p (range m)))) with (map g (List.filter p l)).
  { rewrite map_map. by apply map_ext. }
  symmetry. apply (StronglySorted_unique_strong num_le).
  - intros a b Ha Hb. rewrite merge_sort_Permutation in Ha.
    assert (Hg : map g (List.filter p (range m)) ≡ₚ map g (List.filter p l)).
    { apply Permutation_map, filter_perm. by rewrite range_perm. }
    rewrite Hg in Ha. apply list_elem_of_fmap in Ha as (x & -> & Hx), Hb as (y & -> & Hy). intros H1 H2.
    by rewrite (sorted_distinct (num o) _ x y Hs' Hx Hy (Z.le_antisymm _ _ H1 H2)).
  - apply StronglySorted_merge_sort; apply _.
  - clear -Hs'. induction Hs' as [|x k _ IH Hx]; [constructor|]. cbn [map]. constructor; [done|].
    apply Forall_fmap. eapply Forall_impl; [exact Hx|]. intros y Hy. by apply Z.lt_le_incl.
  - rewrite merge_sort_Permutation. apply Permutation_map, filter_perm. by rewrite range_perm.
Qed.
End Ordered.

(** ** The ledger *)

Record ledger := mkLedger { g_labels : list (labelRowKey * Label); g_assigns : list (assignRowKey * LabelAssignment) }.
Definition no_ledger : ledger := mkLedger [] [].

(** A label goes to the end of the list, a deletion takes the assignments of
    the label with it, and a second assignment of the same pair is none. *)
Definition ledger_write (g : ledger) (w : write) : ledger :=
  match w with
  | WCreate profile l =>
    mkLedger (List.filter (other (profile, lb_id l)) (g_labels g) ++ [((profile, lb_id l), l)]) (g_assigns g)
  | WDelete profile labelID =>
    mkLedger (List.filter (other (profile, labelID)) (g_labels g))
             (List.filter (fun kv => negb (of_label profile labelID kv.1)) (g_assigns g))
  | WAssign profile a =>
    let k := assign_row_key profile a in
    if existsb (fun kv => negb (other k kv)) (g_assigns g) then g
    else mkLedger (g_labels g) (g_assigns g ++ [(k, a)])
  | WUnassign profile a => mkLedger (g_labels g) (List.filter (other (assign_row_key profile a)) (g_assigns g))
  end.
Definition ledger_of (ws : list write) : ledger := foldl ledger_write no_ledger ws.
Definition labels_of (profile : string) (g : ledger) : list Label :=
  map snd (List.filter (fun kv => (kv.1.1 =? profile)%string) (g_labels g)).
Definition assigns_of (profile labelID : string) (g : ledger) : list LabelAssignment :=
  map snd (List.filter (fun kv => of_label profile labelID kv.1) (g_assigns g)).

Section Refinement.
Context {label_range : MapRange labelRowKey Label} {assign_range : MapRange assignRowKey LabelAssignment}.

Record tables_hold (t : tables) (g : ledger) : Prop := {
  th_labels : holds_in_order (t_labels t) (t_labelOrder t) (t_labelSeq t) (g_labels g);
  th_assigns : holds_in_order (t_assigns t) (t_assignOrder t) (t_assignSeq t) (g_assigns g) }.

Lemma no_tables_hold : tables_hold no_tables no_ledger.
Proof. split; apply holds_nothing. Qed.

Lemma list_labels_spec t g profile : tables_hold t g -> list_labels profile t = labels_of profile g.
Proof. intros [Hl _]. by eapply listed. Qed.
Lemma list_assigns_spec t g profile labelID : tables_hold t g -> list_assigns profile labelID t = assigns_of profile labelID g.
Proof. intros [_ Ha]. by eapply (listed _ _ _ _ (fun kv => of_label profile labelID kv.1)). Qed.

(** The loop of a deletion over the assignments. *)
Lemma drop_loop profile labelID (l : list (assignRowKey * LabelAssignment)) mo k :
  (foldl (drop_step profile labelID) mo l).1 !! k = (if of_label profile labelID k && bool_decide (k ∈ l.*1) then None else mo.1 !! k)
  /\ (of_label profile labelID k = false -> (foldl (drop_step profile labelID) mo l).2 !! k = mo.2 !! k).
Proof.
  revert mo. induction l as [|[k' a] l IH]; intros mo; [by rewrite andb_false_r|]. cbn [foldl].
  destruct (IH (drop_step profile labelID mo (k', a))) as [-> IH2]. split.
  - unfold drop_step. cbn [fst snd fmap list_fmap]. destruct (decide (k = k')) as [->|Hne].
    + destruct (of_label profile labelID k'); cbn; [|done]. rewrite lookup_delete_eq. repeat case_bool_decide; set_solver.
    + rewrite (bool_decide_ext (k ∈ k' :: l.*1) (k ∈ l.*1)) by (rewrite elem_of_cons; tauto).
      destruct (of_label profile labelID k'); [|done]. cbn. by rewrite lookup_delete_ne.
  - intros Hk. rewrite (IH2 Hk). unfold drop_step. cbn [fst snd]. destruct (of_label profile labelID k') eqn:Hk'; [|done].
    apply lookup_delete_ne. congruence.
Qed.

Lemma drop_label_spec t g profile labelID : tables_hold t g -> tables_hold (drop_label profile labelID t) (ledger_write g (WDelete profile labelID)).
Proof.
  intros [Hl Ha]. split; [by apply holds_delete|].
  eapply (holds_restrict _ _ _ _ _ _ (fun k => negb (of_label profile labelID k))); [exact Ha| |]; intros k; cbn.
  - destruct (drop_loop profile labelID (range (t_assigns t)) (t_assigns t, t_assignOrder t) k) as [-> _].
    destruct (of_label profile labelID k); [|done]. case_bool_decide as Hin; [done|]. cbn. rewrite range_perm in Hin.
    apply eq_None_not_Some. intros [a Hk]. apply Hin. apply list_elem_of_fmap. exists (k, a). by rewrite elem_of_map_to_list.
  - intros Hk%negb_true_iff. by apply drop_loop.
Qed.

Lemma other_all {K V} `{Countable K} (k : K) (l : list (K * V)) :
  existsb (fun kv => negb (other k kv)) l = false -> List.filter (other k) l = l.
Proof.
  induction l as [|kv l IH]; [done|]. cbn. destruct (other k kv); cbn; [|done]. intros E. by rewrite IH.
Qed.

Lemma put_assign_spec t g profile a : tables_hold t g -> tables_hold (put_assign profile a t) (ledger_write g (WAssign profile a)).
Proof.
  intros [Hl Ha]. unfold put_assign, ledger_write. cbn zeta. set (k := assign_row_key profile a).
  assert (Hex : existsb (fun kv => negb (other k kv)) (g_assigns g) = match t_assigns t !! k with Some _ => true | None => false end).
  { destruct (t_assigns t !! k) as [b|] eqn:Hk.
    - apply existsb_exists. exists (k, b). rewrite <- list_elem_of_In, <- (ho_perm _ _ _ _ Ha), elem_of_map_to_list.
      unfold other, apart. by rewrite bool_decide_true.
    - apply not_true_iff_false. intros ([k' b] & Hin & Hk')%existsb_exists. unfold other, apart in Hk'. cbn in Hk'.
      rewrite negb_involutive in Hk'. apply bool_decide_eq_true in Hk' as ->.
      rewrite <- list_elem_of_In, <- (ho_perm _ _ _ _ Ha), elem_of_map_to_list in Hin. congruence. }
  destruct (t_assigns t !! k) as [b|]; rewrite Hex; [by split|]. split; [done|]. cbn.
  rewrite <- (other_all k (g_assigns g) Hex). by apply holds_insert.
Qed.

Lemma apply_write_spec t g w : tables_hold t g -> tables_hold (apply_write w t) (ledger_write g w).
Proof.
  intros Ht. destruct w as [profile l|profile labelID|profile a|profile a].
  - destruct Ht as [Hl Ha]. split; [by apply holds_insert|done].
  - by apply drop_label_spec.
  - by apply put_assign_spec.
  - destruct Ht as [Hl Ha]. split; [done|by apply holds_delete].
Qed.

(** ** The laws of the port *)

(** Nothing outside fails: no cancelled context, random bytes, and WhatsApp
    takes the patch. *)
Definition quiet (c : call) : Prop := c_ctx c = None /\ c_send c = None /\ exists b, c_rand c = Ok b /\ b <> "".
Definition label_valid (name : string) (colorIndex : Z) : bool := is_ok (NewLabel "id" name colorIndex 0).
Definition assign_ok (a : LabelAssignment) : Prop := wf_jid (la_chat a) = true /\ LabelTargetKind_IsValid (la_targetKind a) = true.

(** A call that answers did the one write it is for; one that fails did none,
    and something outside failed. *)
Definition changed {S A} (holds : S -> list write -> Prop) (ws : list write) (failing : Prop) (w : A -> write) (r : option (result A) * S) : Prop :=
  match r.1 with
  | None => False
  | Some (Err _) => holds r.2 ws /\ failing
  | Some (Ok a) => holds r.2 (ws ++ [w a])
  end.

(** [store_holds s ws]: the store has done the writes [ws]. *)
Class WriteLaws (S : Type) {LM : LabelManager S} := {
  store_holds : S -> list write -> Prop;
  law_create c profile name colorIndex s ws : store_holds s ws ->
    changed store_holds ws (~ (quiet c /\ label_valid name colorIndex = true)) (WCreate profile) (CreateLabel c profile name colorIndex s)
    /\ forall l s', CreateLabel c profile name colorIndex s = (Some (Ok l), s') -> NewLabel (lb_id l) name colorIndex (c_now c) = Ok l;
  law_delete c profile labelID s ws : store_holds s ws -> labelID <> "" ->
    changed store_holds ws (~ quiet c) (fun _ => WDelete profile labelID) (DeleteLabel c profile labelID s);
  law_assign c profile a s ws : store_holds s ws -> assign_ok a ->
    changed store_holds ws (~ quiet c) (fun _ => WAssign profile a) (Assign c profile a s);
  law_unassign c profile a s ws : store_holds s ws -> assign_ok a ->
    changed store_holds ws (~ quiet c) (fun _ => WUnassign profile a) (Unassign c profile a s) }.
Class LabelLaws (S : Type) {LM : LabelManager S} := {
  write_laws :: WriteLaws S;
  law_list c profile s ws : store_holds s ws ->
    ListLabels c profile s = match c_ctx c with Some e => Err e | None => Ok (labels_of profile (ledger_of ws)) end;
  law_list_assigns c profile labelID s ws : store_holds s ws ->
    ListAssignments c profile labelID s = match c_ctx c with Some e => Err e | None => Ok (assigns_of profile labelID (ledger_of ws)) end }.

Lemma ledger_of_snoc ws w : ledger_of (ws ++ [w]) = ledger_write (ledger_of ws) w.
Proof. unfold ledger_of. by rewrite foldl_app. Qed.
Lemma tables_hold_snoc t ws w : tables_hold t (ledger_of ws) -> tables_hold (apply_write w t) (ledger_of (ws ++ [w])).
Proof. rewrite ledger_of_snoc. apply apply_write_spec. Qed.

(** What makes a label valid is its name and its colour. *)
Lemma NewLabel_answers id name colorIndex t : id <> "" -> is_ok (NewLabel id name colorIndex t) = label_valid name colorIndex.
Proof.
  intros Hid%str_empty_false. unfold label_valid, NewLabel, guard. rewrite Hid. cbn zeta. cbn [str_empty].
  by destruct (str_empty (trim_space name)), (LabelNameMaxLen <? len (trim_space name))%Z, ((colorIndex <? 0) || (LabelPaletteSize <=? colorIndex))%Z.
Qed.
Lemma NewLabel_shape id name colorIndex t l : NewLabel id name colorIndex t = Ok l ->
  l = mkLabel id (trim_space name) colorIndex t t /\ 0 <= colorIndex < 20.
Proof. unfold NewLabel. rewrite guard_ok. cbn zeta. rewrite !guard_ok. intros (_ & _ & _ & Hc & [= <-]). bprop. unfold LabelPaletteSize in *. split; [done|lia]. Qed.

(** *** The store in memory *)

#[local] Arguments NewLabel : simpl never.

#[export] Program Instance memory_writes : WriteLaws memory := {| store_holds s ws := tables_hold (m_tables s) (ledger_of ws) |}.
Next Obligation.
  intros c profile name colorIndex s ws Hs. cbn. unfold changed, mem_CreateLabel. destruct (c_ctx c) eqn:Hc; cbn.
  { split; [|done]. split; [done|]. intros [[E _] _]. congruence. }
  pose proof (NewLabel_answers ("lbl_" +:+ itoa (m_idSeq s + 1)) name colorIndex (c_now c) ltac:(done)) as Hv.
  destruct (NewLabel _ _ _ _) as [l|e] eqn:Hl; cbn in *.
  - split; [by apply (tables_hold_snoc _ _ (WCreate profile l))|]. intros l' s' [= <- <-].
    by destruct (NewLabel_shape _ _ _ _ _ Hl) as [-> _].
  - split; [|done]. split; [done|]. intros [_ E]. congruence.
Qed.
Lemma mem_update_changed c s ws w f : tables_hold (m_tables s) (ledger_of ws) -> (forall t, f t = apply_write w t) ->
  changed (fun s ws => tables_hold (m_tables s) (ledger_of ws)) ws (~ quiet c) (fun _ => w) (mem_update c f s).
Proof.
  intros Hs Hf. unfold changed, mem_update. destruct (c_ctx c) eqn:Hc; cbn.
  - split; [done|]. intros [E _]. congruence.
  - rewrite Hf. by apply tables_hold_snoc.
Qed.
Next Obligation. intros c profile labelID s ws Hs _. by apply mem_update_changed. Qed.
Next Obligation. intros c profile a s ws Hs _. by apply mem_update_changed. Qed.
Next Obligation. intros c profile a s ws Hs _. by apply mem_update_changed. Qed.
#[export] Program Instance memory_laws : LabelLaws memory.
Next Obligation. intros c profile s ws Hs. cbn. unfold mem_ListLabels. by rewrite (list_labels_spec _ _ _ Hs). Qed.
Next Obligation. intros c profile labelID s ws Hs. cbn. unfold mem_ListAssignments. by rewrite (list_assigns_spec _ _ _ _ Hs). Qed.

(** *** The store of the session with WhatsApp *)

Section Session.
Context {waJID : Type} (ParseWA : string -> option waJID) (parse_canonical : forall j, wf_jid j = true -> is_Some (ParseWA (JID_String j))).

(** The patch a write was pushed as. *)
Definition patch_of (w : write) : option (patch (waJID:=waJID)) :=
  let assoc a labeled :=
    chat ← toWhatsmeow ParseWA (la_chat a);
    Some (if la_targetKind a =? LabelTargetChat then LabelChat chat (la_labelID a) labeled
          else LabelMessage chat (la_labelID a) (la_messageID a) labeled) in
  match w with
  | WCreate _ l => Some (LabelEdit (lb_id l) (lb_name l) (lb_colorIndex l) false)
  | WDelete _ labelID => Some (LabelEdit labelID "" 0 true)
  | WAssign _ a => assoc a true
  | WUnassign _ a => assoc a false
  end.
Definition pushed_as (w : write) (p : patch) : Prop := patch_of w = Some p.
Lemma int32_id z : 0 <= z < 20 -> int32 z = z.
Proof. intros Hz. unfold int32. rewrite Z.mod_small; lia. Qed.

(** What goes out before a critical section is the patch of its write. *)
Lemma create_send_spec c profile name colorIndex :
  match create_send (waJID:=waJID) c profile name colorIndex with
  | Err _ => ~ (quiet c /\ label_valid name colorIndex = true)
  | Ok (l, (p, w)) => w = WCreate profile l /\ pushed_as w p /\ NewLabel (lb_id l) name colorIndex (c_now c) = Ok l
  end.
Proof.
  unfold create_send, mintLabelID. destruct (c_ctx c) eqn:Hc; [intros [[E _] _]; congruence|].
  destruct (c_rand c) as [b|e] eqn:Hr; cbn; [|intros [(_ & _ & b & E & _) _]; congruence].
  destruct (NewLabel (hex_encode b) name colorIndex (c_now c)) as [l|e] eqn:Hl; cbn.
  - unfold push. destruct (c_send c) eqn:Hs; cbn; [intros [(_ & E & _) _]; congruence|].
    destruct (NewLabel_shape _ _ _ _ _ Hl) as [-> Hz]. unfold pushed_as. cbn. by rewrite int32_id.
  - intros [(_ & _ & b' & Hb & Hne) Hv]. rewrite Hr in Hb. injection Hb as <-. rewrite <- (NewLabel_answers (hex_encode b) _ _ (c_now c)) in Hv.
    + by rewrite Hl in Hv.
    + intros E. apply Hne. apply hex_encode_inj. by rewrite E.
Qed.

Lemma assignment_send_spec c a labeled w : assign_ok a ->
  patch_of w = (chat ← toWhatsmeow ParseWA (la_chat a);
                Some (if la_targetKind a =? LabelTargetChat then LabelChat chat (la_labelID a) labeled
                      else LabelMessage chat (la_labelID a) (la_messageID a) labeled)) ->
  match sendAssignmentPatch ParseWA c a labeled w with
  | None => False
  | Some (Err _) => c_send c <> None
  | Some (Ok pw) => pw.2 = w /\ pushed_as w pw.1
  end.
Proof.
  intros [Hj Hk] Hp. unfold sendAssignmentPatch, pushed_as. rewrite Hp. unfold toWhatsmeow. rewrite (wf_not_zero _ Hj).
  destruct (parse_canonical _ Hj) as [chat ->]. unfold LabelTargetKind_IsValid in Hk. unfold push. cbn.
  destruct (la_targetKind a =? LabelTargetChat); cbn in *; [by destruct (c_send c)|]. rewrite Hk. by destruct (c_send c).
Qed.

(** *** The stretch of a call before its lock *)

(** A store whose operations stop where the lock is taken: the patch is out,
    the write waits in the second component.  Nothing here reads that. *)
Definition desk : Type := adapter (waJID:=waJID) * list write.
Definition post {A} (r : option (result (A * (patch * write)))) (x : desk) : option (result A) * desk :=
  match r with
  | None => (None, x)
  | Some (Err e) => (Some (Err e), x)
  | Some (Ok (v, (p, w))) => (Some (Ok v), (mkAdapter (la_tables x.1) (la_sent x.1 ++ [p]), x.2 ++ [w]))
  end.
Definition no_value (r : option (result (patch (waJID:=waJID) * write))) : option (result (unit * (patch * write))) :=
  res_map (pair tt) <$> r.
#[export] Instance desk_labels : LabelManager desk := {|
  ListLabels c profile x := wm_ListLabels c profile x.1;
  CreateLabel c profile name colorIndex x := post (Some (create_send c profile name colorIndex)) x;
  DeleteLabel c profile labelID x :=
    match delete_send c profile labelID with
    | Ok None => (Some (Ok tt), x)
    | Ok (Some pw) => post (Some (Ok (tt, pw))) x
    | Err e => (Some (Err e), x)
    end;
  Assign c profile a x := post (no_value (assign_send ParseWA c profile a)) x;
  Unassign c profile a x := post (no_value (unassign_send ParseWA c profile a)) x;
  ListAssignments c profile labelID x := wm_ListAssignments c profile labelID x.1 |}.

(** The lock and what is done under it. *)
Definition enter (w : write) (s : adapter (waJID:=waJID)) : adapter := mkAdapter (apply_write w (la_tables s)) (la_sent s).

(** A method of the adapter is its stretch before the lock, and the lock. *)
Definition at_once {A} (r : option (result A) * desk) : option (result A) * adapter :=
  (r.1, foldl (flip enter) r.2.1 r.2.2).
Lemma methods_split c profile (s : adapter (waJID:=waJID)) :
  (forall name col, wm_CreateLabel c profile name col s = at_once (CreateLabel c profile name col (s, [])))
  /\ (forall id, wm_DeleteLabel c profile id s = at_once (DeleteLabel c profile id (s, [])))
  /\ (forall a, wm_Assign ParseWA c profile a s = at_once (Assign c profile a (s, [])))
  /\ (forall a, wm_Unassign ParseWA c profile a s = at_once (Unassign c profile a (s, []))).
Proof.
  split_and!; intros; cbn [CreateLabel DeleteLabel Assign Unassign desk_labels].
  - unfold wm_CreateLabel. by destruct (create_send c profile name col) as [[l [p w]]|e].
  - unfold wm_DeleteLabel. by destruct (delete_send c profile id) as [[[p w]|]|e].
  - unfold wm_Assign. by destruct (assign_send ParseWA c profile a) as [[[p w]|e]|].
  - unfold wm_Unassign. by destruct (unassign_send ParseWA c profile a) as [[[p w]|e]|].
Qed.

(** The desk since the tables were [t] and [sent] was out. *)
Section Desk.
Context (t : tables) (sent : list (patch (waJID:=waJID))) (ws0 : list write).
Definition desk_holds (x : desk) (ws : list write) : Prop :=
  la_tables x.1 = t /\ ws = ws0 ++ x.2 /\ exists ps, la_sent x.1 = sent ++ ps /\ Forall2 pushed_as x.2 ps.

Lemma post_changed {A} ws x (r : option (result (A * (patch * write)))) (failing : Prop) (w : A -> write) : desk_holds x ws ->
  match r with None => False | Some (Err _) => failing | Some (Ok (v, (p, w'))) => w' = w v /\ pushed_as w' p end ->
  changed desk_holds ws failing w (post r x).
Proof.
  intros (Ht & -> & ps & Hp & Hf) Hr. unfold changed. destruct r as [[[v [p w']]|e]|]; cbn; [|split; [by repeat split; eauto|done]|done].
  destruct Hr as [-> Hw]. split; [done|]. split; [by rewrite <- app_assoc|]. exists (ps ++ [p]). split; [by rewrite Hp, <- app_assoc|].
  apply Forall2_app; [done|by constructor].
Qed.

#[export] Program Instance desk_laws : WriteLaws desk := {| store_holds := desk_holds |}.
Next Obligation.
  intros c profile name colorIndex x ws Hx. pose proof (create_send_spec c profile name colorIndex) as Hs. split.
  - apply post_changed; [done|]. destruct (create_send c profile name colorIndex) as [[l [p w]]|e]; [|done]. by destruct Hs as (-> & ? & _).
  - intros l x'. cbn. destruct (create_send c profile name colorIndex) as [[l' [p w]]|e]; [|done]. cbn. intros [= -> _]. apply Hs.
Qed.
Next Obligation.
  intros c profile labelID x ws Hx Hid%str_empty_false. cbn. unfold delete_send, push. rewrite Hid.
  destruct (c_ctx c) eqn:Hc; cbn; [split; [done|]; intros [E _]; congruence|].
  destruct (c_send c) eqn:Hp; cbn; [split; [done|]; intros (_ & E & _); congruence|].
  by apply (post_changed ws x (Some (Ok (tt, (LabelEdit labelID "" 0 true, WDelete profile labelID)))) (~ quiet c) (fun _ => WDelete profile labelID)).
Qed.
Next Obligation.
  intros c profile a x ws Hx Ha. apply post_changed; [done|]. unfold assign_send. destruct (c_ctx c) eqn:Hc; [intros [E _]; congruence|].
  pose proof (assignment_send_spec c a true (WAssign profile a) Ha eq_refl) as Hs.
  destruct (sendAssignmentPatch _ _ _ _ _) as [[[p w]|e]|]; cbn in *; [by destruct Hs as [-> ?]| |done]. by intros (_ & E & _).
Qed.
Next Obligation.
  intros c profile a x ws Hx Ha. apply post_changed; [done|]. unfold unassign_send. destruct (c_ctx c) eqn:Hc; [intros [E _]; congruence|].
  pose proof (assignment_send_spec c a false (WUnassign profile a) Ha eq_refl) as Hs.
  destruct (sendAssignmentPatch _ _ _ _ _) as [[[p w]|e]|]; cbn in *; [by destruct Hs as [-> ?]| |done]. by intros (_ & E & _).
Qed.
End Desk.
End Session.

(** ** The methods *)

Definition label_request : Type := labels_method * call * RawMessage.

(** Parameters the method takes. *)
Definition valid_request (m : labels_method) (raw : RawMessage) : Prop :=
  match m with
  | MList => True
  | MCreate => exists name colorIndex, parseParams dec_create raw = Ok (name, colorIndex) /\ label_valid name colorIndex = true
  | MDelete => exists id, parseParams dec_id raw = Ok id /\ id <> ""
  | MAssign | MUnassign => exists p j, parseParams dec_assign raw = Ok p /\ as_LabelID p <> "" /\ Parse (as_Chat p) = Ok j
  end.
(** The assignment the parameters name. *)
Definition names_assignment (raw : RawMessage) (now : time) (a : LabelAssignment) : Prop :=
  exists p, parseParams dec_assign raw = Ok p /\ la_labelID a = as_LabelID p /\ la_labelID a <> "" /\ Parse (as_Chat p) = Ok (la_chat a)
  /\ la_messageID a = as_MessageID p /\ la_targetKind a = (if str_empty (as_MessageID p) then LabelTargetChat else LabelTargetMessage)
  /\ la_createdAt a = now.

(** What a request that succeeds did and answers, after the writes [ws]. *)
Definition succeeds (profile : string) (m : labels_method) (c : call) (raw : RawMessage) (ws : list write) (v : json) (ws' : list write) : Prop :=
  match m with
  | MList => ws' = ws /\ v = JObj [("labels", JArr (map label_json (labels_of profile (ledger_of ws))))]
  | MCreate => exists name colorIndex l, parseParams dec_create raw = Ok (name, colorIndex) /\ NewLabel (lb_id l) name colorIndex (c_now c) = Ok l
               /\ ws' = ws ++ [WCreate profile l] /\ v = JObj [("label", label_json l)]
  | MDelete => exists id, parseParams dec_id raw = Ok id /\ id <> "" /\ ws' = ws ++ [WDelete profile id] /\ v = JObj [("deleted", JBool true)]
  | MAssign => exists a, names_assignment raw (c_now c) a /\ ws' = ws ++ [WAssign profile a] /\ v = JObj [("assignment", assignment_json a)]
  | MUnassign => exists a, names_assignment raw (c_now c) a /\ ws' = ws ++ [WUnassign profile a] /\ v = JObj [("unassigned", JBool true)]
  end.

(** The feature is there: its flag, a business account, and a store. *)
Definition enabled (d : labels_conf) : bool := cf_flag d && cf_isBusiness d && cf_wired d.

(** One request: it is refused without the feature, fails without effect and
    not without a reason, or succeeds. *)
Definition reply_ok (d : labels_conf) (m : labels_method) (c : call) (raw : RawMessage) (ws : list write) (r : option (result json)) (ws' : list write) : Prop :=
  match r with
  | None => False
  | Some (Err e) => ws' = ws /\ (enabled d = false -> e = ERpc app.ErrLabelsUnsupported)
                    /\ (enabled d = true -> ~ (quiet c /\ valid_request m raw))
  | Some (Ok v) => enabled d = true /\ succeeds (cf_profile d) m c raw ws v ws'
  end.

Inductive labels_trace (d : labels_conf) : list write -> list label_request -> list (option (result json)) -> list write -> Prop :=
| trace_nil ws : labels_trace d ws [] [] ws
| trace_cons ws ws1 ws2 m c raw r reqs rs : reply_ok d m c raw ws r ws1 -> labels_trace d ws1 reqs rs ws2 ->
    labels_trace d ws ((m, c, raw) :: reqs) (r :: rs) ws2.

Fixpoint run_labels {S} {LM : LabelManager S} (d : labels_conf) (reqs : list label_request) (s : S) : list (option (result json)) * S :=
  match reqs with
  | [] => ([], s)
  | (m, c, raw) :: reqs =>
    let rs := handle_labels m d c raw s in
    let rest := run_labels d reqs rs.2 in (rs.1 :: rest.1, rest.2)
  end.

Lemma guard_cases d : (guardLabels d = Ok tt /\ enabled d = true)
  \/ (guardLabels d = Err (ERpc app.ErrLabelsUnsupported) /\ enabled d = false).
Proof. unfold guardLabels, guard, enabled. destruct (cf_flag d), (cf_isBusiness d), (cf_wired d); auto. Qed.

Section Laws.
Context {S : Type} {LM : LabelManager S} {laws : WriteLaws S}.

Lemma toAssignment_spec p now a : toAssignment p now = Ok a ->
  assign_ok a /\ la_labelID a = as_LabelID p /\ la_labelID a <> "" /\ Parse (as_Chat p) = Ok (la_chat a) /\ la_messageID a = as_MessageID p
  /\ la_targetKind a = (if str_empty (as_MessageID p) then LabelTargetChat else LabelTargetMessage) /\ la_createdAt a = now.
Proof.
  unfold toAssignment. rewrite guard_ok. intros [[Hl _]%orb_false_iff Ha]. destruct (Parse (as_Chat p)) as [j|] eqn:Hj; [|done].
  pose proof (Parse_wf _ _ Hj) as Hwf. apply str_empty_false in Hl.
  destruct (str_empty (as_MessageID p)) eqn:Hm; unfold NewChatLabelAssignment, NewMessageLabelAssignment in Ha; rewrite !guard_ok in Ha.
  - destruct Ha as (_ & _ & [= <-]). apply str_empty_true in Hm. by repeat split.
  - destruct Ha as (_ & _ & _ & [= <-]). by repeat split.
Qed.
Lemma toAssignment_total p now j : as_LabelID p <> "" -> Parse (as_Chat p) = Ok j -> is_ok (toAssignment p now) = true.
Proof.
  intros Hl%str_empty_false Hj. unfold toAssignment, guard, NewChatLabelAssignment, NewMessageLabelAssignment, guard.
  rewrite Hl, Hj, (wf_not_zero _ (Parse_wf _ _ Hj)). destruct (str_empty (as_Chat p)) eqn:Hc.
  - apply str_empty_true in Hc. by rewrite Hc in Hj.
  - cbn. by destruct (str_empty (as_MessageID p)).
Qed.

(** The frame all the writing methods share. *)
Lemma frame_spec {A B} d m c raw s ws (pre : result B) (k : B -> option (result A) * S) (name : string) (view : B -> A -> json) (w : B -> A -> write) (failing : B -> Prop) :
  store_holds s ws ->
  (guardLabels d = Err (ERpc app.ErrLabelsUnsupported) -> pre = Err (ERpc app.ErrLabelsUnsupported)) ->
  (guardLabels d = Ok tt -> valid_request m raw -> exists b, pre = Ok b /\ (failing b -> ~ quiet c)) ->
  (forall b, pre = Ok b -> changed store_holds ws (failing b) (w b) (k b)) ->
  (forall b a s', pre = Ok b -> k b = (Some (Ok a), s') -> succeeds (cf_profile d) m c raw ws (view b a) (ws ++ [w b a])) ->
  exists ws', reply_ok d m c raw ws (before pre s (fun b => answer name (view b) (k b))).1 ws' /\ store_holds (before pre s (fun b => answer name (view b) (k b))).2 ws'.
Proof.
  intros Hs Hg Hv Hk Hok. destruct (guard_cases d) as [[E En]|[E En]].
  - destruct pre as [b|e]; cbn.
    + specialize (Hk b eq_refl). unfold changed in Hk. specialize (Hok b). destruct (k b) as [[[a|e]|] s'] eqn:Ek; cbn in *; [| |done].
      * exists (ws ++ [w b a]). rewrite En. eauto.
      * exists ws. rewrite En. destruct Hk as [Hk Hf]. repeat split; try done. intros _ [Hq Hr].
        destruct (Hv E Hr) as (b' & [= <-] & Hq'). by apply Hq'.
    + exists ws. rewrite En. repeat split; try done. intros _ [_ Hr]. by destruct (Hv E Hr) as (b & ? & _).
  - rewrite (Hg E). exists ws. cbn. rewrite En. by repeat split.
Qed.

Lemma handle_writes_spec m d c raw s ws : m <> MList -> store_holds s ws ->
  exists ws', reply_ok d m c raw ws (handle_labels m d c raw s).1 ws' /\ store_holds (handle_labels m d c raw s).2 ws'.
Proof.
  intros Hm Hs. destruct m; cbn [handle_labels]; [done|..].
  - unfold handleLabelsCreate. apply (frame_spec d MCreate c raw s ws _ _ "labels.create" (fun _ l => JObj [("label", label_json l)])
      (fun _ l => WCreate (cf_profile d) l) (fun p => ~ (quiet c /\ label_valid p.1 p.2 = true))); [done| | | |].
    + by intros ->.
    + intros -> (name & col & -> & Hv). exists (name, col). cbn. unfold guard. destruct (str_empty name) eqn:E.
      * apply str_empty_true in E as ->. exfalso. by vm_compute in Hv.
      * split; [done|]. tauto.
    + intros p _. by apply law_create.
    + intros [name col] l s' Hp Hc. apply res_bind_ok in Hp as (_ & _ & Hp). apply res_bind_ok in Hp as ([n k] & Hp & Hg).
      rewrite guard_ok in Hg. destruct Hg as [_ [= -> ->]]. exists name, col, l. split; [done|]. split; [by eapply law_create|done].
  - unfold handleLabelsDelete. apply (frame_spec d MDelete c raw s ws _ _ "labels.delete" (fun _ _ => JObj [("deleted", JBool true)])
      (fun id _ => WDelete (cf_profile d) id) (fun _ => ~ quiet c)); [done| | | |].
    + by intros ->.
    + intros -> (id & -> & Hid%str_empty_false). exists id. cbn. unfold guard. by rewrite Hid.
    + intros id Hp. apply res_bind_ok in Hp as (_ & _ & Hp). apply res_bind_ok in Hp as (n & Hp & Hg).
      rewrite guard_ok in Hg. destruct Hg as [Hid [= ->]]. apply law_delete; [done|]. by apply str_empty_false.
    + intros id [] s' Hp _. apply res_bind_ok in Hp as (_ & _ & Hp). apply res_bind_ok in Hp as (n & Hp & Hg).
      rewrite guard_ok in Hg. destruct Hg as [Hid [= ->]]. exists id. repeat split; try done. by apply str_empty_false.
  - unfold handleLabelsAssign. apply (frame_spec d MAssign c raw s ws _ _ "labels.assign" (fun a _ => JObj [("assignment", assignment_json a)])
      (fun a _ => WAssign (cf_profile d) a) (fun _ => ~ quiet c)); [done| | | |].
    + by intros ->.
    + intros -> (p & j & -> & Hl & Hj). pose proof (toAssignment_total p (c_now c) j Hl Hj) as Ht. cbn.
      destruct (toAssignment p (c_now c)) as [a|]; [|done]. by exists a.
    + intros a Hp. apply res_bind_ok in Hp as (_ & _ & Hp). apply res_bind_ok in Hp as (p & _ & Hp). apply law_assign; [done|]. by eapply toAssignment_spec.
    + intros a [] s' Hp _. apply res_bind_ok in Hp as (_ & _ & Hp). apply res_bind_ok in Hp as (p & Hd & Hp).
      exists a. split; [|done]. apply toAssignment_spec in Hp. exists p. tauto.
  - unfold handleLabelsUnassign. apply (frame_spec d MUnassign c raw s ws _ _ "labels.unassign" (fun _ _ => JObj [("unassigned", JBool true)])
      (fun a _ => WUnassign (cf_profile d) a) (fun _ => ~ quiet c)); [done| | | |].
    + by intros ->.
    + intros -> (p & j & -> & Hl & Hj). pose proof (toAssignment_total p (c_now c) j Hl Hj) as Ht. cbn.
      destruct (toAssignment p (c_now c)) as [a|]; [|done]. by exists a.
    + intros a Hp. apply res_bind_ok in Hp as (_ & _ & Hp). apply res_bind_ok in Hp as (p & _ & Hp). apply law_unassign; [done|]. by eapply toAssignment_spec.
    + intros a [] s' Hp _. apply res_bind_ok in Hp as (_ & _ & Hp). apply res_bind_ok in Hp as (p & Hd & Hp).
      exists a. split; [|done]. apply toAssignment_spec in Hp. exists p. tauto.
Qed.

(** A listing that finds the ledger answers it. *)
Lemma handle_list_spec d c raw s ws :
  ListLabels c (cf_profile d) s = match c_ctx c with Some e => Err e | None => Ok (labels_of (cf_profile d) (ledger_of ws)) end ->
  reply_ok d MList c raw ws (handleLabelsList d c s).1 ws /\ (handleLabelsList d c s).2 = s.
Proof.
  intros Hl. unfold handleLabelsList. destruct (guard_cases d) as [[E En]|[E En]]; rewrite E; cbn; rewrite ?En; [|by repeat split].
  rewrite Hl. destruct (c_ctx c) eqn:Hc; cbn; rewrite ?En; [|by repeat split].
  repeat split; try done. intros _ [[Hq _] _]. congruence.
Qed.
End Laws.

Section Sequential.
Context {S : Type} {LM : LabelManager S} {laws : LabelLaws S}.

Lemma handle_labels_spec m d c raw s ws : store_holds s ws ->
  exists ws', reply_ok d m c raw ws (handle_labels m d c raw s).1 ws' /\ store_holds (handle_labels m d c raw s).2 ws'.
Proof.
  intros Hs. destruct (decide (m = MList)) as [->|Hm]; [|by apply handle_writes_spec].
  destruct (handle_list_spec d c raw s ws (law_list c _ s ws Hs)) as [Hr E]. exists ws. cbn. by rewrite E.
Qed.

Lemma run_labels_trace d reqs : forall s ws, store_holds s ws ->
  exists ws', labels_trace d ws reqs (run_labels d reqs s).1 ws' /\ store_holds (run_labels d reqs s).2 ws'.
Proof.
  induction reqs as [|[[m c] raw] reqs IH]; intros s ws Hs; [exists ws; by repeat constructor|]. cbn.
  destruct (handle_labels_spec m d c raw s ws Hs) as (ws1 & Hr & Hs1). destruct (IH _ _ Hs1) as (ws2 & Ht & Hs2).
  exists ws2. split; [by econstructor|done].
Qed.
End Sequential.

(** ** Requests that overlap *)

(** A store shows the ledger of its writes. *)
Definition shows {S} {LM : LabelManager S} (s : S) (ws : list write) : Prop :=
  forall c profile labelID, c_ctx c = None ->
    ListLabels c profile s = Ok (labels_of profile (ledger_of ws))
    /\ ListAssignments c profile labelID s = Ok (assigns_of profile labelID (ledger_of ws)).
Lemma store_shows {S} {LM : LabelManager S} {laws : LabelLaws S} s ws : store_holds s ws -> shows s ws.
Proof. intros Hs c profile labelID Hc. by rewrite (law_list _ _ _ _ Hs), (law_list_assigns _ _ _ _ _ Hs), Hc. Qed.

Section Interleaving.
Context {waJID : Type} (ParseWA : string -> option waJID) (d : labels_conf).

(** The adapter, the requests whose patch is out and that wait for the lock
    with the answer they will give, and those that were answered, in order. *)
Record office := mkOffice {
  of_store : adapter (waJID:=waJID); of_waiting : list (label_request * option (result json) * write);
  of_answered : list (label_request * option (result json)) }.
Definition new_office : office := mkOffice NewLabelsAdapter [] [].

(** A request runs up to the lock, or the [n]th that waits takes it. *)
Inductive office_act := ARun (m : labels_method) (c : call) (raw : RawMessage) | ALock (n : nat).
Definition office_do (o : office) (a : office_act) : office :=
  match a with
  | ARun m c raw =>
    let '(r, (s, out)) := handle_labels (LM := desk_labels ParseWA) m d c raw (of_store o, []) in
    match out with
    | [] => mkOffice s (of_waiting o) (of_answered o ++ [((m, c, raw), r)])
    | w :: _ => mkOffice s (of_waiting o ++ [((m, c, raw), r, w)]) (of_answered o)
    end
  | ALock n =>
    match of_waiting o !! n with
    | None => o
    | Some (q, r, w) => mkOffice (enter w (of_store o)) (delete n (of_waiting o)) (of_answered o ++ [(q, r)])
    end
  end.
Definition office_run : office -> list office_act -> office := foldl office_do.

(** What a request owes that did its write, whatever was written before. *)
Definition owes (f : label_request * option (result json) * write) : Prop :=
  let '(((m, c, raw), r), w) := f in forall ws, reply_ok d m c raw ws r (ws ++ [w]).

Lemma reply_shift m c raw ws0 r out : m <> MList -> reply_ok d m c raw ws0 r (ws0 ++ out) ->
  out = [] \/ exists w, out = [w] /\ owes ((m, c, raw), r, w).
Proof.
  intros Hm. unfold owes, reply_ok. destruct r as [[v|e]|]; [|intros [E _]; left|done].
  - intros [Hen Hs]. right. destruct m; cbn in *; [done|..].
    + destruct Hs as (name & col & l & Hp & Hl & E%app_inv_head & Hv). exists (WCreate (cf_profile d) l). split; [done|]. eauto 10.
    + destruct Hs as (id & Hp & Hid & E%app_inv_head & Hv). exists (WDelete (cf_profile d) id). split; [done|]. eauto 10.
    + destruct Hs as (a & Hn & E%app_inv_head & Hv). exists (WAssign (cf_profile d) a). split; [done|]. eauto 10.
    + destruct Hs as (a & Hn & E%app_inv_head & Hv). exists (WUnassign (cf_profile d) a). split; [done|]. eauto 10.
  - rewrite <- (app_nil_r ws0) in E at 2. by apply app_inv_head in E.
Qed.

Lemma trace_snoc ws0 reqs rs ws m c raw r ws' : labels_trace d ws0 reqs rs ws -> reply_ok d m c raw ws r ws' ->
  labels_trace d ws0 (reqs ++ [(m, c, raw)]) (rs ++ [r]) ws'.
Proof. intros Ht Hr. induction Ht as [|? ? ? ? ? ? ? ? ? Hr1 _ IH]; cbn; econstructor; eauto. constructor. Qed.

(** The ledger is the finished writes, in the order of their turns at the
    lock; it and what waits were pushed, each once. *)
Definition accounted (o : office) (ws : list write) : Prop :=
  tables_hold (la_tables (of_store o)) (ledger_of ws)
  /\ labels_trace d [] (of_answered o).*1 (of_answered o).*2 ws
  /\ Forall owes (of_waiting o)
  /\ exists pushed, pushed ≡ₚ ws ++ (of_waiting o).*2 /\ Forall2 (pushed_as ParseWA) pushed (la_sent (of_store o)).

Lemma lock_accounted o ws n : accounted o ws -> exists ws', accounted (office_do o (ALock n)) ws'.
Proof.
  intros (Ht & Htr & Hw & pushed & Hp & Hf). cbn. destruct (of_waiting o !! n) as [[[[[m c] raw] r] w]|] eqn:En; [|exists ws; split_and!; [done|done|done|by exists pushed]].
  exists (ws ++ [w]). unfold accounted. cbn [of_store of_waiting of_answered enter la_tables la_sent].
  pose proof (delete_Permutation _ _ _ En) as Hperm. rewrite Hperm in Hw. apply Forall_cons in Hw as [Ho Hw].
  split_and!; [by apply tables_hold_snoc| |done|].
  - rewrite !fmap_app. eapply trace_snoc; [exact Htr|]. apply Ho.
  - exists pushed. split; [|done]. rewrite Hp. rewrite <- app_assoc. apply Permutation_app_head. cbn. by rewrite Hperm at 1.
Qed.

Lemma run_accounted (parse_canonical : forall j, wf_jid j = true -> is_Some (ParseWA (JID_String j))) o ws m c raw :
  accounted o ws -> exists ws', accounted (office_do o (ARun m c raw)) ws'.
Proof.
  intros (Ht & Htr & Hw & pushed & Hp & Hf). exists ws. cbn [office_do]. destruct (decide (m = MList)) as [->|Hm].
  - pose proof (handle_list_spec (LM := desk_labels ParseWA) d c raw (of_store o, []) ws) as Hl. cbn [handle_labels] in *.
    destruct Hl as [Hr Hs]; [cbn; unfold wm_ListLabels; by rewrite (list_labels_spec _ _ _ Ht)|].
    destruct (handleLabelsList (LM := desk_labels ParseWA) d c (of_store o, [])) as [r [s out]]. cbn in Hs. injection Hs as -> ->. cbn.
    split_and!; [done| |done|by exists pushed]. cbn [of_answered]. rewrite !fmap_app. by eapply trace_snoc.
  - assert (H0 : desk_holds ParseWA (la_tables (of_store o)) (la_sent (of_store o)) ws (of_store o, []) ws).
    { split; [done|]. split; [by rewrite app_nil_r|]. exists []. by rewrite app_nil_r. }
    destruct (handle_writes_spec (laws := desk_laws ParseWA parse_canonical (la_tables (of_store o)) (la_sent (of_store o)) ws)
      m d c raw _ ws Hm H0) as (ws1 & Hr & Hd).
    destruct (handle_labels (LM := desk_labels ParseWA) m d c raw (of_store o, [])) as [r [s out]]. cbn in Hr. destruct Hd as (E & -> & ps & Hs & Hps). cbn in E, Hs, Hps, Hr.
    destruct (reply_shift m c raw ws r out Hm Hr) as [->|(w & -> & Ho)]; unfold accounted; cbn [of_store of_waiting of_answered].
    + inversion Hps; subst. rewrite app_nil_r in Hs, Hr. rewrite E, Hs. split_and!; [done| |done|by exists pushed].
      rewrite !fmap_app. by eapply trace_snoc.
    + rewrite E, Hs. split_and!; [done|done|apply Forall_app; by repeat constructor|].
      exists (pushed ++ [w]). rewrite fmap_app, app_assoc. split; [by rewrite Hp|]. by apply Forall2_app.
Qed.

Lemma office_accounted (parse_canonical : forall j, wf_jid j = true -> is_Some (ParseWA (JID_String j))) l :
  exists ws, accounted (office_run new_office l) ws.
Proof.
  induction l as [|a l (ws & IH)] using rev_ind.
  - exists []. split_and!; [apply no_tables_hold|constructor|constructor|]. exists []. by split.
  - unfold office_run. rewrite foldl_app. cbn. destruct a; [by eapply run_accounted|by eapply lock_accounted].
Qed.
End Interleaving.

(** C33. The labels of a business account are a ledger, also while requests
    overlap.  In memory an operation holds the lock throughout, so requests
    are a sequence; over WhatsApp a request runs up to the lock, its patch
    already out, and any others run and finish before it takes it.  In both,
    the requests that were answered, in the order of their turns at the lock,
    are answered as one ledger of labels and assignments: unless the flag, a
    business account and the store are all there, every request is refused as
    unsupported; a request that fails changes nothing, and fails only if its
    parameters are not valid or something outside failed; one that succeeds
    does exactly the one write its parameters name, under the profile of the
    daemon, and a listing answers the labels of the profile in the order of
    their creation, the finished ones only.  A deletion takes the assignments
    of the label with it and a repeated assignment adds none.  The patches
    WhatsApp accepted are those of the finished and the waiting writes, one
    each, in the order of the pushes, which need not be that of the turns
    ([crossing_leaves_stale]).  No call panics, if the client library parses
    canonical JIDs. *)
Theorem labels_refine_ledger {waJID : Type} (ParseWA : string -> option waJID) (d : labels_conf) :
  (forall j, wf_jid j = true -> is_Some (ParseWA (JID_String j))) ->
  (forall reqs, let '(rs, s) := run_labels (LM := memory_labels) d reqs NewLabelManager in
     exists ws, labels_trace d [] reqs rs ws /\ shows (LM := memory_labels) s ws)
  /\ (forall acts, let o := office_run ParseWA d new_office acts in
     exists ws, labels_trace d [] (of_answered o).*1 (of_answered o).*2 ws
     /\ shows (LM := whatsmeow_labels ParseWA) (of_store o) ws
     /\ Forall (owes d) (of_waiting o)
     /\ exists pushed, pushed ≡ₚ ws ++ (of_waiting o).*2
        /\ Forall2 (fun w p => patch_of ParseWA w = Some p) pushed (la_sent (of_store o))).
Proof.
  intros Hparse. split.
  - intros reqs. destruct (run_labels_trace (laws := memory_laws) d reqs NewLabelManager [] no_tables_hold) as (ws & Ht & Hs).
    destruct (run_labels _ _ _) as [rs s]. exists ws. split; [done|by apply (store_shows (laws := memory_laws))].
  - intros acts o. destruct (office_accounted ParseWA d Hparse acts) as (ws & Ht & Htr & Hw & Hp). exists ws.
    split_and!; try done. intros c profile labelID Hc. cbn. unfold wm_ListLabels, wm_ListAssignments.
    by rewrite (list_labels_spec _ _ _ Ht), (list_assigns_spec _ _ _ _ Ht), Hc.
Qed.

(** A write under one profile is not seen under another. *)
Lemma ledger_isolated g w profile : match w with WCreate p _ | WDelete p _ | WAssign p _ | WUnassign p _ => p <> profile end ->
  labels_of profile (ledger_write g w) = labels_of profile g
  /\ forall labelID, assigns_of profile labelID (ledger_write g w) = assigns_of profile labelID g.
Proof.
  assert (Hdrop : forall (K V : Type) (p q : K * V -> bool) (l : list (K * V)), (forall kv, p kv = true -> q kv = true) ->
            List.filter p (List.filter q l) = List.filter p l).
  { intros K V p q l Hpq. induction l as [|kv l IH]; [done|]. cbn. destruct (q kv) eqn:Hq; cbn; [by rewrite IH|].
    destruct (p kv) eqn:Hp; [|done]. apply Hpq in Hp. congruence. }
  assert (Ho : forall (p labelID : string) (k : assignRowKey), of_label p labelID k = true -> k.1.1.1.1 = p).
  { intros p labelID k [Hk%String.eqb_eq _]%andb_true_iff. done. }
  intros Hne. unfold labels_of, assigns_of. destruct w as [p l|p id|p a|p a]; cbn [ledger_write g_labels g_assigns]; (split; [|intros labelID]); try done.
  - rewrite List.filter_app, Hdrop.
    + cbn. apply String.eqb_neq in Hne as ->. by rewrite app_nil_r.
    + intros kv Hk%String.eqb_eq. unfold other, apart. rewrite bool_decide_false; [done|]. intros E. by rewrite E in Hk.
  - rewrite Hdrop; [done|]. intros kv Hk%String.eqb_eq. unfold other, apart. rewrite bool_decide_false; [done|]. intros E. by rewrite E in Hk.
  - rewrite Hdrop; [done|]. intros kv Hk. apply negb_true_iff, not_true_iff_false. intros Hk'.
    apply Ho in Hk, Hk'. congruence.
  - cbn zeta. by destruct (existsb _ _).
  - cbn zeta. destruct (existsb _ _); [done|]. cbn. rewrite List.filter_app. cbn. unfold of_label at 2. cbn.
    apply String.eqb_neq in Hne as ->. by rewrite app_nil_r.
  - rewrite Hdrop; [done|]. intros kv Hk. unfold other, apart. rewrite bool_decide_false; [done|]. intros E.
    apply Ho in Hk. by rewrite E in Hk.
Qed.

End Refinement.

(** ** The account and the commands *)

Lemma tag_contained s : containsBusinessProfileTag s = str_contains s "business_profile".
Proof.
  unfold str_contains. induction s as [|c s IH]; [done|].
  cbn [containsBusinessProfileTag str_index]. destruct (has_prefix "business_profile" (String c s)); [done|]. cbn [orb].
  rewrite IH. by destruct (str_index "business_profile" s).
Qed.
(** Only an answer that carries a profile makes the account a business. *)
Lemma startup_business paired has_device asked :
  startup_isBusiness paired has_device asked = true <-> paired = true /\ has_device = true /\ asked = Ok true.
Proof.
  unfold startup_isBusiness, DetectBusiness, guard. destruct paired, has_device, asked as [[]|e]; cbn; try naive_solver.
  destruct (isElementMissing e); naive_solver.
Qed.

(** The daemon reads what the commands send. *)
Lemma create_command_read name color j : 0 <= color < 2 ^ 63 -> create_params name color = Ok j -> parseParams dec_create (Some j) = Ok (name, color).
Proof.
  intros Hc. unfold create_params. rewrite guard_ok. intros [_ [= <-]]. unfold parseParams, dec_create, field. cbn. by rewrite (parse_itoa _ Hc).
Qed.
Lemma delete_command_read id j : delete_params id = Ok j -> parseParams dec_id (Some j) = Ok id /\ id <> "".
Proof. unfold delete_params. rewrite guard_ok. intros [Hid%str_empty_false [= <-]]. done. Qed.
Lemma assign_command_read method labelID chat messageID j : sendLabelAssignment method labelID chat messageID = Ok j ->
  parseParams dec_assign (Some j) = Ok (mkAssign labelID chat messageID) /\ labelID <> "" /\ chat <> "".
Proof.
  unfold sendLabelAssignment. rewrite guard_ok. intros [[Hl%str_empty_false Hc%str_empty_false]%orb_false_iff [= <-]]. split; [|done].
  destruct (str_empty messageID) eqn:Hm; [apply str_empty_true in Hm as ->|]; reflexivity.
Qed.

(** ** A demonstration *)

#[local] Instance demo_labels : MapRange labelRowKey Label := {| range := map_to_list; range_perm := fun m => reflexivity _ |}.
#[local] Instance demo_assigns : MapRange assignRowKey LabelAssignment := {| range := map_to_list; range_perm := fun m => reflexivity _ |}.
(** JIDs of the library as their text. *)
Definition demo_jid (s : string) : option string := Some s.
Definition demo_call (b : string) : call := mkCall None (of_unix 1700000000) (Ok b) None.
Definition demo_conf : labels_conf := mkConf true true true "default".
Definition demo_chat : JID := mkJID "5511999999999" serverUser.
Definition demo_assignment (id : string) : LabelAssignment := mkLabelAssignment id LabelTargetChat demo_chat "" (of_unix 1700000000).
Definition demo_object (m : list (string * string)) : RawMessage := Some (JObj (map (fun kv => (kv.1, jstr kv.2)) m)).

Definition assign_41 : RawMessage := demo_object [("labelID", "41"); ("chat", "5511999999999")].
(** Two labels, the second of which takes the lock first, an assignment made
    twice, a deletion, and a listing while another assignment waits. *)
Definition demo_acts : list office_act :=
  [ARun MCreate (demo_call "A") (demo_object [("name", " Work ")]); ARun MCreate (demo_call "B") (demo_object [("name", "Home")]);
   ALock 1; ALock 0; ARun MAssign (demo_call "") assign_41; ARun MAssign (demo_call "") assign_41; ALock 0; ALock 0;
   ARun MDelete (demo_call "") (demo_object [("id", "41")]); ALock 0; ARun MAssign (demo_call "") assign_41; ARun MList (demo_call "") None].

Lemma labels_refine_ledger_witness :
  let o := office_run demo_jid demo_conf new_office demo_acts in
  List.last (of_answered o).*2 None = Some (Ok (JObj [("labels", JArr [label_json (mkLabel "42" "Home" 0 (of_unix 1700000000) (of_unix 1700000000))])]))
  /\ length (la_sent (of_store o)) = 6%nat /\ length (of_waiting o) = 1%nat
  /\ exists ws, labels_trace demo_conf [] (of_answered o).*1 (of_answered o).*2 ws.
Proof.
  destruct (labels_refine_ledger demo_jid demo_conf) as [_ H]; [by intros j _; exists (JID_String j)|].
  destruct (H demo_acts) as (ws & Ht & _).
  split; [vm_compute; reflexivity|]. split; [vm_compute; reflexivity|]. split; [vm_compute; reflexivity|]. exists ws. exact Ht.
Defined.

(** An assignment and its removal overlap: WhatsApp heard the removal last,
    and the daemon goes on listing the assignment. *)
Lemma crossing_leaves_stale :
  let o := office_run demo_jid demo_conf new_office
    [ARun MAssign (demo_call "") (demo_object [("labelID", "7"); ("chat", "5511999999999")]);
     ARun MUnassign (demo_call "") (demo_object [("labelID", "7"); ("chat", "5511999999999")]); ALock 1; ALock 0] in
  of_waiting o = []
  /\ la_sent (of_store o) = [LabelChat "5511999999999@s.whatsapp.net" "7" true; LabelChat "5511999999999@s.whatsapp.net" "7" false]
  /\ list_assigns "default" "7" (la_tables (of_store o)) = [demo_assignment "7"].
Proof. vm_compute. auto. Qed.

(** A label that was never created can be assigned. *)
Lemma assign_unknown_label :
  let '(rs, s) := run_labels (LM := memory_labels) demo_conf [(MAssign, demo_call "", demo_object [("labelID", "ghost"); ("chat", "5511999999999")])] NewLabelManager in
  match rs with [Some (Ok _)] => True | _ => False end /\ list_labels "default" (m_tables s) = [].
Proof. vm_compute. auto. Qed.

(** A colour outside the palette is answered as an internal error. *)
Lemma bad_colour_is_internal :
  match (handleLabelsCreate (LM := memory_labels) demo_conf (demo_call "") (Some (JObj [("name", jstr "Work"); ("colorIndex", jint 20)])) NewLabelManager).1 with
  | Some (Err e) => (RPCWire (Some e)).1 = -32603
  | _ => False
  end.
Proof. vm_compute. reflexivity. Qed.
